(* ===== verification/_CoqProject ===== *)
-Q . S2P
Prelude.v
GoStrings.v
Regex.v
ApiCommon.v
ApiInputs.v
ApiFilters.v
ApiOutputs.v
ApiForwarder.v
Sets.v
Conditions.v
ObsResources.v
ObsInputs.v
ObsOutputs.v
ObsForwarder.v
Initialize.v
ValidateCommon.v
GoTime.v
ValidateFilters.v
ValidateInputs.v
AwsAuth.v
ValidateOutputs.v
ValidatePipelines.v
Validate.v
Reconcile.v
System.v
VectorHelpers.v
Toml.v
Transforms.v
VrlText.v
Template.v
FilterVRL.v
Viaq.v
Network.v
Adapters.v
ContainerPaths.v
Tls.v
SinkTypes.v
Sources.v
SourcesSpec.v
OutputCommon.v
Outputs.v
SyslogOutput.v
LokiOutput.v
OtlpOutput.v
OutputFactory.v
OutputTexts.v
OutputsSpec.v
LokiStackSpec.v
LokiStackOtel.v
Conf.v
Config.v
ConfigSpec.v
ConfigExamples.v
InputServices.v
Md5.v
Workload.v
WorkloadSpec.v
ApiExporter.v
Cluster.v
ReconcileObjects.v
ReconcileObjectsSpec.v
ClusterProgress.v
CollectorObjects.v
CollectorProgress.v
CollectorSpec.v
CollectorExamples.v
EndToEnd.v
MetricExporter.v
MetricExporterSpec.v
ExporterExamples.v
Admission.v
AdmissionSpec.v
Telemetry.v
Dashboard.v
Examples.v
EndToEndExamples.v
