(* ===== verification/Prelude.v ===== *)
(** * Verification of the cluster-logging-operator: root and prelude

    The operator watches [ClusterLogForwarder] resources: a user declares inputs,
    filters, outputs and pipelines that join them, and the operator deploys a collector
    (Vector) whose configuration it generates.  One reconciliation reads the resource,
    fetches the secrets and config maps it names, completes the spec, validates it,
    writes the verdict in the status, and either deploys the collector or removes it.
    This library models that path in Rocq, from the resource to the components of the
    configuration, and proves what each part promises to the next one.

    ** The files and the code they model

    Foundations:
    - [Prelude]: outcomes of calls (return, panic, exit), folds, maps, strings, numbers;
      [GoStrings]: package [strings], [strconv] and [path] as far as they are used;
      [Regex]: regular expressions with derivatives, [GoTime]: calendar and time stamps;
      [Sets]: [internal/utils/sets] and [internal/utils/options.go].
    - [ApiCommon], [ApiInputs], [ApiFilters], [ApiOutputs], [ApiForwarder]:
      [api/observability/v1], records for structs, [option] for pointers, and for each the
      rules the API server enforces ([*_admitted]).

    The spec and its status ([internal/api]):
    - [Conditions], [ObsResources], [ObsInputs], [ObsOutputs], [ObsForwarder]:
      [internal/api/observability]; [Initialize]: [internal/api/initialize].

    Validation ([internal/validations/observability]):
    - [ValidateCommon], [ValidateFilters], [ValidateInputs], [ValidateOutputs] (with
      [internal/generator/url]), [ValidatePipelines], and [Validate], which composes them;
      [AwsAuth]: [internal/collector/aws] and its clients.

    The controller ([internal/controller/observability]):
    - [Reconcile]: one reconciliation, as the list of writes it sends to a cluster that
      answers arbitrarily; [System]: the life of a forwarder, a step relation over what
      the API server stores.
    - [Network]: [internal/network/ports.go], the network policies of [internal/factory]
      and [internal/runtime]; [InputServices]: the services of metrics and receivers, as
      maps by name, with the requests that fail as parameters; [CollectorObjects] has the
      same loops over the objects of the cluster, request by request.

    The configuration of the collector ([internal/generator]):
    - [Toml], [Transforms], [VrlText], [VectorHelpers]: the layout of programs, the test
      of multi-line literals, identifiers and paths; [FilterVRL], [Viaq]: the program of
      each filter; [Adapters]: pipelines and what they feed.
    - [ContainerPaths]: globs of log files and selectors of pods; [Tls]: [internal/tls],
      [framework] and [common/tls]; [Sources]: the sources of the inputs and
      [SourcesSpec] what they collect.
    - [Template]: the templates of users; [SinkTypes]: [api/sinks]; [OutputCommon],
      [Outputs], [SyslogOutput], [LokiOutput], [OtlpOutput]: the packages of [output], a
      [*_New] for each type; [OutputFactory]: [output/lokistack], [factory.go] and the
      exporter of metrics.  [OutputTexts] shows that their programs stay in their
      literals, [OutputsSpec] and [LokiStackSpec] what each output is made of,
      [LokiStackOtel] what LokiStack outputs leave to others.
    - [Conf], [Config]: [conf.go], which puts sources, transforms and sinks together, and
      [ConfigSpec] that the result is closed.

    The objects of the collector ([internal/collector], [internal/reconcile]):
    - [Md5]: the hash of the configuration; [Workload]: the pod, the daemon set, the
      deployment and the config map of a collector, with [WorkloadSpec].
    - [Cluster]: the objects a server keeps and the client's requests, any of which may
      fail, as a monad of state and errors with its rules ([wp]); [ReconcileObjects]:
      [internal/reconcile], [internal/utils/comparators] and [internal/auth], with
      [ReconcileObjectsSpec]; [ClusterProgress]: the rules with which calls are shown to
      end, and to succeed on a server that answers.
    - [CollectorObjects]: [ReconcileCollector] and what it calls, with [CollectorSpec],
      which says what any run of it leaves in the cluster, [CollectorProgress], which says
      when it ends and that its loops over the services of the receivers refine those of
      [InputServices], and [CollectorExamples].
    - [EndToEnd]: the controller of forwarders over the reconciliation of the collector,
      and what starts it, with [EndToEndExamples].

    The other controllers:
    - [ApiExporter], [MetricExporter]: the exporter of log file metrics
      ([api/logging/v1alpha1], [internal/metrics/logfilemetricexporter], its validation and
      controller), with [MetricExporterSpec] and [ExporterExamples].
    - [Admission]: [internal/admission] and its controller, which protect the accounts of
      the collectors, with [AdmissionSpec]; [Telemetry]: the metrics of
      [internal/metrics/telemetry]; [Dashboard]: [internal/metrics/dashboard] and
      [internal/controller/tlsprofile].

    - [Examples], [ConfigExamples]: the concrete forwarders the witnesses of most theorems
      use.

    ** Conventions

    A map of Go is a [gmap]; where the source ranges over one, the order is a parameter
    ([RangeOrder], an arbitrary permutation), so that a theorem holds for every order or
    says on which it depends.  A nil map and an empty one are told apart only where the
    code does.  A pointer that the code writes through is threaded as state.  Integers
    keep their width where the code converts or parses them.  A method that may
    dereference nil or panic returns an [outcome]; theorems say exactly when it returns.
    The loops of the source are over finite collections and become structural recursion,
    but for the two of [Template] that go on behind a call: their rounds are bounded by
    the length of the text, which [Template.template_loops_terminate] shows to be enough.
    The retries and polls of [Cluster] and [CollectorObjects] are as many as the code
    asks for, and a time-out is one of the results.  Each definition is total.

    Code outside of the repository is a parameter: the API server ([cluster] and
    [getsa]/[review] for the controller, [ApiServer] for the objects), the environment, [url.Parse], [regexp.Compile] on the patterns of users,
    [json.Unmarshal] of credentials, the forms of a time other than RFC 3339, the TOML
    encoder, the profiles of [openshift/api], the host ([OpenshiftTLS], [Host],
    [GoCipherSuites]) and what the language leaves open of conversions ([UintOfFloat]).
    Regular expressions that the source itself declares are modelled in full, and their
    compiled form is proved to be the language they denote.

    ** What the theorems show

    - Reconciliation: only validated forwarders are deployed, unauthorized ones are
      removed, the status says what happened, and for the whole life of a forwarder the
      stored status and the running workloads agree ([System.reachable_invariant]); from
      every reachable state a healthy cluster settles ([System.rounds_settle]).
    - Validation: [Validate.ValidateClusterLogForwarder_correct] refines the validators to
      a specification, [Validate.forwarder_ok]; the theorems of each validator give its
      verdict on every branch, with the order of maps where messages depend on it.
    - Configuration: [ConfigSpec.Conf_closed] shows that an accepted forwarder gives a
      closed configuration in which no text of a user can leave the literal it is put in,
      up to what neither the API nor the validation looks at, which
      [ConfigSpec.forwarder_ok_config] lists; without it outputs replace one another
      ([ConfigExamples.outputs_collide]) or the operator stops
      ([LokiStackOtel.lokistack_otel_returns]).  [Adapters.NewPipeline_correct],
      [SourcesSpec.NewSource_correct] and [LokiStackSpec.output_New_correct] give the
      shape of each part, [SourcesSpec.containers_collected] which log files are read,
      [Template.TransformUserTemplateToVRL_correct] what templates become.
    - Objects: the collector can read what its configuration reads
      ([WorkloadSpec.sources_reachable]), its volumes, labels and selectors fit
      ([WorkloadSpec.NewPodSpec_volumes], [WorkloadSpec.workload_selected]), each kind of
      object is brought to what is wanted or left alone, and a workload runs only with the
      configuration that was generated for it, however the requests end; a forwarder that
      can be deployed is ([CollectorSpec.ReconcileCollector_correct]).
      [EndToEnd.Reconcile_collects] puts the parts together, from the stored forwarder to
      the pods: what the initialization and the validation establish is what the
      configuration and the objects need, up to what [EndToEnd.unseen] lists.
    - The other controllers: the exporter is reported ready only if it is deployed
      ([MetricExporterSpec.exporter_controller_correct]), the admission policies let no one
      else use the accounts of forwarders
      ([AdmissionSpec.SyncProtectedServiceAccounts_correct]), and the metrics of the operator
      are counted right and accepted by the registry ([Telemetry.Collect_correct]).
    - Credentials, names, ports and hashes: what is written, its bounds, and the inputs
      on which it panics, collides or is not what was meant.

    ** Not modelled

    [Reconcile] takes the result of [ReconcileCollector] from its cluster; [EndToEnd]
    assumes that it is the one of [CollectorObjects], all else any result.  Of the objects
    the fields are modelled that the operator sets or reads; what a server adds on its own
    (defaults, versions) is not, and an update never meets another writer except as a
    conflict.  The registration of metrics with Prometheus and the wiring of the manager
    ([cmd]) call libraries and decide nothing that is modelled here.  Generated deep
    copies, must-gather, bundle, tests and vendored code are left out. *)

From Stdlib Require Export Ascii.
From stdpp Require Export base tactics decidable option list list_monad gmap
  strings sorting numbers pretty.

(** ** Go's strings

    A Go [string] is a sequence of bytes and is modelled by [string].  The
    scope [go_scope] gives string equality the look it has in the source. *)

Declare Scope go_scope.
Delimit Scope go_scope with go.

Notation "a == b" := (String.eqb a b) (at level 70, no associativity) : go_scope.
Notation "a != b" := (negb (String.eqb a b)) (at level 70, no associativity) : go_scope.

#[global] Arguments String.append !s1 s2 : simpl nomatch.

Global Open Scope string_scope.
Global Open Scope list_scope.
Global Open Scope go_scope.

(** Following a pointer field of a pointer: absent when either is nil.  The
    source writes [p != nil && p.f != nil] before it uses [p.f]. *)
Notation "p ⇀ f" := (@mbind option option_bind _ _ f p)
  (at level 45, left associativity) : go_scope.

(** The entries of a slice of pointers that are not nil. *)
Definition somes {A} (l : list (option A)) : list A := omap id l.

Lemma elem_of_somes {A} (l : list (option A)) x : x ∈ somes l ↔ Some x ∈ l.
Proof.
  unfold somes. rewrite list_elem_of_omap. unfold id. split; [by intros (y & ? & ->)|]. by exists (Some x).
Qed.

(** ** Outcomes

    A Go call returns, panics (a nil dereference or an explicit [panic]) or
    ends the process with [os.Exit].  Errors that are ordinary return values
    are modelled by the data the function returns, not here. *)

Inductive outcome (A : Type) : Type :=
  | Ret (a : A)
  | Panic (why : string)
  | Exit (code : Z).
Arguments Ret {A} a.
Arguments Panic {A} why.
Arguments Exit {A} code.

#[export] Instance outcome_ret : MRet outcome := λ A a, Ret a.
#[export] Instance outcome_bind : MBind outcome := λ A B f m,
  match m with
  | Ret a => f a
  | Panic why => Panic why
  | Exit code => Exit code
  end.
#[export] Instance outcome_fmap : FMap outcome := λ A B f m,
  match m with
  | Ret a => Ret (f a)
  | Panic why => Panic why
  | Exit code => Exit code
  end.

(** Dereferencing a pointer: [nil] panics. *)
Definition deref {A} (p : option A) : outcome A :=
  match p with
  | Some a => Ret a
  | None => Panic "nil dereference"
  end.

(** The call returned a value. *)
Definition returns {A} (m : outcome A) : Prop := ∃ a, m = Ret a.

Definition returnsb {A} (m : outcome A) : bool :=
  match m with Ret _ => true | _ => false end.

Section outcome.
Context {A B : Type}.
Implicit Types (m : outcome A) (f : A → outcome B).

Lemma returns_ret (a : A) : returns (Ret a).
Proof. by exists a. Qed.

Lemma returnsb_true m : returnsb m = true ↔ returns m.
Proof. unfold returns. destruct m; simpl; naive_solver. Qed.

Lemma Ret_inj (a a' : A) : Ret a = Ret a' → a = a'.
Proof. by intros [= ->]. Qed.

Lemma bind_ret_inv m f b : m ≫= f = Ret b → ∃ a, m = Ret a ∧ f a = Ret b.
Proof. destruct m; simpl; intros; by eauto. Qed.

Lemma returns_bind m f :
  returns m → (∀ a, m = Ret a → returns (f a)) → returns (m ≫= f).
Proof. intros [a ->] Hf. by apply Hf. Qed.

Lemma returns_bind_inv m f : returns (m ≫= f) → returns m.
Proof. intros [b Hb]. destruct (bind_ret_inv _ _ _ Hb) as (a & -> & _). by exists a. Qed.

Lemma returns_fmap (g : A → B) m : returns m → returns (g <$> m).
Proof. intros [a ->]. by exists (g a). Qed.

Lemma returns_deref (p : option A) : is_Some p → returns (deref p).
Proof. intros [a ->]. by exists a. Qed.
End outcome.

(** Running a body for each element of a slice, collecting what it appends:
    the shape of the code's [for ... { results = append(results, f(x)...) }]. *)
Fixpoint concat_mapM {A B} (f : A → outcome (list B)) (l : list A) : outcome (list B) :=
  match l with
  | [] => Ret []
  | x :: l => ys ← f x; zs ← concat_mapM f l; Ret (ys ++ zs)
  end.

Lemma concat_mapM_returns {A B} (f : A → outcome (list B)) l :
  (∀ x, x ∈ l → returns (f x)) → returns (concat_mapM f l).
Proof.
  induction l as [|x l IH]; intros Hf; simpl; [apply returns_ret|].
  apply returns_bind; [apply Hf; set_solver|]. intros ys _.
  apply returns_bind; [apply IH; set_solver|]. intros zs _. apply returns_ret.
Qed.

Lemma concat_mapM_returns_iff {A B} (f : A → outcome (list B)) l :
  returns (concat_mapM f l) ↔ ∀ x, x ∈ l → returns (f x).
Proof.
  split; [|apply concat_mapM_returns]. induction l as [|x l IH]; simpl; [by intros _ x ?%not_elem_of_nil|].
  intros [ys (zs & Hx & (ws & Hl & _)%bind_ret_inv)%bind_ret_inv].
  intros y [->|Hy]%elem_of_cons; [by exists zs|]. apply IH; [by exists ws|done].
Qed.

Lemma elem_of_concat_mapM {A B} (f : A → outcome (list B)) l ys y :
  concat_mapM f l = Ret ys → y ∈ ys ↔ ∃ x zs, x ∈ l ∧ f x = Ret zs ∧ y ∈ zs.
Proof.
  revert ys. induction l as [|x l IH]; intros ys; simpl.
  { intros [= <-]. set_solver. }
  intros (zs & Hx & (ws & Hl & [= <-])%bind_ret_inv)%bind_ret_inv.
  rewrite elem_of_app, (IH ws Hl). split.
  - intros [Hy|(x' & zs' & ? & ? & ?)].
    + exists x, zs. set_solver.
    + exists x', zs'. set_solver.
  - intros (x' & zs' & [->|?]%elem_of_cons & Hx' & ?); [|by eauto 10].
    rewrite Hx in Hx'. simplify_eq. by left.
Qed.

(** A loop that threads a state through a slice and may panic. *)
Fixpoint foldM {A S} (f : S → A → outcome S) (s : S) (l : list A) : outcome S :=
  match l with
  | [] => Ret s
  | x :: l => s' ← f s x; foldM f s' l
  end.

Lemma foldM_inv {A S} (P : S → Prop) (f : S → A → outcome S) s l :
  P s → (∀ s x, x ∈ l → P s → ∃ s', f s x = Ret s' ∧ P s') →
  ∃ s', foldM f s l = Ret s' ∧ P s'.
Proof.
  revert s. induction l as [|x l IH]; intros s Hs Hf; simpl; [by eauto|].
  destruct (Hf s x) as (s' & Hfx & Hs'); [set_solver|done|].
  rewrite Hfx; simpl. apply IH; [done|]. intros; apply Hf; set_solver.
Qed.

(** ** Ranging over a map

    Go visits the entries of a map in an unspecified order: every definition
    that ranges over a map takes the order as a [RangeOrder], of which it is
    only known that it visits each entry once. *)

Class RangeOrder := {
  range : ∀ {V : Type}, gmap string V → list (string * V);
  range_perm : ∀ {V : Type} (m : gmap string V), range m ≡ₚ map_to_list m;
}.

(** An order to run the definitions with. *)
Definition canonical_order : RangeOrder := {|
  range := λ V m, map_to_list m;
  range_perm := λ V m, Permutation_refl _;
|}.

(** Another one. *)
Lemma reversed_perm {V} (m : gmap string V) : reverse (map_to_list m) ≡ₚ map_to_list m.
Proof. apply reverse_Permutation. Qed.

Definition reversed_order : RangeOrder := {|
  range := λ V m, reverse (map_to_list m);
  range_perm := λ V m, reversed_perm m;
|}.

Section range.
Context `{RangeOrder} {V : Type}.
Implicit Types m : gmap string V.

Lemma elem_of_range m k v : (k, v) ∈ range m ↔ m !! k = Some v.
Proof. by rewrite range_perm, elem_of_map_to_list. Qed.

Lemma elem_of_range_fst m k : k ∈ (range m).*1 ↔ is_Some (m !! k).
Proof.
  rewrite list_elem_of_fmap. split.
  - intros ([k' v] & -> & Hv%elem_of_range). eauto.
  - intros [v Hv]. exists (k, v). by rewrite elem_of_range.
Qed.

Lemma NoDup_range_fst m : NoDup (range m).*1.
Proof. rewrite range_perm. apply NoDup_fst_map_to_list. Qed.
End range.

(** The elements of a set of strings in the order [Do] and [UnsortedList] of the
    set libraries visit them: the order of the map that holds them. *)
Definition set_order `{RangeOrder} (s : gset string) : list string :=
  (range (gset_to_gmap () s)).*1.

Lemma set_order_perm `{RangeOrder} s : set_order s ≡ₚ elements s.
Proof.
  apply NoDup_Permutation.
  - apply NoDup_range_fst.
  - apply NoDup_elements.
  - intros x. unfold set_order. rewrite list_elem_of_fmap, elem_of_elements. split.
    + intros ([k []] & -> & Hk). simpl.
      apply elem_of_range, lookup_gset_to_gmap_Some in Hk. naive_solver.
    + intros Hx. exists (x, ()). split; [done|].
      by apply elem_of_range, lookup_gset_to_gmap_Some.
Qed.

Lemma elem_of_set_order `{RangeOrder} s x : x ∈ set_order s ↔ x ∈ s.
Proof. by rewrite set_order_perm, elem_of_elements. Qed.

Lemma NoDup_set_order `{RangeOrder} s : NoDup (set_order s).
Proof. rewrite set_order_perm. apply NoDup_elements. Qed.

(** ** Messages: when nothing was appended to a list of results *)

Lemma bind_nil_iff {A B} (f : A → list B) l : l ≫= f = [] ↔ ∀ x, x ∈ l → f x = [].
Proof.
  induction l as [|x l IH]; [set_solver|]. rewrite bind_cons, app_nil, IH. split.
  - intros [Hx Hl] y [->|]%elem_of_cons; auto.
  - intros Hall. split; [apply Hall; set_solver|]. intros y Hy. apply Hall. set_solver.
Qed.

Lemma if_nil {A} (b : bool) (x : A) : (if b then [x] else []) = [] ↔ b = false.
Proof. by destruct b. Qed.

Lemma mjoin_nil {A} (l : list (list A)) : mjoin l = [] ↔ ∀ x, x ∈ l → x = [].
Proof.
  induction l as [|x l IH]; simpl; [by split; [intros _ ? ?%not_elem_of_nil|]|].
  rewrite app_nil, IH. set_solver.
Qed.

Lemma forall_app_iff {A} (P : A → Prop) l1 l2 :
  (∀ x, x ∈ l1 ++ l2 → P x) ↔ (∀ x, x ∈ l1 → P x) ∧ (∀ x, x ∈ l2 → P x).
Proof. set_solver. Qed.

Lemma forall_cons_iff {A} (P : A → Prop) y l :
  (∀ x, x ∈ y :: l → P x) ↔ P y ∧ (∀ x, x ∈ l → P x).
Proof. set_solver. Qed.

Lemma forall_bind_iff {A B} (P : B → Prop) (f : A → list B) l :
  (∀ x, x ∈ (l ≫= f) → P x) ↔ ∀ y, y ∈ l → ∀ x, x ∈ f y → P x.
Proof. setoid_rewrite list_elem_of_bind. naive_solver. Qed.

Lemma list_mjoin_imap_nil {A B} (f : nat → A → list B) l :
  mjoin (imap f l) = [] ↔ ∀ i x, l !! i = Some x → f i x = [].
Proof.
  revert f. induction l as [|x l IH]; intros f; [by split|].
  rewrite imap_cons. simpl. rewrite app_nil, IH. split.
  - intros [Hx Hl] [|i] y; simpl; [by intros [= <-]|apply Hl].
  - intros Hall. split; [by apply (Hall 0)|]. intros i y. apply (Hall (S i)).
Qed.

Lemma message_nil (err : string) : (if err != "" then [err] else []) = [] ↔ err = "".
Proof. destruct (String.eqb_spec err ""); simpl; naive_solver. Qed.

Lemma exists_cons_iff {A} (P : A → Prop) y l :
  (∃ x, x ∈ y :: l ∧ P x) ↔ P y ∨ ∃ x, x ∈ l ∧ P x.
Proof.
  split; [intros (x & [->|?]%elem_of_cons & ?); eauto|].
  intros [?|(x & ? & ?)]; [exists y|exists x]; rewrite elem_of_cons; auto.
Qed.

Lemma exists_nil_iff {A} (P : A → Prop) : (∃ x, x ∈ @nil A ∧ P x) ↔ False.
Proof. split; [by intros (? & ?%not_elem_of_nil & _)|done]. Qed.

(** ** Strings and lists: automation shared by the components *)

Create HintDb go discriminated.
#[export] Hint Resolve returns_ret returns_fmap returns_deref : go.
#[export] Hint Rewrite String.eqb_refl : go.

(** Case analysis on the string comparisons of the source. *)
Ltac go_cases :=
  repeat match goal with
  | |- context [String.eqb ?a ?b] => destruct (String.eqb_spec a b)
  | H : context [String.eqb ?a ?b] |- _ => destruct (String.eqb_spec a b)
  end; simplify_eq/=.

(** Case analysis on the matches and ifs of a goal, left to right. *)
Ltac go_step :=
  match goal with
  | |- context [match ?x with _ => _ end] =>
      lazymatch x with
      | context [match _ with _ => _ end] => fail
      | _ => destruct x eqn:?; simplify_eq/=
      end
  end.

Ltac inv_bind H :=
  let x := fresh "x" in let Hx := fresh "Hx" in
  apply bind_ret_inv in H as (x & Hx & H).

Lemma String_eqb_bool_decide (s t : string) : (s == t) = bool_decide (s = t).
Proof. destruct (String.eqb_spec s t); [by rewrite bool_decide_true | by rewrite bool_decide_false]. Qed.

(** The last binding of each key, as repeated assignment [m[k] = v] leaves it. *)
Definition map_of_assignments {V} (l : list (string * V)) : gmap string V :=
  foldl (λ m kv, <[kv.1 := kv.2]> m) ∅ l.

Lemma map_of_assignments_app {V} (l1 l2 : list (string * V)) :
  map_of_assignments (l1 ++ l2) =
  foldl (λ m kv, <[kv.1 := kv.2]> m) (map_of_assignments l1) l2.
Proof. unfold map_of_assignments. by rewrite foldl_app. Qed.

Lemma map_of_assignments_snoc {V} (l : list (string * V)) k v :
  map_of_assignments (l ++ [(k, v)]) = <[k := v]> (map_of_assignments l).
Proof. by rewrite map_of_assignments_app. Qed.

(** A key is bound exactly when it was assigned. *)
Lemma map_of_assignments_dom {V} (l : list (string * V)) k :
  is_Some (map_of_assignments l !! k) ↔ k ∈ l.*1.
Proof.
  induction l as [|[k' v] l IH] using rev_ind.
  { unfold map_of_assignments; simpl. rewrite lookup_empty.
    split; [intros [? [=]] | intros []%not_elem_of_nil]. }
  rewrite map_of_assignments_snoc, fmap_app, elem_of_app; simpl.
  rewrite list_elem_of_singleton.
  destruct (decide (k' = k)) as [->|].
  - rewrite lookup_insert_eq. naive_solver.
  - rewrite lookup_insert_ne by done. naive_solver.
Qed.

(** A bound value was assigned to its key. *)
Lemma map_of_assignments_elem {V} (l : list (string * V)) k v :
  map_of_assignments l !! k = Some v → (k, v) ∈ l.
Proof.
  induction l as [|[k' v'] l IH] using rev_ind; [done|].
  rewrite map_of_assignments_snoc, elem_of_app, list_elem_of_singleton.
  destruct (decide (k' = k)) as [->|].
  - rewrite lookup_insert_eq. intros [= ->]. by right.
  - rewrite lookup_insert_ne by done. eauto.
Qed.

(** With distinct keys every assignment is the binding of its key. *)
Lemma map_of_assignments_NoDup {V} (l : list (string * V)) k v :
  NoDup l.*1 → map_of_assignments l !! k = Some v ↔ (k, v) ∈ l.
Proof.
  intros Hnd. split; [apply map_of_assignments_elem|].
  induction l as [|[k' v'] l IH] using rev_ind; [by intros ?%not_elem_of_nil|].
  rewrite fmap_app, NoDup_app in Hnd. destruct Hnd as (Hl & Hd & _).
  rewrite map_of_assignments_snoc, elem_of_app, list_elem_of_singleton.
  intros [Hin|[= -> ->]]; [|by rewrite lookup_insert_eq].
  rewrite lookup_insert_ne; [by apply IH|].
  intros <-. apply (Hd k'); [|set_solver].
  apply list_elem_of_fmap. by exists (k', v).
Qed.
