(* ===== verification/GoStrings.v ===== *)
(** * The parts of Go's [strings], [strconv], [fmt] and [sort] the operator uses

    Strings are byte sequences.  [ToLower], [TrimSpace] and [Quote] follow Go on
    ASCII; bytes from 128 on (the bytes of non-ASCII runes) are kept as they
    are, which is what Go does for the printable ones. *)

From S2P Require Import Prelude.

(** A double quote and the escapes, by their codes. *)
Definition dquote : ascii := "034"%char.
Definition squote : ascii := "'"%char.
Definition DQ : string := String dquote "".
Definition LF : string := String "010"%char "".
Definition CR : string := String "013"%char "".

(** [strings.HasPrefix] and [strings.HasSuffix]. *)
Definition HasPrefix (s pre : string) : bool := String.prefix pre s.

Fixpoint HasSuffix (s suf : string) : bool :=
  (s == suf) || match s with "" => false | String _ s => HasSuffix s suf end.

(** [strings.Contains]. *)
Fixpoint Contains (s sub : string) : bool :=
  String.prefix sub s || match s with "" => false | String _ s => Contains s sub end.

Fixpoint in_string (c : ascii) (s : string) : bool :=
  match s with "" => false | String d s => Ascii.eqb c d || in_string c s end.

(** [strings.ContainsAny]. *)
Fixpoint ContainsAny (s chars : string) : bool :=
  match s with "" => false | String c s => in_string c chars || ContainsAny s chars end.

(** [strings.CutPrefix]: the rest after the prefix, if there is one. *)
Fixpoint CutPrefix (s pre : string) {struct pre} : option string :=
  match pre, s with
  | "", _ => Some s
  | String c pre, String d s => if Ascii.eqb c d then CutPrefix s pre else None
  | String _ _, "" => None
  end.

Definition TrimPrefix (s pre : string) : string := default s (CutPrefix s pre).

(** [strings.Join]. *)
Fixpoint Join (l : list string) (sep : string) : string :=
  match l with
  | [] => ""
  | [s] => s
  | s :: l => s +:+ sep +:+ Join l sep
  end.

(** [strings.Split] on a one-byte separator. *)
Fixpoint Split (s : string) (sep : ascii) : list string :=
  match s with
  | "" => [""]
  | String c s =>
      if Ascii.eqb c sep then "" :: Split s sep
      else match Split s sep with
           | [] => [String c ""]
           | t :: ts => String c t :: ts
           end
  end.

(** Replacing every byte by a string: [strings.NewReplacer] and
    [strings.ReplaceAll] with one-byte old strings. *)
Fixpoint map_bytes (f : ascii → string) (s : string) : string :=
  match s with "" => "" | String c s => f c +:+ map_bytes f s end.

Definition ReplaceAll (s : string) (old : ascii) (new : string) : string :=
  map_bytes (λ c, if Ascii.eqb c old then new else String c "") s.

Definition lower_byte (c : ascii) : ascii :=
  let n := Ascii.nat_of_ascii c in
  if (65 <=? n)%nat && (n <=? 90)%nat then Ascii.ascii_of_nat (n + 32) else c.

(** [strings.ToLower]. *)
Fixpoint ToLower (s : string) : string :=
  match s with "" => "" | String c s => String (lower_byte c) (ToLower s) end.

Definition is_space (c : ascii) : bool :=
  let n := Ascii.nat_of_ascii c in
  ((9 <=? n)%nat && (n <=? 13)%nat) || (n =? 32)%nat.

Fixpoint trim_left (s : string) : string :=
  match s with
  | String c s' => if is_space c then trim_left s' else s
  | "" => ""
  end.

Fixpoint trim_right (s : string) : string :=
  match s with
  | "" => ""
  | String c s =>
      match trim_right s with
      | "" => if is_space c then "" else String c ""
      | t => String c t
      end
  end.

(** [strings.TrimSpace]. *)
Definition TrimSpace (s : string) : string := trim_right (trim_left s).

Definition hex_digit (n : nat) : string :=
  default "" (String.get n "0123456789abcdef" ≫= λ c, Some (String c "")).

(** The escape of one byte in [strconv.Quote], the [%q] of [fmt]. *)
Definition quote_byte (c : ascii) : string :=
  let n := Ascii.nat_of_ascii c in
  if (n =? 34)%nat then "\" +:+ DQ
  else if (n =? 92)%nat then "\\"
  else if (n =? 7)%nat then "\a"
  else if (n =? 8)%nat then "\b"
  else if (n =? 12)%nat then "\f"
  else if (n =? 10)%nat then "\n"
  else if (n =? 13)%nat then "\r"
  else if (n =? 9)%nat then "\t"
  else if (n =? 11)%nat then "\v"
  else if (n <? 32)%nat || (n =? 127)%nat
       then "\x" +:+ hex_digit (n / 16) +:+ hex_digit (n mod 16)
  else String c "".

Definition Quote (s : string) : string := DQ +:+ map_bytes quote_byte s +:+ DQ.

(** [fmt.Sprintf] of a slice of strings with [%v] and with [%q]. *)
Definition Sprint_strings (l : list string) : string := "[" +:+ Join l " " +:+ "]".
Definition Sprint_quoted (l : list string) : string := "[" +:+ Join (map Quote l) " " +:+ "]".

(** [%d]. *)
Definition Itoa (z : Z) : string := pretty z.
Definition Itoa_nat (n : nat) : string := pretty (N.of_nat n).

(** [sort.Strings]: byte-wise lexicographic order. *)
Definition sort_strings (l : list string) : list string := merge_sort String.le l.

(** [filepath.Clean] and [filepath.Join]: the elements of the path left after
    dots and dot-dots are resolved, last first. *)
Definition clean_step (rooted : bool) (stack : list string) (e : string) : list string :=
  if (e == "") || (e == ".") then stack
  else if e == ".." then
    match stack with
    | [] => if rooted then [] else [".."]
    | t :: rest => if t == ".." then ".." :: stack else rest
    end
  else e :: stack.

Definition Clean (path : string) : string :=
  if path == "" then "."
  else
    let rooted := HasPrefix path "/" in
    let elems := rev (foldl (clean_step rooted) [] (Split path "/")) in
    if rooted then "/" +:+ Join elems "/"
    else match elems with [] => "." | _ => Join elems "/" end.

Definition PathJoin (elems : list string) : string :=
  match filter (λ e, e ≠ "") elems with
  | [] => ""
  | l => Clean (Join l "/")
  end.

(** The first [n] bytes of a string: the slice [s[:n]] of a long enough one. *)
Fixpoint take_bytes (n : nat) (s : string) : string :=
  match n, s with
  | S n, String c s => String c (take_bytes n s)
  | _, _ => ""
  end.

(** ** Lemmas on the order *)

Lemma sort_strings_perm l : sort_strings l ≡ₚ l.
Proof. apply merge_sort_Permutation. Qed.

Lemma sort_strings_sorted l : StronglySorted String.le (sort_strings l).
Proof. apply StronglySorted_merge_sort; apply _. Qed.

Lemma elem_of_sort_strings l x : x ∈ sort_strings l ↔ x ∈ l.
Proof. by rewrite sort_strings_perm. Qed.

(** Sorting makes the order of the argument irrelevant. *)
Lemma sort_strings_proper l1 l2 : l1 ≡ₚ l2 → sort_strings l1 = sort_strings l2.
Proof.
  intros Hp. eapply (StronglySorted_unique String.le).
  - apply sort_strings_sorted.
  - apply sort_strings_sorted.
  - by rewrite !sort_strings_perm.
Qed.

Lemma sort_strings_singleton s : sort_strings [s] = [s].
Proof. done. Qed.

#[export] Instance sort_strings_Proper : Proper (Permutation ==> eq) sort_strings.
Proof. intros l1 l2. apply sort_strings_proper. Qed.

(** ** Lemmas on append and search *)

Lemma string_app_assoc (s t u : string) : (s +:+ t) +:+ u = s +:+ (t +:+ u).
Proof. induction s; simpl; congruence. Qed.

Lemma string_app_nil_r (s : string) : s +:+ "" = s.
Proof. induction s; simpl; congruence. Qed.

Lemma string_app_length (s t : string) :
  String.length (s +:+ t) = String.length s + String.length t.
Proof. induction s; simpl; congruence. Qed.

Lemma string_app_inj_l (p s t : string) : p +:+ s = p +:+ t → s = t.
Proof. induction p; simpl; [done|]. intros [=]. auto. Qed.

Lemma string_app_inj_r (s1 s2 t : string) : s1 +:+ t = s2 +:+ t → s1 = s2.
Proof.
  revert s2. induction s1 as [|c s1 IH]; intros [|d s2]; simpl; intros E; [done| | |].
  - apply (f_equal String.length) in E. simpl in E. rewrite string_app_length in E. lia.
  - apply (f_equal String.length) in E. simpl in E. rewrite string_app_length in E. lia.
  - injection E as -> E. f_equal. by apply IH.
Qed.

Lemma string_app_eq_nil (s t : string) : s +:+ t = "" ↔ s = "" ∧ t = "".
Proof. destruct s; simpl; naive_solver. Qed.

Lemma prefix_spec (pre s : string) : String.prefix pre s = true ↔ ∃ t, s = pre +:+ t.
Proof.
  revert s. induction pre as [|c pre IH]; intros s; simpl.
  - split; [by eauto|by destruct s].
  - destruct s as [|d s]; [split; [done|intros [? [=]]]|].
    cbn [String.prefix]. destruct (Ascii.ascii_dec c d) as [->|].
    + rewrite IH. split; intros [t Ht]; exists t; congruence.
    + split; [done|]. naive_solver.
Qed.

Lemma HasPrefix_spec (s pre : string) : HasPrefix s pre = true ↔ ∃ t, s = pre +:+ t.
Proof. apply prefix_spec. Qed.

Lemma HasPrefix_app (pre s : string) : HasPrefix (pre +:+ s) pre = true.
Proof. apply HasPrefix_spec. by exists s. Qed.

Lemma HasSuffix_spec (s suf : string) : HasSuffix s suf = true ↔ ∃ p, s = p +:+ suf.
Proof.
  induction s as [|c s IH]; cbn -[String.eqb].
  - destruct (String.eqb_spec "" suf) as [<-|]; simpl.
    + split; [by exists ""|done].
    + split; [done|]. intros [[|? ?] Hp]; simplify_eq/=.
  - rewrite orb_true_iff, IH. destruct (String.eqb_spec (String c s) suf) as [<-|Hne].
    + split; [by exists ""|by left].
    + split.
      * intros [?|[p ->]]; [done|]. by exists (String c p).
      * intros [[|d p] Hp]; simplify_eq/=. right. by exists p.
Qed.

Lemma Contains_spec (s sub : string) :
  Contains s sub = true ↔ ∃ p q, s = p +:+ (sub +:+ q).
Proof.
  induction s as [|c s IH]; cbn -[String.prefix]; rewrite orb_true_iff, prefix_spec.
  - split.
    + intros [[t Ht]|?]; [|done]. by exists "", t.
    + intros ([|? ?] & q & Hq); simplify_eq/=. left. by exists q.
  - rewrite IH. split.
    + intros [[t Ht]|(p & q & ->)]; [by exists "", t|by exists (String c p), q].
    + intros ([|d p] & q & Hq); simplify_eq/=; [left; by exists q|right; eauto].
Qed.

Lemma CutPrefix_spec (s pre t : string) : CutPrefix s pre = Some t ↔ s = pre +:+ t.
Proof.
  revert s. induction pre as [|c pre IH]; intros s; simpl; [split; congruence|].
  destruct s as [|d s]; [done|]. destruct (Ascii.eqb_spec c d) as [->|].
  - rewrite IH. split; congruence.
  - split; [done|congruence].
Qed.

Lemma in_string_app c (s t : string) : in_string c (s +:+ t) = in_string c s || in_string c t.
Proof. induction s; simpl; [done|]. by rewrite IHs, orb_assoc. Qed.

Lemma ContainsAny_app (s t chars : string) :
  ContainsAny (s +:+ t) chars = ContainsAny s chars || ContainsAny t chars.
Proof. induction s; simpl; [done|]. by rewrite IHs, orb_assoc. Qed.

Lemma ContainsAny_spec (s chars : string) :
  ContainsAny s chars = true ↔ ∃ c, in_string c chars = true ∧ in_string c s = true.
Proof.
  induction s as [|d s IH]; simpl; [by split; [|intros (? & ? & ?)]|].
  rewrite orb_true_iff, IH. split.
  - intros [?|(c & ? & ?)]; [exists d|exists c]; by rewrite ?Ascii.eqb_refl, ?orb_true_iff; auto.
  - intros (c & Hc & [->%Ascii.eqb_eq|?]%orb_true_iff); [by left|right; eauto].
Qed.

Lemma map_bytes_app f (s t : string) : map_bytes f (s +:+ t) = map_bytes f s +:+ map_bytes f t.
Proof. induction s; simpl; [done|]. by rewrite IHs, string_app_assoc. Qed.

(** Lower-casing is idempotent. *)
Lemma ToLower_idemp s : ToLower (ToLower s) = ToLower s.
Proof.
  induction s as [|c s IH]; simpl; [done|]. rewrite IH. f_equal.
  clear. destruct c as [[] [] [] [] [] [] [] []]; reflexivity.
Qed.

Lemma ToLower_app s t : ToLower (s +:+ t) = ToLower s +:+ ToLower t.
Proof. induction s; simpl; congruence. Qed.

(** ** [Split] and [Join] *)

Lemma Split_nonempty s c : Split s c ≠ [].
Proof. destruct s; simpl; [done|]. case_match; [done|]. by destruct (Split _ _). Qed.

Lemma Split_no_sep s c : in_string c s = false → Split s c = [s].
Proof.
  induction s as [|d s IH]; simpl; [done|]. intros [Hd Hs]%orb_false_iff.
  rewrite Ascii.eqb_sym, Hd. by rewrite (IH Hs).
Qed.

Lemma Split_app s t c :
  in_string c s = false →
  Split (s +:+ String c t) c = s :: Split t c.
Proof.
  induction s as [|d s IH]; simpl; intros Hs.
  - by rewrite Ascii.eqb_refl.
  - apply orb_false_iff in Hs as [Hd Hs]. rewrite Ascii.eqb_sym, Hd. by rewrite (IH Hs).
Qed.

Lemma Join_cons s l sep : l ≠ [] → Join (s :: l) sep = s +:+ sep +:+ Join l sep.
Proof. by destruct l. Qed.

(** Splitting at a separator and joining with it is the identity. *)
Lemma Join_Split s c : Join (Split s c) (String c "") = s.
Proof.
  induction s as [|d s IH]; cbn [Split]; [done|].
  destruct (Ascii.eqb_spec d c) as [->|].
  - rewrite Join_cons by apply Split_nonempty. by rewrite IH.
  - destruct (Split s c) as [|t ts] eqn:E; [by apply Split_nonempty in E|].
    rewrite <-IH. destruct ts; [done|]. reflexivity.
Qed.

(** Splitting a join of separator-free parts gives the parts back. *)
Lemma Split_Join l c :
  l ≠ [] → (∀ s, s ∈ l → in_string c s = false) → Split (Join l (String c "")) c = l.
Proof.
  induction l as [|s l IH]; [done|]. intros _ Hl.
  destruct l as [|t l]; [simpl; apply Split_no_sep, Hl; set_solver|].
  rewrite Join_cons by done.
  change (String c "" +:+ Join (t :: l) (String c "")) with (String c (Join (t :: l) (String c ""))).
  rewrite Split_app by (apply Hl; set_solver). f_equal. apply IH; [done|]. set_solver.
Qed.

Lemma Split_concat s t c : Split (s +:+ String c t) c = Split s c ++ Split t c.
Proof.
  induction s as [|d s IH]; cbn [Split String.append]; [by rewrite Ascii.eqb_refl|].
  destruct (Ascii.eqb d c); [by rewrite IH|]. rewrite IH.
  destruct (Split s c) as [|u us] eqn:E; [by apply Split_nonempty in E|done].
Qed.

Lemma HasSuffix_snoc s c : HasSuffix (s +:+ String c "") (String c "") = true.
Proof. apply HasSuffix_spec. by exists s. Qed.

Lemma HasSuffix_no s c : in_string c s = false → HasSuffix s (String c "") = false.
Proof.
  intros Hs. apply not_true_is_false. intros [p ->]%HasSuffix_spec.
  rewrite in_string_app in Hs. simpl in Hs. by rewrite Ascii.eqb_refl, orb_true_r in Hs.
Qed.

Lemma HasPrefix_no s c : in_string c s = false → HasPrefix s (String c "") = false.
Proof.
  intros Hs. apply not_true_is_false. intros [p ->]%HasPrefix_spec.
  simpl in Hs. by rewrite Ascii.eqb_refl in Hs.
Qed.

(** Whether a text ends with a byte depends on the end of the text only. *)
Lemma HasSuffix_app s t c : t ≠ "" → HasSuffix (s +:+ t) (String c "") = HasSuffix t (String c "").
Proof.
  intros Ht. induction s as [|d s IH]; [done|].
  cbn [String.append HasSuffix]. rewrite IH.
  destruct (String.eqb_spec (String d (s +:+ t)) (String c "")) as [E|]; [|done].
  injection E as _ E. apply string_app_eq_nil in E as [_ ->]. done.
Qed.

Lemma Split_app_last s t c :
  in_string c t = false →
  ∃ parts last, Split s c = parts ++ [last] ∧ Split (s +:+ t) c = parts ++ [last +:+ t].
Proof.
  intros Ht. induction s as [|d s IH]; cbn [Split String.append].
  { exists [], "". split; [done|]. by rewrite Split_no_sep. }
  destruct IH as (parts & last & -> & ->).
  destruct (Ascii.eqb d c).
  - by exists ("" :: parts), last.
  - destruct parts as [|p parts]; [by exists [], (String d last)|by exists (String d p :: parts), last].
Qed.

Lemma Split_parts_clean s c d part :
  in_string d s = false → part ∈ Split s c → in_string d part = false.
Proof.
  revert part. induction s as [|e s IH]; intros part; cbn [Split].
  { by intros _ ->%list_elem_of_singleton. }
  cbn [in_string]. intros [He Hs]%orb_false_iff.
  destruct (Ascii.eqb e c).
  - intros [->|Hin]%elem_of_cons; [done|]. by apply IH.
  - destruct (Split s c) as [|t ts] eqn:E.
    + intros ->%list_elem_of_singleton. simpl. by rewrite He.
    + intros [->|Hin]%elem_of_cons.
      * simpl. rewrite He. apply IH; [done|]. by left.
      * apply IH; [done|]. by right.
Qed.

Lemma ContainsAny_not s chars c :
  ContainsAny s chars = false → in_string c chars = true → in_string c s = false.
Proof.
  intros Hs Hc. apply not_true_is_false. intros Hin. apply not_true_iff_false in Hs. apply Hs.
  apply ContainsAny_spec. eauto.
Qed.

(** ** Trimming *)

Lemma trim_left_space c s : is_space c = true → trim_left (String c s) = trim_left s.
Proof. by intros ?; simpl; case_match. Qed.

Lemma trim_left_nonspace c s : is_space c = false → trim_left (String c s) = String c s.
Proof. intros Hc. cbn [trim_left]. by rewrite Hc. Qed.

Lemma trim_right_snoc_space s c : is_space c = true → trim_right (s +:+ String c "") = trim_right s.
Proof.
  intros Hc. induction s as [|d s IH].
  - cbn [String.append trim_right]. by rewrite Hc.
  - cbn [String.append trim_right]. by rewrite IH.
Qed.

Lemma trim_right_snoc_nonspace s c :
  is_space c = false → trim_right (s +:+ String c "") = s +:+ String c "".
Proof.
  intros Hc. induction s as [|d s IH].
  - cbn [String.append trim_right]. by rewrite Hc.
  - cbn [String.append trim_right]. rewrite IH. by destruct s.
Qed.

(** A string from its end. *)
Lemma string_rev_ind (P : string → Prop) :
  P "" → (∀ s c, P s → P (s +:+ String c "")) → ∀ s, P s.
Proof.
  intros Hnil Hsnoc. enough (∀ t s, P s → P (s +:+ t)) as H by (intros s; by apply (H s "")).
  induction t as [|c t IH]; intros s Hs; [by rewrite string_app_nil_r|].
  replace (s +:+ String c t) with ((s +:+ String c "") +:+ t) by by rewrite string_app_assoc.
  apply IH. by apply Hsnoc.
Qed.

Lemma trim_left_snoc s c :
  trim_left (s +:+ String c "") =
  if decide (trim_left s = "") then trim_left (String c "") else trim_left s +:+ String c "".
Proof.
  induction s as [|d s IH]; [done|]. cbn [String.append].
  destruct (is_space d) eqn:Hd.
  - rewrite !trim_left_space by done. exact IH.
  - rewrite !trim_left_nonspace by done. by rewrite decide_False by done.
Qed.

Lemma TrimSpace_cons_space c s : is_space c = true → TrimSpace (String c s) = TrimSpace s.
Proof. intros Hc. unfold TrimSpace. by rewrite trim_left_space. Qed.

Lemma TrimSpace_snoc_space s c : is_space c = true → TrimSpace (s +:+ String c "") = TrimSpace s.
Proof.
  intros Hc. unfold TrimSpace. rewrite trim_left_snoc. case_decide as E.
  - by rewrite E, trim_left_space.
  - by apply trim_right_snoc_space.
Qed.

Lemma TrimSpace_snoc_nonspace s c : is_space c = false → TrimSpace (s +:+ String c "") ≠ "".
Proof.
  intros Hc. unfold TrimSpace. rewrite trim_left_snoc. case_decide as E.
  - rewrite trim_left_nonspace by done. simpl. by rewrite Hc.
  - rewrite trim_right_snoc_nonspace by done. by destruct (trim_left s).
Qed.

(** What is left starts and ends with something that is not a space. *)
Lemma TrimSpace_nonspace s :
  TrimSpace s = "" ∨ ∃ c, is_space c = false ∧
    (∃ t, TrimSpace s = String c t) ∧ ∃ u d, TrimSpace s = u +:+ String d "" ∧ is_space d = false.
Proof.
  unfold TrimSpace. induction s as [|c s IH]; [by left|].
  destruct (is_space c) eqn:Hc; [by rewrite trim_left_space|clear IH].
  rewrite trim_left_nonspace by done. right. exists c. split; [done|].
  induction s as [|s d IH] using string_rev_ind.
  - simpl. rewrite Hc. split; [by eexists|]. exists "", c. done.
  - destruct (is_space d) eqn:Hd.
    + change (String c (s +:+ String d "")) with (String c s +:+ String d "").
      by rewrite trim_right_snoc_space.
    + change (String c (s +:+ String d "")) with (String c s +:+ String d "").
      rewrite trim_right_snoc_nonspace by done. split; [by eexists|]. by exists (String c s), d.
Qed.

Lemma TrimSpace_fixed c u d s :
  s = String c u → is_space c = false → (∃ v, s = v +:+ String d "") → is_space d = false → TrimSpace s = s.
Proof.
  intros -> Hc (v & E) Hd. unfold TrimSpace. rewrite trim_left_nonspace by done.
  rewrite E. by apply trim_right_snoc_nonspace.
Qed.

Lemma TrimSpace_idemp s : TrimSpace (TrimSpace s) = TrimSpace s.
Proof.
  destruct (TrimSpace_nonspace s) as [->|(c & Hc & [t E] & u & d & E' & Hd)]; [done|].
  by eapply TrimSpace_fixed; eauto.
Qed.

(** Trimming takes a part of the text. *)
Lemma TrimSpace_part s : ∃ p q, s = p +:+ TrimSpace s +:+ q.
Proof.
  induction s as [|c s (p & q & E)]; [by exists "", ""|].
  destruct (is_space c) eqn:Hc.
  - exists (String c p), q. rewrite TrimSpace_cons_space by done. simpl. by rewrite <-E.
  - clear p q E. exists "". cbn [String.append]. induction s as [|s d IH] using string_rev_ind.
    + exists "". unfold TrimSpace. simpl. rewrite Hc. simpl. by rewrite Hc.
    + change (String c (s +:+ String d "")) with (String c s +:+ String d "").
      destruct (is_space d) eqn:Hd.
      * rewrite TrimSpace_snoc_space by done. destruct IH as (q & E). exists (q +:+ String d "").
        by rewrite <-string_app_assoc, <-E.
      * exists "". rewrite string_app_nil_r. symmetry.
        eapply (TrimSpace_fixed c _ d); [done|done|by eexists|done].
Qed.

(** ** Searching across a separator *)

Lemma Contains_app_l s t p : Contains s p = true → Contains (s +:+ t) p = true.
Proof.
  rewrite !Contains_spec. intros (a & b & ->). exists a, (b +:+ t). by rewrite !string_app_assoc.
Qed.

Lemma Contains_app_r s t p : Contains t p = true → Contains (s +:+ t) p = true.
Proof.
  rewrite !Contains_spec. intros (a & b & ->). exists (s +:+ a), b. by rewrite !string_app_assoc.
Qed.

Lemma prefix_sep p s c t :
  in_string c p = false → String.prefix p (s +:+ String c t) = String.prefix p s.
Proof.
  revert s. induction p as [|d p IH]; intros s Hp; [by destruct s|].
  cbn [in_string] in Hp. apply orb_false_iff in Hp as [Hd Hp].
  destruct s as [|e s].
  - cbn [String.append String.prefix]. destruct (Ascii.ascii_dec d c) as [->|]; [|done].
    by rewrite Ascii.eqb_refl in Hd.
  - cbn [String.append String.prefix]. destruct (Ascii.ascii_dec d e); [by apply IH|done].
Qed.

(** A text without the separator is found on one of its sides. *)
Lemma Contains_sep s c t p :
  p ≠ "" → in_string c p = false →
  Contains (s +:+ String c t) p = Contains s p || Contains t p.
Proof.
  intros Hne Hp. induction s as [|d s IH].
  - cbn [String.append Contains]. destruct p as [|e p]; [done|]. cbn [String.prefix].
    destruct (Ascii.ascii_dec e c) as [->|]; [|done].
    cbn [in_string] in Hp. by rewrite Ascii.eqb_refl in Hp.
  - cbn [String.append Contains]. rewrite IH, orb_assoc. f_equal. f_equal.
    change (String d (s +:+ String c t)) with (String d s +:+ String c t). by apply prefix_sep.
Qed.

(** The text before the first separator is determined. *)
Lemma sep_inj d (s t s' t' : string) :
  in_string d s = false → in_string d t = false → s +:+ String d s' = t +:+ String d t' → s = t ∧ s' = t'.
Proof.
  revert t. induction s as [|c s IH]; intros [|e t]; cbn [in_string String.append].
  - by intros _ _ [= ->].
  - intros _ [Hd _]%orb_false_iff [= -> _]. by rewrite Ascii.eqb_refl in Hd.
  - intros [Hd _]%orb_false_iff _ [= -> _]. by rewrite Ascii.eqb_refl in Hd.
  - intros [_ Hs]%orb_false_iff [_ Ht]%orb_false_iff [= -> E]. destruct (IH t Hs Ht E). by subst.
Qed.

