(* ===== verification/Regex.v ===== *)
(** * The regular expressions of the source

    The operator matches strings against constant regular expressions of Go's
    [regexp] package.  Each is written here as a syntax tree and matched with
    derivatives; [fullmatch_spec] relates the matcher to the language of the
    tree.  Anchored expressions are [fullmatch]ed, the others [search]ed. *)

From S2P Require Import Prelude GoStrings.

(** ** Syntax and language *)

Inductive regex : Type :=
  | Nothing
  | Eps
  | Char (p : ascii → bool)
  | Seq (r1 r2 : regex)
  | Alt (r1 r2 : regex)
  | Star (r : regex).

Declare Scope regex_scope.
Delimit Scope regex_scope with re.
Bind Scope regex_scope with regex.
Notation "r1 ⋅ r2" := (Seq r1 r2) (at level 51, right associativity) : regex_scope.
Notation "r1 ∣ r2" := (Alt r1 r2) (at level 52, left associativity) : regex_scope.

Inductive matches : regex → string → Prop :=
  | m_eps : matches Eps ""
  | m_char p c : p c = true → matches (Char p) (String c "")
  | m_seq r1 r2 s1 s2 : matches r1 s1 → matches r2 s2 → matches (Seq r1 r2) (s1 +:+ s2)
  | m_alt_l r1 r2 s : matches r1 s → matches (Alt r1 r2) s
  | m_alt_r r1 r2 s : matches r2 s → matches (Alt r1 r2) s
  | m_star_nil r : matches (Star r) ""
  | m_star_cons r s1 s2 : matches r s1 → matches (Star r) s2 → matches (Star r) (s1 +:+ s2).

(** ** The matcher *)

Fixpoint nullable (r : regex) : bool :=
  match r with
  | Nothing | Char _ => false
  | Eps | Star _ => true
  | Seq r1 r2 => nullable r1 && nullable r2
  | Alt r1 r2 => nullable r1 || nullable r2
  end.

(** Smart constructors keep the derivatives small. *)
Definition seq' (r1 r2 : regex) : regex :=
  match r1 with Nothing => Nothing | Eps => r2 | _ => Seq r1 r2 end.
Definition alt' (r1 r2 : regex) : regex :=
  match r1, r2 with Nothing, r => r | r, Nothing => r | _, _ => Alt r1 r2 end.

Fixpoint deriv (c : ascii) (r : regex) : regex :=
  match r with
  | Nothing | Eps => Nothing
  | Char p => if p c then Eps else Nothing
  | Seq r1 r2 =>
      if nullable r1 then alt' (seq' (deriv c r1) r2) (deriv c r2)
      else seq' (deriv c r1) r2
  | Alt r1 r2 => alt' (deriv c r1) (deriv c r2)
  | Star r => seq' (deriv c r) (Star r)
  end.

Fixpoint fullmatch (r : regex) (s : string) : bool :=
  match s with
  | "" => nullable r
  | String c s => fullmatch (deriv c r) s
  end.

(** ** Correctness *)

Lemma matches_seq_inv r1 r2 s :
  matches (Seq r1 r2) s ↔ ∃ s1 s2, s = s1 +:+ s2 ∧ matches r1 s1 ∧ matches r2 s2.
Proof.
  split; [inversion 1; subst; eauto 10|].
  intros (s1 & s2 & -> & ? & ?). by constructor.
Qed.

Lemma matches_alt_inv r1 r2 s : matches (Alt r1 r2) s ↔ matches r1 s ∨ matches r2 s.
Proof. split; [inversion 1; auto|intros [?|?]; by constructor]. Qed.

Lemma matches_char_inv p s : matches (Char p) s ↔ ∃ c, s = String c "" ∧ p c = true.
Proof. split; [inversion 1; eauto|intros (c & -> & ?); by constructor]. Qed.

Lemma matches_eps_inv s : matches Eps s ↔ s = "".
Proof. split; [by inversion 1|intros ->; constructor]. Qed.

Lemma matches_nothing s : ¬ matches Nothing s.
Proof. by inversion 1. Qed.

Lemma nullable_spec r : nullable r = true ↔ matches r "".
Proof.
  induction r; simpl.
  - split; [done|by intros ?%matches_nothing].
  - split; [constructor|done].
  - split; [done|]. by intros (? & ? & ?)%matches_char_inv.
  - rewrite andb_true_iff, IHr1, IHr2, matches_seq_inv. split.
    + intros [??]. by exists "", "".
    + intros (s1 & s2 & E & ? & ?). symmetry in E.
      apply string_app_eq_nil in E as [-> ->]. done.
  - by rewrite orb_true_iff, IHr1, IHr2, matches_alt_inv.
  - split; [constructor|done].
Qed.

Lemma seq'_spec r1 r2 s : matches (seq' r1 r2) s ↔ matches (Seq r1 r2) s.
Proof.
  rewrite matches_seq_inv. destruct r1; simpl; try by rewrite matches_seq_inv.
  - split; [by intros ?%matches_nothing|]. by intros (?&?&?&?%matches_nothing&?).
  - split; [by exists "", s; repeat constructor|].
    by intros (s1 & s2 & -> & ->%matches_eps_inv & ?).
Qed.

Lemma alt'_spec r1 r2 s : matches (alt' r1 r2) s ↔ matches (Alt r1 r2) s.
Proof.
  rewrite matches_alt_inv. pose proof (matches_nothing s).
  destruct r1; simpl; [naive_solver|..]; destruct r2; rewrite ?matches_alt_inv; naive_solver.
Qed.

(** A word of a star that is not empty starts with a non-empty factor. *)
Lemma matches_star_cons_inv r c s :
  matches (Star r) (String c s) →
  ∃ s1 s2, s = s1 +:+ s2 ∧ matches r (String c s1) ∧ matches (Star r) s2.
Proof.
  intros H. remember (Star r) as r' eqn:Er. remember (String c s) as t eqn:Et.
  revert c s Et. induction H as [| | | | | |r'' s1 s2 H1 _ H2 IH]; intros c' s' Et; try done.
  injection Er as ->. destruct s1 as [|d s1]; simpl in *; [by apply IH|].
  injection Et as -> <-. by exists s1, s2.
Qed.

Lemma deriv_spec r c s : matches (deriv c r) s ↔ matches r (String c s).
Proof.
  revert s. induction r as [| |p|r1 IH1 r2 IH2|r1 IH1 r2 IH2|r IH]; intros s; simpl.
  - split; by intros ?%matches_nothing.
  - split; [by intros ?%matches_nothing|by intros ?%matches_eps_inv].
  - rewrite matches_char_inv. destruct (p c) eqn:Hp.
    + rewrite matches_eps_inv. split; [intros ->; by exists c|]. by intros (? & [= -> ->] & ?).
    + split; [by intros ?%matches_nothing|]. intros (? & [= -> ->] & ?). congruence.
  - rewrite matches_seq_inv.
    assert (Hseq : matches (seq' (deriv c r1) r2) s ↔
      ∃ s1 s2, s = s1 +:+ s2 ∧ matches r1 (String c s1) ∧ matches r2 s2).
    { rewrite seq'_spec, matches_seq_inv. setoid_rewrite IH1. done. }
    destruct (nullable r1) eqn:Hn; rewrite ?alt'_spec, ?matches_alt_inv, Hseq, ?IH2.
    + apply nullable_spec in Hn. split.
      * intros [(s1 & s2 & -> & ? & ?)|?]; [by exists (String c s1), s2|by exists "", (String c s)].
      * intros ([|d s1] & s2 & E & ? & ?); simplify_eq/=; [by right|left; eauto].
    + split; [intros (s1 & s2 & -> & ? & ?); by exists (String c s1), s2|].
      intros ([|d s1] & s2 & E & H1 & ?); simplify_eq/=; [|eauto].
      apply nullable_spec in H1. congruence.
  - by rewrite alt'_spec, !matches_alt_inv, IH1, IH2.
  - rewrite seq'_spec, matches_seq_inv. split.
    + intros (s1 & s2 & -> & ?%IH & ?).
      change (String c (s1 +:+ s2)) with (String c s1 +:+ s2). by constructor.
    + intros (s1 & s2 & -> & ? & ?)%matches_star_cons_inv. exists s1, s2.
      by rewrite IH.
Qed.

(** The matcher decides the language. *)
Lemma fullmatch_spec r s : fullmatch r s = true ↔ matches r s.
Proof.
  revert r. induction s as [|c s IH]; intros r; simpl; [apply nullable_spec|].
  by rewrite IH, deriv_spec.
Qed.

#[export] Instance matches_dec r s : Decision (matches r s).
Proof. refine (cast_if (decide (fullmatch r s = true))); by rewrite <-fullmatch_spec. Defined.

(** ** Building blocks *)

Definition Any : regex := Char (λ _, true).
(** [.] : any byte but a newline. *)
Definition Dot : regex := Char (λ c, negb (Ascii.eqb c "010"%char)).
Definition Plus (r : regex) : regex := Seq r (Star r).
Definition Opt (r : regex) : regex := Alt Eps r.

Fixpoint Rep (n : nat) (r : regex) : regex :=
  match n with O => Eps | S n => Seq r (Rep n r) end.

(** A literal string. *)
Fixpoint Lit (s : string) : regex :=
  match s with "" => Eps | String c s => Seq (Char (Ascii.eqb c)) (Lit s) end.

Definition in_range (lo hi c : ascii) : bool :=
  (Ascii.nat_of_ascii lo <=? Ascii.nat_of_ascii c)%nat &&
  (Ascii.nat_of_ascii c <=? Ascii.nat_of_ascii hi)%nat.
Definition is_digit : ascii → bool := in_range "0" "9".
Definition is_alpha (c : ascii) : bool := in_range "a" "z" c || in_range "A" "Z" c.
Definition is_alnum (c : ascii) : bool := is_alpha c || is_digit c.
Definition Digit : regex := Char is_digit.

(** An expression without anchors matches somewhere in the string. *)
Definition search (r : regex) (s : string) : bool :=
  fullmatch (Seq (Star Any) (Seq r (Star Any))) s.

Lemma matches_Lit s t : matches (Lit s) t ↔ t = s.
Proof.
  revert t. induction s as [|c s IH]; intros t; simpl; [apply matches_eps_inv|].
  rewrite matches_seq_inv. split.
  - intros (? & s2 & -> & (d & -> & ->%Ascii.eqb_eq)%matches_char_inv & ->%IH). done.
  - intros ->. exists (String c ""), s. split; [done|]. split; [|by apply IH].
    constructor. apply Ascii.eqb_refl.
Qed.

Fixpoint string_forallb (p : ascii → bool) (s : string) : bool :=
  match s with "" => true | String c s => p c && string_forallb p s end.

Lemma matches_Star_Char p s : matches (Star (Char p)) s ↔ string_forallb p s = true.
Proof.
  split.
  - intros H. remember (Star (Char p)) as r eqn:E.
    induction H as [| | | | | |? ? ? H1 _ H2 IH]; try done. injection E as ->.
    apply matches_char_inv in H1 as (c & -> & Hc). simpl. by rewrite Hc, IH.
  - induction s as [|c s IH]; simpl; [constructor|]. intros [Hc Hs]%andb_true_iff.
    change (String c s) with (String c "" +:+ s). constructor; [by constructor|auto].
Qed.

Lemma string_forallb_all s : string_forallb (λ _, true) s = true.
Proof. induction s; done. Qed.

Lemma matches_Plus_Char p s :
  matches (Plus (Char p)) s ↔ s ≠ "" ∧ string_forallb p s = true.
Proof.
  unfold Plus. rewrite matches_seq_inv. setoid_rewrite matches_Star_Char. split.
  - intros (? & s2 & -> & (c & -> & Hc)%matches_char_inv & H2). simpl. by rewrite Hc, H2.
  - destruct s as [|c s]; [naive_solver|]. simpl.
    intros [_ [Hc Hs]%andb_true_iff]. exists (String c ""), s. by repeat constructor.
Qed.

Lemma string_forallb_app p s t :
  string_forallb p (s +:+ t) = string_forallb p s && string_forallb p t.
Proof. induction s; simpl; [done|]. by rewrite IHs, andb_assoc. Qed.

Lemma string_forallb_in_string p s c :
  string_forallb p s = true → p c = false → in_string c s = false.
Proof.
  induction s as [|d s IH]; simpl; [done|]. intros [Hd Hs]%andb_true_iff Hc.
  rewrite (IH Hs Hc), orb_false_r. destruct (Ascii.eqb_spec c d) as [->|]; [congruence|done].
Qed.

Lemma matches_Star_Any s : matches (Star Any) s.
Proof. apply matches_Star_Char, string_forallb_all. Qed.

Lemma search_spec r s :
  search r s = true ↔ ∃ p t q, s = p +:+ (t +:+ q) ∧ matches r t.
Proof.
  unfold search. rewrite fullmatch_spec, matches_seq_inv. split.
  - intros (p & ? & -> & _ & (t & q & -> & ? & _)%matches_seq_inv). by exists p, t, q.
  - intros (p & t & q & -> & ?). exists p, (t +:+ q).
    split; [done|]. split; [apply matches_Star_Any|].
    apply matches_seq_inv. exists t, q. split_and!; [done..|apply matches_Star_Any].
Qed.

(** Searching a literal is [strings.Contains]. *)
Lemma search_Lit lit s : search (Lit lit) s = Contains s lit.
Proof.
  apply eq_true_iff_eq. rewrite search_spec, Contains_spec. split.
  - intros (p & ? & q & -> & ->%matches_Lit). eauto.
  - intros (p & q & ->). exists p, lit, q. by rewrite matches_Lit.
Qed.

(** ** Decimal numbers *)

Lemma pretty_N_go_digits x s : string_forallb is_digit s = true → string_forallb is_digit (pretty_N_go x s) = true.
Proof.
  revert s. induction (N.lt_wf_0 x) as [x _ IH]; intros s Hs.
  assert (x = 0 ∨ 0 < x)%N as [->|?] by lia; [by rewrite pretty_N_go_0|].
  rewrite pretty_N_go_step by done. apply IH; [by apply N.div_lt|].
  cbn [string_forallb]. rewrite Hs. unfold pretty_N_char. by repeat case_match.
Qed.

Lemma Itoa_nat_digits i : string_forallb is_digit (Itoa_nat i) = true.
Proof.
  unfold Itoa_nat, pretty, pretty_N. case_decide; [done|]. by apply pretty_N_go_digits.
Qed.

Lemma Itoa_not_quote z : in_string dquote (Itoa z) = false.
Proof.
  unfold Itoa, pretty, pretty_Z.
  assert (∀ n, in_string dquote (pretty_N n) = false) as Hn.
  { intros n. pose proof (Itoa_nat_digits (N.to_nat n)) as Hd. unfold Itoa_nat, pretty in Hd. rewrite N2Nat.id in Hd.
    by eapply string_forallb_in_string. }
  destruct z as [|p|p]; [done|apply (Hn (N.pos p))|]. exact (Hn (N.pos p)).
Qed.
