(* ===== verification/ApiCommon.v ===== *)
(** * Kubernetes data and the types shared by inputs, filters and outputs

    The first part is the data of the Kubernetes and OpenShift APIs, reduced to
    the fields the operator reads or writes.  A [resource.Quantity] is the
    results of the two methods the operator calls on it.  The second part is
    the shared types of [api/observability/v1/clusterlogforwarder_types.go] and
    the condition names of [conditions.go].

    Go's zero value of a type [T] is [T_zero]. *)

From S2P Require Import Prelude.

(** ** Data of the Kubernetes API *)

(** A JSON document the operator passes on without looking into it. *)
Inductive json : Type :=
  | JNull
  | JBool (b : bool)
  | JNumber (n : Z)
  | JString (s : string)
  | JArray (l : list json)
  | JObject (l : list (string * json)).

Record Quantity := {
  Quantity_Value : Z;             (** [Value()], rounded up to an int64 *)
  Quantity_AsInt64 : option Z;    (** [AsInt64()] when the conversion is exact *)
  Quantity_IsZero : bool;         (** [IsZero()] *)
}.

Record ResourceRequirements := {
  rr_Limits : gmap string Quantity;
  rr_Requests : gmap string Quantity;
}.

Record Toleration := {
  tol_Key : string;
  tol_Operator : string;
  tol_Value : string;
  tol_Effect : string;
  tol_TolerationSeconds : option Z;
}.

Inductive IntOrString :=
  | FromInt (n : Z)
  | FromString (s : string).

Record LabelSelectorRequirement := {
  lsr_Key : string;
  lsr_Operator : string;
  lsr_Values : list string;
}.

Record LabelSelector := {
  ls_MatchLabels : gmap string string;
  ls_MatchExpressions : list LabelSelectorRequirement;
}.

(** [openshiftv1.TLSProfileSpec] and [openshiftv1.TLSSecurityProfile]. *)
Record TLSProfileSpec := {
  tps_Ciphers : list string;
  tps_Groups : list string;
  tps_MinTLSVersion : string;
}.

Definition TLSProfileSpec_zero : TLSProfileSpec := {|
  tps_Ciphers := []; tps_Groups := []; tps_MinTLSVersion := "" |}.

Record TLSSecurityProfile := {
  tsp_Type : string;
  tsp_Custom : option TLSProfileSpec;
}.

(** [metav1.Condition]; times are nanoseconds. *)
Record Condition := {
  cond_Type : string;
  cond_Status : string;
  cond_Reason : string;
  cond_Message : string;
  cond_LastTransitionTime : Z;
}.

#[export] Instance Condition_eq_dec : EqDecision Condition.
Proof. solve_decision. Defined.

Record ObjectMeta := {
  meta_Name : string;
  meta_Namespace : string;
  meta_Annotations : gmap string string;
  meta_DeletionTimestamp : option Z;
}.

(** [corev1.Secret] and [corev1.ConfigMap]: names and data. *)
Record Secret := {
  secret_Name : string;
  secret_Data : gmap string string;
}.

Record ConfigMap := {
  cm_Name : string;
  cm_Data : gmap string string;
}.

(** ** Shared types of the ClusterLogForwarder API *)

Record LimitSpec := { limit_MaxRecordsPerSecond : Z }.

Record ValueReference := {
  vr_Key : string;
  vr_ConfigMapName : string;
  vr_SecretName : string;
}.

Record SecretReference := {
  sr_Key : string;
  sr_SecretName : string;
}.

#[export] Instance ValueReference_eq_dec : EqDecision ValueReference.
Proof. solve_decision. Defined.
#[export] Instance SecretReference_eq_dec : EqDecision SecretReference.
Proof. solve_decision. Defined.

Definition BearerTokenFrom := string.
Definition BearerTokenFromSecret : BearerTokenFrom := "secret".
Definition BearerTokenFromServiceAccount : BearerTokenFrom := "serviceAccount".

Record BearerTokenSecretKey := {
  btsk_Key : string;
  btsk_Name : string;
}.

Record BearerToken := {
  bt_From : BearerTokenFrom;
  bt_Secret : option BearerTokenSecretKey;
}.

Record TLSSpec := {
  tls_CA : option ValueReference;
  tls_Certificate : option ValueReference;
  tls_Key : option SecretReference;
  tls_KeyPassphrase : option SecretReference;
}.

Definition TLSSpec_zero : TLSSpec := {|
  tls_CA := None; tls_Certificate := None; tls_Key := None; tls_KeyPassphrase := None |}.

Definition FieldPath := string.

(** ** Condition types and reasons ([conditions.go]) *)

Definition ConditionTrue : string := "True".
Definition ConditionFalse : string := "False".
Definition ConditionUnknown : string := "Unknown".

(** [groupversion_info.go] *)
Definition GroupName : string := "observability.openshift.io".

Definition ConditionTypeAuthorized : string := GroupName +:+ "/Authorized".
Definition ConditionTypeLogLevel : string := GroupName +:+ "/LogLevel".
Definition ConditionTypeMaxUnavailable : string := GroupName +:+ "/MaxUnavailableAnnotation".
Definition ConditionTypeReady : string := "Ready".
Definition ConditionTypeValid : string := GroupName +:+ "/Valid".
Definition ConditionTypeValidInputPrefix : string := GroupName +:+ "/ValidInput".
Definition ConditionTypeValidOutputPrefix : string := GroupName +:+ "/ValidOutput".
Definition ConditionTypeValidPipelinePrefix : string := GroupName +:+ "/ValidPipeline".
Definition ConditionTypeValidFilterPrefix : string := GroupName +:+ "/ValidFilter".
Definition ReasonClusterRolesExist : string := "ClusterRolesExist".
Definition ReasonClusterRoleMissing : string := "ClusterRoleMissing".
Definition ReasonDeploymentError : string := "DeploymentError".
Definition ReasonInitializationFailed : string := "InitializationFailed".
Definition ReasonFailureToRemoveStaleWorkload : string := "FailureToRemoveStaleWorkload".
Definition ReasonManagementStateUnmanaged : string := "ManagementStateUnmanaged".
Definition ReasonMissingSpec : string := "MissingSpec".
Definition ReasonLogLevelSupported : string := "LogLevelSupported".
Definition ReasonMaxUnavailableSupported : string := "MaxUnavailableAnnotationSupported".
Definition ReasonKubeCacheSupported : string := "KubeCacheAnnotationSupported".
Definition ReasonReconciliationComplete : string := "ReconciliationComplete".
Definition ReasonServiceAccountDoesNotExist : string := "ServiceAccountDoesNotExist".
Definition ReasonServiceAccountCheckFailure : string := "ServiceAccountCheckFailure".
Definition ReasonValidationSuccess : string := "ValidationSuccess".
Definition ReasonValidationFailure : string := "ValidationFailure".
Definition ReasonUnknownState : string := "UnknownState".
