(* ===== verification/ApiInputs.v ===== *)
(** * Input types ([api/observability/v1/input_types.go]) *)

From S2P Require Import Prelude ApiCommon.

Definition InputType := string.
Definition InputTypeApplication : InputType := "application".
Definition InputTypeInfrastructure : InputType := "infrastructure".
Definition InputTypeAudit : InputType := "audit".
Definition InputTypeReceiver : InputType := "receiver".

Definition InputTypes : list InputType :=
  [InputTypeApplication; InputTypeInfrastructure; InputTypeAudit; InputTypeReceiver].

Record ContainerInputTuningSpec := {
  citune_RateLimitPerContainer : option LimitSpec;
  citune_MaxMessageSize : option Quantity;
}.

Definition ApplicationSource := string.
Definition ApplicationSourceContainer : ApplicationSource := "container".

Record NamespaceContainerSpec := {
  nc_Namespace : string;
  nc_Container : string;
}.

Record Application := {
  app_Selector : option LabelSelector;
  app_Tuning : option ContainerInputTuningSpec;
  app_Includes : list NamespaceContainerSpec;
  app_Excludes : list NamespaceContainerSpec;
}.

Definition Application_zero : Application := {|
  app_Selector := None; app_Tuning := None; app_Includes := []; app_Excludes := [] |}.

Definition InfrastructureSource := string.
Definition InfrastructureSourceNode : InfrastructureSource := "node".
Definition InfrastructureSourceContainer : InfrastructureSource := "container".
Definition InfrastructureSources : list InfrastructureSource :=
  [InfrastructureSourceNode; InfrastructureSourceContainer].

Record InfrastructureInputTuningSpec := {
  iitune_Container : option ContainerInputTuningSpec;
}.

Record Infrastructure := {
  infra_Sources : list InfrastructureSource;
  infra_Tuning : option InfrastructureInputTuningSpec;
}.

Definition AuditSource := string.
Definition AuditSourceKube : AuditSource := "kubeAPI".
Definition AuditSourceOpenShift : AuditSource := "openshiftAPI".
Definition AuditSourceAuditd : AuditSource := "auditd".
Definition AuditSourceOVN : AuditSource := "ovn".
Definition AuditSources : list AuditSource :=
  [AuditSourceKube; AuditSourceOpenShift; AuditSourceAuditd; AuditSourceOVN].

(** A [metav1.Duration] is its nanoseconds. *)
Record AuditInputTuningSpec := {
  aitune_IgnoreOlder : option Z;
}.

Record Audit := {
  audit_Sources : list AuditSource;
  audit_Tuning : option AuditInputTuningSpec;
}.

Definition ReceiverType := string.
Definition ReceiverTypeHTTP : ReceiverType := "http".
Definition ReceiverTypeSyslog : ReceiverType := "syslog".
Definition ReceiverTypes : list ReceiverType := [ReceiverTypeHTTP; ReceiverTypeSyslog].

Definition HTTPReceiverFormat := string.
Definition HTTPReceiverFormatKubeAPIAudit : HTTPReceiverFormat := "kubeAPIAudit".

Record HTTPReceiver := {
  httprecv_Format : HTTPReceiverFormat;
}.

Definition InputTLSSpec := TLSSpec.

Record ReceiverSpec := {
  recv_Type : ReceiverType;
  recv_TLS : option InputTLSSpec;
  recv_Port : Z;
  recv_HTTP : option HTTPReceiver;
}.

Record InputSpec := {
  in_Name : string;
  in_Type : InputType;
  in_Application : option Application;
  in_Infrastructure : option Infrastructure;
  in_Audit : option Audit;
  in_Receiver : option ReceiverSpec;
}.

Definition InputSpec_zero : InputSpec := {|
  in_Name := ""; in_Type := ""; in_Application := None; in_Infrastructure := None;
  in_Audit := None; in_Receiver := None |}.

(** The rules of the CRD on an input: the type is one of the enumeration and the
    spec its type needs is present ([Enum] and [XValidation] markers). *)
Definition input_admitted (i : InputSpec) : Prop :=
  in_Type i ∈ InputTypes ∧
  (in_Type i = InputTypeApplication → is_Some (in_Application i)) ∧
  (in_Type i = InputTypeInfrastructure → is_Some (in_Infrastructure i)) ∧
  (in_Type i = InputTypeAudit → is_Some (in_Audit i)) ∧
  (in_Type i = InputTypeReceiver → is_Some (in_Receiver i)).
