(* ===== verification/ApiFilters.v ===== *)
(** * Filter types ([filter_types.go] and [filter_api_audit_types.go]) *)

From S2P Require Import Prelude ApiCommon.

Definition FilterType := string.
Definition FilterTypeDetectMultiline : FilterType := "detectMultilineException".
Definition FilterTypeDrop : FilterType := "drop".
Definition FilterTypeKubeAPIAudit : FilterType := "kubeAPIAudit".
Definition FilterTypeOpenshiftLabels : FilterType := "openshiftLabels".
Definition FilterTypeParse : FilterType := "parse".
Definition FilterTypePrune : FilterType := "prune".

Definition FilterTypes : list FilterType :=
  [FilterTypeOpenshiftLabels; FilterTypeDetectMultiline; FilterTypeDrop;
   FilterTypeKubeAPIAudit; FilterTypeParse; FilterTypePrune].

(** [auditv1.GroupResources] and [auditv1.PolicyRule] of the Kubernetes API server. *)
Record GroupResources := {
  gr_Group : string;
  gr_Resources : list string;
  gr_ResourceNames : list string;
}.

Record PolicyRule := {
  rule_Level : string;
  rule_Users : list string;
  rule_UserGroups : list string;
  rule_Verbs : list string;
  rule_Resources : list GroupResources;
  rule_Namespaces : list string;
  rule_NonResourceURLs : list string;
  rule_OmitStages : list string;
  rule_OmitManagedFields : option bool;
}.

Record KubeAPIAudit := {
  kaa_Rules : list PolicyRule;
  kaa_OmitStages : list string;
  kaa_OmitResponseCodes : option (list Z);
}.

Record DropCondition := {
  dc_OlderThan : string;
  dc_Field : FieldPath;
  dc_Matches : string;
  dc_NotMatches : string;
}.

Record DropTest := {
  dt_DropConditions : list DropCondition;
}.

(** The source tells a nil list from an empty one: [None] is nil. *)
Record PruneFilterSpec := {
  prune_In : option (list FieldPath);
  prune_NotIn : option (list FieldPath);
}.

Record FilterSpec := {
  filter_Name : string;
  filter_Type : FilterType;
  filter_KubeAPIAudit : option KubeAPIAudit;
  filter_DropTestsSpec : list DropTest;
  filter_PruneFilterSpec : option PruneFilterSpec;
  filter_OpenshiftLabels : gmap string string;
}.

Definition FilterSpec_zero : FilterSpec := {|
  filter_Name := ""; filter_Type := ""; filter_KubeAPIAudit := None;
  filter_DropTestsSpec := []; filter_PruneFilterSpec := None;
  filter_OpenshiftLabels := ∅ |}.

(** The rules of the CRD on a filter's type and the spec that type needs. *)
Definition filter_admitted (f : FilterSpec) : Prop :=
  filter_Type f ∈ FilterTypes ∧
  (filter_Type f = FilterTypeKubeAPIAudit → is_Some (filter_KubeAPIAudit f)) ∧
  (filter_Type f = FilterTypePrune → is_Some (filter_PruneFilterSpec f)).
