(* ===== verification/ApiOutputs.v ===== *)
(** * Output types ([api/observability/v1/output_types.go])

    An embedded struct (Go's [json:",inline"]) is a field of the record; a Go
    pointer is an [option]; durations are nanoseconds. *)

From S2P Require Import Prelude ApiCommon.

Definition OutputType := string.
Definition OutputTypeAzureLogsIngestion : OutputType := "azureLogsIngestion".
Definition OutputTypeAzureMonitor : OutputType := "azureMonitor".
Definition OutputTypeCloudwatch : OutputType := "cloudwatch".
Definition OutputTypeElasticsearch : OutputType := "elasticsearch".
Definition OutputTypeGoogleCloudLogging : OutputType := "googleCloudLogging".
Definition OutputTypeHTTP : OutputType := "http".
Definition OutputTypeKafka : OutputType := "kafka".
Definition OutputTypeLoki : OutputType := "loki".
Definition OutputTypeLokiStack : OutputType := "lokiStack".
Definition OutputTypeOTLP : OutputType := "otlp".
Definition OutputTypeS3 : OutputType := "s3".
Definition OutputTypeSplunk : OutputType := "splunk".
Definition OutputTypeSyslog : OutputType := "syslog".

Definition OutputTypes : list OutputType :=
  [OutputTypeAzureLogsIngestion; OutputTypeAzureMonitor; OutputTypeCloudwatch;
   OutputTypeElasticsearch; OutputTypeGoogleCloudLogging; OutputTypeHTTP;
   OutputTypeKafka; OutputTypeLoki; OutputTypeLokiStack; OutputTypeS3;
   OutputTypeSplunk; OutputTypeSyslog; OutputTypeOTLP].

Record OutputTLSSpec := {
  otls_TLSSpec : TLSSpec;
  otls_InsecureSkipVerify : bool;
  otls_TLSSecurityProfile : option TLSSecurityProfile;
}.

Record URLSpec := { url_URL : string }.

Definition DeliveryMode := string.
Definition DeliveryModeAtLeastOnce : DeliveryMode := "AtLeastOnce".
Definition DeliveryModeAtMostOnce : DeliveryMode := "AtMostOnce".

Record BaseOutputTuningSpec := {
  bt_DeliveryMode : DeliveryMode;
  bt_MaxWrite : option Quantity;
  bt_MinRetryDuration : option Z;
  bt_MaxRetryDuration : option Z;
}.

Definition BaseOutputTuningSpec_zero : BaseOutputTuningSpec := {|
  bt_DeliveryMode := ""; bt_MaxWrite := None; bt_MinRetryDuration := None;
  bt_MaxRetryDuration := None |}.

Record HTTPAuthentication := {
  ha_Token : option BearerToken;
  ha_Username : option SecretReference;
  ha_Password : option SecretReference;
}.

(** ** Azure *)

Definition AzureLogsIngestionAuthType := string.
Definition AzureLogsIngestionAuthTypeClientSecret : AzureLogsIngestionAuthType := "clientSecret".
Definition AzureLogsIngestionAuthTypeWorkloadIdentity : AzureLogsIngestionAuthType :=
  "workloadIdentity".

Record AzureLogsIngestionClientSecret := {
  alcs_TenantId : string;
  alcs_ClientId : string;
  alcs_Secret : option SecretReference;
}.

Record AzureLogsIngestionWorkloadIdentity := {
  alwi_TenantId : string;
  alwi_ClientId : string;
  alwi_Token : option BearerToken;
}.

Record AzureLogsIngestionAuthentication := {
  ala_Type : AzureLogsIngestionAuthType;
  ala_ClientSecret : option AzureLogsIngestionClientSecret;
  ala_WorkloadIdentity : option AzureLogsIngestionWorkloadIdentity;
}.

Record AzureLogsIngestionTuningSpec := { alt_Base : BaseOutputTuningSpec }.

Record AzureLogsIngestion := {
  ali_URLSpec : URLSpec;
  ali_Authentication : option AzureLogsIngestionAuthentication;
  ali_DcrImmutableId : string;
  ali_StreamName : string;
  ali_TokenScope : string;
  ali_TimestampField : string;
  ali_Tuning : option AzureLogsIngestionTuningSpec;
}.

Record AzureMonitorAuthentication := { ama_SharedKey : option SecretReference }.

Record AzureMonitor := {
  am_Authentication : option AzureMonitorAuthentication;
  am_CustomerId : string;
  am_LogType : string;
  am_AzureResourceId : string;
  am_Host : string;
  am_Tuning : option BaseOutputTuningSpec;
}.

(** ** AWS *)

Definition AwsAuthType := string.
Definition AwsAuthTypeAccessKey : AwsAuthType := "awsAccessKey".
Definition AwsAuthTypeIAMRole : AwsAuthType := "iamRole".

Record AwsAccessKey := {
  aak_KeyId : SecretReference;
  aak_KeySecret : SecretReference;
}.

Record AwsRole := {
  ar_RoleARN : SecretReference;
  ar_Token : BearerToken;
}.

Record AwsAssumeRole := {
  aar_RoleARN : SecretReference;
  aar_ExternalID : string;
  aar_SessionName : string;
}.

Record AwsAuthentication := {
  aws_Type : AwsAuthType;
  aws_AwsAccessKey : option AwsAccessKey;
  aws_IamRole : option AwsRole;
  aws_AssumeRole : option AwsAssumeRole;
}.

Record CloudwatchTuningSpec := {
  cwt_Base : BaseOutputTuningSpec;
  cwt_Compression : string;
}.

Record Cloudwatch := {
  cw_URL : string;
  cw_Authentication : option AwsAuthentication;
  cw_Tuning : option CloudwatchTuningSpec;
  cw_Region : string;
  cw_GroupName : string;
}.

Record S3TuningSpec := {
  s3t_Base : BaseOutputTuningSpec;
  s3t_Compression : string;
}.

Record S3 := {
  s3_Authentication : option AwsAuthentication;
  s3_Tuning : option S3TuningSpec;
  s3_Region : string;
  s3_Bucket : string;
  s3_KeyPrefix : string;
  s3_URL : string;
}.

(** ** Elasticsearch, Google Cloud Logging, HTTP *)

Record ElasticsearchTuningSpec := {
  est_Base : BaseOutputTuningSpec;
  est_Compression : string;
}.

Definition EndpointURL := string.

Record Elasticsearch := {
  es_URL : string;
  es_Endpoints : list EndpointURL;
  es_Authentication : option HTTPAuthentication;
  es_Tuning : option ElasticsearchTuningSpec;
  es_Index : string;
  es_Version : Z;
  es_Headers : gmap string string;
}.

Record GoogleCloudLoggingAuthentication := {
  gcla_Credentials : option SecretReference;
  gcla_Token : option BearerToken;
}.

Record GoogleCloudLoggingTuningSpec := { gclt_Base : BaseOutputTuningSpec }.

Definition GoogleCloudLoggingIdType := string.
Definition GoogleCloudLoggingIdTypeBillingAccount : GoogleCloudLoggingIdType := "billingAccount".
Definition GoogleCloudLoggingIdTypeFolder : GoogleCloudLoggingIdType := "folder".
Definition GoogleCloudLoggingIdTypeProject : GoogleCloudLoggingIdType := "project".
Definition GoogleCloudLoggingIdTypeOrganization : GoogleCloudLoggingIdType := "organization".

Record GoogleCloudLoggingId := {
  gcli_Type : GoogleCloudLoggingIdType;
  gcli_Value : string;
}.

Record GoogleCloudLogging := {
  gcl_Authentication : option GoogleCloudLoggingAuthentication;
  gcl_ID : GoogleCloudLoggingId;
  gcl_LogId : string;
  gcl_Tuning : option GoogleCloudLoggingTuningSpec;
}.

Record HTTPTuningSpec := {
  httpt_Base : BaseOutputTuningSpec;
  httpt_Compression : string;
}.

Definition HTTPFormat := string.
Definition HTTPFormatJSON : HTTPFormat := "json".
Definition HTTPFormatNDJSON : HTTPFormat := "ndjson".

Record HTTP := {
  http_URLSpec : URLSpec;
  http_Authentication : option HTTPAuthentication;
  http_Tuning : option HTTPTuningSpec;
  http_Headers : gmap string string;
  http_Timeout : Z;
  http_Method : string;
  http_ProxyURL : string;
  http_Format : HTTPFormat;
}.

(** ** Kafka *)

Record KafkaTuningSpec := {
  kt_DeliveryMode : DeliveryMode;
  kt_MaxWrite : option Quantity;
  kt_Compression : string;
}.

Record SASLAuthentication := {
  sasl_Username : option SecretReference;
  sasl_Password : option SecretReference;
  sasl_Mechanism : string;
}.

Record KafkaAuthentication := { ka_SASL : option SASLAuthentication }.

Definition BrokerURL := string.

Record Kafka := {
  kafka_URL : string;
  kafka_Authentication : option KafkaAuthentication;
  kafka_Tuning : option KafkaTuningSpec;
  kafka_Topic : string;
  kafka_Brokers : list BrokerURL;
}.

(** ** Loki and LokiStack *)

Record LokiTuningSpec := {
  lokit_Base : BaseOutputTuningSpec;
  lokit_Compression : string;
}.

Record LokiStackTarget := {
  lst_Namespace : string;
  lst_Name : string;
}.

Record LokiStackAuthentication := { lsa_Token : option BearerToken }.

Record LokiStackTenantLabelKeys := {
  lstl_IgnoreGlobal : bool;
  lstl_LabelKeys : list string;
}.

Record LokiStackLabelKeys := {
  lsl_Global : list string;
  lsl_Application : option LokiStackTenantLabelKeys;
  lsl_Infrastructure : option LokiStackTenantLabelKeys;
  lsl_Audit : option LokiStackTenantLabelKeys;
}.

Definition LokiStackDataModel := string.
Definition LokiStackDataModelViaq : LokiStackDataModel := "Viaq".
Definition LokiStackDataModelOpenTelemetry : LokiStackDataModel := "Otel".

Record LokiStack := {
  lstack_Authentication : option LokiStackAuthentication;
  lstack_Target : LokiStackTarget;
  lstack_Tuning : option LokiTuningSpec;
  lstack_LabelKeys : option LokiStackLabelKeys;
  lstack_DataModel : LokiStackDataModel;
}.

Record Loki := {
  loki_Authentication : option HTTPAuthentication;
  loki_Tuning : option LokiTuningSpec;
  loki_URLSpec : URLSpec;
  loki_LabelKeys : list string;
  loki_TenantKey : string;
  loki_ProxyURL : string;
}.

(** ** Splunk, Syslog, OTLP *)

Record SplunkTuningSpec := {
  splunkt_Base : BaseOutputTuningSpec;
  splunkt_Compression : string;
}.

Record SplunkAuthentication := { splunka_Token : option SecretReference }.

Record Splunk := {
  splunk_Authentication : option SplunkAuthentication;
  splunk_Tuning : option SplunkTuningSpec;
  splunk_URLSpec : URLSpec;
  splunk_Index : string;
  splunk_IndexedFields : list FieldPath;
  splunk_Source : string;
  splunk_SourceType : string;
  splunk_PayloadKey : FieldPath;
}.

Definition SyslogRFCType := string.
Definition SyslogRFC3164 : SyslogRFCType := "RFC3164".
Definition SyslogRFC5424 : SyslogRFCType := "RFC5424".

Record SyslogTuningSpec := { syslogt_DeliveryMode : DeliveryMode }.

Definition EnrichmentType := string.
Definition EnrichmentTypeNone : EnrichmentType := "None".
Definition EnrichmentTypeKubernetesMinimal : EnrichmentType := "KubernetesMinimal".

Record Syslog := {
  syslog_URL : string;
  syslog_RFC : SyslogRFCType;
  syslog_Severity : string;
  syslog_Facility : string;
  syslog_PayloadKey : string;
  syslog_AppName : string;
  syslog_ProcId : string;
  syslog_MsgId : string;
  syslog_Enrichment : EnrichmentType;
  syslog_Tuning : option SyslogTuningSpec;
}.

Record OTLPTuningSpec := {
  otlpt_Base : BaseOutputTuningSpec;
  otlpt_Compression : string;
}.

Record OTLP := {
  otlp_URL : string;
  otlp_Authentication : option HTTPAuthentication;
  otlp_Tuning : option OTLPTuningSpec;
}.

(** ** The output *)

Record OutputSpec := {
  out_Name : string;
  out_Type : OutputType;
  out_TLS : option OutputTLSSpec;
  out_Limit : option LimitSpec;
  out_AzureLogsIngestion : option AzureLogsIngestion;
  out_AzureMonitor : option AzureMonitor;
  out_Cloudwatch : option Cloudwatch;
  out_Elasticsearch : option Elasticsearch;
  out_GoogleCloudLogging : option GoogleCloudLogging;
  out_HTTP : option HTTP;
  out_Kafka : option Kafka;
  out_Loki : option Loki;
  out_LokiStack : option LokiStack;
  out_S3 : option S3;
  out_Splunk : option Splunk;
  out_Syslog : option Syslog;
  out_OTLP : option OTLP;
}.

Definition OutputSpec_zero : OutputSpec := {|
  out_Name := ""; out_Type := ""; out_TLS := None; out_Limit := None;
  out_AzureLogsIngestion := None; out_AzureMonitor := None; out_Cloudwatch := None;
  out_Elasticsearch := None; out_GoogleCloudLogging := None; out_HTTP := None;
  out_Kafka := None; out_Loki := None; out_LokiStack := None; out_S3 := None;
  out_Splunk := None; out_Syslog := None; out_OTLP := None |}.

(** The output with another LokiStack section: the assignments of the code
    through the pointer [o.LokiStack]. *)
Definition out_set_LokiStack (o : OutputSpec) (l : option LokiStack) : OutputSpec := {|
  out_Name := out_Name o; out_Type := out_Type o; out_TLS := out_TLS o;
  out_Limit := out_Limit o; out_AzureLogsIngestion := out_AzureLogsIngestion o;
  out_AzureMonitor := out_AzureMonitor o; out_Cloudwatch := out_Cloudwatch o;
  out_Elasticsearch := out_Elasticsearch o;
  out_GoogleCloudLogging := out_GoogleCloudLogging o; out_HTTP := out_HTTP o;
  out_Kafka := out_Kafka o; out_Loki := out_Loki o; out_LokiStack := l;
  out_S3 := out_S3 o; out_Splunk := out_Splunk o; out_Syslog := out_Syslog o;
  out_OTLP := out_OTLP o |}.

(** The rules of the CRD on the AWS authentication of an output. *)
Definition aws_admitted (a : AwsAuthentication) : Prop :=
  aws_Type a ∈ [AwsAuthTypeAccessKey; AwsAuthTypeIAMRole] ∧
  (aws_Type a = AwsAuthTypeAccessKey → is_Some (aws_AwsAccessKey a)) ∧
  (aws_Type a = AwsAuthTypeIAMRole → is_Some (aws_IamRole a)).

(** The rules of the CRD on an output: its type is one of the enumeration, the
    section of its type is present, and the fields marked required are set. *)
Record output_admitted (o : OutputSpec) : Prop := {
  oa_type : out_Type o ∈ OutputTypes;
  oa_ali : out_Type o = OutputTypeAzureLogsIngestion → is_Some (out_AzureLogsIngestion o);
  oa_am : out_Type o = OutputTypeAzureMonitor → is_Some (out_AzureMonitor o);
  oa_cw : out_Type o = OutputTypeCloudwatch → is_Some (out_Cloudwatch o);
  oa_es : out_Type o = OutputTypeElasticsearch → is_Some (out_Elasticsearch o);
  oa_gcl : out_Type o = OutputTypeGoogleCloudLogging → is_Some (out_GoogleCloudLogging o);
  oa_http : out_Type o = OutputTypeHTTP → is_Some (out_HTTP o);
  oa_kafka : out_Type o = OutputTypeKafka → is_Some (out_Kafka o);
  oa_loki : out_Type o = OutputTypeLoki → is_Some (out_Loki o);
  oa_lokistack : out_Type o = OutputTypeLokiStack → is_Some (out_LokiStack o);
  oa_s3 : out_Type o = OutputTypeS3 → is_Some (out_S3 o);
  oa_splunk : out_Type o = OutputTypeSplunk → is_Some (out_Splunk o);
  oa_syslog : out_Type o = OutputTypeSyslog → is_Some (out_Syslog o);
  oa_otlp : out_Type o = OutputTypeOTLP → is_Some (out_OTLP o);
  oa_cw_auth : ∀ c, out_Cloudwatch o = Some c →
    ∃ a, cw_Authentication c = Some a ∧ aws_admitted a;
  oa_s3_auth : ∀ s, out_S3 o = Some s →
    ∃ a, s3_Authentication s = Some a ∧ aws_admitted a;
}.
