(* ===== verification/ApiForwarder.v ===== *)
(** * The ClusterLogForwarder ([api/observability/v1/clusterlogforwarder_types.go]) *)

From S2P Require Import Prelude ApiCommon ApiInputs ApiFilters ApiOutputs.

Record ServiceAccount := { sa_Name : string }.

Definition ManagementState := string.
Definition ManagementStateManaged : ManagementState := "Managed".
Definition ManagementStateUnmanaged : ManagementState := "Unmanaged".

Definition NetworkPolicyRuleSetType := string.
Definition NetworkPolicyRuleSetTypeAllowAllIngressEgress : NetworkPolicyRuleSetType :=
  "AllowAllIngressEgress".
Definition NetworkPolicyRuleSetTypeRestrictIngressEgress : NetworkPolicyRuleSetType :=
  "RestrictIngressEgress".

Record NetworkPolicy := { np_RuleSet : NetworkPolicyRuleSetType }.

Record CollectorSpec := {
  coll_Resources : option ResourceRequirements;
  coll_NodeSelector : gmap string string;
  coll_Tolerations : list Toleration;
  coll_Affinity : option json;
  coll_NetworkPolicy : option NetworkPolicy;
  coll_MaxUnavailable : option IntOrString;
  coll_TerminationGracePeriodSeconds : option Z;
}.

Definition CollectorSpec_zero : CollectorSpec := {|
  coll_Resources := None; coll_NodeSelector := ∅; coll_Tolerations := [];
  coll_Affinity := None; coll_NetworkPolicy := None; coll_MaxUnavailable := None;
  coll_TerminationGracePeriodSeconds := None |}.

Record PipelineSpec := {
  pipe_Name : string;
  pipe_InputRefs : list string;
  pipe_OutputRefs : list string;
  pipe_FilterRefs : list string;
}.

Record ClusterLogForwarderSpec := {
  spec_ManagementState : ManagementState;
  spec_Collector : option CollectorSpec;
  spec_Inputs : list InputSpec;
  spec_Outputs : list OutputSpec;
  spec_Filters : list FilterSpec;
  spec_Pipelines : list PipelineSpec;
  spec_ServiceAccount : ServiceAccount;
}.

Record ClusterLogForwarderStatus := {
  st_Conditions : list Condition;
  st_InputConditions : list Condition;
  st_OutputConditions : list Condition;
  st_FilterConditions : list Condition;
  st_PipelineConditions : list Condition;
}.

Definition ClusterLogForwarderStatus_zero : ClusterLogForwarderStatus := {|
  st_Conditions := []; st_InputConditions := []; st_OutputConditions := [];
  st_FilterConditions := []; st_PipelineConditions := [] |}.

Record ClusterLogForwarder := {
  clf_Meta : ObjectMeta;
  clf_Spec : ClusterLogForwarderSpec;
  clf_Status : ClusterLogForwarderStatus;
}.

Definition clf_Name (f : ClusterLogForwarder) : string := meta_Name (clf_Meta f).
Definition clf_Namespace (f : ClusterLogForwarder) : string := meta_Namespace (clf_Meta f).
Definition clf_Annotations (f : ClusterLogForwarder) : gmap string string :=
  meta_Annotations (clf_Meta f).

(** ** Assignments to fields *)

Definition spec_set_Inputs (s : ClusterLogForwarderSpec) l : ClusterLogForwarderSpec := {|
  spec_ManagementState := spec_ManagementState s; spec_Collector := spec_Collector s;
  spec_Inputs := l; spec_Outputs := spec_Outputs s; spec_Filters := spec_Filters s;
  spec_Pipelines := spec_Pipelines s; spec_ServiceAccount := spec_ServiceAccount s |}.

Definition spec_set_Outputs (s : ClusterLogForwarderSpec) l : ClusterLogForwarderSpec := {|
  spec_ManagementState := spec_ManagementState s; spec_Collector := spec_Collector s;
  spec_Inputs := spec_Inputs s; spec_Outputs := l; spec_Filters := spec_Filters s;
  spec_Pipelines := spec_Pipelines s; spec_ServiceAccount := spec_ServiceAccount s |}.

Definition spec_set_Collector (s : ClusterLogForwarderSpec) c : ClusterLogForwarderSpec := {|
  spec_ManagementState := spec_ManagementState s; spec_Collector := c;
  spec_Inputs := spec_Inputs s; spec_Outputs := spec_Outputs s;
  spec_Filters := spec_Filters s; spec_Pipelines := spec_Pipelines s;
  spec_ServiceAccount := spec_ServiceAccount s |}.

Definition clf_set_Spec (f : ClusterLogForwarder) s : ClusterLogForwarder := {|
  clf_Meta := clf_Meta f; clf_Spec := s; clf_Status := clf_Status f |}.

Definition clf_set_Status (f : ClusterLogForwarder) s : ClusterLogForwarder := {|
  clf_Meta := clf_Meta f; clf_Spec := clf_Spec f; clf_Status := s |}.

Definition st_set_Conditions (s : ClusterLogForwarderStatus) l := {|
  st_Conditions := l; st_InputConditions := st_InputConditions s;
  st_OutputConditions := st_OutputConditions s;
  st_FilterConditions := st_FilterConditions s;
  st_PipelineConditions := st_PipelineConditions s |}.

Definition st_set_InputConditions (s : ClusterLogForwarderStatus) l := {|
  st_Conditions := st_Conditions s; st_InputConditions := l;
  st_OutputConditions := st_OutputConditions s;
  st_FilterConditions := st_FilterConditions s;
  st_PipelineConditions := st_PipelineConditions s |}.

Definition st_set_OutputConditions (s : ClusterLogForwarderStatus) l := {|
  st_Conditions := st_Conditions s; st_InputConditions := st_InputConditions s;
  st_OutputConditions := l; st_FilterConditions := st_FilterConditions s;
  st_PipelineConditions := st_PipelineConditions s |}.

Definition st_set_FilterConditions (s : ClusterLogForwarderStatus) l := {|
  st_Conditions := st_Conditions s; st_InputConditions := st_InputConditions s;
  st_OutputConditions := st_OutputConditions s; st_FilterConditions := l;
  st_PipelineConditions := st_PipelineConditions s |}.

Definition st_set_PipelineConditions (s : ClusterLogForwarderStatus) l := {|
  st_Conditions := st_Conditions s; st_InputConditions := st_InputConditions s;
  st_OutputConditions := st_OutputConditions s;
  st_FilterConditions := st_FilterConditions s; st_PipelineConditions := l |}.

(** The rules of the CRD on a forwarder: every part is admitted and the lists
    keyed by name ([listMapKey]) have distinct names. *)
Record clf_admitted (s : ClusterLogForwarderSpec) : Prop := {
  ca_inputs : Forall input_admitted (spec_Inputs s);
  ca_outputs : Forall output_admitted (spec_Outputs s);
  ca_filters : Forall filter_admitted (spec_Filters s);
  ca_inputs_nodup : NoDup (in_Name <$> spec_Inputs s);
  ca_outputs_nodup : NoDup (out_Name <$> spec_Outputs s);
  ca_filters_nodup : NoDup (filter_Name <$> spec_Filters s);
  ca_pipelines_nodup : NoDup (pipe_Name <$> spec_Pipelines s);
}.
