(* ===== verification/Sets.v ===== *)
(** * String sets and options ([internal/utils/sets], [internal/utils/options.go])

    A set of the two set libraries the operator uses is a [gset string]; the
    order in which their [Do] and [UnsortedList] visit it is that of a map
    ([RangeOrder]).  An [Options] value holds an [interface{}]: the dynamic
    types the operator converts to are slices of strings and of secrets, booleans, specs,
    strings and TLS profiles, and converting to another one panics. *)

From S2P Require Import Prelude GoStrings ApiCommon ApiForwarder.

Section sets.
Context `{RangeOrder}.

Definition Insert (s : gset string) (values : list string) : gset string :=
  foldl (λ s v, {[ v ]} ∪ s) s values.

Definition NewString (values : list string) : gset string :=
  foldl (λ s v, Insert s [v]) ∅ values.

Definition Has (s : gset string) (v : string) : bool := bool_decide (v ∈ s).

Definition DeepCopyInto (s into : gset string) : gset string :=
  foldl (λ out entry, Insert out [entry]) into (set_order s).

Definition DeepCopy (s : gset string) : gset string :=
  foldl (λ out entry, Insert out [entry]) (NewString []) (set_order s).

Definition List (s : gset string) : list string :=
  sort_strings (foldl (λ out entry, out ++ [entry]) [] (set_order s)).

(** [SortedList] and [UnsortedList] of [k8s.io/utils/set]. *)
Definition SortedList (s : gset string) : list string := sort_strings (set_order s).
Definition UnsortedList (s : gset string) : list string := set_order s.

(** ** What the set operations compute *)

Lemma elem_of_Insert s l x : x ∈ Insert s l ↔ x ∈ s ∨ x ∈ l.
Proof.
  unfold Insert. revert s. induction l as [|v l IH]; intros s; simpl; [set_solver|].
  rewrite IH. set_solver.
Qed.

Lemma foldl_Insert s l : foldl (λ s v, Insert s [v]) s l = Insert s l.
Proof. revert s. induction l; intros s; simpl; [done|]. by rewrite IHl. Qed.

Lemma elem_of_NewString l x : x ∈ NewString l ↔ x ∈ l.
Proof. unfold NewString. rewrite foldl_Insert, elem_of_Insert. set_solver. Qed.

Lemma Has_NewString l x : Has (NewString l) x = bool_decide (x ∈ l).
Proof. apply bool_decide_ext, elem_of_NewString. Qed.

Lemma DeepCopyInto_union s into : DeepCopyInto s into = s ∪ into.
Proof.
  apply set_eq. intros x. unfold DeepCopyInto.
  rewrite foldl_Insert, elem_of_Insert, elem_of_set_order. set_solver.
Qed.

Lemma DeepCopy_id s : DeepCopy s = s.
Proof.
  apply set_eq. intros x. unfold DeepCopy.
  rewrite foldl_Insert, elem_of_Insert, elem_of_set_order, elem_of_NewString. set_solver.
Qed.

Lemma foldl_snoc_app (out l : list string) :
  foldl (λ out entry, out ++ [entry]) out l = out ++ l.
Proof.
  revert out. induction l as [|x l IH]; intros out; simpl; [by rewrite app_nil_r|].
  by rewrite IH, <-app_assoc.
Qed.

Lemma List_SortedList s : List s = SortedList s.
Proof. unfold List, SortedList. by rewrite foldl_snoc_app. Qed.

Lemma elem_of_List s x : x ∈ List s ↔ x ∈ s.
Proof. by rewrite List_SortedList; unfold SortedList; rewrite elem_of_sort_strings, elem_of_set_order. Qed.

Lemma elem_of_SortedList s x : x ∈ SortedList s ↔ x ∈ s.
Proof. by rewrite <-List_SortedList, elem_of_List. Qed.

Lemma SortedList_sorted s : StronglySorted String.le (SortedList s).
Proof. apply sort_strings_sorted. Qed.

Lemma SortedList_NoDup s : NoDup (SortedList s).
Proof. unfold SortedList. rewrite sort_strings_perm. apply NoDup_set_order. Qed.
End sets.

(** The sorted list does not depend on the order of the map. *)
Lemma SortedList_order (o1 o2 : RangeOrder) s :
  @SortedList o1 s = @SortedList o2 s.
Proof. apply sort_strings_proper. by rewrite !set_order_perm. Qed.

(** ** [Options] *)

Inductive any : Type :=
  | AnyStrings (l : list string)
  | AnyBool (b : bool)
  | AnyString (s : string)
  | AnySecrets (l : list Secret)
  | AnyTLSProfileSpec (p : TLSProfileSpec)
  | AnySpec (s : ClusterLogForwarderSpec).

Notation Options := (gmap string any).

Definition NoOptions : Options := ∅.

Definition as_strings (v : any) : outcome (list string) :=
  match v with
  | AnyStrings l => Ret l
  | _ => Panic "interface conversion"
  end.

Definition as_secrets (v : any) : outcome (list Secret) :=
  match v with
  | AnySecrets l => Ret l
  | _ => Panic "interface conversion"
  end.

Definition as_string (v : any) : outcome string :=
  match v with
  | AnyString s => Ret s
  | _ => Panic "interface conversion"
  end.

Definition as_TLSProfileSpec (v : any) : outcome TLSProfileSpec :=
  match v with
  | AnyTLSProfileSpec p => Ret p
  | _ => Panic "interface conversion"
  end.

Definition as_bool (v : any) : outcome bool :=
  match v with
  | AnyBool b => Ret b
  | _ => Panic "interface conversion"
  end.

Definition as_Spec (v : any) : outcome ClusterLogForwarderSpec :=
  match v with
  | AnySpec s => Ret s
  | _ => Panic "interface conversion"
  end.

Definition Options_Has (o : Options) (key : string) : bool := bool_decide (is_Some (o !! key)).

Definition Options_Set (o : Options) (key : string) (value : any) : Options := <[key := value]> o.

Definition GetStringSet `{RangeOrder} (o : Options) (name : string) : outcome (list string) :=
  match o !! name with
  | None => Ret []
  | Some entry => l ← as_strings entry; Ret (sort_strings (List (NewString l)))
  end.

Definition AddToStringSet (o : Options) (name : string) (values : list string) : outcome Options :=
  value ← as_strings (default (AnyStrings []) (o !! name));
  Ret (<[name := AnyStrings (value ++ values)]> o).

(** [Update] and [GetOption] at type [T], whose type assertion is [conv]. *)
Definition Update {T} (inj : T → any) (conv : any → outcome T)
    (options : Options) (name : string) (value : T) (updater : option (T → T)) : outcome Options :=
  let updater := default (λ v, v) updater in
  match options !! name with
  | Some existingValue => v ← conv existingValue; Ret (<[name := inj (updater v)]> options)
  | None => Ret (<[name := inj value]> options)
  end.

Definition GetOption {T} (conv : any → outcome T)
    (options : Options) (name : string) (ifNotFound : T) : outcome (T * bool) :=
  match options !! name with
  | None => Ret (ifNotFound, false)
  | Some value => v ← conv value; Ret (v, true)
  end.

(** What was added to a string set is what reading it gives, sorted, once each,
    together with what it held. *)
Lemma GetStringSet_AddToStringSet `{RangeOrder} o name values o' :
  AddToStringSet o name values = Ret o' →
  ∃ old l, (GetStringSet o name = Ret old) ∧ GetStringSet o' name = Ret l ∧
    StronglySorted String.le l ∧ NoDup l ∧ ∀ x, x ∈ l ↔ x ∈ old ∨ x ∈ values.
Proof.
  unfold AddToStringSet. intros Ho'.
  apply bind_ret_inv in Ho' as (old & Hold & [= <-]).
  exists (if o !! name then sort_strings (List (NewString old)) else []).
  exists (sort_strings (List (NewString (old ++ values)))).
  unfold GetStringSet. rewrite lookup_insert_eq. split; [|split; [done|split; [|split]]].
  - destruct (o !! name); [|done]. simpl in Hold. by rewrite Hold.
  - apply sort_strings_sorted.
  - rewrite sort_strings_perm, List_SortedList. apply SortedList_NoDup.
  - intros x. rewrite elem_of_sort_strings, elem_of_List, elem_of_NewString, elem_of_app.
    destruct (o !! name) as [a|]; simpl in Hold.
    + by rewrite elem_of_sort_strings, elem_of_List, elem_of_NewString.
    + injection Hold as <-. done.
Qed.

(** String-set options.  Adding strings to an option never loses what was
    there, and reading the option gives what it held before and what was added:
    sorted, every string once, whatever the order of the set. *)
Theorem AddToStringSet_correct `{RangeOrder} o name values o' :
  AddToStringSet o name values = Ret o' →
  (∀ other, other ≠ name → o' !! other = o !! other) ∧
  ∃ old l, GetStringSet o name = Ret old ∧ GetStringSet o' name = Ret l ∧
    StronglySorted String.le l ∧ NoDup l ∧ ∀ x, x ∈ l ↔ x ∈ old ∨ x ∈ values.
Proof.
  intros Ho'. split; [|by apply GetStringSet_AddToStringSet].
  unfold AddToStringSet in Ho'. apply bind_ret_inv in Ho' as (old & _ & [= <-]).
  intros other Hne. by rewrite lookup_insert_ne.
Qed.

Theorem AddToStringSet_correct_witness :
  ∃ o', AddToStringSet ∅ "outputs" ["b"; "a"; "b"] = Ret o' ∧
    ∃ l, @GetStringSet canonical_order o' "outputs" = Ret l ∧ NoDup l ∧ ("a" ∈ l).
Proof.
  exists (<["outputs" := AnyStrings ["b"; "a"; "b"]]> ∅).
  assert (AddToStringSet ∅ "outputs" ["b"; "a"; "b"]
    = Ret (<["outputs" := AnyStrings ["b"; "a"; "b"]]> ∅)) as E by reflexivity.
  destruct (@AddToStringSet_correct canonical_order _ _ _ _ E) as (_ & old & l & _ & Hl & _ & Hnd & Hin).
  exact (conj E (ex_intro _ l (conj Hl (conj Hnd (proj2 (Hin "a") (or_intror (list_elem_of_further _ _ _ (list_elem_of_here _ _)))))))).
Defined.
