(* ===== verification/Conditions.v ===== *)
(** * Status conditions ([internal/api/observability/conditions.go])

    A pointer to a slice of conditions is the slice before and after the call;
    the reading of the clock is the argument [now]. *)

From S2P Require Import Prelude GoStrings ApiCommon.

Definition NewCondition (now : Z) (conditionType status reason message : string) : Condition := {|
  cond_Type := conditionType;
  cond_Status := status;
  cond_Reason := reason;
  cond_Message := message;
  cond_LastTransitionTime := now;
|}.

(** [fmt.Sprintf] with [%s-%s]: the type of the condition of a named part. *)
Definition prefixed (prefix name : string) : string := prefix +:+ "-" +:+ name.

Definition NewConditionFromPrefix (now : Z) (prefix name : string) (conditionMet : bool)
    (reason message : string) : Condition :=
  let conditionType := prefixed prefix name in
  let status := if negb conditionMet then ConditionFalse else ConditionTrue in
  NewCondition now conditionType status reason message.

Definition cond_set_time (c : Condition) (t : Z) : Condition := {|
  cond_Type := cond_Type c; cond_Status := cond_Status c; cond_Reason := cond_Reason c;
  cond_Message := cond_Message c; cond_LastTransitionTime := t |}.

(** The loop of [SetCondition]: the list after it and what it returned, if it
    found the type. *)
Fixpoint SetCondition_loop (newCond : Condition) (conditions : list Condition) :
    list Condition * option bool :=
  match conditions with
  | [] => ([], None)
  | condition :: rest =>
      if cond_Type condition == cond_Type newCond then
        let newCond :=
          if cond_Status condition == cond_Status newCond
          then cond_set_time newCond (cond_LastTransitionTime condition) else newCond in
        let changed := (cond_Status condition != cond_Status newCond)
          || (cond_Reason condition != cond_Reason newCond)
          || (cond_Message condition != cond_Message newCond) in
        (newCond :: rest, Some changed)
      else
        let '(rest', r) := SetCondition_loop newCond rest in (condition :: rest', r)
  end.

Definition SetCondition (now : Z) (conditions : list Condition) (newCond : Condition) :
    list Condition * bool :=
  let newCond := cond_set_time newCond now in
  match SetCondition_loop newCond conditions with
  | (conditions, Some changed) => (conditions, changed)
  | (conditions, None) => (conditions ++ [newCond], true)
  end.

(** Calls of [SetCondition] whose result is not used. *)
Definition SetConditions (now : Z) (conditions news : list Condition) : list Condition :=
  foldl (λ cs c, (SetCondition now cs c).1) conditions news.

Definition PruneConditions (conditions : list Condition) (names : list string)
    (conditionTypePrefix : string) : list Condition :=
  condition ← conditions;
  name ← names;
  if cond_Type condition == prefixed conditionTypePrefix name then [condition] else [].

Definition RemoveConditionByType (conditions : list Condition) (conditionType : string) :
    list Condition :=
  foldl (λ newConditions condition,
    if cond_Type condition != conditionType then newConditions ++ [condition]
    else newConditions) [] conditions.

(** ** The specification of the list of conditions

    A list of conditions stands for a map from types to what was last said of
    them: status, reason and message. *)

Record verdict := { v_Status : string; v_Reason : string; v_Message : string }.

Definition verdict_of (c : Condition) : verdict := {|
  v_Status := cond_Status c; v_Reason := cond_Reason c; v_Message := cond_Message c |}.

Definition view (cs : list Condition) : gmap string verdict :=
  foldr (λ c m, <[cond_Type c := verdict_of c]> m) ∅ cs.

Definition types (cs : list Condition) : list string := cond_Type <$> cs.

(** *** Types and prefixes *)

Lemma prefixed_inj prefix n1 n2 : prefixed prefix n1 = prefixed prefix n2 → n1 = n2.
Proof. unfold prefixed. by intros ?%string_app_inj_l%string_app_inj_l. Qed.

Lemma HasPrefix_prefixed prefix name : HasPrefix (prefixed prefix name) prefix = true.
Proof. apply HasPrefix_app. Qed.

#[export] Instance prefixed_Inj prefix : Inj (=) (=) (prefixed prefix).
Proof. intros n1 n2. apply prefixed_inj. Qed.

(** *** The loop *)

Lemma SetCondition_loop_None n cs :
  (SetCondition_loop n cs).2 = None ↔ cond_Type n ∉ types cs.
Proof.
  induction cs as [|c cs IH]; simpl; [split; [intros _; apply not_elem_of_nil|done]|].
  destruct (String.eqb_spec (cond_Type c) (cond_Type n)) as [E|]; simpl.
  - split; [done|]. rewrite E. set_solver.
  - destruct (SetCondition_loop n cs) as [cs' r]; simpl in *. set_solver.
Qed.

Lemma SetCondition_loop_types n cs : types (SetCondition_loop n cs).1 = types cs.
Proof.
  induction cs as [|c cs IH]; simpl; [done|].
  destruct (String.eqb_spec (cond_Type c) (cond_Type n)) as [E|]; simpl.
  - case_match; simpl; by rewrite E.
  - destruct (SetCondition_loop n cs) as [cs' r]; simpl in *. by rewrite IH.
Qed.

Lemma SetCondition_loop_missing n cs :
  cond_Type n ∉ types cs → SetCondition_loop n cs = (cs, None).
Proof.
  induction cs as [|c cs IH]; simpl; [done|]. intros Hn.
  destruct (String.eqb_spec (cond_Type c) (cond_Type n)) as [E|].
  - rewrite <-E in Hn. set_solver.
  - rewrite IH by set_solver. done.
Qed.

Lemma SetCondition_types now cs n :
  types (SetCondition now cs n).1 =
  if decide (cond_Type n ∈ types cs) then types cs else types cs ++ [cond_Type n].
Proof.
  unfold SetCondition.
  pose proof (SetCondition_loop_types (cond_set_time n now) cs) as Ht.
  pose proof (SetCondition_loop_None (cond_set_time n now) cs) as HN.
  destruct (SetCondition_loop _ cs) as [cs' [b|]]; simpl in *.
  - rewrite decide_True; [done|].
    destruct (decide (cond_Type n ∈ types cs)) as [?|Hn]; [done|]. by apply HN in Hn.
  - rewrite decide_False by (by apply HN). unfold types in *. by rewrite fmap_app, Ht.
Qed.

(** No type ever gets a second condition. *)
Lemma SetCondition_NoDup now cs n : NoDup (types cs) → NoDup (types (SetCondition now cs n).1).
Proof.
  intros Hnd. rewrite SetCondition_types. case_decide; [done|].
  apply NoDup_app. split_and!; [done| |apply NoDup_singleton]. set_solver.
Qed.

Lemma SetConditions_NoDup now cs ns : NoDup (types cs) → NoDup (types (SetConditions now cs ns)).
Proof.
  unfold SetConditions. revert cs. induction ns as [|n ns IH]; intros cs Hnd; simpl; [done|].
  by apply IH, SetCondition_NoDup.
Qed.

Lemma view_app cs1 cs2 : view (cs1 ++ cs2) = view cs1 ∪ view cs2.
Proof.
  induction cs1 as [|c cs1 IH]; simpl; [by rewrite map_empty_union|].
  by rewrite IH, insert_union_l.
Qed.

Lemma view_None cs ty : view cs !! ty = None ↔ ty ∉ types cs.
Proof.
  induction cs as [|c cs IH]; simpl; [split; [intros _; apply not_elem_of_nil|done]|].
  rewrite lookup_insert_None, IH. set_solver.
Qed.

Lemma SetCondition_loop_view n cs :
  cond_Type n ∈ types cs →
  view (SetCondition_loop n cs).1 = <[cond_Type n := verdict_of n]> (view cs).
Proof.
  induction cs as [|c cs IH]; cbn -[String.eqb]; [by intros ?%not_elem_of_nil|]. intros Hin.
  destruct (String.eqb_spec (cond_Type c) (cond_Type n)) as [E|Hne]; cbn -[String.eqb].
  - rewrite E, insert_insert_eq. case_match; done.
  - assert (cond_Type n ∈ types cs) as Hin' by set_solver.
    specialize (IH Hin'). destruct (SetCondition_loop n cs) as [cs' r]; simpl in *.
    rewrite IH. by rewrite insert_insert_ne.
Qed.

(** Setting a condition overwrites the verdict on its type and no other. *)
Lemma SetCondition_view now cs n :
  view (SetCondition now cs n).1 = <[cond_Type n := verdict_of n]> (view cs).
Proof.
  destruct (decide (cond_Type n ∈ types cs)) as [Hin|Hout].
  - unfold SetCondition.
    pose proof (SetCondition_loop_view (cond_set_time n now) cs Hin) as Hv.
    pose proof (SetCondition_loop_None (cond_set_time n now) cs) as HN.
    destruct (SetCondition_loop _ cs) as [cs' [b|]]; simpl in *; [done|].
    exfalso. by apply HN.
  - unfold SetCondition. rewrite SetCondition_loop_missing by done. simpl.
    rewrite view_app. simpl. rewrite insert_empty.
    apply map_eq. intros ty. destruct (decide (cond_Type n = ty)) as [<-|].
    + rewrite lookup_union_r by by apply view_None.
      by rewrite lookup_singleton_eq, lookup_insert_eq.
    + rewrite lookup_insert_ne by done.
      rewrite lookup_union_l; [done|]. by rewrite lookup_singleton_ne.
Qed.

Lemma SetConditions_view now cs ns :
  view (SetConditions now cs ns) =
  foldl (λ m n, <[cond_Type n := verdict_of n]> m) (view cs) ns.
Proof.
  unfold SetConditions. revert cs. induction ns as [|n ns IH]; intros cs; simpl; [done|].
  by rewrite IH, SetCondition_view.
Qed.

(** *** What the caller learns *)

Lemma SetCondition_loop_false n cs :
  (SetCondition_loop n cs).2 = Some false → (SetCondition_loop n cs).1 = cs.
Proof.
  induction cs as [|c cs IH]; simpl; [done|].
  destruct (String.eqb_spec (cond_Type c) (cond_Type n)) as [E|]; simpl.
  - destruct (String.eqb_spec (cond_Status c) (cond_Status n)) as [Es|]; simpl.
    + rewrite Es, String.eqb_refl. simpl. intros [= [Hr Hm]%orb_false_iff].
      apply negb_false_iff, String.eqb_eq in Hr, Hm.
      destruct n, c; unfold cond_set_time; simpl in *. by subst.
    + by destruct (String.eqb_spec (cond_Status c) (cond_Status n)).
  - destruct (SetCondition_loop n cs) as [cs' r]; simpl in *.
    intros ->. by rewrite IH.
Qed.

Lemma SetCondition_loop_true n cs :
  (SetCondition_loop n cs).2 = Some true → (SetCondition_loop n cs).1 ≠ cs.
Proof.
  induction cs as [|c cs IH]; cbn -[String.eqb]; [done|].
  destruct (String.eqb_spec (cond_Type c) (cond_Type n)) as [E|]; cbn -[String.eqb].
  - destruct (String.eqb_spec (cond_Status c) (cond_Status n)) as [Es|Es]; cbn -[String.eqb].
    + rewrite Es, String.eqb_refl. simpl. intros [= Hb] [= Heq].
      rewrite <-Heq in Hb. simpl in Hb. by rewrite !String.eqb_refl in Hb.
    + intros _ [= Heq]. by rewrite Heq in Es.
  - destruct (SetCondition_loop n cs) as [cs' r]; simpl in *. intros Hr [= Heq].
    by apply IH.
Qed.

Lemma SetCondition_unchanged now cs n :
  (SetCondition now cs n).2 = false ↔ (SetCondition now cs n).1 = cs.
Proof.
  unfold SetCondition.
  pose proof (SetCondition_loop_false (cond_set_time n now) cs) as Hf.
  pose proof (SetCondition_loop_true (cond_set_time n now) cs) as Ht.
  pose proof (SetCondition_loop_types (cond_set_time n now) cs) as Hty.
  destruct (SetCondition_loop _ cs) as [cs' [[]|]]; simpl in *.
  - split; [done|]. intros ->. by destruct Ht.
  - by split; [intros _; apply Hf|].
  - split; [done|]. intros Heq.
    apply (f_equal (λ l, length (types l))) in Heq.
    unfold types in *. rewrite fmap_app, length_app, Hty in Heq. simpl in Heq. lia.
Qed.

(** The verdict that was already there is the only one that changes nothing. *)
Lemma SetCondition_loop_verdict n cs :
  (SetCondition_loop n cs).2 = Some false ↔ view cs !! cond_Type n = Some (verdict_of n).
Proof.
  induction cs as [|c cs IH]; cbn -[String.eqb]; [by rewrite lookup_empty|].
  destruct (String.eqb_spec (cond_Type c) (cond_Type n)) as [E|]; cbn -[String.eqb].
  - rewrite E, lookup_insert_eq. unfold verdict_of.
    split.
    + intros [= [[Hs Hr]%orb_false_iff Hm]%orb_false_iff].
      apply negb_false_iff, String.eqb_eq in Hs, Hr, Hm.
      case_match; simpl in *; congruence.
    + intros [= Hs Hr Hm]. rewrite Hs, String.eqb_refl. simpl.
      by rewrite Hr, Hm, !String.eqb_refl.
  - rewrite lookup_insert_ne by done.
    destruct (SetCondition_loop n cs) as [cs' r]; simpl in *. done.
Qed.

Lemma SetCondition_same now cs n :
  (SetCondition now cs n).2 = false ↔ view cs !! cond_Type n = Some (verdict_of n).
Proof.
  rewrite <-(SetCondition_loop_verdict (cond_set_time n now) cs).
  unfold SetCondition. by destruct (SetCondition_loop _ cs) as [cs' [[]|]].
Qed.

(** *** Transition times *)

Lemma SetCondition_loop_elem n cs c' :
  c' ∈ (SetCondition_loop n cs).1 →
  c' ∈ cs ∨ ∃ c, c ∈ cs ∧ cond_Type c = cond_Type n ∧
    c' = if cond_Status c == cond_Status n then cond_set_time n (cond_LastTransitionTime c) else n.
Proof.
  induction cs as [|c cs IH]; cbn -[String.eqb]; [set_solver|].
  destruct (String.eqb_spec (cond_Type c) (cond_Type n)) as [E|]; cbn -[String.eqb].
  - rewrite elem_of_cons. intros [->|?]; [|set_solver]. right. exists c. set_solver.
  - destruct (SetCondition_loop n cs) as [cs' r]; simpl in *.
    rewrite elem_of_cons. intros [->|Hc]; [set_solver|].
    destruct (IH Hc) as [?|(d & ? & ? & ?)]; [set_solver|]. right. exists d. set_solver.
Qed.

(** *** Pruning *)

Lemma elem_of_PruneConditions cs names prefix c :
  c ∈ PruneConditions cs names prefix ↔
  c ∈ cs ∧ ∃ name, name ∈ names ∧ cond_Type c = prefixed prefix name.
Proof.
  unfold PruneConditions. rewrite list_elem_of_bind. split.
  - intros (c' & (name & Hc & Hn)%list_elem_of_bind & Hc').
    destruct (String.eqb_spec (cond_Type c') (prefixed prefix name)) as [E|].
    + apply list_elem_of_singleton in Hc as ->. eauto.
    + by apply not_elem_of_nil in Hc.
  - intros (Hc & name & Hn & E). exists c. split; [|done].
    apply list_elem_of_bind. exists name. split; [|done].
    rewrite E, String.eqb_refl. by apply list_elem_of_singleton.
Qed.

(** With distinct names pruning keeps conditions as they are, in their order. *)
Lemma PruneConditions_filter cs names prefix :
  NoDup names →
  PruneConditions cs names prefix =
  filter (λ c, cond_Type c ∈ prefixed prefix <$> names) cs.
Proof.
  intros Hnd. induction cs as [|c cs IH]; [done|].
  unfold PruneConditions in *. rewrite bind_cons, IH, filter_cons. clear IH.
  assert ((names ≫= λ name, if cond_Type c == prefixed prefix name then [c] else []) =
    if decide (cond_Type c ∈ prefixed prefix <$> names) then [c] else []) as ->;
    [|by case_decide].
  induction Hnd as [|name names Hn Hnd IH]; [done|].
  rewrite bind_cons, IH. clear IH.
  destruct (String.eqb_spec (cond_Type c) (prefixed prefix name)) as [E|Hne].
  - rewrite decide_False, decide_True; [done|set_solver|].
    rewrite E. intros (n & ->%prefixed_inj & ?)%list_elem_of_fmap. done.
  - simpl. do 2 case_decide; [done|set_solver| |done]. exfalso. set_solver.
Qed.

Lemma types_filter_NoDup (P : Condition → Prop) `{∀ c, Decision (P c)} cs :
  NoDup (types cs) → NoDup (types (filter P cs)).
Proof. intros Hnd. unfold types. eapply sublist_NoDup; [apply Hnd|]. f_equiv. apply sublist_filter. Qed.

Lemma PruneConditions_NoDup cs names prefix :
  NoDup names → NoDup (types cs) → NoDup (types (PruneConditions cs names prefix)).
Proof. intros ? ?. rewrite PruneConditions_filter by done. by apply types_filter_NoDup. Qed.

Lemma RemoveConditionByType_filter cs ty :
  RemoveConditionByType cs ty = filter (λ c, cond_Type c ≠ ty) cs.
Proof.
  unfold RemoveConditionByType.
  enough (∀ acc, foldl (λ acc c, if cond_Type c != ty then acc ++ [c] else acc) acc cs =
    acc ++ filter (λ c, cond_Type c ≠ ty) cs) as H by apply H.
  induction cs as [|c cs IH]; intros acc; cbn -[String.eqb filter].
  { by rewrite app_nil_r. }
  rewrite IH. rewrite filter_cons. destruct (String.eqb_spec (cond_Type c) ty); simpl.
  - by rewrite decide_False by tauto.
  - rewrite decide_True by done. by rewrite <-app_assoc.
Qed.

Lemma SetCondition_loop_head n cs c' :
  NoDup (types cs) → c' ∈ (SetCondition_loop n cs).1 → cond_Type c' = cond_Type n →
  ∃ c, c ∈ cs ∧ cond_Type c = cond_Type n ∧
    c' = if cond_Status c == cond_Status n then cond_set_time n (cond_LastTransitionTime c) else n.
Proof.
  induction cs as [|c cs IH]; cbn -[String.eqb]; [set_solver|].
  intros [Hc Hnd]%NoDup_cons.
  destruct (String.eqb_spec (cond_Type c) (cond_Type n)) as [E|Ne]; cbn -[String.eqb].
  - intros [->|Hin]%elem_of_cons Ht; [exists c; set_solver|].
    exfalso. apply Hc. rewrite E, <-Ht. by apply list_elem_of_fmap_2.
  - destruct (SetCondition_loop n cs) as [cs' r]; simpl in *.
    intros [->|Hin]%elem_of_cons Ht; [done|].
    destruct (IH Hnd Hin Ht) as (d & ? & ? & ?). exists d. set_solver.
Qed.

(** The condition of the type that is set, as a function of the ones before. *)
Lemma SetCondition_set now cs n c' :
  NoDup (types cs) → c' ∈ (SetCondition now cs n).1 → cond_Type c' = cond_Type n →
  verdict_of c' = verdict_of n ∧
  cond_LastTransitionTime c' =
    match list_find (λ c, cond_Type c = cond_Type n ∧ cond_Status c = cond_Status n) cs with
    | Some (_, c) => cond_LastTransitionTime c
    | None => now
    end.
Proof.
  intros Hnd Hin Ht.
  assert (∀ c d, c ∈ cs → d ∈ cs → cond_Type c = cond_Type n → cond_Type d = cond_Type n →
    c = d) as Huniq.
  { clear -Hnd. induction cs as [|a cs IH]; [by intros ? ? ?%not_elem_of_nil|].
    apply NoDup_cons in Hnd as [Ha Hnd].
    assert (∀ c, c ∈ cs → cond_Type a = cond_Type n → cond_Type c ≠ cond_Type n) as Hno.
    { intros c Hc E E'. apply Ha. rewrite E, <-E'. by apply list_elem_of_fmap_2. }
    intros c d [->|Hc]%elem_of_cons [->|Hd]%elem_of_cons E E'; [done|..].
    - by destruct (Hno d Hd E).
    - by destruct (Hno c Hc E').
    - by apply IH. }
  unfold SetCondition in Hin.
  pose proof (SetCondition_loop_head (cond_set_time n now) cs c' Hnd) as Hhead.
  pose proof (SetCondition_loop_types (cond_set_time n now) cs) as Hty.
  pose proof (SetCondition_loop_None (cond_set_time n now) cs) as HN.
  destruct (list_find _ cs) as [[i c]|] eqn:Hfind.
  - apply list_find_Some in Hfind as (Hi & [E Es] & _).
    assert (c ∈ cs) as Hc by by eapply list_elem_of_lookup_2.
    destruct (SetCondition_loop (cond_set_time n now) cs) as [cs' [b|]]; simpl in *.
    + destruct (Hhead Hin Ht) as (d & Hd & Ed & ->).
      rewrite (Huniq c d Hc Hd E Ed) in Es. rewrite Es, String.eqb_refl.
      by rewrite (Huniq c d Hc Hd E Ed).
    + exfalso. apply HN; [done|]. rewrite <-E. by apply list_elem_of_fmap_2.
  - apply list_find_None in Hfind. rewrite Forall_forall in Hfind.
    destruct (SetCondition_loop (cond_set_time n now) cs) as [cs' [b|]]; simpl in *.
    + destruct (Hhead Hin Ht) as (d & Hd & Ed & ->).
      destruct (String.eqb_spec (cond_Status d) (cond_Status n)) as [Es|]; [|done].
      exfalso. by apply (Hfind d Hd).
    + apply elem_of_app in Hin as [Hin| ->%list_elem_of_singleton]; [|done].
      exfalso. apply HN; [done|]. rewrite <-Hty, <-Ht. by apply list_elem_of_fmap_2.
Qed.

(** Setting a condition.  In a list with one condition per type, [SetCondition]
    keeps one condition per type, overwrites the verdict (status, reason, message)
    on the type of the new condition and no other, gives it the transition time of
    the old one when the status is the same and the current time otherwise, and
    returns false exactly when it left the list as it was, which is when the
    verdict was already there. *)
Theorem SetCondition_correct now cs n :
  NoDup (types cs) →
  let '(cs', changed) := SetCondition now cs n in
  NoDup (types cs') ∧
  view cs' = <[cond_Type n := verdict_of n]> (view cs) ∧
  (∀ c', c' ∈ cs' → cond_Type c' = cond_Type n →
     cond_LastTransitionTime c' =
       match list_find (λ c, cond_Type c = cond_Type n ∧ cond_Status c = cond_Status n) cs with
       | Some (_, c) => cond_LastTransitionTime c
       | None => now
       end) ∧
  (changed = false ↔ cs' = cs) ∧
  (changed = false ↔ view cs !! cond_Type n = Some (verdict_of n)).
Proof.
  intros Hnd. rewrite (surjective_pairing (SetCondition now cs n)). split_and!.
  - by apply SetCondition_NoDup.
  - apply SetCondition_view.
  - intros c' Hin Ht. by apply (SetCondition_set now cs n c').
  - apply SetCondition_unchanged.
  - apply SetCondition_same.
Qed.

Definition example_condition : Condition :=
  NewCondition 3 "Ready" ConditionTrue "Done" "".

Theorem SetCondition_correct_witness :
  NoDup (types [example_condition]) ∧
  view (SetCondition 9 [example_condition] (NewCondition 9 "Ready" ConditionTrue "Again" "")).1 !! "Ready"
    = Some {| v_Status := ConditionTrue; v_Reason := "Again"; v_Message := "" |}.
Proof.
  assert (NoDup (types [example_condition])) as Hnd by apply NoDup_singleton.
  split; [exact Hnd|].
  destruct (SetCondition_correct 9 [example_condition]
    (NewCondition 9 "Ready" ConditionTrue "Again" "") Hnd) as (_ & Hv & _).
  exact (eq_trans (f_equal (lookup "Ready") Hv) (lookup_insert_eq _ _ _)).
Defined.
