(* ===== verification/ObsResources.v ===== *)
(** * Secrets, config maps, TLS, tuning and names ([internal/api/observability])

    The files [secrets.go], [configmap.go], [tls.go], [tuning.go],
    [pipelines.go] and [filters.go].  A nil byte slice and an absent value are
    [None]; the FNV-1a hash of the Go library is a fold on 64-bit integers. *)

From S2P Require Import Prelude GoStrings ApiCommon ApiFilters ApiOutputs ApiForwarder Sets.

(** ** FNV-1a ([hash/fnv.New64a]) *)

Definition fnv_offset : Z := 14695981039346656037.
Definition fnv_prime : Z := 1099511628211.

Fixpoint fnv64a (h : Z) (s : string) : Z :=
  match s with
  | "" => h
  | String c s =>
      fnv64a ((Z.lxor h (Z.of_nat (Ascii.nat_of_ascii c)) * fnv_prime) mod 2 ^ 64) s
  end.

Lemma fnv64a_app h s t : fnv64a h (s +:+ t) = fnv64a (fnv64a h s) t.
Proof. revert h. induction s; intros h; simpl; [done|]. apply IHs. Qed.

Lemma fnv64a_bounds h s : (0 ≤ h < 2 ^ 64)%Z → (0 ≤ fnv64a h s < 2 ^ 64)%Z.
Proof.
  revert h. induction s as [|c s IH]; intros h Hh; simpl; [done|].
  apply IH, Z.mod_pos_bound. lia.
Qed.

(** ** Secrets and config maps *)

Notation Secrets := (gmap string Secret).
Notation ConfigMaps := (gmap string ConfigMap).

Section resources.
Context `{RangeOrder}.

(** The names of a map, sorted. *)
Definition Secrets_Names (s : Secrets) : list string := sort_strings (range s).*1.
Definition ConfigMaps_Names (c : ConfigMaps) : list string := sort_strings (range c).*1.

(** What the inner loops write for the data of one entry. *)
Definition write_data (data : gmap string string) : list string :=
  k ← sort_strings (range data).*1;
  [k; default "" (data !! k)].

Definition Secrets_writes (s : Secrets) : list string :=
  name ← Secrets_Names s;
  name :: match s !! name with Some secret => write_data (secret_Data secret) | None => [] end.

Definition ConfigMaps_writes (c : ConfigMaps) : list string :=
  name ← ConfigMaps_Names c;
  name :: match c !! name with Some cm => write_data (cm_Data cm) | None => [] end.

Definition Secrets_Hash64a (s : Secrets) : string :=
  Itoa (foldl fnv64a fnv_offset (Secrets_writes s)).

Definition ConfigMaps_Hash64a (c : ConfigMaps) : string :=
  Itoa (foldl fnv64a fnv_offset (ConfigMaps_writes c)).
End resources.

Definition NewSecretReference (keyName secretName : string) : SecretReference :=
  {| sr_Key := keyName; sr_SecretName := secretName |}.

Definition Value (s : Secrets) (key : option SecretReference) : option string :=
  match key with
  | Some k =>
      if sr_SecretName k != "" then
        match s !! sr_SecretName k with
        | Some secret => secret_Data secret !! sr_Key k
        | None => None
        end
      else None
  | None => None
  end.

Definition AsString (s : Secrets) (key : option SecretReference) : string :=
  match Value s key with Some v => v | None => "" end.

(** The reference a token stands for: the key of its secret. *)
Definition token_secret (sec : BearerTokenSecretKey) : SecretReference :=
  {| sr_Key := btsk_Key sec; sr_SecretName := btsk_Name sec |}.

Definition AsStringFromBearerToken (s : Secrets) (key : BearerToken) : string :=
  match (bt_From key == BearerTokenFromSecret), bt_Secret key with
  | true, Some sec => AsString s (Some (token_secret sec))
  | _, _ => ""
  end.

(** ** TLS *)

Section tls.
Context `{RangeOrder}.

Definition SecretsForTLS (t : TLSSpec) : list string :=
  let secrets := ∅ in
  let secrets := match tls_Key t with
    | Some k => Insert secrets [sr_SecretName k] | None => secrets end in
  let secrets := match tls_CA t with
    | Some ca => if vr_SecretName ca != "" then Insert secrets [vr_SecretName ca] else secrets
    | None => secrets end in
  let secrets := match tls_Certificate t with
    | Some c => if vr_SecretName c != "" then Insert secrets [vr_SecretName c] else secrets
    | None => secrets end in
  let secrets := match tls_KeyPassphrase t with
    | Some p => if sr_SecretName p != "" then Insert secrets [sr_SecretName p] else secrets
    | None => secrets end in
  UnsortedList secrets.

Definition ConfigmapsForTLS (t : TLSSpec) : list string :=
  let insert_cm (o : option ValueReference) (s : gset string) : gset string :=
    match o with
    | Some v => if (vr_SecretName v == "") && (vr_ConfigMapName v != "")
                then Insert s [vr_ConfigMapName v] else s
    | None => s
    end in
  UnsortedList (insert_cm (tls_Certificate t) (insert_cm (tls_CA t) ∅)).
End tls.

Definition secret_as_value (r : SecretReference) : ValueReference :=
  {| vr_Key := sr_Key r; vr_ConfigMapName := ""; vr_SecretName := sr_SecretName r |}.

Definition ValueReferences (t : TLSSpec) : list ValueReference :=
  let results := [] in
  let results := match tls_CA t with Some v => results ++ [v] | None => results end in
  let results := match tls_Certificate t with Some v => results ++ [v] | None => results end in
  let results := match tls_Key t with
    | Some r => results ++ [secret_as_value r] | None => results end in
  match tls_KeyPassphrase t with
  | Some r => results ++ [secret_as_value r] | None => results end.

(** ** Names and maps of the parts of a spec *)

Definition Pipelines_Names (pipelines : list PipelineSpec) : list string := pipe_Name <$> pipelines.
Definition Filters_Names (filters : list FilterSpec) : list string := filter_Name <$> filters.

Definition Pipelines_Map (pipelines : list PipelineSpec) : gmap string PipelineSpec :=
  map_of_assignments ((λ p, (pipe_Name p, p)) <$> pipelines).

(** The pointers to the elements of the slice are the elements: nothing writes
    through them. *)
Definition FilterMap (spec : ClusterLogForwarderSpec) : gmap string FilterSpec :=
  map_of_assignments ((λ f, (filter_Name f, f)) <$> spec_Filters spec).

Definition ReferenceOutput (pipelines : list PipelineSpec) (output : OutputSpec) : bool :=
  existsb (λ p, Has (NewString (pipe_OutputRefs p)) (out_Name output)) pipelines.

(** ** Tuning *)

Record Tuning := {
  tuning_Base : BaseOutputTuningSpec;
  tuning_Compression : string;
}.

Definition Tuning_zero : Tuning := {|
  tuning_Base := BaseOutputTuningSpec_zero; tuning_Compression := "" |}.

Definition mode_only (m : DeliveryMode) (w : option Quantity) : BaseOutputTuningSpec := {|
  bt_DeliveryMode := m; bt_MaxWrite := w; bt_MinRetryDuration := None;
  bt_MaxRetryDuration := None |}.

Definition tuned {T} (t : option T) (base : T → BaseOutputTuningSpec) (compression : T → string) :
    option Tuning :=
  x ← t; Some {| tuning_Base := base x; tuning_Compression := compression x |}.

Definition NewTuning (spec : OutputSpec) : Tuning :=
  let none {A} (_ : A) : string := "" in
  default Tuning_zero
    (if out_Type spec == OutputTypeAzureLogsIngestion then
       o ← out_AzureLogsIngestion spec; tuned (ali_Tuning o) alt_Base none
     else if out_Type spec == OutputTypeAzureMonitor then
       o ← out_AzureMonitor spec; tuned (am_Tuning o) id none
     else if out_Type spec == OutputTypeGoogleCloudLogging then
       o ← out_GoogleCloudLogging spec; tuned (gcl_Tuning o) gclt_Base none
     else if out_Type spec == OutputTypeCloudwatch then
       o ← out_Cloudwatch spec; tuned (cw_Tuning o) cwt_Base cwt_Compression
     else if out_Type spec == OutputTypeS3 then
       o ← out_S3 spec; tuned (s3_Tuning o) s3t_Base s3t_Compression
     else if out_Type spec == OutputTypeElasticsearch then
       o ← out_Elasticsearch spec; tuned (es_Tuning o) est_Base est_Compression
     else if out_Type spec == OutputTypeHTTP then
       o ← out_HTTP spec; tuned (http_Tuning o) httpt_Base httpt_Compression
     else if out_Type spec == OutputTypeOTLP then
       o ← out_OTLP spec; tuned (otlp_Tuning o) otlpt_Base otlpt_Compression
     else if out_Type spec == OutputTypeKafka then
       o ← out_Kafka spec;
       tuned (kafka_Tuning o) (λ t, mode_only (kt_DeliveryMode t) (kt_MaxWrite t)) kt_Compression
     else if out_Type spec == OutputTypeLoki then
       o ← out_Loki spec; tuned (loki_Tuning o) lokit_Base lokit_Compression
     else if out_Type spec == OutputTypeLokiStack then
       o ← out_LokiStack spec; tuned (lstack_Tuning o) lokit_Base lokit_Compression
     else if out_Type spec == OutputTypeSplunk then
       o ← out_Splunk spec; tuned (splunk_Tuning o) splunkt_Base splunkt_Compression
     else if out_Type spec == OutputTypeSyslog then
       o ← out_Syslog spec;
       tuned (syslog_Tuning o) (λ t, mode_only (syslogt_DeliveryMode t) None) none
     else None).

(** ** Lemmas *)

Lemma foldl_fnv64a h l : foldl fnv64a h l = fnv64a h (String.concat "" l).
Proof.
  revert h. induction l as [|s l IH]; intros h; simpl; [done|]. rewrite IH.
  destruct l as [|t l]; [done|]. symmetry. apply fnv64a_app.
Qed.

Lemma ReferenceOutput_spec pipelines o :
  ReferenceOutput pipelines o = true ↔ ∃ p, p ∈ pipelines ∧ out_Name o ∈ pipe_OutputRefs p.
Proof.
  unfold ReferenceOutput. rewrite existsb_exists. setoid_rewrite Has_NewString.
  setoid_rewrite bool_decide_eq_true. setoid_rewrite <-list_elem_of_In. done.
Qed.

(** ** What is hashed *)

(** The keys of a map in their order, each followed by the text of its value. *)
Definition text_of {A} (f : A → string) (m : gmap string A) : string :=
  String.concat "" ((λ k, k +:+ from_option f "" (m !! k)) <$> sort_strings (map_to_list m).*1).

Definition Secrets_text : Secrets → string := text_of (λ s, text_of id (secret_Data s)).
Definition ConfigMaps_text : ConfigMaps → string := text_of (λ c, text_of id (cm_Data c)).

Lemma concat_cons s l : String.concat "" (s :: l) = s +:+ String.concat "" l.
Proof. destruct l; [by rewrite string_app_nil_r|done]. Qed.

Lemma concat_app l l' : String.concat "" (l ++ l') = String.concat "" l +:+ String.concat "" l'.
Proof. induction l as [|s l IH]; [done|]. cbn [app]. by rewrite !concat_cons, IH, string_app_assoc. Qed.

Lemma concat_bind {A} (f : A → list string) l :
  String.concat "" (l ≫= f) = String.concat "" ((λ x, String.concat "" (f x)) <$> l).
Proof. induction l as [|x l IH]; [done|]. by rewrite bind_cons, fmap_cons, concat_app, concat_cons, IH. Qed.

Lemma sorted_range `{RangeOrder} {A} (m : gmap string A) : sort_strings (range m).*1 = sort_strings (map_to_list m).*1.
Proof. apply sort_strings_proper. by rewrite range_perm. Qed.

Lemma elem_of_sorted_keys {A} (m : gmap string A) k : k ∈ sort_strings (map_to_list m).*1 ↔ is_Some (m !! k).
Proof.
  rewrite elem_of_sort_strings, list_elem_of_fmap. split.
  - intros ([k' x] & -> & Hx%elem_of_map_to_list). by exists x.
  - intros [x Hx]. exists (k, x). by rewrite elem_of_map_to_list.
Qed.

Lemma write_data_text `{RangeOrder} data : String.concat "" (write_data data) = text_of id data.
Proof. unfold write_data, text_of. by rewrite sorted_range, concat_bind. Qed.

Lemma writes_text `{RangeOrder} {A} (d : A → gmap string string) (m : gmap string A) :
  String.concat "" (sort_strings (range m).*1 ≫= λ name,
    name :: match m !! name with Some x => write_data (d x) | None => [] end) = text_of (λ x, text_of id (d x)) m.
Proof.
  unfold text_of at 1. rewrite sorted_range, concat_bind. f_equal. apply list_fmap_ext. intros _ k _.
  rewrite concat_cons. destruct (m !! k); [|done]. cbn [from_option]. by rewrite write_data_text.
Qed.

Lemma Secrets_Hash64a_text `{RangeOrder} s : Secrets_Hash64a s = Itoa (fnv64a fnv_offset (Secrets_text s)).
Proof. unfold Secrets_Hash64a. by rewrite foldl_fnv64a, <-(writes_text secret_Data). Qed.

Lemma ConfigMaps_Hash64a_text `{RangeOrder} c : ConfigMaps_Hash64a c = Itoa (fnv64a fnv_offset (ConfigMaps_text c)).
Proof. unfold ConfigMaps_Hash64a. by rewrite foldl_fnv64a, <-(writes_text cm_Data). Qed.

Lemma StronglySorted_filter {A} (R : relation A) (P : A → Prop) `{∀ x, Decision (P x)} l :
  StronglySorted R l → StronglySorted R (filter P l).
Proof.
  induction 1 as [|x l _ IH Hx]; [constructor|]. rewrite filter_cons. case_decide; [|done]. constructor; [done|].
  rewrite Forall_forall in Hx |- *. intros y [_ Hy]%list_elem_of_filter. by apply Hx.
Qed.

Lemma filter_agree {A} (P Q : A → Prop) `{∀ x, Decision (P x), ∀ x, Decision (Q x)} (l : list A) :
  (∀ x, x ∈ l → P x ↔ Q x) → filter P l = filter Q l.
Proof.
  induction l as [|x l IH]; [done|]. intros [Hx Hl]%forall_cons_iff. rewrite !filter_cons, IH by done.
  destruct (decide (P x)), (decide (Q x)); tauto.
Qed.

(** Where a new key comes among the others. *)
Lemma sorted_insert {A} (m : gmap string A) k x :
  m !! k = None →
  sort_strings (map_to_list (<[k := x]> m)).*1 =
    filter (λ k', String.le k' k) (sort_strings (map_to_list m).*1) ++
    k :: filter (λ k', ¬ String.le k' k) (sort_strings (map_to_list m).*1).
Proof.
  intros Hk. apply (StronglySorted_unique String.le); [apply sort_strings_sorted| |].
  - pose proof (sort_strings_sorted (map_to_list m).*1) as Hs.
    assert (StronglySorted String.le (k :: filter (λ k', ¬ String.le k' k) (sort_strings (map_to_list m).*1))) as Hr.
    { constructor; [by apply StronglySorted_filter|]. apply Forall_forall. intros k' [Hn _]%list_elem_of_filter.
      by destruct (total String.le k k'). }
    apply StronglySorted_app_2; [|by apply StronglySorted_filter|exact Hr].
    intros a b [Ha _]%list_elem_of_filter [->|[Hb _]%list_elem_of_filter]%elem_of_cons; [done|].
    etrans; [exact Ha|]. by destruct (total String.le k b).
  - rewrite sort_strings_perm, map_to_list_insert, <-Permutation_middle by done. cbn [fmap list_fmap fst]. apply perm_skip.
    rewrite <-(sort_strings_perm (map_to_list m).*1) at 1. generalize (sort_strings (map_to_list m).*1). intros l.
    induction l as [|k' l IH]; [done|]. rewrite !filter_cons. destruct (decide (String.le k' k)) as [Hle|Hle].
    + rewrite decide_False by tauto. by apply perm_skip.
    + rewrite decide_True by done. rewrite <-Permutation_middle. by apply perm_skip.
Qed.

(** Bytes that move from a value to the end of its key leave the text as it is, unless the
    new key has another place. *)
Lemma text_moved (m : gmap string string) k moved v :
  m !! k = None → m !! (k +:+ moved) = None →
  (∀ k', is_Some (m !! k') → String.le k' k ↔ String.le k' (k +:+ moved)) →
  text_of id (<[k +:+ moved := v]> m) = text_of id (<[k := moved +:+ v]> m).
Proof.
  intros Hk Hk' Hle. unfold text_of. rewrite !sorted_insert by done.
  assert (filter (λ k', String.le k' (k +:+ moved)) (sort_strings (map_to_list m).*1) =
    filter (λ k', String.le k' k) (sort_strings (map_to_list m).*1)) as ->.
  { apply filter_agree. intros k' Hin%elem_of_sorted_keys. by rewrite Hle. }
  assert (filter (λ k', ¬ String.le k' (k +:+ moved)) (sort_strings (map_to_list m).*1) =
    filter (λ k', ¬ String.le k' k) (sort_strings (map_to_list m).*1)) as ->.
  { apply filter_agree. intros k' Hin%elem_of_sorted_keys. by rewrite Hle. }
  rewrite !fmap_app, !fmap_cons, !concat_app, !concat_cons, !lookup_insert_eq. cbn [from_option id].
  rewrite !string_app_assoc. f_equal; [|do 3 f_equal]; f_equal; apply list_fmap_ext; intros _ k' [_ Hin]%list_elem_of_lookup_2%list_elem_of_filter;
    apply elem_of_sorted_keys in Hin as [x Hx]; rewrite !lookup_insert_ne; try done; congruence.
Qed.

Lemma text_of_insert {A} (f : A → string) (m : gmap string A) name x y :
  f x = f y → text_of f (<[name := x]> m) = text_of f (<[name := y]> m).
Proof.
  intros E. unfold text_of. f_equal.
  assert (sort_strings (map_to_list (<[name := x]> m)).*1 = sort_strings (map_to_list (<[name := y]> m)).*1) as ->.
  { rewrite <-(insert_delete_eq m name x), <-(insert_delete_eq m name y). apply sort_strings_proper. by rewrite !map_to_list_insert by apply lookup_delete_eq. }
  apply list_fmap_ext. intros _ k _. f_equal. destruct (decide (name = k)) as [->|Hne].
  - rewrite !lookup_insert_eq. exact E.
  - by rewrite !lookup_insert_ne.
Qed.

(** C22. The hash of the secrets and of the config maps, which decides whether the
    collector is rolled out again.  It is the decimal text of the 64-bit FNV-1a hash of the
    names in their order, each followed by its keys in their order, each followed by its
    value, whatever the order in which the maps are visited.  There are no separators:
    among any other secrets or config maps, and any other keys, bytes that move from a value
    to the end of its key leave the hash unchanged, as long as no other key comes between
    the old and the new one. *)
Theorem Hash64a_correct :
  (∀ (o : RangeOrder) s, Secrets_Hash64a s = Itoa (fnv64a fnv_offset (Secrets_text s))) ∧
  (∀ (o : RangeOrder) c, ConfigMaps_Hash64a c = Itoa (fnv64a fnv_offset (ConfigMaps_text c))) ∧
  (∀ t, (0 ≤ fnv64a fnv_offset t < 2 ^ 64)%Z) ∧
  ∀ (o1 o2 : RangeOrder) k moved v d,
    d !! k = None → d !! (k +:+ moved) = None →
    (∀ k', is_Some (d !! k') → String.le k' k ↔ String.le k' (k +:+ moved)) →
    (∀ s name s1 s2, secret_Data s1 = <[k +:+ moved := v]> d → secret_Data s2 = <[k := moved +:+ v]> d →
       @Secrets_Hash64a o1 (<[name := s1]> s) = @Secrets_Hash64a o2 (<[name := s2]> s)) ∧
    (∀ c name c1 c2, cm_Data c1 = <[k +:+ moved := v]> d → cm_Data c2 = <[k := moved +:+ v]> d →
       @ConfigMaps_Hash64a o1 (<[name := c1]> c) = @ConfigMaps_Hash64a o2 (<[name := c2]> c)).
Proof.
  split; [intros o; apply Secrets_Hash64a_text|]. split; [intros o; apply ConfigMaps_Hash64a_text|].
  split; [intros t; apply fnv64a_bounds; by vm_compute|]. intros o1 o2 k moved v d Hk Hk' Hle.
  pose proof (text_moved d k moved v Hk Hk' Hle) as E. split.
  - intros s name s1 s2 H1 H2. rewrite !Secrets_Hash64a_text. do 2 f_equal. apply text_of_insert. by rewrite H1, H2.
  - intros c name c1 c2 H1 H2. rewrite !ConfigMaps_Hash64a_text. do 2 f_equal. apply text_of_insert. by rewrite H1, H2.
Qed.
