(* ===== verification/ObsInputs.v ===== *)
(** * Helpers on inputs ([internal/api/observability/input_types.go]) *)

From S2P Require Import Prelude GoStrings Regex ApiCommon ApiInputs Sets ObsResources.

Open Scope re.

(** The names reserved for the inputs the operator generates. *)
Definition ReservedInputTypes : gset string :=
  NewString [InputTypeApplication; InputTypeAudit; InputTypeInfrastructure].
Definition ReservedApplicationSources : gset string := NewString [ApplicationSourceContainer].
Definition ReservedInfrastructureSources : gset string :=
  NewString [InfrastructureSourceContainer; InfrastructureSourceNode].
Definition ReservedAuditSources : gset string :=
  NewString [AuditSourceKube; AuditSourceOpenShift; AuditSourceAuditd; AuditSourceOVN].

(** The pattern is an alternation of [default], [openshift] and [kube] with any
    tail for the last two, between the anchors.  The alternation binds weaker
    than the anchors: the first anchor guards the first alternative only and the
    last anchor the last one. *)
Definition InfraNSRegex_match (s : string) : bool :=
  fullmatch (Lit "default" ⋅ Star Any) s
  || search (Lit "openshift" ⋅ Star Dot) s
  || fullmatch (Star Any ⋅ Lit "kube" ⋅ Star Dot) s.

Definition Threshold (ls : option LimitSpec) : Z * bool :=
  match ls with
  | None => (0%Z, false)
  | Some ls => (limit_MaxRecordsPerSecond ls, true)
  end.

Definition MaxRecordsPerSecond (input : InputSpec) : outcome (Z * bool) :=
  let infra : outcome (Z * bool) :=
    match in_Infrastructure input ⇀ infra_Tuning with
    | Some tuning =>
        c ← deref (iitune_Container tuning);
        match citune_RateLimitPerContainer c with
        | Some rate => Ret (Threshold (Some rate))
        | None => Ret (0%Z, false)
        end
    | None => Ret (0%Z, false)
    end in
  match in_Application input ⇀ app_Tuning ⇀ citune_RateLimitPerContainer with
  | Some rate => Ret (Threshold (Some rate))
  | None => infra
  end.

Definition IncludesInfraNamespace (input : option Application) : bool :=
  match input with
  | Some app => existsb (λ ns, InfraNSRegex_match (nc_Namespace ns)) (app_Includes app)
  | None => false
  end.

Definition Inputs_Names (inputs : list InputSpec) : list string := in_Name <$> inputs.

Definition Inputs_Map (inputs : list InputSpec) : gmap string InputSpec :=
  map_of_assignments ((λ i, (in_Name i, i)) <$> inputs).

Section inputs.
Context `{RangeOrder}.

(** [sort.Slice] of a set's elements: with distinct elements the order is the
    one of [sort.Strings]. *)
Definition InputTypes_of (inputs : list InputSpec) : list InputType :=
  sort_strings (UnsortedList (foldl (λ types i, Insert types [in_Type i]) ∅ inputs)).

Definition InputSources_add (inputType : InputType) (types : gset string) (i : InputSpec) :
    gset string :=
  if in_Type i == inputType then
    if in_Type i == InputTypeApplication then
      Insert types (List ReservedApplicationSources)
    else if in_Type i == InputTypeInfrastructure then
      match in_Infrastructure i with
      | Some infra =>
          if (length (infra_Sources infra) =? 0)%nat
          then Insert types (List ReservedInfrastructureSources)
          else Insert types (infra_Sources infra)
      | None => Insert types (List ReservedInfrastructureSources)
      end
    else if in_Type i == InputTypeAudit then
      match in_Audit i with
      | Some audit =>
          if (length (audit_Sources audit) =? 0)%nat
          then Insert types (List ReservedAuditSources)
          else Insert types (audit_Sources audit)
      | None => Insert types (List ReservedAuditSources)
      end
    else types
  else types.

Definition InputSources (inputs : list InputSpec) (inputType : InputType) : list string :=
  SortedList (foldl (InputSources_add inputType) ∅ inputs).

Definition Inputs_ConfigmapNames (inputs : list InputSpec) : list string :=
  UnsortedList (foldl (λ names i,
    match in_Receiver i ⇀ recv_TLS with
    | Some tls => Insert names (ConfigmapsForTLS tls)
    | None => names
    end) ∅ inputs).

Definition Inputs_SecretNames (inputs : list InputSpec) : list string :=
  UnsortedList (foldl (λ secrets i,
    match in_Receiver i ⇀ recv_TLS with
    | Some tls => Insert secrets (SecretsForTLS tls)
    | None => secrets
    end) ∅ inputs).
End inputs.

(** The infrastructure input collects from [source]: it names it or names none. *)
Definition infra_has_source (i : InputSpec) (source : InfrastructureSource) : bool :=
  match in_Infrastructure i with
  | Some infra =>
      (in_Type i == InputTypeInfrastructure)
      && ((length (infra_Sources infra) =? 0)%nat || Has (NewString (infra_Sources infra)) source)
  | None => false
  end.

Definition HasJournalSource (inputs : list InputSpec) : bool :=
  existsb (λ i, infra_has_source i InfrastructureSourceNode) inputs.

Definition HasContainerSource (inputs : list InputSpec) : bool :=
  existsb (λ i, (in_Type i == InputTypeApplication)
    || infra_has_source i InfrastructureSourceContainer) inputs.

Definition HasAnyAuditSource (inputs : list InputSpec) : bool :=
  existsb (λ i, (in_Type i == InputTypeAudit) && bool_decide (is_Some (in_Audit i))) inputs.

Definition HasAuditSource (inputs : list InputSpec) (logSource : AuditSource) : bool :=
  existsb (λ i,
    match in_Audit i with
    | Some audit => (in_Type i == InputTypeAudit)
        && (Has (NewString (audit_Sources audit)) logSource
            || (length (audit_Sources audit) =? 0)%nat)
    | None => false
    end
    || (logSource == AuditSourceKube) &&
       match in_Receiver i ⇀ recv_HTTP with
       | Some http => (in_Type i == InputTypeReceiver)
           && (httprecv_Format http == HTTPReceiverFormatKubeAPIAudit)
       | None => false
       end) inputs.

Definition HasReceiverSource (inputs : list InputSpec) : bool :=
  existsb (λ i, (in_Type i == InputTypeReceiver) && bool_decide (is_Some (in_Receiver i))) inputs.

(** ** Lemmas *)

Lemma Inputs_Map_lookup inputs i :
  NoDup (Inputs_Names inputs) →
  Inputs_Map inputs !! in_Name i = Some i ↔ i ∈ inputs.
Proof.
  intros Hnd. unfold Inputs_Map. rewrite map_of_assignments_NoDup.
  - rewrite list_elem_of_fmap. split; [by intros (? & [= _ ->] & ?)|]. by exists i.
  - by rewrite <-list_fmap_compose.
Qed.

Lemma Inputs_Map_is_Some inputs n : is_Some (Inputs_Map inputs !! n) ↔ n ∈ Inputs_Names inputs.
Proof. unfold Inputs_Map. by rewrite map_of_assignments_dom, <-list_fmap_compose. Qed.

Lemma Inputs_Map_name inputs n i : Inputs_Map inputs !! n = Some i → in_Name i = n ∧ i ∈ inputs.
Proof.
  unfold Inputs_Map. intros (j & [= -> ->] & ?)%map_of_assignments_elem%list_elem_of_fmap. done.
Qed.

(** The rate limit is found without a panic exactly when the infrastructure
    tuning that is looked at has its [container] section. *)
Lemma MaxRecordsPerSecond_returns i :
  returns (MaxRecordsPerSecond i) ↔
  is_Some (in_Application i ⇀ app_Tuning ⇀ citune_RateLimitPerContainer) ∨
  ∀ t, in_Infrastructure i ⇀ infra_Tuning = Some t → is_Some (iitune_Container t).
Proof.
  unfold MaxRecordsPerSecond, returns.
  destruct (in_Application i ⇀ app_Tuning ⇀ citune_RateLimitPerContainer) as [r|].
  { split; [left; by eexists|]. by eexists. }
  destruct (in_Infrastructure i ⇀ infra_Tuning) as [t|].
  - destruct (iitune_Container t) as [c|] eqn:Hc; simpl.
    + split.
      * intros _. right. intros ? [= <-]. by rewrite Hc.
      * intros _. case_match; by eexists.
    + split; [by intros [? ?]|]. intros [[? [=]]|H].
      destruct (H t eq_refl) as [? Hc']. congruence.
  - split; [right; by intros ? [=]|]. by eexists.
Qed.

(** The rate limit of an input.  The limit of an application input is found
    without looking further; for the other inputs the tuning section of an
    infrastructure input is dereferenced down to its [container] section without
    a test, and the call panics exactly when that section is absent. *)
Theorem MaxRecordsPerSecond_correct i :
  (∀ rate, in_Application i ⇀ app_Tuning ⇀ citune_RateLimitPerContainer = Some rate →
     MaxRecordsPerSecond i = Ret (limit_MaxRecordsPerSecond rate, true)) ∧
  (∀ t c, in_Application i ⇀ app_Tuning ⇀ citune_RateLimitPerContainer = None →
     in_Infrastructure i ⇀ infra_Tuning = Some t → iitune_Container t = Some c →
     MaxRecordsPerSecond i = Ret (Threshold (citune_RateLimitPerContainer c))) ∧
  (returns (MaxRecordsPerSecond i) ↔
   is_Some (in_Application i ⇀ app_Tuning ⇀ citune_RateLimitPerContainer) ∨
   ∀ t, in_Infrastructure i ⇀ infra_Tuning = Some t → is_Some (iitune_Container t)).
Proof.
  split_and!; [| |apply MaxRecordsPerSecond_returns]; unfold MaxRecordsPerSecond.
  - by intros rate ->.
  - intros t c -> -> ->. simpl. by destruct (citune_RateLimitPerContainer c).
Qed.
