(* ===== verification/ObsOutputs.v ===== *)
(** * Helpers on outputs ([internal/api/observability/output_types.go])

    Reading a field through a nil pointer panics ([deref]) where the source does
    not test the pointer first. *)

From S2P Require Import Prelude GoStrings ApiCommon ApiOutputs Sets ObsResources.

Definition Outputs_Names (outputs : list OutputSpec) : list string := out_Name <$> outputs.

Definition Outputs_Map (outputs : list OutputSpec) : gmap string OutputSpec :=
  map_of_assignments ((λ o, (out_Name o, o)) <$> outputs).

(** ** Bearer tokens *)

(** The token of an IAM role: [&auth.IamRole.Token]. *)
Definition iamRole_token (auth : option AwsAuthentication) : outcome (option BearerToken) :=
  a ← deref auth;
  if aws_Type a == AwsAuthTypeIAMRole
  then r ← deref (aws_IamRole a); Ret (Some (ar_Token r))
  else Ret None.

Definition getOutputBearerToken (o : OutputSpec) : outcome (option BearerToken) :=
  if out_Type o == OutputTypeLoki then
    Ret (out_Loki o ⇀ loki_Authentication ⇀ ha_Token)
  else if out_Type o == OutputTypeLokiStack then
    Ret (out_LokiStack o ⇀ lstack_Authentication ⇀ lsa_Token)
  else if out_Type o == OutputTypeCloudwatch then
    match out_Cloudwatch o with
    | Some c => iamRole_token (cw_Authentication c)
    | None => Ret None
    end
  else if out_Type o == OutputTypeS3 then
    match out_S3 o with
    | Some s => iamRole_token (s3_Authentication s)
    | None => Ret None
    end
  else if out_Type o == OutputTypeElasticsearch then
    Ret (out_Elasticsearch o ⇀ es_Authentication ⇀ ha_Token)
  else if out_Type o == OutputTypeOTLP then
    Ret (out_OTLP o ⇀ otlp_Authentication ⇀ ha_Token)
  else if out_Type o == OutputTypeAzureLogsIngestion then
    Ret (match out_AzureLogsIngestion o ⇀ ali_Authentication with
         | Some a =>
             if ala_Type a == AzureLogsIngestionAuthTypeWorkloadIdentity
             then ala_WorkloadIdentity a ⇀ alwi_Token else None
         | None => None
         end)
  else if out_Type o == OutputTypeGoogleCloudLogging then
    Ret (out_GoogleCloudLogging o ⇀ gcl_Authentication ⇀ gcla_Token)
  else Ret None.

Definition needsServiceAccountToken (o : OutputSpec) : outcome bool :=
  token ← getOutputBearerToken o;
  Ret (match token with
       | Some t => bt_From t == BearerTokenFromServiceAccount
       | None => false
       end).

Fixpoint NeedServiceAccountToken (outputs : list OutputSpec) : outcome bool :=
  match outputs with
  | [] => Ret false
  | o :: outputs =>
      needs ← needsServiceAccountToken o;
      if (needs : bool) then Ret true else NeedServiceAccountToken outputs
  end.

(** ** References to secrets *)

(** The key of the secret a token comes from, if it comes from one. *)
Definition token_keys (token : option BearerToken) : list (option SecretReference) :=
  match token with
  | Some t =>
      match (bt_From t == BearerTokenFromSecret), bt_Secret t with
      | true, Some sec => [Some (token_secret sec)]
      | _, _ => []
      end
  | None => []
  end.

Definition httpAuthKeys (auth : option HTTPAuthentication) : list (option SecretReference) :=
  match auth with
  | Some a => [ha_Username a; ha_Password a] ++ token_keys (ha_Token a)
  | None => []
  end.

Definition lokiStackKeys (auth : option LokiStackAuthentication) : list (option SecretReference) :=
  match auth with
  | Some a => token_keys (lsa_Token a)
  | None => []
  end.

Definition appendAssumeRoleKeys (auth : option AwsAuthentication)
    (keys : list (option SecretReference)) : list (option SecretReference) :=
  match auth ⇀ aws_AssumeRole with
  | Some role => keys ++ [Some (aar_RoleARN role)]
  | None => keys
  end.

Definition awsSecretKeys (auth : option AwsAuthentication) :
    outcome (list (option SecretReference)) :=
  match auth with
  | None => Ret []
  | Some a =>
      keys ← (if aws_Type a == AwsAuthTypeAccessKey then
                k ← deref (aws_AwsAccessKey a);
                Ret [Some (aak_KeyId k); Some (aak_KeySecret k)]
              else if aws_Type a == AwsAuthTypeIAMRole then
                r ← deref (aws_IamRole a);
                Ret (Some (ar_RoleARN r) :: token_keys (Some (ar_Token r)))
              else Ret []);
      Ret (appendAssumeRoleKeys auth keys)
  end.

Definition gclSecretKeys (auth : GoogleCloudLoggingAuthentication) : list (option SecretReference) :=
  (if gcla_Credentials auth then [gcla_Credentials auth] else []) ++ token_keys (gcla_Token auth).

Definition azureLogsIngestionKeys (auth : AzureLogsIngestionAuthentication) :
    list (option SecretReference) :=
  match ala_ClientSecret auth with Some c => [alcs_Secret c] | None => [] end
  ++ token_keys (ala_WorkloadIdentity auth ⇀ alwi_Token).

Definition SecretReferences (o : OutputSpec) : outcome (list (option SecretReference)) :=
  if out_Type o == OutputTypeAzureLogsIngestion then
    match out_AzureLogsIngestion o ⇀ ali_Authentication with
    | Some a => Ret (azureLogsIngestionKeys a)
    | None => Ret []
    end
  else if out_Type o == OutputTypeAzureMonitor then
    match out_AzureMonitor o ⇀ am_Authentication with
    | Some a => Ret [ama_SharedKey a]
    | None => Ret []
    end
  else if out_Type o == OutputTypeCloudwatch then
    awsSecretKeys (out_Cloudwatch o ⇀ cw_Authentication)
  else if out_Type o == OutputTypeS3 then
    awsSecretKeys (out_S3 o ⇀ s3_Authentication)
  else if out_Type o == OutputTypeElasticsearch then
    Ret (httpAuthKeys (out_Elasticsearch o ⇀ es_Authentication))
  else if out_Type o == OutputTypeGoogleCloudLogging then
    match out_GoogleCloudLogging o ⇀ gcl_Authentication with
    | Some a => Ret (gclSecretKeys a)
    | None => Ret []
    end
  else if out_Type o == OutputTypeHTTP then
    Ret (httpAuthKeys (out_HTTP o ⇀ http_Authentication))
  else if out_Type o == OutputTypeOTLP then
    Ret (httpAuthKeys (out_OTLP o ⇀ otlp_Authentication))
  else if out_Type o == OutputTypeKafka then
    match out_Kafka o ⇀ kafka_Authentication with
    | Some a => s ← deref (ka_SASL a); Ret [sasl_Password s; sasl_Username s]
    | None => Ret []
    end
  else if out_Type o == OutputTypeLoki then
    Ret (httpAuthKeys (out_Loki o ⇀ loki_Authentication))
  else if out_Type o == OutputTypeLokiStack then
    Ret (lokiStackKeys (out_LokiStack o ⇀ lstack_Authentication))
  else if out_Type o == OutputTypeSplunk then
    match out_Splunk o ⇀ splunk_Authentication with
    | Some a => Ret [splunka_Token a]
    | None => Ret []
    end
  else if out_Type o == OutputTypeSyslog then Ret []
  else Exit 1.

Definition SecretReferencesAsValueReferences (o : OutputSpec) : outcome (list ValueReference) :=
  refs ← SecretReferences o;
  Ret (secret_as_value <$> somes refs).

Section outputs.
Context `{RangeOrder}.

Definition Outputs_ConfigmapNames (outputs : list OutputSpec) : list string :=
  UnsortedList (foldl (λ names o,
    match out_TLS o with
    | Some tls => Insert names (ConfigmapsForTLS (otls_TLSSpec tls))
    | None => names
    end) ∅ outputs).

Definition Outputs_SecretNames (outputs : list OutputSpec) : outcome (list string) :=
  secrets ← foldM (λ secrets o,
    let secrets := match out_TLS o with
      | Some tls => Insert secrets (SecretsForTLS (otls_TLSSpec tls))
      | None => secrets
      end in
    keys ← SecretReferences o;
    Ret (foldl (λ secrets k, Insert secrets [sr_SecretName k]) secrets (somes keys)))
    ∅ outputs;
  Ret (UnsortedList secrets).
End outputs.

(** ** When the references are found *)

(** What the CRD does not ask for and the code relies on: a Kafka output with
    an authentication has its SASL section. *)
Definition kafka_has_sasl (o : OutputSpec) : Prop :=
  ∀ k a, out_Type o = OutputTypeKafka → out_Kafka o = Some k →
    kafka_Authentication k = Some a → is_Some (ka_SASL a).

Lemma awsSecretKeys_returns auth :
  (∀ a, auth = Some a → aws_admitted a) → returns (awsSecretKeys auth).
Proof.
  intros Ha. destruct auth as [a|]; simpl; [|apply returns_ret].
  destruct (Ha a eq_refl) as (_ & Hk & Hr).
  apply returns_bind; [|intros; apply returns_ret].
  destruct (String.eqb_spec (aws_Type a) AwsAuthTypeAccessKey) as [E|_].
  { destruct (Hk E) as [k ->]. apply returns_ret. }
  destruct (String.eqb_spec (aws_Type a) AwsAuthTypeIAMRole) as [E|_]; [|apply returns_ret].
  destruct (Hr E) as [r ->]. apply returns_ret.
Qed.

(** Outputs the CRD admits give their references, a Kafka output needing its SASL
    section too. *)
Lemma SecretReferences_returns o :
  output_admitted o → kafka_has_sasl o → returns (SecretReferences o).
Proof.
  intros Ho Hk. unfold SecretReferences.
  repeat match goal with
  | |- context [out_Type o == ?t] =>
      destruct (String.eqb_spec (out_Type o) t) as [?E|?N];
      [try first [apply returns_ret | case_match; apply returns_ret]|]
  end.
  - destruct (out_Cloudwatch o) as [c|] eqn:Hc; simpl; [|apply returns_ret].
    apply awsSecretKeys_returns. intros a Ha.
    destruct (oa_cw_auth _ Ho _ Hc) as (a' & Ha' & ?). congruence.
  - destruct (out_S3 o) as [s|] eqn:Hs; simpl; [|apply returns_ret].
    apply awsSecretKeys_returns. intros a Ha.
    destruct (oa_s3_auth _ Ho _ Hs) as (a' & Ha' & ?). congruence.
  - destruct (out_Kafka o) as [k|] eqn:Hko; simpl; [|apply returns_ret].
    destruct (kafka_Authentication k) as [a|] eqn:Ha; simpl; [|apply returns_ret].
    apply returns_bind; [|intros; apply returns_ret]. apply returns_deref. eauto.
  - exfalso. pose proof (oa_type _ Ho) as Ht. unfold OutputTypes in Ht. set_solver.
Qed.

(** A Kafka output with an authentication and no SASL section ends in a panic. *)
Lemma SecretReferences_kafka_panics o k a :
  out_Type o = OutputTypeKafka → out_Kafka o = Some k → kafka_Authentication k = Some a →
  ka_SASL a = None → SecretReferences o = Panic "nil dereference".
Proof.
  intros Ht Hk Ha Hs. unfold SecretReferences. rewrite Ht. simpl. rewrite Hk. simpl.
  rewrite Ha. simpl. by rewrite Hs.
Qed.

(** The values an output needs are the references it has. *)
Lemma elem_of_SecretReferencesAsValueReferences o refs vs v :
  SecretReferences o = Ret refs → SecretReferencesAsValueReferences o = Ret vs →
  v ∈ vs ↔ ∃ r, Some r ∈ refs ∧ v = secret_as_value r.
Proof.
  unfold SecretReferencesAsValueReferences. intros -> [= <-].
  rewrite list_elem_of_fmap. split.
  - intros (r & -> & Hr%elem_of_somes). eauto.
  - intros (r & Hr & ->). exists r. by rewrite elem_of_somes.
Qed.

Lemma iamRole_token_returns auth a :
  auth = Some a → aws_admitted a → returns (iamRole_token auth).
Proof.
  intros -> (_ & _ & Hr). unfold iamRole_token. simpl.
  destruct (String.eqb_spec (aws_Type a) AwsAuthTypeIAMRole) as [E|]; [|apply returns_ret].
  destruct (Hr E) as [r ->]. apply returns_ret.
Qed.

(** Tokens are read without a panic. *)
Lemma getOutputBearerToken_returns o : output_admitted o → returns (getOutputBearerToken o).
Proof.
  intros Ho. unfold getOutputBearerToken.
  repeat match goal with
  | |- context [out_Type o == ?t] =>
      destruct (String.eqb_spec (out_Type o) t) as [?E|?N]; [try apply returns_ret|]
  end; try apply returns_ret.
  - destruct (out_Cloudwatch o) as [c|] eqn:Hc; simpl; [|apply returns_ret].
    destruct (oa_cw_auth _ Ho _ Hc) as (a & ? & ?). by eapply iamRole_token_returns.
  - destruct (out_S3 o) as [s|] eqn:Hs; simpl; [|apply returns_ret].
    destruct (oa_s3_auth _ Ho _ Hs) as (a & ? & ?). by eapply iamRole_token_returns.
Qed.

Lemma NeedServiceAccountToken_returns outputs :
  (∀ o, o ∈ outputs → output_admitted o) → returns (NeedServiceAccountToken outputs).
Proof.
  induction outputs as [|o outputs IH]; intros Ho; cbn [NeedServiceAccountToken]; [apply returns_ret|].
  apply forall_cons_iff in Ho as [Ha Hl]. apply returns_bind.
  - apply returns_bind; [by apply getOutputBearerToken_returns|]. intros. apply returns_ret.
  - intros [|] _; [apply returns_ret|by apply IH].
Qed.

(** Which secrets an output refers to.  For an output the CRD admits, the
    references are computed exactly when a Kafka output with an authentication has
    its SASL section: without it the operator dereferences a nil pointer, while
    every other section that may be absent is tested. *)
Theorem SecretReferences_total o :
  output_admitted o →
  (returns (SecretReferences o) ↔ kafka_has_sasl o) ∧
  (¬ kafka_has_sasl o → SecretReferences o = Panic "nil dereference").
Proof.
  intros Ho. destruct (decide (out_Type o = OutputTypeKafka)) as [Ht|Hn].
  2: { assert (kafka_has_sasl o) as Hk by (intros k a ?; congruence).
       split; [|by intros []]. split; [done|]. intros _. by apply SecretReferences_returns. }
  assert (∀ k a, out_Kafka o = Some k → kafka_Authentication k = Some a → ka_SASL a = None →
    SecretReferences o = Panic "nil dereference") as Hp by (intros; by eapply SecretReferences_kafka_panics).
  assert (kafka_has_sasl o ∨ ∃ k a, out_Kafka o = Some k ∧ kafka_Authentication k = Some a ∧
    ka_SASL a = None) as Hcase.
  { destruct (out_Kafka o) as [k|] eqn:Hk; [|left; intros ???; congruence].
    destruct (kafka_Authentication k) as [a|] eqn:Ha; [|left; intros ???; congruence].
    destruct (ka_SASL a) as [s|] eqn:Hs; [left|right; eauto].
    intros k' a' _ Hk' Ha'. rewrite Hk in Hk'. injection Hk' as <-. rewrite Ha in Ha'. injection Ha' as <-.
    by exists s. }
  destruct Hcase as [Hk|(k & a & Hk & Ha & Hs)].
  - split; [|by intros []]. split; [done|]. intros _. by apply SecretReferences_returns.
  - rewrite (Hp k a Hk Ha Hs). split; [|done]. split; [by intros [? [=]]|].
    intros Hsasl. destruct (Hsasl k a Ht Hk Ha) as [? ?]. congruence.
Qed.
