(* ===== verification/ObsForwarder.v ===== *)
(** * The forwarder's status and deployment ([internal/api/observability/forwarder.go])

    Also [MustUndeployCollector] of [internal/validations/observability/validate.go]. *)

From S2P Require Import Prelude GoStrings ApiCommon ApiInputs ApiFilters ApiOutputs ApiForwarder.
From S2P Require Import Sets Conditions ObsResources ObsInputs ObsOutputs.

Definition AnnotationEnableCollectorAsDeployment : string :=
  "logging.openshift.io/dev-preview-enable-collector-as-deployment".

Section forwarder.
Context `{RangeOrder}.

Definition DeployAsDeployment (forwarder : ClusterLogForwarder) : bool :=
  match clf_Annotations forwarder !! AnnotationEnableCollectorAsDeployment with
  | Some _ =>
      match InputTypes_of (spec_Inputs (clf_Spec forwarder)) with
      | [t] => t == InputTypeReceiver
      | _ => false
      end
  | None => false
  end.

(** An input that a pipeline names and the spec lacks is the zero input. *)
Definition InputSpecsTo (spec : ClusterLogForwarderSpec) (out : OutputSpec) : list InputSpec :=
  let inputs := Inputs_Map (spec_Inputs spec) in
  let found := foldl (λ found p,
      if Has (NewString (pipe_OutputRefs p)) (out_Name out) then
        foldl (λ found ref, <[ref := default InputSpec_zero (inputs !! ref)]> found)
          found (pipe_InputRefs p)
      else found) (∅ : gmap string InputSpec) (spec_Pipelines spec) in
  (range found).*2.
End forwarder.

Definition isValid (prefix : string) (conditions : list Condition) (expConditions : nat) : bool :=
  if negb (length conditions =? expConditions)%nat then false
  else
    let conditionTrue := foldl (λ n cond,
      if HasPrefix (cond_Type cond) prefix && (cond_Status cond == ConditionTrue)
      then S n else n) 0 conditions in
    (conditionTrue =? expConditions)%nat.

Definition isAuthorized (conditions : list Condition) : bool :=
  existsb (λ cond, (cond_Type cond == ConditionTypeAuthorized)
    && (cond_Status cond == ConditionTrue)) conditions.

Definition IsValidSpec (forwarder : ClusterLogForwarder) : bool :=
  let status := clf_Status forwarder in
  let spec := clf_Spec forwarder in
  isAuthorized (st_Conditions status)
  && isValid ConditionTypeValidInputPrefix (st_InputConditions status) (length (spec_Inputs spec))
  && isValid ConditionTypeValidOutputPrefix (st_OutputConditions status) (length (spec_Outputs spec))
  && isValid ConditionTypeValidPipelinePrefix (st_PipelineConditions status)
       (length (spec_Pipelines spec))
  && isValid ConditionTypeValidFilterPrefix (st_FilterConditions status) (length (spec_Filters spec)).

Definition MustUndeployCollector (conditions : list Condition) : bool :=
  existsb (λ cond, (cond_Type cond == ConditionTypeAuthorized)
    && (cond_Status cond == ConditionFalse)) conditions.

(** ** What the test of the status shows *)

Lemma isValid_count {A} (p : A → bool) l k :
  foldl (λ n x, if p x then S n else n) k l = (k + length (filter (λ x, p x = true) l))%nat.
Proof.
  revert k. induction l as [|x l IH]; intros k; cbn [foldl].
  { rewrite filter_nil. simpl. lia. }
  rewrite IH, filter_cons. destruct (decide _) as [->|Hp]; simpl; [lia|].
  by destruct (p x).
Qed.

Lemma filter_length_all {A} (P : A → Prop) `{∀ x, Decision (P x)} l :
  length (filter P l) = length l ↔ Forall P l.
Proof.
  induction l as [|x l IH]; [by split|]. rewrite filter_cons. case_decide as Hx; simpl.
  - rewrite Forall_cons, <-IH. split; [intros [=]; by split|]. by intros [_ ->].
  - pose proof (length_filter P l). split; [lia|]. by intros [? _]%Forall_cons.
Qed.

Lemma isValid_spec prefix cs n :
  isValid prefix cs n = true ↔
  length cs = n ∧
  ∀ c, c ∈ cs → HasPrefix (cond_Type c) prefix = true ∧ cond_Status c = ConditionTrue.
Proof.
  unfold isValid. rewrite isValid_count.
  destruct (Nat.eqb_spec (length cs) n) as [<-|Hn]; simpl; [|split; [done|by intros [? _]]].
  rewrite Nat.eqb_eq, filter_length_all, Forall_forall.
  setoid_rewrite andb_true_iff. setoid_rewrite String.eqb_eq. split; [done|by intros [_ ?]].
Qed.

(** The conditions of a kind after its parts were validated: every part has one
    verdict and nothing else is left. *)
Lemma view_elem cs c : NoDup (types cs) → c ∈ cs → view cs !! cond_Type c = Some (verdict_of c).
Proof.
  induction cs as [|d cs IH]; intros Hnd Hc; simpl; [by apply not_elem_of_nil in Hc|].
  apply NoDup_cons in Hnd as [Hd Hnd]. apply elem_of_cons in Hc as [->|Hc].
  - by rewrite lookup_insert_eq.
  - rewrite lookup_insert_ne; [by apply IH|]. intros E. apply Hd. rewrite E.
    by apply list_elem_of_fmap_2.
Qed.

Lemma view_elem_inv cs ty v :
  view cs !! ty = Some v → ∃ c, c ∈ cs ∧ cond_Type c = ty ∧ verdict_of c = v.
Proof.
  induction cs as [|d cs IH]; simpl; [by rewrite lookup_empty|].
  destruct (decide (cond_Type d = ty)) as [<-|].
  - rewrite lookup_insert_eq. intros [= <-]. exists d. set_solver.
  - rewrite lookup_insert_ne by done. intros (c & ? & ? & ?)%IH. exists c. set_solver.
Qed.

Lemma view_foldl_last (m : gmap string verdict) news ty :
  NoDup (types news) →
  foldl (λ m n, <[cond_Type n := verdict_of n]> m) m news !! ty =
  match view news !! ty with Some v => Some v | None => m !! ty end.
Proof.
  revert m. induction news as [|n news IH]; intros m Hnd; simpl; [by rewrite lookup_empty|].
  apply NoDup_cons in Hnd as [Hn Hnd]. rewrite IH by done.
  destruct (decide (cond_Type n = ty)) as [<-|].
  - rewrite lookup_insert_eq. apply view_None in Hn. rewrite Hn. by rewrite lookup_insert_eq.
  - by rewrite !lookup_insert_ne.
Qed.

Section parts.
Context (prefix : string) (names : list string) (old news : list Condition) (now : Z).
Context (Hnames : NoDup names).
Context (Hold : NoDup (types old)) (Hstale : ∀ ty, ty ∈ types old → ty ∈ prefixed prefix <$> names).
Context (Hnews : types news ≡ₚ prefixed prefix <$> names).

Let result := SetConditions now old news.

Lemma parts_news_NoDup : NoDup (types news).
Proof. rewrite Hnews. by apply NoDup_fmap_2; [apply _|]. Qed.

Lemma parts_view ty : view result !! ty = view news !! ty.
Proof.
  unfold result. rewrite SetConditions_view, view_foldl_last by apply parts_news_NoDup.
  destruct (view news !! ty) as [v|] eqn:Hv; [done|].
  apply view_None in Hv. apply view_None. intros Hin.
  apply Hv. rewrite Hnews. by apply Hstale.
Qed.

Lemma parts_types : types result ≡ₚ prefixed prefix <$> names.
Proof.
  apply NoDup_Permutation.
  - by apply SetConditions_NoDup.
  - by apply NoDup_fmap_2; [apply _|].
  - intros ty. rewrite <-Hnews. split; intros Hin.
    + destruct (decide (ty ∈ types news)) as [|Hn]; [done|].
      apply view_None in Hn. rewrite <-parts_view in Hn. by apply view_None in Hn.
    + destruct (decide (ty ∈ types result)) as [|Hn]; [done|].
      apply view_None in Hn. rewrite parts_view in Hn. by apply view_None in Hn.
Qed.

(** The kind is valid exactly when every part is. *)
Lemma parts_isValid :
  isValid prefix result (length names) = true ↔ ∀ c, c ∈ news → cond_Status c = ConditionTrue.
Proof.
  rewrite isValid_spec. split.
  - intros [_ Hall] c Hc.
    pose proof (view_elem _ _ parts_news_NoDup Hc) as Hv. rewrite <-parts_view in Hv.
    apply view_elem_inv in Hv as (d & Hd & _ & Hdv).
    destruct (Hall d Hd) as [_ Hs]. by injection Hdv as <- _ _.
  - intros Hall. split.
    + pose proof (Permutation_length parts_types) as Hl. unfold types in Hl.
      by rewrite !length_fmap in Hl.
    + intros c Hc. split.
      * assert (cond_Type c ∈ prefixed prefix <$> names) as Ht.
        { rewrite <-parts_types. by apply list_elem_of_fmap_2. }
        apply list_elem_of_fmap in Ht as (n & -> & _). apply HasPrefix_prefixed.
      * pose proof (view_elem _ _ (SetConditions_NoDup now _ news Hold) Hc) as Hv.
        fold result in Hv. rewrite parts_view in Hv.
        apply view_elem_inv in Hv as (d & Hd & _ & Hdv).
        injection Hdv as <- _ _. by apply Hall.
Qed.
End parts.

(** ** Deployment *)

Lemma elem_of_InputTypes_of `{RangeOrder} inputs t :
  t ∈ InputTypes_of inputs ↔ ∃ i, i ∈ inputs ∧ in_Type i = t.
Proof.
  unfold InputTypes_of, UnsortedList. rewrite elem_of_sort_strings, elem_of_set_order.
  enough (∀ s, t ∈ foldl (λ types i, Insert types [in_Type i]) s inputs ↔
    t ∈ s ∨ ∃ i, i ∈ inputs ∧ in_Type i = t) as ->.
  { split; [intros [?|?]; [set_solver|done]|by right]. }
  induction inputs as [|i inputs IH]; intros s; simpl; [set_solver|].
  rewrite IH. set_solver.
Qed.

Lemma InputTypes_of_NoDup `{RangeOrder} inputs : NoDup (InputTypes_of inputs).
Proof. unfold InputTypes_of. rewrite sort_strings_perm. apply NoDup_set_order. Qed.

Lemma NoDup_all_eq {A} (l : list A) x :
  NoDup l → (∀ y, y ∈ l ↔ y = x) → l = [x].
Proof.
  intros Hnd Hl. destruct l as [|y [|z l]].
  - exfalso. assert (x ∈ @nil A) as Hx by by apply Hl. by apply not_elem_of_nil in Hx.
  - f_equal. apply Hl. set_solver.
  - exfalso. assert (y = x) as -> by (apply Hl; set_solver).
    assert (z = x) as -> by (apply Hl; set_solver).
    apply NoDup_cons in Hnd as [Hn _]. set_solver.
Qed.

Lemma DeployAsDeployment_spec `{RangeOrder} f :
  DeployAsDeployment f = true ↔
  is_Some (clf_Annotations f !! AnnotationEnableCollectorAsDeployment) ∧
  spec_Inputs (clf_Spec f) ≠ [] ∧
  ∀ i, i ∈ spec_Inputs (clf_Spec f) → in_Type i = InputTypeReceiver.
Proof.
  unfold DeployAsDeployment.
  destruct (clf_Annotations f !! AnnotationEnableCollectorAsDeployment) as [a|];
    [|split; [done|by intros [[? [=]] _]]].
  pose proof (elem_of_InputTypes_of (spec_Inputs (clf_Spec f))) as Hin.
  pose proof (InputTypes_of_NoDup (spec_Inputs (clf_Spec f))) as Hnd.
  generalize dependent (InputTypes_of (spec_Inputs (clf_Spec f))). intros ts Hin Hnd. split.
  - destruct ts as [|t [|? ?]]; [done| |done]. intros ->%String.eqb_eq.
    split; [by eexists|]. split.
    + intros E. destruct (proj1 (Hin InputTypeReceiver)) as (i & Hi & _); [set_solver|].
      rewrite E in Hi. by apply not_elem_of_nil in Hi.
    + intros i Hi. apply list_elem_of_singleton. apply Hin. eauto.
  - intros (_ & Hne & Hall). rewrite (NoDup_all_eq ts InputTypeReceiver Hnd).
    + apply String.eqb_refl.
    + intros t. rewrite Hin. split; [intros (i & Hi & <-); by apply Hall|].
      intros ->. destruct (spec_Inputs (clf_Spec f)) as [|i l] eqn:E; [done|].
      exists i. split; [set_solver|]. apply Hall. set_solver.
Qed.

(** When the collector is a deployment.  The collector runs as a deployment,
    and not as a daemonset, exactly when the preview annotation is on the forwarder
    (whatever its value) and its spec has inputs and all of them are receivers;
    the order in which the set of types is visited has no influence. *)
Theorem DeployAsDeployment_correct (o1 o2 : RangeOrder) f :
  (@DeployAsDeployment o1 f = true ↔
   is_Some (clf_Annotations f !! AnnotationEnableCollectorAsDeployment) ∧
   spec_Inputs (clf_Spec f) ≠ [] ∧
   ∀ i, i ∈ spec_Inputs (clf_Spec f) → in_Type i = InputTypeReceiver) ∧
  @DeployAsDeployment o1 f = @DeployAsDeployment o2 f.
Proof.
  split; [apply DeployAsDeployment_spec|].
  apply eq_true_iff_eq. by rewrite !DeployAsDeployment_spec.
Qed.
