(* ===== verification/Initialize.v ===== *)
(** * Initialization of a forwarder ([internal/api/initialize])

    The initializers write through pointers ([LokiStack], [Receiver]) of the
    forwarder they are given; the forwarder they return holds the same pointers,
    so the result is the forwarder after the writes.  The options map is
    threaded through. *)

From S2P Require Import Prelude GoStrings ApiCommon ApiInputs ApiFilters ApiOutputs ApiForwarder.
From S2P Require Import Sets ObsResources ObsInputs.

Definition GeneratedSecrets : string := "generatedSecrets".
Definition ClientCertKey : string := "tls.crt".
Definition ClientPrivateKey : string := "tls.key".
Definition DefaultMaxWriteLokiStack : string := "3Mi".

(** ** Inputs *)

(** The input a reserved name stands for. *)
Definition reserved_input (i : string) : option InputSpec :=
  if i == InputTypeApplication then
    Some {| in_Name := InputTypeApplication; in_Type := InputTypeApplication;
            in_Application := Some Application_zero; in_Infrastructure := None;
            in_Audit := None; in_Receiver := None |}
  else if i == InputTypeInfrastructure then
    Some {| in_Name := InputTypeInfrastructure; in_Type := InputTypeInfrastructure;
            in_Application := None;
            in_Infrastructure := Some {| infra_Sources := InfrastructureSources;
                                         infra_Tuning := None |};
            in_Audit := None; in_Receiver := None |}
  else if i == InputTypeAudit then
    Some {| in_Name := InputTypeAudit; in_Type := InputTypeAudit;
            in_Application := None; in_Infrastructure := None;
            in_Audit := Some {| audit_Sources := AuditSources; audit_Tuning := None |};
            in_Receiver := None |}
  else None.

Definition stub_ref (inputs : gmap string InputSpec) (i : string) : gmap string InputSpec :=
  match reserved_input i with
  | Some stub => <[i := stub]> inputs
  | None => inputs
  end.

Definition in_set_Receiver (i : InputSpec) (r : option ReceiverSpec) : InputSpec := {|
  in_Name := in_Name i; in_Type := in_Type i; in_Application := in_Application i;
  in_Infrastructure := in_Infrastructure i; in_Audit := in_Audit i; in_Receiver := r |}.

Definition receiver_secret (forwarderName name : string) : string :=
  forwarderName +:+ "-" +:+ name.

Definition receiver_tls (secretName : string) : TLSSpec := {|
  tls_CA := None;
  tls_Certificate := Some {| vr_Key := ClientCertKey; vr_ConfigMapName := "";
                             vr_SecretName := secretName |};
  tls_Key := Some {| sr_Key := ClientPrivateKey; sr_SecretName := secretName |};
  tls_KeyPassphrase := None |}.

Definition recv_set_TLS (r : ReceiverSpec) (tls : TLSSpec) : ReceiverSpec := {|
  recv_Type := recv_Type r; recv_TLS := Some tls; recv_Port := recv_Port r;
  recv_HTTP := recv_HTTP r |}.

Definition generated_secret (secretName : string) : Secret := {|
  secret_Name := secretName;
  secret_Data := {[ ClientPrivateKey := ""; ClientCertKey := "" ]} |}.

Definition migrateInputReceiver (spec : InputSpec) (forwarderName : string)
    (options : Options) : outcome (InputSpec * Options) :=
  if in_Type spec != InputTypeReceiver then Ret (spec, options)
  else if in_Receiver spec ⇀ recv_TLS then Ret (spec, options)
  else
    let secretName := receiver_secret forwarderName (in_Name spec) in
    r ← deref (in_Receiver spec);
    let spec := in_set_Receiver spec (Some (recv_set_TLS r (receiver_tls secretName))) in
    let secrets := [generated_secret secretName] in
    options ← Update AnySecrets as_secrets options GeneratedSecrets secrets
      (Some (λ existing, existing ++ secrets));
    Ret (spec, options).

Section initialize.
Context `{RangeOrder}.

Definition MigrateInputs (spec : ClusterLogForwarder) (options : Options) :
    outcome (ClusterLogForwarder * Options) :=
  let inputs := Inputs_Map (spec_Inputs (clf_Spec spec)) in
  let inputs := foldl (λ inputs p, foldl stub_ref inputs (pipe_InputRefs p)) inputs
                  (spec_Pipelines (clf_Spec spec)) in
  st ← foldM (λ st i,
         io ← migrateInputReceiver i.2 (clf_Name spec) st.2;
         Ret (st.1 ++ [io.1], io.2)) ([], options) (range inputs);
  Ret (clf_set_Spec spec (spec_set_Inputs (clf_Spec spec) st.1), st.2).
End initialize.

(** ** Outputs and resources

    [resource.ParseQuantity] is a parameter. *)

Section quantities.
Context (ParseQuantity : string → option Quantity).

Definition MustParse (s : string) : outcome Quantity :=
  match ParseQuantity s with
  | Some q => Ret q
  | None => Panic "cannot parse"
  end.

Definition base_set_MaxWrite (b : BaseOutputTuningSpec) (w : option Quantity) :
    BaseOutputTuningSpec := {|
  bt_DeliveryMode := bt_DeliveryMode b; bt_MaxWrite := w;
  bt_MinRetryDuration := bt_MinRetryDuration b;
  bt_MaxRetryDuration := bt_MaxRetryDuration b |}.

Definition lstack_set_Tuning (l : LokiStack) (t : option LokiTuningSpec) : LokiStack := {|
  lstack_Authentication := lstack_Authentication l; lstack_Target := lstack_Target l;
  lstack_Tuning := t; lstack_LabelKeys := lstack_LabelKeys l;
  lstack_DataModel := lstack_DataModel l |}.

Definition LokiTuningSpec_zero : LokiTuningSpec := {|
  lokit_Base := BaseOutputTuningSpec_zero; lokit_Compression := "" |}.

Definition InitOutput (o : OutputSpec) : outcome OutputSpec :=
  if out_Type o == OutputTypeLokiStack then
    l ← deref (out_LokiStack o);
    let t := default LokiTuningSpec_zero (lstack_Tuning l) in
    t ← (match bt_MaxWrite (lokit_Base t) with
         | Some _ => Ret t
         | None =>
             maxWrite ← MustParse DefaultMaxWriteLokiStack;
             Ret {| lokit_Base := base_set_MaxWrite (lokit_Base t) (Some maxWrite);
                    lokit_Compression := lokit_Compression t |}
         end);
    Ret (out_set_LokiStack o (Some (lstack_set_Tuning l (Some t))))
  else Ret o.

Definition InitOutputs (forwarder : ClusterLogForwarder) (options : Options) :
    outcome (ClusterLogForwarder * Options) :=
  outputs ← concat_mapM (λ o, o ← InitOutput o; Ret [o]) (spec_Outputs (clf_Spec forwarder));
  Ret (clf_set_Spec forwarder (spec_set_Outputs (clf_Spec forwarder) outputs), options).

Definition DefaultResources : outcome ResourceRequirements :=
  requestMemory ← MustParse "64Mi";
  requestCpu ← MustParse "500m";
  limitMemory ← MustParse "2048Mi";
  limitCpu ← MustParse "6000m";
  Ret {| rr_Limits := {[ "memory" := limitMemory; "cpu" := limitCpu ]};
         rr_Requests := {[ "memory" := requestMemory; "cpu" := requestCpu ]} |}.

Definition coll_set_Resources (c : CollectorSpec) (r : option ResourceRequirements) :
    CollectorSpec := {|
  coll_Resources := r; coll_NodeSelector := coll_NodeSelector c;
  coll_Tolerations := coll_Tolerations c; coll_Affinity := coll_Affinity c;
  coll_NetworkPolicy := coll_NetworkPolicy c; coll_MaxUnavailable := coll_MaxUnavailable c;
  coll_TerminationGracePeriodSeconds := coll_TerminationGracePeriodSeconds c |}.

Definition Resources (forwarder : ClusterLogForwarder) (options : Options) :
    outcome (ClusterLogForwarder * Options) :=
  let collector := default CollectorSpec_zero (spec_Collector (clf_Spec forwarder)) in
  r ← (match coll_Resources collector with
       | Some r => Ret r
       | None => DefaultResources
       end);
  Ret (clf_set_Spec forwarder
         (spec_set_Collector (clf_Spec forwarder) (Some (coll_set_Resources collector (Some r)))),
       options).

Definition initialize `{RangeOrder} (forwarder : ClusterLogForwarder) (options : Options) :
    outcome (ClusterLogForwarder * Options) :=
  foldM (λ fo init, init fo.1 fo.2) (forwarder, options)
    [Resources; MigrateInputs; InitOutputs].
End quantities.

(** ** What the initialization of the inputs computes *)

(** Some pipeline reads the input named [n]. *)
Definition referenced (pipelines : list PipelineSpec) (n : string) : Prop :=
  ∃ p, p ∈ pipelines ∧ n ∈ pipe_InputRefs p.

(** The input a migrated one becomes: a receiver without TLS gets the secret the
    operator will generate. *)
Definition needs_tls (i : InputSpec) : bool :=
  (in_Type i == InputTypeReceiver) && negb (bool_decide (is_Some (in_Receiver i ⇀ recv_TLS))).

Definition migrated (forwarderName : string) (i : InputSpec) : InputSpec :=
  match needs_tls i, in_Receiver i with
  | true, Some r =>
      in_set_Receiver i (Some (recv_set_TLS r
        (receiver_tls (receiver_secret forwarderName (in_Name i)))))
  | _, _ => i
  end.

(** The secrets the options announce, and options that hold them as such. *)
Definition generated (o : Options) : list Secret :=
  match o !! GeneratedSecrets with Some (AnySecrets l) => l | _ => [] end.

Definition options_wf (o : Options) : Prop :=
  ∀ v, o !! GeneratedSecrets = Some v → ∃ l, v = AnySecrets l.

Lemma options_wf_empty : options_wf ∅.
Proof. intros v. rewrite lookup_empty. intros [=]. Qed.

(** A receiver has the section its type needs. *)
Definition receiver_present (i : InputSpec) : Prop :=
  in_Type i = InputTypeReceiver → is_Some (in_Receiver i).

Lemma reserved_input_name n s : reserved_input n = Some s → in_Name s = n.
Proof. unfold reserved_input. intros Hs. by repeat case_match; simplify_eq; go_cases. Qed.

Lemma reserved_input_type n s : reserved_input n = Some s → in_Type s ≠ InputTypeReceiver.
Proof. unfold reserved_input. intros Hs. by repeat case_match; simplify_eq. Qed.

Lemma foldl_stub_ref (m : gmap string InputSpec) refs n :
  foldl stub_ref m refs !! n =
  match reserved_input n with
  | Some s => if decide (n ∈ refs) then Some s else m !! n
  | None => m !! n
  end.
Proof.
  revert m. induction refs as [|r refs IH]; intros m; cbn [foldl].
  { destruct (reserved_input n); [|done]. by rewrite decide_False by apply not_elem_of_nil. }
  rewrite IH. unfold stub_ref.
  destruct (decide (r = n)) as [->|Hne].
  - destruct (reserved_input n) as [s|]; [|done].
    rewrite (decide_True (P := n ∈ n :: refs)) by set_solver.
    case_decide; [done|]. by rewrite lookup_insert_eq.
  - assert (match reserved_input r with Some stub => <[r:=stub]> m | None => m end !! n = m !! n)
      as -> by (destruct (reserved_input r); [by rewrite lookup_insert_ne|done]).
    destruct (reserved_input n); [|done]. do 2 case_decide; [done|set_solver|set_solver|done].
Qed.

Lemma stub_pipelines (m : gmap string InputSpec) pipelines n :
  foldl (λ m p, foldl stub_ref m (pipe_InputRefs p)) m pipelines !! n =
  match reserved_input n with
  | Some s => if decide (n ∈ pipelines ≫= pipe_InputRefs) then Some s else m !! n
  | None => m !! n
  end.
Proof.
  revert m. induction pipelines as [|p pipelines IH]; intros m; cbn [foldl].
  { destruct (reserved_input n); [|done]. by rewrite decide_False by apply not_elem_of_nil. }
  rewrite IH, foldl_stub_ref, bind_cons. destruct (reserved_input n); [|done].
  repeat case_decide; set_solver.
Qed.

Lemma migrateInputReceiver_spec i name o :
  receiver_present i → options_wf o →
  ∃ o', migrateInputReceiver i name o = Ret (migrated name i, o') ∧ options_wf o' ∧
    generated o' = generated o ++
      (if needs_tls i then [generated_secret (receiver_secret name (in_Name i))] else []).
Proof.
  intros Hr Ho. unfold migrateInputReceiver, migrated, needs_tls.
  destruct (String.eqb_spec (in_Type i) InputTypeReceiver) as [Ht|]; simpl.
  2: { exists o. by rewrite app_nil_r. }
  destruct (in_Receiver i ⇀ recv_TLS) as [tls|] eqn:Htls; simpl.
  { exists o. by rewrite app_nil_r. }
  destruct (Hr Ht) as [r Hr']. rewrite Hr'. simpl.
  unfold Update, generated. destruct (o !! GeneratedSecrets) as [v|] eqn:Hv.
  - destruct (Ho v Hv) as [l ->]. simpl. eexists. split; [reflexivity|].
    rewrite lookup_insert_eq. split; [|done]. intros v. rewrite lookup_insert_eq.
    intros [= <-]. eauto.
  - simpl. eexists. split; [reflexivity|].
    rewrite lookup_insert_eq. split; [|done]. intros v. rewrite lookup_insert_eq.
    intros [= <-]. eauto.
Qed.

Lemma migrate_loop name (l : list (string * InputSpec)) acc o :
  (∀ kv, kv ∈ l → receiver_present kv.2) → options_wf o →
  ∃ o', foldM (λ st i,
      io ← migrateInputReceiver i.2 name st.2;
      Ret (st.1 ++ [io.1], io.2)) (acc, o) l = Ret (acc ++ (migrated name <$> l.*2), o') ∧
    options_wf o' ∧
    generated o' = generated o ++ ((λ i, generated_secret (receiver_secret name (in_Name i))) <$>
                                     filter (λ i, needs_tls i = true) l.*2).
Proof.
  revert acc o. induction l as [|[k i] l IH]; intros acc o Hl Ho; cbn [foldM fmap list_fmap].
  { exists o. by rewrite !app_nil_r. }
  destruct (migrateInputReceiver_spec i name o) as (o1 & Hi & Ho1 & Hg1).
  { apply (Hl (k, i)). set_solver. }
  { done. }
  simpl. rewrite Hi. simpl.
  destruct (IH (acc ++ [migrated name i]) o1) as (o2 & Hl2 & Ho2 & Hg2); [set_solver|done|].
  exists o2. rewrite Hl2. split; [by rewrite <-app_assoc|]. split; [done|].
  rewrite Hg2, Hg1, filter_cons, <-app_assoc. f_equal.
  destruct (needs_tls i); simpl; done.
Qed.

Lemma migrated_name name i : in_Name (migrated name i) = in_Name i.
Proof. unfold migrated. by repeat case_match. Qed.

Lemma migrated_type name i : in_Type (migrated name i) = in_Type i.
Proof. unfold migrated. by repeat case_match. Qed.

Lemma needs_tls_migrated name i : receiver_present i → needs_tls (migrated name i) = false.
Proof.
  intros Hr. unfold migrated. destruct (needs_tls i) eqn:Hn; [|done].
  unfold needs_tls in Hn. apply andb_true_iff in Hn as [Ht%String.eqb_eq _].
  destruct (Hr Ht) as [r ->]. unfold needs_tls; simpl. by rewrite andb_false_r.
Qed.

Section migrate.
Context `{RangeOrder}.

(** The map of inputs the code builds before it visits it. *)
Definition migration_map (spec : ClusterLogForwarderSpec) : gmap string InputSpec :=
  foldl (λ m p, foldl stub_ref m (pipe_InputRefs p)) (Inputs_Map (spec_Inputs spec))
    (spec_Pipelines spec).

Lemma migration_map_lookup spec n :
  migration_map spec !! n =
  match reserved_input n with
  | Some s => if decide (n ∈ spec_Pipelines spec ≫= pipe_InputRefs) then Some s
              else Inputs_Map (spec_Inputs spec) !! n
  | None => Inputs_Map (spec_Inputs spec) !! n
  end.
Proof. apply stub_pipelines. Qed.

Lemma migration_map_name spec n i : migration_map spec !! n = Some i → in_Name i = n.
Proof.
  rewrite migration_map_lookup. destruct (reserved_input n) as [s|] eqn:Hs; [case_decide|].
  - intros [= <-]. by apply reserved_input_name.
  - by intros [? _]%Inputs_Map_name.
  - by intros [? _]%Inputs_Map_name.
Qed.

Lemma migration_map_receiver spec n i :
  Forall receiver_present (spec_Inputs spec) → migration_map spec !! n = Some i →
  receiver_present i.
Proof.
  intros Hall. rewrite migration_map_lookup.
  assert (Inputs_Map (spec_Inputs spec) !! n = Some i → receiver_present i) as Hin.
  { intros [_ Hi]%Inputs_Map_name. by eapply Forall_forall in Hall. }
  destruct (reserved_input n) as [s|] eqn:Hs; [case_decide|]; [|done..].
  intros [= <-] Ht. by apply reserved_input_type in Hs.
Qed.

Lemma MigrateInputs_map f o :
  Forall receiver_present (spec_Inputs (clf_Spec f)) → options_wf o →
  ∃ f' o', MigrateInputs f o = Ret (f', o') ∧ options_wf o' ∧
    f' = clf_set_Spec f (spec_set_Inputs (clf_Spec f)
           (migrated (clf_Name f) <$> (range (migration_map (clf_Spec f))).*2)) ∧
    generated o' = generated o ++
      ((λ i, generated_secret (receiver_secret (clf_Name f) (in_Name i))) <$>
         filter (λ i, needs_tls i = true) (range (migration_map (clf_Spec f))).*2).
Proof.
  intros Hr Ho. unfold MigrateInputs. fold (migration_map (clf_Spec f)).
  destruct (migrate_loop (clf_Name f) (range (migration_map (clf_Spec f))) [] o)
    as (o' & Hl & Ho' & Hg); [|done|].
  { intros [n i] Hi%elem_of_range. simpl. by eapply migration_map_receiver. }
  cbn zeta. rewrite Hl. simpl. eauto 10.
Qed.

Lemma migrated_names_perm spec name :
  Inputs_Names (migrated name <$> (range (migration_map spec)).*2) = (range (migration_map spec)).*1.
Proof.
  unfold Inputs_Names. rewrite <-!list_fmap_compose.
  apply list_fmap_ext. intros k [n i] Hk. simpl. rewrite migrated_name.
  eapply migration_map_name, elem_of_range, list_elem_of_lookup_2, Hk.
Qed.
End migrate.

Lemma referenced_bind pipelines n :
  n ∈ (pipelines ≫= pipe_InputRefs) ↔ referenced pipelines n.
Proof. unfold referenced. rewrite list_elem_of_bind. split; intros (p & ? & ?); by exists p. Qed.

Lemma migrated_fixed name i : needs_tls i = false → migrated name i = i.
Proof. unfold migrated. by intros ->. Qed.

Lemma migrated_receiver_tls name i :
  receiver_present i → in_Type i = InputTypeReceiver →
  is_Some (in_Receiver (migrated name i) ⇀ recv_TLS).
Proof.
  intros Hr Ht. pose proof (needs_tls_migrated name i Hr) as Hn. unfold needs_tls in Hn.
  rewrite migrated_type, Ht in Hn. simpl in Hn.
  by apply negb_false_iff, bool_decide_eq_true in Hn.
Qed.

Section migrate_correct.
Context `{RangeOrder} (f : ClusterLogForwarder).
Let spec := clf_Spec f.
Let inputs' := migrated (clf_Name f) <$> (range (migration_map spec)).*2.

Lemma elem_of_migrated i' :
  i' ∈ inputs' ↔ ∃ n i, migration_map spec !! n = Some i ∧ i' = migrated (clf_Name f) i.
Proof.
  unfold inputs'. rewrite list_elem_of_fmap. split.
  - intros (i & -> & ([n ?] & -> & Hn%elem_of_range)%list_elem_of_fmap). eauto.
  - intros (n & i & Hn & ->). exists i. split; [done|].
    apply list_elem_of_fmap. exists (n, i). by rewrite elem_of_range.
Qed.

Lemma migrated_names n :
  n ∈ Inputs_Names inputs' ↔
  n ∈ Inputs_Names (spec_Inputs spec) ∨
  (is_Some (reserved_input n) ∧ referenced (spec_Pipelines spec) n).
Proof.
  unfold inputs'. rewrite migrated_names_perm, list_elem_of_fmap.
  rewrite <-Inputs_Map_is_Some, <-referenced_bind. split.
  - intros ([m i] & -> & Hm%elem_of_range). simpl. rewrite migration_map_lookup in Hm.
    destruct (reserved_input m) as [s|]; [case_decide|]; eauto.
  - intros Hn. enough (is_Some (migration_map spec !! n)) as [i Hi].
    { exists (n, i). by rewrite elem_of_range. }
    rewrite migration_map_lookup. destruct (reserved_input n) as [s|].
    + case_decide; [eauto|]. by destruct Hn as [?|[_ ?]].
    + destruct Hn as [?|[[? [=]] _]]. done.
Qed.
End migrate_correct.

(** C16. Initialization of the inputs.  For a forwarder whose receiver inputs have
    their section, [MigrateInputs] does not panic; in its result the names of
    the inputs are distinct and are the names of the spec together with the
    reserved names a pipeline reads; a reserved name a pipeline reads is bound
    to its stub, whatever the spec said; every other input keeps its definition
    except that a receiver without TLS gets the key and certificate of its
    generated secret; and that secret is announced in the options. *)
Theorem MigrateInputs_correct `{RangeOrder} f o :
  Forall receiver_present (spec_Inputs (clf_Spec f)) → options_wf o →
  ∃ f' o', MigrateInputs f o = Ret (f', o') ∧
    let inputs := spec_Inputs (clf_Spec f) in
    let inputs' := spec_Inputs (clf_Spec f') in
    let reads n := referenced (spec_Pipelines (clf_Spec f)) n in
    NoDup (Inputs_Names inputs') ∧
    (∀ n, n ∈ Inputs_Names inputs' ↔
       n ∈ Inputs_Names inputs ∨ is_Some (reserved_input n) ∧ reads n) ∧
    (∀ n s, reserved_input n = Some s → reads n → s ∈ inputs') ∧
    (∀ n i, Inputs_Map inputs !! n = Some i → ¬ (is_Some (reserved_input n) ∧ reads n) →
       migrated (clf_Name f) i ∈ inputs' ∧
       (needs_tls i = true →
        generated_secret (receiver_secret (clf_Name f) n) ∈ generated o')) ∧
    (∀ i, i ∈ inputs' → in_Type i = InputTypeReceiver → is_Some (in_Receiver i ⇀ recv_TLS)) ∧
    generated o `prefix_of` generated o'.
Proof.
  intros Hr Ho. destruct (MigrateInputs_map f o Hr Ho) as (f' & o' & -> & _ & -> & Hg).
  eexists _, _. split; [reflexivity|]. cbn zeta. simpl.
  split_and!.
  - rewrite migrated_names_perm. apply NoDup_range_fst.
  - apply migrated_names.
  - intros n s Hs Hn. apply elem_of_migrated. exists n, s. split.
    + rewrite migration_map_lookup, Hs, decide_True; [done|]. by apply referenced_bind.
    + symmetry. apply migrated_fixed. unfold needs_tls.
      apply reserved_input_type in Hs. by destruct (String.eqb_spec (in_Type s) InputTypeReceiver).
  - intros n i Hi Hn.
    assert (migration_map (clf_Spec f) !! n = Some i) as Hm.
    { rewrite migration_map_lookup. destruct (reserved_input n) as [s|]; [|done].
      rewrite decide_False; [done|]. intros ?%referenced_bind. apply Hn. eauto. }
    split; [apply elem_of_migrated; eauto|]. intros Ht. rewrite Hg. apply elem_of_app. right.
    apply list_elem_of_fmap. exists i. apply Inputs_Map_name in Hi as [<- _]. split; [done|].
    apply list_elem_of_filter. split; [done|]. apply list_elem_of_fmap.
    exists (in_Name i, i). by rewrite elem_of_range.
  - intros i' (n & i & Hn & ->)%elem_of_migrated Ht. rewrite migrated_type in Ht.
    apply migrated_receiver_tls; [|done]. by eapply migration_map_receiver.
  - rewrite Hg. by eexists.
Qed.

Definition example_receiver : InputSpec := {|
  in_Name := "in"; in_Type := InputTypeReceiver; in_Application := None;
  in_Infrastructure := None; in_Audit := None;
  in_Receiver := Some {| recv_Type := ReceiverTypeSyslog; recv_TLS := None; recv_Port := 10514;
                         recv_HTTP := None |} |}.

Definition example_forwarder : ClusterLogForwarder := {|
  clf_Meta := {| meta_Name := "fwd"; meta_Namespace := "ns"; meta_Annotations := ∅;
                 meta_DeletionTimestamp := None |};
  clf_Spec := {|
    spec_ManagementState := ManagementStateManaged; spec_Collector := None;
    spec_Inputs := [example_receiver]; spec_Outputs := []; spec_Filters := [];
    spec_Pipelines := [{| pipe_Name := "p"; pipe_InputRefs := ["in"; "application"];
                          pipe_OutputRefs := []; pipe_FilterRefs := [] |}];
    spec_ServiceAccount := {| sa_Name := "sa" |} |};
  clf_Status := ClusterLogForwarderStatus_zero |}.

Theorem MigrateInputs_correct_witness :
  ∃ f' o', @MigrateInputs canonical_order example_forwarder NoOptions = Ret (f', o') ∧
    NoDup (Inputs_Names (spec_Inputs (clf_Spec f'))).
Proof.
  destruct (@MigrateInputs_correct canonical_order example_forwarder NoOptions)
    as (f' & o' & E & Hnd & _).
  - repeat constructor. by eexists.
  - apply options_wf_empty.
  - exists f', o'. exact (conj E Hnd).
Defined.

(** ** What the initialization keeps *)

Section keeps.
Context `{RangeOrder} (ParseQuantity : string → option Quantity).

(** The quantities written in the source can be parsed. *)
Definition defaults_parse : Prop :=
  ∀ q, q ∈ ["64Mi"; "500m"; "2048Mi"; "6000m"; DefaultMaxWriteLokiStack] → is_Some (ParseQuantity q).

Lemma MustParse_returns q : is_Some (ParseQuantity q) → ∃ v, MustParse ParseQuantity q = Ret v.
Proof. intros [v Hv]. exists v. unfold MustParse. by rewrite Hv. Qed.

Lemma Resources_spec f o :
  defaults_parse → ∃ c, Resources ParseQuantity f o =
    Ret (clf_set_Spec f (spec_set_Collector (clf_Spec f) (Some c)), o) ∧ is_Some (coll_Resources c).
Proof.
  intros Hq. unfold Resources.
  destruct (coll_Resources (default CollectorSpec_zero (spec_Collector (clf_Spec f)))) as [r|].
  { simpl. eexists. split; [done|]. by eexists. }
  unfold DefaultResources.
  destruct (MustParse_returns "64Mi") as [q1 ->]; [apply Hq; set_solver|]. cbn [mbind outcome_bind].
  destruct (MustParse_returns "500m") as [q2 ->]; [apply Hq; set_solver|]. cbn [mbind outcome_bind].
  destruct (MustParse_returns "2048Mi") as [q3 ->]; [apply Hq; set_solver|]. cbn [mbind outcome_bind].
  destruct (MustParse_returns "6000m") as [q4 ->]; [apply Hq; set_solver|]. cbn [mbind outcome_bind].
  eexists. split; [done|]. by eexists.
Qed.

(** An output keeps everything but the tuning of its LokiStack, which has a
    limit on the size of a request. *)
Definition output_initialized (o o' : OutputSpec) : Prop :=
  (out_Type o ≠ OutputTypeLokiStack ∧ o' = o) ∨
  (out_Type o = OutputTypeLokiStack ∧ ∃ l t w, out_LokiStack o = Some l ∧
     bt_MaxWrite (lokit_Base t) = Some w ∧
     (∀ t0 w0, lstack_Tuning l = Some t0 → bt_MaxWrite (lokit_Base t0) = Some w0 → t = t0) ∧
     o' = out_set_LokiStack o (Some (lstack_set_Tuning l (Some t)))).

Lemma InitOutput_spec o :
  defaults_parse → (out_Type o = OutputTypeLokiStack → is_Some (out_LokiStack o)) →
  ∃ o', InitOutput ParseQuantity o = Ret o' ∧ output_initialized o o'.
Proof.
  intros Hq Hl. unfold InitOutput, output_initialized.
  destruct (String.eqb_spec (out_Type o) OutputTypeLokiStack) as [E|N]; [|eexists; split; [done|by left]].
  destruct (Hl E) as [l Hls]. rewrite Hls. cbn [deref mbind outcome_bind].
  destruct (bt_MaxWrite (lokit_Base (default LokiTuningSpec_zero (lstack_Tuning l)))) as [w|] eqn:Hw.
  - cbn [mbind outcome_bind]. eexists. split; [done|]. right. split; [done|].
    eexists l, _, w. split; [done|]. split; [exact Hw|]. split; [|done].
    intros t0 w0 Ht0 Hw0. by rewrite Ht0.
  - destruct (MustParse_returns DefaultMaxWriteLokiStack) as [q ->]; [apply Hq; set_solver|].
    cbn [mbind outcome_bind]. eexists. split; [done|]. right. split; [done|].
    set (t0 := default LokiTuningSpec_zero (lstack_Tuning l)) in *.
    exists l, {| lokit_Base := base_set_MaxWrite (lokit_Base t0) (Some q);
                 lokit_Compression := lokit_Compression t0 |}, q.
    split; [done|]. split; [done|]. split; [|done]. subst t0.
    intros t0 w0 Ht0 Hw0. rewrite Ht0 in Hw. simpl in Hw. congruence.
Qed.

Lemma InitOutputs_spec f o :
  defaults_parse →
  (∀ x, x ∈ spec_Outputs (clf_Spec f) → out_Type x = OutputTypeLokiStack → is_Some (out_LokiStack x)) →
  ∃ outs, InitOutputs ParseQuantity f o =
      Ret (clf_set_Spec f (spec_set_Outputs (clf_Spec f) outs), o) ∧
    Forall2 output_initialized (spec_Outputs (clf_Spec f)) outs.
Proof.
  intros Hq Hl. unfold InitOutputs.
  enough (∃ outs, concat_mapM (λ o, o ← InitOutput ParseQuantity o; Ret [o])
      (spec_Outputs (clf_Spec f)) = Ret outs ∧
    Forall2 output_initialized (spec_Outputs (clf_Spec f)) outs) as (outs & Hm & HF).
  { rewrite Hm. cbn [mbind outcome_bind]. eauto. }
  induction (spec_Outputs (clf_Spec f)) as [|x l IH]; simpl.
  { eexists. split; [done|constructor]. }
  destruct (InitOutput_spec x Hq) as (x' & Hx & Hi); [apply Hl; set_solver|].
  destruct IH as (outs & Hm & HF); [set_solver|].
  rewrite Hx. simpl. rewrite Hm. simpl. eexists. split; [done|]. by constructor.
Qed.

Lemma reserved_input_admitted n s : reserved_input n = Some s → input_admitted s.
Proof.
  unfold reserved_input. intros Hs. repeat case_match; simplify_eq; unfold input_admitted; simpl;
    (split; [unfold InputTypes; set_solver|]); split_and!; try done; by eexists.
Qed.

Lemma migrated_admitted name i : input_admitted i → input_admitted (migrated name i).
Proof.
  unfold migrated. intros Ha. case_match; [|done]. case_match; [|done].
  destruct Ha as (? & ? & ? & ? & ?). by repeat split.
Qed.

(** The initializers in their order: what the rest of the operator may rely on. *)
Lemma initialize_spec f :
  clf_admitted (clf_Spec f) → defaults_parse →
  ∃ f' o', initialize ParseQuantity f NoOptions = Ret (f', o') ∧ options_wf o' ∧
    clf_Meta f' = clf_Meta f ∧ clf_Status f' = clf_Status f ∧
    spec_Filters (clf_Spec f') = spec_Filters (clf_Spec f) ∧
    spec_Pipelines (clf_Spec f') = spec_Pipelines (clf_Spec f) ∧
    Forall2 output_initialized (spec_Outputs (clf_Spec f)) (spec_Outputs (clf_Spec f')) ∧
    Forall input_admitted (spec_Inputs (clf_Spec f')) ∧
    NoDup (Inputs_Names (spec_Inputs (clf_Spec f'))) ∧
    (∀ n, n ∈ Inputs_Names (spec_Inputs (clf_Spec f)) →
       n ∈ Inputs_Names (spec_Inputs (clf_Spec f'))).
Proof.
  intros [Hi Ho Hf Hni Hno Hnf Hnp] Hq. unfold initialize. cbn [foldM fst snd].
  destruct (Resources_spec f NoOptions Hq) as (c & -> & _). cbn [mbind outcome_bind fst snd].
  set (f1 := clf_set_Spec f _).
  destruct (MigrateInputs_map f1 NoOptions) as (f2 & o2 & -> & Hwf & -> & _).
  { eapply Forall_impl; [exact Hi|]. by intros i (_ & _ & _ & _ & ?). }
  { apply options_wf_empty. }
  cbn [mbind outcome_bind fst snd].
  match goal with |- context [InitOutputs ParseQuantity ?g o2] =>
    destruct (InitOutputs_spec g o2 Hq) as (outs & -> & HF) end.
  { intros x Hx. eapply Forall_forall in Ho; [|exact Hx]. apply Ho. }
  cbn [mbind outcome_bind]. eexists _, _. split; [done|]. split; [done|].
  do 4 (split; [done|]). split; [exact HF|]. cbn [clf_Spec clf_set_Spec spec_set_Outputs spec_Inputs spec_set_Inputs].
  split_and!.
  - apply Forall_forall. intros i' (n & i & Hn & ->)%elem_of_migrated.
    apply migrated_admitted. rewrite migration_map_lookup in Hn.
    assert (Inputs_Map (spec_Inputs (clf_Spec f1)) !! n = Some i → input_admitted i) as Hin.
    { intros [_ Hm]%Inputs_Map_name. by eapply Forall_forall in Hi. }
    destruct (reserved_input n) as [s|] eqn:Hs; [|by auto].
    case_decide; [|by auto]. injection Hn as <-. by eapply reserved_input_admitted.
  - rewrite migrated_names_perm. apply NoDup_range_fst.
  - intros n Hn. apply (migrated_names f1). by left.
Qed.
End keeps.

Lemma output_initialized_name o o' : output_initialized o o' → out_Name o' = out_Name o.
Proof. by intros [[_ ->]|(_ & ? & ? & ? & _ & _ & _ & ->)]. Qed.

Lemma output_initialized_admitted o o' :
  output_initialized o o' → output_admitted o → output_admitted o'.
Proof.
  intros [[_ ->]|(_ & l & t & w & _ & _ & _ & ->)]; [done|]. intros [].
  by constructor.
Qed.
