(* ===== verification/ValidateCommon.v ===== *)
(** * Shared parts of the validation ([internal/validations/observability/common])

    [ForwarderContext] of [internal/api/context] without its two API clients,
    which the validation of a spec does not use except through the parameters of
    the definitions that take them.  A nil map of secrets or config maps is
    [None]. *)

From S2P Require Import Prelude GoStrings ApiCommon ApiInputs ApiFilters ApiOutputs ApiForwarder.
From S2P Require Import Sets ObsResources.

Record ForwarderContext := {
  ctx_Forwarder : ClusterLogForwarder;
  ctx_Secrets : option Secrets;
  ctx_ConfigMaps : option ConfigMaps;
  ctx_ClusterID : string;
  ctx_ClusterVersion : string;
  ctx_AdditionalContext : Options;
}.

Definition ctx_set_Forwarder (c : ForwarderContext) (f : ClusterLogForwarder) : ForwarderContext := {|
  ctx_Forwarder := f; ctx_Secrets := ctx_Secrets c; ctx_ConfigMaps := ctx_ConfigMaps c;
  ctx_ClusterID := ctx_ClusterID c; ctx_ClusterVersion := ctx_ClusterVersion c;
  ctx_AdditionalContext := ctx_AdditionalContext c |}.

Definition ctx_Spec (c : ForwarderContext) : ClusterLogForwarderSpec := clf_Spec (ctx_Forwarder c).
Definition ctx_Status (c : ForwarderContext) : ClusterLogForwarderStatus :=
  clf_Status (ctx_Forwarder c).

(** A write to the status through the pointer [context.Forwarder]. *)
Definition ctx_set_Status (c : ForwarderContext) (s : ClusterLogForwarderStatus) : ForwarderContext :=
  ctx_set_Forwarder c (clf_set_Status (ctx_Forwarder c) s).

(** Reading a nil map finds nothing. *)
Definition ctx_secrets (c : ForwarderContext) : Secrets := default ∅ (ctx_Secrets c).
Definition ctx_configmaps (c : ForwarderContext) : ConfigMaps := default ∅ (ctx_ConfigMaps c).

(** ** Values that end up in the collector's configuration *)

Definition tomlLiteralTerminator : string := "'''".

Definition ValidateTOMLLiteralSafe (fieldName value : string) : string :=
  if Contains value tomlLiteralTerminator then
    fieldName +:+ " must not contain the sequence " +:+ Quote tomlLiteralTerminator
  else if ContainsAny value (LF +:+ CR) then
    fieldName +:+ " must not contain newlines or carriage returns"
  else "".

(** A value that cannot close a multi-line literal string of TOML nor start a
    new line in it. *)
Definition toml_safe (value : string) : Prop :=
  Contains value tomlLiteralTerminator = false ∧ ContainsAny value (LF +:+ CR) = false.

#[export] Instance toml_safe_dec value : Decision (toml_safe value).
Proof. unfold toml_safe. apply _. Defined.

Lemma ValidateTOMLLiteralSafe_spec fieldName value :
  ValidateTOMLLiteralSafe fieldName value = "" ↔ toml_safe value.
Proof.
  unfold ValidateTOMLLiteralSafe, toml_safe.
  destruct (Contains value tomlLiteralTerminator).
  { split; [by intros [_ [=]]%string_app_eq_nil|by intros [[=] _]]. }
  destruct (ContainsAny value (LF +:+ CR)).
  { split; [by intros [_ [=]]%string_app_eq_nil|by intros [_ [=]]]. }
  done.
Qed.

(** ** Values the spec refers to *)

Definition validateSecret (secretName key : string) (secrets : Secrets) : list string :=
  match secrets !! secretName with
  | None => ["secret[" +:+ secretName +:+ "] not found"]
  | Some secret =>
      match secret_Data secret !! key with
      | None => ["secret[" +:+ secretName +:+ "." +:+ key +:+ "] not found"]
      | Some value =>
          if (String.length value =? 0)%nat
          then ["secret[" +:+ secretName +:+ "." +:+ key +:+ "] value is empty"] else []
      end
  end.

Definition validateConfigMap (configMapName key : string) (configMaps : ConfigMaps) : list string :=
  match configMaps !! configMapName with
  | None => ["configmap[" +:+ configMapName +:+ "] not found"]
  | Some cm =>
      match cm_Data cm !! key with
      | None => ["configmap[" +:+ configMapName +:+ "." +:+ key +:+ "] not found"]
      | Some value =>
          if TrimSpace value == ""
          then ["configmap[" +:+ configMapName +:+ "." +:+ key +:+ "] value is empty"] else []
      end
  end.

Definition ValidateValueReference (configs : list ValueReference) (secrets : Secrets)
    (configMaps : ConfigMaps) : list string :=
  entry ← configs;
  if vr_SecretName entry != "" then validateSecret (vr_SecretName entry) (vr_Key entry) secrets
  else if vr_ConfigMapName entry != ""
       then validateConfigMap (vr_ConfigMapName entry) (vr_Key entry) configMaps
  else [].

(** The value a reference names is there and is not blank. *)
Definition reference_resolves (secrets : Secrets) (configMaps : ConfigMaps) (r : ValueReference) :
    Prop :=
  (vr_SecretName r ≠ "" →
     ∃ s v, secrets !! vr_SecretName r = Some s ∧ secret_Data s !! vr_Key r = Some v ∧ v ≠ "") ∧
  (vr_SecretName r = "" → vr_ConfigMapName r ≠ "" →
     ∃ c v, configMaps !! vr_ConfigMapName r = Some c ∧ cm_Data c !! vr_Key r = Some v ∧
       TrimSpace v ≠ "").

Lemma validateSecret_nil n k secrets :
  validateSecret n k secrets = [] ↔
  ∃ s v, secrets !! n = Some s ∧ secret_Data s !! k = Some v ∧ v ≠ "".
Proof.
  unfold validateSecret. destruct (secrets !! n) as [s|]; [|split; [done|by intros (?&?&[=]&_)]].
  destruct (secret_Data s !! k) as [v|] eqn:Hv;
    [|split; [done|intros (?&?&[= <-]&Hk&_); congruence]].
  destruct v as [|c v]; simpl.
  - split; [done|]. intros (?&?&[= <-]&Hk&Hne). congruence.
  - split; [|done]. intros _. by exists s, (String c v).
Qed.

Lemma validateConfigMap_nil n k cms :
  validateConfigMap n k cms = [] ↔
  ∃ s v, cms !! n = Some s ∧ cm_Data s !! k = Some v ∧ TrimSpace v ≠ "".
Proof.
  unfold validateConfigMap. destruct (cms !! n) as [s|]; [|split; [done|by intros (?&?&[=]&_)]].
  destruct (cm_Data s !! k) as [v|] eqn:Hv;
    [|split; [done|intros (?&?&[= <-]&Hk&_); congruence]].
  destruct (String.eqb_spec (TrimSpace v) "") as [E|].
  - split; [done|]. intros (?&?&[= <-]&Hk&Hne). congruence.
  - split; [|done]. intros _. by exists s, v.
Qed.

Lemma ValidateValueReference_nil configs secrets cms :
  ValidateValueReference configs secrets cms = [] ↔
  ∀ r, r ∈ configs → reference_resolves secrets cms r.
Proof.
  unfold ValidateValueReference. rewrite bind_nil_iff.
  apply forall_proper; intros r. apply forall_proper; intros _.
  unfold reference_resolves. go_cases; rewrite ?validateSecret_nil, ?validateConfigMap_nil.
  all: destruct r as [key cmn sn]; simpl in *; subst; naive_solver.
Qed.

(** ** Annotations *)

Definition IsEnabledAnnotation (context : ForwarderContext) (annotation : string) : bool :=
  let enabledValues := NewString ["true"; "enabled"] in
  match clf_Annotations (ctx_Forwarder context) !! annotation with
  | Some value => Has enabledValues value
  | None => false
  end.
