(* ===== verification/GoTime.v ===== *)
(** * The parts of Go's [time] the operator uses

    Parsing of the layouts [time.DateOnly] and [time.RFC3339], the latter on
    strings that have its shape: digits where the layout has numbers, and ranges
    of the numbers as [time.Parse] checks them.  Instants, and their text in UTC with
    the layout [time.RFC3339Nano]. *)

From S2P Require Import Prelude GoStrings Regex.

Open Scope re.

Definition digit_val (c : ascii) : nat := Ascii.nat_of_ascii c - 48.

(** Reads exactly [n] digits. *)
Fixpoint read_digits (n : nat) (acc : nat) (s : string) : option (nat * string) :=
  match n with
  | O => Some (acc, s)
  | S n =>
      match s with
      | String c s => if is_digit c then read_digits n (10 * acc + digit_val c) s else None
      | "" => None
      end
  end.

Definition read_byte (c : ascii) (s : string) : option string :=
  match s with
  | String d s => if Ascii.eqb c d then Some s else None
  | "" => None
  end.

Definition isLeap (year : nat) : bool :=
  (year mod 4 =? 0)%nat && (negb (year mod 100 =? 0)%nat || (year mod 400 =? 0)%nat).

Definition daysIn (month year : nat) : nat :=
  if (month =? 2)%nat then (if isLeap year then 29 else 28)
  else if existsb (Nat.eqb month) [4; 6; 9; 11] then 30 else 31.

Definition valid_date (year month day : nat) : bool :=
  (1 <=? month)%nat && (month <=? 12)%nat && (1 <=? day)%nat && (day <=? daysIn month year)%nat.

(** The date at the start of a string and what follows it. *)
Definition read_date (s : string) : option (nat * nat * nat * string) :=
  year ← read_digits 4 0 s; s ← read_byte "-" year.2;
  month ← read_digits 2 0 s; s ← read_byte "-" month.2;
  day ← read_digits 2 0 s;
  if valid_date year.1 month.1 day.1 then Some (year.1, month.1, day.1, day.2) else None.

(** [time.Parse(time.DateOnly, value)] gives a time. *)
Definition parse_DateOnly (value : string) : option (nat * nat * nat) :=
  d ← read_date value;
  match d.2 with "" => Some d.1 | _ => None end.

(** The clock time after the [T]. *)
Definition read_clock (s : string) : option (nat * nat * nat * string) :=
  h ← read_digits 2 0 s; s ← read_byte ":" h.2;
  m ← read_digits 2 0 s; s ← read_byte ":" m.2;
  sec ← read_digits 2 0 s;
  if (h.1 <? 24)%nat && (m.1 <? 60)%nat && (sec.1 <? 60)%nat
  then Some (h.1, m.1, sec.1, sec.2) else None.

(** The pattern [rfc3339Timestamp]: date, clock, an optional fraction, and [Z] or
    an explicit offset of less than a day. *)
Definition rfc3339Timestamp : regex :=
  Rep 4 Digit ⋅ Lit "-" ⋅ Rep 2 Digit ⋅ Lit "-" ⋅ Rep 2 Digit ⋅ Lit "T" ⋅
  Rep 2 Digit ⋅ Lit ":" ⋅ Rep 2 Digit ⋅ Lit ":" ⋅ Rep 2 Digit ⋅
  Opt (Lit "." ⋅ Plus Digit) ⋅
  (Lit "Z" ∣ (Lit "+" ∣ Lit "-") ⋅
     ((Char (in_range "0" "1") ⋅ Digit) ∣ (Lit "2" ⋅ Char (in_range "0" "3"))) ⋅
     Lit ":" ⋅ Char (in_range "0" "5") ⋅ Digit).

(** [time.Parse(time.RFC3339, value)] on a string that matches the pattern: the
    ranges that are left to check are those of the date and of the clock. *)
Definition parse_RFC3339_matched (value : string) : bool :=
  match (d ← read_date value; s ← read_byte "T" d.2; read_clock s) with
  | Some _ => true
  | None => false
  end.

(** ** Instants

    Seconds since the start of 1970 in UTC, and nanoseconds. *)

Record instant := { unix_sec : Z; unix_nsec : Z }.

(** The day of a date of the calendar, and back: years start in March and eras have
    400 of them. *)
Definition days_from_civil (year month day : Z) : Z :=
  let y := if (month <=? 2)%Z then (year - 1)%Z else year in
  let era := (y / 400)%Z in
  let yoe := (y mod 400)%Z in
  let mp := if (2 <? month)%Z then (month - 3)%Z else (month + 9)%Z in
  let doy := ((153 * mp + 2) / 5 + day - 1)%Z in
  (era * 146097 + (365 * yoe + yoe / 4 - yoe / 100 + doy) - 719468)%Z.

Definition civil_from_days (days : Z) : Z * Z * Z :=
  let z := (days + 719468)%Z in
  let era := (z / 146097)%Z in
  let doe := (z mod 146097)%Z in
  let yoe := ((doe - doe / 1460 + doe / 36524 - doe / 146096) / 365)%Z in
  let doy := (doe - (365 * yoe + yoe / 4 - yoe / 100))%Z in
  let mp := ((5 * doy + 2) / 153)%Z in
  let day := (doy - (153 * mp + 2) / 5 + 1)%Z in
  let month := if (mp <? 10)%Z then (mp + 3)%Z else (mp - 9)%Z in
  ((yoe + era * 400 + (if (month <=? 2)%Z then 1 else 0))%Z, month, day).

Definition date_instant (d : nat * nat * nat) : instant := {|
  unix_sec := days_from_civil (Z.of_nat d.1.1) (Z.of_nat d.1.2) (Z.of_nat d.2) * 86400;
  unix_nsec := 0 |}.

(** The digits at the start of a string and what follows them. *)
Fixpoint span_digits (s : string) : string * string :=
  match s with
  | String c s' => if is_digit c then let '(ds, r) := span_digits s' in (String c ds, r) else ("", s)
  | "" => ("", "")
  end.

(** The value of up to [k] digits of a fraction of which a unit is 10^[k]. *)
Fixpoint fraction (k : nat) (ds : string) : Z :=
  match k, ds with
  | S k, String c ds => Z.of_nat (digit_val c) * 10 ^ Z.of_nat k + fraction k ds
  | _, _ => 0
  end.

(** The fraction that may follow the seconds, in nanoseconds. *)
Definition read_fraction (s : string) : Z * string :=
  match s with
  | String "." s => let '(ds, r) := span_digits s in (fraction 9 ds, r)
  | s => (0%Z, s)
  end.

(** The offset at the end, in seconds. *)
Definition read_offset (s : string) : option Z :=
  match s with
  | String c rest =>
      if Ascii.eqb c "Z" then match rest with "" => Some 0%Z | _ => None end
      else
        h ← read_digits 2 0 rest; s ← read_byte ":" h.2; m ← read_digits 2 0 s;
        let off := ((Z.of_nat h.1 * 60 + Z.of_nat m.1) * 60)%Z in
        if (h.1 <? 24)%nat && (m.1 <? 60)%nat && (m.2 == "") then
          if Ascii.eqb c "+" then Some off else if Ascii.eqb c "-" then Some (- off)%Z else None
        else None
  | "" => None
  end.

(** [time.Parse(time.RFC3339Nano, value)] on a string that matches the pattern. *)
Definition instant_RFC3339_matched (value : string) : option instant :=
  d ← read_date value; s ← read_byte "T" d.2; c ← read_clock s;
  let '(nsec, rest) := read_fraction c.2 in
  off ← read_offset rest;
  let '(h, m, sec) := c.1 in
  Some {| unix_sec := unix_sec (date_instant d.1)
            + (Z.of_nat h * 3600 + Z.of_nat m * 60 + Z.of_nat sec) - off;
          unix_nsec := nsec |}.

(** [n] in decimal with [w] digits. *)
Fixpoint pad (w : nat) (n : Z) : string :=
  match w with
  | O => ""
  | S w => pad w (n / 10) +:+ String (Ascii.ascii_of_nat (48 + Z.to_nat (n mod 10))) ""
  end.

Definition appendInt (x : Z) (width : nat) : string :=
  (if (x <? 0)%Z then "-" else "") +:+
  (let n := Z.abs x in if (n <? 10 ^ Z.of_nat width)%Z then pad width n else Itoa n).

(** Trailing zeros of a fraction are not written. *)
Fixpoint trim_zeros (s : string) : string :=
  match s with
  | "" => ""
  | String c s =>
      match trim_zeros s with
      | "" => if Ascii.eqb c "0" then "" else String c ""
      | t => String c t
      end
  end.

Definition format_fraction (nsec : Z) : string :=
  match trim_zeros (pad 9 nsec) with "" => "" | ds => "." +:+ ds end.

(** [t.UTC().Format(time.RFC3339Nano)]. *)
Definition Format_RFC3339Nano (t : instant) : string :=
  let '(year, month, day) := civil_from_days (unix_sec t / 86400) in
  let sod := (unix_sec t mod 86400)%Z in
  appendInt year 4 +:+ "-" +:+ appendInt month 2 +:+ "-" +:+ appendInt day 2 +:+ "T" +:+
  appendInt (sod / 3600) 2 +:+ ":" +:+ appendInt (sod / 60 mod 60) 2 +:+ ":" +:+
  appendInt (sod mod 60) 2 +:+ format_fraction (unix_nsec t) +:+ "Z".

(** ** Dates and days *)

Lemma year_of_era doe :
  (0 <= doe < 146097)%Z →
  let yoe := ((doe - doe / 1460 + doe / 36524 - doe / 146096) / 365)%Z in
  (0 <= yoe < 400)%Z ∧ (365 * yoe + yoe / 4 - yoe / 100 <= doe)%Z ∧
  (doe < 365 * (yoe + 1) + (yoe + 1) / 4 - (yoe + 1) / 100 ∨ yoe = 399)%Z.
Proof.
  intros H yoe. subst yoe.
  assert (0 <= doe / 1460 < 101)%Z by (split; [apply Z.div_pos; lia|apply Z.div_lt_upper_bound; lia]).
  assert (0 <= doe / 36524 <= 4)%Z by (split; [apply Z.div_pos; lia|apply Z.div_le_upper_bound; lia]).
  assert (0 <= doe / 146096 <= 1)%Z by (split; [apply Z.div_pos; lia|apply Z.div_le_upper_bound; lia]).
  Z.to_euclidean_division_equations; lia.
Qed.

(** The day of the year, from March on, gives a month and a day of it. *)
Lemma month_of_year doy :
  (0 <= doy <= 365)%Z →
  let mp := ((5 * doy + 2) / 153)%Z in
  (0 <= mp <= 11)%Z ∧ (0 <= doy - (153 * mp + 2) / 5)%Z ∧
  (doy - (153 * mp + 2) / 5 < if (mp =? 11)%Z then 29 else
     if existsb (Z.eqb mp) [1; 3; 6; 8]%Z then 30 else 31)%Z ∧
  (mp = 11 → doy < 365 → doy - (153 * mp + 2) / 5 < 28)%Z.
Proof.
  intros H mp. assert (0 <= mp <= 11)%Z as Hmp.
  { subst mp. split; [apply Z.div_pos; lia|apply Z.lt_succ_r, Z.div_lt_upper_bound; lia]. }
  split; [done|]. assert (153 * mp <= 5 * doy + 2 < 153 * mp + 153)%Z as Hb.
  { subst mp. Z.to_euclidean_division_equations; lia. }
  clearbody mp.
  assert (mp ∈ [0; 1; 2; 3; 4; 5; 6; 7; 8; 9; 10; 11]%Z) as Hin by (rewrite !elem_of_cons; lia).
  repeat (apply elem_of_cons in Hin as [->|Hin];
    [cbn [existsb Z.eqb Pos.eqb orb]; Z.to_euclidean_division_equations; lia|]).
  by apply not_elem_of_nil in Hin.
Qed.

Definition leap (year : Z) : bool :=
  ((year mod 4 =? 0) && (negb (year mod 100 =? 0) || (year mod 400 =? 0)))%Z.

Lemma isLeap_Z year : isLeap year = leap (Z.of_nat year).
Proof.
  unfold isLeap, leap.
  assert (∀ k : nat, (k ≠ 0)%nat →
    (year mod k =? 0)%nat = (Z.of_nat year mod Z.of_nat k =? 0)%Z) as H.
  { intros k Hk. rewrite <-Nat2Z.inj_mod.
    destruct (Nat.eqb_spec (year mod k) 0), (Z.eqb_spec (Z.of_nat (year mod k)) 0); lia. }
  by rewrite !H.
Qed.

(** The last day of February is the 366th of a leap year that starts in March. *)
Lemma leap_day yoe era doe :
  (0 <= yoe < 400)%Z →
  (doe < 365 * (yoe + 1) + (yoe + 1) / 4 - (yoe + 1) / 100 ∨ yoe = 399)%Z →
  (doe < 146097)%Z →
  (doe - (365 * yoe + yoe / 4 - yoe / 100) <= 365)%Z ∧
  (doe - (365 * yoe + yoe / 4 - yoe / 100) = 365 → leap (yoe + era * 400 + 1) = true)%Z.
Proof.
  intros Hy Hd Hb. split; [Z.to_euclidean_division_equations; lia|]. intros E. unfold leap.
  assert ((yoe + era * 400 + 1) mod 400 = (yoe + 1) mod 400)%Z as E1.
  { replace (yoe + era * 400 + 1)%Z with (yoe + 1 + era * 400)%Z by lia. apply Z.mod_add. lia. }
  assert ((yoe + era * 400 + 1) mod 100 = (yoe + 1) mod 100)%Z as E2.
  { replace (yoe + era * 400 + 1)%Z with (yoe + 1 + (era * 4) * 100)%Z by lia. apply Z.mod_add. lia. }
  assert ((yoe + era * 400 + 1) mod 4 = (yoe + 1) mod 4)%Z as E3.
  { replace (yoe + era * 400 + 1)%Z with (yoe + 1 + (era * 100) * 4)%Z by lia. apply Z.mod_add. lia. }
  rewrite E1, E2, E3. clear E1 E2 E3.
  destruct Hd as [Hd| ->]; [|done].
  assert (((yoe + 1) mod 4 = 0)%Z ∧ ((yoe + 1) mod 100 ≠ 0)%Z) as [-> Hn].
  { Z.to_euclidean_division_equations; lia. }
  destruct (Z.eqb_spec ((yoe + 1) mod 100) 0); [done|done].
Qed.

(** Back from the parts of a day: its era, the year of the era, and the month. *)
Lemma days_from_parts era yoe mp dd :
  (0 <= yoe < 400)%Z → (0 <= mp <= 11)%Z →
  let m := if (mp <? 10)%Z then (mp + 3)%Z else (mp - 9)%Z in
  days_from_civil (yoe + era * 400 + (if (m <=? 2)%Z then 1 else 0)) m (dd + 1) =
  (era * 146097 + (365 * yoe + yoe / 4 - yoe / 100 + ((153 * mp + 2) / 5 + dd)) - 719468)%Z.
Proof.
  intros Hy Hmp m. unfold days_from_civil.
  assert ((if (m <=? 2)%Z then yoe + era * 400 + (if (m <=? 2)%Z then 1 else 0) - 1
    else yoe + era * 400 + (if (m <=? 2)%Z then 1 else 0)) = yoe + era * 400)%Z as ->.
  { destruct (m <=? 2)%Z; lia. }
  assert ((if (2 <? m)%Z then m - 3 else m + 9) = mp)%Z as ->.
  { subst m. destruct (Z.ltb_spec mp 10); case_match; lia. }
  rewrite Z.div_add, Z.mod_add, Z.div_small, Z.mod_small by lia. lia.
Qed.

(** The lengths of the months, counted from March and from January. *)
Lemma month_length mp d (ly : bool) :
  (0 <= mp <= 11)%Z →
  (d <= if (mp =? 11)%Z then 29 else if existsb (Z.eqb mp) [1; 3; 6; 8]%Z then 30 else 31)%Z →
  (mp = 11 → ly = false → d <= 28)%Z →
  let m := if (mp <? 10)%Z then (mp + 3)%Z else (mp - 9)%Z in
  (d <= if (m =? 2)%Z then if ly then 29 else 28
        else if existsb (Z.eqb m) [4; 6; 9; 11]%Z then 30 else 31)%Z.
Proof.
  intros Hmp Hd Hfeb.
  assert (mp ∈ [0; 1; 2; 3; 4; 5; 6; 7; 8; 9; 10; 11]%Z) as Hin by (rewrite !elem_of_cons; lia).
  revert Hd Hfeb. clear Hmp.
  repeat (apply elem_of_cons in Hin as [->|Hin]; 
    [lazy -[Z.le]; intros Hd Hfeb; destruct ly; try specialize (Hfeb eq_refl eq_refl); lia|]).
  by apply not_elem_of_nil in Hin.
Qed.

(** A day has a date of the calendar, and it is the day of that date. *)
Lemma civil_from_days_correct days y m d :
  civil_from_days days = (y, m, d) →
  days_from_civil y m d = days ∧
  (1 <= m <= 12)%Z ∧ (1 <= d)%Z ∧
  (d <= if (m =? 2)%Z then if leap y then 29 else 28
        else if existsb (Z.eqb m) [4; 6; 9; 11]%Z then 30 else 31)%Z.
Proof.
  unfold civil_from_days.
  pose proof (Z.mod_pos_bound (days + 719468) 146097 ltac:(lia)) as Hdoe.
  pose proof (Z.div_mod (days + 719468) 146097 ltac:(lia)) as Hdm.
  set (era := ((days + 719468) / 146097)%Z) in *.
  set (doe := ((days + 719468) mod 146097)%Z) in *.
  destruct (year_of_era doe Hdoe) as (Hy & Hle & Hlt).
  set (yoe := ((doe - doe / 1460 + doe / 36524 - doe / 146096) / 365)%Z) in *.
  destruct (leap_day yoe era doe) as [Hdoy Hleap]; [lia..|].
  set (doy := (doe - (365 * yoe + yoe / 4 - yoe / 100))%Z) in *.
  destruct (month_of_year doy) as (Hmp & Hday0 & Hday & Hfeb); [lia|].
  set (mp := ((5 * doy + 2) / 153)%Z) in *. set (dd := (doy - (153 * mp + 2) / 5)%Z) in *.
  intros [= <- <- <-]. split; [|split; [destruct (Z.ltb_spec mp 10); lia|split; [lia|]]].
  - rewrite days_from_parts by done.
    assert (dd = doy - (153 * mp + 2) / 5)%Z as E by done.
    assert (doy = doe - (365 * yoe + yoe / 4 - yoe / 100))%Z as E' by done.
    clearbody dd mp doy yoe doe era. lia.
  - apply month_length; [done|lia|]. intros E Hl.
    assert (leap (yoe + era * 400 + 1) = false) as Hl' by (etrans; [|exact Hl]; by rewrite E).
    assert (doy ≠ 365)%Z as Hn by (intros E'; rewrite (Hleap E') in Hl'; done).
    lia.
Qed.

(** ** Numbers and their text *)

Lemma digit_byte k :
  (0 <= k < 10)%Z →
  is_digit (Ascii.ascii_of_nat (48 + Z.to_nat k)) = true ∧
  Z.of_nat (digit_val (Ascii.ascii_of_nat (48 + Z.to_nat k))) = k ∧
  (Ascii.ascii_of_nat (48 + Z.to_nat k) = "0"%char → k = 0%Z).
Proof.
  intros Hk. assert (k ∈ [0; 1; 2; 3; 4; 5; 6; 7; 8; 9]%Z) as Hin by (rewrite !elem_of_cons; lia).
  clear Hk. repeat (apply elem_of_cons in Hin as [->|Hin]; [by vm_compute|]).
  by apply not_elem_of_nil in Hin.
Qed.

Lemma pad_length w n : String.length (pad w n) = w.
Proof. revert n. induction w as [|w IH]; intros n; simpl; [done|]. rewrite string_app_length, IH. simpl. lia. Qed.

Lemma pad_digits w n : (0 <= n)%Z → string_forallb is_digit (pad w n) = true.
Proof.
  revert n. induction w as [|w IH]; intros n Hn; [done|]. cbn [pad].
  rewrite string_forallb_app, IH by (apply Z.div_pos; lia). cbn [string_forallb andb].
  pose proof (Z.mod_pos_bound n 10 ltac:(lia)).
  destruct (digit_byte (n mod 10)) as [-> _]; [lia|done].
Qed.

Lemma read_digits_snoc w acc s v c rest :
  read_digits w acc s = Some (v, String c rest) → is_digit c = true →
  read_digits (S w) acc s = Some (10 * v + digit_val c, rest)%nat.
Proof.
  revert acc s. induction w as [|w IH]; intros acc s; cbn [read_digits].
  - intros [= -> ->] ->. done.
  - destruct s as [|d s]; [done|]. destruct (is_digit d); [|done]. apply IH.
Qed.

Lemma read_pad w n rest :
  (0 <= n < 10 ^ Z.of_nat w)%Z → read_digits w 0 (pad w n +:+ rest) = Some (Z.to_nat n, rest).
Proof.
  revert n rest. induction w as [|w IH]; intros n rest Hn.
  { simpl in *. by replace n with 0%Z by lia. }
  cbn [pad]. rewrite string_app_assoc. cbn [String.append].
  rewrite Nat2Z.inj_succ, Z.pow_succ_r in Hn by lia.
  pose proof (Z.mod_pos_bound n 10 ltac:(lia)) as Hm.
  pose proof (Z.div_mod n 10 ltac:(lia)) as Hdm.
  destruct (digit_byte (n mod 10)) as (Hd & Hv & _); [lia|].
  erewrite read_digits_snoc; [|apply IH|exact Hd].
  - do 2 f_equal. apply Nat2Z.inj. rewrite Nat2Z.inj_add, Nat2Z.inj_mul, Hv, !Z2Nat.id; [lia|lia|].
    apply Z.div_pos; lia.
  - split; [apply Z.div_pos; lia|]. apply Z.div_lt_upper_bound; lia.
Qed.

Lemma fraction_snoc k s c :
  String.length s = k → fraction (S k) (s +:+ String c "") = (10 * fraction k s + Z.of_nat (digit_val c))%Z.
Proof.
  revert s. induction k as [|k IH]; intros [|d s] Hl; try done.
  - cbn [String.append fraction]. simpl. lia.
  - cbn [String.append]. change (fraction (S (S k)) (String d (s +:+ String c "")))
      with (Z.of_nat (digit_val d) * 10 ^ Z.of_nat (S k) + fraction (S k) (s +:+ String c ""))%Z.
    rewrite IH by by injection Hl. cbn [fraction]. rewrite Nat2Z.inj_succ, Z.pow_succ_r by lia. lia.
Qed.

Lemma fraction_pad k n : (0 <= n < 10 ^ Z.of_nat k)%Z → fraction k (pad k n) = n.
Proof.
  revert n. induction k as [|k IH]; intros n Hn; [simpl in *; lia|]. cbn [pad].
  rewrite fraction_snoc by apply pad_length.
  rewrite Nat2Z.inj_succ, Z.pow_succ_r in Hn by lia.
  pose proof (Z.mod_pos_bound n 10 ltac:(lia)) as Hm.
  pose proof (Z.div_mod n 10 ltac:(lia)) as Hdm.
  destruct (digit_byte (n mod 10)) as (_ & -> & _); [lia|].
  rewrite IH; [lia|]. split; [apply Z.div_pos; lia|]. apply Z.div_lt_upper_bound; lia.
Qed.

Lemma fraction_trim k s : fraction k (trim_zeros s) = fraction k s.
Proof.
  revert k. induction s as [|c s IH]; intros k; [done|]. cbn [trim_zeros].
  destruct (trim_zeros s) as [|d t] eqn:E.
  - destruct (Ascii.eqb_spec c "0") as [->|]; destruct k as [|k]; cbn [fraction]; rewrite <-?IH;
      try done; by destruct k.
  - destruct k as [|k]; [done|]. cbn [fraction]. by rewrite IH.
Qed.

Lemma trim_zeros_digits s : string_forallb is_digit s = true → string_forallb is_digit (trim_zeros s) = true.
Proof.
  induction s as [|c s IH]; [done|]. cbn [string_forallb trim_zeros].
  intros [Hc Hs]%andb_true_iff. specialize (IH Hs). destruct (trim_zeros s).
  - destruct (Ascii.eqb c "0"); [done|]. cbn [string_forallb]. by rewrite Hc.
  - cbn [string_forallb] in *. by rewrite Hc.
Qed.

Lemma span_digits_app ds c rest :
  string_forallb is_digit ds = true → is_digit c = false →
  span_digits (ds +:+ String c rest) = (ds, String c rest).
Proof.
  intros Hds Hc. induction ds as [|d ds IH]; cbn [String.append span_digits]; [by rewrite Hc|].
  cbn [string_forallb] in Hds. apply andb_true_iff in Hds as [-> Hds]. by rewrite IH.
Qed.

Lemma appendInt_pad x w : (0 <= x < 10 ^ Z.of_nat w)%Z → appendInt x w = pad w x.
Proof.
  intros Hx. unfold appendInt. destruct (Z.ltb_spec x 0); [lia|].
  rewrite Z.abs_eq by lia. destruct (Z.ltb_spec x (10 ^ Z.of_nat w)); [done|lia].
Qed.

Lemma read_pad2 n rest : (0 <= n < 100)%Z → read_digits 2 0 (pad 2 n +:+ rest) = Some (Z.to_nat n, rest).
Proof. intros Hn. by apply read_pad. Qed.

Lemma read_byte_eq c rest : read_byte c (String c rest) = Some rest.
Proof. cbn. by rewrite Ascii.eqb_refl. Qed.

(** The year of an instant in UTC. *)
Definition year_of (t : instant) : Z := (civil_from_days (unix_sec t / 86400)).1.1.

(** The instants that can be written with four digits for the year. *)
Record writable (t : instant) : Prop := {
  wr_year : (0 <= year_of t <= 9999)%Z;
  wr_nsec : (0 <= unix_nsec t < 1000000000)%Z;
}.

Lemma read_date_pad y m d rest :
  (0 <= y <= 9999)%Z → (1 <= m <= 12)%Z → (1 <= d)%Z →
  (d <= if (m =? 2)%Z then if leap y then 29 else 28
        else if existsb (Z.eqb m) [4; 6; 9; 11]%Z then 30 else 31)%Z →
  read_date (pad 4 y +:+ String "-" (pad 2 m +:+ String "-" (pad 2 d +:+ rest))) =
  Some (Z.to_nat y, Z.to_nat m, Z.to_nat d, rest).
Proof.
  intros Hy Hm Hd1 Hd. unfold read_date. rewrite read_pad by (cbn; lia). cbn [mbind option_bind snd].
  rewrite read_byte_eq. cbn [mbind option_bind]. rewrite read_pad2 by lia. cbn [mbind option_bind snd].
  rewrite read_byte_eq. cbn [mbind option_bind].
  assert (d <= 31)%Z as Hd31 by (repeat case_match; lia).
  rewrite read_pad2 by lia. cbn [mbind option_bind fst snd].
  assert (valid_date (Z.to_nat y) (Z.to_nat m) (Z.to_nat d) = true) as ->; [|done].
  unfold valid_date. rewrite !andb_true_iff, !Nat.leb_le. split_and!; [lia..|].
  unfold daysIn. rewrite isLeap_Z, Z2Nat.id by lia.
  assert (m ∈ [1; 2; 3; 4; 5; 6; 7; 8; 9; 10; 11; 12]%Z) as Hin by (rewrite !elem_of_cons; lia).
  clear Hm Hd31. revert Hd. rewrite <-(Z2Nat.id d) by lia. rewrite Nat2Z.id.
  generalize (leap y) (Z.to_nat d). intros ly n.
  repeat (apply elem_of_cons in Hin as [->|Hin];
    [lazy -[Z.le Z.of_nat]; intros Hd; destruct ly; lia|]).
  by apply not_elem_of_nil in Hin.
Qed.

Lemma read_clock_pad h m s rest :
  (0 <= h < 24)%Z → (0 <= m < 60)%Z → (0 <= s < 60)%Z →
  read_clock (pad 2 h +:+ String ":" (pad 2 m +:+ String ":" (pad 2 s +:+ rest))) =
  Some (Z.to_nat h, Z.to_nat m, Z.to_nat s, rest).
Proof.
  intros Hh Hm Hs. unfold read_clock. rewrite read_pad2 by lia. cbn [mbind option_bind snd].
  rewrite read_byte_eq. cbn [mbind option_bind]. rewrite read_pad2 by lia. cbn [mbind option_bind snd].
  rewrite read_byte_eq. cbn [mbind option_bind]. rewrite read_pad2 by lia. cbn [mbind option_bind fst snd].
  destruct (Nat.ltb_spec (Z.to_nat h) 24); [|lia].
  destruct (Nat.ltb_spec (Z.to_nat m) 60); [|lia].
  by destruct (Nat.ltb_spec (Z.to_nat s) 60); [|lia].
Qed.

(** The parts of the text of an instant. *)
Lemma Format_parts t :
  writable t →
  ∃ y m d h mi s,
    civil_from_days (unix_sec t / 86400) = (y, m, d) ∧ days_from_civil y m d = (unix_sec t / 86400)%Z ∧
    (0 <= y <= 9999)%Z ∧ (1 <= m <= 12)%Z ∧ (1 <= d)%Z ∧
    (d <= if (m =? 2)%Z then if leap y then 29 else 28
          else if existsb (Z.eqb m) [4; 6; 9; 11]%Z then 30 else 31)%Z ∧
    (0 <= h < 24)%Z ∧ (0 <= mi < 60)%Z ∧ (0 <= s < 60)%Z ∧
    (h * 3600 + mi * 60 + s = unix_sec t mod 86400)%Z ∧
    Format_RFC3339Nano t =
      pad 4 y +:+ String "-" (pad 2 m +:+ String "-" (pad 2 d +:+ String "T"
        (pad 2 h +:+ String ":" (pad 2 mi +:+ String ":" (pad 2 s +:+ (format_fraction (unix_nsec t) +:+ "Z")))))).
Proof.
  intros [Hy Hn]. destruct (civil_from_days (unix_sec t / 86400)) as [[y m] d] eqn:E.
  destruct (civil_from_days_correct _ _ _ _ E) as (Hdays & Hm & Hd1 & Hd).
  unfold year_of in Hy. rewrite E in Hy. cbn [fst] in Hy.
  pose proof (Z.mod_pos_bound (unix_sec t) 86400 ltac:(lia)) as Hsod.
  set (sod := (unix_sec t mod 86400)%Z) in *.
  assert (0 <= sod / 3600 < 24)%Z as Hh.
  { split; [apply Z.div_pos; lia|apply Z.div_lt_upper_bound; lia]. }
  pose proof (Z.mod_pos_bound (sod / 60) 60 ltac:(lia)) as Hmi.
  pose proof (Z.mod_pos_bound sod 60 ltac:(lia)) as Hs.
  exists y, m, d, (sod / 3600)%Z, (sod / 60 mod 60)%Z, (sod mod 60)%Z. split_and!; try done; try lia.
  - clear -Hsod. Z.to_euclidean_division_equations; lia.
  - unfold Format_RFC3339Nano. rewrite E. fold sod.
    assert (d <= 31)%Z by (repeat case_match; lia).
    rewrite !appendInt_pad by (cbn; lia). done.
Qed.

Lemma read_fraction_format ns :
  (0 <= ns < 1000000000)%Z → read_fraction (format_fraction ns +:+ "Z") = (ns, "Z").
Proof.
  intros Hns. unfold format_fraction.
  pose proof (fraction_pad 9 ns ltac:(cbn; lia)) as Hf. rewrite <-fraction_trim in Hf.
  pose proof (trim_zeros_digits _ (pad_digits 9 ns ltac:(lia))) as Hd.
  destruct (trim_zeros (pad 9 ns)) as [|c ds].
  - cbn in Hf. by subst ns.
  - change (("." +:+ String c ds) +:+ "Z") with (String "." (String c ds +:+ String "Z" "")).
    cbn [read_fraction]. by rewrite span_digits_app, Hf.
Qed.

Lemma matches_digits n s :
  String.length s = n → string_forallb is_digit s = true → matches (Rep n Digit) s.
Proof.
  revert s. induction n as [|n IH]; intros [|c s] Hl Hs; try done; [constructor|].
  cbn [string_forallb] in Hs. apply andb_true_iff in Hs as [Hc Hs].
  apply (m_seq Digit (Rep n Digit) (String c "") s); [by constructor|]. apply IH; [by injection Hl|done].
Qed.

Lemma matches_pad n x : (0 <= x)%Z → matches (Rep n Digit) (pad n x).
Proof. intros Hx. apply matches_digits; [apply pad_length|by apply pad_digits]. Qed.

Lemma matches_Lit_seq c r s : matches r s → matches (Lit (String c "") ⋅ r) (String c s).
Proof. intros Hr. apply (m_seq _ _ (String c "") s); [by apply matches_Lit|done]. Qed.

Lemma matches_fraction ns r :
  (0 <= ns)%Z → matches r "Z" → matches (Opt (Lit "." ⋅ Plus Digit) ⋅ r) (format_fraction ns +:+ "Z").
Proof.
  intros Hns Hr. apply m_seq; [|done]. unfold format_fraction.
  pose proof (trim_zeros_digits _ (pad_digits 9 ns ltac:(lia))) as Hd.
  destruct (trim_zeros (pad 9 ns)) as [|c ds]; [apply matches_alt_inv; left; constructor|].
  apply matches_alt_inv. right. apply matches_Lit_seq, matches_Plus_Char. done.
Qed.

(** Instants and their text.  The text the operator writes for an instant has the
    form the validation of filters accepts, and reading it gives the same instant,
    whatever the date, leap years and fractions of a second included. *)
Lemma Format_RFC3339Nano_correct t :
  writable t →
  instant_RFC3339_matched (Format_RFC3339Nano t) = Some t ∧
  parse_RFC3339_matched (Format_RFC3339Nano t) = true ∧
  fullmatch rfc3339Timestamp (Format_RFC3339Nano t) = true.
Proof.
  intros Ht. pose proof (wr_nsec _ Ht) as Hns.
  destruct (Format_parts t Ht)
    as (y & m & d & h & mi & s & _ & Hdays & Hy & Hm & Hd1 & Hd & Hh & Hmi & Hs & Hsod & ->).
  assert (Hrest := read_fraction_format _ Hns). split_and!.
  - unfold instant_RFC3339_matched. rewrite read_date_pad by done. cbn [mbind option_bind snd].
    rewrite read_byte_eq. cbn [mbind option_bind]. rewrite read_clock_pad by done.
    cbn [mbind option_bind fst snd].
    rewrite Hrest. cbn -[Z.mul Z.add Z.sub Z.of_nat date_instant]. unfold date_instant.
    cbn [fst snd unix_sec]. rewrite !Z2Nat.id, Hdays by lia. destruct t as [sec ns].
    cbn [unix_sec unix_nsec] in *. do 2 f_equal.
    pose proof (Z.div_mod sec 86400 ltac:(lia)). lia.
  - unfold parse_RFC3339_matched. rewrite read_date_pad by done. cbn [mbind option_bind snd].
    rewrite read_byte_eq. cbn [mbind option_bind]. by rewrite read_clock_pad.
  - apply fullmatch_spec. unfold rfc3339Timestamp.
    repeat (first [apply matches_Lit_seq | apply matches_fraction; [lia|]
      | apply m_seq; [apply matches_pad; lia|]]).
    apply matches_alt_inv. left. by apply matches_Lit.
Qed.

(** ** Reading what the pattern matches *)

Fixpoint skip (n : nat) (s : string) : string :=
  match n, s with S n, String _ s => skip n s | _, _ => s end.

Lemma skip_skip a b s : skip b (skip a s) = skip (a + b) s.
Proof. revert s. induction a as [|a IH]; intros [|c s]; [done..|by destruct b|apply IH]. Qed.

Lemma read_digits_skip n acc s v r : read_digits n acc s = Some (v, r) → r = skip n s.
Proof.
  revert acc s. induction n as [|n IH]; intros acc [|c s]; cbn [read_digits skip]; try congruence.
  destruct (is_digit c); [apply IH|done].
Qed.

Lemma read_byte_skip c s r : read_byte c s = Some r → r = skip 1 s.
Proof. destruct s as [|d s]; [done|]. cbn. destruct (Ascii.eqb c d); congruence. Qed.

#[local] Arguments skip : simpl never.

Ltac skip_tac :=
  repeat match goal with
  | H : mbind _ _ = Some _ |- _ => apply bind_Some in H as (? & ? & H)
  | H : read_digits _ _ _ = Some ?p |- _ => destruct p as [? ?]; apply read_digits_skip in H
  | H : read_byte _ _ = Some _ |- _ => apply read_byte_skip in H
  | H : (if _ then _ else _) = Some _ |- _ => case_match; [|done]
  end; simplify_eq/=; rewrite ?skip_skip.

Lemma read_date_skip s d : read_date s = Some d → d.2 = skip 10 s.
Proof. unfold read_date. intros H. by skip_tac. Qed.

Lemma read_clock_skip s c : read_clock s = Some c → c.2 = skip 8 s.
Proof. unfold read_clock. intros H. by skip_tac. Qed.

Lemma matches_Rep_skip n r s : matches (Rep n Digit ⋅ r) s → matches r (skip n s).
Proof.
  revert s. induction n as [|n IH]; intros s (s1 & s2 & -> & H1 & H2)%matches_seq_inv.
  - apply matches_eps_inv in H1 as ->. done.
  - apply matches_seq_inv in H1 as (a & b & -> & (c & -> & _)%matches_char_inv & Hb).
    cbn [String.append skip]. apply IH. by constructor.
Qed.

Lemma matches_Lit_skip c r s : matches (Lit (String c "") ⋅ r) s → matches r (skip 1 s).
Proof. by intros (s1 & s2 & -> & ->%matches_Lit & H2)%matches_seq_inv. Qed.

(** The part of the pattern after the clock. *)
Definition offset_regex : regex :=
  Lit "Z" ∣ (Lit "+" ∣ Lit "-") ⋅
     ((Char (in_range "0" "1") ⋅ Digit) ∣ (Lit "2" ⋅ Char (in_range "0" "3"))) ⋅
     Lit ":" ⋅ Char (in_range "0" "5") ⋅ Digit.

Lemma offset_hours s :
  matches ((Char (in_range "0" "1") ⋅ Digit) ∣ (Lit "2" ⋅ Char (in_range "0" "3"))) s →
  ∃ a b, s = String a (String b "") ∧ is_digit a = true ∧ is_digit b = true ∧
    (10 * digit_val a + digit_val b < 24)%nat.
Proof.
  assert (∀ lo hi c, in_range lo hi c = true →
    (Ascii.nat_of_ascii lo <= Ascii.nat_of_ascii c <= Ascii.nat_of_ascii hi)%nat) as Hr.
  { intros lo hi c. unfold in_range. rewrite andb_true_iff, !Nat.leb_le. done. }
  assert (∀ c, (48 <= Ascii.nat_of_ascii c <= 57)%nat → is_digit c = true) as Hd.
  { intros c Hc. unfold is_digit, in_range. rewrite andb_true_iff, !Nat.leb_le. done. }
  unfold digit_val.
  intros [(? & ? & -> & (a & -> & Ha)%matches_char_inv & (b & -> & Hb)%matches_char_inv)%matches_seq_inv
         |(? & ? & -> & ->%matches_Lit & (b & -> & Hb)%matches_char_inv)%matches_seq_inv]%matches_alt_inv.
  - apply Hr in Ha, Hb. change (Ascii.nat_of_ascii "0") with 48 in *.
    change (Ascii.nat_of_ascii "1") with 49 in *. change (Ascii.nat_of_ascii "9") with 57 in *.
    exists a, b. split_and!; [done|apply Hd; lia|apply Hd; lia|lia].
  - apply Hr in Hb. change (Ascii.nat_of_ascii "0") with 48 in *.
    change (Ascii.nat_of_ascii "3") with 51 in *.
    exists "2"%char, b. split_and!; [done|done|apply Hd; lia|]. change (Ascii.nat_of_ascii "2") with 50. lia.
Qed.

Lemma digit_range lo hi c :
  in_range lo hi c = true → (48 <= Ascii.nat_of_ascii lo)%nat → (Ascii.nat_of_ascii hi <= 57)%nat →
  is_digit c = true ∧ (digit_val c <= Ascii.nat_of_ascii hi - 48)%nat.
Proof.
  unfold is_digit, in_range, digit_val. rewrite !andb_true_iff, !Nat.leb_le.
  change (Ascii.nat_of_ascii "0") with 48. change (Ascii.nat_of_ascii "9") with 57. lia.
Qed.

(** An offset the pattern accepts is read. *)
Lemma read_offset_matched s : matches offset_regex s → is_Some (read_offset s).
Proof.
  intros [->%matches_Lit|(sign & r & -> & Hsign & (hh & r' & -> & Hh & Hr)%matches_seq_inv)%matches_seq_inv]
    %matches_alt_inv; [by eexists|].
  apply offset_hours in Hh as (a & b & -> & Ha & Hb & Hlt).
  apply matches_seq_inv in Hr as (? & mm & -> & ->%matches_Lit & Hm).
  apply matches_seq_inv in Hm as (? & ? & -> & (c & -> & Hc)%matches_char_inv & (d & -> & Hd)%matches_char_inv).
  destruct (digit_range _ _ _ Hc) as [Hc1 Hc2]; [by apply Nat.leb_le|by apply Nat.leb_le|].
  destruct (digit_range _ _ _ Hd) as [_ Hd2]; [by apply Nat.leb_le|by apply Nat.leb_le|].
  assert (10 * digit_val c + digit_val d < 60)%nat as Hlt'.
  { revert Hc2 Hd2. change (Ascii.nat_of_ascii "5" - 48) with 5. change (Ascii.nat_of_ascii "9" - 48) with 9. lia. }
  assert (∀ sg, Ascii.eqb sg "Z" = false →
    read_offset (String sg (String a (String b (String ":" (String c (String d "")))))) =
    let off := ((Z.of_nat (10 * digit_val a + digit_val b) * 60
                 + Z.of_nat (10 * digit_val c + digit_val d)) * 60)%Z in
    if Ascii.eqb sg "+" then Some off else if Ascii.eqb sg "-" then Some (- off)%Z else None) as E.
  { intros sg Hsg. unfold read_offset. rewrite Hsg. cbn [read_digits mbind option_bind snd fst].
    rewrite Ha, Hb. cbn [mbind option_bind fst snd]. rewrite read_byte_eq.
    cbn [mbind option_bind fst snd read_digits]. rewrite Hc1, Hd. cbn [mbind option_bind fst snd].
    rewrite Nat.mul_0_r, !Nat.add_0_l.
    apply Nat.ltb_lt in Hlt as ->. apply Nat.ltb_lt in Hlt' as ->. done. }
  apply matches_alt_inv in Hsign as [->%matches_Lit| ->%matches_Lit]; cbn [String.append];
    rewrite E by done; by eexists.
Qed.

Lemma offset_first s : matches offset_regex s → ∃ c r, s = String c r ∧ c ∈ ["Z"; "+"; "-"]%char.
Proof.
  intros [->%matches_Lit|(sign & r & -> & Hsign & _)%matches_seq_inv]%matches_alt_inv.
  { exists "Z"%char, "". set_solver. }
  apply matches_alt_inv in Hsign as [->%matches_Lit| ->%matches_Lit]; cbn [String.append];
    eexists _, _; (split; [done|]); set_solver.
Qed.

(** So is the whole time stamp, when its date and clock are. *)
Lemma instant_RFC3339_matched_Some s :
  matches rfc3339Timestamp s → parse_RFC3339_matched s = true → is_Some (instant_RFC3339_matched s).
Proof.
  intros Hm Hp. unfold parse_RFC3339_matched in Hp.
  destruct (read_date s) as [d|] eqn:Ed; [|done]. cbn [mbind option_bind] in Hp.
  destruct (read_byte "T" d.2) as [t|] eqn:Et; [|done]. cbn [mbind option_bind] in Hp.
  destruct (read_clock t) as [c|] eqn:Ec; [|done]. clear Hp.
  assert (matches (Opt (Lit "." ⋅ Plus Digit) ⋅ offset_regex) c.2) as Hrest.
  { rewrite (read_clock_skip _ _ Ec), (read_byte_skip _ _ _ Et), (read_date_skip _ _ Ed), !skip_skip.
    unfold rfc3339Timestamp in Hm.
    repeat first [apply matches_Rep_skip in Hm | apply matches_Lit_skip in Hm].
    by rewrite !skip_skip in Hm. }
  unfold instant_RFC3339_matched. rewrite Ed. cbn [mbind option_bind]. rewrite Et. cbn [mbind option_bind].
  rewrite Ec. cbn [mbind option_bind].
  apply matches_seq_inv in Hrest as (f & o & E & Hf & Ho). rewrite E.
  assert (∃ n, read_fraction (f +:+ o) = (n, o)) as [n ->].
  { apply matches_alt_inv in Hf as [->%matches_eps_inv|Hf].
    - exists 0%Z. destruct (offset_first o Ho) as (x & r & -> & Hx).
      rewrite !elem_of_cons in Hx. by destruct Hx as [->|[->|[->|?%not_elem_of_nil]]].
    - apply matches_seq_inv in Hf as (? & ds & -> & ->%matches_Lit & [Hne Hd]%matches_Plus_Char).
      exists (fraction 9 ds). cbn [String.append read_fraction].
      destruct (offset_first o Ho) as (x & r & -> & Hx). rewrite span_digits_app; [done|done|].
      rewrite !elem_of_cons in Hx. by destruct Hx as [->|[->|[->|?%not_elem_of_nil]]]. }
  destruct (read_offset_matched o Ho) as [off ->]. destruct c as [[[h m] sec] r]. by eexists.
Qed.
