(* ===== verification/ValidateFilters.v ===== *)
(** * Validation of filters ([internal/validations/observability/filters])

    [regexp.Compile] of a pattern of the spec is a parameter: whether the pattern
    compiles. *)

From S2P Require Import Prelude GoStrings Regex GoTime ApiCommon ApiFilters ApiForwarder Sets.
From S2P Require Import Conditions ObsResources ObsForwarder ValidateCommon.

Open Scope re.

(** One segment of a path after its dot: letters, digits and underscores, or any
    non-empty text between double quotes. *)
Definition path_char (c : ascii) : bool := is_alnum c || Ascii.eqb c "_".
Definition not_dquote (c : ascii) : bool := negb (Ascii.eqb c dquote).

Definition path_segment : regex :=
  (Lit "." ⋅ Plus (Char path_char)) ∣ (Lit "." ⋅ Lit DQ ⋅ Plus (Char not_dquote) ⋅ Lit DQ).

Definition pathExpRegex : regex := path_segment ⋅ Star path_segment.

Definition validateFieldPath (path : FieldPath) : string :=
  if negb (HasPrefix path ".") then Quote path +:+ " must start with a '.'"
  else if negb (fullmatch pathExpRegex path) then
    Quote path +:+ " must be a valid dot delimited path expression (.kubernetes.container_name or .kubernetes."
      +:+ DQ +:+ "test-foo" +:+ DQ +:+ ")"
  else
    let msg := ValidateTOMLLiteralSafe ("field path " +:+ Quote path) path in
    if msg != "" then msg else "".

Definition validateOlderThan (value : string) : string :=
  let bad := "invalid olderThan " +:+ Quote value +:+
    ": must be a valid YYYY-MM-DD or RFC3339 timestamp with an explicit offset" in
  if parse_DateOnly value then ""
  else if fullmatch rfc3339Timestamp value then
    if parse_RFC3339_matched value then "" else bad
  else bad.

Section filters.
Context (regexp_compiles : string → bool).

Definition validateDropCondition (condition : DropCondition) : list string :=
  if dc_OlderThan condition != "" then
    let err := validateOlderThan (dc_OlderThan condition) in
    if err != "" then [err] else []
  else
    let err := validateFieldPath (dc_Field condition) in
    (if err != "" then [err] else [])
    ++ (if (dc_Matches condition != "") && (dc_NotMatches condition != "")
        then ["only one of matches or notMatches can be defined at once"] else [])
    ++ (if ContainsAny (dc_Matches condition) ("'" +:+ LF +:+ CR)
           || ContainsAny (dc_NotMatches condition) ("'" +:+ LF +:+ CR)
        then ["matches/notMatches must not contain single quotes, newlines, or carriage returns"]
        else [])
    ++ (let regexToCompile :=
          if dc_NotMatches condition != "" then dc_NotMatches condition
          else dc_Matches condition in
        if negb (regexp_compiles regexToCompile)
        then ["matches/notMatches must be a valid regular expression"] else []).

Definition validateDropTest (name : string) (i : nat) (dropTest : DropTest) : list string :=
  let testErrors :=
    (if (length (dt_DropConditions dropTest) =? 0)%nat
     then ["a drop test must have at least one condition"] else [])
    ++ (c ← dt_DropConditions dropTest; validateDropCondition c) in
  if negb (length testErrors =? 0)%nat
  then [name +:+ ": test[" +:+ Itoa_nat i +:+ "] " +:+ Sprint_strings testErrors] else [].

Definition validateDropFilter (filterSpec : FilterSpec) : list string :=
  (if (length (filter_DropTestsSpec filterSpec) =? 0)%nat
   then [Quote (filter_Name filterSpec) +:+ " drop filter must have at least one test spec'd"]
   else [])
  ++ mjoin (imap (validateDropTest (filter_Name filterSpec)) (filter_DropTestsSpec filterSpec)).
End filters.

Definition requiredFields : list FieldPath := [".log_type"; ".log_source"; ".message"].

Definition validateRequiredFields `{RangeOrder} (fieldList : list FieldPath) (pruneType : string) :
    string :=
  let required := NewString requiredFields in
  if pruneType == "in" then
    let foundInList := filter (λ field, Has required field = true) fieldList in
    if negb (length foundInList =? 0)%nat
    then Sprint_quoted foundInList +:+ " is/are required fields and must be removed from the `in` list."
    else ""
  else
    let required := foldl (λ required field,
      if Has required field then required ∖ {[ field ]} else required) required fieldList in
    if negb (size required =? 0)%nat
    then Sprint_quoted (SortedList required) +:+
           " is/are required fields and must be included in the `notIn` list."
    else "".

Section prune.
Context `{RangeOrder}.

(** The checks of one of the two lists; a nil list is not checked. *)
Definition validatePruneList (fields : option (list FieldPath)) (pruneType : string) : list string :=
  match fields with
  | None => []
  | Some fields =>
      (fieldPath ← fields;
       let err := validateFieldPath fieldPath in if err != "" then [err] else [])
      ++ (let valMsg := validateRequiredFields fields pruneType in
          if valMsg != "" then [valMsg] else [])
  end.

Definition validatePruneFilter (filterSpec : FilterSpec) : list string :=
  match filter_PruneFilterSpec filterSpec with
  | None => [filter_Name filterSpec +:+ " prune filter must have one or both of `in`, `notIn`"]
  | Some prune =>
      let errList := validatePruneList (prune_In prune) "in"
        ++ validatePruneList (prune_NotIn prune) "notIn" in
      if negb (length errList =? 0)%nat
      then [filter_Name filterSpec +:+ ": " +:+ Sprint_strings errList] else []
  end.
End prune.

(** The closures [checkOne] and [check]. *)
Definition audit_checkOne (kind v : string) : list string :=
  let msg := ValidateTOMLLiteralSafe ("kubeAPIAudit " +:+ kind +:+ " " +:+ Quote v) v in
  if msg != "" then [msg] else [].

Definition audit_check (kind : string) (values : list string) : list string :=
  v ← values; audit_checkOne kind v.

Definition audit_check_rule (rule : PolicyRule) : list string :=
  audit_checkOne "level" (rule_Level rule)
  ++ (s ← rule_OmitStages rule; audit_checkOne "rule omitStage" s)
  ++ audit_check "user" (rule_Users rule)
  ++ audit_check "userGroup" (rule_UserGroups rule)
  ++ audit_check "verb" (rule_Verbs rule)
  ++ audit_check "namespace" (rule_Namespaces rule)
  ++ audit_check "nonResourceURL" (rule_NonResourceURLs rule)
  ++ (gr ← rule_Resources rule;
      audit_checkOne "resource group" (gr_Group gr)
      ++ audit_check "resource" (gr_Resources gr)
      ++ audit_check "resourceName" (gr_ResourceNames gr)).

Definition summarize (name : string) (results : list string) : list string :=
  if (0 <? length results)%nat then [name +:+ ": " +:+ Sprint_strings results] else results.

Definition validateKubeAPIAuditFilter (filterSpec : FilterSpec) : list string :=
  match filter_KubeAPIAudit filterSpec with
  | None => []
  | Some audit =>
      summarize (filter_Name filterSpec)
        ((s ← kaa_OmitStages audit; audit_checkOne "omitStage" s)
         ++ (rule ← kaa_Rules audit; audit_check_rule rule))
  end.

Definition label_check (kv : string * string) : list string :=
  (let msg := ValidateTOMLLiteralSafe ("openshiftLabels key " +:+ Quote kv.1) kv.1 in
   if msg != "" then [msg] else [])
  ++ (let msg := ValidateTOMLLiteralSafe ("openshiftLabels value " +:+ Quote kv.2) kv.2 in
      if msg != "" then [msg] else []).

Definition validateOpenshiftLabelsFilter `{RangeOrder} (filterSpec : FilterSpec) : list string :=
  summarize (filter_Name filterSpec)
    (kv ← range (filter_OpenshiftLabels filterSpec); label_check kv).

Definition cond_fail (c : Condition) (message : string) : Condition := {|
  cond_Type := cond_Type c; cond_Status := ConditionFalse;
  cond_Reason := ReasonValidationFailure; cond_Message := message;
  cond_LastTransitionTime := cond_LastTransitionTime c |}.

Section validate.
Context `{RangeOrder} (regexp_compiles : string → bool) (now : Z).

Definition filter_errors (spec : FilterSpec) : list string :=
  if filter_Type spec == FilterTypeDrop then validateDropFilter regexp_compiles spec
  else if filter_Type spec == FilterTypePrune then validatePruneFilter spec
  else if filter_Type spec == FilterTypeKubeAPIAudit then validateKubeAPIAuditFilter spec
  else if filter_Type spec == FilterTypeOpenshiftLabels then validateOpenshiftLabelsFilter spec
  else [].

Definition ValidateFilter (spec : FilterSpec) : Condition :=
  let results := filter_errors spec in
  let condition := NewConditionFromPrefix now ConditionTypeValidFilterPrefix (filter_Name spec)
    true ReasonValidationSuccess ("filter " +:+ Quote (filter_Name spec) +:+ " is valid") in
  if (0 <? length results)%nat then cond_fail condition (Join results ",") else condition.

(** [filters.Validate] *)
Definition Validate (context : ForwarderContext) : ForwarderContext :=
  let filterMap := FilterMap (ctx_Spec context) in
  foldl (λ context kv,
      ctx_set_Status context (st_set_FilterConditions (ctx_Status context)
        (SetCondition now (st_FilterConditions (ctx_Status context)) (ValidateFilter kv.2)).1))
    context (range filterMap).
End validate.

(** ** The paths the validation accepts *)

(** A segment of a path: a bare name or a quoted one. *)
Inductive segment : Type :=
  | Bare (s : string)
  | Quoted (s : string).

Definition segment_text (g : segment) : string :=
  match g with Bare s => s | Quoted s => DQ +:+ s +:+ DQ end.

Definition render_path (l : list segment) : string :=
  foldr (λ g p, "." +:+ segment_text g +:+ p) "" l.

Definition segment_ok (g : segment) : Prop :=
  match g with
  | Bare s => s ≠ "" ∧ string_forallb path_char s = true
  | Quoted s => s ≠ "" ∧ string_forallb not_dquote s = true
  end.

(** A path that is a non-empty sequence of segments, each after a dot. *)
Definition path_of (l : list segment) (p : string) : Prop :=
  l ≠ [] ∧ Forall segment_ok l ∧ p = render_path l.

Definition path_ok (p : string) : Prop := (∃ l, path_of l p) ∧ toml_safe p.

Lemma matches_path_segment p :
  matches path_segment p ↔ ∃ g, segment_ok g ∧ p = "." +:+ segment_text g.
Proof.
  unfold path_segment. rewrite matches_alt_inv. split.
  - intros [(d & s & -> & ->%matches_Lit & [? ?]%matches_Plus_Char)%matches_seq_inv
           |(d & t & -> & ->%matches_Lit & Ht)%matches_seq_inv].
    { by exists (Bare s). }
    apply matches_seq_inv in Ht as (q & u & -> & ->%matches_Lit & Hu).
    apply matches_seq_inv in Hu as (s & q' & -> & [? ?]%matches_Plus_Char & ->%matches_Lit).
    by exists (Quoted s).
  - intros ([s|s] & [Hne Hs] & ->); [left|right].
    + apply matches_seq_inv. exists ".", s. by rewrite matches_Lit, matches_Plus_Char.
    + apply matches_seq_inv. exists ".", (DQ +:+ s +:+ DQ). rewrite matches_Lit. do 2 (split; [done|]).
      apply matches_seq_inv. exists DQ, (s +:+ DQ). rewrite matches_Lit. do 2 (split; [done|]).
      apply matches_seq_inv. exists s, DQ. by rewrite matches_Lit, matches_Plus_Char.
Qed.

Lemma matches_Star_segment p :
  matches (Star path_segment) p ↔ ∃ l, Forall segment_ok l ∧ p = render_path l.
Proof.
  split.
  - intros H. remember (Star path_segment) as r eqn:E.
    induction H as [| | | | |r|r s1 s2 H1 _ H2 IH]; try done.
    { by exists []. }
    injection E as ->. destruct (IH eq_refl) as (l & Hl & ->).
    apply matches_path_segment in H1 as (g & Hg & ->).
    exists (g :: l). split; [by constructor|]. done.
  - intros (l & Hl & ->). induction Hl as [|g l Hg Hl IH]; simpl; [constructor|].
    change (String "." (segment_text g +:+ render_path l)) with (("." +:+ segment_text g) +:+ render_path l).
    constructor; [|done].
    apply matches_path_segment. eauto.
Qed.

(** The pattern accepts exactly the non-empty sequences of segments. *)
Lemma matches_pathExpRegex p : fullmatch pathExpRegex p = true ↔ ∃ l, path_of l p.
Proof.
  rewrite fullmatch_spec. unfold pathExpRegex. rewrite matches_seq_inv. split.
  - intros (s1 & s2 & -> & (g & Hg & ->)%matches_path_segment & (l & Hl & ->)%matches_Star_segment).
    exists (g :: l). split_and!; [done|by constructor|]. done.
  - intros ([|g l] & Hne & Hall & ->); [done|]. apply Forall_cons in Hall as [Hg Hl].
    exists ("." +:+ segment_text g), (render_path l). split_and!.
    + simpl. done.
    + apply matches_path_segment. eauto.
    + apply matches_Star_segment. eauto.
Qed.

Lemma path_of_dot l p : path_of l p → HasPrefix p "." = true.
Proof.
  intros (Hne & _ & ->). destruct l as [|g l]; [done|]. simpl.
  apply HasPrefix_spec. by eexists.
Qed.

Lemma validateFieldPath_ok p : validateFieldPath p = "" ↔ path_ok p.
Proof.
  unfold validateFieldPath, path_ok.
  destruct (HasPrefix p ".") eqn:Hdot; simpl.
  2: { split; [intros [=]|].
       intros [[l Hl%path_of_dot] _]. congruence. }
  destruct (fullmatch pathExpRegex p) eqn:Hm; simpl.
  2: { split; [intros [=]|].
       intros [Hl%matches_pathExpRegex _]. congruence. }
  apply matches_pathExpRegex in Hm.
  match goal with |- context [ValidateTOMLLiteralSafe ?f p] =>
    pose proof (ValidateTOMLLiteralSafe_spec f p) as Hs; generalize dependent
      (ValidateTOMLLiteralSafe f p) end.
  intros msg Hs. destruct (String.eqb_spec msg ""); simpl; tauto.
Qed.

(** ** The filters the validation accepts *)

Lemma summarize_nil name results : summarize name results = [] ↔ results = [].
Proof. by destruct results. Qed.

Definition older_than_ok (v : string) : Prop :=
  is_Some (parse_DateOnly v) ∨
  (matches rfc3339Timestamp v ∧ parse_RFC3339_matched v = true).

Lemma validateOlderThan_ok v : validateOlderThan v = "" ↔ older_than_ok v.
Proof.
  unfold validateOlderThan, older_than_ok. rewrite <-fullmatch_spec.
  destruct (parse_DateOnly v) as [d|]; [split; [by left|done]|].
  destruct (fullmatch rfc3339Timestamp v), (parse_RFC3339_matched v); simpl;
    (split; [try (intros [=]); by right|intros [[? [=]]|[? ?]]; done]).
Qed.

(** A pattern without the quote that ends it in VRL and without line breaks. *)
Definition pattern_safe (s : string) : Prop := ContainsAny s ("'" +:+ LF +:+ CR) = false.

Section filter_ok.
Context (regexp_compiles : string → bool).

Definition drop_condition_ok (c : DropCondition) : Prop :=
  if decide (dc_OlderThan c = "") then
    path_ok (dc_Field c) ∧ (dc_Matches c = "" ∨ dc_NotMatches c = "") ∧
    pattern_safe (dc_Matches c) ∧ pattern_safe (dc_NotMatches c) ∧
    regexp_compiles (if dc_NotMatches c == "" then dc_Matches c else dc_NotMatches c) = true
  else older_than_ok (dc_OlderThan c).

Definition drop_ok (f : FilterSpec) : Prop :=
  filter_DropTestsSpec f ≠ [] ∧
  ∀ t, t ∈ filter_DropTestsSpec f →
    dt_DropConditions t ≠ [] ∧ ∀ c, c ∈ dt_DropConditions t → drop_condition_ok c.

Definition prune_ok (f : FilterSpec) : Prop :=
  ∃ p, filter_PruneFilterSpec f = Some p ∧
    (∀ l, prune_In p = Some l →
       ∀ x, x ∈ l → path_ok x ∧ x ∉ requiredFields) ∧
    (∀ l, prune_NotIn p = Some l →
       (∀ x, x ∈ l → path_ok x) ∧ requiredFields ⊆ l).

(** Every string of an audit policy that ends up in the generated program. *)
Definition rule_strings (r : PolicyRule) : list string :=
  rule_Level r :: rule_OmitStages r ++ rule_Users r ++ rule_UserGroups r ++ rule_Verbs r
  ++ rule_Namespaces r ++ rule_NonResourceURLs r
  ++ (gr ← rule_Resources r; gr_Group gr :: gr_Resources gr ++ gr_ResourceNames gr).

Definition audit_strings (a : KubeAPIAudit) : list string :=
  kaa_OmitStages a ++ (r ← kaa_Rules a; rule_strings r).

Definition audit_ok (f : FilterSpec) : Prop :=
  ∀ a s, filter_KubeAPIAudit f = Some a → s ∈ audit_strings a → toml_safe s.

Definition labels_ok (f : FilterSpec) : Prop :=
  ∀ k v, filter_OpenshiftLabels f !! k = Some v → toml_safe k ∧ toml_safe v.

Definition filter_ok (f : FilterSpec) : Prop :=
  (filter_Type f = FilterTypeDrop → drop_ok f) ∧
  (filter_Type f = FilterTypePrune → prune_ok f) ∧
  (filter_Type f = FilterTypeKubeAPIAudit → audit_ok f) ∧
  (filter_Type f = FilterTypeOpenshiftLabels → labels_ok f).

(** *** Drop filters *)

Lemma validateDropCondition_nil c :
  validateDropCondition regexp_compiles c = [] ↔ drop_condition_ok c.
Proof.
  unfold validateDropCondition, drop_condition_ok, pattern_safe.
  destruct (String.eqb_spec (dc_OlderThan c) "") as [E|E]; simpl.
  - rewrite decide_True by done.
    rewrite !app_nil, message_nil, validateFieldPath_ok, !if_nil, orb_false_iff, negb_false_iff.
    rewrite andb_false_iff, !negb_false_iff, !String.eqb_eq.
    destruct (String.eqb_spec (dc_NotMatches c) ""); simpl; tauto.
  - rewrite decide_False by done. by rewrite message_nil, validateOlderThan_ok.
Qed.

Lemma validateDropTest_nil name i t :
  validateDropTest regexp_compiles name i t = [] ↔
  dt_DropConditions t ≠ [] ∧ ∀ c, c ∈ dt_DropConditions t → drop_condition_ok c.
Proof.
  unfold validateDropTest. rewrite if_nil, negb_false_iff, Nat.eqb_eq, length_zero_iff_nil.
  rewrite app_nil, if_nil, Nat.eqb_neq, length_zero_iff_nil, bind_nil_iff.
  setoid_rewrite validateDropCondition_nil. done.
Qed.

Lemma validateDropFilter_nil f : validateDropFilter regexp_compiles f = [] ↔ drop_ok f.
Proof.
  unfold validateDropFilter, drop_ok.
  rewrite app_nil, if_nil, Nat.eqb_neq, length_zero_iff_nil, mjoin_nil.
  apply and_iff_compat_l. split.
  - intros Hall t Ht. apply list_elem_of_lookup in Ht as [i Hi].
    apply (validateDropTest_nil (filter_Name f) i), Hall.
    apply list_elem_of_lookup. exists i. by rewrite list_lookup_imap, Hi.
  - intros Hall x (i & t & -> & Hi)%elem_of_lookup_imap.
    apply validateDropTest_nil, Hall. apply list_elem_of_lookup. eauto.
Qed.
End filter_ok.

(** *** Prune filters *)

Section prune_ok.
Context `{RangeOrder}.

Lemma validateRequiredFields_in l :
  validateRequiredFields l "in" = "" ↔ ∀ x, x ∈ l → x ∉ requiredFields.
Proof.
  unfold validateRequiredFields. simpl.
  destruct (filter _ l) as [|x xs] eqn:E; simpl.
  - split; [|done]. intros _ x Hx Hr.
    assert (x ∈ filter (λ field, Has (NewString requiredFields) field = true) l) as Hin.
    { apply list_elem_of_filter. rewrite Has_NewString, bool_decide_eq_true. done. }
    unfold requiredFields in *. rewrite E in Hin. by apply not_elem_of_nil in Hin.
  - split; [intros [=]|]. intros Hall. exfalso.
    assert (x ∈ filter (λ field, Has (NewString requiredFields) field = true) l) as Hin.
    { unfold requiredFields in *. rewrite E. set_solver. }
    apply list_elem_of_filter in Hin as [Hh Hl].
    rewrite Has_NewString, bool_decide_eq_true in Hh. by apply (Hall x).
Qed.

Lemma required_left (s : gset string) (l : list string) x :
  x ∈ foldl (λ required field,
    if Has required field then required ∖ {[ field ]} else required) s l ↔ x ∈ s ∧ x ∉ l.
Proof.
  revert s. induction l as [|y l IH]; intros s; simpl; [set_solver|].
  rewrite IH. unfold Has. case_bool_decide; set_solver.
Qed.

Lemma validateRequiredFields_notIn l :
  validateRequiredFields l "notIn" = "" ↔ requiredFields ⊆ l.
Proof.
  unfold validateRequiredFields. simpl (_ == _). cbn iota.
  pose proof (required_left (NewString requiredFields) l) as Hleft.
  match type of Hleft with context [foldl ?f ?s l] => generalize dependent (foldl f s l) end.
  intros left Hleft.
  destruct (Nat.eqb_spec (size left) 0) as [E|E]; simpl negb; cbn iota.
  - apply size_empty_inv in E. split; [|done]. intros _ x Hx.
    destruct (decide (x ∈ l)) as [|Hn]; [done|]. exfalso.
    apply (not_elem_of_empty (C := gset string) x). rewrite <-E. apply Hleft.
    by rewrite elem_of_NewString.
  - split; [intros [=]|]. intros Hsub. destruct E. apply size_empty_iff.
    intros x. split; [|set_solver]. rewrite Hleft, elem_of_NewString. intros [Hx Hn].
    by apply Hsub in Hx.
Qed.

Lemma fieldPaths_nil (l : list FieldPath) :
  (fieldPath ← l; let err := validateFieldPath fieldPath in if err != "" then [err] else []) = []
  ↔ ∀ x, x ∈ l → path_ok x.
Proof.
  rewrite bind_nil_iff. cbn zeta. setoid_rewrite message_nil.
  setoid_rewrite validateFieldPath_ok. done.
Qed.

Lemma validatePruneFilter_nil f : validatePruneFilter f = [] ↔ prune_ok f.
Proof.
  unfold validatePruneFilter, prune_ok.
  destruct (filter_PruneFilterSpec f) as [p|]; [|split; [done|by intros (? & [=] & _)]].
  rewrite if_nil, negb_false_iff, Nat.eqb_eq, length_zero_iff_nil, app_nil.
  unfold validatePruneList.
  assert (∀ t l, (fieldPath ← l;
      let err := validateFieldPath fieldPath in if err != "" then [err] else []) ++
      (let valMsg := validateRequiredFields l t in if valMsg != "" then [valMsg] else []) = []
      ↔ (∀ x, x ∈ l → path_ok x) ∧ validateRequiredFields l t = "") as Hlist.
  { intros t l. cbn zeta. by rewrite app_nil, fieldPaths_nil, message_nil. }
  split.
  - intros [Hin Hnot]. exists p. split; [done|]. split.
    + intros l Hl x Hx. rewrite Hl in Hin.
      apply Hlist in Hin as [Hp Hr]. rewrite validateRequiredFields_in in Hr. auto.
    + intros l Hl. rewrite Hl in Hnot.
      apply Hlist in Hnot as [Hp Hr]. by rewrite validateRequiredFields_notIn in Hr.
  - intros (p' & [= <-] & Hin & Hnot). split.
    + destruct (prune_In p) as [l|]; [|done]. apply Hlist.
      rewrite validateRequiredFields_in. split; intros x Hx; by apply (Hin l eq_refl x).
    + destruct (prune_NotIn p) as [l|]; [|done]. apply Hlist.
      rewrite validateRequiredFields_notIn. by apply Hnot.
Qed.
End prune_ok.

(** *** Audit policies and labels *)

Lemma audit_checkOne_nil kind v : audit_checkOne kind v = [] ↔ toml_safe v.
Proof. unfold audit_checkOne. cbn zeta. by rewrite message_nil, ValidateTOMLLiteralSafe_spec. Qed.

Lemma audit_check_nil kind l : (v ← l; audit_checkOne kind v) = [] ↔ ∀ s, s ∈ l → toml_safe s.
Proof. rewrite bind_nil_iff. by setoid_rewrite audit_checkOne_nil. Qed.

Lemma audit_check_rule_nil r : audit_check_rule r = [] ↔ ∀ s, s ∈ rule_strings r → toml_safe s.
Proof.
  unfold audit_check_rule, rule_strings, audit_check.
  rewrite !app_nil, !audit_check_nil, audit_checkOne_nil.
  rewrite forall_cons_iff, !forall_app_iff, bind_nil_iff, forall_bind_iff.
  setoid_rewrite app_nil. setoid_rewrite app_nil.
  setoid_rewrite audit_checkOne_nil. setoid_rewrite audit_check_nil.
  setoid_rewrite forall_cons_iff. setoid_rewrite forall_app_iff. done.
Qed.

Lemma validateKubeAPIAuditFilter_nil f : validateKubeAPIAuditFilter f = [] ↔ audit_ok f.
Proof.
  unfold validateKubeAPIAuditFilter, audit_ok.
  destruct (filter_KubeAPIAudit f) as [a|]; [|by split; [intros _ ? ? [=]|]].
  rewrite summarize_nil, app_nil, audit_check_nil, bind_nil_iff.
  setoid_rewrite audit_check_rule_nil. unfold audit_strings. split.
  - intros [H1 H2] ? s [= <-]. revert s. rewrite forall_app_iff, forall_bind_iff. done.
  - intros Hall. specialize (λ s, Hall a s eq_refl).
    by rewrite forall_app_iff, forall_bind_iff in Hall.
Qed.

Lemma validateOpenshiftLabelsFilter_nil `{RangeOrder} f :
  validateOpenshiftLabelsFilter f = [] ↔ labels_ok f.
Proof.
  unfold validateOpenshiftLabelsFilter, labels_ok. rewrite summarize_nil, bind_nil_iff.
  unfold label_check. cbn zeta. setoid_rewrite app_nil. setoid_rewrite message_nil.
  setoid_rewrite ValidateTOMLLiteralSafe_spec. split.
  - intros Hall k v Hk. by apply (Hall (k, v)), elem_of_range.
  - intros Hall [k v] Hk%elem_of_range. by apply Hall.
Qed.

(** *** All filters *)

Section valid.
Context `{RangeOrder} (regexp_compiles : string → bool) (now : Z).

Lemma filter_errors_nil f : filter_errors regexp_compiles f = [] ↔ filter_ok regexp_compiles f.
Proof.
  unfold filter_errors, filter_ok.
  destruct (String.eqb_spec (filter_Type f) FilterTypeDrop) as [E|N1].
  { rewrite validateDropFilter_nil, E.
    split; [by intros ?|intros (Hd & _); by apply Hd]. }
  destruct (String.eqb_spec (filter_Type f) FilterTypePrune) as [E|N2].
  { rewrite validatePruneFilter_nil, E.
    split; [by intros ?|intros (_ & Hd & _); by apply Hd]. }
  destruct (String.eqb_spec (filter_Type f) FilterTypeKubeAPIAudit) as [E|N3].
  { rewrite validateKubeAPIAuditFilter_nil, E.
    split; [by intros ?|intros (_ & _ & Hd & _); by apply Hd]. }
  destruct (String.eqb_spec (filter_Type f) FilterTypeOpenshiftLabels) as [E|N4].
  { rewrite validateOpenshiftLabelsFilter_nil, E.
    split; [by intros ?|intros (_ & _ & _ & Hd); by apply Hd]. }
  by split.
Qed.

Lemma ValidateFilter_type f :
  cond_Type (ValidateFilter regexp_compiles now f) =
  prefixed ConditionTypeValidFilterPrefix (filter_Name f).
Proof. unfold ValidateFilter. by case_match. Qed.

Lemma ValidateFilter_status f :
  cond_Status (ValidateFilter regexp_compiles now f) = ConditionTrue ↔ filter_ok regexp_compiles f.
Proof.
  rewrite <-filter_errors_nil. unfold ValidateFilter.
  destruct (filter_errors regexp_compiles f); simpl; split; done.
Qed.
End valid.

(** *** The status of the filters *)

Section status.
Context `{RangeOrder} (regexp_compiles : string → bool) (now : Z).

(** The loop only adds conditions to the status of the filters. *)
Lemma Validate_conditions context :
  Validate regexp_compiles now context =
  ctx_set_Status context (st_set_FilterConditions (ctx_Status context)
    (SetConditions now (st_FilterConditions (ctx_Status context))
      (ValidateFilter regexp_compiles now <$> (range (FilterMap (ctx_Spec context))).*2))).
Proof.
  unfold Validate, SetConditions. generalize (range (FilterMap (ctx_Spec context))).
  intros l. revert context. induction l as [|[k f] l IH]; intros context; cbn [foldl fmap list_fmap].
  - by destruct context as [[? ? []]].
  - rewrite IH. done.
Qed.

Lemma FilterMap_values (spec : ClusterLogForwarderSpec) :
  NoDup (filter_Name <$> spec_Filters spec) →
  (range (FilterMap spec)).*2 ≡ₚ spec_Filters spec.
Proof.
  intros Hnd. unfold FilterMap.
  assert (range (map_of_assignments ((λ f, (filter_Name f, f)) <$> spec_Filters spec))
    ≡ₚ (λ f, (filter_Name f, f)) <$> spec_Filters spec) as ->.
  - apply NoDup_Permutation.
    + eapply NoDup_fmap_1, NoDup_range_fst.
    + apply (NoDup_fmap_1 fst). by rewrite <-list_fmap_compose.
    + intros [k f]. rewrite elem_of_range, map_of_assignments_NoDup; [done|].
      by rewrite <-list_fmap_compose.
  - rewrite <-list_fmap_compose. by rewrite list_fmap_id.
Qed.

(** The filters of a forwarder whose status has no stale conditions are valid,
    as [IsValidSpec] sees it, exactly when each of them is. *)
Lemma Validate_isValid context :
  let spec := ctx_Spec context in
  let old := st_FilterConditions (ctx_Status context) in
  NoDup (filter_Name <$> spec_Filters spec) → NoDup (types old) →
  (∀ ty, ty ∈ types old →
     ty ∈ prefixed ConditionTypeValidFilterPrefix <$> (filter_Name <$> spec_Filters spec)) →
  isValid ConditionTypeValidFilterPrefix
    (st_FilterConditions (ctx_Status (Validate regexp_compiles now context)))
    (length (spec_Filters spec)) = true ↔
  ∀ f, f ∈ spec_Filters spec → filter_ok regexp_compiles f.
Proof.
  cbn zeta. intros Hnd Hold Hstale. rewrite Validate_conditions. simpl.
  rewrite <-(length_fmap filter_Name). rewrite parts_isValid; [|done..|].
  - setoid_rewrite list_elem_of_fmap. setoid_rewrite FilterMap_values; [|done]. split.
    + intros Hall f Hf. apply (ValidateFilter_status _ now), Hall. eauto.
    + intros Hall c (f & -> & Hf). by apply ValidateFilter_status, Hall.
  - unfold types. rewrite <-!list_fmap_compose, <-(FilterMap_values _ Hnd) at 1.
    rewrite <-!list_fmap_compose. apply Permutation_refl'.
    apply list_fmap_ext. intros i [k f] _. apply ValidateFilter_type.
Qed.
End status.

(** ** The grammar of field paths *)

(** Bare text up to the next dot is determined by the path. *)
Lemma bare_split s1 s2 t1 t2 :
  string_forallb path_char s1 = true → string_forallb path_char s2 = true →
  s1 +:+ t1 = s2 +:+ t2 → (t1 = "" ∨ HasPrefix t1 "." = true) → (t2 = "" ∨ HasPrefix t2 "." = true) →
  s1 = s2 ∧ t1 = t2.
Proof.
  assert (∀ c s t, path_char c = true → t = "" ∨ HasPrefix t "." = true → String c s ≠ t) as Hno.
  { intros c s t Hc [->|(u & ->)%HasPrefix_spec]; [done|]. intros E. injection E as -> _. by vm_compute in Hc. }
  revert s2. induction s1 as [|c s1 IH]; intros [|d s2]; simpl; intros H1 H2 E D1 D2.
  - done.
  - apply andb_true_iff in H2 as [Hd _]. by destruct (Hno d (s2 +:+ t2) t1 Hd D1).
  - apply andb_true_iff in H1 as [Hc _]. by destruct (Hno c (s1 +:+ t1) t2 Hc D2).
  - apply andb_true_iff in H1 as [_ H1], H2 as [_ H2]. injection E as -> E.
    by destruct (IH s2 H1 H2 E D1 D2) as [-> ->].
Qed.

(** So is quoted text up to the closing quote. *)
Lemma quoted_split s1 s2 t1 t2 :
  string_forallb not_dquote s1 = true → string_forallb not_dquote s2 = true →
  s1 +:+ (DQ +:+ t1) = s2 +:+ (DQ +:+ t2) → s1 = s2 ∧ t1 = t2.
Proof.
  revert s2. induction s1 as [|c s1 IH]; intros [|d s2]; simpl; intros H1 H2 E.
  - by injection E.
  - injection E as <- _. by vm_compute in H2.
  - injection E as -> _. by vm_compute in H1.
  - injection E as E1 E2. apply andb_true_iff in H1 as [_ H1], H2 as [_ H2]. subst d.
    by destruct (IH s2 H1 H2 E2) as [-> ->].
Qed.

Lemma render_path_start l : render_path l = "" ∨ HasPrefix (render_path l) "." = true.
Proof. destruct l as [|g l]; [by left|right]. apply HasPrefix_app. Qed.

Lemma segment_split g1 g2 t1 t2 :
  segment_ok g1 → segment_ok g2 → (t1 = "" ∨ HasPrefix t1 "." = true) →
  (t2 = "" ∨ HasPrefix t2 "." = true) →
  segment_text g1 +:+ t1 = segment_text g2 +:+ t2 → g1 = g2 ∧ t1 = t2.
Proof.
  assert (∀ s q t u, s ≠ "" → string_forallb path_char s = true → s +:+ t ≠ (DQ +:+ q +:+ DQ) +:+ u) as Hno.
  { intros [|c s] q t u; [done|]. intros _ [Hc _]%andb_true_iff E. injection E as -> _. by vm_compute in Hc. }
  destruct g1 as [s1|s1], g2 as [s2|s2]; cbn [segment_text]; intros [N1 H1] [N2 H2] D1 D2 E.
  - by destruct (bare_split s1 s2 t1 t2 H1 H2 E D1 D2) as [-> ->].
  - by destruct (Hno s1 s2 t1 t2 N1 H1).
  - by destruct (Hno s2 s1 t2 t1 N2 H2).
  - rewrite !string_app_assoc in E. apply string_app_inj_l in E.
    by destruct (quoted_split s1 s2 t1 t2 H1 H2 E) as [-> ->].
Qed.

(** The segments of a path are unique: the grammar is not ambiguous. *)
Lemma render_path_inj l1 l2 :
  Forall segment_ok l1 → Forall segment_ok l2 → render_path l1 = render_path l2 → l1 = l2.
Proof.
  intros H1. revert l2. induction H1 as [|g1 l1 Hg1 H1 IH]; intros l2 H2 E.
  { destruct l2; [done|]. by simpl in E. }
  destruct H2 as [|g2 l2 Hg2 H2]; [by simpl in E|].
  cbn [render_path foldr] in E. apply string_app_inj_l in E.
  destruct (segment_split g1 g2 (render_path l1) (render_path l2)) as [-> E']; try done;
    try apply render_path_start. f_equal. by apply IH.
Qed.

(** C20. Field paths.  The validation accepts a path exactly when it is, in one
    single way, a non-empty sequence of segments that each follow a dot and are
    either a non-empty word of letters, digits and underscores or non-empty text
    in double quotes, and when it can be put in a TOML literal. *)
Theorem validateFieldPath_correct p :
  validateFieldPath p = "" ↔
  (∃ l, path_of l p ∧ ∀ l', path_of l' p → l' = l) ∧ toml_safe p.
Proof.
  rewrite validateFieldPath_ok. unfold path_ok. split; (intros [(l & Hl) Ht]; split; [|done]).
  - exists l. split; [done|]. destruct Hl as (_ & Hall & E). intros l' (_ & Hall' & E').
    apply render_path_inj; congruence.
  - exists l. apply Hl.
Qed.

(** The verdict on a filter.  The condition of a filter is named after it and
    says true exactly when the filter is acceptable: a drop filter has tests whose
    conditions have a well-formed path and one safe pattern that compiles or a
    date; a prune filter prunes none of the required fields; the texts of audit
    policies and labels can be put in TOML literals.  The message is about the
    errors if there are any. *)
Theorem ValidateFilter_correct `{RangeOrder} regexp_compiles now f :
  let c := ValidateFilter regexp_compiles now f in
  cond_Type c = prefixed ConditionTypeValidFilterPrefix (filter_Name f) ∧
  (cond_Status c = ConditionTrue ↔ filter_ok regexp_compiles f) ∧
  (¬ filter_ok regexp_compiles f →
     cond_Status c = ConditionFalse ∧ cond_Reason c = ReasonValidationFailure ∧
     cond_Message c = Join (filter_errors regexp_compiles f) ",").
Proof.
  cbn zeta. split_and!; [apply ValidateFilter_type|apply ValidateFilter_status|].
  rewrite <-filter_errors_nil. intros Hne. unfold ValidateFilter.
  by destruct (filter_errors regexp_compiles f).
Qed.

(** ** Whether the messages are stable *)

Lemma validateRequiredFields_order (o1 o2 : RangeOrder) l t :
  @validateRequiredFields o1 l t = @validateRequiredFields o2 l t.
Proof. unfold validateRequiredFields. cbv zeta. by rewrite (SortedList_order o1 o2). Qed.

Lemma validatePruneFilter_order (o1 o2 : RangeOrder) f :
  @validatePruneFilter o1 f = @validatePruneFilter o2 f.
Proof.
  unfold validatePruneFilter, validatePruneList.
  destruct (filter_PruneFilterSpec f) as [p|]; [|done].
  destruct (prune_In p), (prune_NotIn p); cbv zeta; by rewrite ?(validateRequiredFields_order o1 o2).
Qed.

Definition example_labels : FilterSpec := {|
  filter_Name := "f"; filter_Type := FilterTypeOpenshiftLabels; filter_KubeAPIAudit := None;
  filter_DropTestsSpec := []; filter_PruneFilterSpec := None;
  filter_OpenshiftLabels := {[ "a'''" := "x"; "b'''" := "x" ]} |}.

(** Stability of the messages about a filter.  For every type of filter but the
    labels the errors, and so the condition that is compared with the stored one,
    do not depend on the order in which maps and sets are visited.  The errors of a
    labels filter do: with two bad labels the message changes from one validation
    to the next although nothing else did. *)
Theorem filter_errors_order (o1 o2 : RangeOrder) regexp_compiles :
  (∀ f, filter_Type f ≠ FilterTypeOpenshiftLabels →
     @filter_errors o1 regexp_compiles f = @filter_errors o2 regexp_compiles f) ∧
  (∃ f, @filter_errors canonical_order regexp_compiles f ≠ @filter_errors reversed_order regexp_compiles f).
Proof.
  split.
  - intros f Hf. unfold filter_errors. rewrite (validatePruneFilter_order o1 o2).
    destruct (String.eqb_spec (filter_Type f) FilterTypeOpenshiftLabels); [done|]. done.
  - exists example_labels. vm_compute. discriminate.
Qed.
