(* ===== verification/ValidateInputs.v ===== *)
(** * Validation of inputs ([internal/validations/observability/inputs]) *)

From S2P Require Import Prelude GoStrings Regex ApiCommon ApiInputs ApiForwarder Sets Conditions.
From S2P Require Import ObsResources ObsInputs ObsForwarder Initialize ValidateCommon.


Open Scope re.

(** Letters, digits, stars and dashes, from end to end. *)
Definition glob_char (c : ascii) : bool := is_alnum c || Ascii.eqb c "*" || Ascii.eqb c "-".
Definition globRE : regex := Star (Char glob_char).
Definition globRE_string : string := "^[a-zA-Z0-9\*\-]*$".

Section inputs.
Context `{RangeOrder} (now : Z).

Definition input_condition (spec : InputSpec) (met : bool) (reason message : string) : Condition :=
  NewConditionFromPrefix now ConditionTypeValidInputPrefix (in_Name spec) met reason message.

Definition input_valid (spec : InputSpec) : Condition :=
  input_condition spec true ReasonValidationSuccess
    ("input " +:+ Quote (in_Name spec) +:+ " is valid").

(** The messages on one entry of [includes] or [excludes]. *)
Definition glob_messages (list_name : string) (i : nat) (e : NamespaceContainerSpec) : list string :=
  (if negb (fullmatch globRE (nc_Namespace e))
   then [list_name +:+ "[" +:+ Itoa_nat i +:+ "].namespace"] else [])
  ++ (if negb (fullmatch globRE (nc_Container e))
      then [list_name +:+ "[" +:+ Itoa_nat i +:+ "].container"] else []).

Definition ValidateApplication (spec : InputSpec) : list Condition :=
  if in_Type spec != InputTypeApplication then []
  else match in_Application spec with
  | None => [input_condition spec false ReasonMissingSpec
               (in_Name spec +:+ " has nil application spec")]
  | Some app =>
      let messages := mjoin (imap (glob_messages "excludes") (app_Excludes app))
        ++ mjoin (imap (glob_messages "includes") (app_Includes app)) in
      if (0 <? length messages)%nat then
        let msg := "globs must match " +:+ Quote globRE_string +:+ " for: " +:+ Join messages "," in
        [input_condition spec false ReasonValidationFailure msg]
      else [input_valid spec]
  end.

Definition ValidateAudit (spec : InputSpec) : list Condition :=
  if in_Type spec != InputTypeAudit then []
  else match in_Audit spec with
  | None => [input_condition spec false ReasonMissingSpec (in_Name spec +:+ " has nil audit spec")]
  | Some _ => [input_valid spec]
  end.

Definition ValidateInfrastructure (spec : InputSpec) : list Condition :=
  if in_Type spec != InputTypeInfrastructure then []
  else match in_Infrastructure spec with
  | None => [input_condition spec false ReasonMissingSpec
               (in_Name spec +:+ " has nil infrastructure spec")]
  | Some infra =>
      if (0 <? length (infra_Sources infra))%nat
         && negb (Has (NewString (infra_Sources infra)) InfrastructureSourceContainer)
         && bool_decide (is_Some (infra_Tuning infra ⇀ iitune_Container ⇀ citune_MaxMessageSize))
      then
        let strSources := Join (infra_Sources infra) "," in
        [input_condition spec false ReasonValidationFailure
           (in_Name spec +:+ " tuning section available only for " +:+ DQ +:+ "container" +:+ DQ
              +:+ " source type, but found " +:+ strSources)]
      else [input_valid spec]
  end.

(** *** Receivers *)

Definition secret_key (secretName key : string) : string := secretName +:+ "_" +:+ key.

Definition extractSecretKeysAsSet (context : Options) : outcome (gset string) :=
  o ← GetOption as_secrets context GeneratedSecrets [];
  Ret (if (o.2 : bool) then
         foldl (λ keys secret,
           foldl (λ keys kv, {[ secret_key (secret_Name secret) kv.1 ]} ∪ keys) keys
             (range (secret_Data secret))) ∅ o.1
       else ∅).

Definition removeGeneratedSecrets (keys : list ValueReference) (skipKeys : gset string) :
    list ValueReference :=
  filter (λ k, vr_SecretName k = "" ∨ secret_key (vr_SecretName k) (vr_Key k) ∉ skipKeys) keys.

Definition ValidateReceiver (spec : InputSpec) (secrets : option Secrets)
    (configMaps : option ConfigMaps) (context : Options) : outcome (list Condition) :=
  match secrets, configMaps with
  | Some secrets, Some configMaps =>
      if in_Type spec != InputTypeReceiver then Ret []
      else match in_Receiver spec with
      | None => Ret [input_condition spec false ReasonMissingSpec
                       (in_Name spec +:+ " has nil receiver spec")]
      | Some receiver =>
          let is_http := recv_Type receiver == ReceiverTypeHTTP in
          match is_http, recv_HTTP receiver with
          | true, None =>
              Ret [input_condition spec false ReasonMissingSpec
                     (in_Name spec +:+ " has nil HTTP receiver spec")]
          | _, http =>
              if is_http && (default "" (httprecv_Format <$> http) == "") then
                Ret [input_condition spec false ReasonValidationFailure
                       (in_Name spec +:+ " does not specify a format")]
              else
                messages ← (match recv_TLS receiver with
                            | Some tlsSpec =>
                                skipKeys ← extractSecretKeysAsSet context;
                                let keys := removeGeneratedSecrets (ValueReferences tlsSpec) skipKeys in
                                Ret (ValidateValueReference keys secrets configMaps)
                            | None => Ret []
                            end);
                Ret [if (0 <? length (messages : list string))%nat
                     then input_condition spec false ReasonValidationFailure (Join messages ",")
                     else input_valid spec]
          end
      end
  | _, _ => Exit 1
  end.

(** [inputs.Validate] *)
Definition input_conditions (context : ForwarderContext) (i : InputSpec) : outcome (list Condition) :=
  if in_Type i == InputTypeApplication then Ret (ValidateApplication i)
  else if in_Type i == InputTypeInfrastructure then Ret (ValidateInfrastructure i)
  else if in_Type i == InputTypeAudit then Ret (ValidateAudit i)
  else if in_Type i == InputTypeReceiver then
    ValidateReceiver i (ctx_Secrets context) (ctx_ConfigMaps context) (ctx_AdditionalContext context)
  else Ret [].

Definition Validate (context : ForwarderContext) : outcome ForwarderContext :=
  results ← concat_mapM (input_conditions context) (spec_Inputs (ctx_Spec context));
  Ret (ctx_set_Status context (st_set_InputConditions (ctx_Status context)
         (SetConditions now (st_InputConditions (ctx_Status context)) results))).
End inputs.

(** ** The inputs the validation accepts *)

Definition glob_ok (s : string) : Prop := string_forallb glob_char s = true.

(** A key of a secret the operator is going to generate. *)
Definition generated_key (o : Options) (r : ValueReference) : Prop :=
  ∃ s k, s ∈ generated o ∧ is_Some (secret_Data s !! k) ∧
    secret_key (vr_SecretName r) (vr_Key r) = secret_key (secret_Name s) k.

Definition application_ok (i : InputSpec) : Prop :=
  ∃ app, in_Application i = Some app ∧
    ∀ e, e ∈ app_Excludes app ++ app_Includes app → glob_ok (nc_Namespace e) ∧ glob_ok (nc_Container e).

Definition infrastructure_ok (i : InputSpec) : Prop :=
  ∃ infra, in_Infrastructure i = Some infra ∧
    (is_Some (infra_Tuning infra ⇀ iitune_Container ⇀ citune_MaxMessageSize) →
     infra_Sources infra = [] ∨ InfrastructureSourceContainer ∈ infra_Sources infra).

Definition receiver_ok (context : ForwarderContext) (i : InputSpec) : Prop :=
  ∃ r, in_Receiver i = Some r ∧
    (recv_Type r = ReceiverTypeHTTP → ∃ h, recv_HTTP r = Some h ∧ httprecv_Format h ≠ "") ∧
    ∀ tls v, recv_TLS r = Some tls → v ∈ ValueReferences tls →
      (vr_SecretName v ≠ "" ∧ generated_key (ctx_AdditionalContext context) v) ∨
      reference_resolves (ctx_secrets context) (ctx_configmaps context) v.

Definition input_ok (context : ForwarderContext) (i : InputSpec) : Prop :=
  (in_Type i = InputTypeApplication → application_ok i) ∧
  (in_Type i = InputTypeInfrastructure → infrastructure_ok i) ∧
  (in_Type i = InputTypeAudit → is_Some (in_Audit i)) ∧
  (in_Type i = InputTypeReceiver → receiver_ok context i).

(** What the validation needs of its context: the maps were fetched and the
    options hold the secrets as such. *)
Definition context_wf (context : ForwarderContext) : Prop :=
  is_Some (ctx_Secrets context) ∧ is_Some (ctx_ConfigMaps context) ∧
  options_wf (ctx_AdditionalContext context).

Lemma globRE_spec s : fullmatch globRE s = true ↔ glob_ok s.
Proof. by rewrite fullmatch_spec; apply matches_Star_Char. Qed.

Lemma glob_messages_nil n i e :
  glob_messages n i e = [] ↔ glob_ok (nc_Namespace e) ∧ glob_ok (nc_Container e).
Proof.
  unfold glob_messages. rewrite <-!globRE_spec.
  by destruct (fullmatch globRE (nc_Namespace e)), (fullmatch globRE (nc_Container e)); split; naive_solver.
Qed.

Section accepted.
Context `{RangeOrder} (now : Z).

(** One condition of the input's type, true exactly when [P]. *)
Definition verdict_is (i : InputSpec) (cs : list Condition) (P : Prop) : Prop :=
  ∃ c, cs = [c] ∧ cond_Type c = prefixed ConditionTypeValidInputPrefix (in_Name i) ∧
    (cond_Status c = ConditionTrue ↔ P).

Lemma verdict_bool i cs (b : bool) r m (P : Prop) :
  cs = [if b then input_condition now i false r m else input_valid now i] →
  (b = false ↔ P) → verdict_is i cs P.
Proof. intros -> Hb. eexists. split; [done|]. destruct b; simpl; (split; [done|]); split; naive_solver. Qed.

Lemma verdict_missing i r m (P : Prop) : ¬ P → verdict_is i [input_condition now i false r m] P.
Proof. intros HP. eapply (verdict_bool i _ true); [done|]. split; [done|tauto]. Qed.

Lemma ValidateApplication_spec i :
  in_Type i = InputTypeApplication → verdict_is i (ValidateApplication now i) (application_ok i).
Proof.
  intros Ht. unfold ValidateApplication. rewrite Ht. simpl.
  destruct (in_Application i) as [app|] eqn:Happ.
  2: { apply verdict_missing. intros (? & [=] & _). congruence. }
  match goal with |- context [Nat.ltb 0 (length ?ms)] =>
    assert (ms = [] ↔ application_ok i) as Hm; [|destruct ms] end.
  - rewrite app_nil, !list_mjoin_imap_nil. setoid_rewrite glob_messages_nil.
    unfold application_ok. setoid_rewrite Happ. split.
    + intros [He Hi]. exists app. split; [done|].
      intros e [[j ?]%list_elem_of_lookup|[j ?]%list_elem_of_lookup]%elem_of_app; eauto.
    + intros (? & [= <-] & Hall). split; intros j e Hj; apply Hall, elem_of_app;
        [left|right]; by eapply list_elem_of_lookup_2.
  - apply (verdict_bool i _ false "" ""); [done|]. by rewrite <-Hm.
  - apply verdict_missing. by rewrite <-Hm.
Qed.

Lemma ValidateInfrastructure_spec i :
  in_Type i = InputTypeInfrastructure →
  verdict_is i (ValidateInfrastructure now i) (infrastructure_ok i).
Proof.
  intros Ht. unfold ValidateInfrastructure. rewrite Ht. simpl.
  destruct (in_Infrastructure i) as [infra|] eqn:Hi.
  2: { apply verdict_missing. intros (? & [=] & _). congruence. }
  rewrite Has_NewString.
  match goal with |- context [if ?b then [?c] else _] =>
    apply (verdict_bool i _ b ReasonValidationFailure (cond_Message c)); [by destruct b|] end.
  rewrite !andb_false_iff, Nat.ltb_ge, negb_false_iff, bool_decide_eq_true, bool_decide_eq_false.
  unfold infrastructure_ok. rewrite Hi. split.
  - intros Hor. exists infra. split; [done|]. intros Hs.
    destruct Hor as [[Hl|?]|?]; [left|by right|done].
    destruct (infra_Sources infra); [done|]. simpl in Hl. lia.
  - intros (? & [= <-] & Hall).
    destruct (infra_Tuning infra ⇀ iitune_Container ⇀ citune_MaxMessageSize) eqn:E;
      [|right; by intros [? [=]]].
    left. destruct Hall as [->|?]; [by eexists| left; simpl; lia|by right].
Qed.

Lemma ValidateAudit_spec i :
  in_Type i = InputTypeAudit → verdict_is i (ValidateAudit now i) (is_Some (in_Audit i)).
Proof.
  intros Ht. unfold ValidateAudit. rewrite Ht. simpl. destruct (in_Audit i).
  - apply (verdict_bool i _ false "" ""); [done|]. by split; eauto.
  - apply verdict_missing. by intros [? [=]].
Qed.

Lemma extractSecretKeysAsSet_spec o :
  options_wf o → ∃ keys, extractSecretKeysAsSet o = Ret keys ∧
    ∀ x, x ∈ keys ↔ ∃ s k, s ∈ generated o ∧ is_Some (secret_Data s !! k) ∧ x = secret_key (secret_Name s) k.
Proof.
  intros Ho. unfold extractSecretKeysAsSet, GetOption, generated.
  destruct (o !! GeneratedSecrets) as [v|] eqn:Hv; simpl.
  2: { eexists. split; [done|]. intros x. split; [set_solver|by intros (?&?&?%not_elem_of_nil&_)]. }
  destruct (Ho v Hv) as [l ->]. simpl. eexists. split; [done|]. intros x.
  assert (∀ s (kvs : list (string * string)) (keys : gset string),
    x ∈ foldl (λ keys kv, {[ secret_key (secret_Name s) kv.1 ]} ∪ keys) keys kvs ↔
    x ∈ keys ∨ ∃ k, k ∈ kvs.*1 ∧ x = secret_key (secret_Name s) k) as Hin.
  { intros s kvs. induction kvs as [|kv kvs IH]; intros keys; simpl; [set_solver|].
    rewrite IH. set_solver. }
  enough (∀ keys : gset string, x ∈ foldl (λ keys secret,
      foldl (λ keys kv, {[ secret_key (secret_Name secret) kv.1 ]} ∪ keys) keys
        (range (secret_Data secret))) keys l ↔
    x ∈ keys ∨ ∃ s k, s ∈ l ∧ is_Some (secret_Data s !! k) ∧ x = secret_key (secret_Name s) k) as ->.
  { set_solver. }
  clear Hv Ho. induction l as [|s l IH]; intros keys; simpl; [set_solver|].
  rewrite IH, Hin. clear IH.
  setoid_rewrite list_elem_of_fmap. split.
  - intros [[?|(k & ([k' d] & -> & Hd%elem_of_range) & ->)]|(s' & k & ? & ? & ?)]; [by left| |];
      right; [exists s, k'|exists s', k]; set_solver.
  - intros [?|(s' & k & [->|?]%elem_of_cons & [d Hd] & ->)]; [by left; left| |].
    + left. right. exists k. split; [|done]. exists (k, d). by rewrite elem_of_range.
    + right. exists s', k. by eauto.
Qed.
End accepted.

Section accepted_receivers.
Context `{RangeOrder} (now : Z).

Lemma elem_of_removeGeneratedSecrets keys skip v :
  v ∈ removeGeneratedSecrets keys skip ↔
  v ∈ keys ∧ (vr_SecretName v = "" ∨ secret_key (vr_SecretName v) (vr_Key v) ∉ skip).
Proof. unfold removeGeneratedSecrets. rewrite list_elem_of_filter. tauto. Qed.

(** What is left of the references after the generated keys are skipped. *)
Lemma references_ok context tls keys :
  (∀ x, x ∈ keys ↔ ∃ s k, s ∈ generated (ctx_AdditionalContext context) ∧
     is_Some (secret_Data s !! k) ∧ x = secret_key (secret_Name s) k) →
  ValidateValueReference (removeGeneratedSecrets (ValueReferences tls) keys)
    (ctx_secrets context) (ctx_configmaps context) = [] ↔
  ∀ v, v ∈ ValueReferences tls →
    (vr_SecretName v ≠ "" ∧ generated_key (ctx_AdditionalContext context) v) ∨
    reference_resolves (ctx_secrets context) (ctx_configmaps context) v.
Proof.
  intros Hkeys. rewrite ValidateValueReference_nil.
  setoid_rewrite elem_of_removeGeneratedSecrets.
  assert (∀ v, generated_key (ctx_AdditionalContext context) v ↔
    secret_key (vr_SecretName v) (vr_Key v) ∈ keys) as Hg by (intros v; by rewrite Hkeys).
  setoid_rewrite Hg. split.
  - intros Hall v Hv. destruct (decide (vr_SecretName v = "")) as [E|E].
    { right. apply Hall. auto. }
    destruct (decide (secret_key (vr_SecretName v) (vr_Key v) ∈ keys)); [by left|].
    right. apply Hall. auto.
  - intros Hall v (Hv & Hor). destruct (Hall v Hv) as [[? ?]|?]; [|done].
    by destruct Hor.
Qed.

Lemma ValidateReceiver_spec context i :
  in_Type i = InputTypeReceiver → context_wf context →
  ∃ cs, ValidateReceiver now i (ctx_Secrets context) (ctx_ConfigMaps context)
      (ctx_AdditionalContext context) = Ret cs ∧
    verdict_is i cs (receiver_ok context i).
Proof.
  intros Ht ([secrets Hs] & [cms Hc] & Ho).
  unfold ValidateReceiver, receiver_ok. rewrite Hs, Hc, Ht. simpl.
  destruct (in_Receiver i) as [r|] eqn:Hr.
  2: { eexists. split; [done|]. apply verdict_missing. by intros (? & [=] & _). }
  destruct (String.eqb_spec (recv_Type r) ReceiverTypeHTTP) as [Eh|Nh]; simpl.
  1: destruct (recv_HTTP r) as [h|] eqn:Hh; simpl.
  2: { eexists. split; [done|]. apply verdict_missing.
       intros (? & [= <-] & Hhttp & _). destruct (Hhttp Eh) as (? & ? & _). congruence. }
  1: destruct (String.eqb_spec (httprecv_Format h) "") as [Ef|Nf]; simpl.
  1: { eexists. split; [done|]. apply verdict_missing.
       intros (? & [= <-] & Hhttp & _). destruct (Hhttp Eh) as (h' & ? & ?). congruence. }
  all: (* the remaining check is the one of the references *)
    assert (∃ ms, (match recv_TLS r with
        | Some tlsSpec =>
            skipKeys ← extractSecretKeysAsSet (ctx_AdditionalContext context);
            Ret (ValidateValueReference (removeGeneratedSecrets (ValueReferences tlsSpec) skipKeys)
                   secrets cms)
        | None => Ret [] end) = Ret ms ∧
      (ms = [] ↔ ∀ tls v, recv_TLS r = Some tls → v ∈ ValueReferences tls →
        (vr_SecretName v ≠ "" ∧ generated_key (ctx_AdditionalContext context) v) ∨
        reference_resolves (ctx_secrets context) (ctx_configmaps context) v)) as (ms & Hms & Hnil).
  1, 3: destruct (recv_TLS r) as [tls|]; [|eexists; split; [done|]; by split].
  1, 2: destruct (extractSecretKeysAsSet_spec _ Ho) as (keys & Hk & Hkeys); rewrite Hk; simpl;
    eexists; (split; [done|]);
    pose proof (references_ok context tls keys Hkeys) as Href;
    unfold ctx_secrets, ctx_configmaps in *; rewrite Hs, Hc in *; simpl in *;
    rewrite Href; split; [by intros Hall ? v [= <-]; apply Hall|by intros Hall v; apply Hall].
  all: rewrite ?Hh; cbn zeta in Hms |- *; rewrite Hms; simpl; eexists; split; [done|];
    apply (verdict_bool now i _ (0 <? length ms)%nat ReasonValidationFailure (Join ms ",")); [done|].
  all: assert ((0 <? length ms)%nat = false ↔ ms = []) as -> by by destruct ms.
  - rewrite Hnil. split; [intros Hall; exists r; split; [done|]; split; [by eauto|done]|].
    by intros (? & [= <-] & _ & ?).
  - rewrite Hnil. split; [intros Hall; exists r; split; [done|]; split; [done|done]|].
    by intros (? & [= <-] & _ & ?).
Qed.

(** Every input of an enumerated type gets one condition, which says whether
    the input is acceptable. *)
Lemma input_conditions_spec context i :
  in_Type i ∈ InputTypes → context_wf context →
  ∃ cs, input_conditions now context i = Ret cs ∧ verdict_is i cs (input_ok context i).
Proof.
  intros Ht Hwf. unfold input_conditions, input_ok.
  assert (∀ cs (P Q : Prop), (P ↔ Q) → verdict_is i cs P → verdict_is i cs Q) as Hiff.
  { intros cs P Q HPQ (c & -> & Hty & Hst). exists c. by rewrite <-HPQ. }
  destruct (String.eqb_spec (in_Type i) InputTypeApplication) as [E|N1].
  { eexists. split; [done|]. eapply Hiff, ValidateApplication_spec, E. rewrite E.
    split; [by intros ?|intros (Ha & _); by apply Ha]. }
  destruct (String.eqb_spec (in_Type i) InputTypeInfrastructure) as [E|N2].
  { eexists. split; [done|]. eapply Hiff, ValidateInfrastructure_spec, E. rewrite E.
    split; [by intros ?|intros (_ & Ha & _); by apply Ha]. }
  destruct (String.eqb_spec (in_Type i) InputTypeAudit) as [E|N3].
  { eexists. split; [done|]. eapply Hiff, ValidateAudit_spec, E. rewrite E.
    split; [by intros ?|intros (_ & _ & Ha & _); by apply Ha]. }
  destruct (String.eqb_spec (in_Type i) InputTypeReceiver) as [E|N4].
  { destruct (ValidateReceiver_spec context i E Hwf) as (cs & Hcs & Hv).
    exists cs. split; [done|]. eapply Hiff, Hv. rewrite E.
    split; [by intros ?|intros (_ & _ & _ & Ha); by apply Ha]. }
  exfalso. unfold InputTypes in Ht. set_solver.
Qed.

Lemma inputs_conditions_spec context l :
  (∀ i, i ∈ l → in_Type i ∈ InputTypes) → context_wf context →
  ∃ cs, concat_mapM (input_conditions now context) l = Ret cs ∧
    types cs = prefixed ConditionTypeValidInputPrefix <$> (in_Name <$> l) ∧
    ((∀ c, c ∈ cs → cond_Status c = ConditionTrue) ↔ ∀ i, i ∈ l → input_ok context i).
Proof.
  intros Hl Hwf. induction l as [|i l IH]; simpl.
  { exists []. split; [done|]. split; [done|]. set_solver. }
  destruct (input_conditions_spec context i) as (cs1 & Hi & c & -> & Hty & Hst); [set_solver|done|].
  destruct IH as (cs & Hcs & Htys & Hall); [set_solver|].
  rewrite Hi. simpl. rewrite Hcs. simpl. eexists. split; [done|]. split.
  - simpl. by rewrite Hty, Htys.
  - rewrite !forall_cons_iff, Hall, Hst. done.
Qed.

(** [inputs.Validate] does not panic, leaves the rest of the status alone, and
    the inputs are valid, as [IsValidSpec] sees it, exactly when each of them is. *)
Lemma ValidateInputs_spec context :
  let spec := ctx_Spec context in
  let old := st_InputConditions (ctx_Status context) in
  (∀ i, i ∈ spec_Inputs spec → in_Type i ∈ InputTypes) → context_wf context →
  NoDup (in_Name <$> spec_Inputs spec) → NoDup (types old) →
  (∀ ty, ty ∈ types old →
     ty ∈ prefixed ConditionTypeValidInputPrefix <$> (in_Name <$> spec_Inputs spec)) →
  ∃ cs, Validate now context = Ret (ctx_set_Status context
      (st_set_InputConditions (ctx_Status context) cs)) ∧
    NoDup (types cs) ∧
    (isValid ConditionTypeValidInputPrefix cs (length (spec_Inputs spec)) = true ↔
     ∀ i, i ∈ spec_Inputs spec → input_ok context i).
Proof.
  cbn zeta. intros Hty Hwf Hnd Hold Hstale.
  destruct (inputs_conditions_spec context (spec_Inputs (ctx_Spec context)) Hty Hwf)
    as (cs & Hcs & Htys & Hall).
  unfold Validate. rewrite Hcs. simpl. eexists. split; [done|].
  split; [by apply SetConditions_NoDup|].
  rewrite <-(length_fmap in_Name), parts_isValid; [done|done..|by rewrite Htys].
Qed.
End accepted_receivers.
