(* ===== verification/AwsAuth.v ===== *)
(** * AWS credentials ([internal/collector/aws], [cloudwatch], [s3], [common])

    The identifier of the cluster is a parameter: [None] when it cannot be read.
    The credentials file is rendered by [html/template], whose escaper for text
    replaces the bytes that are special in HTML. *)

From S2P Require Import Prelude GoStrings Regex ApiCommon ApiOutputs ObsResources.

Open Scope re.

Definition CollectorSecretsDir : string := "/var/run/ocp-collector/secrets".
Definition ConfigMapBaseDir : string := "/var/run/ocp-collector/config".
Definition ServiceAccountSecretPath : string := "/var/run/ocp-collector/serviceaccount".
Definition TokenKey : string := "token".

(** ** Paths ([internal/collector/common/path.go]) *)

Definition SecretPath (secretName file : string) : string :=
  PathJoin [CollectorSecretsDir; secretName; file].
Definition SecretBasePath (secretName : string) : string := PathJoin [CollectorSecretsDir; secretName].
Definition ConfigMapPath (name file : string) : string := PathJoin [ConfigMapBaseDir; name; file].
Definition ConfigMapBasePath (name : string) : string := PathJoin [ConfigMapBaseDir; name].
Definition ServiceAccountBasePath (name : string) : string := PathJoin [ServiceAccountSecretPath; name].

(** ** Which outputs use roles *)

(** The authentication when it has a role, and its role to assume. *)
Definition with_role (auth : option AwsAuthentication) : option AwsAuthentication :=
  match auth ⇀ aws_IamRole with Some _ => auth | None => None end.

Definition OutputIsS3RoleAuth (o : OutputSpec) : option AwsAuthentication :=
  with_role (out_S3 o ⇀ s3_Authentication).
Definition OutputIsS3AssumeRoleAuth (o : OutputSpec) : option AwsAssumeRole :=
  out_S3 o ⇀ s3_Authentication ⇀ aws_AssumeRole.
Definition OutputIsCloudwatchRoleAuth (o : OutputSpec) : option AwsAuthentication :=
  with_role (out_Cloudwatch o ⇀ cw_Authentication).
Definition OutputIsCloudwatchAssumeRoleAuth (o : OutputSpec) : option AwsAssumeRole :=
  out_Cloudwatch o ⇀ cw_Authentication ⇀ aws_AssumeRole.

Definition OutputIsAwsRoleAuth (o : OutputSpec) : option AwsAuthentication :=
  match with_role (out_Cloudwatch o ⇀ cw_Authentication) with
  | Some a => Some a
  | None => with_role (out_S3 o ⇀ s3_Authentication)
  end.

Definition OutputIsAssumeRole (o : OutputSpec) : option AwsAssumeRole :=
  match out_Cloudwatch o ⇀ cw_Authentication ⇀ aws_AssumeRole with
  | Some r => Some r
  | None => out_S3 o ⇀ s3_Authentication ⇀ aws_AssumeRole
  end.

Definition RequiresProfilesConfigMap (outputs : list OutputSpec) : bool :=
  existsb (λ o, bool_decide (is_Some (OutputIsS3RoleAuth o))
    || bool_decide (is_Some (OutputIsCloudwatchRoleAuth o))) outputs.

(** ** The ARN of a role

    [findSubstring] returns the group of the pattern, the text from [arn:aws] on:
    any bytes of the line, as many as possible, [:iam] or [:sts], two colons,
    twelve digits, [:role/], and bytes that are not spaces. *)

(** The class of [\S] takes the bytes other than tab, newline, form feed,
    carriage return and space. *)
Definition is_pattern_space (c : ascii) : bool :=
  existsb (Nat.eqb (Ascii.nat_of_ascii c)) [9; 10; 12; 13; 32].

Fixpoint take_while (p : ascii → bool) (s : string) : string :=
  match s with
  | String c s => if p c then String c (take_while p s) else ""
  | "" => ""
  end.

Fixpoint cut_digits (n : nat) (s : string) : option (string * string) :=
  match n with
  | O => Some ("", s)
  | S n =>
      match s with
      | String c s =>
          if (48 <=? Ascii.nat_of_ascii c)%nat && (Ascii.nat_of_ascii c <=? 57)%nat then
            match cut_digits n s with Some (d, r) => Some (String c d, r) | None => None end
          else None
      | "" => None
      end
  end.

(** The part of the pattern from the service on: for one service, and for the
    two of the alternation in their order. *)
Definition arn_after (service s : string) : option string :=
  r ← CutPrefix s (":" +:+ service +:+ "::");
  '(account, r) ← cut_digits 12 r;
  r ← CutPrefix r ":role/";
  match take_while (λ c, negb (is_pattern_space c)) r with
  | "" => None
  | name => Some (":" +:+ service +:+ "::" +:+ account +:+ ":role/" +:+ name)
  end.

Definition arn_tail (s : string) : option string :=
  match arn_after "iam" s with Some t => Some t | None => arn_after "sts" s end.

(** The greedy middle: the tail is tried from the far end of the line back. *)
Fixpoint arn_middle (s : string) : option string :=
  match s with
  | String c s' =>
      match (if Ascii.eqb c "010"%char then None else arn_middle s') with
      | Some t => Some (String c t)
      | None => arn_tail s
      end
  | "" => None
  end.

Fixpoint find_arn (s : string) : option string :=
  match CutPrefix s "arn:aws" ≫= arn_middle with
  | Some t => Some ("arn:aws" +:+ t)
  | None => match s with String _ s => find_arn s | "" => None end
  end.

Definition findSubstring (roleString : string) : string :=
  if roleString != "" then default "" (find_arn roleString) else "".

Definition ParseRoleArn (authSpec : AwsAuthentication) (secrets : Secrets) : string :=
  findSubstring (match aws_IamRole authSpec with
                 | Some r => AsString secrets (Some (ar_RoleARN r))
                 | None => ""
                 end).

Definition ParseAssumeRoleArn (assumeRoleSpec : AwsAssumeRole) (secrets : Secrets) : string :=
  findSubstring (AsString secrets (Some (aar_RoleARN assumeRoleSpec))).

Definition AssumeRoleHasExternalId (assumeRole : AwsAssumeRole) : bool * string :=
  if aar_ExternalID assumeRole != "" then (true, aar_ExternalID assumeRole) else (false, "").

(** ** The credentials file *)

Record ProfileCredentials := {
  pc_Name : string;
  pc_RoleARN : string;
  pc_WebIdentityTokenFile : string;
  pc_AssumeRole : string;
  pc_ExternalID : string;
  pc_SessionName : string;
}.

Definition generateSessionName (clusterID : option string) (clfName outputName : string) : string :=
  match clusterID with
  | None | Some "" => "output-" +:+ outputName
  | Some clusterID =>
      let sessionName := take_bytes 8 clusterID +:+ "-" +:+ clfName +:+ "-" +:+ outputName in
      if (64 <? String.length sessionName)%nat then
        let sessionName := take_bytes 8 clusterID +:+ "-" +:+ outputName in
        if (64 <? String.length sessionName)%nat then take_bytes 64 sessionName else sessionName
      else sessionName
  end.

Section profiles.
Context (clusterID : option string).

Definition profile_of (clfName : string) (secrets : Secrets) (o : OutputSpec)
    (awsAuth : AwsAuthentication) : outcome ProfileCredentials :=
  role ← deref (aws_IamRole awsAuth);
  tokenFile ← (if bt_From (ar_Token role) == BearerTokenFromSecret then
                 secret ← deref (bt_Secret (ar_Token role));
                 Ret (SecretPath (btsk_Name secret) (btsk_Key secret))
               else Ret (ServiceAccountBasePath TokenKey));
  let assume := OutputIsAssumeRole o in
  Ret {| pc_Name := out_Name o;
         pc_RoleARN := ParseRoleArn awsAuth secrets;
         pc_WebIdentityTokenFile := tokenFile;
         pc_AssumeRole := match assume with
           | Some r => AsString secrets (Some (aar_RoleARN r)) | None => "" end;
         pc_ExternalID := match assume with
           | Some r => (AssumeRoleHasExternalId r).2 | None => "" end;
         pc_SessionName := match assume with
           | Some _ => generateSessionName clusterID clfName (out_Name o) | None => "" end |}.

Definition GenerateAwsProfileCreds (clfName : string) (outputs : list OutputSpec)
    (secrets : Secrets) : outcome (list ProfileCredentials) :=
  concat_mapM (λ o,
    match OutputIsAwsRoleAuth o with
    | Some awsAuth => p ← profile_of clfName secrets o awsAuth; Ret [p]
    | None => Ret []
    end) outputs.

(** The escaper of [html/template] for text. *)
Definition html_escape_byte (c : ascii) : string :=
  let n := Ascii.nat_of_ascii c in
  if (n =? 0)%nat then String "239" (String "191" (String "189" ""))
  else if (n =? 34)%nat then "&#34;"
  else if (n =? 38)%nat then "&amp;"
  else if (n =? 39)%nat then "&#39;"
  else if (n =? 43)%nat then "&#43;"
  else if (n =? 60)%nat then "&lt;"
  else if (n =? 62)%nat then "&gt;"
  else String c "".

Definition html_escape (s : string) : string := map_bytes html_escape_byte s.

(** [credentials.tmpl] on one profile. *)
Definition ProfileTemplate_one (p : ProfileCredentials) : string :=
  let e := html_escape in
  if pc_AssumeRole p != "" then
    "# Source profile for initial web identity authentication" +:+ LF +:+
    "[output_" +:+ e (pc_Name p) +:+ "_source]" +:+ LF +:+
    "web_identity_token_file=" +:+ e (pc_WebIdentityTokenFile p) +:+ LF +:+
    "role_arn=" +:+ e (pc_RoleARN p) +:+ LF +:+
    "role_session_name=output-" +:+ e (pc_Name p) +:+ "-source" +:+ LF +:+ LF +:+
    "# Assume role profile for cross-account access" +:+ LF +:+
    "[output_" +:+ e (pc_Name p) +:+ "]" +:+ LF +:+
    "source_profile=output_" +:+ e (pc_Name p) +:+ "_source" +:+ LF +:+
    "role_arn=" +:+ e (pc_AssumeRole p) +:+
    (if pc_ExternalID p != "" then LF +:+ "external_id=" +:+ e (pc_ExternalID p) else "") +:+
    (if pc_SessionName p != "" then LF +:+ "role_session_name=" +:+ e (pc_SessionName p)
     else LF +:+ "role_session_name=output-" +:+ e (pc_Name p)) +:+ LF
  else
    "# Direct authentication profile" +:+ LF +:+
    "[output_" +:+ e (pc_Name p) +:+ "]" +:+ LF +:+
    "web_identity_token_file=" +:+ e (pc_WebIdentityTokenFile p) +:+ LF +:+
    "role_arn=" +:+ e (pc_RoleARN p) +:+ LF +:+
    "role_session_name=output-" +:+ e (pc_Name p) +:+ LF.

Definition GenerateCredString (clfName : string) (outputs : list OutputSpec) (secrets : Secrets) :
    outcome string :=
  creds ← GenerateAwsProfileCreds clfName outputs secrets;
  Ret (String.concat "" (map ProfileTemplate_one creds)).
End profiles.

(** ** The search for an ARN *)

Definition NotSpace : regex := Char (λ c, negb (is_pattern_space c)).

(** The group of the pattern. *)
Definition arn_service : regex := Lit "iam" ∣ Lit "sts".
Definition arn_tail_regex : regex :=
  Lit ":" ⋅ arn_service ⋅ Lit "::" ⋅ Rep 12 Digit ⋅ Lit ":role/" ⋅ Plus NotSpace.
Definition arn_regex : regex := Lit "arn:aws" ⋅ Star Dot ⋅ arn_tail_regex.

Lemma take_while_spec p s :
  ∃ q, s = take_while p s +:+ q ∧ string_forallb p (take_while p s) = true ∧
    (∀ c q', q = String c q' → p c = false).
Proof.
  induction s as [|c s IH]; simpl; [by exists ""|].
  destruct (p c) eqn:Hc; simpl.
  - destruct IH as (q & E & H1 & H2). exists q. rewrite Hc, H1. split_and!; [by f_equal|done|done].
  - exists (String c s). split_and!; [done..|]. by intros ? ? [= <- _].
Qed.

Lemma take_while_nil p s : take_while p s = "" ↔ ∀ t q, s = t +:+ q → t ≠ "" → string_forallb p t = false.
Proof.
  destruct s as [|c s]; simpl; (split; [intros E|intros Hall]).
  - intros [|? ?] q; done.
  - done.
  - intros [|d t] q; [done|]. simpl. intros [= -> ->] _. by destruct (p d).
  - destruct (p c) eqn:Hc; [|done]. specialize (Hall (String c "") s eq_refl). simpl in Hall.
    rewrite Hc in Hall. by discriminate Hall.
Qed.

Lemma matches_Rep_Digit n s :
  matches (Rep n Digit) s ↔ String.length s = n ∧ string_forallb is_digit s = true.
Proof.
  revert s. induction n as [|n IH]; intros s; simpl.
  { rewrite matches_eps_inv. destruct s; simpl; naive_solver. }
  rewrite matches_seq_inv. split.
  - intros (? & t & -> & (c & -> & Hc)%matches_char_inv & [<- Ht]%IH). simpl. by rewrite Hc, Ht.
  - destruct s as [|c s]; simpl; [by intros [? _]|]. intros [[= Hl] [Hc Hs]%andb_true_iff].
    exists (String c ""), s. split; [done|]. split; [by constructor|]. by apply IH.
Qed.

Lemma cut_digits_spec n s d r :
  cut_digits n s = Some (d, r) ↔ s = d +:+ r ∧ matches (Rep n Digit) d.
Proof.
  rewrite matches_Rep_Digit. revert s d r. induction n as [|n IH]; intros s d r; cbn [cut_digits].
  { destruct d; simpl; naive_solver. }
  destruct s as [|c s].
  { split; [done|]. intros (E & Hl & _). symmetry in E. apply string_app_eq_nil in E as [-> _]. done. }
  change ((48 <=? Ascii.nat_of_ascii c)%nat && (Ascii.nat_of_ascii c <=? 57)%nat) with (is_digit c).
  destruct (is_digit c) eqn:Hc.
  - destruct (cut_digits n s) as [[d' r']|] eqn:Hcut.
    + apply IH in Hcut as (-> & Hl & Hd). split.
      * intros [= <- <-]. simpl. by rewrite Hl, Hc, Hd.
      * destruct d as [|d0 d]; simpl; [by intros (_ & ? & _)|].
        intros ([= <- E] & [= Hl'] & [_ Hd'']%andb_true_iff).
        assert (cut_digits n (d' +:+ r') = Some (d', r')) as H1 by by apply IH.
        assert (cut_digits n (d' +:+ r') = Some (d, r)) as H2 by by apply IH. congruence.
    + split; [done|]. destruct d as [|d0 d]; simpl; [by intros (_ & ? & _)|].
      intros ([= <- E] & [= Hl'] & [_ Hd'']%andb_true_iff).
      assert (cut_digits n s = Some (d, r)) as H2 by by apply IH. congruence.
  - split; [done|]. destruct d as [|d0 d]; simpl; [by intros (_ & ? & _)|].
    intros ([= <- E] & _ & [? _]%andb_true_iff). congruence.
Qed.

(** The text of the part from the service on. *)
Definition arn_text (service account name : string) : string :=
  ":" +:+ service +:+ "::" +:+ account +:+ ":role/" +:+ name.

Definition arn_parts (account name : string) : Prop :=
  matches (Rep 12 Digit) account ∧ name ≠ "" ∧
  string_forallb (λ c, negb (is_pattern_space c)) name = true.

(** The text that follows a match: nothing or something after a space. *)
Definition ends_word (q : string) : Prop := ∀ c q', q = String c q' → is_pattern_space c = true.

Lemma arn_after_Some service s t :
  arn_after service s = Some t →
  ∃ q account name, s = t +:+ q ∧ t = arn_text service account name ∧ arn_parts account name ∧
    ends_word q.
Proof.
  unfold arn_after, arn_parts, ends_word.
  destruct (CutPrefix s _) as [r|] eqn:E1; cbn [mbind option_bind]; [|done].
  destruct (cut_digits 12 r) as [[d r']|] eqn:E2; cbn [mbind option_bind]; [|done].
  destruct (CutPrefix r' _) as [r''|] eqn:E3; cbn [mbind option_bind]; [|done].
  apply CutPrefix_spec in E1, E3. apply cut_digits_spec in E2 as [E2 Hd].
  destruct (take_while_spec (λ c, negb (is_pattern_space c)) r'') as (q & Eq & Hall & Hq).
  destruct (take_while _ r'') as [|c name]; [done|].
  change (Some (arn_text service d (String c name)) = Some t → ∃ q account name, s = t +:+ q ∧
    t = arn_text service account name ∧ (matches (Rep 12 Digit) account ∧ name ≠ "" ∧
    string_forallb (λ c, negb (is_pattern_space c)) name = true) ∧
    ∀ c q', q = String c q' → is_pattern_space c = true).
  intros Ht. assert (t = arn_text service d (String c name)) as -> by congruence.
  exists q, d, (String c name). split_and!; try done.
  - unfold arn_text. rewrite E1, E2, E3, Eq. by rewrite !string_app_assoc.
  - intros c' q' Hc. by apply negb_false_iff, (Hq c' q').
Qed.

Lemma arn_after_None service s account name q :
  arn_after service s = None → arn_parts account name → s ≠ arn_text service account name +:+ q.
Proof.
  unfold arn_after, arn_text. intros Hnone (Hd & Hne & Hall) ->.
  match type of Hnone with context [CutPrefix ?s ?p] =>
    assert (CutPrefix s p = Some (account +:+ (":role/" +:+ (name +:+ q)))) as E1
      by (apply CutPrefix_spec; by rewrite !string_app_assoc) end.
  assert (cut_digits 12 (account +:+ (":role/" +:+ (name +:+ q)))
    = Some (account, ":role/" +:+ (name +:+ q))) as E2 by by apply cut_digits_spec.
  rewrite E1 in Hnone. cbn [mbind option_bind] in Hnone.
  rewrite E2 in Hnone. cbn [mbind option_bind] in Hnone.
  rewrite (proj2 (CutPrefix_spec _ ":role/" (name +:+ q)) eq_refl) in Hnone.
  cbn [mbind option_bind] in Hnone.
  destruct (take_while _ (name +:+ q)) eqn:E; [|done].
  pose proof (proj1 (take_while_nil _ _) E name q eq_refl Hne). congruence.
Qed.

Lemma matches_arn_tail t :
  matches arn_tail_regex t ↔
  ∃ service account name, (service = "iam" ∨ service = "sts") ∧
    t = arn_text service account name ∧ arn_parts account name.
Proof.
  unfold arn_tail_regex, arn_service, arn_text, arn_parts. split.
  - intros (? & u1 & -> & ->%matches_Lit & Hu1)%matches_seq_inv.
    apply matches_seq_inv in Hu1 as (sv & u2 & -> & Hsv & Hu2).
    apply matches_seq_inv in Hu2 as (? & u3 & -> & ->%matches_Lit & Hu3).
    apply matches_seq_inv in Hu3 as (d & u4 & -> & Hd & Hu4).
    apply matches_seq_inv in Hu4 as (? & name & -> & ->%matches_Lit & [??]%matches_Plus_Char).
    apply matches_alt_inv in Hsv. rewrite !matches_Lit in Hsv. by exists sv, d, name.
  - intros (sv & d & name & Hsv & -> & Hd & Hn).
    apply matches_seq_inv. exists ":", (sv +:+ "::" +:+ d +:+ ":role/" +:+ name).
    rewrite matches_Lit. split_and!; [done..|].
    constructor; [apply matches_alt_inv; by rewrite !matches_Lit|].
    constructor; [by apply matches_Lit|]. constructor; [done|].
    constructor; [by apply matches_Lit|]. by apply matches_Plus_Char.
Qed.

Lemma arn_tail_Some s t :
  arn_tail s = Some t → ∃ q, s = t +:+ q ∧ matches arn_tail_regex t ∧ ends_word q.
Proof.
  unfold arn_tail. setoid_rewrite matches_arn_tail.
  destruct (arn_after "iam" s) as [t'|] eqn:E1; [intros [= <-]|intros E2].
  - apply arn_after_Some in E1 as (q & d & name & ? & ? & ? & ?). exists q. split_and!; eauto 10.
  - apply arn_after_Some in E2 as (q & d & name & ? & ? & ? & ?). exists q. split_and!; eauto 10.
Qed.

Lemma arn_tail_None s t q : arn_tail s = None → matches arn_tail_regex t → s ≠ t +:+ q.
Proof.
  unfold arn_tail. intros Hn (sv & d & name & Hsv & -> & Hp)%matches_arn_tail.
  destruct (arn_after "iam" s) eqn:E1; [done|].
  destruct Hsv as [-> | ->]; by apply arn_after_None.
Qed.

Definition not_newline (c : ascii) : bool := negb (Ascii.eqb c "010"%char).

Lemma arn_middle_Some s t :
  arn_middle s = Some t → ∃ q, s = t +:+ q ∧ matches (Star Dot ⋅ arn_tail_regex) t ∧ ends_word q.
Proof.
  assert (∀ s t, arn_tail s = Some t → ∃ q, s = t +:+ q ∧
    matches (Star Dot ⋅ arn_tail_regex) t ∧ ends_word q) as Hhere.
  { intros u v (q & ? & Hv & ?)%arn_tail_Some. exists q. split_and!; [done| |done].
    apply matches_seq_inv. exists "", v. split_and!; [done|constructor|done]. }
  revert t. induction s as [|c s IH]; intros t; cbn [arn_middle]; [done|].
  destruct (Ascii.eqb c "010"%char) eqn:Hc; [apply Hhere|].
  destruct (arn_middle s) as [t'|]; [|apply Hhere].
  intros [= <-]. destruct (IH t' eq_refl) as (q & -> & Hm & Hq). exists q.
  split_and!; [done| |done].
  apply matches_seq_inv in Hm as (m & u & -> & Hm%matches_Star_Char & Hu).
  apply matches_seq_inv. exists (String c m), u. split_and!; [done| |done].
  apply matches_Star_Char. cbn [string_forallb]. by rewrite Hc, Hm.
Qed.

Lemma arn_middle_None s t q :
  arn_middle s = None → matches (Star Dot ⋅ arn_tail_regex) t → s ≠ t +:+ q.
Proof.
  intros Hn (m & u & -> & Hm%matches_Star_Char & Hu)%matches_seq_inv.
  revert s Hn. induction m as [|c m IH]; intros s Hn.
  - destruct s as [|c s].
    + intros E. symmetry in E. apply string_app_eq_nil in E as [E _]. simpl in E.
      apply matches_arn_tail in Hu as (? & ? & ? & _ & -> & _). done.
    + cbn [arn_middle] in Hn. apply arn_tail_None; [|done].
      by destruct (if Ascii.eqb c _ then None else arn_middle s).
  - destruct s as [|d s]; [done|]. cbn [String.append]. intros [= -> E].
    cbn [string_forallb] in Hm. apply andb_true_iff in Hm as [Hc%negb_true_iff Hm].
    cbn [arn_middle] in Hn. rewrite Hc in Hn. destruct (arn_middle s) eqn:Es; [done|].
    by apply (IH Hm s).
Qed.

(** A search position: what [find_arn] tests before it moves on. *)
Definition arn_here (s : string) : option string :=
  match CutPrefix s "arn:aws" ≫= arn_middle with Some t => Some ("arn:aws" +:+ t) | None => None end.

Lemma arn_here_Some s t :
  arn_here s = Some t → ∃ q, s = t +:+ q ∧ matches arn_regex t ∧ ends_word q.
Proof.
  unfold arn_here, arn_regex. destruct (CutPrefix s "arn:aws") as [r|] eqn:E; [|done].
  cbn [mbind option_bind]. apply CutPrefix_spec in E.
  destruct (arn_middle r) as [u|] eqn:Em; [|done].
  apply arn_middle_Some in Em as (q & Er & Hm & Hq). intros Ht.
  assert (t = "arn:aws" +:+ u) as -> by congruence. exists q.
  split_and!; [by rewrite E, Er, string_app_assoc| |done].
  apply matches_seq_inv. exists "arn:aws", u. by rewrite matches_Lit.
Qed.

Lemma arn_here_None s t q : arn_here s = None → matches arn_regex t → s ≠ t +:+ q.
Proof.
  unfold arn_here, arn_regex. intros Hn (? & u & -> & ->%matches_Lit & Hu)%matches_seq_inv E.
  rewrite string_app_assoc in E.
  rewrite (proj2 (CutPrefix_spec s "arn:aws" (u +:+ q)) E) in Hn. cbn [mbind option_bind] in Hn.
  destruct (arn_middle (u +:+ q)) eqn:Em; [done|].
  by apply (arn_middle_None _ _ q Em Hu).
Qed.

Lemma find_arn_step s :
  find_arn s = match arn_here s with
               | Some t => Some t
               | None => match s with String _ s => find_arn s | "" => None end
               end.
Proof. unfold arn_here. destruct s; cbn [find_arn]; by destruct (CutPrefix _ _ ≫= arn_middle). Qed.

Lemma find_arn_Some s t :
  find_arn s = Some t →
  ∃ p q, s = p +:+ (t +:+ q) ∧ matches arn_regex t ∧ ends_word q ∧
    ∀ p' t' q', s = p' +:+ (t' +:+ q') → matches arn_regex t' → (String.length p ≤ String.length p')%nat.
Proof.
  induction s as [|c s IH]; rewrite find_arn_step;
    (destruct (arn_here _) as [u|] eqn:Eh;
     [intros [= ->]; apply arn_here_Some in Eh as (q & E & Hm & Hq);
      exists "", q; split_and!; [exact E|done|done|simpl; lia]|]); [done|].
  intros (p & q & -> & Hm & Hq & Hmin)%IH. exists (String c p), q. split_and!; [done..|].
  intros [|d p'] t' q' E' Hm'; simpl in *.
  - by destruct (arn_here_None _ _ q' Eh Hm').
  - injection E' as -> E'. specialize (Hmin _ _ _ E' Hm'). lia.
Qed.

Lemma find_arn_None s p t q :
  find_arn s = None → matches arn_regex t → s ≠ p +:+ (t +:+ q).
Proof.
  revert p. induction s as [|c s IH]; intros p; rewrite find_arn_step;
    (destruct (arn_here _) as [u|] eqn:Eh; [done|]); intros Hn Hm E.
  - symmetry in E. apply string_app_eq_nil in E as [-> E].
    by apply (arn_here_None "" t q Eh Hm).
  - destruct p as [|d p]; [by apply (arn_here_None _ t q Eh Hm)|].
    injection E as -> E. by apply (IH p Hn Hm).
Qed.

Lemma matches_arn_nonempty t : matches arn_regex t → t ≠ "".
Proof. intros (? & u & -> & ->%matches_Lit & _)%matches_seq_inv. done. Qed.

(** The search for a role's ARN.  [findSubstring] gives the empty string exactly
    when no part of the secret has the form of a role's ARN.  Otherwise it gives a
    part of the secret that has this form, that starts where the first such part
    starts, and that ends where the secret does or before a space. *)
Theorem findSubstring_correct s :
  (findSubstring s = "" ↔ search arn_regex s = false) ∧
  (findSubstring s ≠ "" → ∃ p q, s = p +:+ (findSubstring s +:+ q) ∧
     matches arn_regex (findSubstring s) ∧ ends_word q ∧
     ∀ p' t' q', s = p' +:+ (t' +:+ q') → matches arn_regex t' →
       (String.length p ≤ String.length p')%nat).
Proof.
  assert (findSubstring s = default "" (find_arn s)) as ->.
  { unfold findSubstring. by destruct (String.eqb_spec s "") as [->|]. }
  destruct (find_arn s) as [t|] eqn:E; cbn [default].
  - apply find_arn_Some in E as (p & q & Es & Hm & Hrest). split; [|by exists p, q].
    split; [intros Ht; by destruct (matches_arn_nonempty t Hm)|]. intros Hs.
    assert (search arn_regex s = true) as Hs' by (apply search_spec; by exists p, t, q). congruence.
  - split; [|done]. split; [|done]. intros _. apply not_true_iff_false.
    intros (p & t & q & Es & Hm)%search_spec. by apply (find_arn_None s p t q E Hm).
Qed.

Theorem findSubstring_correct_witness :
  ∃ p q, "[default] arn:aws:iam::123456789012:role/logs x" = p +:+
    (findSubstring "[default] arn:aws:iam::123456789012:role/logs x" +:+ q) ∧ ends_word q.
Proof.
  destruct (proj2 (findSubstring_correct "[default] arn:aws:iam::123456789012:role/logs x"))
    as (p & q & E & _ & Hq & _).
  - vm_compute. discriminate.
  - exists p, q. exact (conj E Hq).
Defined.

(** ** Session names *)

Lemma take_bytes_length n s : (String.length (take_bytes n s) ≤ n)%nat.
Proof. revert s. induction n as [|n IH]; intros [|c s]; simpl; [lia..|]. specialize (IH s). lia. Qed.

Lemma take_bytes_app n m s t :
  (String.length (take_bytes n s) ≤ m)%nat → HasPrefix (take_bytes m (take_bytes n s +:+ t)) (take_bytes n s) = true.
Proof.
  revert m s. induction n as [|n IH]; intros m s Hm; [exact (HasPrefix_app "" _)|].
  destruct s as [|c s]; [exact (HasPrefix_app "" _)|].
  destruct m as [|m]; simpl in Hm; [lia|]. cbn [take_bytes String.append HasPrefix String.prefix].
  destruct (Ascii.ascii_dec c c); [|done]. apply IH. lia.
Qed.

(** Session names.  With a cluster identifier the name of a session has at most
    the 64 bytes AWS accepts and starts with the first eight bytes of the
    identifier; without one it is built from the output's name alone and its
    length is not bounded. *)
Theorem generateSessionName_correct clusterID clf out :
  (∀ id, clusterID = Some id → id ≠ "" →
     (String.length (generateSessionName clusterID clf out) ≤ 64)%nat ∧
     HasPrefix (generateSessionName clusterID clf out) (take_bytes 8 id) = true) ∧
  (clusterID = None ∨ clusterID = Some "" →
     String.length (generateSessionName clusterID clf out) = (7 + String.length out)%nat).
Proof.
  split.
  - intros id -> Hne. destruct id as [|c id]; [done|]. unfold generateSessionName.
    pose proof (take_bytes_length 8 (String c id)) as Hl.
    generalize dependent (String c id). clear c id. intros id _ Hl. cbv zeta.
    repeat case_match;
      repeat match goal with H : (_ <? _)%nat = false |- _ => apply Nat.ltb_ge in H end.
    + split; [apply take_bytes_length|]. apply take_bytes_app. lia.
    + split; [done|apply HasPrefix_app].
    + split; [done|apply HasPrefix_app].
  - by intros [-> | ->].
Qed.

Theorem generateSessionName_correct_witness :
  (String.length (generateSessionName (Some "0123456789") "instance" "an-output-with-a-name-that-is-longer-than-the-sixty-four-bytes-of-a-session-name") ≤ 64)%nat.
Proof.
  destruct (proj1 (generateSessionName_correct (Some "0123456789") "instance"
    "an-output-with-a-name-that-is-longer-than-the-sixty-four-bytes-of-a-session-name")
    "0123456789" eq_refl) as [Hl _]; [discriminate|exact Hl].
Defined.

(** ** The profiles *)

(** The token of a role that comes from a secret names it, as the CRD requires. *)
Definition role_token_ok (o : OutputSpec) : Prop :=
  ∀ a r, OutputIsAwsRoleAuth o = Some a → aws_IamRole a = Some r →
    bt_From (ar_Token r) = BearerTokenFromSecret → is_Some (bt_Secret (ar_Token r)).

Lemma OutputIsAwsRoleAuth_role o a : OutputIsAwsRoleAuth o = Some a → is_Some (aws_IamRole a).
Proof.
  assert (∀ auth, with_role auth = Some a → is_Some (aws_IamRole a)) as Hw.
  { intros [b|]; unfold with_role; simpl; [|done].
    destruct (aws_IamRole b) eqn:E; [|done]. intros [= <-]. by rewrite E. }
  unfold OutputIsAwsRoleAuth. destruct (with_role (out_Cloudwatch o ⇀ cw_Authentication)) eqn:E; [|apply Hw].
  intros [= ->]. by eapply Hw.
Qed.

(** What the file says about one output. *)
Record profile_for (clusterID : option string) (clf : string) (secrets : Secrets) (o : OutputSpec)
    (a : AwsAuthentication) (p : ProfileCredentials) : Prop := {
  pf_name : pc_Name p = out_Name o;
  pf_role : pc_RoleARN p = ParseRoleArn a secrets;
  pf_no_assume : OutputIsAssumeRole o = None → pc_AssumeRole p = "";
  pf_assume : ∀ r, OutputIsAssumeRole o = Some r →
    pc_AssumeRole p = AsString secrets (Some (aar_RoleARN r)) ∧
    ParseAssumeRoleArn r secrets = findSubstring (pc_AssumeRole p) ∧
    pc_ExternalID p = aar_ExternalID r ∧
    pc_SessionName p = generateSessionName clusterID clf (out_Name o);
}.

Lemma profile_of_spec clusterID clf secrets o a :
  role_token_ok o → OutputIsAwsRoleAuth o = Some a →
  ∃ p, profile_of clusterID clf secrets o a = Ret p ∧ profile_for clusterID clf secrets o a p.
Proof.
  intros Hok Ha. destruct (OutputIsAwsRoleAuth_role o a Ha) as [r Hr].
  unfold profile_of. rewrite Hr. cbn [deref mbind outcome_bind].
  assert (∃ f, (if bt_From (ar_Token r) == BearerTokenFromSecret then
                  secret ← deref (bt_Secret (ar_Token r));
                  Ret (SecretPath (btsk_Name secret) (btsk_Key secret))
                else Ret (ServiceAccountBasePath TokenKey)) = Ret f) as [f ->].
  { destruct (String.eqb_spec (bt_From (ar_Token r)) BearerTokenFromSecret) as [E|]; [|by eexists].
    destruct (Hok a r Ha Hr E) as [s ->]. by eexists. }
  cbn [mbind outcome_bind]. eexists. split; [done|]. constructor; cbn -[OutputIsAssumeRole].
  - done.
  - done.
  - by intros ->.
  - intros ar ->. split_and!; [done|done| |done]. unfold AssumeRoleHasExternalId.
    by destruct (String.eqb_spec (aar_ExternalID ar) "") as [->|].
Qed.

(** C21. The profiles of the AWS outputs.  There is one profile per output that
    authenticates with a role, in the order of the outputs.  Its role is the ARN
    found in the secret; the role to assume is the secret's text as it is, not the
    ARN that the validation found in it. *)
Theorem GenerateAwsProfileCreds_correct clusterID clf outputs secrets :
  (∀ o, o ∈ outputs → role_token_ok o) →
  ∃ creds, GenerateAwsProfileCreds clusterID clf outputs secrets = Ret creds ∧
    Forall2 (λ o p, ∃ a, OutputIsAwsRoleAuth o = Some a ∧ profile_for clusterID clf secrets o a p)
      (filter (λ o, is_Some (OutputIsAwsRoleAuth o)) outputs) creds.
Proof.
  unfold GenerateAwsProfileCreds. induction outputs as [|o outputs IH]; intros Hok; cbn [concat_mapM].
  { exists []. by split. }
  destruct IH as (creds & Hc & Hall); [intros; apply Hok; set_solver|].
  rewrite filter_cons. destruct (OutputIsAwsRoleAuth o) as [a|] eqn:Ea.
  - destruct (profile_of_spec clusterID clf secrets o a) as (p & Hp & Hf); [apply Hok; set_solver|done|].
    rewrite Hp. cbn [mbind outcome_bind]. rewrite Hc. cbn [mbind outcome_bind app].
    exists (p :: creds). split; [done|]. rewrite decide_True by by eexists.
    constructor; [|done]. by exists a.
  - cbn [mbind outcome_bind]. rewrite Hc. cbn [mbind outcome_bind app].
    exists creds. split; [done|]. rewrite decide_False; [done|]. by intros [? ?].
Qed.

Lemma GenerateCredString_returns clusterID clf outputs secrets :
  (∀ o, o ∈ outputs → role_token_ok o) → returns (GenerateCredString clusterID clf outputs secrets).
Proof.
  intros Hok. apply returns_bind; [|intros; apply returns_ret]. unfold GenerateAwsProfileCreds.
  induction outputs as [|o outputs IH]; cbn [concat_mapM]; [apply returns_ret|].
  apply forall_cons_iff in Hok as [Ho Hl]. apply returns_bind.
  - destruct (OutputIsAwsRoleAuth o) as [a|] eqn:Ea; [|apply returns_ret].
    destruct (profile_of_spec clusterID clf secrets o a Ho Ea) as (p & -> & _). apply returns_ret.
  - intros ? _. apply returns_bind; [by apply IH|]. intros. apply returns_ret.
Qed.

(** ** The credentials file *)

Definition html_special (c : ascii) : bool :=
  existsb (Nat.eqb (Ascii.nat_of_ascii c)) [0; 34; 38; 39; 43; 60; 62].

Lemma html_escape_byte_plain c :
  html_special c = false → html_escape_byte c = String c "".
Proof. destruct c as [[] [] [] [] [] [] [] []]; by vm_compute. Qed.

Lemma html_escape_byte_length c :
  (1 ≤ String.length (html_escape_byte c))%nat ∧
  (html_special c = true → (2 ≤ String.length (html_escape_byte c))%nat).
Proof. destruct c as [[] [] [] [] [] [] [] []]; vm_compute; split; intros; try lia; discriminate. Qed.

Lemma html_escape_length s : (String.length s ≤ String.length (html_escape s))%nat.
Proof.
  induction s as [|c s IH]; [done|]. unfold html_escape in *. cbn [map_bytes String.length].
  rewrite string_app_length. pose proof (proj1 (html_escape_byte_length c)). lia.
Qed.

(** Escaping changes the text exactly when it has a special byte. *)
Lemma html_escape_id s : html_escape s = s ↔ string_forallb (λ c, negb (html_special c)) s = true.
Proof.
  induction s as [|c s IH]; [done|]. cbn [string_forallb].
  change (html_escape (String c s)) with (html_escape_byte c +:+ html_escape s).
  destruct (html_special c) eqn:Hc; cbn [negb andb].
  - split; [|done]. intros E. apply (f_equal String.length) in E. rewrite string_app_length in E.
    pose proof (proj2 (html_escape_byte_length c) Hc). pose proof (html_escape_length s).
    simpl in E. lia.
  - rewrite html_escape_byte_plain by done. rewrite <-IH. simpl. split; [by intros [=]|by intros ->].
Qed.

(** The bytes the CRD admits in an external identifier. *)
Definition external_id_byte (c : ascii) : bool := is_alnum c || in_string c "_+=,.@:/-".

Lemma external_id_special c :
  external_id_byte c = true → html_special c = Ascii.eqb "+" c.
Proof. destruct c as [[] [] [] [] [] [] [] []]; vm_compute; congruence. Qed.

(** A field that the template copies as it is, on its line. *)
Definition plain (s : string) : Prop := html_escape s = s ∧ in_string "010" s = false.

Definition newline : ascii := "010"%char.

(** The lines of the file for one profile; [ext] is the text of the identifier. *)
Definition profile_lines (p : ProfileCredentials) (ext : string) : list string :=
  if pc_AssumeRole p != "" then
    ["# Source profile for initial web identity authentication";
     "[output_" +:+ pc_Name p +:+ "_source]";
     "web_identity_token_file=" +:+ pc_WebIdentityTokenFile p;
     "role_arn=" +:+ pc_RoleARN p;
     "role_session_name=output-" +:+ pc_Name p +:+ "-source";
     "";
     "# Assume role profile for cross-account access";
     "[output_" +:+ pc_Name p +:+ "]";
     "source_profile=output_" +:+ pc_Name p +:+ "_source";
     "role_arn=" +:+ pc_AssumeRole p]
    ++ (if pc_ExternalID p != "" then ["external_id=" +:+ ext] else [])
    ++ (if pc_SessionName p != "" then ["role_session_name=" +:+ pc_SessionName p]
        else ["role_session_name=output-" +:+ pc_Name p])
    ++ [""]
  else
    ["# Direct authentication profile";
     "[output_" +:+ pc_Name p +:+ "]";
     "web_identity_token_file=" +:+ pc_WebIdentityTokenFile p;
     "role_arn=" +:+ pc_RoleARN p;
     "role_session_name=output-" +:+ pc_Name p;
     ""].

(** The fields of the profile other than the identifier are plain. *)
Record profile_plain (p : ProfileCredentials) : Prop := {
  pp_name : plain (pc_Name p);
  pp_role : plain (pc_RoleARN p);
  pp_token : plain (pc_WebIdentityTokenFile p);
  pp_assume : plain (pc_AssumeRole p);
  pp_session : plain (pc_SessionName p);
}.

Lemma ProfileTemplate_one_lines p :
  profile_plain p → ProfileTemplate_one p = Join (profile_lines p (html_escape (pc_ExternalID p))) LF.
Proof.
  intros [[N _] [R _] [W _] [A _] [S _]]. unfold ProfileTemplate_one, profile_lines.
  rewrite N, R, W, A, S.
  destruct (pc_AssumeRole p != ""), (pc_ExternalID p != ""), (pc_SessionName p != "");
    cbn [app Join]; by rewrite !string_app_assoc.
Qed.

Lemma profile_lines_one_line p ext l :
  profile_plain p → in_string newline ext = false → l ∈ profile_lines p ext → in_string newline l = false.
Proof.
  intros [[_ N] [_ R] [_ W] [_ A] [_ S]] He. revert l.
  apply Forall_forall. unfold profile_lines.
  assert (∀ a b, in_string newline a = false → in_string newline b = false →
    in_string newline (a +:+ b) = false) as Happ.
  { intros a b Ha Hb. by rewrite in_string_app, Ha, Hb. }
  destruct (pc_AssumeRole p != ""), (pc_ExternalID p != ""), (pc_SessionName p != "");
    cbn [app]; repeat (apply Forall_cons; split; [repeat (apply Happ; [first [done|reflexivity]|]); first [done|reflexivity]|]);
    apply Forall_nil_2.
Qed.

Lemma html_escape_no_newline s : in_string newline s = false → in_string newline (html_escape s) = false.
Proof.
  induction s as [|c s IH]; [done|]. cbn [in_string]. intros [Hc Hs]%orb_false_iff.
  change (html_escape (String c s)) with (html_escape_byte c +:+ html_escape s).
  rewrite in_string_app, IH, orb_false_r by done. clear -Hc. revert Hc.
  destruct c as [[] [] [] [] [] [] [] []]; vm_compute; congruence.
Qed.

Lemma external_id_admitted_facts s :
  string_forallb external_id_byte s = true →
  in_string newline s = false ∧ (html_escape s = s ↔ in_string "+" s = false).
Proof.
  rewrite html_escape_id. induction s as [|c s IH]; [done|]. cbn [string_forallb in_string].
  intros [Hc Hs]%andb_true_iff. destruct (IH Hs) as [IH1 IH2].
  rewrite IH1, (external_id_special c Hc). split.
  - clear -Hc. revert Hc. destruct c as [[] [] [] [] [] [] [] []]; vm_compute; congruence.
  - rewrite andb_true_iff, orb_false_iff, negb_true_iff, IH2. done.
Qed.

(** The credentials file of a role to assume.  When the other fields have no
    line break and no byte that is special in HTML, the lines of the file are the
    ones of the two profiles, field by field; the external identifier, which the
    API lets contain plus signs, is written as it was given exactly when it has
    none, because the file is rendered with the template engine for HTML. *)
Theorem ProfileTemplate_correct p :
  profile_plain p → pc_AssumeRole p ≠ "" → pc_ExternalID p ≠ "" →
  string_forallb external_id_byte (pc_ExternalID p) = true →
  Split (ProfileTemplate_one p) newline = profile_lines p (html_escape (pc_ExternalID p)) ∧
  (("external_id=" +:+ pc_ExternalID p) ∈ Split (ProfileTemplate_one p) newline ↔
   in_string "+" (pc_ExternalID p) = false).
Proof.
  intros Hp Ha Hne He. destruct (external_id_admitted_facts _ He) as [Hnl Hplus].
  assert (Split (ProfileTemplate_one p) newline = profile_lines p (html_escape (pc_ExternalID p))) as E.
  { rewrite ProfileTemplate_one_lines by done. apply Split_Join.
    - unfold profile_lines. by destruct (pc_AssumeRole p != "").
    - intros l. apply profile_lines_one_line; [done|]. by apply html_escape_no_newline. }
  split; [done|]. rewrite E, <-Hplus. unfold profile_lines.
  destruct (String.eqb_spec (pc_AssumeRole p) "") as [|_]; [done|].
  destruct (String.eqb_spec (pc_ExternalID p) "") as [|_]; [done|]. cbn [negb].
  rewrite !elem_of_app, list_elem_of_singleton. split.
  - intros [Hin|[Hin|[Hin|Hin]]].
    + exfalso. repeat apply elem_of_cons in Hin as [Hin|Hin]; try discriminate. by apply not_elem_of_nil in Hin.
    + symmetry. by apply string_app_inj_l in Hin.
    + exfalso. destruct (pc_SessionName p != ""); apply list_elem_of_singleton in Hin; discriminate.
    + apply list_elem_of_singleton in Hin. discriminate.
  - intros ->. by right; left.
Qed.

Definition example_profile : ProfileCredentials := {|
  pc_Name := "cw"; pc_RoleARN := "arn:aws:iam::123456789012:role/logs";
  pc_WebIdentityTokenFile := "/var/run/ocp-collector/serviceaccount/token";
  pc_AssumeRole := "arn:aws:iam::210987654321:role/logs"; pc_ExternalID := "a+b";
  pc_SessionName := "01234567-instance-cw" |}.

Theorem ProfileTemplate_correct_witness :
  ("external_id=" +:+ pc_ExternalID example_profile) ∉ Split (ProfileTemplate_one example_profile) newline.
Proof.
  intros Hin.
  destruct (ProfileTemplate_correct example_profile) as [_ H].
  - by repeat constructor.
  - discriminate.
  - discriminate.
  - reflexivity.
  - discriminate (proj1 H Hin).
Defined.
