(* ===== verification/ValidateOutputs.v ===== *)
(** * Validation of outputs ([internal/validations/observability/outputs])

    [url.Parse] is a parameter, which gives the scheme of a URL it can parse; so
    is [json.Unmarshal] at the type of the Google credentials file. *)

From S2P Require Import Prelude GoStrings Regex ApiCommon ApiOutputs ApiForwarder Sets Conditions.
From S2P Require Import ObsResources ObsOutputs ObsForwarder ValidateCommon AwsAuth.

Definition CloudwatchDefaultMaxBytes : Z := 1048576.
Definition AzureDefaultMaxBytes : Z := 1000000.

Definition ErrInvalidRoleARN : string := "AWS RoleARN is invalid".
Definition ErrInvalidAssumeRoleARN : string := "AWS AssumeRole RoleARN is invalid".

(** ** Limits on the size of a request *)

Definition too_large (name : string) (limit : Z) (maxWrite : option Quantity) : list string :=
  match maxWrite with
  | Some q =>
      if (limit <? Quantity_Value q)%Z
      then ["maxWrite must not exceed " +:+ Itoa limit +:+ " bytes for " +:+ name +:+ ", got "
              +:+ Itoa (Quantity_Value q) +:+ " bytes"]
      else []
  | None => []
  end.

Definition validateAzureLogsIngestionMaxWrite (output : OutputSpec) : list string :=
  if out_Type output != OutputTypeAzureLogsIngestion then []
  else too_large "AzureLogsIngestion" AzureDefaultMaxBytes
         (out_AzureLogsIngestion output ⇀ ali_Tuning ⇀ (λ t, bt_MaxWrite (alt_Base t))).

Definition validateCloudwatchMaxWrite (output : OutputSpec) : list string :=
  if out_Type output != OutputTypeCloudwatch then []
  else too_large "CloudWatch" CloudwatchDefaultMaxBytes
         (out_Cloudwatch output ⇀ cw_Tuning ⇀ (λ t, bt_MaxWrite (cwt_Base t))).

(** ** AWS and Google authentication *)

Definition ValidateAwsAuth (o : OutputSpec) (context : ForwarderContext) : list string :=
  let secrets := ctx_secrets context in
  match OutputIsAwsRoleAuth o with
  | Some awsAuth => if ParseRoleArn awsAuth secrets == "" then [ErrInvalidRoleARN] else []
  | None => []
  end
  ++ match OutputIsAssumeRole o with
     | Some assumeRoleSpec =>
         if ParseAssumeRoleArn assumeRoleSpec secrets == "" then [ErrInvalidAssumeRoleARN] else []
     | None => []
     end.

Definition gclCredTypeServiceAccount : string := "service_account".
Definition gclCredTypeExternalAccount : string := "external_account".

Record gcpCredentialSource := { gcs_File : string }.

Record gcpCredentialFile := {
  gcf_Type : string;
  gcf_CredentialSource : option gcpCredentialSource;
}.

Definition expectedTokenPath (token : option BearerToken) : string :=
  match token with
  | None => ""
  | Some token =>
      if bt_From token == BearerTokenFromServiceAccount then
        PathJoin [ServiceAccountSecretPath; TokenKey]
      else if bt_From token == BearerTokenFromSecret then
        match bt_Secret token with
        | Some secret => PathJoin [CollectorSecretsDir; btsk_Name secret; btsk_Key secret]
        | None => ""
        end
      else ""
  end.

Definition validateGCLExternalAccount (creds : gcpCredentialFile) (token : option BearerToken) :
    list string :=
  match gcf_CredentialSource creds with
  | None => ["GCP external account credentials missing required field " +:+ DQ +:+
               "credential_source" +:+ DQ]
  | Some source =>
      let expectedPath := expectedTokenPath token in
      if (expectedPath != "") && (gcs_File source != expectedPath)
      then ["GCP external account credential_source.file " +:+ Quote (gcs_File source) +:+
              " does not match expected token path " +:+ Quote expectedPath]
      else []
  end.

Section gcl.
Context (json_Unmarshal : string → option gcpCredentialFile).

Definition parseGCPCredentials (ref : SecretReference) (secrets : Secrets) :
    gcpCredentialFile + string :=
  match Value secrets (Some ref) with
  | None => inr ("GCP credentials secret " +:+ Quote (sr_SecretName ref) +:+ " with key "
                   +:+ Quote (sr_Key ref) +:+ " not found")
  | Some data =>
      match json_Unmarshal data with
      | Some creds => inl creds
      | None => inr "GCP credentials secret is not valid JSON"
      end
  end.

Definition ValidateGCLAuth (o : OutputSpec) (context : ForwarderContext) : list string :=
  match out_GoogleCloudLogging o ⇀ gcl_Authentication with
  | None => []
  | Some auth =>
      match gcla_Credentials auth with
      | None => ["GCP authentication is missing credentials"]
      | Some ref =>
          match parseGCPCredentials ref (ctx_secrets context) with
          | inr err => [err]
          | inl creds =>
              if gcf_Type creds == gclCredTypeServiceAccount then []
              else if gcf_Type creds == gclCredTypeExternalAccount then
                validateGCLExternalAccount creds (gcla_Token auth)
              else ["GCP credentials file has unsupported type " +:+ Quote (gcf_Type creds) +:+
                      ", expected " +:+ Quote gclCredTypeServiceAccount +:+ " or " +:+
                      Quote gclCredTypeExternalAccount]
          end
      end
  end.
End gcl.

(** ** Headers *)

Definition validContentTypes : gmap string string :=
  map_of_assignments [("application/json", "json"); ("application/x-ndjson", "ndjson")].

Definition validateHttpContentTypeHeaders `{RangeOrder} (output : OutputSpec) : list string :=
  if out_Type output == OutputTypeHTTP then
    match out_HTTP output with
    | Some http =>
        match http_Headers http !! "Content-Type" with
        | Some contentType =>
            if default "" (validContentTypes !! ToLower contentType) == "" then
              ["not valid content type set in headers: " +:+ contentType +:+
                 " , supported types: " +:+ Sprint_strings (range validContentTypes).*1]
            else []
        | None => []
        end
    | None => []
    end
  else [].

(** [http.CanonicalHeaderKey] *)
Definition token_byte (c : ascii) : bool :=
  is_alnum c || in_string c "!#$%&'*+-.^_`|~".

Definition upper_byte (c : ascii) : ascii :=
  let n := Ascii.nat_of_ascii c in
  if (97 <=? n)%nat && (n <=? 122)%nat then Ascii.ascii_of_nat (n - 32) else c.

Fixpoint canonical (upper : bool) (s : string) : string :=
  match s with
  | "" => ""
  | String c s => String (if upper then upper_byte c else lower_byte c) (canonical (Ascii.eqb c "-") s)
  end.

Definition CanonicalHeaderKey (s : string) : string :=
  if string_forallb token_byte s then canonical true s else s.

Definition forbidden_header (canonicalName : string) : bool :=
  (canonicalName == "Authorization") || (canonicalName == "Content-Type").

Section headers.
Context `{RangeOrder}.

(** The two accumulators of the loop over the headers. *)
Definition header_step (acc : list string * gmap string (list string)) (h : string) :
    list string * gmap string (list string) :=
  let canonicalName := CanonicalHeaderKey h in
  (if forbidden_header canonicalName then acc.1 ++ [h] else acc.1,
   <[canonicalName := default [] (acc.2 !! canonicalName) ++ [h]]> acc.2).

Definition validateElasticsearchHeaders (output : OutputSpec) : list string :=
  if out_Type output == OutputTypeElasticsearch then
    match out_Elasticsearch output with
    | Some es =>
        let names := (range (es_Headers es)).*1 in
        if (0 <? length names)%nat then
          let '(invalidHeaders, canonicalHeaders) := foldl header_step ([], ∅) names in
          (if (0 <? length invalidHeaders)%nat
           then ["invalid headers found: " +:+ Join (sort_strings invalidHeaders) ","] else [])
          ++ (canonicalName ← sort_strings (range canonicalHeaders).*1;
              let originals := default [] (canonicalHeaders !! canonicalName) in
              if (1 <? length originals)%nat
              then ["duplicate case-variant headers '" +:+
                      Join (sort_strings originals) "', '" +:+ "' found, use canonical form '"
                      +:+ canonicalName +:+ "'"]
              else [])
        else []
    | None => []
    end
  else [].
End headers.

(** ** URLs *)

Definition secureSchemes : list (string * string) := [("https", "http"); ("tls", "tcp"); ("ssl", "tcp")].

Definition secure_base (scheme : string) : string :=
  default "" (map_of_assignments secureSchemes !! scheme).

Definition IsTLSScheme (scheme : string) : bool := secure_base (ToLower scheme) != "".

Definition PlainScheme (scheme : string) : string :=
  let scheme := ToLower scheme in
  match map_of_assignments secureSchemes !! scheme with
  | Some base => base
  | None => scheme
  end.

Record URL := { url_Scheme : string; url_Host : string; url_Path : string }.

(** The error of [CheckAbsolute], [None] when there is none; [show] prints a URL. *)
Definition CheckAbsolute (show : URL → string) (u : option URL) : option string :=
  match u with
  | None => Some "empty"
  | Some u =>
      if url_Scheme u == "" then Some ("no scheme: " +:+ Quote (show u))
      else if url_Host u == "" then Some ("no host: " +:+ Quote (show u))
      else None
  end.

Section urls.
Context (parse_url : string → option URL).

Definition IsSecure (urlString : string) : bool :=
  match parse_url urlString with
  | Some url => IsTLSScheme (url_Scheme url)
  | None => true
  end.

Definition specURLs (output : OutputSpec) : outcome (list string) :=
  if out_Type output == OutputTypeCloudwatch then
    s ← deref (out_Cloudwatch output); Ret [cw_URL s]
  else if out_Type output == OutputTypeElasticsearch then
    s ← deref (out_Elasticsearch output);
    Ret ((if es_URL s != "" then [es_URL s] else []) ++ es_Endpoints s)
  else if out_Type output == OutputTypeHTTP then
    s ← deref (out_HTTP output); Ret [url_URL (http_URLSpec s)]
  else if out_Type output == OutputTypeKafka then
    s ← deref (out_Kafka output); Ret [kafka_URL s]
  else if out_Type output == OutputTypeLoki then
    s ← deref (out_Loki output); Ret [url_URL (loki_URLSpec s)]
  else if out_Type output == OutputTypeSplunk then
    s ← deref (out_Splunk output); Ret [url_URL (splunk_URLSpec s)]
  else if out_Type output == OutputTypeSyslog then
    s ← deref (out_Syslog output); Ret [syslog_URL s]
  else if out_Type output == OutputTypeOTLP then
    s ← deref (out_OTLP output); Ret [otlp_URL s]
  else Ret [].

Definition check_url (tls : OutputTLSSpec) (specURL : string) : outcome (list string) :=
  if specURL == "" then Ret []
  else
    u ← deref (parse_url specURL);
    let scheme := ToLower (url_Scheme u) in
    Ret (if negb (IsTLSScheme scheme)
            && (otls_InsecureSkipVerify tls || bool_decide (is_Some (otls_TLSSecurityProfile tls)))
         then ["URL scheme not secure: " +:+ scheme +:+
                 ", but output has TLS configuration parameters"]
         else []).

Definition validateURLAccordingToTLS (output : OutputSpec) : outcome (list string) :=
  urls ← specURLs output;
  match out_TLS output with
  | Some tls => concat_mapM (check_url tls) urls
  | None => Ret []
  end.
End urls.

(** ** Templates and references *)

Definition template_check (fieldName value : string) : list string :=
  let msg := ValidateTOMLLiteralSafe fieldName value in if msg != "" then [msg] else [].

(** The calls of [add] in [validateOutputTemplates]: names and values. *)
Definition output_templates (output : OutputSpec) : list (string * string) :=
  match out_Cloudwatch output with
  | Some s => [("cloudwatch.groupName", cw_GroupName s)] | None => [] end
  ++ match out_Elasticsearch output with
     | Some s => [("elasticsearch.index", es_Index s)] | None => [] end
  ++ match out_GoogleCloudLogging output with
     | Some s => [("googleCloudLogging.logId", gcl_LogId s)] | None => [] end
  ++ match out_Kafka output with
     | Some s => [("kafka.topic", kafka_Topic s)] | None => [] end
  ++ match out_Loki output with
     | Some s => [("loki.tenantKey", loki_TenantKey s)] | None => [] end
  ++ match out_S3 output with
     | Some s => [("s3.keyPrefix", s3_KeyPrefix s)] | None => [] end
  ++ match out_Splunk output with
     | Some s =>
         [("splunk.index", splunk_Index s); ("splunk.source", splunk_Source s);
          ("splunk.sourceType", splunk_SourceType s); ("splunk.payloadKey", splunk_PayloadKey s)]
         ++ imap (λ i f, ("splunk.indexedFields[" +:+ Itoa_nat i +:+ "]", f)) (splunk_IndexedFields s)
     | None => [] end
  ++ match out_Syslog output with
     | Some s =>
         [("syslog.facility", syslog_Facility s); ("syslog.severity", syslog_Severity s);
          ("syslog.appName", syslog_AppName s); ("syslog.procId", syslog_ProcId s);
          ("syslog.msgId", syslog_MsgId s); ("syslog.payloadKey", syslog_PayloadKey s)]
     | None => [] end.

Definition validateOutputTemplates (output : OutputSpec) : list string :=
  fv ← output_templates output; template_check fv.1 fv.2.

Definition validateOutputIsReferencedByPipelines (output : OutputSpec)
    (pipelines : list PipelineSpec) : list string :=
  if negb (ReferenceOutput pipelines output) then ["not referenced by any pipeline"] else [].

Section validate.
Context `{RangeOrder} (parse_url : string → option URL)
  (json_Unmarshal : string → option gcpCredentialFile) (now : Z).

(** The checks that depend on the type of the output. *)
Definition type_messages (out : OutputSpec) (context : ForwarderContext) : list string :=
  if (out_Type out == OutputTypeCloudwatch) || (out_Type out == OutputTypeS3) then
    ValidateAwsAuth out context
    ++ (if out_Type out == OutputTypeCloudwatch then validateCloudwatchMaxWrite out else [])
  else if out_Type out == OutputTypeGoogleCloudLogging then ValidateGCLAuth json_Unmarshal out context
  else if out_Type out == OutputTypeHTTP then validateHttpContentTypeHeaders out
  else if out_Type out == OutputTypeElasticsearch then validateElasticsearchHeaders out
  else if out_Type out == OutputTypeAzureLogsIngestion then validateAzureLogsIngestionMaxWrite out
  else [].

Definition output_messages (context : ForwarderContext) (out : OutputSpec) : outcome (list string) :=
  configs ← SecretReferencesAsValueReferences out;
  tls ← (match out_TLS out with
         | Some tls =>
             urls ← validateURLAccordingToTLS parse_url out;
             Ret (urls, configs ++ ValueReferences (otls_TLSSpec tls))
         | None => Ret ([], configs)
         end);
  Ret (tls.1
       ++ ValidateValueReference tls.2 (ctx_secrets context) (ctx_configmaps context)
       ++ validateOutputIsReferencedByPipelines out (spec_Pipelines (ctx_Spec context))
       ++ validateOutputTemplates out
       ++ type_messages out context).

Definition output_condition (out : OutputSpec) (messages : list string) : Condition :=
  if (0 <? length messages)%nat then
    NewConditionFromPrefix now ConditionTypeValidOutputPrefix (out_Name out) false
      ReasonValidationFailure (Join messages ",")
  else
    NewConditionFromPrefix now ConditionTypeValidOutputPrefix (out_Name out) true
      ReasonValidationSuccess ("output " +:+ Quote (out_Name out) +:+ " is valid").

(** [outputs.Validate] *)
Definition Validate (context : ForwarderContext) : outcome ForwarderContext :=
  foldM (λ context out,
      messages ← output_messages context out;
      Ret (ctx_set_Status context (st_set_OutputConditions (ctx_Status context)
             (SetCondition now (st_OutputConditions (ctx_Status context))
                (output_condition out messages)).1)))
    context (spec_Outputs (ctx_Spec context)).
End validate.

(** ** The outputs the validation accepts *)

Section headers_ok.
Context `{RangeOrder}.

Lemma header_loop names acc m :
  let r := foldl header_step (acc, m) names in
  r.1 = acc ++ filter (λ h, forbidden_header (CanonicalHeaderKey h) = true) names ∧
  ∀ c, default [] (r.2 !! c) = default [] (m !! c) ++ filter (λ h, CanonicalHeaderKey h = c) names.
Proof.
  revert acc m. induction names as [|h names IH]; intros acc m; cbn [foldl]; cbn zeta.
  { rewrite !filter_nil, app_nil_r. split; [done|]. intros c. by rewrite filter_nil, app_nil_r. }
  destruct (IH (header_step (acc, m) h).1 (header_step (acc, m) h).2) as [H1 H2].
  rewrite <-(surjective_pairing (header_step (acc, m) h)) in H1, H2. split.
  - rewrite H1, filter_cons. simpl.
    destruct (forbidden_header (CanonicalHeaderKey h)); simpl; [|done]. by rewrite <-app_assoc.
  - intros c. rewrite H2, filter_cons. simpl.
    destruct (decide (CanonicalHeaderKey h = c)) as [->|Hne].
    + rewrite lookup_insert_eq. simpl. by rewrite <-app_assoc.
    + by rewrite lookup_insert_ne.
Qed.

Lemma length_filter_unique {A} (P : A → Prop) `{∀ x, Decision (P x)} l :
  NoDup l → (length (filter P l) ≤ 1)%nat ↔ ∀ x y, x ∈ l → y ∈ l → P x → P y → x = y.
Proof.
  intros Hnd. assert (NoDup (filter P l)) as Hf by by apply NoDup_filter.
  assert (∀ x, x ∈ filter P l ↔ P x ∧ x ∈ l) as Hin by (intros; apply list_elem_of_filter).
  destruct (filter P l) as [|a [|b ls]]; simpl.
  - split; [|lia]. intros _ x y Hx _ HPx. exfalso.
    apply (not_elem_of_nil x). by apply Hin.
  - split; [|lia]. intros _ x y Hx Hy HPx HPy.
    assert (x ∈ [a]) as ->%list_elem_of_singleton by by apply Hin.
    assert (y ∈ [a]) as ->%list_elem_of_singleton by by apply Hin. done.
  - split; [lia|]. intros Hall. exfalso.
    apply NoDup_cons in Hf as [Hn _]. apply Hn.
    assert (a ∈ a :: b :: ls) as [??]%Hin by set_solver.
    assert (b ∈ a :: b :: ls) as [??]%Hin by set_solver.
    rewrite (Hall a b); [set_solver|done..].
Qed.

(** The headers an Elasticsearch output may set: none the output sets itself and
    no two that differ in case only. *)
Definition es_headers_ok (headers : gmap string string) : Prop :=
  (∀ h, is_Some (headers !! h) → forbidden_header (CanonicalHeaderKey h) = false) ∧
  (∀ h1 h2, is_Some (headers !! h1) → is_Some (headers !! h2) →
     CanonicalHeaderKey h1 = CanonicalHeaderKey h2 → h1 = h2).

Lemma validateElasticsearchHeaders_nil o es :
  out_Type o = OutputTypeElasticsearch → out_Elasticsearch o = Some es →
  validateElasticsearchHeaders o = [] ↔ es_headers_ok (es_Headers es).
Proof.
  intros Ht Hes. unfold validateElasticsearchHeaders. rewrite Ht, Hes. simpl.
  unfold es_headers_ok. setoid_rewrite <-elem_of_range_fst.
  pose proof (NoDup_range_fst (es_Headers es)) as Hnd.
  generalize dependent (range (es_Headers es)).*1. intros names Hnd.
  destruct (header_loop names [] ∅) as [H1 H2]. cbn zeta in *.
  destruct (foldl header_step ([], ∅) names) as [invalid canon]. simpl in *.
  destruct (Nat.ltb_spec 0 (length names)) as [Hlen|Hlen].
  2: { destruct names; [|simpl in Hlen; lia]. split; [|done].
       intros _. split; [intros h Hh|intros h ? Hh]; by apply not_elem_of_nil in Hh. }
  rewrite app_nil, if_nil, Nat.ltb_ge, bind_nil_iff. f_equiv.
  - rewrite H1. split.
    + intros Hl h Hh. destruct (forbidden_header (CanonicalHeaderKey h)) eqn:E; [|done].
      assert (h ∈ filter (λ h, forbidden_header (CanonicalHeaderKey h) = true) names) as Hin.
      { by apply list_elem_of_filter. }
      destruct (filter _ names); [by apply not_elem_of_nil in Hin|simpl in Hl; lia].
    + intros Hall. destruct (filter _ names) as [|h l] eqn:E; [simpl; lia|].
      assert (h ∈ filter (λ h, forbidden_header (CanonicalHeaderKey h) = true) names) as Hin.
      { rewrite E. set_solver. }
      apply list_elem_of_filter in Hin as [Hf Hh]. rewrite Hall in Hf; done.
  - assert (∀ c, default [] (canon !! c) = filter (λ h, CanonicalHeaderKey h = c) names) as Hc.
    { intros c. rewrite H2, lookup_empty. done. }
    split.
    + intros Hall h1 h2 Hh1 Hh2 E.
      set (c := CanonicalHeaderKey h1) in *.
      destruct (canon !! c) as [l|] eqn:El.
      * specialize (Hall c). rewrite if_nil, Nat.ltb_ge, Hc in Hall.
        rewrite length_filter_unique in Hall by done.
        apply Hall; [|done..].
        rewrite elem_of_sort_strings, elem_of_range_fst. by eexists.
      * specialize (Hc c). rewrite El in Hc. simpl in Hc.
        assert (h1 ∈ filter (λ h, CanonicalHeaderKey h = c) names) as Hin
          by by apply list_elem_of_filter.
        rewrite <-Hc in Hin. by apply not_elem_of_nil in Hin.
    + intros Hall c _. rewrite if_nil, Nat.ltb_ge, Hc, length_filter_unique by done.
      intros x y Hx Hy Ex Ey. apply Hall; congruence.
Qed.
End headers_ok.

Lemma validContentTypes_spec ct :
  (default "" (validContentTypes !! ct) == "") = false ↔
  ct = "application/json" ∨ ct = "application/x-ndjson".
Proof.
  destruct (validContentTypes !! ct) as [v|] eqn:E.
  - apply map_of_assignments_elem in E.
    apply elem_of_cons in E as [[= -> ->]|[[= -> ->]|[]%not_elem_of_nil]%elem_of_cons];
      (split; [|done]); auto.
  - split; [done|]. intros Hct.
    assert (is_Some (validContentTypes !! ct)) as [? ?]; [|congruence].
    apply map_of_assignments_dom. destruct Hct as [->| ->]; set_solver.
Qed.

Lemma validateHttpContentTypeHeaders_nil `{RangeOrder} o http :
  out_Type o = OutputTypeHTTP → out_HTTP o = Some http →
  validateHttpContentTypeHeaders o = [] ↔
  ∀ ct, http_Headers http !! "Content-Type" = Some ct →
    ToLower ct = "application/json" ∨ ToLower ct = "application/x-ndjson".
Proof.
  intros Ht Hh. unfold validateHttpContentTypeHeaders. rewrite Ht, Hh, String.eqb_refl.
  destruct (http_Headers http !! "Content-Type") as [ct|]; [|by split].
  rewrite if_nil, validContentTypes_spec. split; [by intros ? ? [= <-]|]. intros Hall. by apply Hall.
Qed.

Lemma too_large_nil name limit w :
  too_large name limit w = [] ↔ ∀ q, w = Some q → (Quantity_Value q ≤ limit)%Z.
Proof.
  unfold too_large. destruct w as [q|]; [|by split].
  destruct (Z.ltb_spec limit (Quantity_Value q)); split; try done.
  - intros Hall. specialize (Hall q eq_refl). lia.
  - by intros _ ? [= <-].
Qed.

Section output_ok.
Context `{RangeOrder} (parse_url : string → option URL)
  (json_Unmarshal : string → option gcpCredentialFile).

Definition aws_auth_ok (context : ForwarderContext) (o : OutputSpec) : Prop :=
  (∀ a, OutputIsAwsRoleAuth o = Some a → ParseRoleArn a (ctx_secrets context) ≠ "") ∧
  (∀ r, OutputIsAssumeRole o = Some r → ParseAssumeRoleArn r (ctx_secrets context) ≠ "").

(** The credentials of Google are a file of one of two types, and an external
    account reads the token where the collector mounts it. *)
Definition gcl_ok (context : ForwarderContext) (o : OutputSpec) : Prop :=
  ∀ auth, out_GoogleCloudLogging o ⇀ gcl_Authentication = Some auth →
    ∃ ref data creds, gcla_Credentials auth = Some ref ∧
      Value (ctx_secrets context) (Some ref) = Some data ∧ json_Unmarshal data = Some creds ∧
      (gcf_Type creds = gclCredTypeServiceAccount ∨
       gcf_Type creds = gclCredTypeExternalAccount ∧
       ∃ source, gcf_CredentialSource creds = Some source ∧
         (expectedTokenPath (gcla_Token auth) = "" ∨
          gcs_File source = expectedTokenPath (gcla_Token auth))).

Definition type_ok (context : ForwarderContext) (o : OutputSpec) : Prop :=
  (out_Type o = OutputTypeCloudwatch ∨ out_Type o = OutputTypeS3 → aws_auth_ok context o) ∧
  (out_Type o = OutputTypeCloudwatch → ∀ q,
     out_Cloudwatch o ⇀ cw_Tuning ⇀ (λ t, bt_MaxWrite (cwt_Base t)) = Some q →
     (Quantity_Value q ≤ CloudwatchDefaultMaxBytes)%Z) ∧
  (out_Type o = OutputTypeGoogleCloudLogging → gcl_ok context o) ∧
  (out_Type o = OutputTypeHTTP → ∀ http ct, out_HTTP o = Some http →
     http_Headers http !! "Content-Type" = Some ct →
     ToLower ct = "application/json" ∨ ToLower ct = "application/x-ndjson") ∧
  (out_Type o = OutputTypeElasticsearch → ∀ es, out_Elasticsearch o = Some es →
     es_headers_ok (es_Headers es)) ∧
  (out_Type o = OutputTypeAzureLogsIngestion → ∀ q,
     out_AzureLogsIngestion o ⇀ ali_Tuning ⇀ (λ t, bt_MaxWrite (alt_Base t)) = Some q →
     (Quantity_Value q ≤ AzureDefaultMaxBytes)%Z).

(** TLS parameters are set for secure URLs only. *)
Definition url_ok (tls : OutputTLSSpec) (u : string) : Prop :=
  u ≠ "" → ∃ p, parse_url u = Some p ∧
    (otls_InsecureSkipVerify tls = true ∨ is_Some (otls_TLSSecurityProfile tls) →
     IsTLSScheme (ToLower (url_Scheme p)) = true).

Record output_ok (context : ForwarderContext) (o : OutputSpec) : Prop := {
  ook_secrets : ∀ refs r, SecretReferences o = Ret refs → Some r ∈ refs →
    reference_resolves (ctx_secrets context) (ctx_configmaps context) (secret_as_value r);
  ook_tls : ∀ tls v, out_TLS o = Some tls → v ∈ ValueReferences (otls_TLSSpec tls) →
    reference_resolves (ctx_secrets context) (ctx_configmaps context) v;
  ook_urls : ∀ tls urls u, out_TLS o = Some tls → specURLs o = Ret urls → u ∈ urls → url_ok tls u;
  ook_referenced : ∃ p, p ∈ spec_Pipelines (ctx_Spec context) ∧ out_Name o ∈ pipe_OutputRefs p;
  ook_templates : ∀ fv, fv ∈ output_templates o → toml_safe fv.2;
  ook_type : type_ok context o;
}.

(** *** The checks of one type *)

Lemma ValidateAwsAuth_nil context o : ValidateAwsAuth o context = [] ↔ aws_auth_ok context o.
Proof.
  unfold ValidateAwsAuth, aws_auth_ok. rewrite app_nil. f_equiv.
  - destruct (OutputIsAwsRoleAuth o) as [a|]; [|by split].
    rewrite if_nil, String.eqb_neq. split; [by intros ? ? [= <-]|]. intros Hall. by apply Hall.
  - destruct (OutputIsAssumeRole o) as [a|]; [|by split].
    rewrite if_nil, String.eqb_neq. split; [by intros ? ? [= <-]|]. intros Hall. by apply Hall.
Qed.

Lemma validateGCLExternalAccount_nil creds token :
  validateGCLExternalAccount creds token = [] ↔
  ∃ source, gcf_CredentialSource creds = Some source ∧
    (expectedTokenPath token = "" ∨ gcs_File source = expectedTokenPath token).
Proof.
  unfold validateGCLExternalAccount.
  destruct (gcf_CredentialSource creds) as [s|]; [|split; [done|by intros (?&[=]&_)]].
  cbn zeta. rewrite if_nil, andb_false_iff, !negb_false_iff, !String.eqb_eq.
  split; [by exists s|]. by intros (? & [= <-] & ?).
Qed.

Lemma ValidateGCLAuth_nil context o :
  ValidateGCLAuth json_Unmarshal o context = [] ↔ gcl_ok context o.
Proof.
  unfold ValidateGCLAuth, gcl_ok, parseGCPCredentials.
  destruct (out_GoogleCloudLogging o ⇀ gcl_Authentication) as [auth|]; [|by split].
  split.
  - intros Hnil ? [= <-].
    destruct (gcla_Credentials auth) as [ref|]; [|done].
    destruct (Value (ctx_secrets context) (Some ref)) as [data|] eqn:Hd; [|done].
    destruct (json_Unmarshal data) as [creds|] eqn:Hj; [|done].
    exists ref, data, creds. do 3 (split; [done|]).
    destruct (String.eqb_spec (gcf_Type creds) gclCredTypeServiceAccount); [by left|].
    destruct (String.eqb_spec (gcf_Type creds) gclCredTypeExternalAccount); [|done].
    right. by rewrite <-validateGCLExternalAccount_nil.
  - intros Hall. destruct (Hall auth eq_refl) as (ref & data & creds & -> & -> & -> & Hor).
    destruct (String.eqb_spec (gcf_Type creds) gclCredTypeServiceAccount); [done|].
    destruct Hor as [?|[-> Hs]]; [done|]. simpl. by apply validateGCLExternalAccount_nil.
Qed.

Lemma type_messages_nil context o :
  output_admitted o → type_messages json_Unmarshal o context = [] ↔ type_ok context o.
Proof.
  intros Ho. unfold type_messages, type_ok.
  destruct (String.eqb_spec (out_Type o) OutputTypeCloudwatch) as [E|N1]; simpl.
  { rewrite app_nil, ValidateAwsAuth_nil. unfold validateCloudwatchMaxWrite. rewrite E. simpl.
    rewrite too_large_nil. split.
    - intros [? ?]. split_and!; by try intros [=].
    - intros (Ha & Hm & _). split; [apply Ha; by left|by apply Hm]. }
  destruct (String.eqb_spec (out_Type o) OutputTypeS3) as [E|N2]; simpl.
  { rewrite app_nil_r, ValidateAwsAuth_nil. rewrite E. split.
    - intros ?. split_and!; by try intros [=].
    - intros (Ha & _). apply Ha. by right. }
  destruct (String.eqb_spec (out_Type o) OutputTypeGoogleCloudLogging) as [E|N3].
  { rewrite ValidateGCLAuth_nil, E. split.
    - intros ?. split_and!; try done; by intros [[=]|[=]].
    - intros (_ & _ & Ha & _). by apply Ha. }
  destruct (String.eqb_spec (out_Type o) OutputTypeHTTP) as [E|N4].
  { destruct (oa_http _ Ho E) as [http Hh].
    rewrite (validateHttpContentTypeHeaders_nil _ http) by done. rewrite E, Hh. split.
    - intros Hct. split_and!; try done; [by intros [[=]|[=]]|].
      intros _ ? ct [= <-]. apply Hct.
    - intros (_ & _ & _ & Ha & _) ct. by apply Ha. }
  destruct (String.eqb_spec (out_Type o) OutputTypeElasticsearch) as [E|N5].
  { destruct (oa_es _ Ho E) as [es Hes].
    rewrite (validateElasticsearchHeaders_nil _ es) by done. rewrite E, Hes. split.
    - intros Hct. split_and!; try done; [by intros [[=]|[=]]|by intros _ ? [= <-]].
    - intros (_ & _ & _ & _ & Ha & _). by apply Ha. }
  destruct (String.eqb_spec (out_Type o) OutputTypeAzureLogsIngestion) as [E|N6].
  { unfold validateAzureLogsIngestionMaxWrite. rewrite E. simpl. rewrite too_large_nil. split.
    - intros Hm. split_and!; try done; by intros [[=]|[=]].
    - intros (_ & _ & _ & _ & _ & Ha). by apply Ha. }
  split; [|done]. intros _. split_and!; try done. by intros [?|?].
Qed.
End output_ok.

Lemma deref_bind {A B} (p : option A) (f : A → outcome B) x :
  p = Some x → (y ← deref p; f y) = f x.
Proof. by intros ->. Qed.

Section outputs_valid.
Context `{RangeOrder} (parse_url : string → option URL)
  (json_Unmarshal : string → option gcpCredentialFile) (now : Z).

(** The URLs the outputs name can be parsed, as the CRD requires. *)
Definition urls_parse (o : OutputSpec) : Prop :=
  ∀ urls u, specURLs o = Ret urls → u ∈ urls → u ≠ "" → is_Some (parse_url u).

Lemma specURLs_returns o : output_admitted o → returns (specURLs o).
Proof.
  intros Ho. unfold specURLs.
  repeat match goal with
  | |- context [out_Type o == ?t] => destruct (String.eqb_spec (out_Type o) t) as [?E|?N];
      [apply returns_bind; [apply returns_deref|intros; apply returns_ret]|]
  end; [by destruct Ho; auto..|apply returns_ret].
Qed.

(** What the validation needs of an output: the CRD admitted it, and the two
    things the CRD leaves open. *)
Definition validatable (o : OutputSpec) : Prop :=
  output_admitted o ∧ kafka_has_sasl o ∧ urls_parse o.

Lemma check_url_spec tls u :
  (u ≠ "" → is_Some (parse_url u)) →
  ∃ ms, check_url parse_url tls u = Ret ms ∧ (ms = [] ↔ url_ok parse_url tls u).
Proof.
  intros Hp. unfold check_url, url_ok.
  destruct (String.eqb_spec u "") as [->|Hne]; [by eexists|].
  destruct (Hp Hne) as [p Hpu]. rewrite Hpu. simpl. eexists. split; [done|].
  rewrite if_nil, andb_false_iff, negb_false_iff, orb_false_iff, bool_decide_eq_false. split.
  - intros Hor _. exists p. split; [done|]. intros Hset.
    destruct Hor as [?|[? ?]]; [done|]. destruct Hset; congruence.
  - intros Hall. destruct (Hall Hne) as (p' & [= <-] & Hsec).
    destruct (otls_InsecureSkipVerify tls); [left; auto|].
    destruct (otls_TLSSecurityProfile tls); [left; eauto|]. right. split; [done|].
    by intros [? [=]].
Qed.

Lemma check_urls_spec tls urls :
  (∀ u, u ∈ urls → u ≠ "" → is_Some (parse_url u)) →
  ∃ ms, concat_mapM (check_url parse_url tls) urls = Ret ms ∧
    (ms = [] ↔ ∀ u, u ∈ urls → url_ok parse_url tls u).
Proof.
  induction urls as [|u urls IH]; intros Hp; simpl.
  { exists []. split; [done|]. set_solver. }
  destruct (check_url_spec tls u) as (ms & Hu & Hms); [apply Hp; set_solver|].
  destruct IH as (ms' & Hl & Hms'); [set_solver|].
  rewrite Hu. simpl. rewrite Hl. simpl. eexists. split; [done|].
  by rewrite app_nil, Hms, Hms', forall_cons_iff.
Qed.

Lemma output_messages_spec context o :
  validatable o →
  ∃ ms, output_messages parse_url json_Unmarshal context o = Ret ms ∧
    (ms = [] ↔ output_ok parse_url json_Unmarshal context o).
Proof.
  intros (Ho & Hk & Hp). unfold output_messages, SecretReferencesAsValueReferences.
  destruct (SecretReferences_returns o Ho Hk) as [refs Hrefs]. rewrite Hrefs. simpl.
  destruct (specURLs_returns o Ho) as [urls Hurls].
  assert (∃ ms vs, (match out_TLS o with
      | Some tls => us ← validateURLAccordingToTLS parse_url o;
          Ret (us, (secret_as_value <$> somes refs) ++ ValueReferences (otls_TLSSpec tls))
      | None => Ret ([], secret_as_value <$> somes refs) end) = Ret (ms, vs) ∧
    (ms = [] ↔ ∀ tls u, out_TLS o = Some tls → u ∈ urls → url_ok parse_url tls u) ∧
    (∀ v, v ∈ vs ↔ (∃ r, Some r ∈ refs ∧ v = secret_as_value r) ∨
       ∃ tls, out_TLS o = Some tls ∧ v ∈ ValueReferences (otls_TLSSpec tls)))
    as (ms & vs & Htls & Hms & Hvs).
  { assert (∀ v, v ∈ secret_as_value <$> somes refs ↔ ∃ r, Some r ∈ refs ∧ v = secret_as_value r) as Hr.
    { intros v. rewrite list_elem_of_fmap. setoid_rewrite elem_of_somes.
      split; intros (r & ? & ?); eauto. }
    destruct (out_TLS o) as [tls|] eqn:Et.
    - unfold validateURLAccordingToTLS. rewrite Hurls. simpl. rewrite Et.
      destruct (check_urls_spec tls urls) as (ms & -> & Hms).
      { intros u Hu. by apply (Hp urls). }
      simpl. eexists _, _. split; [done|]. split.
      + rewrite Hms. split; [by intros Hall ? u [= <-]; apply Hall|intros Hall u; by apply Hall].
      + intros v. rewrite elem_of_app, Hr. split; (intros [?|Hv]; [by left|right]); [by exists tls|].
        by destruct Hv as (? & [= <-] & ?).
    - eexists _, _. split; [done|]. split; [by split|]. intros v. rewrite Hr.
      split; [by left|]. intros [?|(? & [=] & _)]. done. }
  rewrite Htls. simpl. eexists. split; [done|].
  rewrite !app_nil, Hms, ValidateValueReference_nil, (type_messages_nil json_Unmarshal context o Ho).
  unfold validateOutputIsReferencedByPipelines, validateOutputTemplates.
  rewrite if_nil, negb_false_iff, ReferenceOutput_spec, bind_nil_iff.
  unfold template_check. cbn zeta. setoid_rewrite message_nil.
  setoid_rewrite ValidateTOMLLiteralSafe_spec. setoid_rewrite Hvs.
  split.
  - intros (Hu & Hv & Hr & Ht & Hty). constructor; [| | |done|done|done].
    + intros refs' r Hrefs' Hin. rewrite Hrefs in Hrefs'. injection Hrefs' as <-. apply Hv. eauto.
    + intros tls v Htls' Hin. apply Hv. eauto.
    + intros tls urls' u Htls' Hurls' Hin. rewrite Hurls in Hurls'. injection Hurls' as <-. eauto.
  - intros [H1 H2 H3 H4 H5 H6]. split_and!; [eauto| |done|done|done].
    intros r [(s & Hs & ->)|(tls & Ht & Hr)]; eauto.
Qed.

(** The loop over the outputs, which writes conditions only. *)
Lemma ValidateOutputs_loop l context :
  (∀ o, o ∈ l → validatable o) →
  ∃ cs, foldM (λ context out,
      messages ← output_messages parse_url json_Unmarshal context out;
      Ret (ctx_set_Status context (st_set_OutputConditions (ctx_Status context)
             (SetCondition now (st_OutputConditions (ctx_Status context))
                (output_condition now out messages)).1))) context l =
    Ret (ctx_set_Status context (st_set_OutputConditions (ctx_Status context)
           (SetConditions now (st_OutputConditions (ctx_Status context)) cs))) ∧
    types cs = prefixed ConditionTypeValidOutputPrefix <$> (out_Name <$> l) ∧
    ((∀ c, c ∈ cs → cond_Status c = ConditionTrue) ↔
     ∀ o, o ∈ l → output_ok parse_url json_Unmarshal context o).
Proof.
  revert context. induction l as [|o l IH]; intros context Hl; cbn [foldM].
  { exists []. split; [by destruct context as [[? ? []]]|]. split; [done|]. set_solver. }
  destruct (output_messages_spec context o) as (ms & Ho & Hms); [apply Hl; set_solver|].
  rewrite Ho. simpl.
  match goal with |- context [foldM _ ?c l] => set (context' := c) end.
  destruct (IH context') as (cs & Hcs & Hty & Hall); [set_solver|].
  rewrite Hcs. exists (output_condition now o ms :: cs). split; [done|]. split.
  - simpl. rewrite Hty. f_equal. unfold output_condition. by case_match.
  - rewrite !forall_cons_iff, Hall, <-Hms.
    assert (∀ o', output_ok parse_url json_Unmarshal context' o' ↔
      output_ok parse_url json_Unmarshal context o') as Hsame.
    { intros o'. split; intros [? ? ? ? ? ?]; by constructor. }
    setoid_rewrite Hsame. f_equiv. unfold output_condition.
    destruct ms; simpl; split; done.
Qed.

Lemma ValidateOutputs_spec context :
  let spec := ctx_Spec context in
  let old := st_OutputConditions (ctx_Status context) in
  (∀ o, o ∈ spec_Outputs spec → validatable o) →
  NoDup (out_Name <$> spec_Outputs spec) → NoDup (types old) →
  (∀ ty, ty ∈ types old →
     ty ∈ prefixed ConditionTypeValidOutputPrefix <$> (out_Name <$> spec_Outputs spec)) →
  ∃ cs, Validate parse_url json_Unmarshal now context = Ret (ctx_set_Status context
      (st_set_OutputConditions (ctx_Status context) cs)) ∧
    NoDup (types cs) ∧
    (isValid ConditionTypeValidOutputPrefix cs (length (spec_Outputs spec)) = true ↔
     ∀ o, o ∈ spec_Outputs spec → output_ok parse_url json_Unmarshal context o).
Proof.
  cbn zeta. intros Hval Hnd Hold Hstale.
  destruct (ValidateOutputs_loop (spec_Outputs (ctx_Spec context)) context Hval) as (cs & Hcs & Hty & Hall).
  unfold Validate. rewrite Hcs. eexists. split; [done|].
  split; [by apply SetConditions_NoDup|].
  rewrite <-(length_fmap out_Name), parts_isValid; [done|done..|by rewrite Hty].
Qed.
End outputs_valid.

(** ** The headers of Elasticsearch outputs *)

Lemma header_loop_dom names acc m c :
  is_Some ((foldl header_step (acc, m) names).2 !! c) ↔ is_Some (m !! c) ∨ c ∈ CanonicalHeaderKey <$> names.
Proof.
  revert acc m. induction names as [|h names IH]; intros acc m; cbn [foldl fmap list_fmap].
  { split; [by left|]. by intros [?|?%not_elem_of_nil]. }
  unfold header_step at 2. rewrite IH, elem_of_cons.
  destruct (decide (CanonicalHeaderKey h = c)) as [<-|Hne].
  - rewrite lookup_insert_eq. split; [|eauto]. intros _. right. by left.
  - rewrite lookup_insert_ne by done. split; [tauto|]. intros [?|[?|?]]; [by left|congruence|by right].
Qed.

(** The messages of the loop, up to the order of the names. *)
Lemma header_messages_perm (o1 o2 : RangeOrder) names1 names2 :
  names1 ≡ₚ names2 →
  let messages o (r : list string * gmap string (list string)) :=
    (if (0 <? length r.1)%nat then ["invalid headers found: " +:+ Join (sort_strings r.1) ","] else [])
    ++ (canonicalName ← sort_strings (@range o _ r.2).*1;
        let originals := default [] (r.2 !! canonicalName) in
        if (1 <? length originals)%nat
        then ["duplicate case-variant headers '" +:+
                Join (sort_strings originals) "', '" +:+ "' found, use canonical form '"
                +:+ canonicalName +:+ "'"] else []) in
  messages o1 (foldl header_step ([], ∅) names1) = messages o2 (foldl header_step ([], ∅) names2).
Proof.
  intros Hp. cbv beta zeta.
  destruct (header_loop names1 [] ∅) as [A1 M1], (header_loop names2 [] ∅) as [A2 M2].
  pose proof (header_loop_dom names1 [] ∅) as D1. pose proof (header_loop_dom names2 [] ∅) as D2.
  cbn zeta in *. set (r1 := foldl header_step ([], ∅) names1) in *.
  set (r2 := foldl header_step ([], ∅) names2) in *.
  assert (r1.1 ≡ₚ r2.1) as Hacc by (rewrite A1, A2; simpl; by rewrite Hp).
  assert (∀ c, default [] (r1.2 !! c) ≡ₚ default [] (r2.2 !! c)) as Hval.
  { intros c. rewrite M1, M2. rewrite lookup_empty. simpl. by rewrite Hp. }
  rewrite (Permutation_length Hacc), (sort_strings_proper _ _ Hacc). f_equal.
  assert (sort_strings (@range o1 _ r1.2).*1 = sort_strings (@range o2 _ r2.2).*1) as ->.
  { apply sort_strings_proper, NoDup_Permutation; try apply NoDup_range_fst.
    intros c. rewrite !elem_of_range_fst, D1, D2. by rewrite Hp. }
  apply list_bind_ext; [|done]. intros c.
  by rewrite (Permutation_length (Hval c)), (sort_strings_proper _ _ (Hval c)).
Qed.

(** The headers of an Elasticsearch output.  They are accepted exactly when none
    of them, in canonical form, is one the output sets itself and no two of them
    have the same canonical form; and the messages are the same whatever the order
    in which the map of the headers is visited. *)
Theorem validateElasticsearchHeaders_correct (o1 o2 : RangeOrder) o es :
  out_Type o = OutputTypeElasticsearch → out_Elasticsearch o = Some es →
  (@validateElasticsearchHeaders o1 o = [] ↔ es_headers_ok (es_Headers es)) ∧
  @validateElasticsearchHeaders o1 o = @validateElasticsearchHeaders o2 o.
Proof.
  intros Ht Hes. split; [by apply validateElasticsearchHeaders_nil|].
  unfold validateElasticsearchHeaders. rewrite Ht, Hes. simpl (_ == _). cbn iota. cbv zeta.
  assert ((@range o1 _ (es_Headers es)).*1 ≡ₚ (@range o2 _ (es_Headers es)).*1) as Hp
    by by rewrite !range_perm.
  pose proof (Permutation_length Hp) as Hl.
  pose proof (header_messages_perm o1 o2 _ _ Hp) as Hm. cbv zeta in Hm.
  rewrite Hl. destruct (0 <? length (@range o2 _ (es_Headers es)).*1)%nat; [|done].
  destruct (foldl header_step ([], ∅) (@range o1 _ (es_Headers es)).*1) as [i1 c1],
    (foldl header_step ([], ∅) (@range o2 _ (es_Headers es)).*1) as [i2 c2]. exact Hm.
Qed.
