(* ===== verification/ValidatePipelines.v ===== *)
(** * Validation of pipelines ([internal/validations/observability/pipelines])

    The variable [messages] of [Validate] is declared before the loop and never
    reset: it is threaded from one pipeline to the next. *)

From S2P Require Import Prelude GoStrings ApiCommon ApiInputs ApiFilters ApiOutputs ApiForwarder.
From S2P Require Import Sets Conditions ObsResources ObsInputs ObsOutputs ObsForwarder.
From S2P Require Import ValidateCommon.

(** The references of [refs] that the map has no entry for. *)
Definition missing {V} (m : gmap string V) (refs : list string) : list string :=
  filter (λ ref, m !! ref = None) refs.

Definition missing_message {V} (kind : string) (m : gmap string V) (refs : list string) : list string :=
  if (0 <? length (missing m refs))%nat
  then [kind +:+ Sprint_strings (missing m refs)] else [].

Definition validateRef (pipeline : PipelineSpec) (inputs : gmap string InputSpec)
    (outputs : gmap string OutputSpec) (filters : gmap string FilterSpec) : list string :=
  missing_message "inputs" inputs (pipe_InputRefs pipeline)
  ++ missing_message "outputs" outputs (pipe_OutputRefs pipeline)
  ++ missing_message "filters" filters (pipe_FilterRefs pipeline).

Definition hostName : FieldPath := ".hostname".

Definition prunesHostName (f : FilterSpec) : outcome bool :=
  if filter_Type f != FilterTypePrune then Ret false
  else
    p ← deref (filter_PruneFilterSpec f);
    let inListPrunes :=
      match prune_NotIn p with
      | Some notIn => negb (existsb (String.eqb hostName) notIn)
      | None => false
      end in
    let notInListPrunes :=
      match prune_In p with
      | Some inList => existsb (String.eqb hostName) inList
      | None => false
      end in
    Ret (inListPrunes || notInListPrunes).

Definition host_message (f : FilterSpec) (o : OutputSpec) : string :=
  Quote (filter_Name f) +:+ " prunes the `.hostname` field which is required for output: "
    +:+ Quote (out_Name o) +:+ " of type " +:+ Quote (out_Type o) +:+ ".".

Definition verifyHostNameNotFilteredForGCL (pipeline : PipelineSpec)
    (outputs : gmap string OutputSpec) (filters : gmap string FilterSpec) : outcome (list string) :=
  if (length (pipe_FilterRefs pipeline) =? 0)%nat then Ret []
  else
    concat_mapM (λ out,
      match outputs !! out with
      | Some output =>
          if out_Type output == OutputTypeGoogleCloudLogging then
            concat_mapM (λ f,
              match filters !! f with
              | Some filterSpec =>
                  prunes ← prunesHostName filterSpec;
                  Ret (if (prunes : bool) then [host_message filterSpec output] else [])
              | None => Ret []
              end) (pipe_FilterRefs pipeline)
          else Ret []
      | None => Ret []
      end) (pipe_OutputRefs pipeline).

Section validate.
Context (now : Z).

Definition pipeline_condition (p : PipelineSpec) (messages : list string) : Condition :=
  if (0 <? length messages)%nat then
    NewConditionFromPrefix now ConditionTypeValidPipelinePrefix (pipe_Name p) false
      ReasonValidationFailure (Join messages ",")
  else
    NewConditionFromPrefix now ConditionTypeValidPipelinePrefix (pipe_Name p) true
      ReasonValidationSuccess ("pipeline " +:+ Quote (pipe_Name p) +:+ " is valid").

(** What one pipeline appends to the messages. *)
Definition pipeline_messages (spec : ClusterLogForwarderSpec) (p : PipelineSpec) :
    outcome (list string) :=
  let inputs := Inputs_Map (spec_Inputs spec) in
  let outputs := Outputs_Map (spec_Outputs spec) in
  let filters := FilterMap spec in
  let refMessages := validateRef p inputs outputs filters in
  hosts ← verifyHostNameNotFilteredForGCL p outputs filters;
  Ret ((if (0 <? length refMessages)%nat
        then ["refs not found: " +:+ Join refMessages ","] else []) ++ hosts).

(** [pipelines.Validate]: the state of the loop is the messages and the
    conditions. *)
Definition Validate (context : ForwarderContext) : outcome ForwarderContext :=
  st ← foldM (λ st p,
      appended ← pipeline_messages (ctx_Spec context) p;
      let messages := st.1 ++ appended in
      Ret (messages, (SetCondition now st.2 (pipeline_condition p messages)).1))
    ([], st_PipelineConditions (ctx_Status context)) (spec_Pipelines (ctx_Spec context));
  Ret (ctx_set_Status context (st_set_PipelineConditions (ctx_Status context) st.2)).
End validate.

(** ** The pipelines the validation accepts *)

Definition prunes_hostname (f : FilterSpec) : Prop :=
  ∃ p, filter_PruneFilterSpec f = Some p ∧ filter_Type f = FilterTypePrune ∧
    ((∃ l, prune_NotIn p = Some l ∧ hostName ∉ l) ∨ (∃ l, prune_In p = Some l ∧ hostName ∈ l)).

Record pipeline_ok (spec : ClusterLogForwarderSpec) (p : PipelineSpec) : Prop := {
  pok_inputs : ∀ r, r ∈ pipe_InputRefs p → r ∈ Inputs_Names (spec_Inputs spec);
  pok_outputs : ∀ r, r ∈ pipe_OutputRefs p → r ∈ Outputs_Names (spec_Outputs spec);
  pok_filters : ∀ r, r ∈ pipe_FilterRefs p → r ∈ Filters_Names (spec_Filters spec);
  pok_hostname : ∀ o f out flt, o ∈ pipe_OutputRefs p → f ∈ pipe_FilterRefs p →
    Outputs_Map (spec_Outputs spec) !! o = Some out → FilterMap spec !! f = Some flt →
    out_Type out = OutputTypeGoogleCloudLogging → ¬ prunes_hostname flt;
}.

(** Prune filters have their section, as the CRD requires. *)
Definition prune_present (f : FilterSpec) : Prop :=
  filter_Type f = FilterTypePrune → is_Some (filter_PruneFilterSpec f).

Lemma missing_message_nil {V} kind (m : gmap string V) refs :
  missing_message kind m refs = [] ↔ ∀ r, r ∈ refs → is_Some (m !! r).
Proof.
  unfold missing_message, missing. rewrite if_nil, Nat.ltb_ge.
  destruct (filter (λ ref, m !! ref = None) refs) as [|x l] eqn:E; simpl.
  - split; [|lia]. intros _ r Hr. destruct (m !! r) eqn:Er; [by eauto|].
    assert (r ∈ filter (λ ref, m !! ref = None) refs) as Hin by by apply list_elem_of_filter.
    rewrite E in Hin. by apply not_elem_of_nil in Hin.
  - split; [lia|]. intros Hall.
    assert (x ∈ filter (λ ref, m !! ref = None) refs) as Hin by (rewrite E; set_solver).
    apply list_elem_of_filter in Hin as [Hx Hr]. destruct (Hall x Hr) as [? ?]. congruence.
Qed.

Lemma existsb_elem (x : string) l : existsb (String.eqb x) l = true ↔ x ∈ l.
Proof.
  rewrite existsb_exists. setoid_rewrite String.eqb_eq. setoid_rewrite <-list_elem_of_In.
  split; [by intros (? & ? & ->)|]. by exists x.
Qed.

Lemma prunesHostName_spec f :
  prune_present f → ∃ b, prunesHostName f = Ret b ∧ (b = true ↔ prunes_hostname f).
Proof.
  intros Hp. unfold prunesHostName, prunes_hostname.
  destruct (String.eqb_spec (filter_Type f) FilterTypePrune) as [E|N]; cbn [negb].
  2: { eexists. split; [done|]. split; [done|]. by intros (? & _ & ? & _). }
  destruct (Hp E) as [p Hps]. rewrite Hps. cbn [deref mbind outcome_bind]. eexists. split; [done|].
  rewrite orb_true_iff. split.
  - intros Hor. exists p. split_and!; [done|done|].
    destruct Hor as [Hn|Hi].
    + left. destruct (prune_NotIn p) as [l|]; [|done]. exists l. split; [done|].
      intros Hin. apply negb_true_iff, not_true_iff_false in Hn. by apply Hn, existsb_elem.
    + right. destruct (prune_In p) as [l|]; [|done]. exists l. split; [done|].
      by apply existsb_elem.
  - intros (? & [= <-] & _ & [(l & -> & Hn)|(l & -> & Hi)]).
    + left. apply negb_true_iff, not_true_iff_false. by rewrite existsb_elem.
    + right. by apply existsb_elem.
Qed.

Lemma concat_mapM_nil {A B} (f : A → outcome (list B)) (P : A → Prop) l :
  (∀ x, x ∈ l → ∃ ys, f x = Ret ys ∧ (ys = [] ↔ P x)) →
  ∃ zs, concat_mapM f l = Ret zs ∧ (zs = [] ↔ ∀ x, x ∈ l → P x).
Proof.
  induction l as [|x l IH]; intros Hf; simpl.
  { exists []. split; [done|]. set_solver. }
  destruct (Hf x) as (ys & Hx & Hys); [set_solver|].
  destruct IH as (zs & Hl & Hzs); [set_solver|].
  rewrite Hx. simpl. rewrite Hl. simpl. eexists. split; [done|].
  by rewrite app_nil, Hys, Hzs, forall_cons_iff.
Qed.

Lemma FilterMap_elem spec n f : FilterMap spec !! n = Some f → f ∈ spec_Filters spec.
Proof. unfold FilterMap. by intros (g & [= -> ->] & ?)%map_of_assignments_elem%list_elem_of_fmap. Qed.

Lemma verifyHostName_spec p outputs filters :
  (∀ n f, filters !! n = Some f → prune_present f) →
  ∃ ms, verifyHostNameNotFilteredForGCL p outputs filters = Ret ms ∧
    (ms = [] ↔ ∀ o f out flt, o ∈ pipe_OutputRefs p → f ∈ pipe_FilterRefs p →
       outputs !! o = Some out → filters !! f = Some flt →
       out_Type out = OutputTypeGoogleCloudLogging → ¬ prunes_hostname flt).
Proof.
  intros Hp. unfold verifyHostNameNotFilteredForGCL.
  destruct (pipe_FilterRefs p) as [|f0 fs]; cbn [length Nat.eqb].
  { eexists. split; [done|]. split; [|done]. intros _ ? ? ? ? _ Hf. by apply not_elem_of_nil in Hf. }
  generalize (f0 :: fs). clear f0 fs. intros fs.
  destruct (concat_mapM_nil (λ out, match outputs !! out with
      | Some output => if out_Type output == OutputTypeGoogleCloudLogging then
            concat_mapM (λ f, match filters !! f with
              | Some filterSpec => prunes ← prunesHostName filterSpec;
                  Ret (if (prunes : bool) then [host_message filterSpec output] else [])
              | None => Ret [] end) fs
          else Ret []
      | None => Ret [] end)
    (λ o, ∀ out f flt, outputs !! o = Some out → f ∈ fs → filters !! f = Some flt →
       out_Type out = OutputTypeGoogleCloudLogging → ¬ prunes_hostname flt)
    (pipe_OutputRefs p)) as (ms & Hms & Hnil).
  - intros o _. destruct (outputs !! o) as [out|]; [|by eexists].
    destruct (String.eqb_spec (out_Type out) OutputTypeGoogleCloudLogging) as [E|N].
    2: { eexists. split; [done|]. split; [|done]. intros _ ? ? ? [= <-] _ _ ?. done. }
    destruct (concat_mapM_nil (λ f, match filters !! f with
        | Some filterSpec => prunes ← prunesHostName filterSpec;
            Ret (if (prunes : bool) then [host_message filterSpec out] else [])
        | None => Ret [] end)
      (λ f, ∀ flt, filters !! f = Some flt → ¬ prunes_hostname flt) fs) as (ms & Hms & Hnil).
    + intros f _. destruct (filters !! f) as [flt|] eqn:Ef; [|by eexists].
      destruct (prunesHostName_spec flt) as (b & -> & Hb); [by eapply Hp|]. simpl.
      eexists. split; [done|]. rewrite if_nil. split.
      * intros -> ? [= <-] Hpr. by apply Hb in Hpr.
      * intros Hn. destruct b; [|done]. exfalso. apply (Hn flt eq_refl). by apply Hb.
    + rewrite Hms. eexists. split; [done|]. rewrite Hnil. split.
      * intros Hall ? f flt [= <-] Hf Hflt _. by eapply Hall.
      * intros Hall f Hf flt Hflt. by eapply Hall.
  - rewrite Hms. eexists. split; [done|]. rewrite Hnil. split.
    + intros Hall o f out flt Ho Hf. by intros; eapply Hall.
    + intros Hall o Ho out f flt. by intros; eapply Hall.
Qed.

Section status.
Context (now : Z).

Lemma pipeline_messages_spec spec p :
  Forall prune_present (spec_Filters spec) →
  ∃ ms, pipeline_messages spec p = Ret ms ∧ (ms = [] ↔ pipeline_ok spec p).
Proof.
  intros Hf. unfold pipeline_messages.
  destruct (verifyHostName_spec p (Outputs_Map (spec_Outputs spec)) (FilterMap spec))
    as (hs & Hhs & Hnil).
  { intros n f Hn%FilterMap_elem. by eapply Forall_forall in Hf. }
  cbn zeta. rewrite Hhs. cbn [mbind outcome_bind]. eexists. split; [done|].
  rewrite app_nil, if_nil, Nat.ltb_ge, Hnil. unfold validateRef.
  rewrite Nat.le_0_r, length_zero_iff_nil.
  rewrite !app_nil, !missing_message_nil. setoid_rewrite Inputs_Map_is_Some.
  assert (∀ r, is_Some (Outputs_Map (spec_Outputs spec) !! r) ↔ r ∈ Outputs_Names (spec_Outputs spec))
    as Ho by (intros r; unfold Outputs_Map; by rewrite map_of_assignments_dom, <-list_fmap_compose).
  assert (∀ r, is_Some (FilterMap spec !! r) ↔ r ∈ Filters_Names (spec_Filters spec))
    as Hfl by (intros r; unfold FilterMap; by rewrite map_of_assignments_dom, <-list_fmap_compose).
  setoid_rewrite Ho. setoid_rewrite Hfl. split.
  - intros [(H1 & H2 & H3) H4]. by constructor.
  - by intros [H1 H2 H3 H4].
Qed.

(** One condition per pipeline, true exactly when the pipeline and all the ones
    before it are acceptable: the messages are never reset. *)
Lemma ValidatePipelines_loop spec l m0 old :
  Forall prune_present (spec_Filters spec) →
  ∃ m cs, foldM (λ st p,
      appended ← pipeline_messages spec p;
      let messages := st.1 ++ appended in
      Ret (messages, (SetCondition now st.2 (pipeline_condition now p messages)).1)) (m0, old) l
    = Ret (m, SetConditions now old cs) ∧
    types cs = prefixed ConditionTypeValidPipelinePrefix <$> (pipe_Name <$> l) ∧
    ∀ i c, cs !! i = Some c →
      cond_Status c = ConditionTrue ↔
      m0 = [] ∧ ∀ j q, (j ≤ i)%nat → l !! j = Some q → pipeline_ok spec q.
Proof.
  intros Hf. revert m0 old. induction l as [|p l IH]; intros m0 old; cbn [foldM].
  { exists m0, []. done. }
  destruct (pipeline_messages_spec spec p Hf) as (ms & Hms & Hnil).
  rewrite Hms. cbn [mbind outcome_bind]. cbn zeta. cbn [fst snd].
  set (c0 := pipeline_condition now p (m0 ++ ms)).
  destruct (IH (m0 ++ ms) (SetCondition now old c0).1) as (m & cs & Hl & Hty & Hst).
  exists m, (c0 :: cs). split; [exact Hl|]. split.
  { simpl. rewrite Hty. f_equal. unfold c0, pipeline_condition. by case_match. }
  intros [|i] c; cbn [lookup list_lookup].
  - intros [= <-].
    assert (cond_Status c0 = ConditionTrue ↔ m0 ++ ms = []) as ->.
    { unfold c0, pipeline_condition. by destruct (m0 ++ ms). }
    rewrite app_nil, Hnil. f_equiv. split.
    + intros Hp [|j] q Hj; [by intros [= <-]|lia].
    + intros Hall. by apply (Hall 0 p).
  - intros Hc. rewrite (Hst i c Hc), app_nil, Hnil. split.
    + intros [[H1 H2] H3]. split; [done|]. intros [|j] q Hj; [by intros [= <-]|].
      apply H3. lia.
    + intros [H1 H3]. split; [split; [done|]|].
      * apply (H3 0 p); [lia|done].
      * intros j q Hj Hq. apply (H3 (S j)); [lia|done].
Qed.

Lemma ValidatePipelines_spec context :
  let spec := ctx_Spec context in
  let old := st_PipelineConditions (ctx_Status context) in
  Forall prune_present (spec_Filters spec) →
  NoDup (pipe_Name <$> spec_Pipelines spec) → NoDup (types old) →
  (∀ ty, ty ∈ types old →
     ty ∈ prefixed ConditionTypeValidPipelinePrefix <$> (pipe_Name <$> spec_Pipelines spec)) →
  ∃ cs, Validate now context = Ret (ctx_set_Status context
      (st_set_PipelineConditions (ctx_Status context) cs)) ∧
    NoDup (types cs) ∧
    (isValid ConditionTypeValidPipelinePrefix cs (length (spec_Pipelines spec)) = true ↔
     ∀ p, p ∈ spec_Pipelines spec → pipeline_ok spec p).
Proof.
  cbn zeta. intros Hf Hnd Hold Hstale.
  destruct (ValidatePipelines_loop (ctx_Spec context) (spec_Pipelines (ctx_Spec context)) []
    (st_PipelineConditions (ctx_Status context)) Hf) as (m & cs & Hl & Hty & Hst).
  eexists. split.
  { exact (f_equal (λ o : outcome (list string * list Condition), st ← o;
      Ret (ctx_set_Status context
        (st_set_PipelineConditions (ctx_Status context) (snd st)))) Hl). }
  cbn [snd]. split; [by apply SetConditions_NoDup|].
  rewrite <-(length_fmap pipe_Name), parts_isValid; [|done..|by rewrite Hty].
  assert (length cs = length (spec_Pipelines (ctx_Spec context))) as Hlen.
  { apply (f_equal length) in Hty. unfold types in Hty. by rewrite !length_fmap in Hty. }
  split.
  - intros Hall p [i Hi]%list_elem_of_lookup.
    destruct (lookup_lt_is_Some_2 cs i) as [c Hc].
    { rewrite Hlen. by eapply lookup_lt_Some. }
    destruct (proj1 (Hst i c Hc)) as [_ Hok]; [by eapply Hall, list_elem_of_lookup_2|].
    by apply (Hok i).
  - intros Hall c [i Hi]%list_elem_of_lookup. apply (Hst i c Hi). split; [done|].
    intros j q _ Hq. by eapply Hall, list_elem_of_lookup_2.
Qed.
End status.

(** C19. The verdicts on pipelines.  With distinct names and no stale conditions the
    validation does not panic, and afterwards the [i]-th pipeline has one condition
    whose status is true exactly when it {e and every pipeline before it} is
    acceptable: its inputs, outputs and filters exist, and no filter prunes the
    host name a Google Cloud output needs.  An error of one pipeline is reported
    again on all the ones after it. *)
Theorem Validate_taints_later_pipelines now context i p :
  let spec := ctx_Spec context in
  let old := st_PipelineConditions (ctx_Status context) in
  Forall prune_present (spec_Filters spec) →
  NoDup (pipe_Name <$> spec_Pipelines spec) → NoDup (types old) →
  spec_Pipelines spec !! i = Some p →
  ∃ cs v, Validate now context = Ret (ctx_set_Status context
      (st_set_PipelineConditions (ctx_Status context) cs)) ∧
    NoDup (types cs) ∧
    view cs !! prefixed ConditionTypeValidPipelinePrefix (pipe_Name p) = Some v ∧
    (v_Status v = ConditionTrue ↔
     ∀ j q, (j ≤ i)%nat → spec_Pipelines spec !! j = Some q → pipeline_ok spec q).
Proof.
  cbn zeta. intros Hf Hnd Hold Hi.
  destruct (ValidatePipelines_loop now (ctx_Spec context) (spec_Pipelines (ctx_Spec context)) []
    (st_PipelineConditions (ctx_Status context)) Hf) as (m & cs & Hl & Hty & Hst).
  assert (NoDup (types cs)) as Hcs by (rewrite Hty; apply NoDup_fmap_2; [apply _|done]).
  assert (length cs = length (spec_Pipelines (ctx_Spec context))) as Hlen.
  { apply (f_equal length) in Hty. unfold types in Hty. by rewrite !length_fmap in Hty. }
  destruct (lookup_lt_is_Some_2 cs i) as [c Hc].
  { rewrite Hlen. by eapply lookup_lt_Some. }
  assert (cond_Type c = prefixed ConditionTypeValidPipelinePrefix (pipe_Name p)) as Htc.
  { apply (f_equal (.!! i)) in Hty. unfold types in Hty. rewrite !list_lookup_fmap, Hc, Hi in Hty.
    by injection Hty. }
  eexists _, (verdict_of c). split.
  { exact (f_equal (λ o : outcome (list string * list Condition), st ← o;
      Ret (ctx_set_Status context
        (st_set_PipelineConditions (ctx_Status context) (snd st)))) Hl). }
  cbn [snd]. split; [by apply SetConditions_NoDup|]. split.
  - rewrite SetConditions_view, view_foldl_last by done. rewrite <-Htc.
    by rewrite (view_elem cs c Hcs) by by eapply list_elem_of_lookup_2.
  - unfold verdict_of. cbn. rewrite (Hst i c Hc). split; [by intros [_ ?]|done].
Qed.
