(* ===== verification/Validate.v ===== *)
(** * Validation of a forwarder ([internal/validations/observability])

    The service account that is fetched and the access reviews that are created
    go to the API server: both calls are parameters, which give an object, or a
    review's verdict, or an error. *)

From S2P Require Import Prelude GoStrings Regex ApiCommon ApiInputs ApiFilters ApiOutputs.
From S2P Require Import ApiForwarder Sets Conditions ObsResources ObsInputs ObsOutputs.
From S2P Require Import ObsForwarder Initialize ValidateCommon.
From S2P Require ValidateFilters ValidateInputs ValidateOutputs ValidatePipelines.

Open Scope re.

Record api_error := { err_NotFound : bool; err_Message : string }.

(** ** Annotations ([validate_annotations.go]) *)

Definition AnnotationMaxUnavailable : string := "observability.openshift.io/max-unavailable-rollout".
Definition AnnotationVectorLogLevel : string := "observability.openshift.io/log-level".

(** A percentage from 1% to 100%, or a positive number without leading zeros. *)
Definition compiledMaxUnavailableRegex : regex :=
  Lit "100%" ∣ (Char (in_range "1" "9") ⋅ Opt Digit ⋅ Lit "%") ∣ (Char (in_range "1" "9") ⋅ Star Digit).

Definition IsPercentOrWholeNumber (val : string) : bool :=
  fullmatch compiledMaxUnavailableRegex val.

Definition allowedLogLevels : gset string :=
  NewString ["trace"; "debug"; "info"; "warn"; "error"; "off"].

Definition IsEnabledValue (val : string) : bool :=
  Has (NewString ["true"; "enabled"]) (ToLower val).

Section annotations.
Context `{RangeOrder} (now : Z).

Definition set_Conditions (context : ForwarderContext) (cs : list Condition) : ForwarderContext :=
  ctx_set_Status context (st_set_Conditions (ctx_Status context) cs).

(** The condition of an annotation is set when its value is not accepted and
    removed otherwise. *)
Definition annotation_condition (context : ForwarderContext) (annotation ty reason : string)
    (accepted : string → bool) (message : string → string) : ForwarderContext :=
  let cs := st_Conditions (ctx_Status context) in
  match clf_Annotations (ctx_Forwarder context) !! annotation with
  | Some value =>
      if negb (accepted value) then
        set_Conditions context
          (SetCondition now cs (NewCondition now ty ConditionFalse reason (message value))).1
      else set_Conditions context (RemoveConditionByType cs ty)
  | None => set_Conditions context (RemoveConditionByType cs ty)
  end.

Definition validateMaxUnavailableAnnotation (context : ForwarderContext) : ForwarderContext :=
  annotation_condition context AnnotationMaxUnavailable ConditionTypeMaxUnavailable
    ReasonMaxUnavailableSupported IsPercentOrWholeNumber
    (λ value, "max-unavailable-rollout value " +:+ Quote value +:+
       " must be an absolute number or a valid percentage").

Definition validateLogLevelAnnotation (context : ForwarderContext) : ForwarderContext :=
  annotation_condition context AnnotationVectorLogLevel ConditionTypeLogLevel
    ReasonLogLevelSupported (Has allowedLogLevels)
    (λ level, "log level " +:+ Quote level +:+ " must be one of [" +:+
       Join (List allowedLogLevels) ", " +:+ "]").
End annotations.

(** ** Permissions ([validate_permissions.go]) *)

(** [^default$], [^openshift] or [^kube] and any bytes of a line. *)
Definition infraNamespaces_match (s : string) : bool :=
  fullmatch (Lit "default") s || fullmatch (Lit "openshift" ⋅ Star Dot) s
  || fullmatch (Lit "kube" ⋅ Star Dot) s.

(** [authorizationapi.SubjectAccessReviewSpec] *)
Inductive review_attributes :=
  | NonResourceAttributes (path verb : string)
  | ResourceAttributes (resource namespace group verb name : string).

Record SubjectAccessReview := {
  sar_User : string;
  sar_Attributes : review_attributes;
}.

Definition createSubjectAccessReview (user namespace verb resource name resourceAPIGroup : string) :
    SubjectAccessReview := {|
  sar_User := user;
  sar_Attributes :=
    if HasPrefix resource "/" then NonResourceAttributes resource verb
    else ResourceAttributes resource namespace resourceAPIGroup verb name |}.

Definition ServiceAccountUsername (namespace name : string) : string :=
  "system:serviceaccount:" +:+ namespace +:+ ":" +:+ name.

(** The types one input of the spec adds, and whether it is a receiver. *)
Definition input_type_set (types : gset string) (noOfReceivers : nat) (i : InputSpec) :
    outcome (gset string * nat) :=
  if in_Type i == InputTypeApplication then
    let types := Insert types [InputTypeApplication] in
    Ret (foldl (λ types ns,
           if infraNamespaces_match (nc_Namespace ns) then Insert types [InputTypeInfrastructure]
           else types) types
           (match in_Application i with Some app => app_Includes app | None => [] end),
         noOfReceivers)
  else if in_Type i == InputTypeInfrastructure then
    Ret (Insert types [InputTypeInfrastructure], noOfReceivers)
  else if in_Type i == InputTypeAudit then Ret (Insert types [InputTypeAudit], noOfReceivers)
  else if in_Type i == InputTypeReceiver then
    r ← deref (in_Receiver i);
    Ret (if recv_Type r == ReceiverTypeSyslog then Insert types [InputTypeInfrastructure] else types,
         S noOfReceivers)
  else Ret (types, noOfReceivers).

Definition gatherPipelineInputs (clf : ClusterLogForwarder) : outcome (gset string * bool) :=
  let refs := spec_Pipelines (clf_Spec clf) ≫= pipe_InputRefs in
  let inputRefs := foldl (λ s r, Insert s [r]) (NewString []) refs in
  let inputTypes := foldl (λ s r, if Has ReservedInputTypes r then Insert s [r] else s)
    (NewString []) refs in
  st ← foldM (λ st i,
      if Has inputRefs (in_Name i) then input_type_set (fst st) (snd st) i else Ret st)
    (inputTypes, 0) (spec_Inputs (clf_Spec clf));
  Ret (fst st, (0 <? snd st)%nat).

Section permissions.
Context `{RangeOrder} (now : Z).
Context (k8s_GetServiceAccount : string → string → unit + api_error).
Context (k8s_CreateReview : SubjectAccessReview → bool + api_error).

(** The loop over the reviews: the inputs that failed, or the error of a call. *)
Fixpoint review_inputs (username : string) (inputs : list string) : list string + string :=
  match inputs with
  | [] => inl []
  | input :: inputs =>
      match k8s_CreateReview
              (createSubjectAccessReview username "" "collect" "logs" input GroupName) with
      | inr err => inr (err_Message err)
      | inl allowed =>
          match review_inputs username inputs with
          | inr err => inr err
          | inl failed => inl (if allowed then failed else input :: failed)
          end
      end
  end.

(** The error, if there is one. *)
Definition validateServiceAccountPermissions (inputs : gset string) (hasReceiverInputs : bool)
    (saName saNamespace : string) : option string :=
  if (size inputs =? 0)%nat && hasReceiverInputs then None
  else if (size inputs =? 0)%nat then
    Some "There is an error in the input permission validation; no inputs were found to evaluate"
  else
    match review_inputs (ServiceAccountUsername saNamespace saName) (List inputs) with
    | inr err => Some err
    | inl failedInputs =>
        if (0 <? length failedInputs)%nat
        then Some ("insufficient permissions on service account, not authorized to collect "
                     +:+ Sprint_quoted failedInputs +:+ " logs")
        else None
    end.

Definition set_Authorized (context : ForwarderContext) (status reason message : string) :
    ForwarderContext :=
  set_Conditions context (SetCondition now (st_Conditions (ctx_Status context))
    (NewCondition now ConditionTypeAuthorized status reason message)).1.

Definition ValidatePermissions (context : ForwarderContext) : outcome ForwarderContext :=
  let clf := ctx_Forwarder context in
  let saName := sa_Name (spec_ServiceAccount (clf_Spec clf)) in
  match k8s_GetServiceAccount saName (clf_Namespace clf) with
  | inr err =>
      Ret (set_Authorized context ConditionFalse
             (if err_NotFound err then ReasonServiceAccountDoesNotExist
              else ReasonServiceAccountCheckFailure) (err_Message err))
  | inl _ =>
      gathered ← gatherPipelineInputs clf;
      Ret (match validateServiceAccountPermissions (fst gathered) (snd gathered) saName
                   (clf_Namespace clf) with
           | Some err => set_Authorized context ConditionFalse ReasonClusterRoleMissing err
           | None => set_Authorized context ConditionTrue ReasonClusterRolesExist
               ("permitted to collect log types: " +:+ Sprint_strings (List (fst gathered)))
           end)
  end.
End permissions.

(** ** The validators in their order ([validate.go]) *)

Section validators.
Context `{RangeOrder} (now : Z).
Context (k8s_GetServiceAccount : string → string → unit + api_error).
Context (k8s_CreateReview : SubjectAccessReview → bool + api_error).
Context (regexp_compiles : string → bool) (parse_url : string → option ValidateOutputs.URL).
Context (json_Unmarshal : string → option ValidateOutputs.gcpCredentialFile).

Definition clfValidators : list (ForwarderContext → outcome ForwarderContext) :=
  [ (λ c, Ret (validateLogLevelAnnotation now c));
    (λ c, Ret (validateMaxUnavailableAnnotation now c));
    ValidatePermissions now k8s_GetServiceAccount k8s_CreateReview;
    ValidateInputs.Validate now;
    ValidateOutputs.Validate parse_url json_Unmarshal now;
    (λ c, Ret (ValidateFilters.Validate regexp_compiles now c));
    ValidatePipelines.Validate now ].

Definition ValidateClusterLogForwarder (context : ForwarderContext) : outcome ForwarderContext :=
  foldM (λ context validate, validate context) context clfValidators.
End validators.

(** ** Who may collect what *)

(** The log types an input reads. *)
Definition reads (i : InputSpec) (t : string) : Prop :=
  (in_Type i = InputTypeApplication ∧
     (t = InputTypeApplication ∨
      t = InputTypeInfrastructure ∧ ∃ app ns, in_Application i = Some app ∧
        ns ∈ app_Includes app ∧ infraNamespaces_match (nc_Namespace ns) = true)) ∨
  (in_Type i = InputTypeInfrastructure ∧ t = InputTypeInfrastructure) ∨
  (in_Type i = InputTypeAudit ∧ t = InputTypeAudit) ∨
  (in_Type i = InputTypeReceiver ∧ t = InputTypeInfrastructure ∧
     ∃ r, in_Receiver i = Some r ∧ recv_Type r = ReceiverTypeSyslog).

Definition collects (clf : ClusterLogForwarder) (t : string) : Prop :=
  (t ∈ ReservedInputTypes ∧ referenced (spec_Pipelines (clf_Spec clf)) t) ∨
  ∃ i, i ∈ spec_Inputs (clf_Spec clf) ∧
    referenced (spec_Pipelines (clf_Spec clf)) (in_Name i) ∧ reads i t.

Definition receives (clf : ClusterLogForwarder) : Prop :=
  ∃ i, i ∈ spec_Inputs (clf_Spec clf) ∧
    referenced (spec_Pipelines (clf_Spec clf)) (in_Name i) ∧ in_Type i = InputTypeReceiver.

Lemma input_type_set_spec types n i :
  receiver_present i →
  ∃ types', input_type_set types n i =
      Ret (types', if in_Type i == InputTypeReceiver then S n else n) ∧
    ∀ t, t ∈ types' ↔ t ∈ types ∨ reads i t.
Proof.
  intros Hr. unfold input_type_set, reads.
  destruct (String.eqb_spec (in_Type i) InputTypeApplication) as [E|N1].
  { rewrite E. cbn [String.eqb Ascii.eqb InputTypeApplication InputTypeReceiver Bool.eqb].
    eexists. split; [done|]. intros t.
    assert (∀ (l : list NamespaceContainerSpec) (s : gset string),
      t ∈ foldl (λ types ns, if infraNamespaces_match (nc_Namespace ns)
             then Insert types [InputTypeInfrastructure] else types) s l ↔
      t ∈ s ∨ (t = InputTypeInfrastructure ∧ ∃ ns, ns ∈ l ∧ infraNamespaces_match (nc_Namespace ns) = true))
      as Hl.
    { induction l as [|ns l IH]; intros s; cbn [foldl].
      { split; [by left|]. intros [?|(_ & ns & Hns & _)]; [done|by apply not_elem_of_nil in Hns]. }
      rewrite IH. setoid_rewrite elem_of_cons.
      destruct (infraNamespaces_match (nc_Namespace ns)) eqn:En.
      - rewrite elem_of_Insert, list_elem_of_singleton. split.
        + intros [[?|?]|(? & ns' & ? & ?)]; [by left|right; eauto|right; eauto 6].
        + intros [?|(? & ns' & [->|?] & ?)]; [by left; left|by left; right|right; eauto].
      - split.
        + intros [?|(? & ns' & ? & ?)]; [by left|right; eauto 6].
        + intros [?|(? & ns' & [->|?] & ?)]; [by left|congruence|right; eauto]. }
    rewrite Hl, elem_of_Insert, list_elem_of_singleton. split.
    - intros [[?|?]|[-> (ns & Hns & ?)]]; [by left|by right; left; split; [done|left]|].
      right. left. split; [done|]. right. split; [done|].
      destruct (in_Application i) as [app|]; [by exists app, ns|by apply not_elem_of_nil in Hns].
    - intros [?|[[_ [?|(-> & app & ns & Ha & ? & ?)]]|[[[=] _]|[[[=] _]|[[=] _]]]]]; [by do 2 left|by left; right|].
      right. split; [done|]. rewrite Ha. eauto. }
  destruct (String.eqb_spec (in_Type i) InputTypeInfrastructure) as [E|N2].
  { rewrite E. eexists. split; [done|]. intros t. rewrite elem_of_Insert, list_elem_of_singleton.
    split; [intros [?|?]; [by left|right; right; by left]|].
    intros [?|[[[=] _]|[[_ ?]|[[[=] _]|[[=] _]]]]]; auto. }
  destruct (String.eqb_spec (in_Type i) InputTypeAudit) as [E|N3].
  { rewrite E. eexists. split; [done|]. intros t. rewrite elem_of_Insert, list_elem_of_singleton.
    split; [intros [?|?]; [by left|right; right; right; by left]|].
    intros [?|[[[=] _]|[[[=] _]|[[_ ?]|[[=] _]]]]]; auto. }
  destruct (String.eqb_spec (in_Type i) InputTypeReceiver) as [E|N4].
  { destruct (Hr E) as [r Hrs]. rewrite Hrs. cbn [deref mbind outcome_bind]. eexists. split; [done|].
    intros t. destruct (String.eqb_spec (recv_Type r) ReceiverTypeSyslog) as [Es|Ns].
    - rewrite elem_of_Insert, list_elem_of_singleton. split.
      + intros [?| ->]; [by left|]. right. do 3 right. split; [done|]. split; [done|]. by exists r.
      + intros [?|[[? _]|[[? _]|[[? _]|(_ & -> & _)]]]]; auto; congruence.
    - split; [by left|].
      intros [?|[[? _]|[[? _]|[[? _]|(_ & _ & ? & [= <-] & ?)]]]]; auto; congruence. }
  eexists. split; [done|]. intros t. split; [by left|].
  intros [?|[[? _]|[[? _]|[[? _]|[? _]]]]]; auto; congruence.
Qed.

Lemma gather_loop (inputRefs : gset string) l types n :
  Forall receiver_present l →
  ∃ types' n', foldM (λ st i,
      if Has inputRefs (in_Name i) then input_type_set (fst st) (snd st) i else Ret st) (types, n) l
    = Ret (types', n') ∧
    (∀ t, t ∈ types' ↔ t ∈ types ∨ ∃ i, i ∈ l ∧ in_Name i ∈ inputRefs ∧ reads i t) ∧
    ((0 < n')%nat ↔ (0 < n)%nat ∨ ∃ i, i ∈ l ∧ in_Name i ∈ inputRefs ∧ in_Type i = InputTypeReceiver).
Proof.
  revert types n. induction l as [|i l IH]; intros types n Hl; cbn [foldM].
  { exists types, n. split; [done|].
    split; [intros t|]; (split; [by left|]);
      intros [?|(i & Hi & _)]; try done; by apply not_elem_of_nil in Hi. }
  apply Forall_cons in Hl as [Hi Hl]. setoid_rewrite exists_cons_iff.
  destruct (Has inputRefs (in_Name i)) eqn:Hin;
    [apply bool_decide_eq_true in Hin|apply bool_decide_eq_false in Hin].
  - destruct (input_type_set_spec types n i Hi) as (types1 & Hs & Ht). cbn [fst snd].
    rewrite Hs. cbn [mbind outcome_bind].
    destruct (IH types1 (if in_Type i == InputTypeReceiver then S n else n) Hl) as (types' & n' & Hf & Ht' & Hn').
    exists types', n'. split; [exact Hf|]. split.
    + intros t. rewrite Ht', Ht. tauto.
    + rewrite Hn'. destruct (String.eqb_spec (in_Type i) InputTypeReceiver) as [E|N]; [|tauto].
      split; [intros _; right; tauto|intros _; left; lia].
  - cbn [mbind outcome_bind]. destruct (IH types n Hl) as (types' & n' & Hf & Ht' & Hn').
    exists types', n'. split; [exact Hf|]. split; [intros t; rewrite Ht'|rewrite Hn']; tauto.
Qed.

(** The types the pipelines collect, and whether they receive. *)
Lemma gatherPipelineInputs_spec clf :
  Forall receiver_present (spec_Inputs (clf_Spec clf)) →
  ∃ types b, gatherPipelineInputs clf = Ret (types, b) ∧
    (∀ t, t ∈ types ↔ collects clf t) ∧ (b = true ↔ receives clf).
Proof.
  intros Hr. unfold gatherPipelineInputs, collects, receives.
  set (refs := spec_Pipelines (clf_Spec clf) ≫= pipe_InputRefs).
  assert (∀ n, n ∈ refs ↔ referenced (spec_Pipelines (clf_Spec clf)) n) as Hrefs
    by (intros n; apply referenced_bind).
  assert (∀ (l : list string) (s : gset string) t,
    t ∈ foldl (λ s r, if Has ReservedInputTypes r then Insert s [r] else s) s l ↔
    t ∈ s ∨ (t ∈ ReservedInputTypes ∧ t ∈ l)) as Hres.
  { induction l as [|r l IH]; intros s t; cbn [foldl].
    { split; [by left|]. intros [?|[_ Ht]]; [done|by apply not_elem_of_nil in Ht]. }
    rewrite IH, elem_of_cons. unfold Has.
    case_bool_decide as Hc; rewrite ?elem_of_Insert, ?list_elem_of_singleton; [|split; [tauto|]].
    - split; [intros [[?| ->]|?]; tauto|]. tauto.
    - intros [?|[? [->|?]]]; tauto. }
  cbn zeta. rewrite foldl_Insert.
  destruct (gather_loop (Insert (NewString []) refs) (spec_Inputs (clf_Spec clf))
    (foldl (λ s r, if Has ReservedInputTypes r then Insert s [r] else s) (NewString []) refs) 0 Hr)
    as (types & n & Hf & Ht & Hn).
  exists types, (0 <? n)%nat. split.
  { exact (f_equal (λ o : outcome (gset string * nat), st ← o; Ret (fst st, (0 <? snd st)%nat)) Hf). }
  setoid_rewrite elem_of_Insert in Ht. setoid_rewrite elem_of_Insert in Hn.
  setoid_rewrite Hres in Ht. setoid_rewrite elem_of_NewString in Ht. setoid_rewrite elem_of_NewString in Hn.
  setoid_rewrite Hrefs in Ht. setoid_rewrite Hrefs in Hn.
  split.
  - intros t. rewrite Ht. pose proof (not_elem_of_nil t) as Hn0.
    assert (∀ i : InputSpec, in_Name i ∈ ([] : list string) ∨ referenced (spec_Pipelines (clf_Spec clf)) (in_Name i)
      ↔ referenced (spec_Pipelines (clf_Spec clf)) (in_Name i)) as Hn1.
    { intros i. pose proof (not_elem_of_nil (in_Name i)). tauto. }
    setoid_rewrite Hn1. unfold ReservedInputTypes. rewrite elem_of_NewString. tauto.
  - rewrite Nat.ltb_lt, Hn.
    assert (∀ i : InputSpec, in_Name i ∈ ([] : list string) ∨ referenced (spec_Pipelines (clf_Spec clf)) (in_Name i)
      ↔ referenced (spec_Pipelines (clf_Spec clf)) (in_Name i)) as Hn1.
    { intros i. pose proof (not_elem_of_nil (in_Name i)). tauto. }
    setoid_rewrite Hn1. split; [intros [?|?]; [lia|done]|by right].
Qed.

Lemma isAuthorized_view cs :
  NoDup (types cs) →
  isAuthorized cs = true ↔
  ∃ v, view cs !! ConditionTypeAuthorized = Some v ∧ v_Status v = ConditionTrue.
Proof.
  intros Hnd. unfold isAuthorized. rewrite existsb_exists.
  setoid_rewrite andb_true_iff. setoid_rewrite String.eqb_eq. setoid_rewrite <-list_elem_of_In. split.
  - intros (c & Hc & Ht & Hs). exists (verdict_of c). split; [|done].
    rewrite <-Ht. by apply view_elem.
  - intros (v & (c & Hc & Ht & <-)%view_elem_inv & Hs). by exists c.
Qed.

Lemma MustUndeployCollector_view cs :
  NoDup (types cs) →
  MustUndeployCollector cs = true ↔
  ∃ v, view cs !! ConditionTypeAuthorized = Some v ∧ v_Status v = ConditionFalse.
Proof.
  intros Hnd. unfold MustUndeployCollector. rewrite existsb_exists.
  setoid_rewrite andb_true_iff. setoid_rewrite String.eqb_eq. setoid_rewrite <-list_elem_of_In. split.
  - intros (c & Hc & Ht & Hs). exists (verdict_of c). split; [|done].
    rewrite <-Ht. by apply view_elem.
  - intros (v & (c & Hc & Ht & <-)%view_elem_inv & Hs). by exists c.
Qed.

Section permissions_ok.
Context `{RangeOrder} (now : Z).
Context (k8s_GetServiceAccount : string → string → unit + api_error).
Context (k8s_CreateReview : SubjectAccessReview → bool + api_error).

Definition may_collect (clf : ClusterLogForwarder) (t : string) : Prop :=
  k8s_CreateReview (createSubjectAccessReview
    (ServiceAccountUsername (clf_Namespace clf) (sa_Name (spec_ServiceAccount (clf_Spec clf))))
    "" "collect" "logs" t GroupName) = inl true.

(** The service account exists, and it may collect every type the pipelines
    collect; a forwarder that collects none must receive. *)
Definition authorized (clf : ClusterLogForwarder) : Prop :=
  k8s_GetServiceAccount (sa_Name (spec_ServiceAccount (clf_Spec clf))) (clf_Namespace clf) = inl tt ∧
  ((∃ t, collects clf t) ∨ receives clf) ∧
  ∀ t, collects clf t → may_collect clf t.

Lemma review_inputs_nil username l :
  review_inputs k8s_CreateReview username l = inl [] ↔
  ∀ t, t ∈ l → k8s_CreateReview
    (createSubjectAccessReview username "" "collect" "logs" t GroupName) = inl true.
Proof.
  induction l as [|t l IH]; cbn [review_inputs].
  { split; [by intros _ ? ?%not_elem_of_nil|done]. }
  rewrite forall_cons_iff, <-IH.
  destruct (k8s_CreateReview _) as [[]|err].
  - destruct (review_inputs _ _ l); (split; [intros Hl; by split|by intros [_ Hl]]).
  - split; [|by intros [[=] _]]. by destruct (review_inputs _ _ l).
  - split; [done|by intros [[=] _]].
Qed.

Lemma validateServiceAccountPermissions_None types b sa ns :
  validateServiceAccountPermissions k8s_CreateReview types b sa ns = None ↔
  ((∃ t, t ∈ types) ∨ b = true) ∧
  ∀ t, t ∈ types → k8s_CreateReview (createSubjectAccessReview
    (ServiceAccountUsername ns sa) "" "collect" "logs" t GroupName) = inl true.
Proof.
  unfold validateServiceAccountPermissions.
  destruct (Nat.eqb_spec (size types) 0) as [E|N].
  - apply size_empty_inv in E.
    assert (∀ t, t ∉ types) as Hno by (intros t Ht; apply E in Ht; set_solver).
    destruct b; simpl; (split; [|try done]).
    + intros _. split; [by right|]. intros t Ht. by apply Hno in Ht.
    + done.
    + intros [[[t Ht]|[=]] _]. by apply Hno in Ht.
  - cbn [andb].
    pose proof (review_inputs_nil (ServiceAccountUsername ns sa) (List types)) as Hrev.
    setoid_rewrite elem_of_List in Hrev. rewrite <-Hrev.
    assert ((∃ t, t ∈ types) ∨ b = true) as Hne.
    { left. destruct (set_choose_or_empty types) as [?|He]; [done|].
      exfalso. apply N. by apply size_empty_iff. }
    destruct (review_inputs _ _ _) as [failed|err]; [|split; [done|by intros [_ [=]]]].
    destruct failed as [|f l]; simpl; [by split|]. split; [done|by intros [_ [=]]].
Qed.

Lemma ValidatePermissions_spec context :
  let clf := ctx_Forwarder context in
  Forall receiver_present (spec_Inputs (clf_Spec clf)) →
  NoDup (types (st_Conditions (ctx_Status context))) →
  ∃ cs, ValidatePermissions now k8s_GetServiceAccount k8s_CreateReview context
      = Ret (set_Conditions context cs) ∧
    NoDup (types cs) ∧ (isAuthorized cs = true ↔ authorized clf) ∧
    MustUndeployCollector cs = negb (isAuthorized cs).
Proof.
  cbn zeta. intros Hr Hnd. unfold ValidatePermissions, authorized.
  assert (∀ (b : bool) reason msg,
    let cs := (SetCondition now (st_Conditions (ctx_Status context))
      (NewCondition now ConditionTypeAuthorized (if b then ConditionTrue else ConditionFalse)
         reason msg)).1 in
    NoDup (types cs) ∧ isAuthorized cs = b ∧ MustUndeployCollector cs = negb b) as Hset.
  { intros b reason msg cs.
    assert (NoDup (types cs)) as Hcs by by apply SetCondition_NoDup.
    split; [done|].
    assert (∃ v, view cs !! ConditionTypeAuthorized = Some v ∧
      v_Status v = if b then ConditionTrue else ConditionFalse) as (v & Hv & Hst).
    { unfold cs. rewrite SetCondition_view. cbn [cond_Type NewCondition].
      rewrite lookup_insert_eq. by eexists. }
    split; apply eq_bool_prop_intro; rewrite !Is_true_true.
    - rewrite isAuthorized_view by done. destruct b.
      + split; [done|]. intros _. by exists v.
      + split; [|done]. intros (v' & Hv' & Hs'). assert (v' = v) as -> by congruence.
        by rewrite Hst in Hs'.
    - rewrite MustUndeployCollector_view by done. destruct b.
      + split; [|done]. intros (v' & Hv' & Hs'). assert (v' = v) as -> by congruence.
        by rewrite Hst in Hs'.
      + split; [done|]. intros _. by exists v. }
  destruct (k8s_GetServiceAccount _ _) as [[]|err].
  2: { destruct (Hset false (if err_NotFound err then ReasonServiceAccountDoesNotExist
         else ReasonServiceAccountCheckFailure) (err_Message err)) as (H1 & H2 & H3).
       eexists. split; [done|]. split; [done|]. rewrite H2. split; [|done].
       split; [done|by intros [[=] _]]. }
  destruct (gatherPipelineInputs_spec (ctx_Forwarder context) Hr) as (ts & b & -> & Ht & Hb).
  cbn [mbind outcome_bind fst snd].
  pose proof (validateServiceAccountPermissions_None ts b
    (sa_Name (spec_ServiceAccount (clf_Spec (ctx_Forwarder context))))
    (clf_Namespace (ctx_Forwarder context))) as Hnone.
  setoid_rewrite Ht in Hnone. rewrite Hb in Hnone. unfold may_collect.
  destruct (validateServiceAccountPermissions _ _ _ _ _) as [err|].
  - destruct (Hset false ReasonClusterRoleMissing err) as (H1 & H2 & H3).
    eexists. split; [done|]. split; [done|]. rewrite H2. split; [|done]. split; [done|].
    intros (_ & Hall). by apply Hnone in Hall.
  - destruct (Hset true ReasonClusterRolesExist
      ("permitted to collect log types: " +:+ Sprint_strings (List ts))) as (H1 & H2 & H3).
    eexists. split; [done|]. split; [done|]. rewrite H2. split; [|done]. split; [|done].
    intros _. split; [done|]. by apply Hnone.
Qed.
End permissions_ok.

(** ** The validation of a whole forwarder *)

(** A status without duplicates and without conditions of parts that are gone:
    what [removeStaleStatuses] leaves. *)
Record status_clean (spec : ClusterLogForwarderSpec) (st : ClusterLogForwarderStatus) : Prop := {
  sc_conditions : NoDup (types (st_Conditions st));
  sc_inputs : NoDup (types (st_InputConditions st));
  sc_outputs : NoDup (types (st_OutputConditions st));
  sc_filters : NoDup (types (st_FilterConditions st));
  sc_pipelines : NoDup (types (st_PipelineConditions st));
  sc_inputs_fresh : ∀ ty, ty ∈ types (st_InputConditions st) →
    ty ∈ prefixed ConditionTypeValidInputPrefix <$> (in_Name <$> spec_Inputs spec);
  sc_outputs_fresh : ∀ ty, ty ∈ types (st_OutputConditions st) →
    ty ∈ prefixed ConditionTypeValidOutputPrefix <$> (out_Name <$> spec_Outputs spec);
  sc_filters_fresh : ∀ ty, ty ∈ types (st_FilterConditions st) →
    ty ∈ prefixed ConditionTypeValidFilterPrefix <$> (filter_Name <$> spec_Filters spec);
  sc_pipelines_fresh : ∀ ty, ty ∈ types (st_PipelineConditions st) →
    ty ∈ prefixed ConditionTypeValidPipelinePrefix <$> (pipe_Name <$> spec_Pipelines spec);
}.

Lemma annotation_condition_spec now context a ty r p m :
  NoDup (types (st_Conditions (ctx_Status context))) →
  ∃ cs, annotation_condition now context a ty r p m = set_Conditions context cs ∧ NoDup (types cs).
Proof.
  intros Hnd. unfold annotation_condition.
  assert (NoDup (types (RemoveConditionByType (st_Conditions (ctx_Status context)) ty))) as Hrm.
  { rewrite RemoveConditionByType_filter. by apply types_filter_NoDup. }
  destruct (clf_Annotations _ !! a) as [v|]; [|by eexists].
  destruct (p v); simpl; [by eexists|]. eexists. split; [done|]. by apply SetCondition_NoDup.
Qed.

Lemma input_admitted_receiver i : input_admitted i → receiver_present i.
Proof. by intros (_ & _ & _ & _ & ?). Qed.

Lemma filter_admitted_prune f : filter_admitted f → ValidatePipelines.prune_present f.
Proof. by intros (_ & _ & ?). Qed.

Section correct.
Context `{RangeOrder} (now : Z).
Context (k8s_GetServiceAccount : string → string → unit + api_error).
Context (k8s_CreateReview : SubjectAccessReview → bool + api_error).
Context (regexp_compiles : string → bool) (parse_url : string → option ValidateOutputs.URL).
Context (json_Unmarshal : string → option ValidateOutputs.gcpCredentialFile).

(** What the validation may assume of its context: the API server admitted the
    spec, the secrets and config maps were fetched, and stale conditions were
    removed. *)
Record context_ready (context : ForwarderContext) : Prop := {
  cr_admitted : clf_admitted (ctx_Spec context);
  cr_outputs : ∀ o, o ∈ spec_Outputs (ctx_Spec context) → ValidateOutputs.validatable parse_url o;
  cr_wf : ValidateInputs.context_wf context;
  cr_status : status_clean (ctx_Spec context) (ctx_Status context);
}.

(** The specification of a valid forwarder. *)
Record forwarder_ok (context : ForwarderContext) : Prop := {
  fok_authorized : authorized k8s_GetServiceAccount k8s_CreateReview (ctx_Forwarder context);
  fok_inputs : ∀ i, i ∈ spec_Inputs (ctx_Spec context) → ValidateInputs.input_ok context i;
  fok_outputs : ∀ o, o ∈ spec_Outputs (ctx_Spec context) →
    ValidateOutputs.output_ok parse_url json_Unmarshal context o;
  fok_filters : ∀ f, f ∈ spec_Filters (ctx_Spec context) → ValidateFilters.filter_ok regexp_compiles f;
  fok_pipelines : ∀ p, p ∈ spec_Pipelines (ctx_Spec context) →
    ValidatePipelines.pipeline_ok (ctx_Spec context) p;
}.

Notation validate := (ValidateClusterLogForwarder now k8s_GetServiceAccount k8s_CreateReview
  regexp_compiles parse_url json_Unmarshal).

(** The run of the validators, one field of the status at a time. *)
Lemma ValidateClusterLogForwarder_run context :
  context_ready context →
  ∃ cs ics ocs fcs pcs,
    validate context = Ret (ctx_set_Status context {|
      st_Conditions := cs; st_InputConditions := ics; st_OutputConditions := ocs;
      st_FilterConditions := fcs; st_PipelineConditions := pcs |}) ∧
    NoDup (types cs) ∧ NoDup (types ics) ∧ NoDup (types ocs) ∧ NoDup (types fcs) ∧
    NoDup (types pcs) ∧
    (isAuthorized cs = true ↔
       authorized k8s_GetServiceAccount k8s_CreateReview (ctx_Forwarder context)) ∧
    MustUndeployCollector cs = negb (isAuthorized cs) ∧
    (isValid ConditionTypeValidInputPrefix ics (length (spec_Inputs (ctx_Spec context))) = true ↔
       ∀ i, i ∈ spec_Inputs (ctx_Spec context) → ValidateInputs.input_ok context i) ∧
    (isValid ConditionTypeValidOutputPrefix ocs (length (spec_Outputs (ctx_Spec context))) = true ↔
       ∀ o, o ∈ spec_Outputs (ctx_Spec context) →
         ValidateOutputs.output_ok parse_url json_Unmarshal context o) ∧
    (isValid ConditionTypeValidFilterPrefix fcs (length (spec_Filters (ctx_Spec context))) = true ↔
       ∀ f, f ∈ spec_Filters (ctx_Spec context) → ValidateFilters.filter_ok regexp_compiles f) ∧
    (isValid ConditionTypeValidPipelinePrefix pcs (length (spec_Pipelines (ctx_Spec context))) = true ↔
       ∀ p, p ∈ spec_Pipelines (ctx_Spec context) → ValidatePipelines.pipeline_ok (ctx_Spec context) p).
Proof.
  intros [Hadm Hout Hwf Hst].
  destruct Hst as [Hc Hi Ho Hf Hp Hif Hof Hff Hpf]. destruct Hadm as [Hai Hao Haf Hni Hno Hnf Hnp].
  unfold ValidateClusterLogForwarder, clfValidators.
  unfold validateLogLevelAnnotation, validateMaxUnavailableAnnotation. cbn [foldM].
  match goal with |- context [annotation_condition now context ?a ?t ?r ?p ?m] =>
    destruct (annotation_condition_spec now context a t r p m Hc) as (cs1 & -> & Hc1) end.
  cbn [mbind outcome_bind].
  match goal with |- context [annotation_condition now ?c ?a ?t ?r ?p ?m] =>
    destruct (annotation_condition_spec now c a t r p m Hc1) as (cs2 & -> & Hc2) end.
  cbn [mbind outcome_bind].
  match goal with |- context [ValidatePermissions now ?g ?r ?c] =>
    destruct (ValidatePermissions_spec now g r c) as (cs3 & -> & Hc3 & Hauth & Hmust) end.
  { eapply Forall_impl; [exact Hai|]. apply input_admitted_receiver. }
  { exact Hc2. }
  cbn [mbind outcome_bind].
  match goal with |- context [ValidateInputs.Validate now ?c] =>
    destruct (ValidateInputs.ValidateInputs_spec now c) as (ics & -> & Hics & Hinputs) end.
  { intros i Hin. eapply Forall_forall in Hai; [|exact Hin]. apply Hai. }
  { exact Hwf. } { exact Hni. } { exact Hi. } { exact Hif. }
  cbn [mbind outcome_bind].
  match goal with |- context [ValidateOutputs.Validate parse_url json_Unmarshal now ?c] =>
    destruct (ValidateOutputs.ValidateOutputs_spec parse_url json_Unmarshal now c) as (ocs & -> & Hocs & Houtputs) end.
  { exact Hout. } { exact Hno. } { exact Ho. } { exact Hof. }
  cbn [mbind outcome_bind].
  match goal with |- context [ValidateFilters.Validate regexp_compiles now ?c] =>
    pose proof (ValidateFilters.Validate_isValid regexp_compiles now c) as Hfilters;
    rewrite (ValidateFilters.Validate_conditions regexp_compiles now c) in Hfilters |- * end.
  specialize (Hfilters Hnf Hf Hff).
  match goal with |- context [ValidatePipelines.Validate now ?c] =>
    destruct (ValidatePipelines.ValidatePipelines_spec now c) as (pcs & -> & Hpcs & Hpipelines) end.
  { eapply Forall_impl; [exact Haf|]. apply filter_admitted_prune. }
  { exact Hnp. } { exact Hp. } { exact Hpf. }
  cbn [mbind outcome_bind]. eexists cs3, ics, ocs, _, pcs. split; [reflexivity|].
  split; [exact Hc3|]. split; [exact Hics|]. split; [exact Hocs|].
  split; [by apply SetConditions_NoDup|]. split; [exact Hpcs|].
  split; [exact Hauth|]. split; [exact Hmust|].
  split; [exact Hinputs|]. split; [|by split].
  etransitivity; [exact Houtputs|].
  split; intros Hall o Hin; destruct (Hall o Hin) as [? ? ? ? ? ?]; constructor; assumption.
Qed.

(** C1. Correctness of the validation.  The context must be ready: the API server admitted
    the spec; every Kafka output with an authentication section has its SASL section, and
    the URLs of the outputs can be parsed (without the one or the other the code panics);
    the secrets and config maps were fetched and the options hold what the initialization
    puts there; and the status has one condition per type and none of a part that is not
    in the spec.  Then the validators return, leave the spec alone, and make [IsValidSpec]
    answer whether the forwarder is acceptable: its service account may collect every
    type its pipelines read, and every input, output, filter and pipeline meets
    its specification.  The collector must be undeployed exactly when the
    service account is not authorized. *)
Theorem ValidateClusterLogForwarder_correct context :
  context_ready context →
  ∃ context', validate context = Ret context' ∧
    ctx_Spec context' = ctx_Spec context ∧
    (IsValidSpec (ctx_Forwarder context') = true ↔ forwarder_ok context) ∧
    (MustUndeployCollector (st_Conditions (ctx_Status context')) = true ↔
       ¬ authorized k8s_GetServiceAccount k8s_CreateReview (ctx_Forwarder context)).
Proof.
  intros Hready. destruct (ValidateClusterLogForwarder_run context Hready)
    as (cs & ics & ocs & fcs & pcs & -> & _ & _ & _ & _ & _ & Ha & Hm & Hi & Ho & Hf & Hp).
  eexists. split; [done|]. split; [done|]. split.
  - unfold IsValidSpec. cbn. rewrite !andb_true_iff, Ha.
    change (clf_Spec (ctx_Forwarder context)) with (ctx_Spec context).
    rewrite Hi, Ho, Hf, Hp. split.
    + intros [[[[? ?] ?] ?] ?]. by constructor.
    + by intros [? ? ? ? ?].
  - change (MustUndeployCollector cs = true ↔
      ¬ authorized k8s_GetServiceAccount k8s_CreateReview (ctx_Forwarder context)).
    by rewrite Hm, negb_true_iff, <-not_true_iff_false, Ha.
Qed.
End correct.

(** ** Infrastructure namespaces *)

Lemma no_newline_Dot s : in_string "010" s = false → string_forallb (λ c, negb (Ascii.eqb c "010"%char)) s = true.
Proof.
  induction s as [|c s IH]; cbn [in_string string_forallb]; [done|]. intros [Hc Hs]%orb_false_iff.
  rewrite Ascii.eqb_sym in Hc. by rewrite Hc, IH.
Qed.

(** Text of one line that starts with a literal. *)
Lemma matches_Lit_line lit s :
  in_string "010" s = false → (matches (Lit lit ⋅ Star Dot) s ↔ ∃ t, s = lit +:+ t).
Proof.
  intros Hs. rewrite matches_seq_inv. split.
  - intros (? & t & -> & ->%matches_Lit & _). eauto.
  - intros [t ->]. exists lit, t. rewrite matches_Lit. split_and!; [done..|].
    apply matches_Star_Char, no_newline_Dot.
    rewrite in_string_app in Hs. by apply orb_false_iff in Hs as [_ ?].
Qed.

Lemma search_Lit_line lit s :
  in_string "010" s = false → search (Lit lit ⋅ Star Dot) s = Contains s lit.
Proof.
  intros Hs. apply eq_true_iff_eq. rewrite search_spec, Contains_spec. split.
  - intros (p & ? & q & -> & (? & t & -> & ->%matches_Lit & _)%matches_seq_inv).
    exists p, (t +:+ q). by rewrite string_app_assoc.
  - intros (p & q & ->). exists p, lit, q. split; [done|].
    apply matches_seq_inv. exists lit, "". rewrite matches_Lit, string_app_nil_r.
    split_and!; [done..|constructor].
Qed.

Lemma fullmatch_Lit lit s : fullmatch (Lit lit) s = (s == lit).
Proof. apply eq_true_iff_eq. by rewrite fullmatch_spec, matches_Lit, String.eqb_eq. Qed.

Lemma fullmatch_Lit_line lit s :
  in_string "010" s = false → fullmatch (Lit lit ⋅ Star Dot) s = HasPrefix s lit.
Proof.
  intros Hs. apply eq_true_iff_eq. by rewrite fullmatch_spec, HasPrefix_spec, matches_Lit_line.
Qed.

(** What an infrastructure namespace is.  The authorization takes [default] and
    the names that start with [openshift] or [kube]; the test that routes the logs
    of an application input takes the names that start with [default] and those
    that contain [openshift] or [kube] anywhere, because the anchors of its pattern
    bind to the outer alternatives only.  So an input that the authorization takes
    for infrastructure is one for the routing, and not the other way round. *)
Theorem infra_namespace_tests s :
  in_string "010" s = false →
  infraNamespaces_match s = (s == "default") || HasPrefix s "openshift" || HasPrefix s "kube" ∧
  InfraNSRegex_match s = HasPrefix s "default" || Contains s "openshift" || Contains s "kube" ∧
  (infraNamespaces_match s = true → InfraNSRegex_match s = true).
Proof.
  intros Hs.
  assert (infraNamespaces_match s = (s == "default") || HasPrefix s "openshift" || HasPrefix s "kube") as E1.
  { unfold infraNamespaces_match. by rewrite fullmatch_Lit, !fullmatch_Lit_line. }
  assert (InfraNSRegex_match s = HasPrefix s "default" || Contains s "openshift" || Contains s "kube") as E2.
  { unfold InfraNSRegex_match. rewrite search_Lit_line by done.
    assert (fullmatch (Lit "default" ⋅ Star Any) s = HasPrefix s "default") as ->.
    { apply eq_true_iff_eq. rewrite fullmatch_spec, HasPrefix_spec, matches_seq_inv. split.
      - intros (? & t & -> & ->%matches_Lit & _). eauto.
      - intros [t ->]. exists "default", t. rewrite matches_Lit. split_and!; [done..|apply matches_Star_Any]. }
    f_equal. apply eq_true_iff_eq. rewrite fullmatch_spec, Contains_spec, matches_seq_inv. split.
    - intros (p & ? & -> & _ & (? & t & -> & ->%matches_Lit & _)%matches_seq_inv). eauto.
    - intros (p & q & ->). exists p, ("kube" +:+ q). split; [done|]. split; [apply matches_Star_Any|].
      apply matches_Lit_line; [|by exists q]. rewrite in_string_app in Hs. by apply orb_false_iff in Hs as [_ ?]. }
  split; [done|]. split; [done|]. rewrite E1, E2, !orb_true_iff, !HasPrefix_spec, !Contains_spec, String.eqb_eq.
  intros [[->|[t ->]]|[t ->]].
  - do 2 left. by exists "".
  - left. right. by exists "", t.
  - right. by exists "", t.
Qed.

Theorem infra_namespace_tests_witness :
  in_string "010" "my-kube" = false ∧ infraNamespaces_match "my-kube" = false ∧
  InfraNSRegex_match "my-kube" = true.
Proof.
  destruct (infra_namespace_tests "my-kube" eq_refl) as (E1 & E2 & _).
  exact (conj eq_refl (conj E1 E2)).
Defined.
