(* ===== verification/Reconcile.v ===== *)
(** * The controller ([internal/controller/observability])

    A reconciliation reads the cluster through its API client and writes to it.
    The answers of the API server are the fields of [cluster], one per kind of
    request; the writes are the events a reconciliation emits, in their order.
    [ReconcileCollector], which generates the configuration of the collector and
    applies its resources, is one event with one answer.  The clock is read once
    per reconciliation. *)

From S2P Require Import Prelude GoStrings ApiCommon ApiInputs ApiFilters ApiOutputs ApiForwarder.
From S2P Require Import Sets Conditions ObsResources ObsInputs ObsOutputs ObsForwarder Initialize.
From S2P Require Import ValidateCommon Validate.
From S2P Require ValidateFilters ValidateInputs ValidateOutputs ValidatePipelines.

Inductive workload := DaemonSet | Deployment.

Inductive event :=
  | DeleteWorkload (w : workload) (namespace name : string)
  | DeleteClusterRoleBinding (name : string)
  | DeployCollector (context : ForwarderContext)
  | PatchStatus (forwarder : ClusterLogForwarder).

(** The answers of the cluster and of the libraries. *)
Record cluster := {
  GetForwarder : string → string → ClusterLogForwarder + api_error;
  GetSecret : string → string → Secret + api_error;
  GetConfigMap : string → string → ConfigMap + api_error;
  GetServiceAccount : string → string → unit + api_error;
  CreateReview : SubjectAccessReview → bool + api_error;
  GetWorkload : workload → string → string → option api_error;
  RemoveWorkload : workload → string → string → option api_error;
  RemoveClusterRoleBinding : string → option string;
  HostedVersion : string → string * string;
  Deploy : ForwarderContext → option string;
  ParseQuantity : string → option Quantity;
  regexp_compiles : string → bool;
  parse_url : string → option ValidateOutputs.URL;
  json_Unmarshal : string → option ValidateOutputs.gcpCredentialFile;
}.

(** [ctrl.Result] and the error a reconciliation returns. *)
Inductive requeue := defaultRequeue | periodicRequeue.

Record reconciled := {
  rec_events : list event;
  rec_result : requeue;
  rec_err : option string;
}.

(** ** Names ([internal/factory]) *)

Record ForwarderResourceNames := {
  CommonName : string;
  SecretMetrics : string;
  ConfigMapName : string;
  MetadataReaderClusterRoleBinding : string;
  MetricsAuthClusterRoleBinding : string;
  CaTrustBundle : string;
  ServiceAccountName : string;
  InternalLogStoreSecret : string;
  ServiceAccountTokenSecret : string;
  ForwarderName : string;
  SecretsName : string;
  AwsCredentialsFile : string;
}.

Definition AwsCredentialsConfigMapName : string := "aws-creds".

Definition ResourceNames (clf : ClusterLogForwarder) : ForwarderResourceNames :=
  let resBaseName := clf_Name clf in
  let sa := sa_Name (spec_ServiceAccount (clf_Spec clf)) in
  {| CommonName := resBaseName;
     SecretMetrics := resBaseName +:+ "-metrics";
     ConfigMapName := resBaseName +:+ "-config";
     MetadataReaderClusterRoleBinding :=
       "cluster-logging-" +:+ clf_Namespace clf +:+ "-" +:+ resBaseName +:+ "-metadata-reader";
     MetricsAuthClusterRoleBinding :=
       "cluster-logging-" +:+ clf_Namespace clf +:+ "-" +:+ resBaseName +:+ "-metrics-auth";
     CaTrustBundle := resBaseName +:+ "-trustbundle";
     ServiceAccountName := sa;
     InternalLogStoreSecret := sa +:+ "-default";
     ServiceAccountTokenSecret := sa +:+ "-token";
     ForwarderName := clf_Name clf;
     SecretsName := resBaseName +:+ "-secrets";
     AwsCredentialsFile := resBaseName +:+ "-" +:+ AwsCredentialsConfigMapName |}.

Definition GenerateInputServiceName (f : ForwarderResourceNames) (serviceName : string) : string :=
  CommonName f +:+ "-" +:+ serviceName.

(** ** Stale conditions *)

Definition removeStaleStatuses (forwarder : ClusterLogForwarder) : ClusterLogForwarder :=
  let spec := clf_Spec forwarder in
  let st := clf_Status forwarder in
  clf_set_Status forwarder {|
    st_Conditions := st_Conditions st;
    st_InputConditions := PruneConditions (st_InputConditions st)
      (Inputs_Names (spec_Inputs spec)) ConditionTypeValidInputPrefix;
    st_OutputConditions := PruneConditions (st_OutputConditions st)
      (Outputs_Names (spec_Outputs spec)) ConditionTypeValidOutputPrefix;
    st_FilterConditions := PruneConditions (st_FilterConditions st)
      (Filters_Names (spec_Filters spec)) ConditionTypeValidFilterPrefix;
    st_PipelineConditions := PruneConditions (st_PipelineConditions st)
      (Pipelines_Names (spec_Pipelines spec)) ConditionTypeValidPipelinePrefix |}.

Section reconcile.
Context `{RangeOrder} (api : cluster) (now : Z).

(** ** Fetching ([load.go]) *)

Fixpoint FetchSecrets (namespace : string) (names : list string) : list Secret + string :=
  match names with
  | [] => inl []
  | name :: names =>
      match GetSecret api namespace name with
      | inl s =>
          match FetchSecrets namespace names with
          | inl l => inl (s :: l)
          | inr err => inr err
          end
      | inr err => if err_NotFound err then FetchSecrets namespace names else inr (err_Message err)
      end
  end.

Fixpoint FetchConfigMaps (namespace : string) (names : list string) : list ConfigMap + string :=
  match names with
  | [] => inl []
  | name :: names =>
      match GetConfigMap api namespace name with
      | inl s =>
          match FetchConfigMaps namespace names with
          | inl l => inl (s :: l)
          | inr err => inr err
          end
      | inr err =>
          if err_NotFound err then FetchConfigMaps namespace names else inr (err_Message err)
      end
  end.

Definition MapSecrets (namespace : string) (spec : ClusterLogForwarderSpec) :
    outcome (Secrets + string) :=
  outs ← Outputs_SecretNames (spec_Outputs spec);
  let names := Insert (NewString (Inputs_SecretNames (spec_Inputs spec))) outs in
  Ret (match FetchSecrets namespace (UnsortedList names) with
       | inl secrets => inl (map_of_assignments ((λ s, (secret_Name s, s)) <$> secrets))
       | inr err => inr err
       end).

Definition MapConfigMaps (namespace : string) (spec : ClusterLogForwarderSpec) :
    ConfigMaps + string :=
  let names := Insert (NewString (Inputs_ConfigmapNames (spec_Inputs spec)))
                 (Outputs_ConfigmapNames (spec_Outputs spec)) in
  match FetchConfigMaps namespace (UnsortedList names) with
  | inl cms => inl (map_of_assignments ((λ c, (cm_Name c, c)) <$> cms))
  | inr err => inr err
  end.

(** ** Initialization *)

Definition initialize (cxt : ForwarderContext) : outcome (ForwarderContext * option string) :=
  fo ← Initialize.initialize (ParseQuantity api) (ctx_Forwarder cxt) NoOptions;
  let forwarder := fst fo in
  let options := snd fo in
  let with_maps (secrets : option Secrets) (cms : option ConfigMaps) (vid : string * string) := {|
    ctx_Forwarder := forwarder; ctx_Secrets := secrets; ctx_ConfigMaps := cms;
    ctx_ClusterID := snd vid; ctx_ClusterVersion := fst vid; ctx_AdditionalContext := options |} in
  let old := (ctx_ClusterVersion cxt, ctx_ClusterID cxt) in
  fetched ← MapSecrets (clf_Namespace forwarder) (clf_Spec forwarder);
  match fetched with
  | inr err => Ret (with_maps None (ctx_ConfigMaps cxt) old, Some err)
  | inl secrets =>
      generatedSecrets ← GetOption as_secrets options GeneratedSecrets [];
      let secrets :=
        if (snd generatedSecrets : bool)
        then foldl (λ m s, <[secret_Name s := s]> m) secrets (fst generatedSecrets)
        else secrets in
      match MapConfigMaps (clf_Namespace forwarder) (clf_Spec forwarder) with
      | inr err => Ret (with_maps (Some secrets) None old, Some err)
      | inl cms =>
          let hosted := HostedVersion api (clf_Namespace forwarder) in
          let vid := if (fst hosted != "") && (snd hosted != "") then hosted else old in
          Ret (with_maps (Some secrets) (Some cms) vid, None)
      end
  end.

(** ** Validation *)

Definition validateForwarder (cxt : ForwarderContext) : outcome (ForwarderContext * bool) :=
  cxt ← ValidateClusterLogForwarder now (GetServiceAccount api) (CreateReview api)
    (regexp_compiles api) (parse_url api) (json_Unmarshal api) cxt;
  let valid := IsValidSpec (ctx_Forwarder cxt) in
  let validCond :=
    if valid then NewCondition now ConditionTypeValid ConditionTrue ReasonValidationSuccess ""
    else NewCondition now ConditionTypeValid ConditionFalse ReasonValidationFailure
      "one or more conditions [inputs, outputs, pipelines, filters] have failed validation" in
  Ret (set_Conditions cxt (SetCondition now (st_Conditions (ctx_Status cxt)) validCond).1, valid).

(** ** Workloads ([collector.RemoveDaemonset], [collector.RemoveDeployment]) *)

Definition workload_name (w : workload) : string :=
  match w with DaemonSet => "daemonset" | Deployment => "deployment" end.

(** The writes and the error. *)
Definition remove_workload (w : workload) (namespace name : string) : list event * option string :=
  let failure (doing : string) (err : api_error) :=
    "failure " +:+ doing +:+ " " +:+ workload_name w +:+ " " +:+ namespace +:+ "/" +:+ name
      +:+ ": " +:+ err_Message err in
  match GetWorkload api w namespace name with
  | Some err => ([], if err_NotFound err then None else Some (failure "checking" err))
  | None =>
      ([DeleteWorkload w namespace name],
       match RemoveWorkload api w namespace name with
       | Some err => if err_NotFound err then None else Some (failure "deleting" err)
       | None => None
       end)
  end.

Definition RemoveStaleWorkload (forwarder : ClusterLogForwarder) : list event * option string :=
  let w := if DeployAsDeployment forwarder then DaemonSet else Deployment in
  remove_workload w (clf_Namespace forwarder) (clf_Name forwarder).

Definition updateStatus (instance : ClusterLogForwarder) (ready : Condition) : event :=
  PatchStatus (clf_set_Status instance (st_set_Conditions (clf_Status instance)
    (SetCondition now (st_Conditions (clf_Status instance)) ready).1)).

(** ** The reconciliation

    A return of the body and the [Ready] condition at that moment; the deferred
    call writes the status last. *)
Definition finish (cxt : ForwarderContext) (events : list event) (result : requeue)
    (err : option string) (status reason message : string) : reconciled := {|
  rec_events := events ++
    [updateStatus (ctx_Forwarder cxt) (NewCondition now ConditionTypeReady status reason message)];
  rec_result := result; rec_err := err |}.

Definition reconcile_valid (cxt : ForwarderContext) : reconciled :=
  let '(removed, err) := RemoveStaleWorkload (ctx_Forwarder cxt) in
  match err with
  | Some err =>
      finish cxt removed defaultRequeue (Some err) ConditionFalse
        ReasonFailureToRemoveStaleWorkload err
  | None =>
      match Deploy api cxt with
      | Some err =>
          finish cxt (removed ++ [DeployCollector cxt]) defaultRequeue (Some err)
            ConditionFalse ReasonDeploymentError err
      | None =>
          finish cxt (removed ++ [DeployCollector cxt]) periodicRequeue None
            ConditionTrue ReasonReconciliationComplete ""
      end
  end.

Definition reconcile_invalid (cxt : ForwarderContext) : reconciled :=
  let removed :=
    if MustUndeployCollector (st_Conditions (ctx_Status cxt)) then
      fst (remove_workload (if DeployAsDeployment (ctx_Forwarder cxt) then Deployment else DaemonSet)
             (clf_Namespace (ctx_Forwarder cxt)) (clf_Name (ctx_Forwarder cxt)))
    else [] in
  finish cxt removed defaultRequeue None ConditionFalse ReasonValidationFailure "collector not ready".

Definition reconcile_managed (cxt : ForwarderContext) : outcome reconciled :=
  i ← initialize cxt;
  match snd i with
  | Some err =>
      Ret (finish (fst i) [] defaultRequeue None ConditionFalse ReasonInitializationFailed err)
  | None =>
      v ← validateForwarder (fst i);
      Ret (if (snd v : bool) then reconcile_valid (fst v) else reconcile_invalid (fst v))
  end.

Definition Reconcile (cxt : ForwarderContext) (namespace name : string) : outcome reconciled :=
  match GetForwarder api namespace name with
  | inr err =>
      Ret {| rec_events := []; rec_result := defaultRequeue;
             rec_err := if negb (err_NotFound err) then Some (err_Message err) else None |}
  | inl forwarder =>
      let cxt := ctx_set_Forwarder cxt forwarder in
      match meta_DeletionTimestamp (clf_Meta forwarder) with
      | Some _ =>
          let binding := MetricsAuthClusterRoleBinding (ResourceNames forwarder) in
          Ret {| rec_events := [DeleteClusterRoleBinding binding]; rec_result := defaultRequeue;
                 rec_err := RemoveClusterRoleBinding api binding |}
      | None =>
          let cxt := ctx_set_Forwarder cxt (removeStaleStatuses forwarder) in
          if spec_ManagementState (ctx_Spec cxt) == ManagementStateUnmanaged then
            Ret (finish cxt [] defaultRequeue None ConditionUnknown ReasonManagementStateUnmanaged
                   "Updates are ignored when the managementState is Unmanaged")
          else reconcile_managed cxt
      end
  end.
End reconcile.

(** ** What a reconciliation starts from *)

(** A status whose lists have one condition per type: what every write keeps. *)
Record status_unique (st : ClusterLogForwarderStatus) : Prop := {
  su_conditions : NoDup (types (st_Conditions st));
  su_inputs : NoDup (types (st_InputConditions st));
  su_outputs : NoDup (types (st_OutputConditions st));
  su_filters : NoDup (types (st_FilterConditions st));
  su_pipelines : NoDup (types (st_PipelineConditions st));
}.

(** The stored forwarder a reconciliation may rely on: the API server admitted
    it, and Kafka outputs have the section the code reads. *)
Record stored_ok (api : cluster) (f : ClusterLogForwarder) : Prop := {
  so_admitted : clf_admitted (clf_Spec f);
  so_outputs : ∀ o, o ∈ spec_Outputs (clf_Spec f) → ValidateOutputs.validatable (parse_url api) o;
  so_status : status_unique (clf_Status f);
  so_defaults : defaults_parse (ParseQuantity api);
}.

Lemma PruneConditions_fresh cs names prefix ty :
  ty ∈ types (PruneConditions cs names prefix) → ty ∈ prefixed prefix <$> names.
Proof.
  unfold types. intros (c & -> & (_ & n & Hn & ->)%elem_of_PruneConditions)%list_elem_of_fmap.
  by apply list_elem_of_fmap_2.
Qed.

Section initialized.
Context `{RangeOrder} (api : cluster) (now : Z).

Lemma validatable_initialized o o' :
  output_initialized o o' → ValidateOutputs.validatable (parse_url api) o →
  ValidateOutputs.validatable (parse_url api) o'.
Proof.
  intros Hi (Ha & Hk & Hu).
  split; [by eapply output_initialized_admitted|].
  destruct Hi as [[_ ->]|(E & l & t & w & _ & _ & _ & ->)]; [done|]. split.
  - intros k a Ht. simpl in Ht. rewrite E in Ht. done.
  - intros urls u Hurls. unfold ValidateOutputs.specURLs in Hurls. simpl in Hurls.
    rewrite E in Hurls. simpl in Hurls. injection Hurls as <-. by intros ?%not_elem_of_nil.
Qed.

Lemma Forall2_elem_r {A B} (R : A → B → Prop) l l' y :
  Forall2 R l l' → y ∈ l' → ∃ x, x ∈ l ∧ R x y.
Proof.
  induction 1 as [|x y' l l' HR HF IH]; [by intros ?%not_elem_of_nil|].
  intros [->|Hy]%elem_of_cons; [exists x; set_solver|].
  destruct (IH Hy) as (x' & ? & ?). exists x'. set_solver.
Qed.

Lemma initialized_names outs outs' :
  Forall2 output_initialized outs outs' → Outputs_Names outs' = Outputs_Names outs.
Proof.
  unfold Outputs_Names. induction 1 as [|o o' l l' Hi HF IH]; [done|].
  rewrite !fmap_cons, IH. f_equal. by apply output_initialized_name.
Qed.

Lemma Outputs_SecretNames_returns outs :
  (∀ o, o ∈ outs → ValidateOutputs.validatable (parse_url api) o) →
  ∃ names, Outputs_SecretNames outs = Ret names.
Proof.
  intros Hv. unfold Outputs_SecretNames.
  match goal with |- context [foldM ?f ∅ outs] =>
    destruct (foldM_inv (λ _, True) f ∅ outs I) as (s & -> & _) end; [|by eexists].
  intros s o Ho _. destruct (Hv o Ho) as (Ha & Hk & _).
  destruct (SecretReferences_returns o Ha Hk) as [refs ->]. simpl. by eexists.
Qed.

(** After the initialization: an error of the cluster, or a context that is
    ready for the validation. *)
Lemma initialize_ready cxt f :
  ctx_Forwarder cxt = removeStaleStatuses f → stored_ok api f →
  ∃ cxt' err, initialize api cxt = Ret (cxt', err) ∧
    clf_Meta (ctx_Forwarder cxt') = clf_Meta f ∧
    clf_Status (ctx_Forwarder cxt') = clf_Status (removeStaleStatuses f) ∧
    (err = None → context_ready (parse_url api) cxt').
Proof.
  intros Hf [Hadm Hout Hst Hq].
  assert (clf_Spec (removeStaleStatuses f) = clf_Spec f) as Hspec by done.
  unfold initialize. rewrite Hf.
  destruct (initialize_spec (ParseQuantity api) (removeStaleStatuses f))
    as (f' & o' & Hinit & Hwf & Hmeta & Hstat & Hfl & Hpi & HF & Hin & Hnd & Hsub); [done|done|].
  rewrite Hinit. cbn [mbind outcome_bind fst snd].
  assert (∀ o, o ∈ spec_Outputs (clf_Spec f') → ValidateOutputs.validatable (parse_url api) o) as Hval.
  { intros o Ho. destruct (Forall2_elem_r _ _ _ _ HF Ho) as (o0 & Ho0 & Hi).
    eapply validatable_initialized; [exact Hi|]. by apply Hout. }
  destruct (Outputs_SecretNames_returns _ Hval) as [names Hnames].
  unfold MapSecrets. rewrite Hnames. cbn [mbind outcome_bind].
  destruct (FetchSecrets api _ _) as [secrets|err]; cbn [mbind outcome_bind].
  2: { eexists _, _. split; [done|]. by split_and!. }
  destruct (GetOption as_secrets o' GeneratedSecrets []) as [g| |] eqn:Hg; cbn [mbind outcome_bind].
  2, 3: exfalso; unfold GetOption in Hg; destruct (o' !! GeneratedSecrets) as [v|] eqn:Hv; [|done];
    destruct (Hwf v Hv) as [l ->]; done.
  destruct (MapConfigMaps api _ _) as [cms|err].
  2: { eexists _, _. split; [done|]. by split_and!. }
  eexists _, _. split; [done|]. split; [done|]. split; [done|]. intros _.
  destruct Hadm as [Hi Ho Hfi Hni Hno Hnf Hnp]. destruct Hst as [S1 S2 S3 S4 S5].
  constructor; unfold ctx_Spec, ctx_Status; cbn [ctx_Forwarder].
  - constructor; rewrite ?Hfl, ?Hpi; try done.
    + apply Forall_forall. intros o Hx. by apply Hval.
    + change (NoDup (Outputs_Names (spec_Outputs (clf_Spec f')))).
      by rewrite (initialized_names _ _ HF).
  - done.
  - split_and!; [by eexists|by eexists|done].
  - rewrite Hstat. constructor; cbn [clf_Status removeStaleStatuses clf_set_Status st_Conditions
      st_InputConditions st_OutputConditions st_FilterConditions st_PipelineConditions].
    + done.
    + by apply PruneConditions_NoDup.
    + by apply PruneConditions_NoDup.
    + by apply PruneConditions_NoDup.
    + by apply PruneConditions_NoDup.
    + intros ty (n & -> & Hn)%PruneConditions_fresh%list_elem_of_fmap.
      apply list_elem_of_fmap_2. by apply Hsub.
    + intros ty Hty%PruneConditions_fresh.
      change (out_Name <$> spec_Outputs (clf_Spec f')) with (Outputs_Names (spec_Outputs (clf_Spec f'))).
      by rewrite (initialized_names _ _ HF).
    + intros ty Hty%PruneConditions_fresh. by rewrite Hfl.
    + intros ty Hty%PruneConditions_fresh. by rewrite Hpi.
Qed.
End initialized.

(** ** What a reconciliation does *)

Section behaviour.
Context `{RangeOrder} (api : cluster) (now : Z).

Notation authorized_in c :=
  (authorized (GetServiceAccount api) (CreateReview api) (ctx_Forwarder c)).
Notation ok c := (forwarder_ok (GetServiceAccount api) (CreateReview api) (regexp_compiles api)
  (parse_url api) (json_Unmarshal api) c).

(** The validation in the controller: its verdict is the specification's, and
    what it adds to the status says nothing about authorization. *)
Lemma validateForwarder_spec c :
  context_ready (parse_url api) c →
  ∃ c' b, validateForwarder api now c = Ret (c', b) ∧
    (∃ st, c' = ctx_set_Status c st ∧ status_unique st) ∧
    (b = true ↔ ok c) ∧
    (MustUndeployCollector (st_Conditions (ctx_Status c')) = true ↔ ¬ authorized_in c).
Proof.
  intros Hready. unfold validateForwarder.
  destruct (ValidateClusterLogForwarder_run now (GetServiceAccount api) (CreateReview api)
    (regexp_compiles api) (parse_url api) (json_Unmarshal api) c Hready)
    as (cs & ics & ocs & fcs & pcs & -> & Hnd & Hu1 & Hu2 & Hu3 & Hu4 & Ha & Hm & Hi & Ho & Hf & Hp).
  cbn [mbind outcome_bind].
  match goal with |- context [IsValidSpec (ctx_Forwarder ?c1)] => set (c' := c1) end.
  set (valid := IsValidSpec (ctx_Forwarder c')).
  assert (valid = true ↔ ok c) as Hvalid.
  { unfold valid, IsValidSpec. cbn -[isAuthorized isValid].
    change (clf_Spec (ctx_Forwarder c)) with (ctx_Spec c).
    rewrite !andb_true_iff, Ha, Hi, Ho, Hf, Hp. split.
    - intros [[[[? ?] ?] ?] ?]. by constructor.
    - by intros [? ? ? ? ?]. }
  match goal with |- context [SetCondition now ?l ?n] => set (n1 := n); set (cs' := l) end.
  assert (NoDup (types (SetCondition now cs' n1).1)) as Hnd' by by apply SetCondition_NoDup.
  eexists _, valid. split; [reflexivity|]. split; [|split; [exact Hvalid|]].
  - eexists. split; [reflexivity|]. by constructor.
  - change (MustUndeployCollector (SetCondition now cs' n1).1 = true ↔ ¬ authorized_in c).
    rewrite MustUndeployCollector_view by done. rewrite SetCondition_view.
    assert (cond_Type n1 = ConditionTypeValid) as Ht by (unfold n1; by destruct valid).
    rewrite Ht, lookup_insert_ne by done.
    rewrite <-MustUndeployCollector_view by done. unfold cs', c'.
    change (MustUndeployCollector cs = true ↔ ¬ authorized_in c).
    by rewrite Hm, negb_true_iff, <-not_true_iff_false, Ha.
Qed.

(** The two ways a managed forwarder is reconciled: the cluster fails while the
    context is filled, or the filled context is validated and acted on. *)
Lemma reconcile_managed_cases cxt f :
  ctx_Forwarder cxt = removeStaleStatuses f → stored_ok api f →
  (∃ c err, initialize api cxt = Ret (c, Some err) ∧
     clf_Status (ctx_Forwarder c) = clf_Status (removeStaleStatuses f) ∧
     reconcile_managed api now cxt = Ret (finish now c [] defaultRequeue None ConditionFalse
       ReasonInitializationFailed err)) ∨
  (∃ c c' b st, initialize api cxt = Ret (c, None) ∧ context_ready (parse_url api) c ∧
     c' = ctx_set_Status c st ∧ status_unique st ∧ (b = true ↔ ok c) ∧
     (MustUndeployCollector (st_Conditions (ctx_Status c')) = true ↔ ¬ authorized_in c) ∧
     reconcile_managed api now cxt =
       Ret (if b then reconcile_valid api now c' else reconcile_invalid api now c')).
Proof.
  intros Hf Hok. destruct (initialize_ready api cxt f Hf Hok) as (c & [err|] & Hi & _ & Hst & Hr).
  - left. exists c, err. unfold reconcile_managed. by rewrite Hi.
  - right. specialize (Hr eq_refl).
    destruct (validateForwarder_spec c Hr) as (c' & b & Hv & (st & -> & Hu) & Hb & Hm).
    exists c, (ctx_set_Status c st), b, st. split; [done|]. split; [done|]. split; [done|].
    split; [done|]. split; [done|]. split; [done|].
    unfold reconcile_managed. rewrite Hi. cbn [mbind outcome_bind fst snd]. rewrite Hv. done.
Qed.

(** The writes of a workload's removal delete that workload only. *)
Lemma remove_workload_events w ns n e :
  e ∈ fst (remove_workload api w ns n) → e = DeleteWorkload w ns n.
Proof.
  unfold remove_workload. destruct (GetWorkload api w ns n); simpl.
  - by intros ?%not_elem_of_nil.
  - by intros ?%list_elem_of_singleton.
Qed.

(** The last write: the status with its [Ready] condition. *)
Definition final_status (r : reconciled) (g : ClusterLogForwarder) : Prop :=
  ∃ l, rec_events r = l ++ [PatchStatus g] ∧ ∀ h, PatchStatus h ∉ l.

Lemma finish_final cxt evs res err st reason msg :
  (∀ h, PatchStatus h ∉ evs) →
  ∃ g, final_status (finish now cxt evs res err st reason msg) g ∧
    clf_Spec g = clf_Spec (ctx_Forwarder cxt) ∧
    view (st_Conditions (clf_Status g)) !! ConditionTypeReady =
      Some {| v_Status := st; v_Reason := reason; v_Message := msg |} ∧
    (status_unique (ctx_Status cxt) → status_unique (clf_Status g)).
Proof.
  intros Hno. eexists. split; [eexists; split; [reflexivity|exact Hno]|]. split; [done|]. split.
  - cbn [clf_Status clf_set_Status st_Conditions st_set_Conditions].
    rewrite SetCondition_view. by rewrite lookup_insert_eq.
  - intros [? ? ? ? ?]. constructor; try done. by apply SetCondition_NoDup.
Qed.
End behaviour.

Section claims.
Context `{RangeOrder} (api : cluster) (now : Z).

Notation authorized_in c :=
  (authorized (GetServiceAccount api) (CreateReview api) (ctx_Forwarder c)).
Notation ok c := (forwarder_ok (GetServiceAccount api) (CreateReview api) (regexp_compiles api)
  (parse_url api) (json_Unmarshal api) c).

Lemma Reconcile_managed cxt ns n f :
  GetForwarder api ns n = inl f → meta_DeletionTimestamp (clf_Meta f) = None →
  spec_ManagementState (clf_Spec f) ≠ ManagementStateUnmanaged →
  Reconcile api now cxt ns n =
    reconcile_managed api now (ctx_set_Forwarder (ctx_set_Forwarder cxt f) (removeStaleStatuses f)).
Proof.
  intros Hf Hd Hm. unfold Reconcile. rewrite Hf, Hd.
  cbn [ctx_Spec ctx_Forwarder ctx_set_Forwarder removeStaleStatuses clf_set_Status clf_Spec].
  by apply String.eqb_neq in Hm as ->.
Qed.

(** A reconciliation that validated: where its deployments come from. *)
Lemma reconcile_valid_events c c' :
  DeployCollector c' ∈ rec_events (reconcile_valid api now c) → c' = c.
Proof.
  unfold reconcile_valid, RemoveStaleWorkload.
  destruct (remove_workload api _ _ _) as [removed err] eqn:E.
  assert (∀ c', DeployCollector c' ∉ removed) as Hno.
  { intros d Hd. change removed with (fst (removed, err)) in Hd. rewrite <-E in Hd.
    by apply remove_workload_events in Hd. }
  destruct err as [err|]; [|destruct (Deploy api c)]; simpl; rewrite !elem_of_app, ?list_elem_of_singleton.
  - intros [Hd|[=]]. by apply Hno in Hd.
  - intros [[Hd|[= ->]]|[=]]; [|done]. by apply Hno in Hd.
  - intros [[Hd|[= ->]]|[=]]; [|done]. by apply Hno in Hd.
Qed.

Lemma reconcile_invalid_events c c' : DeployCollector c' ∉ rec_events (reconcile_invalid api now c).
Proof.
  unfold reconcile_invalid. simpl. rewrite elem_of_app, list_elem_of_singleton. intros [Hd|[=]].
  destruct (MustUndeployCollector _); [|by apply not_elem_of_nil in Hd].
  by apply remove_workload_events in Hd.
Qed.

(** C2. Nothing is deployed that was not validated.  When a reconciliation of a
    stored forwarder applies the collector's resources, the forwarder is not
    being deleted and is managed, and the context that is deployed is, up to the
    status, one that meets the specification of a valid forwarder. *)
Theorem Reconcile_deploys_only_valid cxt ns n f r c' :
  GetForwarder api ns n = inl f → stored_ok api f →
  Reconcile api now cxt ns n = Ret r → DeployCollector c' ∈ rec_events r →
  meta_DeletionTimestamp (clf_Meta f) = None ∧
  spec_ManagementState (clf_Spec f) ≠ ManagementStateUnmanaged ∧
  ∃ c st, initialize api (ctx_set_Forwarder cxt (removeStaleStatuses f)) = Ret (c, None) ∧
    c' = ctx_set_Status c st ∧ ok c.
Proof.
  intros Hf Hok Hr Hd.
  destruct (meta_DeletionTimestamp (clf_Meta f)) eqn:Hdel.
  { unfold Reconcile in Hr. rewrite Hf, Hdel in Hr. injection Hr as <-. simpl in Hd.
    by apply list_elem_of_singleton in Hd. }
  destruct (decide (spec_ManagementState (clf_Spec f) = ManagementStateUnmanaged)) as [Hm|Hm].
  { unfold Reconcile in Hr. rewrite Hf, Hdel in Hr.
    cbn [ctx_Spec ctx_Forwarder ctx_set_Forwarder removeStaleStatuses clf_set_Status clf_Spec] in Hr.
    rewrite Hm in Hr. injection Hr as <-. by apply list_elem_of_singleton in Hd. }
  split; [done|]. split; [done|].
  rewrite (Reconcile_managed cxt ns n f) in Hr by done.
  set (cxt0 := ctx_set_Forwarder (ctx_set_Forwarder cxt f) (removeStaleStatuses f)) in Hr.
  destruct (reconcile_managed_cases api now cxt0 f eq_refl Hok)
    as [(c & err & _ & _ & Hc)|(c & c1 & b & st & Hi & _ & -> & _ & Hb & _ & Hc)];
    rewrite Hc in Hr; injection Hr as <-.
  - by apply list_elem_of_singleton in Hd.
  - exists c, st. split; [exact Hi|]. destruct b.
    + apply reconcile_valid_events in Hd. split; [done|]. by apply Hb.
    + by apply reconcile_invalid_events in Hd.
Qed.

(** What a reconciliation that wrote its status says of the deployment. *)
Definition reports_readiness (o : outcome reconciled) : Prop :=
  ∃ r g v, o = Ret r ∧ final_status r g ∧ status_unique (clf_Status g) ∧
    view (st_Conditions (clf_Status g)) !! ConditionTypeReady = Some v ∧
    (v_Status v = ConditionTrue ↔ rec_result r = periodicRequeue) ∧
    (rec_result r = periodicRequeue ↔ ∃ c, DeployCollector c ∈ rec_events r ∧ Deploy api c = None) ∧
    (rec_result r = periodicRequeue → rec_err r = None).

Lemma finish_readiness c evs res err st reason msg :
  (∀ h, PatchStatus h ∉ evs) → status_unique (ctx_Status c) →
  (st = ConditionTrue ↔ res = periodicRequeue) →
  (res = periodicRequeue ↔ ∃ c, DeployCollector c ∈ evs ∧ Deploy api c = None) →
  (res = periodicRequeue → err = None) →
  reports_readiness (Ret (finish now c evs res err st reason msg)).
Proof.
  intros Hno Hu Hst Hdep Herr.
  destruct (finish_final now c evs res err st reason msg Hno) as (g & Hg & _ & Hv & Hug).
  eexists _, g, _. split; [reflexivity|]. split; [exact Hg|]. split; [by apply Hug|].
  split; [exact Hv|]. split; [exact Hst|]. split; [|exact Herr]. cbn [finish rec_result rec_events]. rewrite Hdep.
  split; intros (d & Hd & Hok); exists d; (split; [|exact Hok]); [by apply elem_of_app; left|].
  apply elem_of_app in Hd as [?|?%list_elem_of_singleton]; [done|discriminate].
Qed.

(** Nothing was deployed. *)
Lemma finish_not_ready c evs err st reason msg :
  (∀ h, PatchStatus h ∉ evs) → (∀ d, DeployCollector d ∈ evs → Deploy api d ≠ None) →
  status_unique (ctx_Status c) → st ≠ ConditionTrue →
  reports_readiness (Ret (finish now c evs defaultRequeue err st reason msg)).
Proof.
  intros Hno Hd Hu Hst. apply finish_readiness; [done|done|by split|split; [done|]|done].
  intros (d & Hin & Hok). by destruct (Hd d Hin).
Qed.

Lemma reconcile_valid_readiness c :
  status_unique (ctx_Status c) → reports_readiness (Ret (reconcile_valid api now c)).
Proof.
  intros Hu. unfold reconcile_valid, RemoveStaleWorkload.
  destruct (remove_workload api _ _ _) as [removed err] eqn:E.
  assert (∀ e, e ∈ removed → ∃ w ns n, e = DeleteWorkload w ns n) as Hrm.
  { intros e He. change removed with (fst (removed, err)) in He. rewrite <-E in He.
    apply remove_workload_events in He. eauto. }
  assert (∀ e d, e ∈ removed ++ [DeployCollector d] → e = DeployCollector d ∨ ∃ w ns n, e = DeleteWorkload w ns n) as Hrm'.
  { intros e d [?|?%list_elem_of_singleton]%elem_of_app; [right|left]; auto. }
  assert (∀ d h, PatchStatus h ∉ removed ++ [DeployCollector d]) as Hno by (by intros d h [?|(?&?&?&?)]%Hrm').
  destruct err as [err|]; [|destruct (Deploy api c) as [err|] eqn:Ed].
  - apply finish_not_ready; [by intros h (?&?&?&?)%Hrm|by intros d (?&?&?&?)%Hrm|done|done].
  - apply finish_not_ready; [done| |done|done]. intros d [[= ->]|(?&?&?&?)]%Hrm'; [by rewrite Ed|done].
  - apply finish_readiness; [done|done|done| |done]. split; [|done]. intros _. exists c. split; [|done].
    apply elem_of_app. right. by apply list_elem_of_singleton.
Qed.

Lemma reconcile_invalid_readiness c :
  status_unique (ctx_Status c) → reports_readiness (Ret (reconcile_invalid api now c)).
Proof.
  intros Hu. unfold reconcile_invalid. set (removed := if MustUndeployCollector _ then _ else _).
  assert (∀ e, e ∈ removed → ∃ w ns n, e = DeleteWorkload w ns n) as Hrm.
  { intros e. subst removed. destruct (MustUndeployCollector _); [|by intros ?%not_elem_of_nil].
    intros He%remove_workload_events. eauto. }
  apply finish_not_ready; [by intros h (?&?&?&?)%Hrm|by intros d (?&?&?&?)%Hrm|done|done].
Qed.

(** C14. The [Ready] condition tells the outcome.  Every reconciliation of a stored
    forwarder that is not being deleted, and that the API server admitted with a unique
    status and with outputs that can be validated, returns.  Its last write is the one
    write of the status, which keeps one condition per type; [Ready] is true exactly when
    the reconciliation is scheduled again periodically, which is exactly when the collector
    was deployed and the deployment gave no error; then none is returned.  For any
    forwarder that is being deleted it returns as well: its one write is the deletion of a
    cluster role binding, and no status is written. *)
Theorem Reconcile_ready cxt ns n f :
  GetForwarder api ns n = inl f →
  (meta_DeletionTimestamp (clf_Meta f) = None → stored_ok api f →
   ∃ r g v, Reconcile api now cxt ns n = Ret r ∧ final_status r g ∧ status_unique (clf_Status g) ∧
     view (st_Conditions (clf_Status g)) !! ConditionTypeReady = Some v ∧
     (v_Status v = ConditionTrue ↔ rec_result r = periodicRequeue) ∧
     (rec_result r = periodicRequeue ↔ ∃ c, DeployCollector c ∈ rec_events r ∧ Deploy api c = None) ∧
     (rec_result r = periodicRequeue → rec_err r = None)) ∧
  (meta_DeletionTimestamp (clf_Meta f) ≠ None →
   ∃ r, Reconcile api now cxt ns n = Ret r ∧ rec_result r = defaultRequeue ∧
     rec_events r = [DeleteClusterRoleBinding (MetricsAuthClusterRoleBinding (ResourceNames f))]).
Proof.
  intros Hf. split.
  2: { intros Hdel. unfold Reconcile. rewrite Hf. destruct (meta_DeletionTimestamp _); [|done]. by eexists. }
  intros Hdel Hok.
  assert (status_unique (clf_Status (removeStaleStatuses f))) as Hstale.
  { destruct (so_status _ _ Hok) as [? ? ? ? ?]. destruct (so_admitted _ _ Hok).
    constructor; [done|..]; by apply PruneConditions_NoDup. }
  destruct (decide (spec_ManagementState (clf_Spec f) = ManagementStateUnmanaged)) as [Hm|Hm].
  { unfold Reconcile. rewrite Hf, Hdel.
    cbn [ctx_Spec ctx_Forwarder ctx_set_Forwarder removeStaleStatuses clf_set_Status clf_Spec].
    rewrite Hm. apply finish_not_ready; [by intros h ?%not_elem_of_nil|by intros h ?%not_elem_of_nil|done|done]. }
  rewrite (Reconcile_managed cxt ns n f) by done.
  set (cxt0 := ctx_set_Forwarder (ctx_set_Forwarder cxt f) (removeStaleStatuses f)).
  destruct (reconcile_managed_cases api now cxt0 f eq_refl Hok)
    as [(c & err & _ & Hst & ->)|(c & c1 & b & st & _ & _ & -> & Hu & _ & _ & ->)].
  - apply finish_not_ready; [by intros h ?%not_elem_of_nil|by intros h ?%not_elem_of_nil| |done].
    unfold ctx_Status. by rewrite Hst.
  - destruct b; [by apply reconcile_valid_readiness|by apply reconcile_invalid_readiness].
Qed.

(** C15. An unauthorized forwarder loses its collector.  For a stored forwarder that the
    API server admitted with a unique status and with outputs that can be validated, that
    is managed and not being deleted, and whose context could be initialized: when the
    service account may not collect what the pipelines read, the reconciliation reports
    no error, deploys nothing and writes nothing but the deletion of the workload of the
    kind the forwarder asks for, if that workload can be read, and the status, whose
    [Ready] is false. *)
Theorem Reconcile_undeploys_unauthorized cxt ns n f c :
  GetForwarder api ns n = inl f → stored_ok api f → meta_DeletionTimestamp (clf_Meta f) = None →
  spec_ManagementState (clf_Spec f) ≠ ManagementStateUnmanaged →
  initialize api (ctx_set_Forwarder cxt (removeStaleStatuses f)) = Ret (c, None) →
  ¬ authorized_in c →
  ∃ r g, Reconcile api now cxt ns n = Ret r ∧ rec_err r = None ∧ rec_result r = defaultRequeue ∧
    (∀ c', DeployCollector c' ∉ rec_events r) ∧
    (let w := if DeployAsDeployment (ctx_Forwarder c) then Deployment else DaemonSet in
     let ns' := clf_Namespace (ctx_Forwarder c) in let n' := clf_Name (ctx_Forwarder c) in
     rec_events r = (if GetWorkload api w ns' n' then [] else [DeleteWorkload w ns' n']) ++ [PatchStatus g]) ∧
    view (st_Conditions (clf_Status g)) !! ConditionTypeReady =
      Some {| v_Status := ConditionFalse; v_Reason := ReasonValidationFailure; v_Message := "collector not ready" |}.
Proof.
  intros Hf Hok Hdel Hm Hinit Hna. rewrite (Reconcile_managed cxt ns n f) by done.
  set (cxt0 := ctx_set_Forwarder (ctx_set_Forwarder cxt f) (removeStaleStatuses f)).
  destruct (reconcile_managed_cases api now cxt0 f eq_refl Hok)
    as [(c1 & err & Hi & _)|(c1 & c' & b & st & Hi & _ & -> & _ & Hb & Hmust & ->)];
    change (initialize api cxt0) with
      (initialize api (ctx_set_Forwarder cxt (removeStaleStatuses f))) in Hi;
    rewrite Hinit in Hi; injection Hi; [done|]. intros <-.
  destruct b.
  { exfalso. apply Hna. by destruct (proj1 Hb eq_refl). }
  eexists _, _. split; [reflexivity|]. split; [done|]. split; [done|]. split; [apply reconcile_invalid_events|].
  split.
  - cbn zeta. unfold reconcile_invalid. rewrite (proj2 Hmust Hna). cbn [finish rec_events].
    f_equal. unfold remove_workload. cbn [ctx_Forwarder ctx_set_Status ctx_set_Forwarder clf_set_Status clf_Namespace clf_Name].
    change (DeployAsDeployment (clf_set_Status (ctx_Forwarder c) st)) with (DeployAsDeployment (ctx_Forwarder c)).
    by destruct (GetWorkload api _ _ _).
  - cbn [clf_Status clf_set_Status st_Conditions st_set_Conditions NewCondition cond_Type cond_Status cond_Reason cond_Message].
    by rewrite SetCondition_view, lookup_insert_eq.
Qed.
End claims.

(** ** Stale conditions *)

(** The conditions of a status, list by list, with the prefix of their types and
    the names of the parts of a spec they are about. *)
Definition part_conditions (spec : ClusterLogForwarderSpec) (st : ClusterLogForwarderStatus) :
    list (string * list string * list Condition) :=
  [ (ConditionTypeValidInputPrefix, Inputs_Names (spec_Inputs spec), st_InputConditions st);
    (ConditionTypeValidOutputPrefix, Outputs_Names (spec_Outputs spec), st_OutputConditions st);
    (ConditionTypeValidFilterPrefix, Filters_Names (spec_Filters spec), st_FilterConditions st);
    (ConditionTypeValidPipelinePrefix, Pipelines_Names (spec_Pipelines spec), st_PipelineConditions st) ].

(** A condition of an input that the stored spec does not declare is gone, so that
    setting it appends it as new. *)
Lemma undeclared_input_is_new now f n met reason msg :
  n ∉ Inputs_Names (spec_Inputs (clf_Spec f)) →
  let cs := st_InputConditions (clf_Status (removeStaleStatuses f)) in
  let c := NewConditionFromPrefix now ConditionTypeValidInputPrefix n met reason msg in
  SetCondition now cs c = (cs ++ [c], true).
Proof.
  cbv zeta. intros Hn. cbn [removeStaleStatuses clf_Status clf_set_Status st_InputConditions].
  set (cs := PruneConditions _ _ _).
  assert (prefixed ConditionTypeValidInputPrefix n ∉ types cs) as Hnew.
  { intros (m & Hm & Hin)%PruneConditions_fresh%list_elem_of_fmap.
    apply prefixed_inj in Hm as ->. by apply Hn. }
  unfold SetCondition. by rewrite SetCondition_loop_missing.
Qed.

(** Removing stale conditions.  What stays in the status are the conditions
    whose type names a part the {e stored} spec declares, unchanged and in their
    order, and the general conditions.  The inputs that the initialization adds
    for the reserved names are not declared there: their condition is dropped at
    the start of every reconciliation and set again as new, with the current time
    as its transition time, although nothing changed. *)
Theorem removeStaleStatuses_correct now f :
  let spec := clf_Spec f in
  let f' := removeStaleStatuses f in
  clf_Spec f' = spec ∧ st_Conditions (clf_Status f') = st_Conditions (clf_Status f) ∧
  Forall2 (λ old new, (∀ c, c ∈ new.2 ↔ c ∈ old.2 ∧ ∃ n, n ∈ old.1.2 ∧ cond_Type c = prefixed old.1.1 n) ∧
      (NoDup old.1.2 → sublist new.2 old.2))
    (part_conditions spec (clf_Status f)) (part_conditions spec (clf_Status f')) ∧
  (∀ n met reason msg, n ∉ Inputs_Names (spec_Inputs spec) →
     let cs := st_InputConditions (clf_Status f') in
     let c := NewConditionFromPrefix now ConditionTypeValidInputPrefix n met reason msg in
     SetCondition now cs c = (cs ++ [c], true) ∧ cond_LastTransitionTime c = now).
Proof.
  cbv zeta. split_and!; [done|done| |].
  - unfold part_conditions. cbn [removeStaleStatuses clf_Status clf_set_Status st_InputConditions
      st_OutputConditions st_FilterConditions st_PipelineConditions].
    repeat (apply Forall2_cons; split; [split; cbn [fst snd];
      [apply elem_of_PruneConditions|intros Hnd; rewrite PruneConditions_filter by done; apply sublist_filter]|]).
    apply Forall2_nil_2.
  - intros n met reason msg Hn. split; [by apply undeclared_input_is_new|done].
Qed.
