(* ===== verification/System.v ===== *)
(** * A forwarder on a cluster

    The life of one forwarder: users edit and delete it, the API server stores it, the
    controller reconciles it.  The state is what the API server stores; a step is one
    edit, one deletion, or one reconciliation with all its writes.  The answers of the
    cluster are arbitrary as long as they agree with the state on the forwarder and on
    its workloads. *)

From S2P Require Import Prelude GoStrings ApiCommon ApiInputs ApiFilters ApiOutputs ApiForwarder.
From S2P Require Import Sets Conditions ObsResources ObsInputs ObsOutputs ObsForwarder Initialize.
From S2P Require Import ValidateCommon Validate Reconcile.
From S2P Require ValidateFilters ValidateInputs ValidateOutputs ValidatePipelines.

(** ** The state *)

#[export] Instance workload_eq_dec : EqDecision workload.
Proof. solve_decision. Defined.

(** The stored forwarder, the configuration each workload that exists was made from,
    and whether the last write of the status was lost. *)
Record state := {
  stored : option ClusterLogForwarder;
  running : workload → option ForwarderContext;
  status_lost : bool;
}.

Definition set_stored (s : state) (f : option ClusterLogForwarder) : state := {|
  stored := f; running := running s; status_lost := status_lost s |}.

Definition set_running (s : state) (w : workload) (c : option ForwarderContext) : state := {|
  stored := stored s;
  running := λ w', if decide (w = w') then c else running s w';
  status_lost := status_lost s |}.

Definition lose_status (s : state) : state := {|
  stored := stored s; running := running s; status_lost := true |}.

(** The workload a forwarder asks for, and the other one. *)
Definition asked `{RangeOrder} (f : ClusterLogForwarder) : workload :=
  if DeployAsDeployment f then Deployment else DaemonSet.

Definition other (w : workload) : workload :=
  match w with DaemonSet => Deployment | Deployment => DaemonSet end.

(** ** The writes

    [updateStatus] sends the status as a JSON merge patch.  A list without elements is
    not encoded ([omitempty]), so the patch leaves the stored one as it is. *)
Definition merge_list (old new : list Condition) : list Condition :=
  match new with [] => old | _ :: _ => new end.

Definition merge_status (old new : ClusterLogForwarderStatus) : ClusterLogForwarderStatus := {|
  st_Conditions := merge_list (st_Conditions old) (st_Conditions new);
  st_InputConditions := merge_list (st_InputConditions old) (st_InputConditions new);
  st_OutputConditions := merge_list (st_OutputConditions old) (st_OutputConditions new);
  st_FilterConditions := merge_list (st_FilterConditions old) (st_FilterConditions new);
  st_PipelineConditions := merge_list (st_PipelineConditions old) (st_PipelineConditions new) |}.

Definition patch_status (s : state) (g : ClusterLogForwarder) : state := {|
  stored := (λ f, clf_set_Status f (merge_status (clf_Status f) (clf_Status g))) <$> stored s;
  running := running s; status_lost := false |}.

Section writes.
Context `{RangeOrder} (api : cluster).

(** One write.  The error of a write of the status is only logged; a deployment that
    fails may have changed the workload or not. *)
Inductive write : event → state → state → Prop :=
  | write_delete w ns n s :
      (RemoveWorkload api w ns n = None ∨ ∃ e, RemoveWorkload api w ns n = Some e ∧ err_NotFound e = true) →
      write (DeleteWorkload w ns n) s (set_running s w None)
  | write_delete_failed w ns n s e :
      RemoveWorkload api w ns n = Some e → err_NotFound e = false →
      write (DeleteWorkload w ns n) s s
  | write_binding name s : write (DeleteClusterRoleBinding name) s s
  | write_deploy c s :
      write (DeployCollector c) s (set_running s (asked (ctx_Forwarder c)) (Some c))
  | write_deploy_failed c s err :
      Deploy api c = Some err → write (DeployCollector c) s s
  | write_status g s : write (PatchStatus g) s (patch_status s g)
  | write_status_failed g s : write (PatchStatus g) s (lose_status s).

Inductive run : list event → state → state → Prop :=
  | run_nil s : run [] s s
  | run_cons e l s s' s'' : write e s s' → run l s' s'' → run (e :: l) s s''.

Lemma run_app l1 l2 s s'' : run (l1 ++ l2) s s'' ↔ ∃ s', run l1 s s' ∧ run l2 s' s''.
Proof.
  split.
  - revert s. induction l1 as [|e l1 IH]; intros s; [by intros Hr; exists s; split; [constructor|]|].
    inversion 1 as [|? ? ? s1 ? Hw Hr]; subst. destruct (IH _ Hr) as (s' & ? & ?).
    exists s'. split; [by econstructor|done].
  - intros (s' & H1 & H2). induction H1; [done|]. econstructor; eauto.
Qed.

Lemma run_single e s s' : run [e] s s' ↔ write e s s'.
Proof.
  split; [|by intros Hw; econstructor; [exact Hw|constructor]].
  inversion 1 as [|? ? ? ? ? ? Hr]; subst. by inversion Hr; subst.
Qed.
End writes.

(** Being valid does not depend on the status. *)
Lemma forwarder_ok_set_Status sa review re url js c st :
  forwarder_ok sa review re url js c → forwarder_ok sa review re url js (ctx_set_Status c st).
Proof.
  intros [Ha Hi Ho Hf Hp]. constructor; [exact Ha|exact Hi| |exact Hf|exact Hp].
  intros o Hin. destruct (Ho o Hin) as [? ? ? ? ? ?]. by constructor.
Qed.

(** ** The steps *)

Section system.
Context `{RangeOrder} (ns n : string) (parse : string → option ValidateOutputs.URL).

(** The answers about the forwarder and its workloads are those of the state. *)
Record agrees (api : cluster) (s : state) : Prop := {
  ag_forwarder : match stored s with
                 | Some f => GetForwarder api ns n = inl f
                 | None => ∃ e, GetForwarder api ns n = inr e
                 end;
  ag_exists : ∀ w, GetWorkload api w ns n = None → is_Some (running s w);
  ag_absent : ∀ w e, GetWorkload api w ns n = Some e → err_NotFound e = true → running s w = None;
  ag_parse : parse_url api = parse;
  ag_defaults : defaults_parse (ParseQuantity api);
}.

(** A forwarder as the API server admits it. *)
Record stored_as (f : ClusterLogForwarder) : Prop := {
  sa_namespace : clf_Namespace f = ns;
  sa_name : clf_Name f = n;
  sa_admitted : clf_admitted (clf_Spec f);
  sa_outputs : ∀ o, o ∈ spec_Outputs (clf_Spec f) → ValidateOutputs.validatable parse o;
}.

Inductive step : state → state → Prop :=
  | step_create s f :
      stored s = None → stored_as f → clf_Status f = ClusterLogForwarderStatus_zero →
      step s (set_stored s (Some f))
  | step_edit s f f' :
      stored s = Some f → stored_as f' → clf_Status f' = clf_Status f → step s (set_stored s (Some f'))
  | step_delete s : step s (set_stored s None)
  | step_collect s w : stored s = None → step s (set_running s w None)
  | step_reconcile s s' api now cxt r :
      agrees api s → Reconcile api now cxt ns n = Ret r → run api (rec_events r) s s' → step s s'.

Definition initial : state := {| stored := None; running := λ _, None; status_lost := false |}.

Inductive reachable : state → Prop :=
  | reachable_initial : reachable initial
  | reachable_step s s' : reachable s → step s s' → reachable s'.

(** ** What holds in every state *)

Definition is_ready (f : ClusterLogForwarder) : Prop :=
  ∃ v, view (st_Conditions (clf_Status f)) !! ConditionTypeReady = Some v ∧ v_Status v = ConditionTrue.

(** A configuration that was validated, and the workload it was made for. *)
Definition validated (w : workload) (c : ForwarderContext) : Prop :=
  asked (ctx_Forwarder c) = w ∧
  ∃ api c0 st, c = ctx_set_Status c0 st ∧
    forwarder_ok (GetServiceAccount api) (CreateReview api) (regexp_compiles api) parse (json_Unmarshal api) c0.

Record invariant (s : state) : Prop := {
  inv_stored : ∀ f, stored s = Some f → stored_as f ∧ status_unique (clf_Status f);
  inv_running : ∀ w c, running s w = Some c → validated w c;
  inv_ready : ∀ f, stored s = Some f → status_lost s = false → is_ready f →
    ∃ w c, running s w = Some c ∧ running s (other w) = None;
}.

(** Writes that leave the stored forwarder and validated workloads behind. *)
Lemma patch_unique old new : status_unique old → status_unique new → status_unique (merge_status old new).
Proof.
  intros [] []. constructor; cbn; unfold merge_list; by case_match.
Qed.

Lemma asked_other f : other (asked f) ≠ asked f.
Proof. unfold asked. by destruct (DeployAsDeployment f). Qed.

(** ** What a reconciliation writes *)

(** Only workloads are deleted. *)
Definition only_deletes (l : list event) : Prop := ∀ e, e ∈ l → ∃ w, e = DeleteWorkload w ns n.

(** The writes of a reconciliation that reaches the status: deletions that leave the
    forwarder not ready, or the deployment of a validated context after the workload of
    the other kind was found absent or deleted. *)
Definition writes_of (api : cluster) (l : list event) (ready : string) : Prop :=
  (only_deletes l ∧ ready ≠ ConditionTrue) ∨
  ∃ c, l = fst (remove_workload api (other (asked (ctx_Forwarder c))) ns n) ++ [DeployCollector c] ∧
    snd (remove_workload api (other (asked (ctx_Forwarder c))) ns n) = None ∧
    validated (asked (ctx_Forwarder c)) c ∧ (ready = ConditionTrue ↔ Deploy api c = None).

Definition reconciles_to (api : cluster) (r : reconciled) : Prop :=
  (∃ b, rec_events r = [DeleteClusterRoleBinding b]) ∨
  ∃ l g v, rec_events r = l ++ [PatchStatus g] ∧ status_unique (clf_Status g) ∧
    view (st_Conditions (clf_Status g)) !! ConditionTypeReady = Some v ∧ writes_of api l (v_Status v).

Lemma finish_to api now c evs res err st reason msg :
  status_unique (ctx_Status c) → writes_of api evs st →
  reconciles_to api (finish now c evs res err st reason msg).
Proof.
  intros Hu Hw. right. eexists evs, _, _. split; [reflexivity|].
  cbn [clf_Status clf_set_Status st_Conditions st_set_Conditions].
  split; [|split; [rewrite SetCondition_view; by rewrite lookup_insert_eq|exact Hw]].
  destruct Hu as [? ? ? ? ?]. constructor; try done. by apply SetCondition_NoDup.
Qed.

Lemma remove_only_deletes api w : only_deletes (fst (remove_workload api w ns n)).
Proof. intros e ->%remove_workload_events. by exists w. Qed.

Lemma reconcile_valid_to api now c0 st :
  status_unique st → clf_Namespace (ctx_Forwarder c0) = ns → clf_Name (ctx_Forwarder c0) = n →
  forwarder_ok (GetServiceAccount api) (CreateReview api) (regexp_compiles api) parse (json_Unmarshal api) c0 →
  reconciles_to api (reconcile_valid api now (ctx_set_Status c0 st)).
Proof.
  intros Hu Hns Hn Hok. set (c := ctx_set_Status c0 st).
  assert (validated (asked (ctx_Forwarder c)) c) as Hv by (split; [done|]; by exists api, c0, st).
  unfold reconcile_valid, RemoveStaleWorkload.
  replace (clf_Namespace (ctx_Forwarder c)) with ns. replace (clf_Name (ctx_Forwarder c)) with n.
  replace (if DeployAsDeployment (ctx_Forwarder c) then DaemonSet else Deployment)
    with (other (asked (ctx_Forwarder c))) by (unfold asked; by destruct (DeployAsDeployment _)).
  pose proof (remove_only_deletes api (other (asked (ctx_Forwarder c)))) as Hdel.
  destruct (remove_workload api _ ns n) as [removed [err|]] eqn:E; cbn [fst] in Hdel.
  { by apply finish_to; [|left]. }
  destruct (Deploy api c) as [err|] eqn:Ed; apply finish_to; try done; right; exists c; rewrite E, Ed; done.
Qed.

Lemma Reconcile_to api s f now cxt r :
  agrees api s → stored s = Some f → stored_as f → status_unique (clf_Status f) →
  Reconcile api now cxt ns n = Ret r → reconciles_to api r.
Proof.
  intros Hag Hs Hf Hu Hr. destruct Hag as [Hget _ _ Hp Hd]. rewrite Hs in Hget. destruct Hf as [Hns Hn Hadm Hout].
  assert (stored_ok api f) as Hok by (constructor; [done|by rewrite Hp|done|done]).
  assert (status_unique (clf_Status (removeStaleStatuses f))) as Hst.
  { destruct Hu as [? ? ? ? ?], Hadm. constructor; [done|..]; by apply PruneConditions_NoDup. }
  destruct (meta_DeletionTimestamp (clf_Meta f)) eqn:Hdel.
  { unfold Reconcile in Hr. rewrite Hget, Hdel in Hr. injection Hr as <-. left. by eexists. }
  destruct (decide (spec_ManagementState (clf_Spec f) = ManagementStateUnmanaged)) as [Hm|Hm].
  { unfold Reconcile in Hr. rewrite Hget, Hdel in Hr.
    cbn [ctx_Spec ctx_Forwarder ctx_set_Forwarder removeStaleStatuses clf_set_Status clf_Spec] in Hr.
    rewrite Hm in Hr. injection Hr as <-. apply finish_to; [done|]. left. by split; [intros ? ?%not_elem_of_nil|]. }
  rewrite (Reconcile_managed api now cxt ns n f) in Hr by done.
  set (cxt0 := ctx_set_Forwarder (ctx_set_Forwarder cxt f) (removeStaleStatuses f)) in Hr.
  destruct (initialize_ready api cxt0 f eq_refl Hok) as (ci & erri & Hi & Hmeta & _ & _).
  destruct (reconcile_managed_cases api now cxt0 f eq_refl Hok)
    as [(c & err & _ & Hcs & Hc)|(c & c1 & b & st & Hi' & _ & -> & Hust & Hb & _ & Hc)];
    rewrite Hc in Hr; injection Hr as <-.
  - apply finish_to; [unfold ctx_Status; by rewrite Hcs|]. left. by split; [intros ? ?%not_elem_of_nil|].
  - assert (ci = c) as -> by congruence.
    assert (clf_Namespace (ctx_Forwarder c) = ns) as Hcns by (rewrite <-Hns; unfold clf_Namespace; by rewrite Hmeta).
    assert (clf_Name (ctx_Forwarder c) = n) as Hcn by (rewrite <-Hn; unfold clf_Name; by rewrite Hmeta).
    destruct b.
    + apply reconcile_valid_to; try done. rewrite <-Hp. by apply Hb.
    + unfold reconcile_invalid. apply finish_to; [done|]. left. split; [|done].
      change (clf_Namespace (ctx_Forwarder (ctx_set_Status c st))) with (clf_Namespace (ctx_Forwarder c)).
      change (clf_Name (ctx_Forwarder (ctx_set_Status c st))) with (clf_Name (ctx_Forwarder c)).
      rewrite Hcns, Hcn. destruct (MustUndeployCollector _); [apply remove_only_deletes|by intros ? ?%not_elem_of_nil].
Qed.

(** ** What the writes do to the state *)

Lemma run_deletes api l s s' :
  only_deletes l → run api l s s' →
  stored s' = stored s ∧ status_lost s' = status_lost s ∧
  ∀ w c, running s' w = Some c → running s w = Some c.
Proof.
  intros Hl Hr. induction Hr as [s|e l s s1 s2 Hw _ IH]; [done|].
  apply forall_cons_iff in Hl as [[w ->] Hl]. destruct (IH Hl) as (-> & -> & Hrun).
  inversion Hw; subst; [|done]. split; [done|]. split; [done|].
  intros w' c Hc%Hrun. cbn in Hc. by case_decide.
Qed.

Lemma run_removed api w s s' :
  agrees api s → snd (remove_workload api w ns n) = None →
  run api (fst (remove_workload api w ns n)) s s' → running s' w = None.
Proof.
  intros Hag. unfold remove_workload. destruct (GetWorkload api w ns n) as [e|] eqn:Hg; cbn [fst snd].
  - destruct (err_NotFound e) eqn:He; [|done]. intros _ Hr. inversion Hr; subst. by eapply ag_absent.
  - intros Hn Hr%run_single. inversion Hr; subst.
    + cbn. by rewrite decide_True.
    + match goal with E : RemoveWorkload _ _ _ _ = _ |- _ => rewrite E in Hn end.
      match goal with E : err_NotFound _ = _ |- _ => rewrite E in Hn end. done.
Qed.

Lemma run_deploy api c s s' :
  run api [DeployCollector c] s s' →
  (s' = set_running s (asked (ctx_Forwarder c)) (Some c)) ∨ (s' = s ∧ is_Some (Deploy api c)).
Proof. intros Hw%run_single. inversion Hw; subst; [by left|right; by split]. Qed.

Lemma run_status api g s s' :
  run api [PatchStatus g] s s' → s' = patch_status s g ∨ s' = lose_status s.
Proof. intros Hw%run_single. inversion Hw; subst; auto. Qed.

(** After the writes before the status: nothing was stored, what runs was validated,
    and a forwarder that is ready has its workload and no other. *)
Lemma run_writes api l ready s s' :
  agrees api s → (∀ w c, running s w = Some c → validated w c) → writes_of api l ready → run api l s s' →
  stored s' = stored s ∧ status_lost s' = status_lost s ∧
  (∀ w c, running s' w = Some c → validated w c) ∧
  (ready = ConditionTrue → ∃ w c, running s' w = Some c ∧ running s' (other w) = None).
Proof.
  intros Hag Hval [[Hdel Hno]|(c & -> & Hrm & Hv & Hready)] Hr.
  { destruct (run_deletes _ _ _ _ Hdel Hr) as (? & ? & Hrun). split_and!; [done|done| |done].
    intros w c Hc%Hrun. by apply Hval. }
  apply run_app in Hr as (s1 & Hr1 & Hr2).
  destruct (run_deletes _ _ _ _ (remove_only_deletes api _) Hr1) as (Es & El & Hrun).
  pose proof (run_removed _ _ _ _ Hag Hrm Hr1) as Habs.
  destruct (run_deploy _ _ _ _ Hr2) as [->|[-> [e He]]].
  - split_and!; [done|done| |].
    + intros w d. cbn. case_decide as Hw; [intros [= <-]; by subst|]. intros Hd%Hrun. by apply Hval.
    + intros _. exists (asked (ctx_Forwarder c)), c. cbn. rewrite decide_True by done. split; [done|].
      rewrite decide_False; [done|]. intros Heq. by apply (asked_other (ctx_Forwarder c)).
  - split_and!; [done|done| |].
    + intros w d Hd%Hrun. by apply Hval.
    + intros Ht%Hready. congruence.
Qed.

Lemma view_merge old new v :
  view new !! ConditionTypeReady = Some v → view (merge_list old new) = view new.
Proof. by destruct new. Qed.

Lemma step_reconcile_invariant s s' api now cxt r :
  invariant s → agrees api s → Reconcile api now cxt ns n = Ret r → run api (rec_events r) s s' → invariant s'.
Proof.
  intros [Hst Hrun Hready] Hag Hr Hw. destruct (stored s) as [f|] eqn:Hs.
  2: { pose proof (ag_forwarder _ _ Hag) as Hget. rewrite Hs in Hget. destruct Hget as [e He]. unfold Reconcile in Hr.
       rewrite He in Hr. injection Hr as <-. inversion Hw; subst. constructor; [by rewrite Hs|done|by rewrite Hs]. }
  destruct (Hst f eq_refl) as [Hf Hu].
  destruct (Reconcile_to api s f now cxt r Hag Hs Hf Hu Hr) as [[b E]|(l & g & v & E & Hug & Hv & Hwr)]; rewrite E in Hw.
  { apply run_single in Hw. inversion Hw; subst. constructor; [by rewrite Hs|done|by rewrite Hs]. }
  apply run_app in Hw as (s1 & Hw1 & Hw2).
  destruct (run_writes api l _ s s1 Hag Hrun Hwr Hw1) as (Es & El & Hval & Hrd).
  destruct (run_status _ _ _ _ Hw2) as [->| ->]; constructor; cbn [stored running status_lost patch_status set_stored lose_status].
  - rewrite Es, Hs. intros f' [= <-]. split; [by destruct Hf|]. by apply patch_unique.
  - exact Hval.
  - rewrite Es, Hs. intros f' [= <-] _ (v' & Hv' & Ht).
    cbn [clf_Status clf_set_Status st_Conditions merge_status] in Hv'. rewrite (view_merge _ _ _ Hv) in Hv'.
    assert (v' = v) as -> by congruence. by apply Hrd.
  - rewrite Es, Hs. intros f' [= <-]. done.
  - exact Hval.
  - done.
Qed.

Lemma step_invariant s s' : invariant s → step s s' → invariant s'.
Proof.
  intros Hi Hstep. destruct Hstep as [s f Hs Hf H0|s f f' Hs Hf H0|s|s w Hs|s s' api now cxt r Hag Hr Hw].
  5: by eapply step_reconcile_invariant.
  all: destruct Hi as [Hst Hrun Hready]; constructor; cbn [stored running status_lost set_stored set_running]; try done.
  - intros f' [= <-]. split; [done|]. rewrite H0. constructor; apply NoDup_nil_2.
  - intros f' [= <-] _ (v & Hv & _). rewrite H0 in Hv. done.
  - intros f1 [= <-]. split; [done|]. rewrite H0. by apply (Hst f).
  - intros f1 [= <-] Hl Hr. apply (Hready f Hs Hl). unfold is_ready in *. by rewrite <-H0.
  - intros w' c. case_decide; [done|]. apply Hrun.
  - by rewrite Hs.
Qed.

Lemma reachable_holds s : reachable s → invariant s.
Proof.
  induction 1 as [|s s' _ IH Hstep]; [by constructor|]. by eapply step_invariant.
Qed.

(** C3. What holds at every moment of the life of a forwarder, whatever users do and
    the cluster answers.  The stored status has one condition per type.  A workload that
    exists was made for its kind from a configuration that met the specification of a
    valid forwarder.  And unless the last write of the status was lost, a forwarder that is
    said to be ready has a workload of one kind and none of the other. *)
Theorem reachable_invariant s :
  reachable s →
  (∀ f, stored s = Some f → stored_as f ∧ status_unique (clf_Status f)) ∧
  (∀ w c, running s w = Some c → validated w c) ∧
  (∀ f, stored s = Some f → status_lost s = false → is_ready f →
     ∃ w c, running s w = Some c ∧ running s (other w) = None).
Proof. intros Hs%reachable_holds. by destruct Hs. Qed.

(** ** Towards a ready collector *)

(** A cluster that does what it is asked to, and answers about a state. *)
Record healthy (api : cluster) : Prop := {
  he_remove : ∀ w, RemoveWorkload api w ns n = None;
  he_deploy : ∀ c, Deploy api c = None;
  he_parse : parse_url api = parse;
  he_defaults : defaults_parse (ParseQuantity api);
}.

Definition answering (api : cluster) (s : state) : cluster := {|
  GetForwarder := λ _ _, match stored s with
                         | Some f => inl f
                         | None => inr {| err_NotFound := true; err_Message := "not found" |}
                         end;
  GetSecret := GetSecret api; GetConfigMap := GetConfigMap api;
  GetServiceAccount := GetServiceAccount api; CreateReview := CreateReview api;
  GetWorkload := λ w _ _, match running s w with
                          | Some _ => None
                          | None => Some {| err_NotFound := true; err_Message := "not found" |}
                          end;
  RemoveWorkload := RemoveWorkload api; RemoveClusterRoleBinding := RemoveClusterRoleBinding api;
  HostedVersion := HostedVersion api; Deploy := Deploy api; ParseQuantity := ParseQuantity api;
  regexp_compiles := regexp_compiles api; parse_url := parse_url api; json_Unmarshal := json_Unmarshal api |}.

Lemma answering_agrees api s : healthy api → agrees (answering api s) s.
Proof.
  intros [_ _ Hp Hd]. constructor; cbn; try done.
  - destruct (stored s); [done|by eexists].
  - intros w. destruct (running s w); [by eexists|done].
  - intros w e. by destruct (running s w).
Qed.

Section rounds.
Context (api : cluster) (now : Z) (cxt : ForwarderContext) (f : ClusterLogForwarder).

(** The forwarder asks for a collector, and its spec leads to a valid context whatever
    its status is. *)
Record wanted : Prop := {
  wa_deletion : meta_DeletionTimestamp (clf_Meta f) = None;
  wa_managed : spec_ManagementState (clf_Spec f) ≠ ManagementStateUnmanaged;
  wa_valid : ∀ st, ∃ c, initialize api (ctx_set_Forwarder cxt (clf_set_Status f st)) = Ret (c, None) ∧
    forwarder_ok (GetServiceAccount api) (CreateReview api) (regexp_compiles api) parse (json_Unmarshal api) c;
}.

(** The forwarder is ready and what runs was made from its spec. *)
Definition settled (s : state) : Prop :=
  ∃ st st0 st1 c, stored s = Some (clf_set_Status f st) ∧ is_ready (clf_set_Status f st) ∧
    initialize api (ctx_set_Forwarder cxt (clf_set_Status f st0)) = Ret (c, None) ∧
    running s (asked (ctx_Forwarder c)) = Some (ctx_set_Status c st1) ∧
    running s (other (asked (ctx_Forwarder c))) = None.

(** Reconciliations one after the other. *)
Inductive rounds : nat → state → state → Prop :=
  | rounds_O s : rounds 0 s s
  | rounds_S k s s' s'' r :
      rounds k s s' → Reconcile (answering api s') now cxt ns n = Ret r →
      run (answering api s') (rec_events r) s' s'' → rounds (S k) s s''.

Lemma remove_workload_healthy s w :
  healthy api → snd (remove_workload (answering api s) w ns n) = None ∧
  ∃ s', run (answering api s) (fst (remove_workload (answering api s) w ns n)) s s' ∧
    stored s' = stored s.
Proof.
  intros Hh. unfold remove_workload. cbn [GetWorkload answering]. destruct (running s w) as [c|]; cbn [fst snd].
  - cbn [RemoveWorkload answering]. rewrite (he_remove _ Hh). split; [done|].
    exists (set_running s w None). split; [|done]. apply run_single. constructor. left. apply (he_remove _ Hh).
  - split; [done|]. exists s. split; [constructor|done].
Qed.

(** The writes of a reconciliation of a wanted forwarder on a healthy cluster. *)
Lemma Reconcile_wanted s st :
  healthy api → wanted → stored s = Some (clf_set_Status f st) → stored_as f → status_unique st →
  ∃ r c st0 st1 g v, Reconcile (answering api s) now cxt ns n = Ret r ∧
    initialize api (ctx_set_Forwarder cxt (clf_set_Status f st0)) = Ret (c, None) ∧
    rec_events r = fst (remove_workload (answering api s) (other (asked (ctx_Forwarder c))) ns n)
      ++ [DeployCollector (ctx_set_Status c st1); PatchStatus g] ∧
    view (st_Conditions (clf_Status g)) !! ConditionTypeReady = Some v ∧ v_Status v = ConditionTrue.
Proof.
  intros Hh Hw Hs [Hns Hn Hadm Hout] Hu. set (f' := clf_set_Status f st) in *.
  assert (stored_ok (answering api s) f') as Hok.
  { constructor; [done| |done|apply (he_defaults _ Hh)]. cbn [parse_url answering]. by rewrite (he_parse _ Hh). }
  rewrite (Reconcile_managed _ now cxt ns n f'); [|cbn; by rewrite Hs|apply (wa_deletion Hw)|apply (wa_managed Hw)].
  set (cxt0 := ctx_set_Forwarder (ctx_set_Forwarder cxt f') (removeStaleStatuses f')).
  destruct (wa_valid Hw (clf_Status (removeStaleStatuses f'))) as (c0 & Hc0 & Hok0).
  destruct (initialize_ready (answering api s) cxt0 f' eq_refl Hok) as (ci & erri & Hi & Hmeta & _ & _).
  change (initialize api cxt0 = Ret (c0, None)) in Hc0.
  change (initialize (answering api s) cxt0) with (initialize api cxt0) in Hi.
  assert (ci = c0) as -> by congruence.
  destruct (reconcile_managed_cases (answering api s) now cxt0 f' eq_refl Hok)
    as [(c & err & Hi' & _ & _)|(c & c1 & b & st1 & Hi' & _ & -> & Hust & Hb & _ & Hr)];
    change (initialize (answering api s) cxt0) with (initialize api cxt0) in Hi'; [congruence|].
  assert (c = c0) as -> by congruence. rewrite Hr.
  assert (b = true) as ->. { apply Hb. cbn [parse_url answering]. by rewrite (he_parse _ Hh). }
  assert (clf_Namespace (ctx_Forwarder (ctx_set_Status c0 st1)) = ns) as Ens.
  { rewrite <-Hns. unfold clf_Namespace. cbn. by rewrite Hmeta. }
  assert (clf_Name (ctx_Forwarder (ctx_set_Status c0 st1)) = n) as En.
  { rewrite <-Hn. unfold clf_Name. cbn. by rewrite Hmeta. }
  unfold reconcile_valid, RemoveStaleWorkload. rewrite Ens, En.
  replace (if DeployAsDeployment (ctx_Forwarder (ctx_set_Status c0 st1)) then DaemonSet else Deployment)
    with (other (asked (ctx_Forwarder c0))) by (unfold asked; by destruct (DeployAsDeployment _)).
  destruct (remove_workload_healthy s (other (asked (ctx_Forwarder c0))) Hh) as [Hsnd _].
  destruct (remove_workload (answering api s) _ ns n) as [removed err] eqn:E. cbn [snd] in Hsnd. subst err.
  cbn [Deploy answering]. rewrite (he_deploy _ Hh).
  eexists _, c0, _, st1, _, _. split; [reflexivity|]. split; [exact Hc0|]. unfold finish. cbn [rec_events fst].
  split; [rewrite E, <-app_assoc; reflexivity|]. unfold updateStatus.
  cbn [clf_Status clf_set_Status st_Conditions st_set_Conditions].
  split; [rewrite SetCondition_view; by rewrite lookup_insert_eq|done].
Qed.

(** One round from any state that stores the forwarder. *)
Lemma round_settles s s' st r :
  healthy api → wanted → stored s = Some (clf_set_Status f st) →
  Reconcile (answering api s) now cxt ns n = Ret r → stored_as f → status_unique st →
  run (answering api s) (rec_events r) s s' →
  (∃ st', stored s' = Some (clf_set_Status f st')) ∧ (status_lost s' = false → settled s').
Proof.
  intros Hh Hw Hs Hr Hf Hu Hrun.
  destruct (Reconcile_wanted s st Hh Hw Hs Hf Hu) as (r' & c & st0 & st1 & g & v & Hr' & Hc & E & Hv & Ht).
  assert (r' = r) as -> by congruence. rewrite E in Hrun.
  change [DeployCollector (ctx_set_Status c st1); PatchStatus g]
    with ([DeployCollector (ctx_set_Status c st1)] ++ [PatchStatus g]) in Hrun.
  rewrite app_assoc in Hrun. apply run_app in Hrun as (s2 & Hrun & Hst).
  apply run_app in Hrun as (s1 & Hdel & Hdep).
  destruct (run_deletes _ _ _ _ (remove_only_deletes _ _) Hdel) as (Es & _ & _).
  pose proof (run_removed _ _ _ _ (answering_agrees _ _ Hh) (proj1 (remove_workload_healthy s _ Hh)) Hdel) as Habs.
  apply run_deploy in Hdep as [->|[_ [e He]]]; [|cbn in He; by rewrite (he_deploy _ Hh) in He].
  apply run_status in Hst as [->| ->]; cbn [stored status_lost patch_status lose_status set_running];
    rewrite Es, Hs; split; try done; try by eexists.
  intros _. exists (merge_status st (clf_Status g)), st0, st1, c.
  cbn [stored running patch_status set_running]. rewrite Es, Hs. split; [done|]. split; [|split; [exact Hc|]].
  { exists v. cbn [clf_Status clf_set_Status st_Conditions merge_status]. by rewrite (view_merge _ _ _ Hv). }
  change (asked (ctx_Forwarder (ctx_set_Status c st1))) with (asked (ctx_Forwarder c)).
  rewrite decide_True by done. split; [done|].
  rewrite decide_False; [exact Habs|]. intros Heq. by apply (asked_other (ctx_Forwarder c)).
Qed.

Lemma rounds_reachable s k s' :
  healthy api → reachable s → rounds k s s' → reachable s'.
Proof.
  intros Hh Hre Hk. induction Hk as [|k s s' s'' r _ IH Hr Hrun]; [done|].
  apply reachable_step with s'; [by apply IH|]. eapply step_reconcile; [by apply answering_agrees|exact Hr|exact Hrun].
Qed.

Lemma rounds_stored s k s' :
  healthy api → wanted → reachable s → rounds k s s' →
  (∃ st, stored s = Some (clf_set_Status f st)) →
  (∃ st, stored s' = Some (clf_set_Status f st)) ∧ ((0 < k)%nat → status_lost s' = false → settled s').
Proof.
  intros Hh Hw Hre Hk Hst. induction Hk as [s|k s s' s'' r Hk IH Hr Hrun]; [split; [done|lia]|].
  destruct (IH Hre Hst) as [(st & Hs) _]. pose proof (rounds_reachable _ _ _ Hh Hre Hk) as Hre'.
  destruct (inv_stored _ (reachable_holds _ Hre') _ Hs) as [[Hns Hn Hadm Hout] Hu].
  destruct (round_settles s' s'' st r Hh Hw Hs Hr) as [Hst' Hset]; [by constructor|done|exact Hrun|by split].
Qed.

(** A round can be made after any others, with its status written. *)
Lemma rounds_extend s k s' :
  healthy api → wanted → reachable s → rounds k s s' → (∃ st, stored s = Some (clf_set_Status f st)) →
  ∃ s'', rounds (S k) s s'' ∧ status_lost s'' = false.
Proof.
  intros Hh Hw Hre Hk Hst. destruct (rounds_stored s k s' Hh Hw Hre Hk Hst) as [(st & Hs) _].
  destruct (inv_stored _ (reachable_holds _ (rounds_reachable _ _ _ Hh Hre Hk)) _ Hs) as [[? ? ? ?] Hu].
  destruct (Reconcile_wanted s' st Hh Hw Hs) as (r & c & st0 & st1 & g & v & Hr & _ & E & _); [by constructor|done|].
  destruct (remove_workload_healthy s' (other (asked (ctx_Forwarder c))) Hh) as (_ & s1 & Hdel & _).
  exists (patch_status (set_running s1 (asked (ctx_Forwarder c)) (Some (ctx_set_Status c st1))) g).
  split; [|done]. eapply rounds_S; [exact Hk|exact Hr|]. rewrite E. apply run_app. exists s1. split; [exact Hdel|].
  econstructor; [|apply run_single; constructor]. apply (write_deploy _ (ctx_set_Status c st1)).
Qed.
End rounds.

(** C4. A ready collector is reached and kept.  From every state the forwarder can be in,
    on a cluster that does what it is asked to and for a spec that leads to a valid
    context, reconciliations can be made one after the other as often as one likes.
    After the first one, and after every later one, unless its write of the status was
    lost, the forwarder is ready, the workload of the kind it asks for runs the
    configuration made from its spec, and there is none of the other kind; the writes of
    the status can all succeed. *)
Theorem rounds_settle api now cxt f s :
  reachable s → healthy api → wanted api cxt f → stored s = Some f →
  (∀ k, ∃ s', rounds api now cxt (S k) s s' ∧ status_lost s' = false) ∧
  (∀ k s', rounds api now cxt (S k) s s' → status_lost s' = false → settled api cxt f s').
Proof.
  intros Hre Hh Hw Hs.
  assert (∃ st, stored s = Some (clf_set_Status f st)) as Hst.
  { exists (clf_Status f). rewrite Hs. by destruct f. }
  split.
  - intros k. assert (∃ s', rounds api now cxt k s s') as [s' Hk]; [|by eapply rounds_extend].
    induction k as [|k [s' Hk]]; [exists s; constructor|].
    destruct (rounds_extend api now cxt f s k s' Hh Hw Hre Hk Hst) as (s'' & ? & _). by exists s''.
  - intros k s' Hk. destruct (rounds_stored api now cxt f s (S k) s' Hh Hw Hre Hk Hst) as [_ Hset]. apply Hset. lia.
Qed.
End system.

(** ** Conditions that cannot be removed *)

Section filter_conditions.
Context `{RangeOrder} (api : cluster) (now : Z).

(** The filters of a context and the conditions of its filters are those of another. *)
Definition same_filters (c c' : ForwarderContext) : Prop :=
  spec_Filters (ctx_Spec c') = spec_Filters (ctx_Spec c) ∧
  st_FilterConditions (ctx_Status c') = st_FilterConditions (ctx_Status c).

#[local] Instance same_filters_preorder : PreOrder same_filters.
Proof. split; [done|]. intros c c' c'' [E1 E2] [E3 E4]. split; congruence. Qed.

Lemma foldM_same_filters {A} (f : ForwarderContext → A → outcome ForwarderContext) l c c' :
  (∀ c x c', f c x = Ret c' → same_filters c c') → foldM f c l = Ret c' → same_filters c c'.
Proof.
  intros Hf. revert c. induction l as [|x l IH]; intros c; cbn [foldM]; [by intros [= ->]|].
  intros (c1 & H1 & H2)%bind_ret_inv. transitivity c1; [by eapply Hf|by apply IH].
Qed.

Lemma annotation_same_filters c a t r p m : same_filters c (annotation_condition now c a t r p m).
Proof. unfold annotation_condition. by repeat case_match. Qed.

Lemma permissions_same_filters c c' :
  ValidatePermissions now (GetServiceAccount api) (CreateReview api) c = Ret c' → same_filters c c'.
Proof.
  unfold ValidatePermissions. case_match; [|by intros [= <-]].
  intros (g & _ & E)%bind_ret_inv. case_match; by injection E as <-.
Qed.

Lemma validators_same_filters c c' :
  spec_Filters (ctx_Spec c) = [] →
  ValidateClusterLogForwarder now (GetServiceAccount api) (CreateReview api) (regexp_compiles api) (parse_url api)
    (json_Unmarshal api) c = Ret c' → same_filters c c'.
Proof.
  intros Hc. unfold ValidateClusterLogForwarder, clfValidators. cbn [foldM mbind outcome_bind].
  set (c1 := validateMaxUnavailableAnnotation now (validateLogLevelAnnotation now c)).
  assert (same_filters c c1) as H1 by (etransitivity; apply annotation_same_filters).
  intros (c2 & H2%permissions_same_filters & E)%bind_ret_inv.
  apply bind_ret_inv in E as (c3 & H3 & E). apply bind_ret_inv in E as (c4 & H4 & E).
  assert (same_filters c2 c3) as H3'.
  { unfold ValidateInputs.Validate in H3. apply bind_ret_inv in H3 as (res & _ & [= <-]). done. }
  assert (same_filters c3 c4) as H4'.
  { revert H4. apply foldM_same_filters. intros d o d' (m & _ & [= <-])%bind_ret_inv. done. }
  assert (same_filters c c4) as H14.
  { transitivity c1; [done|]. transitivity c2; [done|]. by transitivity c3. }
  destruct H14 as [E1 E2].
  assert (ValidateFilters.Validate (regexp_compiles api) now c4 = c4) as H5.
  { unfold ValidateFilters.Validate, FilterMap. rewrite E1, Hc. cbn [fmap list_fmap].
    assert (range (V := FilterSpec) (map_of_assignments []) = []) as ->; [|done].
    apply Permutation_nil. by rewrite range_perm. }
  rewrite H5 in E. cbn [mbind outcome_bind] in E.
  apply bind_ret_inv in E as (c6 & H6 & [= ->]).
  assert (same_filters c4 c') as [E3 E4].
  { unfold ValidatePipelines.Validate in H6. by apply bind_ret_inv in H6 as (st & _ & [= <-]). }
  split; congruence.
Qed.

Lemma foldM_preserves {A S B} (g : S → B) (f : S → A → outcome S) l st st' :
  (∀ st x st', x ∈ l → f st x = Ret st' → g st' = g st) → foldM f st l = Ret st' → g st' = g st.
Proof.
  revert st. induction l as [|x l IH]; intros st Hf; cbn [foldM]; [by intros [= ->]|].
  intros (st1 & H1 & H2)%bind_ret_inv. transitivity (g st1); [|by eapply Hf; [left|]].
  apply IH; [|done]. intros ? ? ? Hx. apply Hf. by right.
Qed.

Lemma initialize_same_filters cxt c err :
  initialize api cxt = Ret (c, err) →
  spec_Filters (ctx_Spec c) = spec_Filters (clf_Spec (ctx_Forwarder cxt)) ∧
  ctx_Status c = clf_Status (ctx_Forwarder cxt).
Proof.
  unfold initialize. intros ([f o] & Hi & E)%bind_ret_inv. cbn [fst snd] in E.
  assert (ctx_Forwarder c = f) as Ec.
  { apply bind_ret_inv in E as ([secrets|e] & _ & E); [|by injection E as <- <-].
    apply bind_ret_inv in E as (g & _ & E). by case_match; injection E as <- <-. }
  unfold ctx_Spec, ctx_Status. rewrite Ec.
  assert ((spec_Filters (clf_Spec f), clf_Status f) =
    (spec_Filters (clf_Spec (ctx_Forwarder cxt)), clf_Status (ctx_Forwarder cxt))) as [= -> ->]; [|done].
  unfold Initialize.initialize in Hi.
  apply (foldM_preserves (λ fo, (spec_Filters (clf_Spec fo.1), clf_Status fo.1))) in Hi; [done|].
  intros [f1 o1] step [f2 o2] Hin Hs. cbn [fst snd] in *. rewrite !elem_of_cons in Hin.
  destruct Hin as [->|[->|[->|[]%not_elem_of_nil]]].
  - unfold Resources in Hs. apply bind_ret_inv in Hs as (r & _ & [= <- <-]). done.
  - unfold MigrateInputs in Hs. apply bind_ret_inv in Hs as (st & _ & [= <- <-]). done.
  - unfold InitOutputs in Hs. apply bind_ret_inv in Hs as (r & _ & [= <- <-]). done.
Qed.

(** The status a reconciliation writes for a forwarder without filters. *)
Lemma finish_status c evs res err st reason msg g :
  (∀ h, PatchStatus h ∉ evs) →
  PatchStatus g ∈ rec_events (finish now c evs res err st reason msg) →
  st_FilterConditions (clf_Status g) = st_FilterConditions (ctx_Status c).
Proof.
  intros Hno [Hg|Hg%list_elem_of_singleton]%elem_of_app; [by apply Hno in Hg|]. by injection Hg as ->.
Qed.

Lemma removed_no_status w ns n h : PatchStatus h ∉ fst (remove_workload api w ns n).
Proof. by intros ?%remove_workload_events. Qed.

Lemma reconcile_verdict_status c g b :
  PatchStatus g ∈ rec_events (if b : bool then reconcile_valid api now c else reconcile_invalid api now c) →
  st_FilterConditions (clf_Status g) = st_FilterConditions (ctx_Status c).
Proof.
  destruct b.
  - unfold reconcile_valid, RemoveStaleWorkload.
    destruct (remove_workload api _ _ _) as [removed err] eqn:E.
    assert (∀ h, PatchStatus h ∉ removed) as Hno.
    { intros h. change removed with (fst (removed, err)). rewrite <-E. apply removed_no_status. }
    assert (∀ h, PatchStatus h ∉ removed ++ [DeployCollector c]) as Hno'.
    { intros h [?|?%list_elem_of_singleton]%elem_of_app; [by eapply Hno|done]. }
    destruct err; [by apply finish_status|]. by destruct (Deploy api c); apply finish_status.
  - unfold reconcile_invalid. apply finish_status. intros h.
    case_match; [apply removed_no_status|apply not_elem_of_nil].
Qed.

Lemma Reconcile_no_filters cxt ns n f r g :
  GetForwarder api ns n = inl f → spec_Filters (clf_Spec f) = [] → Reconcile api now cxt ns n = Ret r →
  PatchStatus g ∈ rec_events r → st_FilterConditions (clf_Status g) = [].
Proof.
  intros Hf Hno Hr Hg. unfold Reconcile in Hr. rewrite Hf in Hr.
  set (f' := removeStaleStatuses f) in *.
  assert (st_FilterConditions (clf_Status f') = []) as Hpruned.
  { subst f'. cbn. rewrite Hno. apply elem_of_nil_inv. intros c (_ & m & Hm & _)%elem_of_PruneConditions.
    by apply not_elem_of_nil in Hm. }
  case_match; [injection Hr as <-; by apply list_elem_of_singleton in Hg|].
  set (cxt' := ctx_set_Forwarder _ f') in Hr. case_match.
  { injection Hr as <-. apply finish_status in Hg; [by rewrite Hg|]. intros h. apply not_elem_of_nil. }
  unfold reconcile_managed in Hr. apply bind_ret_inv in Hr as ([c err] & Hi & Hr).
  destruct (initialize_same_filters _ _ _ Hi) as [Es Ec]. cbn [fst snd] in Hr.
  change (clf_Status (ctx_Forwarder cxt')) with (clf_Status f') in Ec.
  change (spec_Filters (ctx_Spec c) = spec_Filters (clf_Spec f)) in Es.
  destruct err as [err|].
  { injection Hr as <-. apply finish_status in Hg; [|intros h; apply not_elem_of_nil]. by rewrite Hg, Ec. }
  apply bind_ret_inv in Hr as ([c' b] & Hv & [= <-]). cbn [fst snd] in Hg. apply reconcile_verdict_status in Hg.
  unfold validateForwarder in Hv. apply bind_ret_inv in Hv as (c1 & Hv & [= <- _]).
  apply validators_same_filters in Hv as [_ E]; [|congruence].
  rewrite Hg. cbn. change (st_FilterConditions (ctx_Status c1) = []). congruence.
Qed.

Lemma run_keeps_conditions l s s' f :
  (∀ g, PatchStatus g ∈ l → st_FilterConditions (clf_Status g) = []) → run api l s s' → stored s = Some f →
  ∃ f', stored s' = Some f' ∧ st_FilterConditions (clf_Status f') = st_FilterConditions (clf_Status f).
Proof.
  intros Hl Hr. revert f. induction Hr as [s|e l s s1 s2 Hw _ IH]; intros f Hs; [by exists f|].
  assert (∃ f1, stored s1 = Some f1 ∧ st_FilterConditions (clf_Status f1) = st_FilterConditions (clf_Status f))
    as (f1 & Hs1 & <-); [|by apply IH; [intros g Hg; apply Hl; by right|]].
  inversion Hw; subst; try by exists f.
  cbn [stored patch_status]. rewrite Hs. eexists. split; [done|].
  cbn [clf_Status clf_set_Status st_FilterConditions merge_status]. by rewrite (Hl g) by by left.
Qed.

(** C24. The conditions of the last filters stay.  When a forwarder that has filters is
    edited to have none, every status a reconciliation sends has no condition of a
    filter; but the list without elements is not in the patch, so the stored status
    keeps the conditions of the filters that are gone, after this and every later
    reconciliation. *)
Theorem filter_conditions_stay cxt ns n f r s s' :
  GetForwarder api ns n = inl f → stored s = Some f → spec_Filters (clf_Spec f) = [] →
  Reconcile api now cxt ns n = Ret r → run api (rec_events r) s s' →
  (∀ g, PatchStatus g ∈ rec_events r → st_FilterConditions (clf_Status g) = []) ∧
  ∃ f', stored s' = Some f' ∧ st_FilterConditions (clf_Status f') = st_FilterConditions (clf_Status f).
Proof.
  intros Hf Hs Hno Hr Hrun.
  assert (∀ g, PatchStatus g ∈ rec_events r → st_FilterConditions (clf_Status g) = []) as Hg.
  { intros g. by eapply Reconcile_no_filters. }
  split; [exact Hg|]. by eapply run_keeps_conditions.
Qed.
End filter_conditions.
