(* ===== verification/VectorHelpers.v ===== *)
(** * Names and paths of the Vector configuration ([internal/generator/vector/helpers])

    The files [helpers.go] and [node.go].  The optional format string of the
    functions on paths is one of the two verbs the operator calls them with. *)

From S2P Require Import Prelude GoStrings Regex ApiCommon ValidateCommon ValidateFilters AwsAuth.

Open Scope re.

Definition VectorSecretID : string := "kubernetes_secret".

(** ** Identifiers *)

Definition Replacer_byte (c : ascii) : string :=
  if in_string c " -." then "_" else String c "".

Definition TrimSpaces (l : list string) : list string := TrimSpace <$> l.

Definition FormatComponentID (name : string) : string := ToLower (map_bytes Replacer_byte name).

Definition MakeID (parts : list string) : string := FormatComponentID (Join parts "_").

Definition MakeRouteInputID (rerouteId sourceType : string) : string :=
  ToLower (Join [rerouteId; sourceType] ".").

Definition MakeInputID (parts : list string) : string := MakeID ("input" :: parts).
Definition MakePipelineID (parts : list string) : string := MakeID ("pipeline" :: parts).
Definition MakeOutputID (parts : list string) : string := MakeID ("output" :: parts).

(** ** Paths of files *)

Inductive verb := Verb_q | Verb_s.

Definition format (v : verb) (s : string) : string :=
  match v with Verb_q => Quote s | Verb_s => s end.

Definition ConfigPath (name file : string) (formatter : list verb) : string :=
  format (default Verb_q (head formatter)) (PathJoin [ConfigMapBaseDir; name; file]).

Definition helpers_SecretPath (secretName file : string) (formatter : list verb) : string :=
  format (default Verb_q (head formatter)) (PathJoin [CollectorSecretsDir; secretName; file]).

Definition SecretFrom (secretKey : option SecretReference) : string :=
  match secretKey with
  | Some k =>
      if (sr_SecretName k != "") && (sr_Key k != "")
      then "SECRET[" +:+ VectorSecretID +:+ "." +:+ sr_SecretName k +:+ "/" +:+ sr_Key k +:+ "]"
      else ""
  | None => ""
  end.

(** ** Paths of fields *)

(** Text between double quotes on one line. *)
Definition quoteRegex : regex := Lit DQ ⋅ Plus Dot ⋅ Lit DQ.

(** One round of the loop of [SplitPath] on [result] and [currSegment]. *)
Definition SplitPath_step (st : list string * string) (part : string) : list string * string :=
  let '(result, currSegment) := st in
  if part == "" then (result, currSegment)
  else if HasPrefix part DQ && HasSuffix part DQ then (result ++ [part], currSegment)
  else if HasPrefix part DQ then (result, part)
  else if HasSuffix part DQ then (result ++ [currSegment +:+ "." +:+ part], "")
  else if currSegment != "" then (result, currSegment +:+ "." +:+ part)
  else (result ++ [part], currSegment).

Definition SplitPath (path : string) : list string :=
  (foldl SplitPath_step ([], "") (Split path ".")).1.

Definition QuotePathSegments (pathArray : list string) : list string :=
  (λ field, if fullmatch quoteRegex field then field else Quote field) <$> pathArray.

(** The array of the segments of one path. *)
Definition path_array (path : FieldPath) : string :=
  "[" +:+ Join (QuotePathSegments (SplitPath path)) "," +:+ "]".

(** What [NewReplacer] replaces in the flattened name of a path. *)
Definition flat_byte (c : ascii) : string :=
  if in_string c "./" then "_" else if Ascii.eqb c dquote then "" else String c "".

Definition GenerateQuotedPathSegmentArrayStr (fieldPathArray : list FieldPath) : string * list string :=
  ("[" +:+ Join (path_array <$> fieldPathArray) "," +:+ "]",
   pathStr ← fieldPathArray;
   if ContainsAny pathStr "/." then [TrimPrefix (map_bytes flat_byte pathStr) "_"] else []).

(** ** What the split of a path gives *)

(** A segment whose text is put together again: its quoted text has no empty part
    between dots. *)
Definition splittable (g : segment) : Prop :=
  match g with Bare _ => True | Quoted s => ∀ part, part ∈ Split s "." → part ≠ "" end.

Lemma Split_render g l :
  Split (render_path (g :: l)) "." = "" :: ((g :: l) ≫= λ h, Split (segment_text h) ".").
Proof.
  revert g. induction l as [|h l IH]; intros g.
  - cbn [render_path foldr mbind list_bind]. rewrite app_nil_r.
    change ("." +:+ segment_text g +:+ "") with (String "." (segment_text g +:+ "")).
    by rewrite string_app_nil_r.
  - change (render_path (g :: h :: l)) with
      (String "." (segment_text g +:+ String "." (segment_text h +:+ render_path l))).
    cbn [Split]. rewrite Ascii.eqb_refl, Split_concat, bind_cons. f_equal. f_equal.
    specialize (IH h). change (render_path (h :: l)) with (String "." (segment_text h +:+ render_path l)) in IH.
    cbn [Split] in IH. rewrite Ascii.eqb_refl in IH. by injection IH.
Qed.

(** *** The loop on the parts of one segment *)

Lemma SplitPath_plain result part :
  part ≠ "" → in_string dquote part = false →
  SplitPath_step (result, "") part = (result ++ [part], "").
Proof.
  intros Hne Hq. unfold SplitPath_step, DQ.
  destruct (String.eqb_spec part "") as [|_]; [done|].
  by rewrite HasPrefix_no, HasSuffix_no.
Qed.

Lemma SplitPath_rest result curr parts last :
  curr ≠ "" → last ≠ "" →
  (∀ p, p ∈ parts → p ≠ "" ∧ in_string dquote p = false) → in_string dquote last = false →
  foldl SplitPath_step (result, curr) (parts ++ [last +:+ DQ]) =
  (result ++ [curr +:+ "." +:+ Join (parts ++ [last +:+ DQ]) "."], "").
Proof.
  intros Hc Hl. revert curr Hc. induction parts as [|p parts IH]; intros curr Hc Hp Hq.
  - simpl. unfold SplitPath_step, DQ.
    destruct (String.eqb_spec (last +:+ String dquote "") "") as [E|_].
    { apply string_app_eq_nil in E as [-> _]. done. }
    destruct last as [|d last]; [done|].
    assert (HasPrefix (String d last +:+ String dquote "") (String dquote "") = false) as ->.
    { apply not_true_is_false. intros [u E]%HasPrefix_spec. injection E as -> _. by simpl in Hq. }
    by rewrite HasSuffix_snoc.
  - cbn [app foldl]. apply forall_cons_iff in Hp as [[Hpne Hpq] Hp].
    assert (SplitPath_step (result, curr) p = (result, curr +:+ "." +:+ p)) as ->.
    { unfold SplitPath_step, DQ. destruct (String.eqb_spec p "") as [|_]; [done|].
      rewrite HasPrefix_no, HasSuffix_no by done. simpl.
      by destruct (String.eqb_spec curr ""). }
    rewrite IH; [|by destruct curr|done|done].
    rewrite Join_cons by by destruct parts. by rewrite !string_app_assoc.
Qed.

Lemma segment_loop result g :
  segment_ok g → splittable g →
  foldl SplitPath_step (result, "") (Split (segment_text g) ".") = (result ++ [segment_text g], "").
Proof.
  destruct g as [s|s]; cbn [segment_ok segment_text splittable]; intros [Hne Hs].
  - intros _. rewrite Split_no_sep by by eapply string_forallb_in_string.
    cbn [foldl]. apply SplitPath_plain; [done|]. by eapply string_forallb_in_string.
  - intros Hparts. assert (in_string dquote s = false) as Hq by by eapply string_forallb_in_string.
    destruct (Split_app_last s DQ ".") as (parts & last & E1 & E2); [done|].
    assert (∀ p, p ∈ parts ++ [last] → p ≠ "" ∧ in_string dquote p = false) as Hclean.
    { intros p Hp. rewrite <-E1 in Hp. split; [by apply Hparts|]. by eapply Split_parts_clean. }
    assert (Split (DQ +:+ s +:+ DQ) "." =
      match parts ++ [last +:+ DQ] with t :: ts => (DQ +:+ t) :: ts | [] => [DQ] end) as ->.
    { rewrite <-E2. by cbn [Split String.append DQ Ascii.eqb]. }
    assert (s = Join (parts ++ [last]) ".") as Es by by rewrite <-E1, Join_Split.
    destruct (Hclean last) as [Hlne Hlq]; [set_solver|].
    destruct parts as [|p parts]; cbn [app foldl].
    + simpl in Es. subst s. unfold SplitPath_step.
      destruct (String.eqb_spec (DQ +:+ last +:+ DQ) "") as [|_]; [done|].
      assert (HasSuffix (DQ +:+ last +:+ DQ) DQ = true) as ->
        by (apply HasSuffix_spec; exists (DQ +:+ last); by rewrite string_app_assoc).
      by rewrite HasPrefix_app.
    + destruct (Hclean p) as [Hpne Hpq]; [set_solver|].
      assert (SplitPath_step (result, "") (DQ +:+ p) = (result, DQ +:+ p)) as ->.
      { unfold SplitPath_step. destruct (String.eqb_spec (DQ +:+ p) "") as [|_]; [done|].
        assert (HasSuffix (DQ +:+ p) DQ = false) as -> by (unfold DQ; by rewrite HasSuffix_app, HasSuffix_no).
        by rewrite HasPrefix_app. }
      rewrite SplitPath_rest; [|done|done| |done].
      2: { intros q Hin. apply Hclean. set_solver. }
      do 2 f_equal. rewrite Es. cbn [app]. rewrite !Join_cons by by destruct parts.
      rewrite !string_app_assoc. f_equal. f_equal. f_equal. f_equal.
      clear. induction parts as [|q parts IH]; [done|]. cbn [app].
      rewrite !Join_cons by by destruct parts. by rewrite IH, !string_app_assoc.
Qed.

Lemma SplitPath_render l :
  Forall segment_ok l → Forall splittable l → SplitPath (render_path l) = segment_text <$> l.
Proof.
  intros Hok Hsp. destruct l as [|g l]; [done|]. unfold SplitPath. rewrite Split_render.
  cbn [foldl]. change (SplitPath_step ([], "") "") with (@nil string, "").
  enough (∀ result, foldl SplitPath_step (result, "") ((g :: l) ≫= λ h, Split (segment_text h) ".")
    = (result ++ (segment_text <$> g :: l), "")) as -> by done.
  generalize dependent (g :: l). clear. intros l Hok. induction Hok as [|g l Hg Hok IH]; intros Hsp result.
  { cbn. by rewrite app_nil_r. }
  apply Forall_cons in Hsp as [Hgs Hsp].
  rewrite bind_cons, foldl_app, segment_loop, IH by done. by rewrite fmap_cons, <-app_assoc.
Qed.

(** ** What is written in VRL *)

(** A segment as a string of VRL. *)
Definition vrl_segment (g : segment) : string :=
  match g with Bare s | Quoted s => DQ +:+ s +:+ DQ end.

Lemma Quote_path_chars s : string_forallb path_char s = true → map_bytes quote_byte s = s.
Proof.
  induction s as [|c s IH]; [done|]. cbn [string_forallb map_bytes]. intros [Hc Hs]%andb_true_iff.
  rewrite IH by done. assert (quote_byte c = String c "") as ->; [|done].
  clear -Hc. revert Hc. destruct c as [[] [] [] [] [] [] [] []]; vm_compute; congruence.
Qed.

Lemma matches_quoteRegex s :
  matches quoteRegex s ↔ ∃ t, s = DQ +:+ t +:+ DQ ∧ t ≠ "" ∧ in_string "010" t = false.
Proof.
  unfold quoteRegex. rewrite matches_seq_inv. split.
  - intros (? & u & -> & ->%matches_Lit & (t & ? & -> & [Hne Ht]%matches_Plus_Char & ->%matches_Lit)%matches_seq_inv).
    exists t. split_and!; [done..|]. by eapply string_forallb_in_string.
  - intros (t & -> & Hne & Ht). exists DQ, (t +:+ DQ). rewrite matches_Lit. split_and!; [done..|].
    apply matches_seq_inv. exists t, DQ. rewrite matches_Lit. split_and!; [done| |done].
    apply matches_Plus_Char. split; [done|]. clear Hne. induction t as [|c t IH]; [done|].
    cbn [in_string] in Ht. apply orb_false_iff in Ht as [Hc Ht]. cbn [string_forallb].
    by rewrite Ascii.eqb_sym, Hc, IH.
Qed.

Lemma QuotePathSegments_segment g :
  segment_ok g → in_string "010" (segment_text g) = false →
  QuotePathSegments [segment_text g] = [vrl_segment g].
Proof.
  intros Hg Hnl. unfold QuotePathSegments. cbn [fmap list_fmap]. f_equal.
  destruct (fullmatch quoteRegex (segment_text g)) eqn:Hm.
  - apply fullmatch_spec, matches_quoteRegex in Hm as (t & E & Hne & Ht).
    destruct g as [s|s]; cbn [segment_text vrl_segment segment_ok] in *; [|done].
    destruct Hg as [_ Hs]. rewrite E in Hs. by vm_compute in Hs.
  - destruct g as [s|s]; cbn [segment_text vrl_segment segment_ok] in *; destruct Hg as [Hne Hs].
    + unfold Quote. by rewrite Quote_path_chars.
    + exfalso. apply not_true_iff_false in Hm. apply Hm, fullmatch_spec, matches_quoteRegex.
      exists s. split_and!; [done..|]. rewrite !in_string_app in Hnl.
      apply orb_false_iff in Hnl as [_ [Hnl _]%orb_false_iff]. done.
Qed.

Lemma in_string_render c g l : g ∈ l → in_string c (segment_text g) = true → in_string c (render_path l) = true.
Proof.
  induction l as [|h l IH]; [by intros ?%not_elem_of_nil|].
  change (render_path (h :: l)) with ("." +:+ segment_text h +:+ render_path l).
  rewrite !in_string_app, !orb_true_iff. intros [->|Hin]%elem_of_cons Hc; auto.
Qed.

Lemma QuotePathSegments_render l :
  Forall segment_ok l → ContainsAny (render_path l) (LF +:+ CR) = false →
  QuotePathSegments (segment_text <$> l) = vrl_segment <$> l.
Proof.
  intros Hok Hsafe.
  assert (∀ g, g ∈ l → in_string "010" (segment_text g) = false) as Hnl.
  { intros g Hg. apply not_true_is_false. intros Hin%(in_string_render _ _ _ Hg).
    by rewrite (ContainsAny_not _ _ _ Hsafe) in Hin. }
  clear Hsafe. induction Hok as [|g l Hg Hok IH]; [done|].
  apply forall_cons_iff in Hnl as [Hgn Hnl].
  pose proof (QuotePathSegments_segment g Hg Hgn) as E. unfold QuotePathSegments in *.
  cbn [fmap list_fmap] in *. injection E as ->. f_equal. by apply IH.
Qed.

(** A path the validation accepts and the split takes apart differently. *)
Definition dotted_path : string := "." +:+ DQ +:+ "a..b" +:+ DQ.

(** C23. From a validated path to VRL.  A path whose quoted segments have no empty
    part between dots is split into its segments, and the array written in VRL has
    one string per segment with exactly its text.  The validation accepts other
    paths too: a quoted segment with two dots in a row loses one, so the filter
    works on another field than the one that was named. *)
Theorem SplitPath_correct :
  (∀ l p, path_of l p → toml_safe p → Forall splittable l →
     SplitPath p = segment_text <$> l ∧
     path_array p = "[" +:+ Join (vrl_segment <$> l) "," +:+ "]") ∧
  (validateFieldPath dotted_path = "" ∧ path_of [Quoted "a..b"] dotted_path ∧
   SplitPath dotted_path = [segment_text (Quoted "a.b")]).
Proof.
  split.
  - intros l p (Hne & Hok & ->) [_ Hsafe] Hsp. unfold path_array.
    rewrite SplitPath_render, QuotePathSegments_render by done. done.
  - split; [by vm_compute|]. split; [|by vm_compute].
    split; [done|]. split; [by apply Forall_singleton|done].
Qed.

Theorem SplitPath_correct_witness :
  SplitPath (".kubernetes.labels." +:+ DQ +:+ "app.io/name" +:+ DQ) =
    ["kubernetes"; "labels"; DQ +:+ "app.io/name" +:+ DQ].
Proof.
  destruct (proj1 SplitPath_correct [Bare "kubernetes"; Bare "labels"; Quoted "app.io/name"]
    (".kubernetes.labels." +:+ DQ +:+ "app.io/name" +:+ DQ)) as [E _].
  - split; [discriminate|]. split; [|reflexivity]. by repeat constructor.
  - split; reflexivity.
  - apply Forall_cons; split; [done|]. apply Forall_cons; split; [done|]. apply Forall_singleton.
    intros part Hpart. change (part ∈ ["app"; "io/name"]) in Hpart.
    apply elem_of_cons in Hpart as [-> | ->%list_elem_of_singleton]; discriminate.
  - exact E.
Defined.
