(* ===== verification/Toml.v ===== *)
(** * Marshalling of the collector's configuration ([internal/utils/toml])

    The file [toml.go].  The encoder of the TOML library is a parameter; what the
    operator adds to it is the walk over the value that refuses the strings that
    would end a literal too early.  A Go value is modelled by what reflection shows
    of it. *)

From S2P Require Import Prelude GoStrings.

(** What [reflect] tells of a field of a struct. *)
Record StructField := {
  sf_Name : string;
  sf_PkgPath : string;      (* not empty for an unexported field *)
  sf_literal : string;
  sf_multiline : string;
}.

(** The kinds of values the walk tells apart.  The entries of a map are in the order
    [MapKeys] gives them, with their keys as [%v] prints them. *)
Inductive value : Type :=
  | VNil
  | VElem (v : value)       (* a pointer or an interface that is not nil *)
  | VString (s : string)
  | VScalar
  | VStruct (fields : list (StructField * value))
  | VSlice (l : list value)
  | VMap (entries : list (string * value)).

Definition literalMultilineTerminator : string := "'''".

Definition is_literal (field : StructField) : bool :=
  (sf_literal field == "true") && (sf_multiline field == "true").

Definition closes_literal (field : StructField) (fv : value) : bool :=
  match fv with
  | VString s => is_literal field && Contains s literalMultilineTerminator
  | _ => false
  end.

Definition terminator_error (fieldPath : string) : string :=
  "field " +:+ Quote fieldPath +:+ " contains the TOML literal multiline terminator "
    +:+ Quote literalMultilineTerminator +:+ ", which would allow config injection".

Definition field_path (path : string) (field : StructField) : string :=
  if path != "" then path +:+ "." +:+ sf_Name field else sf_Name field.

Fixpoint validateLiteralMultiline (v : value) (path : string) : option string :=
  match v with
  | VElem v => validateLiteralMultiline v path
  | VStruct fields =>
      (fix loop (fields : list (StructField * value)) : option string :=
         match fields with
         | [] => None
         | (field, fv) :: fields =>
             if sf_PkgPath field != "" then loop fields
             else
               let fieldPath := field_path path field in
               if closes_literal field fv then Some (terminator_error fieldPath)
               else match validateLiteralMultiline fv fieldPath with
                    | Some err => Some err
                    | None => loop fields
                    end
         end) fields
  | VSlice l =>
      (fix loop (i : nat) (l : list value) : option string :=
         match l with
         | [] => None
         | x :: l =>
             match validateLiteralMultiline x (path +:+ "[" +:+ Itoa_nat i +:+ "]") with
             | Some err => Some err
             | None => loop (S i) l
             end
         end) 0 l
  | VMap entries =>
      (fix loop (entries : list (string * value)) : option string :=
         match entries with
         | [] => None
         | (k, x) :: entries =>
             match validateLiteralMultiline x (path +:+ "[" +:+ k +:+ "]") with
             | Some err => Some err
             | None => loop entries
             end
         end) entries
  | VNil | VString _ | VScalar => None
  end.

(** [Marshal]: the text or the error. *)
Definition Marshal (encode : value → string + string) (v : value) : string + string :=
  match validateLiteralMultiline v "" with
  | Some err => inr err
  | None => encode v
  end.

(** ** The values the walk refuses *)

(** A literal field that would be closed by its text, somewhere in exported parts. *)
Inductive closes : value → Prop :=
  | closes_elem v : closes v → closes (VElem v)
  | closes_here fields field s :
      (field, VString s) ∈ fields → sf_PkgPath field = "" → is_literal field = true →
      Contains s literalMultilineTerminator = true → closes (VStruct fields)
  | closes_field fields field v :
      (field, v) ∈ fields → sf_PkgPath field = "" → closes v → closes (VStruct fields)
  | closes_slice l v : v ∈ l → closes v → closes (VSlice l)
  | closes_map entries k v : (k, v) ∈ entries → closes v → closes (VMap entries).

Lemma closes_literal_true field fv :
  closes_literal field fv = true ↔
  ∃ s, fv = VString s ∧ is_literal field = true ∧ Contains s literalMultilineTerminator = true.
Proof.
  destruct fv as [| |s| | | |]; simpl; try (split; [done|by intros (? & [=] & _)]).
  rewrite andb_true_iff. split; [by eauto|]. by intros (? & [= <-] & ?).
Qed.

(** Induction over values through their lists. *)
Section value_ind.
Context (P : value → Prop) (Hnil : P VNil) (Helem : ∀ v, P v → P (VElem v)).
Context (Hstring : ∀ s, P (VString s)) (Hscalar : P VScalar).
Context (Hstruct : ∀ fields, Forall (λ fv, P fv.2) fields → P (VStruct fields)).
Context (Hslice : ∀ l, Forall P l → P (VSlice l)).
Context (Hmap : ∀ entries, Forall (λ kv, P kv.2) entries → P (VMap entries)).

Fixpoint value_ind' (v : value) : P v :=
  match v with
  | VNil => Hnil
  | VElem v => Helem v (value_ind' v)
  | VString s => Hstring s
  | VScalar => Hscalar
  | VStruct fields => Hstruct fields
      ((fix go fields : Forall (λ fv : StructField * value, P fv.2) fields :=
          match fields with
          | [] => Forall_nil_2 _
          | fv :: fields => Forall_cons_2 _ _ _ (value_ind' fv.2) (go fields)
          end) fields)
  | VSlice l => Hslice l
      ((fix go l : Forall P l :=
          match l with
          | [] => Forall_nil_2 _
          | v :: l => Forall_cons_2 _ _ _ (value_ind' v) (go l)
          end) l)
  | VMap entries => Hmap entries
      ((fix go entries : Forall (λ kv : string * value, P kv.2) entries :=
          match entries with
          | [] => Forall_nil_2 _
          | kv :: entries => Forall_cons_2 _ _ _ (value_ind' kv.2) (go entries)
          end) entries)
  end.
End value_ind.

(** One step of each kind. *)
Lemma closes_struct_iff fields :
  closes (VStruct fields) ↔
  ∃ fv, fv ∈ fields ∧ sf_PkgPath fv.1 = "" ∧ (closes_literal fv.1 fv.2 = true ∨ closes fv.2).
Proof.
  split.
  - inversion 1 as [|? field s|? field v| |]; subst.
    + exists (field, VString s). rewrite closes_literal_true. naive_solver.
    + exists (field, v). naive_solver.
  - intros ([field v] & Hin & Hexp & [(s & E & ? & ?)%closes_literal_true|Hc]); simpl in *; subst;
      [by eapply closes_here|by eapply closes_field].
Qed.

Lemma closes_slice_iff l : closes (VSlice l) ↔ ∃ v, v ∈ l ∧ closes v.
Proof. split; [inversion 1; eauto|intros (v & ? & ?); by eapply closes_slice]. Qed.

Lemma closes_map_iff entries : closes (VMap entries) ↔ ∃ kv, kv ∈ entries ∧ closes kv.2.
Proof.
  split; [inversion 1; subst; by eexists (_, _)|].
  intros ([k v] & ? & ?). by eapply closes_map.
Qed.

Lemma closes_elem_iff v : closes (VElem v) ↔ closes v.
Proof. split; [by inversion 1|constructor; done]. Qed.

Lemma validateLiteralMultiline_closes v :
  ∀ path, is_Some (validateLiteralMultiline v path) ↔ closes v.
Proof.
  induction v as [|v IH|s| |fields IH|l IH|entries IH] using value_ind'; intros path.
  - simpl. split; [by intros [? [=]]|inversion 1].
  - simpl. by rewrite closes_elem_iff.
  - simpl. split; [by intros [? [=]]|inversion 1].
  - simpl. split; [by intros [? [=]]|inversion 1].
  - rewrite closes_struct_iff. induction IH as [|[field fv] fields Hfv _ IHl].
    + simpl. rewrite exists_nil_iff. by split; [intros [? [=]]|].
    + rewrite exists_cons_iff, <-IHl. cbn [fst snd validateLiteralMultiline] in *.
      destruct (String.eqb_spec (sf_PkgPath field) "") as [E|E]; cbn [negb]; [|tauto].
      rewrite <-(Hfv (field_path path field)).
      destruct (closes_literal field fv); [split; [by auto|by eauto]|].
      destruct (validateLiteralMultiline fv _) as [err|]; [split; eauto|].
      split; [by auto|]. intros [(_ & [[=]|[? [=]]])|]; done.
  - rewrite closes_slice_iff. cbn [validateLiteralMultiline]. generalize 0 as i.
    induction IH as [|v l Hv _ IHl]; intros i.
    + rewrite exists_nil_iff. by split; [intros [? [=]]|].
    + rewrite exists_cons_iff, <-(IHl (S i)), <-(Hv (path +:+ "[" +:+ Itoa_nat i +:+ "]")).
      destruct (validateLiteralMultiline v _) as [err|]; [split; eauto|].
      split; [by auto|]. by intros [[? [=]]|].
  - rewrite closes_map_iff. induction IH as [|[k v] entries Hv _ IHl].
    + simpl. rewrite exists_nil_iff. by split; [intros [? [=]]|].
    + rewrite exists_cons_iff, <-IHl. cbn [fst snd validateLiteralMultiline] in *.
      rewrite <-(Hv (path +:+ "[" +:+ k +:+ "]")).
      destruct (validateLiteralMultiline v _) as [err|]; [split; eauto|].
      split; [by auto|]. by intros [[? [=]]|].
Qed.

Lemma validateLiteralMultiline_None v path : validateLiteralMultiline v path = None ↔ ¬ closes v.
Proof. by rewrite <-(validateLiteralMultiline_closes v path), eq_None_not_Some. Qed.

(** A text that is behind a pointer is not seen by the check on the field. *)
Definition pointer_to_literal : value :=
  VStruct [({| sf_Name := "Source"; sf_PkgPath := ""; sf_literal := "true"; sf_multiline := "true" |},
            VElem (VString literalMultilineTerminator))].

(** C40. What marshalling refuses.  The walk fails exactly on the values that hold,
    in a part that is exported, a text tagged as a multi-line literal with the
    terminator in it, whatever the order in which the entries of maps are visited;
    then nothing is encoded, and otherwise the answer is the encoder's.  A tagged
    text behind a pointer is not looked at. *)
Theorem Marshal_correct encode v :
  (closes v → ∃ err, Marshal encode v = inr err) ∧
  (¬ closes v → Marshal encode v = encode v) ∧
  (∀ entries entries', entries ≡ₚ entries' →
     (validateLiteralMultiline (VMap entries) "" = None ↔
      validateLiteralMultiline (VMap entries') "" = None)) ∧
  validateLiteralMultiline pointer_to_literal "" = None.
Proof.
  unfold Marshal. split_and!.
  - intros Hc. apply (validateLiteralMultiline_closes v "") in Hc as [err ->]. eauto.
  - by intros ->%(validateLiteralMultiline_None v "").
  - intros l l' Hl. rewrite !validateLiteralMultiline_None, !closes_map_iff. by setoid_rewrite Hl.
  - done.
Qed.
