(* ===== verification/Transforms.v ===== *)
(** * Transforms of the collector's configuration ([internal/generator/vector/api/transforms])

    The structs of the transforms the pipelines and the inputs are made of, their
    constructors, what reflection shows of them, and the layout of a VRL program. *)

From S2P Require Import Prelude GoStrings Toml.

Definition TransformType := string.
Definition TransformTypeDetectExceptions : TransformType := "detect_exceptions".
Definition TransformTypeFilter : TransformType := "filter".
Definition TransformTypeLogToMetric : TransformType := "log_to_metric".
Definition TransformTypeReduce : TransformType := "reduce".
Definition TransformTypeRemap : TransformType := "remap".
Definition TransformTypeRoute : TransformType := "route".
Definition TransformTypeThrottle : TransformType := "throttle".

(** ** The layout of a program *)

Fixpoint Repeat (s : string) (count : nat) : string :=
  match count with O => "" | S count => s +:+ Repeat s count end.

Definition indent (count : nat) (content : string) : string := Repeat " " count +:+ content.

Definition closes_block (raw : string) : bool :=
  HasPrefix raw "}" || HasPrefix raw ")" || HasPrefix raw "]".
Definition opens_block (raw : string) : bool :=
  HasSuffix raw "{" || HasSuffix raw "(" || HasSuffix raw "[".

(** The loop over the lines: subtraction stops at zero, as the code resets a
    negative indentation. *)
Fixpoint normalize_loop (chunks : list string) (indentCount : nat) : string :=
  match chunks with
  | [] => ""
  | chunk :: rest =>
      let raw := TrimSpace chunk in
      let indentCount := if closes_block raw then indentCount - 2 else indentCount in
      let writeLine := TrimSpace raw != "" in
      (if writeLine
       then indent indentCount raw +:+ (match rest with [] => "" | _ => LF end) else "")
      +:+ normalize_loop rest (if opens_block raw then indentCount + 2 else indentCount)
  end.

Definition normalize (s : string) : string := normalize_loop (Split (TrimSpace s) "010") 0.

(** ** The transforms *)

Record Remap := {
  remap_Type : TransformType;
  remap_Inputs : list string;
  remap_Source : string;
}.

Definition NewRemap (source : string) (inputs : list string) : Remap := {|
  remap_Type := TransformTypeRemap; remap_Inputs := sort_strings inputs;
  remap_Source := normalize source |}.

Record Filter := {
  tfilter_Type : TransformType;
  tfilter_Inputs : list string;
  tfilter_Condition : string;
}.

Definition NewFilter (source : string) (inputs : list string) : Filter := {|
  tfilter_Type := TransformTypeFilter; tfilter_Inputs := sort_strings inputs;
  tfilter_Condition := source |}.

Definition LanguageTypeAll : string := "All".

Record DetectExceptions := {
  de_Type : TransformType;
  de_Inputs : list string;
  de_Languages : list string;
  de_GroupBy : list string;
  de_ExpireAfterMs : Z;
  de_MultilineFlushIntervalMs : Z;
  de_MessageKey : string;
}.

Definition NewDetectExceptions (languages inputs : list string) : DetectExceptions := {|
  de_Type := TransformTypeDetectExceptions; de_Inputs := sort_strings inputs;
  de_Languages := languages; de_GroupBy := []; de_ExpireAfterMs := 0;
  de_MultilineFlushIntervalMs := 0; de_MessageKey := "" |}.

Record Throttle := {
  thr_Type : TransformType;
  thr_Inputs : list string;
  thr_WindowSecs : Z;
  thr_Threshold : Z;
  thr_KeyField : string;
}.

(** [uint64] of an [int64]. *)
Definition to_uint64 (n : Z) : Z := n mod 2 ^ 64.

(** [NewThrottle] of [internal/generator/vector/common] with what it sets. *)
Definition NewThrottle (inputs : list string) (threshHold : Z) (throttleKey : string) : Throttle := {|
  thr_Type := TransformTypeThrottle; thr_Inputs := sort_strings inputs; thr_WindowSecs := 1;
  thr_Threshold := to_uint64 threshHold; thr_KeyField := throttleKey |}.

Definition Unmatched : string := "unmatched".

(** What matches a condition goes to the output of its name. *)
Record Route := {
  route_Type : TransformType;
  route_Inputs : list string;
  route_Routes : gmap string string;
}.

Definition NewRoute (routes : gmap string string) (inputs : list string) : Route := {|
  route_Type := TransformTypeRoute; route_Inputs := sort_strings inputs; route_Routes := routes |}.

Definition UnmatchedRoute (baseId : string) : string := baseId +:+ "._" +:+ Unmatched.

Definition MergeStrategiesResourceRetain : string := "retain".
Definition MergeStrategiesLogRecordsArray : string := "array".

Record MergeStrategies := { ms_Resource : string; ms_LogRecords : string }.

Record Reduce := {
  red_Type : TransformType;
  red_Inputs : list string;
  red_ExpireAfterMs : Z;
  red_MaxEvents : Z;
  red_GroupBy : list string;
  red_MergeStrategies : option MergeStrategies;
}.

Definition NewReduce (expireAfterMs maxEvents : Z) (groupBy : list string) (m : option MergeStrategies)
    (inputs : list string) : Reduce := {|
  red_Type := TransformTypeReduce; red_Inputs := sort_strings inputs; red_ExpireAfterMs := expireAfterMs;
  red_MaxEvents := maxEvents; red_GroupBy := groupBy; red_MergeStrategies := m |}.

Definition MetricsKindIncremental : string := "incremental".
Definition MetricsTypeCounter : string := "counter".

Record Metric := {
  metric_Field : string;
  metric_Kind : string;
  metric_MetricName : string;
  metric_Namespace : string;
  metric_Tags : gmap string string;
  metric_Type : string;
}.

Record LogToMetric := {
  ltm_Inputs : list string;
  ltm_Type : TransformType;
  ltm_Metrics : list Metric;
}.

Definition NewLogToMetric (name metricsType : string) (tags : gmap string string) (inputs : list string) :
    LogToMetric := {|
  ltm_Type := TransformTypeLogToMetric; ltm_Inputs := sort_strings inputs;
  ltm_Metrics := [{| metric_MetricName := name; metric_Namespace := "logcollector"; metric_Field := "message";
    metric_Kind := MetricsKindIncremental; metric_Type := metricsType; metric_Tags := tags |}] |}.

(** [AddAll]: the tags that are given win. *)
Definition Tags_AddAll (t tags : gmap string string) : gmap string string := tags ∪ t.

(** A pointer to a transform, which can be nil, behind the interface. *)
Inductive transform : Type :=
  | TRemap (p : option Remap)
  | TFilter (p : option Filter)
  | TDetectExceptions (p : option DetectExceptions)
  | TThrottle (p : option Throttle)
  | TRoute (p : option Route)
  | TReduce (p : option Reduce)
  | TLogToMetric (p : option LogToMetric).

(** A value of the interface: [None] is the nil interface. *)
Definition Transform := option transform.

Notation Transforms := (gmap string transform).

(** ** What reflection shows *)

Definition tagged (name literal : string) : StructField := {|
  sf_Name := name; sf_PkgPath := ""; sf_literal := literal; sf_multiline := literal |}.

Definition strings (l : list string) : value := VSlice (VString <$> l).

Definition remap_value (t : Remap) : value := VStruct
  [(tagged "Type" "", VString (remap_Type t)); (tagged "Inputs" "", strings (remap_Inputs t));
   (tagged "Source" "true", VString (remap_Source t))].

Definition filter_value (t : Filter) : value := VStruct
  [(tagged "Type" "", VString (tfilter_Type t)); (tagged "Inputs" "", strings (tfilter_Inputs t));
   (tagged "Condition" "true", VString (tfilter_Condition t))].

Definition detect_value (t : DetectExceptions) : value := VStruct
  [(tagged "Type" "", VString (de_Type t)); (tagged "Inputs" "", strings (de_Inputs t));
   (tagged "Languages" "", strings (de_Languages t)); (tagged "GroupBy" "", strings (de_GroupBy t));
   (tagged "ExpireAfterMs" "", VScalar); (tagged "MultilineFlushIntervalMs" "", VScalar);
   (tagged "MessageKey" "", VString (de_MessageKey t))].

Definition throttle_value (t : Throttle) : value := VStruct
  [(tagged "Type" "", VString (thr_Type t)); (tagged "Inputs" "", strings (thr_Inputs t));
   (tagged "WindowSecs" "", VScalar); (tagged "Threshold" "", VScalar);
   (tagged "KeyField" "", VString (thr_KeyField t))].

(** The entries of a map, in some order: whether one of them closes a literal does not
    depend on it. *)
Definition string_map (m : gmap string string) : value := VMap ((λ kv, (kv.1, VString kv.2)) <$> map_to_list m).

Definition route_value (t : Route) : value := VStruct
  [(tagged "Type" "", VString (route_Type t)); (tagged "Inputs" "", strings (route_Inputs t));
   (tagged "Routes" "", string_map (route_Routes t))].

Definition metric_value (m : Metric) : value := VStruct
  [(tagged "Field" "", VString (metric_Field m)); (tagged "Kind" "", VString (metric_Kind m));
   (tagged "MetricName" "", VString (metric_MetricName m)); (tagged "Namespace" "", VString (metric_Namespace m));
   (tagged "Tags" "", string_map (metric_Tags m)); (tagged "Type" "", VString (metric_Type m))].

Definition log_to_metric_value (t : LogToMetric) : value := VStruct
  [(tagged "Inputs" "", strings (ltm_Inputs t)); (tagged "Type" "", VString (ltm_Type t));
   (tagged "Metrics" "", VSlice (metric_value <$> ltm_Metrics t))].

Definition pointer {A} (f : A → value) (p : option A) : value :=
  match p with Some a => VElem (f a) | None => VNil end.

Definition merge_value (m : MergeStrategies) : value := VStruct
  [(tagged "Resource" "", VString (ms_Resource m)); (tagged "LogRecords" "", VString (ms_LogRecords m))].

Definition reduce_value (t : Reduce) : value := VStruct
  [(tagged "Type" "", VString (red_Type t)); (tagged "Inputs" "", strings (red_Inputs t));
   (tagged "ExpireAfterMs" "", VScalar); (tagged "MaxEvents" "", VScalar);
   (tagged "GroupBy" "", strings (red_GroupBy t));
   (tagged "MergeStrategies" "", pointer merge_value (red_MergeStrategies t))].

Definition transform_value (t : transform) : value :=
  VElem match t with
        | TRemap p => pointer remap_value p
        | TFilter p => pointer filter_value p
        | TDetectExceptions p => pointer detect_value p
        | TThrottle p => pointer throttle_value p
        | TRoute p => pointer route_value p
        | TReduce p => pointer reduce_value p
        | TLogToMetric p => pointer log_to_metric_value p
        end.

(** The components a transform reads. *)
Definition inputs_of (t : transform) : list string :=
  match t with
  | TRemap p => default [] (remap_Inputs <$> p)
  | TFilter p => default [] (tfilter_Inputs <$> p)
  | TDetectExceptions p => default [] (de_Inputs <$> p)
  | TThrottle p => default [] (thr_Inputs <$> p)
  | TRoute p => default [] (route_Inputs <$> p)
  | TReduce p => default [] (red_Inputs <$> p)
  | TLogToMetric p => default [] (ltm_Inputs <$> p)
  end.

(** The program in a transform, if it has one. *)
Definition program (t : transform) : option string :=
  match t with
  | TRemap (Some r) => Some (remap_Source r)
  | TFilter (Some f) => Some (tfilter_Condition f)
  | _ => None
  end.

Lemma closes_strings l : ¬ closes (strings l).
Proof.
  intros (v & Hv & Hc)%closes_slice_iff. apply list_elem_of_fmap in Hv as (s & -> & _). inversion Hc.
Qed.

(** The only text of a transform that is written as a literal is its program. *)
Lemma closes_string_map m : ¬ closes (string_map m).
Proof.
  unfold string_map. intros (kv & Hv & Hc)%closes_map_iff.
  apply list_elem_of_fmap in Hv as (kv' & -> & _). inversion Hc.
Qed.

(** A struct none of whose fields is a literal or closes one. *)
Lemma closes_plain_struct fields :
  Forall (λ fv, is_literal fv.1 = false ∧ ¬ closes fv.2) fields → ¬ closes (VStruct fields).
Proof.
  rewrite Forall_forall. intros Hf (fv & Hin & _ & [(s & _ & Hl & _)%closes_literal_true|Hc])%closes_struct_iff;
    destruct (Hf fv Hin); [congruence|done].
Qed.

Lemma closes_VString s : ¬ closes (VString s).
Proof. inversion 1. Qed.
Lemma closes_VScalar : ¬ closes VScalar.
Proof. inversion 1. Qed.

Ltac plain_fields :=
  repeat first [apply List.Forall_nil | apply List.Forall_cons];
  (split; [reflexivity|]); cbn [snd];
  auto using closes_VString, closes_VScalar, closes_strings, closes_string_map.
Ltac plain_struct := apply closes_plain_struct; plain_fields.

Lemma closes_metrics l : ¬ closes (VSlice (metric_value <$> l)).
Proof.
  intros (v & Hv & Hc)%closes_slice_iff. apply list_elem_of_fmap in Hv as (m & -> & _). revert Hc. plain_struct.
Qed.

Lemma closes_merge m : ¬ closes (pointer merge_value m).
Proof. destruct m as [m|]; cbn [pointer]; [|by inversion 1]. rewrite closes_elem_iff. plain_struct. Qed.

Lemma closes_program fields f s :
  Forall (λ fv, is_literal fv.1 = false ∧ ¬ closes fv.2) fields → sf_PkgPath f = "" → is_literal f = true →
  closes (VStruct (fields ++ [(f, VString s)])) ↔ Contains s literalMultilineTerminator = true.
Proof.
  rewrite Forall_forall. intros Hf Hp Hl. rewrite closes_struct_iff. split.
  - intros (fv & Hin & _ & Hc). apply elem_of_app in Hin as [Hin|Hin%list_elem_of_singleton].
    + destruct (Hf fv Hin). destruct Hc as [(s' & _ & Hl' & _)%closes_literal_true|Hc]; [congruence|done].
    + subst fv. destruct Hc as [(s' & [= <-] & _ & Hc)%closes_literal_true|Hc]; [done|by apply closes_VString in Hc].
  - intros Hc. exists (f, VString s). split; [apply elem_of_app; right; by left|]. split; [done|]. left.
    apply closes_literal_true. by exists s.
Qed.

Lemma closes_transform t :
  closes (transform_value t) ↔
  ∃ s, program t = Some s ∧ Contains s literalMultilineTerminator = true.
Proof.
  unfold transform_value. rewrite closes_elem_iff.
  assert (∀ v, ¬ closes v → closes v ↔ ∃ s, None = Some s ∧ Contains s literalMultilineTerminator = true) as Hno.
  { intros v Hv. split; [done|by intros (? & [=] & _)]. }
  destruct t as [[r|]|[r|]|[r|]|[r|]|[r|]|[r|]|[r|]]; cbn [pointer program];
    rewrite ?closes_elem_iff; try (apply Hno; by inversion 1);
    try (apply Hno; plain_struct; auto using closes_metrics, closes_merge; fail).
  all: etrans; [apply (closes_program [_; _]); [plain_fields|done..]|naive_solver].
Qed.

(** ** What the layout keeps *)

(** The lines of a text without the spaces around them, blank ones left out. *)
Definition nonblank (l : list string) : list string := filter (λ c, c ≠ "") (TrimSpace <$> l).
Definition text_lines (s : string) : list string := nonblank (Split s "010").

(** Lines as they are indented. *)
Fixpoint indent_lines (indentCount : nat) (lines : list string) : list string :=
  match lines with
  | [] => []
  | raw :: lines =>
      let indentCount := if closes_block raw then indentCount - 2 else indentCount in
      indent indentCount raw :: indent_lines (if opens_block raw then indentCount + 2 else indentCount) lines
  end.

Lemma nonblank_cons c l :
  nonblank (c :: l) = if decide (TrimSpace c = "") then nonblank l else TrimSpace c :: nonblank l.
Proof.
  unfold nonblank. rewrite fmap_cons, filter_cons.
  destruct (decide (TrimSpace c = "")); [by rewrite decide_False by tauto|by rewrite decide_True].
Qed.

Lemma nonblank_app l1 l2 : nonblank (l1 ++ l2) = nonblank l1 ++ nonblank l2.
Proof. unfold nonblank. by rewrite fmap_app, filter_app. Qed.

Lemma is_space_LF c : is_space c = false → Ascii.eqb c "010" = false.
Proof. intros Hc. destruct (Ascii.eqb_spec c "010") as [->|]; [by vm_compute in Hc|done]. Qed.

Lemma text_lines_cons_space c s : is_space c = true → text_lines (String c s) = text_lines s.
Proof.
  intros Hc. unfold text_lines. cbn [Split]. destruct (Ascii.eqb c "010").
  - rewrite nonblank_cons. done.
  - destruct (Split s "010") as [|t ts] eqn:E; [by apply Split_nonempty in E|].
    rewrite !nonblank_cons. by rewrite TrimSpace_cons_space.
Qed.

Lemma text_lines_snoc_space s c :
  is_space c = true → text_lines (s +:+ String c "") = text_lines s.
Proof.
  intros Hc. unfold text_lines. destruct (Ascii.eqb_spec c "010") as [->|Hn].
  - rewrite Split_concat, nonblank_app. cbn. by rewrite app_nil_r.
  - destruct (Split_app_last s (String c "") "010") as (parts & last & E1 & E2).
    { cbn [in_string]. rewrite orb_false_r. by apply Ascii.eqb_neq. }
    rewrite E1, E2, !nonblank_app, !nonblank_cons. by rewrite TrimSpace_snoc_space.
Qed.

Lemma text_lines_TrimSpace s : text_lines (TrimSpace s) = text_lines s.
Proof.
  induction s as [|c s IH]; [done|]. destruct (is_space c) eqn:Hc.
  { by rewrite TrimSpace_cons_space, text_lines_cons_space. }
  clear IH. induction s as [|s d IH] using string_rev_ind.
  { rewrite (TrimSpace_fixed c "" c); try done. by exists "". }
  change (String c (s +:+ String d "")) with (String c s +:+ String d "").
  destruct (is_space d) eqn:Hd.
  - by rewrite TrimSpace_snoc_space, text_lines_snoc_space.
  - erewrite (TrimSpace_fixed c _ d); [done..| |done]. by eexists.
Qed.

Lemma normalize_loop_lines chunks n :
  (∀ c, last chunks = Some c → TrimSpace c ≠ "") →
  normalize_loop chunks n = Join (indent_lines n (nonblank chunks)) LF.
Proof.
  revert n. induction chunks as [|c chunks IH]; intros n Hlast; [done|].
  cbn [normalize_loop]. rewrite TrimSpace_idemp, nonblank_cons, IH.
  2: { intros d Hd. apply Hlast. destruct chunks; [done|]. by rewrite last_cons_cons. }
  destruct (decide (TrimSpace c = "")) as [->|Hne]; [done|].
  destruct (String.eqb_spec (TrimSpace c) "") as [|_]; [done|]. cbn [negb indent_lines].
  destruct chunks as [|d chunks].
  { by rewrite !string_app_nil_r. }
  assert (nonblank (d :: chunks) ≠ []) as Hnb.
  { intros E. destruct (last (d :: chunks)) as [e|] eqn:El; [|by apply last_None in El].
    assert (TrimSpace e ∈ nonblank (d :: chunks)) as Hin; [|by rewrite E in Hin; apply not_elem_of_nil in Hin].
    apply list_elem_of_filter. split.
    - apply Hlast. by rewrite last_cons_cons.
    - apply list_elem_of_fmap. exists e. split; [done|]. by apply last_Some_elem_of. }
  rewrite Join_cons; [by rewrite string_app_assoc|].
  destruct (nonblank (d :: chunks)); done.
Qed.

Lemma normalize_lines s : normalize s = Join (indent_lines 0 (text_lines s)) LF.
Proof.
  rewrite <-text_lines_TrimSpace. unfold normalize, text_lines.
  destruct (TrimSpace_nonspace s) as [->|(c & Hc & _ & u & d & -> & Hd)]; [done|].
  apply normalize_loop_lines.
  destruct (Split_app_last u (String d "") "010") as (parts & l & _ & ->).
  { cbn [in_string]. by rewrite orb_false_r, Ascii.eqb_sym, is_space_LF. }
  intros e. rewrite last_snoc. intros [= <-]. by apply TrimSpace_snoc_nonspace.
Qed.

Lemma TrimSpace_indent n s : TrimSpace (indent n s) = TrimSpace s.
Proof.
  unfold indent. induction n as [|n IH]; [done|]. cbn [Repeat].
  change (" " +:+ Repeat " " n) with (String " " (Repeat " " n)). cbn [String.append].
  by rewrite TrimSpace_cons_space.
Qed.

Lemma TrimSpace_clean c s : in_string c s = false → in_string c (TrimSpace s) = false.
Proof.
  intros Hs. destruct (TrimSpace_part s) as (p & q & E). rewrite E, !in_string_app in Hs.
  by apply orb_false_iff in Hs as [_ [? _]%orb_false_iff].
Qed.

Lemma indent_clean n s : in_string "010" s = false → in_string "010" (indent n s) = false.
Proof. intros Hs. unfold indent. induction n; simpl; done. Qed.

(** A line as [text_lines] gives it. *)
Definition trimmed (raw : string) : Prop :=
  raw ≠ "" ∧ TrimSpace raw = raw ∧ in_string "010" raw = false.

Lemma text_lines_trimmed s : Forall trimmed (text_lines s).
Proof.
  apply Forall_forall. intros raw [Hne (c & -> & Hc)%list_elem_of_fmap]%list_elem_of_filter.
  split_and!; [done|by rewrite TrimSpace_idemp|]. apply TrimSpace_clean.
  clear Hne. revert c Hc. induction s as [|d s IH]; intros c; cbn [Split].
  { by intros ->%list_elem_of_singleton. }
  destruct (Ascii.eqb d "010") eqn:Hd.
  { intros [->|?]%elem_of_cons; auto. }
  destruct (Split s "010") as [|t ts] eqn:E; [by apply Split_nonempty in E|].
  intros [->|?]%elem_of_cons; [|apply IH; by right].
  cbn [in_string]. rewrite Ascii.eqb_sym, Hd. apply IH. by left.
Qed.

Lemma nonblank_indent_lines n lines :
  Forall trimmed lines → nonblank (indent_lines n lines) = lines.
Proof.
  intros Hl. revert n. induction Hl as [|raw lines (Hne & Ht & _) _ IH]; intros n; [done|].
  cbn [indent_lines]. rewrite nonblank_cons, TrimSpace_indent, Ht.
  by rewrite decide_False, IH.
Qed.

Lemma indent_lines_clean n lines :
  Forall trimmed lines → ∀ s, s ∈ indent_lines n lines → in_string "010" s = false.
Proof.
  intros Hl. revert n. induction Hl as [|raw lines (_ & _ & Hc) _ IH]; intros n s; cbn [indent_lines].
  { by intros ?%not_elem_of_nil. }
  intros [->|Hin]%elem_of_cons; [by apply indent_clean|by eapply IH].
Qed.

(** The layout changes only the spaces around lines and the blank lines. *)
Lemma text_lines_normalize s : text_lines (normalize s) = text_lines s.
Proof.
  rewrite normalize_lines. pose proof (text_lines_trimmed s) as Hl.
  destruct (text_lines s) as [|raw lines] eqn:E; [done|]. unfold text_lines at 1, LF.
  rewrite Split_Join; [by apply nonblank_indent_lines|done|by apply indent_lines_clean].
Qed.

(** ** Searching the lines *)

(** A text that can only be found within a line and not at its ends. *)
Definition inline (p : string) : Prop := p ≠ "" ∧ ∀ c, in_string c p = true → is_space c = false.

Lemma inline_clean p c : inline p → is_space c = true → in_string c p = false.
Proof. intros [_ Hp] Hc. apply not_true_is_false. intros ?%Hp. congruence. Qed.

Lemma Contains_TrimSpace s p : inline p → Contains (TrimSpace s) p = Contains s p.
Proof.
  intros Hp. induction s as [|c s IH]; [done|]. destruct (is_space c) eqn:Hc.
  { rewrite TrimSpace_cons_space, IH by done.
    change (String c s) with ("" +:+ String c s). rewrite Contains_sep; [|apply Hp|by apply inline_clean].
    destruct p; [by destruct Hp|done]. }
  clear IH. induction s as [|s d IH] using string_rev_ind.
  { erewrite (TrimSpace_fixed c _ c); [done..| |done]. by exists "". }
  change (String c (s +:+ String d "")) with (String c s +:+ String d "").
  destruct (is_space d) eqn:Hd.
  - rewrite TrimSpace_snoc_space, IH by done.
    rewrite Contains_sep; [|apply Hp|by apply inline_clean].
    destruct p; [by destruct Hp|by rewrite orb_false_r].
  - erewrite (TrimSpace_fixed c _ d); [done..| |done]. by eexists.
Qed.

Lemma Contains_Split s p :
  inline p → Contains s p = existsb (λ l, Contains l p) (Split s "010").
Proof.
  intros Hp. rewrite <-(Join_Split s "010") at 1.
  pose proof (Split_nonempty s "010") as Hne. induction (Split s "010") as [|t ts IH]; [done|].
  destruct ts as [|u ts]; [by cbn; rewrite orb_false_r|].
  rewrite Join_cons by done. change (String "010" "" +:+ ?x) with (String "010" x).
  rewrite Contains_sep; [|apply Hp|by apply inline_clean]. by rewrite IH.
Qed.

Lemma Contains_text_lines s p :
  inline p → Contains s p = existsb (λ l, Contains l p) (text_lines s).
Proof.
  intros Hp. rewrite Contains_Split by done. unfold text_lines.
  induction (Split s "010") as [|t ts IH]; [done|]. cbn [existsb]. rewrite IH, nonblank_cons.
  rewrite <-(Contains_TrimSpace t) by done. case_decide as E; [|done]. rewrite E.
  by destruct p; [destruct Hp|].
Qed.

Lemma Contains_normalize s p : inline p → Contains (normalize s) p = Contains s p.
Proof. intros Hp. by rewrite !Contains_text_lines, text_lines_normalize by done. Qed.

(** The layout of programs.  Normalizing a program changes only the spaces
    around its lines and its blank lines, so a text without spaces is in the result
    exactly when it was in the program, and normalizing twice changes nothing more. *)
Theorem normalize_correct s :
  text_lines (normalize s) = text_lines s ∧
  normalize s = Join (indent_lines 0 (text_lines s)) LF ∧
  normalize (normalize s) = normalize s ∧
  (∀ p, inline p → Contains (normalize s) p = Contains s p).
Proof.
  split_and!.
  - apply text_lines_normalize.
  - apply normalize_lines.
  - by rewrite (normalize_lines (normalize s)), text_lines_normalize, <-normalize_lines.
  - intros p. apply Contains_normalize.
Qed.
