(* ===== verification/VrlText.v ===== *)
(** * Text of generated programs

    The notation of the texts the source holds in raw strings, the encoding of
    strings as JSON, and the texts that can stand in a literal of the configuration
    without ending it. *)

From S2P Require Import Prelude GoStrings Toml.

(** A raw string of the source: it holds no backquote, and here a backquote stands
    for a double quote. *)
Definition raw (s : string) : string :=
  map_bytes (λ c, if Ascii.eqb c "`" then DQ else String c "") s.

(** ** [encoding/json] on strings, lists and maps *)

(** The escape of one byte of ASCII; the three characters HTML gives a meaning are
    escaped too. *)
Definition json_byte (c : ascii) : string :=
  let n := Ascii.nat_of_ascii c in
  if (n =? 34)%nat then "\" +:+ DQ
  else if (n =? 92)%nat then "\\"
  else if (n =? 8)%nat then "\b"
  else if (n =? 12)%nat then "\f"
  else if (n =? 10)%nat then "\n"
  else if (n =? 13)%nat then "\r"
  else if (n =? 9)%nat then "\t"
  else if (n <? 32)%nat || existsb (Nat.eqb n) [38; 60; 62]
       then "\u00" +:+ hex_digit (n / 16) +:+ hex_digit (n mod 16)
  else String c "".

(** The text of a string of well-formed UTF-8: the two separators of lines and
    paragraphs are escaped. *)
Fixpoint json_escape (s : string) : string :=
  match s with
  | "" => ""
  | String "226" (String "128" (String c s')) =>
      if Ascii.eqb c "168" then "\u2028" +:+ json_escape s'
      else if Ascii.eqb c "169" then "\u2029" +:+ json_escape s'
      else String "226" (String "128" (json_byte c +:+ json_escape s'))
  | String c s' => json_byte c +:+ json_escape s'
  end.

Definition json_string (s : string) : string := DQ +:+ json_escape s +:+ DQ.
Definition json_strings (l : list string) : string := "[" +:+ Join (json_string <$> l) "," +:+ "]".
Definition json_ints (l : list Z) : string := "[" +:+ Join (Itoa <$> l) "," +:+ "]".

(** A map is written in the order of its keys. *)
Definition json_map (m : gmap string string) : string :=
  "{" +:+ Join ((λ k, json_string k +:+ ":" +:+ json_string (default "" (m !! k)))
    <$> sort_strings (map_to_list m).*1) "," +:+ "}".

(** ** Texts that do not end a literal *)

Definition contained (s : string) : Prop := Contains s literalMultilineTerminator = false.

(** Nor can they when they are put between other such texts. *)
Record inert (s : string) : Prop := {
  inert_contained : contained s;
  inert_left : HasPrefix s "'" = false;
  inert_right : HasSuffix s "'" = false;
}.

Lemma terminator_clean c : Ascii.eqb "'" c = false → in_string c literalMultilineTerminator = false.
Proof. intros Hc. cbn [in_string literalMultilineTerminator]. by rewrite Ascii.eqb_sym, Hc. Qed.

Lemma contained_sep s c t :
  Ascii.eqb "'" c = false → contained (s +:+ String c t) ↔ contained s ∧ contained t.
Proof.
  intros Hc. unfold contained. rewrite Contains_sep; [|done|by apply terminator_clean].
  apply orb_false_iff.
Qed.

Lemma HasPrefix_quote c s : HasPrefix (String c s) "'" = Ascii.eqb "'" c.
Proof.
  cbn [HasPrefix String.prefix]. destruct (Ascii.ascii_dec "'" c) as [<-|Hn]; [by destruct s|].
  symmetry. by apply Ascii.eqb_neq.
Qed.

Lemma HasSuffix_quote s c : HasSuffix (s +:+ String c "") "'" = Ascii.eqb "'" c.
Proof.
  rewrite HasSuffix_app by done. cbn [HasSuffix]. destruct (Ascii.eqb_spec "'" c) as [<-|Hn]; [done|].
  destruct (String.eqb_spec (String c "") "'"); [congruence|done].
Qed.

Lemma contained_app_left s t : contained s → contained t → HasSuffix s "'" = false → contained (s +:+ t).
Proof.
  intros Hs Ht Hq. induction s as [|s c _] using string_rev_ind; [done|].
  rewrite HasSuffix_quote in Hq. rewrite string_app_assoc. cbn [String.append].
  apply contained_sep in Hs as [Hs _]; [|done]. by apply contained_sep.
Qed.

Lemma contained_app_right s t : contained s → contained t → HasPrefix t "'" = false → contained (s +:+ t).
Proof.
  intros Hs Ht Hq. destruct t as [|c t]; [by rewrite string_app_nil_r|].
  rewrite HasPrefix_quote in Hq. apply (contained_sep "") in Ht as [_ Ht]; [|done].
  by apply contained_sep.
Qed.

Lemma inert_app s t : inert s → inert t → inert (s +:+ t).
Proof.
  intros [Hs1 Hs2 Hs3] [Ht1 Ht2 Ht3]. constructor.
  - by apply contained_app_left.
  - destruct s as [|c s]; [done|]. rewrite HasPrefix_quote in Hs2. cbn [String.append].
    by rewrite HasPrefix_quote.
  - destruct t as [|c t]; [by rewrite string_app_nil_r|]. by rewrite HasSuffix_app.
Qed.

Lemma inert_nil : inert "".
Proof. done. Qed.

(** A text between two others that are inert and not empty. *)
Lemma inert_wrap l s r : l ≠ "" → r ≠ "" → inert l → inert r → contained s → inert (l +:+ s +:+ r).
Proof.
  intros Hl Hr [Hl1 Hl2 Hl3] [Hr1 Hr2 Hr3] Hs. constructor.
  - apply contained_app_left; [done| |done]. by apply contained_app_right.
  - destruct l as [|c l]; [done|]. rewrite HasPrefix_quote in Hl2. cbn [String.append].
    by rewrite HasPrefix_quote.
  - rewrite <-string_app_assoc. by rewrite HasSuffix_app.
Qed.

Lemma contained_Join l sep :
  sep ≠ "" → inert sep → (∀ s, s ∈ l → contained s) → contained (Join l sep).
Proof.
  intros Hne Hsep Hl. induction l as [|s l IH]; [done|].
  apply forall_cons_iff in Hl as [Hs Hl]. destruct l as [|t l]; [done|].
  rewrite Join_cons by done. destruct Hsep as [Hp1 Hp2 Hp3].
  apply contained_app_right; [done|apply contained_app_left; auto|].
  destruct sep as [|c sep]; [done|]. cbn [String.append]. by rewrite HasPrefix_quote in *.
Qed.

Lemma inert_Join l sep : inert sep → (∀ s, s ∈ l → inert s) → inert (Join l sep).
Proof.
  intros Hsep Hl. induction l as [|s l IH]; [done|].
  apply forall_cons_iff in Hl as [Hs Hl]. destruct l as [|t l]; [done|].
  rewrite Join_cons by done. auto using inert_app.
Qed.

(** A text with no quote at all. *)
Lemma quote_free_inert s : in_string "'" s = false → inert s.
Proof.
  intros Hs. constructor.
  - apply not_true_is_false. intros (p & q & ->)%Contains_spec.
    rewrite !in_string_app in Hs. cbn in Hs. by rewrite orb_true_r in Hs.
  - by apply HasPrefix_no.
  - by apply HasSuffix_no.
Qed.

(** ** Runs of quotes *)

(** Whether a third quote in a row is met, after [k] quotes. *)
Fixpoint scan (k : nat) (s : string) : bool :=
  match s with
  | "" => false
  | String c s => if Ascii.eqb "'" c then (k =? 2)%nat || scan (S k) s else scan 0 s
  end.

Lemma scan_prefix s :
  scan 2 s = String.prefix "'" s || Contains s "'''" ∧
  scan 1 s = String.prefix "''" s || Contains s "'''" ∧
  scan 0 s = Contains s "'''".
Proof.
  induction s as [|c s (IH2 & IH1 & IH0)]; [done|].
  cbn [scan Contains String.prefix]. destruct (Ascii.ascii_dec "'" c) as [<-|Hn].
  - change (Ascii.eqb "'" "'") with true. cbn [Nat.eqb orb]. rewrite IH2, IH1. split_and!.
    + by destruct s.
    + destruct s as [|d s]; [done|]. cbn [String.prefix]. destruct (Ascii.ascii_dec "'" d); [|done].
      by destruct s.
    + by destruct s.
  - apply Ascii.eqb_neq in Hn. rewrite Hn. done.
Qed.

Lemma contained_scan s : contained s ↔ scan 0 s = false.
Proof. unfold contained. by rewrite (proj2 (proj2 (scan_prefix s))). Qed.

Lemma scan_skip k s t : s ≠ "" → in_string "'" s = false → scan k (s +:+ t) = scan 0 t.
Proof.
  revert k. induction s as [|c s IH]; intros k Hne Hs; [done|].
  cbn [in_string] in Hs. apply orb_false_iff in Hs as [Hc Hs]. cbn [String.append scan].
  rewrite Hc. destruct s as [|d s]; [done|]. by apply IH.
Qed.

(** Escaping byte by byte keeps quotes and gives no other. *)
Definition keeps_quotes (f : ascii → string) : Prop :=
  f "'"%char = "'" ∧ ∀ c, Ascii.eqb "'" c = false → f c ≠ "" ∧ in_string "'" (f c) = false.

Lemma scan_byte f c k t :
  keeps_quotes f → scan k (f c +:+ t) = if Ascii.eqb "'" c then (k =? 2)%nat || scan (S k) t else scan 0 t.
Proof.
  intros [Hq Hf]. destruct (Ascii.eqb_spec "'" c) as [<-|Hn]; [by rewrite Hq|].
  apply Ascii.eqb_neq, Hf in Hn as [? ?]. by apply scan_skip.
Qed.

Lemma scan_map_bytes f s k : keeps_quotes f → scan k (map_bytes f s) = scan k s.
Proof.
  intros Hf. revert k. induction s as [|c s IH]; intros k; [done|].
  cbn [map_bytes scan]. rewrite scan_byte by done. by rewrite !IH.
Qed.

Lemma contained_map_bytes f s : keeps_quotes f → contained (map_bytes f s) ↔ contained s.
Proof. intros Hf. by rewrite !contained_scan, scan_map_bytes. Qed.

Ltac keeps_quotes_tac :=
  split; [done|]; intros [[] [] [] [] [] [] [] []]; vm_compute; intros; split; congruence.

Lemma quote_byte_keeps : keeps_quotes quote_byte.
Proof. keeps_quotes_tac. Qed.

Lemma json_byte_keeps : keeps_quotes json_byte.
Proof. keeps_quotes_tac. Qed.

Lemma scan_json_escape n s k : (String.length s <= n)%nat → scan k (json_escape s) = scan k s.
Proof.
  revert s k. induction n as [|n IH]; intros [|c s] k Hn; [done|simpl in Hn; lia|done|].
  assert (json_escape (String c s) = json_byte c +:+ json_escape s ∨
    ∃ d s', String c s = String "226" (String "128" (String d s')) ∧
      json_escape (String c s) = if Ascii.eqb d "168" then "\u2028" +:+ json_escape s'
      else if Ascii.eqb d "169" then "\u2029" +:+ json_escape s'
      else String "226" (String "128" (json_byte d +:+ json_escape s'))) as [E|(d & s' & E & E')].
  { destruct c as [[] [] [] [] [] [] [] []]; try by left.
    destruct s as [|[[] [] [] [] [] [] [] []] s]; try by left.
    destruct s as [|d s']; [by left|]. right. by exists d, s'. }
  - rewrite E, scan_byte by apply json_byte_keeps. cbn [scan]. simpl in Hn. by rewrite !IH by lia.
  - rewrite E', E. injection E as -> ->. simpl in Hn.
    destruct (Ascii.eqb_spec d "168") as [->|_]; [rewrite scan_skip by done; cbn; apply IH; lia|].
    destruct (Ascii.eqb_spec d "169") as [->|_]; [rewrite scan_skip by done; cbn; apply IH; lia|].
    change (String "226" (String "128" (json_byte d +:+ json_escape s')))
      with (String "226" (String "128" "") +:+ (json_byte d +:+ json_escape s')).
    rewrite scan_skip, scan_byte by (done || apply json_byte_keeps). cbn [scan Ascii.eqb]. simpl.
    by rewrite !IH by lia.
Qed.

Lemma contained_json_escape s : contained (json_escape s) ↔ contained s.
Proof. by rewrite !contained_scan, (scan_json_escape (String.length s)). Qed.

Lemma inert_DQ : inert DQ.
Proof. by constructor. Qed.

Lemma inert_json_string s : contained s → inert (json_string s).
Proof. intros Hs. apply inert_wrap; [done..|]. by apply contained_json_escape. Qed.

Lemma inert_Quote s : contained s → inert (Quote s).
Proof. intros Hs. apply inert_wrap; [done..|]. by apply (contained_map_bytes _ _ quote_byte_keeps). Qed.

Lemma inert_json_strings l : (∀ s, s ∈ l → contained s) → inert (json_strings l).
Proof.
  intros Hl. apply inert_app; [done|]. apply inert_app; [|done]. apply inert_Join; [done|].
  intros ? (s & -> & ?)%list_elem_of_fmap. by apply inert_json_string, Hl.
Qed.

Lemma inert_json_map m :
  (∀ k v, m !! k = Some v → contained k ∧ contained v) → inert (json_map m).
Proof.
  intros Hm. apply inert_app; [done|]. apply inert_app; [|done]. apply inert_Join; [done|].
  intros ? (k & -> & Hk)%list_elem_of_fmap. rewrite elem_of_sort_strings in Hk.
  apply list_elem_of_fmap in Hk as ([k' v] & -> & Hv%elem_of_map_to_list). cbn [fst].
  rewrite Hv. cbn [default from_option id]. destruct (Hm _ _ Hv).
  apply inert_app; [by apply inert_json_string|]. apply inert_app; [done|]. by apply inert_json_string.
Qed.

(** *** Numbers *)

Lemma pretty_N_go_free x s : in_string "'" s = false → in_string "'" (pretty_N_go x s) = false.
Proof.
  revert s. induction (N.lt_wf_0 x) as [x _ IH]; intros s Hs.
  assert (x = 0 ∨ 0 < x)%N as [->|?] by lia; [by rewrite pretty_N_go_0|].
  rewrite pretty_N_go_step by done. apply IH; [by apply N.div_lt|].
  cbn [in_string]. rewrite Hs. unfold pretty_N_char. by repeat case_match.
Qed.

Lemma Itoa_free z : in_string "'" (Itoa z) = false.
Proof.
  assert (∀ n : N, in_string "'" (pretty n) = false) as Hn.
  { intros n. unfold pretty, pretty_N. case_decide; [done|]. by apply pretty_N_go_free. }
  unfold Itoa, pretty, pretty_Z. destruct z as [|p|p]; [done|apply (Hn (Npos p))|].
  cbn [in_string String.append]. apply (Hn (Npos p)).
Qed.

Lemma inert_json_ints l : inert (json_ints l).
Proof.
  apply inert_app; [done|]. apply inert_app; [|done]. apply inert_Join; [done|].
  intros ? (z & -> & _)%list_elem_of_fmap. apply quote_free_inert, Itoa_free.
Qed.

#[export] Hint Resolve inert_contained inert_app inert_nil inert_DQ : go.

(** Texts made of closed pieces and of pieces known to be inert. *)
Ltac inert_tac :=
  repeat lazymatch goal with
  | |- inert (_ +:+ _) => first [assumption | apply inert_app]
  | |- inert _ => first [assumption | constructor; vm_compute; reflexivity]
  end.

(** A text without quotes between the quotes of a literal. *)
Lemma literal_inert c p :
  Ascii.eqb "'" c = false → in_string "'" p = false → inert (String c "'" +:+ p +:+ "')").
Proof.
  intros Hc Hp. constructor.
  - apply contained_scan. cbn [String.append scan]. rewrite Hc. cbn [scan Ascii.eqb Bool.eqb orb].
    destruct p as [|d p]; [done|]. by rewrite scan_skip.
  - cbn [String.append]. by rewrite HasPrefix_quote.
  - rewrite <-string_app_assoc, HasSuffix_app; done.
Qed.
