(* ===== verification/Template.v ===== *)
(** * Templates of users ([internal/generator/vector/output/common/template])

    The file [template.go]: the text of a user with field paths in braces becomes a VRL
    expression that joins string literals and fields.  The expressions of the source are
    searched for from the left; the loops over what follows a call are bounded by the
    length of the text, and more rounds change nothing. *)

From S2P Require Import Prelude GoStrings Regex Toml Transforms VrlText.

Open Scope re.

(** The longest prefix of bytes of a class, and the rest. *)
Fixpoint span (p : ascii → bool) (s : string) : string * string :=
  match s with
  | "" => ("", "")
  | String c s' => if p c then (String c (span p s').1, (span p s').2) else ("", s)
  end.

(** [PathRegex.ReplaceAllStringFunc]: [pending] is the text after an opening brace that has
    no brace yet. *)
Fixpoint replace_paths (f : string → string) (pending : option string) (s : string) : string :=
  match s with
  | "" => match pending with Some b => "{" +:+ b | None => "" end
  | String c s =>
      match pending with
      | None => if Ascii.eqb c "{" then replace_paths f (Some "") s else String c (replace_paths f None s)
      | Some b =>
          if Ascii.eqb c "{" then "{" +:+ b +:+ replace_paths f (Some "") s
          else if Ascii.eqb c "}" then (if b == "" then "{}" else f b) +:+ replace_paths f None s
          else replace_paths f (Some (b +:+ String c "")) s
      end
  end.

Definition ReplaceBracketWithToString (userTemplate : string) (replaceWith : string → string) : string :=
  replace_paths replaceWith None userTemplate.

Definition to_string_call : string := "to_string!(".
Definition format_timestamp_call : string := "format_timestamp!(".

(** [to_string!(._internal%s)] *)
Definition field_call (path : string) : string := to_string_call +:+ "._internal" +:+ path +:+ ")".

(** A match of [splitRegex] at the start: what the parentheses hold and what follows. *)
Definition call_at (s : string) : option (string * string) :=
  match CutPrefix s to_string_call with
  | Some t =>
      let '(body, rest) := span (λ c, negb (Ascii.eqb c ")")) t in
      match rest with
      | String _ rest => if body == "" then None else Some (body, rest)
      | "" => None
      end
  | None => None
  end.

(** The leftmost match: what precedes it, what it holds and what follows. *)
Fixpoint find_call (s : string) : option (string * string * string) :=
  match call_at s with
  | Some (body, rest) => Some ("", body, rest)
  | None =>
      match s with
      | "" => None
      | String c s' =>
          match find_call s' with
          | Some (before, body, rest) => Some (String c before, body, rest)
          | None => None
          end
      end
  end.

(** The matches with the text before each, and the text after the last one. *)
Fixpoint split_calls (n : nat) (s : string) : list (string * string) * string :=
  match n with
  | O => ([], s)
  | S n =>
      match find_call s with
      | None => ([], s)
      | Some (before, body, rest) =>
          let '(l, tail) := split_calls n rest in ((before, body) :: l, tail)
      end
  end.

(** A part of the text, quoted unless it is empty. *)
Definition quoted_part (s : string) : list string := if s != "" then [Quote s] else [].

Definition transformOriginal (userTemplate : string) : string :=
  let replacedUserTemplate := ReplaceBracketWithToString userTemplate field_call in
  match split_calls (String.length replacedUserTemplate) replacedUserTemplate with
  | ([], _) => Quote userTemplate
  | (matched, endPart) =>
      Join (mjoin ((λ m, quoted_part m.1 ++ [to_string_call +:+ m.2 +:+ ")"]) <$> matched)
            ++ quoted_part endPart) " + "
  end.

(** [findMatchingParen] after the opening one: up to the matching one, and the rest; the
    whole text if there is none. *)
Fixpoint findMatchingParen (count : nat) (inQuotes escapeNext : bool) (s : string) : string * string :=
  match s with
  | "" => ("", "")
  | String c s =>
      let go count inQuotes escapeNext :=
        let '(a, b) := findMatchingParen count inQuotes escapeNext s in (String c a, b) in
      if escapeNext then go count inQuotes false
      else if Ascii.eqb c "\" then go count inQuotes true
      else if Ascii.eqb c dquote then go count (negb inQuotes) false
      else if inQuotes then go count inQuotes false
      else if Ascii.eqb c "(" then go (S count) inQuotes false
      else if Ascii.eqb c ")" then
        (if (count =? 1)%nat then (String c "", s) else go (pred count) inQuotes false)
      else go count inQuotes false
  end.

(** [strings.Index] as the text before the first occurrence and the text after it. *)
Fixpoint cut (s sep : string) : option (string * string) :=
  match CutPrefix s sep with
  | Some rest => Some ("", rest)
  | None =>
      match s with
      | "" => None
      | String c s' => match cut s' sep with Some (a, b) => Some (String c a, b) | None => None end
      end
  end.

(** One round of the third pass: [next] gives the parts of what follows a call. *)
Definition timestamp_round (next : string → list string) (s : string) : list string :=
  if s == "" then []
  else
    let call prefix before after :=
      let '(call, rest) := findMatchingParen 1 false false after in
      quoted_part before ++ [prefix +:+ call] ++ next rest in
    match cut s to_string_call with
    | Some (before, after) => call to_string_call before after
    | None =>
        match cut s format_timestamp_call with
        | Some (before, after) => call format_timestamp_call before after
        | None => quoted_part s
        end
    end.

(** The third pass: the parts of the expression. *)
Fixpoint timestamp_parts (n : nat) (s : string) : list string :=
  match n with
  | O => []
  | S n => timestamp_round (timestamp_parts n) s
  end.

(** [ReplaceAllString] of an expression: [m] gives the replacement and the length of a
    match at the start; [skip] bytes belong to the match before. *)
Fixpoint replace_matches (m : string → option (string * nat)) (skip : nat) (s : string) : string :=
  match s with
  | "" => ""
  | String c s' =>
      match skip with
      | S skip => replace_matches m skip s'
      | O =>
          match m s with
          | Some (new, len) => new +:+ replace_matches m (pred len) s'
          | None => String c (replace_matches m 0 s')
          end
      end
  end.

Definition format_timestamp (fmt : string) : string :=
  format_timestamp_call +:+ ".timestamp || now(), format: " +:+ DQ +:+ fmt +:+ DQ +:+ ")".

Definition literal_match (old new : string) (s : string) : option (string * nat) :=
  if HasPrefix s old then Some (new, String.length old) else None.

Definition strftime_prefix : string := "{@timestamp|strftime:" +:+ DQ.

Definition strftime_match (s : string) : option (string * nat) :=
  match CutPrefix s strftime_prefix with
  | Some t =>
      let '(fmt, rest) := span (λ c, negb (Ascii.eqb c dquote)) t in
      if (fmt != "") && HasPrefix rest (DQ +:+ "}")
      then Some (format_timestamp fmt, String.length strftime_prefix + String.length fmt + 2) else None
  | None => None
  end.

Definition timestampPatterns : gmap string (string → option (string * nat)) := map_of_assignments
  (("strftime", strftime_match) ::
   ((λ kv, (kv.1, literal_match ("{@timestamp|" +:+ kv.1 +:+ "}") (format_timestamp kv.2))) <$>
     [("year", "%Y"); ("month", "%m"); ("day", "%d"); ("hour", "%H"); ("minute", "%M"); ("date", "%Y-%m-%d");
      ("datetime", "%Y-%m-%d_%H-%M-%S")])).

Section template.
Context `{RangeOrder}.

Definition transformWithTimestampSupport (userTemplate : string) : string :=
  let result := foldl (λ result kv, replace_matches kv.2 0 result) userTemplate (range timestampPatterns) in
  let result := replace_paths (λ b,
    let match_ := "{" +:+ b +:+ "}" in
    if Contains match_ "format_timestamp!" || Contains match_ "to_string!" then match_ else field_call b) None result in
  let parts := timestamp_parts (String.length result) result in
  if (length parts =? 0)%nat then Quote userTemplate else Join parts " + ".

Definition TransformUserTemplateToVRL (userTemplate : string) : string :=
  if Contains userTemplate "@timestamp|" then transformWithTimestampSupport userTemplate
  else transformOriginal userTemplate.

Definition template_program (field vrl : string) : string := "._internal." +:+ field +:+ " = " +:+ vrl +:+ LF.

Definition NewTemplateRemap (inputs : list string) (userTemplate field : string) : transform :=
  TRemap (Some (NewRemap (template_program field (TransformUserTemplateToVRL userTemplate)) inputs)).
End template.

(** ** Searching for calls *)

Lemma span_spec p s :
  s = (span p s).1 +:+ (span p s).2 ∧ string_forallb p (span p s).1 = true ∧
  ((span p s).2 = "" ∨ ∃ c t, (span p s).2 = String c t ∧ p c = false).
Proof.
  induction s as [|c s (IH1 & IH2 & IH3)]; cbn [span]; [by split_and!; [..|left]|].
  destruct (p c) eqn:Hc; cbn [fst snd].
  - split_and!; [cbn [String.append]; by f_equal|cbn; by rewrite Hc|done].
  - split_and!; [done..|right; by exists c, s].
Qed.

Lemma span_app p a c b : string_forallb p a = true → p c = false → span p (a +:+ String c b) = (a, String c b).
Proof.
  intros Ha Hc. induction a as [|d a IH]; cbn [String.append span]; [by rewrite Hc|].
  cbn in Ha. apply andb_true_iff in Ha as [Hd Ha]. rewrite Hd, IH by done. done.
Qed.

Definition not_paren (c : ascii) : bool := negb (Ascii.eqb c ")").

Lemma call_at_spec s body rest :
  call_at s = Some (body, rest) ↔
  s = to_string_call +:+ body +:+ ")" +:+ rest ∧ body ≠ "" ∧ string_forallb not_paren body = true.
Proof.
  unfold call_at. split.
  - destruct (CutPrefix s to_string_call) as [t|] eqn:E; [|done]. apply CutPrefix_spec in E as ->.
    pose proof (span_spec not_paren t) as (E & Hp & Hr). unfold not_paren in E, Hp, Hr. revert E Hp Hr.
    destruct (span _ t) as [a b]. cbn [fst snd]. intros -> Hp Hr. destruct b as [|c b]; [done|].
    destruct (String.eqb_spec a ""); [done|]. intros [= <- <-].
    destruct Hr as [[=]|(? & ? & [= <- <-] & Hc%negb_false_iff%Ascii.eqb_eq)]. subst c. done.
  - intros (-> & Hne & Hb). rewrite (proj2 (CutPrefix_spec _ to_string_call (body +:+ ")" +:+ rest)) eq_refl).
    rewrite (span_app _ body ")" rest) by done. by destruct (String.eqb_spec body "").
Qed.

Lemma find_call_sound s before body rest :
  find_call s = Some (before, body, rest) → s = before +:+ to_string_call +:+ body +:+ ")" +:+ rest.
Proof.
  revert before. induction s as [|c s IH]; intros before; cbn [find_call].
  - destruct (call_at "") as [[? ?]|] eqn:E; [|done]. by apply call_at_spec in E as [[=] _].
  - destruct (call_at (String c s)) as [[? ?]|] eqn:E.
    + intros [= <- -> ->]. by apply call_at_spec in E as [-> _].
    + destruct (find_call s) as [[[a b] r]|]; [|done]. intros [= <- -> ->]. cbn [String.append].
      f_equal. by apply IH.
Qed.

(** A call is found at its place when no parenthesis opens before it. *)
Lemma find_call_first before body rest :
  in_string "(" before = false → body ≠ "" → string_forallb not_paren body = true →
  find_call (before +:+ to_string_call +:+ body +:+ ")" +:+ rest) = Some (before, body, rest).
Proof.
  intros Hb Hne Hp. remember (to_string_call +:+ body +:+ ")" +:+ rest) as call eqn:Ecall.
  assert (call_at call = Some (body, rest)) as Hcall by by apply call_at_spec.
  induction before as [|c before IH].
  - change ("" +:+ call) with call. destruct call as [|c call]; [done|]. cbn [find_call]. by rewrite Hcall.
  - cbn [in_string] in Hb. apply orb_false_iff in Hb as [Hc Hb]. cbn [String.append find_call]. rewrite IH by done.
    destruct (call_at (String c (before +:+ call))) as [[body' rest']|] eqn:E; [|done].
    apply call_at_spec in E as [E _]. exfalso.
    assert (String c before +:+ "to_string!" = "to_string!") as E'.
    { apply (sep_inj "(" _ _ (body +:+ ")" +:+ rest) (body' +:+ ")" +:+ rest')); [|done|].
      - rewrite in_string_app. cbn [in_string]. by rewrite Hc, Hb.
      - rewrite string_app_assoc. subst call. exact E. }
    apply (f_equal String.length) in E'. rewrite string_app_length in E'. cbn in E'. lia.
Qed.

Lemma find_call_none s : in_string "(" s = false → find_call s = None.
Proof.
  induction s as [|c s IH]; [done|]. cbn [in_string find_call]. intros [Hc Hs]%orb_false_iff.
  rewrite IH by done. destruct (call_at _) as [[? ?]|] eqn:E; [|done]. apply call_at_spec in E as [E _].
  assert (in_string "(" (String c s) = false) as Hf by (cbn [in_string]; by rewrite Hc).
  by rewrite E in Hf.
Qed.

(** More rounds than the text is long change nothing. *)
Lemma split_calls_enough n s : (String.length s <= n)%nat → split_calls n s = split_calls (String.length s) s.
Proof.
  enough (∀ m n s, (String.length s <= m)%nat → (m <= n)%nat → split_calls n s = split_calls m s) as H'
    by (intros; by apply H').
  clear. intros m. induction m as [|m IH]; intros n s Hs Hn.
  - destruct s; [|simpl in Hs; lia]. by destruct n.
  - destruct n as [|n]; [lia|]. cbn [split_calls]. destruct (find_call s) as [[[a b] r]|] eqn:E; [|done].
    apply find_call_sound in E as ->. rewrite !string_app_length in Hs. cbn in Hs. by rewrite (IH n r) by lia.
Qed.

Lemma findMatchingParen_parts s : ∀ count q e,
  s = (findMatchingParen count q e s).1 +:+ (findMatchingParen count q e s).2.
Proof.
  induction s as [|c s IH]; intros count q e; [done|]. cbn [findMatchingParen].
  repeat match goal with
  | |- context [if ?b then _ else _] => destruct b
  | |- context [let '(_, _) := findMatchingParen ?n ?q ?e s in _] =>
      pose proof (IH n q e); destruct (findMatchingParen n q e s)
  end; cbn [fst snd String.append] in *; by subst.
Qed.

Lemma cut_spec s sep a b : cut s sep = Some (a, b) → s = a +:+ sep +:+ b.
Proof.
  revert a. induction s as [|c s IH]; intros a; cbn [cut].
  - destruct (CutPrefix "" sep) as [r|] eqn:E; [|done]. intros [= <- <-]. by apply CutPrefix_spec in E.
  - destruct (CutPrefix (String c s) sep) as [r|] eqn:E.
    + intros [= <- <-]. by apply CutPrefix_spec in E.
    + destruct (cut s sep) as [[a' b']|]; [|done]. intros [= <- ->]. cbn [String.append]. f_equal. by apply IH.
Qed.

(** A round looks at what follows in shorter texts only. *)
Lemma timestamp_round_ext (f g : string → list string) s :
  (∀ t, (String.length t < String.length s)%nat → f t = g t) → timestamp_round f s = timestamp_round g s.
Proof.
  intros Hfg. unfold timestamp_round. destruct (s == ""); [done|].
  assert (∀ prefix before after, s = before +:+ prefix +:+ after → prefix ≠ "" →
    (let '(call, rest) := findMatchingParen 1 false false after in quoted_part before ++ [prefix +:+ call] ++ f rest) =
    (let '(call, rest) := findMatchingParen 1 false false after in quoted_part before ++ [prefix +:+ call] ++ g rest)) as Hcall.
  { intros prefix before after -> Hp. pose proof (findMatchingParen_parts after 1 false false) as E.
    destruct (findMatchingParen 1 false false after) as [call rest]. cbn [fst snd] in E. rewrite Hfg; [done|].
    rewrite E, !string_app_length. destruct prefix; [done|]. simpl. lia. }
  destruct (cut s to_string_call) as [[before after]|] eqn:E; [by apply Hcall; [by apply cut_spec|]|]. clear E.
  destruct (cut s format_timestamp_call) as [[before after]|] eqn:E; [by apply Hcall; [by apply cut_spec|]|done].
Qed.

Lemma timestamp_parts_enough n : ∀ m s, (String.length s <= n)%nat → (n <= m)%nat → timestamp_parts m s = timestamp_parts n s.
Proof.
  induction n as [|n IH]; intros m s Hs Hm.
  - destruct s; [|simpl in Hs; lia]. by destruct m.
  - destruct m as [|m]; [lia|]. cbn [timestamp_parts]. apply timestamp_round_ext. intros t Ht. apply IH; lia.
Qed.

(** C29. The loops over a template end.  Each round of the loop that splits an expression
    with time stamps goes on in a shorter text: with as many rounds as the text is long,
    or more, the parts are the same and one round more changes nothing.  The search for
    calls ends for want of a call, not of rounds. *)
Theorem template_loops_terminate s n :
  (String.length s <= n)%nat →
  (timestamp_parts n s = timestamp_parts (String.length s) s ∧
   timestamp_parts n s = timestamp_round (timestamp_parts n) s) ∧
  split_calls n s = split_calls (String.length s) s ∧ find_call (split_calls n s).2 = None.
Proof.
  intros Hn. split; [split|split].
  - by apply timestamp_parts_enough.
  - destruct n as [|n]; [by destruct s; [|simpl in Hn; lia]|]. cbn [timestamp_parts]. apply timestamp_round_ext. intros t Ht.
    change (timestamp_round (timestamp_parts n) t) with (timestamp_parts (S n) t). symmetry. apply timestamp_parts_enough; lia.
  - by apply split_calls_enough.
  - revert s Hn. induction n as [|n IH]; intros s Hn.
    + destruct s; [|simpl in Hn; lia]. by vm_compute.
    + cbn [split_calls]. destruct (find_call s) as [[[a b] r]|] eqn:E; [|done]. apply find_call_sound in E as ->.
      rewrite !string_app_length in Hn. simpl in Hn. specialize (IH r ltac:(lia)). by destruct (split_calls n r).
Qed.

Lemma template_loops_terminate_witness :
  timestamp_parts 40 "x-to_string!(.a)-format_timestamp!(now())" = timestamp_round (timestamp_parts 60) "x-to_string!(.a)-format_timestamp!(now())" ∧
  find_call (split_calls 60 "x-to_string!(.a)").2 = None.
Proof.
  split; [|apply (template_loops_terminate "x-to_string!(.a)" 60); cbn; lia].
  assert (timestamp_parts 40 "x-to_string!(.a)-format_timestamp!(now())" =
    timestamp_parts 60 "x-to_string!(.a)-format_timestamp!(now())") as -> by by vm_compute.
  apply (template_loops_terminate "x-to_string!(.a)-format_timestamp!(now())" 60). cbn. lia.
Defined.

(** ** Templates in normal form *)

(** Text before each field, and the text after the last one. *)
Fixpoint template_text (l : list (string * string)) (tail : string) : string :=
  match l with
  | [] => tail
  | (s, b) :: l => s +:+ "{" +:+ b +:+ "}" +:+ template_text l tail
  end.

Definition template_parts (l : list (string * string)) (tail : string) : list string :=
  mjoin ((λ m, quoted_part m.1 ++ [field_call m.2]) <$> l) ++ quoted_part tail.

(** The expression a template stands for: its texts as literals, joined with its fields. *)
Definition template_expression (l : list (string * string)) (tail : string) : string :=
  match l with [] => Quote tail | _ :: _ => Join (template_parts l tail) " + " end.

Definition not_brace (c : ascii) : bool := negb (in_string c "{}").

(** Texts without braces or opening parentheses, fields without braces or closing ones. *)
Record plain_template (l : list (string * string)) (tail : string) : Prop := {
  pt_texts : ∀ s, s ∈ tail :: l.*1 → string_forallb (λ c, not_brace c && negb (Ascii.eqb c "(")) s = true;
  pt_fields : ∀ b, b ∈ l.*2 → b ≠ "" ∧ string_forallb (λ c, not_brace c && not_paren c) b = true;
}.

Lemma string_forallb_impl (p q : ascii → bool) s :
  (∀ c, p c = true → q c = true) → string_forallb p s = true → string_forallb q s = true.
Proof.
  intros Hpq. induction s as [|c s IH]; [done|]. cbn. rewrite !andb_true_iff. intros [? ?]. auto.
Qed.

Lemma not_brace_spec c : not_brace c = true ↔ Ascii.eqb c "{" = false ∧ Ascii.eqb c "}" = false.
Proof. unfold not_brace. cbn [in_string]. rewrite negb_true_iff, orb_false_r, orb_false_iff. done. Qed.

Lemma replace_paths_text f s t :
  string_forallb not_brace s = true → replace_paths f None (s +:+ t) = s +:+ replace_paths f None t.
Proof.
  induction s as [|c s IH]; [done|]. cbn [string_forallb String.append replace_paths].
  intros [[Hc _]%not_brace_spec Hs]%andb_true_iff. rewrite Hc. f_equal. by apply IH.
Qed.

Lemma replace_paths_pending f p b t :
  string_forallb not_brace b = true → p +:+ b ≠ "" →
  replace_paths f (Some p) (b +:+ "}" +:+ t) = f (p +:+ b) +:+ replace_paths f None t.
Proof.
  revert p. induction b as [|c b IH]; intros p; cbn [string_forallb String.append replace_paths].
  - intros _ Hne. rewrite string_app_nil_r in *. by destruct (String.eqb_spec p "").
  - intros [[Ho Hc]%not_brace_spec Hb]%andb_true_iff Hne. rewrite Ho, Hc.
    replace (p +:+ String c b) with ((p +:+ String c "") +:+ b) by by rewrite string_app_assoc.
    apply IH; [done|]. intros [Hp _]%string_app_eq_nil. by apply string_app_eq_nil in Hp as [_ [=]].
Qed.

Lemma replace_paths_field f b t :
  string_forallb not_brace b = true → b ≠ "" →
  replace_paths f None ("{" +:+ b +:+ "}" +:+ t) = f b +:+ replace_paths f None t.
Proof. intros. cbn [String.append replace_paths Ascii.eqb Bool.eqb]. by apply replace_paths_pending. Qed.

(** The template with the calls in the place of the braces. *)
Fixpoint called_text (l : list (string * string)) (tail : string) : string :=
  match l with
  | [] => tail
  | (s, b) :: l => s +:+ to_string_call +:+ ("._internal" +:+ b) +:+ ")" +:+ called_text l tail
  end.

Lemma plain_template_cons s b l tail : plain_template ((s, b) :: l) tail →
  string_forallb not_brace s = true ∧ in_string "(" s = false ∧ b ≠ "" ∧ string_forallb not_brace b = true ∧
  string_forallb not_paren b = true ∧ plain_template l tail.
Proof.
  intros [Ht Hf]. destruct (Hf b) as [Hne Hb]; [by left|]. pose proof (Ht s) as Hs. cbn in Hs.
  specialize (Hs ltac:(right; by left)). split_and!; try done.
  - eapply string_forallb_impl; [|exact Hs]. by intros c [? _]%andb_true_iff.
  - eapply string_forallb_in_string; [exact Hs|done].
  - eapply string_forallb_impl; [|exact Hb]. by intros c [? _]%andb_true_iff.
  - eapply string_forallb_impl; [|exact Hb]. by intros c [_ ?]%andb_true_iff.
  - split; [|by intros b' Hb'; apply Hf; right]. intros s' Hs'. apply Ht.
    cbn. rewrite !elem_of_cons in *. tauto.
Qed.

Lemma replace_template l tail :
  plain_template l tail → ReplaceBracketWithToString (template_text l tail) field_call = called_text l tail.
Proof.
  unfold ReplaceBracketWithToString. induction l as [|[s b] l IH]; cbn [template_text called_text].
  - intros [Ht _]. rewrite <-(string_app_nil_r tail), replace_paths_text; [cbn; by rewrite string_app_nil_r|].
    eapply string_forallb_impl; [|apply (Ht tail); by left]. by intros c [? _]%andb_true_iff.
  - intros (? & _ & ? & ? & _ & Hl)%plain_template_cons. rewrite replace_paths_text by done. f_equal.
    rewrite replace_paths_field, IH by done. unfold field_call. by rewrite !string_app_assoc.
Qed.

Lemma split_template l tail n :
  plain_template l tail → (length l <= n)%nat →
  split_calls n (called_text l tail) = ((λ m, (m.1, "._internal" +:+ m.2)) <$> l, tail).
Proof.
  revert n. induction l as [|[s b] l IH]; intros n Hp Hn.
  - destruct n as [|n]; [done|]. cbn [called_text split_calls]. rewrite find_call_none; [done|].
    eapply string_forallb_in_string; [apply (pt_texts _ _ Hp tail); by left|done].
  - destruct n as [|n]; [simpl in Hn; lia|]. apply plain_template_cons in Hp as (_ & ? & ? & _ & ? & Hl).
    cbn [called_text split_calls]. rewrite find_call_first; [|done| |].
    + rewrite IH by (done || (simpl in Hn; lia)). done.
    + by destruct b.
    + by rewrite string_forallb_app, andb_true_iff.
Qed.

Lemma called_text_length l tail : (length l <= String.length (called_text l tail))%nat.
Proof.
  induction l as [|[s b] l IH]; cbn [called_text length]; [lia|]. rewrite !string_app_length. cbn. lia.
Qed.

Lemma transformOriginal_template l tail :
  plain_template l tail → transformOriginal (template_text l tail) = template_expression l tail.
Proof.
  intros Hp. unfold transformOriginal. rewrite replace_template by done.
  rewrite split_template by (done || apply called_text_length).
  destruct l as [|[s b] l]; [done|]. cbn [fmap list_fmap template_expression]. f_equal.
  unfold template_parts. f_equal. rewrite fmap_cons. cbn [mjoin list_join fst snd]. f_equal.
  f_equal. rewrite <-list_fmap_compose. by apply list_fmap_ext.
Qed.

(** ** The templates the API admits *)

(** The pattern of a template: [q] is the class of what quotes may hold and [x] the class of
    texts beyond letters, digits and [-_./]. *)
Definition template_pattern (q x : ascii → bool) : regex :=
  let word := Plus (Char (λ c, is_alnum c || Ascii.eqb c "_")) in
  let quoted := Lit DQ ⋅ Plus (Char q) ⋅ Lit DQ in
  let path := Plus (Lit "." ⋅ word ∣ Lit "." ⋅ quoted) in
  let other := Lit "||" ⋅ Plus (Lit "." ⋅ word ∣ Opt (Lit ".") ⋅ quoted) in
  let dynamic := Lit "{" ⋅ (path ⋅ Star other ⋅ Lit "||" ⋅ Lit DQ ⋅ Star (Char q) ⋅ Lit DQ) ⋅ Lit "}" in
  Star (Star (Char (λ c, is_alnum c || in_string c "-_./" || x c)) ⋅ Star dynamic).

(** What the API lets quotes hold, and what the generator can read there. *)
Definition not_dquote (c : ascii) : bool := negb (Ascii.eqb c dquote).
Definition readable (c : ascii) : bool := not_dquote c && not_brace c && not_paren c.

(** All the bytes of an expression are of a class. *)
Fixpoint bytes_of (p : ascii → bool) (r : regex) : Prop :=
  match r with
  | Nothing | Eps => True
  | Char q => ∀ c, q c = true → p c = true
  | Seq r1 r2 | Alt r1 r2 => bytes_of p r1 ∧ bytes_of p r2
  | Star r => bytes_of p r
  end.

Lemma matches_bytes p r s : bytes_of p r → matches r s → string_forallb p s = true.
Proof.
  intros Hp Hm. induction Hm; cbn in *; rewrite ?string_forallb_app, ?andb_true_iff; naive_solver.
Qed.

Lemma template_text_app l tail l' tail' :
  template_text l tail +:+ template_text l' tail' =
  match l' with
  | [] => template_text l (tail +:+ tail')
  | (s, b) :: l' => template_text (l ++ (tail +:+ s, b) :: l') tail'
  end.
Proof.
  induction l as [|[s b] l IH]; cbn [app template_text].
  - destruct l' as [|[s' b'] l']; cbn [template_text]; by rewrite ?string_app_assoc.
  - rewrite !string_app_assoc, IH. by destruct l' as [|[s' b'] l'].
Qed.

(** Templates that follow one another are a template. *)
Lemma plain_template_app l tail l' tail' :
  plain_template l tail → plain_template l' tail' →
  ∃ l2 tail2, plain_template l2 tail2 ∧ template_text l tail +:+ template_text l' tail' = template_text l2 tail2.
Proof.
  intros [Ht Hf] [Ht' Hf']. rewrite template_text_app. destruct l' as [|[s b] l'].
  - eexists _, _. split; [|done]. split; [|done]. intros s. rewrite elem_of_cons.
    intros [->|?]; [|apply Ht; by right]. rewrite string_forallb_app, Ht, Ht'; [done|by left..].
  - eexists _, _. split; [|done]. split.
    + intros s'. rewrite fmap_app, elem_of_cons, elem_of_app, fmap_cons, elem_of_cons. cbn [fst].
      intros [->|[?|[->|?]]]; [apply Ht'; by left|apply Ht; by right| |apply Ht'; cbn; rewrite !elem_of_cons; tauto].
      rewrite string_forallb_app, Ht, Ht'; [done|cbn; rewrite !elem_of_cons; tauto|by left].
    + intros b'. rewrite fmap_app, elem_of_app, fmap_cons. intros [?|?]; [by apply Hf|by apply Hf'].
Qed.

(** An expression all of whose texts are plain templates, any number of times. *)
Definition plain_expr (r : regex) : Prop :=
  ∀ t, matches r t → ∃ l tail, plain_template l tail ∧ t = template_text l tail.

Lemma plain_expr_Star r : plain_expr r → plain_expr (Star r).
Proof.
  intros Hr t Hm. remember (Star r) as r' eqn:E.
  induction Hm as [| | | | |r0|r0 s1 s2 H1 _ H2 IH2]; try done.
  - exists [], "". split; [|done]. split; cbn; intros ?; rewrite ?elem_of_cons, elem_of_nil; [by intros [->|[]]|done].
  - injection E as ->. destruct (Hr s1 H1) as (l & tail & Hp & ->).
    destruct (IH2 eq_refl) as (l' & tail' & Hp' & ->).
    destruct (plain_template_app _ _ _ _ Hp Hp') as (l2 & tail2 & ? & ->). by exists l2, tail2.
Qed.

Lemma plain_expr_Seq r1 r2 : plain_expr r1 → plain_expr r2 → plain_expr (Seq r1 r2).
Proof.
  intros H1 H2 t (s1 & s2 & -> & (l & tail & Hp & ->)%H1 & (l' & tail' & Hp' & ->)%H2)%matches_seq_inv.
  destruct (plain_template_app _ _ _ _ Hp Hp') as (l2 & tail2 & ? & ->). by exists l2, tail2.
Qed.

Lemma admitted_plain x :
  (∀ c, x c = true → not_brace c = true ∧ Ascii.eqb c "(" = false) → plain_expr (template_pattern readable x).
Proof.
  intros Hx. apply plain_expr_Star, plain_expr_Seq.
  - apply plain_expr_Star. intros t (c & -> & Hc)%matches_char_inv. exists [], (String c ""). split; [|done].
    split; [|by intros ? ?%elem_of_nil]. intros s. cbn [fmap list_fmap].
    rewrite elem_of_cons, elem_of_nil. intros [->|[]]. cbn [string_forallb].
    assert (not_brace c = true ∧ Ascii.eqb c "(" = false) as [-> ->]; [|done].
    apply orb_true_iff in Hc as [Hc|Hc]; [|by apply Hx]. revert Hc. clear.
    destruct c as [[] [] [] [] [] [] [] []]; by vm_compute.
  - apply plain_expr_Star. intros t (? & t' & -> & ->%matches_Lit & (b & ? & -> & Hb & ->%matches_Lit)%matches_seq_inv)%matches_seq_inv.
    exists [("", b)], "". split; [|by cbn; rewrite ?string_app_nil_r]. split; cbn; intros s.
    + rewrite !elem_of_cons, elem_of_nil. by intros [->|[->|[]]].
    + rewrite elem_of_cons, elem_of_nil. intros [->|[]]. split.
      * apply matches_seq_inv in Hb as (s1 & s2 & -> & Hs1 & _). intros [-> _]%string_app_eq_nil.
        apply nullable_spec in Hs1. by vm_compute in Hs1.
      * eapply matches_bytes; [|exact Hb]. clear. unfold readable. cbn. split_and!; try done;
          intros [[] [] [] [] [] [] [] []]; by vm_compute.
Qed.

(** ** A template cannot end the literal of its program *)

Lemma scan_sep k s c t : Ascii.eqb "'" c = false → scan k (s +:+ String c t) = scan k s || scan 0 t.
Proof.
  intros Hc. revert k. induction s as [|d s IH]; intros k; cbn [String.append scan]; [by rewrite Hc|].
  destruct (Ascii.eqb "'" d); rewrite IH; [by rewrite orb_assoc|done].
Qed.

Lemma scan_app k s t : scan k s = false → (∀ k', scan k' t = false) → scan k (s +:+ t) = false.
Proof.
  intros Hs Ht. revert k Hs. induction s as [|c s IH]; intros k; [by intros _|]. cbn [String.append scan].
  destruct (Ascii.eqb "'" c); [|by apply IH]. intros [-> Hs]%orb_false_iff. by apply IH.
Qed.

Lemma scan_contained k s : (k <= 2)%nat → scan k s = false → contained s.
Proof.
  intros Hk. destruct (scan_prefix s) as (H2 & H1 & H0). unfold contained, literalMultilineTerminator in *.
  destruct k as [|[|[|k]]]; [| | |lia]; rewrite ?H2, ?H1, ?H0; rewrite ?orb_false_iff; tauto.
Qed.

Lemma contained_app_inv s t : contained (s +:+ t) → contained s ∧ contained t.
Proof.
  unfold contained. rewrite <-!not_true_iff_false. intros Hc. split; intros ?; apply Hc;
    [by apply Contains_app_l|by apply Contains_app_r].
Qed.

(** A replacement of a field that starts with another byte than a quote and keeps the text. *)
Definition keeps_field (f : string → string) : Prop :=
  ∀ b r k, contained b → scan k (f b +:+ r) = scan 0 r.

Lemma field_call_keeps : keeps_field field_call.
Proof.
  intros b r k Hb. unfold field_call. rewrite !string_app_assoc, scan_skip by done.
  change ("._internal" +:+ b +:+ ")" +:+ r) with ("._internal" +:+ (b +:+ String ")" r)).
  rewrite scan_skip, scan_sep by done. by rewrite (proj1 (contained_scan b) Hb).
Qed.

Lemma replace_paths_scan f s : keeps_field f →
  (∀ k, (k <= 2)%nat → scan k s = false → scan k (replace_paths f None s) = false) ∧
  (∀ b, scan 0 (b +:+ s) = false → ∀ k, scan k (replace_paths f (Some b) s) = false).
Proof.
  intros Hf. induction s as [|c s [IHn IHs]]; split.
  - done.
  - intros b Hb k. rewrite string_app_nil_r in Hb. cbn [replace_paths]. by rewrite scan_skip.
  - intros k Hk. cbn [replace_paths]. destruct (Ascii.eqb_spec c "{") as [->|_].
    + intros Hs. by apply IHs.
    + cbn [scan]. destruct (Ascii.eqb "'" c).
      * intros [Hk2 Hs]%orb_false_iff. rewrite Hk2. apply IHn; [apply Nat.eqb_neq in Hk2; lia|done].
      * intros Hs. apply IHn; [lia|done].
  - intros b Hb k. cbn [replace_paths]. destruct (Ascii.eqb_spec c "{") as [->|_].
    + rewrite scan_sep in Hb by done. apply orb_false_iff in Hb as [Hb Hs]. rewrite scan_skip by done.
      apply scan_app; [done|]. by apply IHs.
    + destruct (Ascii.eqb_spec c "}") as [->|_].
      * rewrite scan_sep in Hb by done. apply orb_false_iff in Hb as [Hb Hs].
        destruct (b == ""); [rewrite scan_skip by done|rewrite Hf by by apply contained_scan]; apply IHn; auto with lia.
      * apply IHs. by rewrite string_app_assoc.
Qed.

Lemma replace_paths_contained f s : keeps_field f → contained s → contained (replace_paths f None s).
Proof. rewrite !contained_scan. intros Hf. apply replace_paths_scan; [done|lia]. Qed.

Lemma split_calls_contained n s m :
  contained s → contained (split_calls n s).2 ∧ (m ∈ (split_calls n s).1 → contained m.1 ∧ contained m.2).
Proof.
  revert s. induction n as [|n IH]; intros s Hs; cbn [split_calls]; [split; [done|by intros ?%elem_of_nil]|].
  destruct (find_call s) as [[[a b] r]|] eqn:E; [|split; [done|by intros ?%elem_of_nil]].
  apply find_call_sound in E as ->.
  apply contained_app_inv in Hs as [Ha [_ [Hb [_ Hr]%contained_app_inv]%contained_app_inv]%contained_app_inv].
  destruct (IH r Hr) as [H2 H1]. destruct (split_calls n r) as [l tail]. cbn [fst snd] in *. split; [done|].
  rewrite elem_of_cons. by intros [->|?]; [|apply H1].
Qed.

Lemma quoted_part_contained s x : contained s → x ∈ quoted_part s → contained x.
Proof.
  intros Hs. unfold quoted_part. destruct (s != ""); [|by intros ?%elem_of_nil].
  intros ->%list_elem_of_singleton. by apply inert_Quote.
Qed.

Lemma contained_skip p s : p ≠ "" → in_string "'" p = false → contained s → contained (p +:+ s).
Proof. rewrite !contained_scan. intros. by rewrite scan_skip. Qed.

Lemma Join_plus_contained l : (∀ x, x ∈ l → contained x) → contained (Join l " + ").
Proof. by apply contained_Join. Qed.

Lemma transformOriginal_contained s : contained s → contained (transformOriginal s).
Proof.
  intros Hs. unfold transformOriginal.
  pose proof (replace_paths_contained field_call s field_call_keeps Hs) as Hr. unfold ReplaceBracketWithToString.
  set (n := String.length _). pose proof (split_calls_contained n (replace_paths field_call None s)) as Hp.
  destruct (split_calls n _) as [l tail]. cbn [fst snd] in Hp.
  assert (contained (Quote s)) as Hq by by apply inert_Quote.
  destruct l as [|m l]; [done|]. apply Join_plus_contained. intros x [(ps & Hx & Hps)%list_elem_of_join|Hx]%elem_of_app.
  - apply list_elem_of_fmap in Hps as (m' & -> & Hm'). destruct (proj2 (Hp m' Hr) Hm') as [H1 H2].
    apply elem_of_app in Hx as [Hx|Hx]; [by apply (quoted_part_contained m'.1)|]. apply list_elem_of_singleton in Hx. subst x.
    apply contained_skip; [done..|]. by apply contained_app_right.
  - apply (quoted_part_contained tail); [|done]. by destruct (Hp m Hr).
Qed.

(** ** Templates with time stamps *)

(** A match takes a part of the text and gives a text that does not start with a quote. *)
Definition keeps_match (m : string → option (string * nat)) : Prop :=
  ∀ s new len, m s = Some (new, len) → contained s →
    ∃ d r, s = d +:+ r ∧ String.length d = len ∧ d ≠ "" ∧ ∀ t k, scan k (new +:+ t) = scan 0 t.

Lemma replace_matches_skip m d r : replace_matches m (String.length d) (d +:+ r) = replace_matches m 0 r.
Proof. by induction d as [|c d IH]. Qed.

Lemma replace_matches_scan m n : keeps_match m → ∀ s k,
  (String.length s <= n)%nat → (k <= 2)%nat → scan k s = false → scan k (replace_matches m 0 s) = false.
Proof.
  intros Hm. induction n as [|n IH]; intros s k Hn Hk Hs; [by destruct s; [|simpl in Hn; lia]|].
  pose proof (scan_contained k s Hk Hs) as Hc. destruct s as [|c s]; [done|]. cbn [replace_matches].
  destruct (m (String c s)) as [[new len]|] eqn:E.
  - destruct (Hm _ _ _ E Hc) as (d & r & Ed & <- & Hd & Hnew). destruct d as [|c' d]; [done|].
    injection Ed as -> ->. cbn [String.length pred]. rewrite Hnew, replace_matches_skip.
    cbn [String.length] in Hn. rewrite string_app_length in Hn. apply IH; [lia|lia|].
    apply contained_scan. change (String c' (d +:+ r)) with (String c' d +:+ r) in Hc.
    by apply contained_app_inv in Hc as [_ ?].
  - cbn [String.length] in Hn. cbn [scan] in *. destruct (Ascii.eqb "'" c).
    + apply orb_false_iff in Hs as [Hk2 Hs]. rewrite Hk2. apply IH; [lia|apply Nat.eqb_neq in Hk2; lia|done].
    + apply IH; [lia|lia|done].
Qed.

Lemma format_timestamp_keeps fmt t k : contained fmt → scan k (format_timestamp fmt +:+ t) = scan 0 t.
Proof.
  intros Hf. unfold format_timestamp. rewrite !string_app_assoc, scan_skip by done.
  change (".timestamp || now(), format: " +:+ DQ +:+ fmt +:+ DQ +:+ ")" +:+ t)
    with ((".timestamp || now(), format: " +:+ DQ) +:+ (fmt +:+ String dquote (")" +:+ t))).
  rewrite scan_skip, scan_sep by done. rewrite (proj1 (contained_scan fmt) Hf). by rewrite scan_skip.
Qed.

Lemma timestamp_pattern_keeps k m : timestampPatterns !! k = Some m → keeps_match m.
Proof.
  intros [[= _ ->]|Hm]%map_of_assignments_elem%elem_of_cons.
  - intros s new len. unfold strftime_match.
    destruct (CutPrefix s strftime_prefix) as [t|] eqn:E; [|done]. apply CutPrefix_spec in E as ->.
    destruct (span_spec (λ c, negb (Ascii.eqb c dquote)) t) as (Et & _ & _).
    destruct (span _ t) as [fmt rest]. cbn [fst snd] in Et. subst t.
    destruct (fmt != ""); [|done]. destruct (HasPrefix rest (DQ +:+ "}")) eqn:Er; [|done].
    apply HasPrefix_spec in Er as (r & ->). intros [= <- <-] Hc.
    exists (strftime_prefix +:+ fmt +:+ DQ +:+ "}"), r. split_and!.
    + by rewrite !string_app_assoc.
    + rewrite !string_app_length. cbn. lia.
    + done.
    + intros t k'. apply format_timestamp_keeps. by apply contained_app_inv in Hc as [_ [? _]%contained_app_inv].
  - apply list_elem_of_fmap in Hm as ([n fmt] & [= _ ->] & Hn). intros s new len. unfold literal_match.
    destruct (HasPrefix _ _) eqn:E; [|done]. apply HasPrefix_spec in E as (r & ->). intros [= <- <-] _.
    exists ("{@timestamp|" +:+ n +:+ "}"), r. split_and!; [done..|].
    intros t k'. apply format_timestamp_keeps. revert Hn. clear.
    rewrite !elem_of_cons, elem_of_nil.
    intros Hn; repeat destruct Hn as [[= _ ->]|Hn]; try by vm_compute.
Qed.

Lemma timestamp_parts_contained n s x : contained s → x ∈ timestamp_parts n s → contained x.
Proof.
  revert s. induction n as [|n IH]; intros s Hs; cbn [timestamp_parts]; [by intros ?%elem_of_nil|].
  unfold timestamp_round. destruct (s == ""); [by intros ?%elem_of_nil|].
  assert (∀ prefix a b, prefix ≠ "" → in_string "'" prefix = false → s = a +:+ prefix +:+ b →
    x ∈ (let '(call, rest) := findMatchingParen 1 false false b in
         quoted_part a ++ [prefix +:+ call] ++ timestamp_parts n rest) → contained x) as Hcall.
  { intros prefix a b Hne Hp ->. apply contained_app_inv in Hs as [Ha [_ Hb]%contained_app_inv].
    rewrite (findMatchingParen_parts b 1 false false) in Hb. apply contained_app_inv in Hb as [H1 H2].
    destruct (findMatchingParen 1 false false b) as [call rest]. cbn [fst snd] in *.
    rewrite !elem_of_app, list_elem_of_singleton. intros [?|[->|?]].
    - by apply (quoted_part_contained a).
    - by apply contained_skip.
    - by apply (IH rest). }
  destruct (cut s to_string_call) as [[a b]|] eqn:E; [by eapply Hcall, cut_spec|]. clear E.
  destruct (cut s format_timestamp_call) as [[a b]|] eqn:E; [by eapply Hcall, cut_spec|].
  by apply quoted_part_contained.
Qed.

Section contained.
Context `{RangeOrder}.

Lemma transformWithTimestampSupport_contained s : contained s → contained (transformWithTimestampSupport s).
Proof.
  intros Hs. unfold transformWithTimestampSupport.
  assert (contained (foldl (λ result kv, replace_matches kv.2 0 result) s (range timestampPatterns))) as Hfold.
  { assert (∀ kv, kv ∈ range timestampPatterns → keeps_match kv.2) as Hk.
    { intros [k m]. rewrite range_perm, elem_of_map_to_list. by apply timestamp_pattern_keeps. }
    revert s Hs Hk. generalize (range timestampPatterns) as l. induction l as [|kv l IH]; intros s Hs Hk; [done|].
    apply forall_cons_iff in Hk as [Hkv Hk]. cbn [foldl]. apply IH; [|done].
    apply contained_scan. by apply (replace_matches_scan _ (String.length s)); [..|lia|apply contained_scan]. }
  set (result := foldl _ _ _) in *. set (f := λ b : string, _). set (text := replace_paths f None result).
  assert (contained text) as Htext.
  { apply replace_paths_contained; [|done]. intros b r k Hb. unfold f. case_match; [|by apply field_call_keeps].
    rewrite !string_app_assoc, scan_skip by done. change ("}" +:+ r) with (String "}" r).
    rewrite scan_sep by done. by rewrite (proj1 (contained_scan b) Hb). }
  destruct (length _ =? 0)%nat; [by apply inert_Quote|]. apply Join_plus_contained.
  intros x. by apply timestamp_parts_contained.
Qed.

Lemma TransformUserTemplateToVRL_contained s : contained s → contained (TransformUserTemplateToVRL s).
Proof.
  intros Hs. unfold TransformUserTemplateToVRL.
  destruct (Contains s "@timestamp|"); [by apply transformWithTimestampSupport_contained|by apply transformOriginal_contained].
Qed.

(** C27. The templates of users.  A template that the API admits, without the text
    [@timestamp|] and whose quotes hold no brace and no closing parenthesis, is texts and
    fields in turn, and its expression joins these: each text as a literal, each field as a
    conversion to a string, nothing for an empty text.  With a brace or a closing
    parenthesis in quotes it need not be: for each of the three there is a template the API
    admits whose expression is another one; an opening parenthesis does no harm.  No
    template can end the literal its program is written in if its text cannot. *)
Theorem TransformUserTemplateToVRL_correct :
  (∀ x t, (∀ c, x c = true → not_brace c = true ∧ Ascii.eqb c "(" = false) →
    matches (template_pattern readable x) t → Contains t "@timestamp|" = false →
    ∃ l tail, t = template_text l tail ∧ TransformUserTemplateToVRL t = template_expression l tail) ∧
  Forall (λ c, readable c = false ∧ ∃ b tail, b = raw ".a||`x" +:+ String c (raw "y`") ∧
      matches (template_pattern not_dquote (λ _, false)) (template_text [("", b)] tail) ∧
      Contains (template_text [("", b)] tail) "@timestamp|" = false ∧
      TransformUserTemplateToVRL (template_text [("", b)] tail) ≠ template_expression [("", b)] tail)
    ["{"; "}"; ")"]%char ∧
  (readable "(" = true) ∧
  (∀ s, contained s → contained (TransformUserTemplateToVRL s)).
Proof.
  split_and!; [| |done|exact TransformUserTemplateToVRL_contained].
  - intros x t Hx (l & tail & Hp & ->)%(admitted_plain x Hx) Ht. exists l, tail. split; [done|].
    unfold TransformUserTemplateToVRL. rewrite Ht. by apply transformOriginal_template.
  - repeat (apply Forall_cons_2;
      [split; [by vm_compute|]; eexists _, "-z"; split; [reflexivity|];
       rewrite <-fullmatch_spec; split_and!; by vm_compute|]).
    apply Forall_nil_2.
Qed.
End contained.

Lemma TransformUserTemplateToVRL_correct_witness :
  matches (template_pattern readable (λ _, false)) (raw "app-{.log_type||`none`}") ∧
  ∃ l tail, raw "app-{.log_type||`none`}" = template_text l tail ∧
    @TransformUserTemplateToVRL canonical_order (raw "app-{.log_type||`none`}") = template_expression l tail.
Proof.
  assert (matches (template_pattern readable (λ _, false)) (raw "app-{.log_type||`none`}")) as Hm.
  { apply fullmatch_spec. by vm_compute. }
  split; [exact Hm|].
  apply (proj1 (@TransformUserTemplateToVRL_correct canonical_order) (λ _, false)); [done|exact Hm|by vm_compute].
Defined.
