(* ===== verification/FilterVRL.v ===== *)
(** * Programs of the filters ([internal/generator/vector/filter])

    What each filter of a spec becomes in the collector's configuration: the files
    [drop/filter.go], [prune/filter.go] and [prune.vrl.tmpl], [apiaudit/filter.go],
    [wildcard.go] and [policy.vrl.tmpl], [openshift/labels.go], [parse/parse_json.go],
    [multilineexception/filter.go] and [filter.go].  How [time.Parse] reads the forms
    of time stamps the validation does not accept is a parameter. *)

From S2P Require Import Prelude GoStrings Regex GoTime ApiCommon ApiFilters Toml Transforms.
From S2P Require Import VrlText ValidateCommon ValidateFilters VectorHelpers.

(** ** Drop filters *)

Section drop.
Context (parse_other : string → option instant).

Definition buildMatchCondition (field pattern : string) (negate : bool) : option string :=
  if ContainsAny pattern ("'" +:+ LF +:+ CR) then None
  else
    let prefix := if negate then "!" else "" in
    Some (prefix +:+ "match(to_string(" +:+ field +:+ raw ") ?? ``, r'" +:+ pattern +:+ "')").

(** [time.Parse(time.RFC3339Nano, value)] *)
Definition parse_timestamp (value : string) : option instant :=
  if fullmatch rfc3339Timestamp value then instant_RFC3339_matched value else parse_other value.

Definition normalizeOlderThan (value : string) : option string :=
  match parse_DateOnly value with
  | Some date => Some (Format_RFC3339Nano (date_instant date))
  | None => Format_RFC3339Nano <$> parse_timestamp value
  end.

Definition buildOlderThanCondition (olderThan : string) : option string :=
  cutoff ← normalizeOlderThan olderThan;
  Some (raw "((parse_timestamp(to_string(.timestamp) ?? ``, `%+`) < t'" +:+ cutoff +:+ "') ?? false)").

Definition condition_VRL (cond : DropCondition) : option string :=
  if dc_OlderThan cond != "" then buildOlderThanCondition (dc_OlderThan cond)
  else
    let field := "._internal" +:+ dc_Field cond in
    if dc_Matches cond != "" then buildMatchCondition field (dc_Matches cond) false
    else buildMatchCondition field (dc_NotMatches cond) true.

Definition test_VRL (test : DropTest) : option string :=
  condList ← mapM condition_VRL (dt_DropConditions test);
  Some ("(" +:+ Join condList " && " +:+ ")").

(** [None] is the error. *)
Definition drop_VRL (tests : list DropTest) : option string :=
  vrlTests ← mapM test_VRL tests;
  Some ("!(" +:+ Join vrlTests " || " +:+ ")").

Definition drop_New (spec : list DropTest) (inputs : list string) : Transform :=
  match drop_VRL spec with
  | None => None
  | Some vrl => Some (TFilter (Some (NewFilter vrl inputs)))
  end.
End drop.

(** ** Prune filters *)

Definition dedottedFields : list string := [".kubernetes.labels."; ".kubernetes.namespace_labels."].

(** The functions [splitPath] and [quotePathSegments] of this package are those of
    [internal/generator/vector/helpers] word for word. *)
Definition quoted (path : FieldPath) : string :=
  "[" +:+ Join (QuotePathSegments (SplitPath path)) "," +:+ "]".

(** The path again with the label as the collector names it. *)
Definition dedotted (fieldPath : FieldPath) (d : string) : list string :=
  match CutPrefix fieldPath d with
  | Some label =>
      if ContainsAny label "/."
      then [quoted (d +:+ ReplaceAll (ReplaceAll label "." "_") "/" "_")] else []
  | None => []
  end.

Definition generateQuotedPathSegmentArrayStr (fieldPathArray : list FieldPath) : string :=
  "[" +:+ Join (fieldPath ← fieldPathArray; quoted fieldPath :: (d ← dedottedFields; dedotted fieldPath d)) ","
    +:+ "]".

Definition not_in_program (notIn : string) : string :=
  "
notIn = " +:+ notIn +:+ "

# Prune keys not in notIn list
new_object = {}
for_each(notIn) -> |_index, pathSeg| {
    val = get(., pathSeg) ?? null
    if !is_null(val) {
        new_object = set!(new_object, pathSeg, val)
    }
}
. = new_object
".

Definition in_program (paths : string) : string :=
  "
in = " +:+ paths +:+ "

# Remove keys from in list
for_each(in) -> |_index, val| {
    . = remove!(., val)
}
".

Definition PruneVRLTemplate (paths notIn : string) : string :=
  (if notIn != "" then not_in_program notIn else "") +:+ (if paths != "" then in_program paths else "").

Definition prune_VRL (f : PruneFilterSpec) : string :=
  let notIn := match prune_NotIn f with
               | Some l => generateQuotedPathSegmentArrayStr (l ++ ["._internal"])
               | None => ""
               end in
  let paths := match prune_In f with
               | Some l => generateQuotedPathSegmentArrayStr l
               | None => ""
               end in
  PruneVRLTemplate paths notIn.

(** The spec is read through its pointer. *)
Definition prune_New (spec : option PruneFilterSpec) (inputs : list string) : outcome Remap :=
  f ← deref spec; Ret (NewRemap (prune_VRL f) inputs).

(** ** Audit policies *)

Definition DefaultOmitResponseCodes : list Z := [404; 409; 422; 429]%Z.

(** The escape of a byte in [regexp.QuoteMeta]. *)
Definition meta_byte (c : ascii) : string :=
  if in_string c "\.+*?()|[]{}^$" then "\" +:+ String c "" else String c "".
Definition QuoteMeta (s : string) : string := map_bytes meta_byte s.

Definition drop_last (s : string) : string := take_bytes (String.length s - 1) s.

Definition wildcardRegexp (wildcard : string) : string :=
  let '(lead, wildcard) :=
    match CutPrefix wildcard "*" with Some rest => (".*", rest) | None => ("", wildcard) end in
  lead +:+ (if HasSuffix wildcard "*" then QuoteMeta (drop_last wildcard) +:+ ".*" else QuoteMeta wildcard).

Definition anyWildcardRegexp (wildcards : list string) (suffix : string) : string :=
  "r'^(" +:+ Join (wildcardRegexp <$> wildcards) "|" +:+ ")" +:+ suffix +:+ "$'".

Definition matchAny (wildcards : list string) : string := anyWildcardRegexp wildcards "".
Definition matchAnyPath (wildcards : list string) : string := anyWildcardRegexp wildcards "(\?.*)?".

(** [with] on a list: the text is written when there is an element. *)
Definition with_list {A} (l : list A) (text : list A → string) : string :=
  match l with [] => "" | _ => text l end.

Definition groupResource (gr : GroupResources) : string :=
  (if gr_Group gr != "" then raw ".objectRef.apiGroup == `" +:+ gr_Group gr +:+ raw "`"
   else raw "(is_null(.objectRef.apiGroup) || string!(.objectRef.apiGroup) == ``)")
  +:+ with_list (gr_ResourceNames gr) (λ l, raw " && match(string(.objectRef.name)??``, " +:+ matchAny l +:+ ")")
  +:+ with_list (gr_Resources gr) (λ l, " && match(res, " +:+ matchAny l +:+ ")").

Definition rule_condition (r : PolicyRule) : string :=
  with_list (rule_Verbs r) (λ l, "includes(" +:+ json_strings l +:+ ", .verb) && ")
  +:+ with_list (rule_Users r) (λ l, raw "username != `` && match(username, " +:+ matchAny l +:+ ") && ")
  +:+ with_list (rule_UserGroups r) (λ l,
        "!is_null(.user.groups) && match_array(array!(.user.groups), " +:+ matchAny l +:+ ") && ")
  +:+ with_list (rule_Namespaces r) (λ l,
        raw "namespace != `` && match(namespace, " +:+ matchAny l +:+ ") && ")
  +:+ with_list (rule_NonResourceURLs r) (λ l,
        ".objectRef == null && !is_null(.requestURI) && match(string!(.requestURI), "
          +:+ matchAnyPath l +:+ ") && ")
  +:+ with_list (rule_Resources r) (λ l,
        "(" +:+ Join ((λ gr, "(" +:+ groupResource gr +:+ ")") <$> l) " || " +:+ ") && ").

Definition rule_program (r : PolicyRule) : string :=
  "if (" +:+ rule_condition r +:+ raw "true) {
    .level = `" +:+ rule_Level r +:+ raw "`"
  +:+ with_list (rule_OmitStages r) (λ l, LF +:+ "    if includes(" +:+ json_strings l
        +:+ raw ", .stage) { .level = `None` }")
  +:+ (match rule_OmitManagedFields r with
       | Some b => LF +:+ "    omit_managed = " +:+ (if b : bool then "true" else "false")
       | None => ""
       end)
  +:+ LF +:+ "  } else ".

Definition policy_head : string := raw "if is_string(.auditID) && is_string(.verb) {
  res = if is_null(.objectRef.resource) { `` } else { string!(.objectRef.resource) }
  sub = if is_null(.objectRef.subresource) { `` } else { string!(.objectRef.subresource) }
  namespace = if is_null(.objectRef.namespace) { `` } else { string!(.objectRef.namespace) }
  username = if is_null(.user.username) { `` } else { string!(.user.username) }
  if sub != `` { res = res + `/` + sub }
  omit_managed = false
  ".

Definition policy_tail : string := raw "{
    # No rule matched, apply default rules for system events.
    if match(username, r'^$|^system:.*') { # System events
      readonly = r'get|list|watch|head|options'
      if match(string!(.verb), readonly) {
	.level = `None` # Drop read-only system events.
      } else if ((int(.responseStatus.code) < 300 ?? true) && starts_with(username, `system:serviceaccount:`+namespace)) {
	.level = `None` # Drop write events by service account for same namespace as resource or for non-namespaced resource.
      }
      if .level == `RequestResponse` {
	.level = `Request` # Downgrade RequestResponse system events.
      }
    }
  }
  # Update the event
  if .level == `None` {
    abort
  } else {
    if .level == `Metadata` {
      del(.responseObject)
      del(.requestObject)
    } else if .level == `Request` {
      del(.responseObject)
    }
    # Omit managed fields if requested
    if omit_managed {
      del(.metadata.managedFields)
      del(.requestObject.metadata.managedFields)
      del(.responseObject.metadata.managedFields)
    }
  }
}".

Definition policyVRLTemplate (omitStages : list string) (omitResponseCodes : list Z)
    (rules : list PolicyRule) : string :=
  policy_head
  +:+ with_list omitStages (λ l, "if includes(" +:+ json_strings l
        +:+ raw ", .stage) { # Policy OmitStages
    .level = `None`
  } else ")
  +:+ "if includes(" +:+ json_ints omitResponseCodes
  +:+ raw ", .responseStatus.code) { # Omit by response code.
    .level = `None`
  } else "
  +:+ Join (rule_program <$> rules) ""
  +:+ policy_tail.

(** The default codes are written into the policy of the spec; a missing policy is
    empty.  The program and the policy it leaves behind. *)
Definition apiaudit_VRL (p : option KubeAPIAudit) : string * KubeAPIAudit :=
  let p := default {| kaa_Rules := []; kaa_OmitStages := []; kaa_OmitResponseCodes := None |} p in
  let codes := default DefaultOmitResponseCodes (kaa_OmitResponseCodes p) in
  (policyVRLTemplate (kaa_OmitStages p) codes (kaa_Rules p),
   {| kaa_Rules := kaa_Rules p; kaa_OmitStages := kaa_OmitStages p;
      kaa_OmitResponseCodes := Some codes |}).

Definition apiaudit_New (spec : option KubeAPIAudit) (inputs : list string) : Remap := NewRemap (apiaudit_VRL spec).1 inputs.

(** ** Labels, parsing and stack traces *)

(** A nil pointer when there is no label. *)
Definition labels_New (labels : gmap string string) (inputs : list string) : option Remap :=
  if (size labels =? 0)%nat then None
  else Some (NewRemap ("._internal.openshift.labels = .openshift.labels = " +:+ json_map labels) inputs).

Definition parse_New (inputs : list string) : Remap := NewRemap (raw "
	if ._internal.log_source == `container` {
		parsed, err = parse_json(._internal.message)
		if err == null {
			._internal.structured = parsed
		}
	}
") inputs.

Definition multiline_New (inputs : list string) : DetectExceptions :=
  let de := NewDetectExceptions [LanguageTypeAll] inputs in {|
  de_Type := de_Type de; de_Inputs := de_Inputs de; de_Languages := de_Languages de;
  de_GroupBy := ["._internal.kubernetes.namespace_name"; "._internal.kubernetes.pod_name";
    "._internal.kubernetes.container_name"; "._internal.kubernetes.pod_id";
    "._internal.kubernetes.io_stream"];
  de_ExpireAfterMs := 2000; de_MultilineFlushIntervalMs := 1000;
  de_MessageKey := "._internal.message" |}.

(** ** The factories of the filters of a spec *)

Definition FilterFactory := list string → outcome Transform.

(** The factory [NewInternalFilterMap] gives a filter; the nil function panics when it
    is called. *)
Definition filter_factory (parse_other : string → option instant) (f : FilterSpec) : FilterFactory :=
  λ inputs,
  if filter_Type f == FilterTypeOpenshiftLabels then
    Ret (Some (TRemap (labels_New (filter_OpenshiftLabels f) inputs)))
  else if filter_Type f == FilterTypeDrop then
    Ret (drop_New parse_other (filter_DropTestsSpec f) inputs)
  else if filter_Type f == FilterTypePrune then
    r ← prune_New (filter_PruneFilterSpec f) inputs; Ret (Some (TRemap (Some r)))
  else if filter_Type f == FilterTypeKubeAPIAudit then
    Ret (Some (TRemap (Some (apiaudit_New (filter_KubeAPIAudit f) inputs))))
  else if filter_Type f == FilterTypeParse then
    Ret (Some (TRemap (Some (parse_New inputs))))
  else if filter_Type f == FilterTypeDetectMultiline then
    Ret (Some (TDetectExceptions (Some (multiline_New inputs))))
  else Panic "nil dereference".

Record InternalFilterSpec := {
  if_FilterSpec : FilterSpec;
  if_Factory : FilterFactory;
}.

(** The map is built from the filters by name. *)
Definition NewInternalFilterMap `{RangeOrder} (parse_other : string → option instant)
    (filters : gmap string FilterSpec) : gmap string InternalFilterSpec :=
  map_of_assignments ((λ kv, (filter_Name kv.2,
    {| if_FilterSpec := kv.2; if_Factory := filter_factory parse_other kv.2 |})) <$> range filters).

(** ** Programs of validated filters *)

Lemma toml_safe_contained s : toml_safe s → contained s.
Proof. by intros [? _]. Qed.

(** *** Drop filters *)

Section drop.
Context (parse_other : string → option instant).

(** The instant a time stamp of a drop test names. *)
Definition denotes (value : string) (t : instant) : Prop :=
  match parse_DateOnly value with
  | Some date => t = date_instant date
  | None => instant_RFC3339_matched value = Some t
  end.

Lemma older_than_denotes v :
  older_than_ok v → ∃ t, denotes v t ∧
    normalizeOlderThan parse_other v = Some (Format_RFC3339Nano t).
Proof.
  unfold normalizeOlderThan, denotes, parse_timestamp.
  destruct (parse_DateOnly v) as [d|] eqn:E; [by eauto|].
  intros [[? ?]|[Hm Hp]]; [congruence|].
  destruct (instant_RFC3339_matched_Some v Hm Hp) as [t Ht].
  rewrite (proj2 (fullmatch_spec _ _) Hm), Ht. by exists t.
Qed.

Lemma pad_free w n : (0 <= n)%Z → in_string "'" (pad w n) = false.
Proof. intros Hn. eapply string_forallb_in_string; [by apply pad_digits|done]. Qed.

Lemma appendInt_free x w : in_string "'" (appendInt x w) = false.
Proof.
  unfold appendInt. rewrite in_string_app. apply orb_false_iff. split; [by case_match|].
  cbn zeta. case_match; [apply pad_free; lia|apply Itoa_free].
Qed.

Lemma Format_free t : (0 <= unix_nsec t)%Z → in_string "'" (Format_RFC3339Nano t) = false.
Proof.
  intros Hn. unfold Format_RFC3339Nano. destruct (civil_from_days _) as [[y m] d].
  rewrite !in_string_app, !appendInt_free. cbn [orb in_string Ascii.eqb Bool.eqb].
  unfold format_fraction. pose proof (trim_zeros_digits _ (pad_digits 9 _ Hn)) as Hd.
  rewrite orb_false_r. destruct (trim_zeros _) as [|c ds]; [done|].
  rewrite in_string_app. by rewrite (string_forallb_in_string _ _ "'" Hd).
Qed.

Lemma fraction_nonneg k s : (0 <= fraction k s)%Z.
Proof.
  revert s. induction k as [|k IH]; intros [|c s]; cbn [fraction]; try lia.
  specialize (IH s). lia.
Qed.

Lemma denotes_nsec v t : denotes v t → (0 <= unix_nsec t)%Z.
Proof.
  unfold denotes. destruct (parse_DateOnly v); [by intros ->|].
  unfold instant_RFC3339_matched, read_fraction.
  intros ([d r] & _ & (s & _ & ([c r'] & _ & H)%bind_Some)%bind_Some)%bind_Some. cbn [snd] in H.
  set (p := match r' with String "." s => _ | _ => _ end) in H.
  assert (0 <= p.1)%Z as Hp.
  { subst p. destruct r' as [|[[] [] [] [] [] [] [] []] s']; try done.
    destruct (span_digits s') as [ds ?]. apply fraction_nonneg. }
  clearbody p. destruct p as [n o]. apply bind_Some in H as (off & _ & H).
  destruct c as [[h m] sec]. by injection H as <-.
Qed.

(** C36. Time stamps of drop filters.  A time stamp the validation accepts, a date or
    a time stamp with an offset, names an instant, and the drop filter is built with that
    instant in UTC.  If its year in UTC has four digits this is a time stamp the validation
    would accept again and that reads as the same instant; an offset can move the first and
    the last accepted instants out of these years, and then the program gets a time stamp
    the validation would refuse.  This does not depend on what else [time.Parse] may
    accept. *)
Theorem normalizeOlderThan_correct :
  (∀ v, validateOlderThan v = "" →
     ∃ t, denotes v t ∧
       normalizeOlderThan parse_other v = Some (Format_RFC3339Nano t) ∧
       (writable t →
          instant_RFC3339_matched (Format_RFC3339Nano t) = Some t ∧
          validateOlderThan (Format_RFC3339Nano t) = "")) ∧
  Forall (λ p, validateOlderThan p.1 = "" ∧ normalizeOlderThan parse_other p.1 = Some p.2 ∧ validateOlderThan p.2 ≠ "")
    [("9999-12-31T23:59:59-01:00", "10000-01-01T00:59:59Z"); ("0000-01-01T00:00:00+01:00", "-0001-12-31T23:00:00Z")].
Proof.
  split.
  - intros v (t & Ht & E)%validateOlderThan_ok%older_than_denotes. exists t.
    split; [done|]. split; [done|]. intros Hw.
    destruct (Format_RFC3339Nano_correct t Hw) as (Hi & Hp & Hm).
    split; [done|]. apply validateOlderThan_ok. right. by rewrite <-fullmatch_spec.
  - repeat constructor; vm_compute; by try intros [=].
Qed.

Lemma buildMatchCondition_inert field pattern negate :
  contained field → pattern_safe pattern →
  ∃ s, buildMatchCondition field pattern negate = Some s ∧ inert s.
Proof.
  intros Hf Hp. unfold buildMatchCondition. unfold pattern_safe in Hp. rewrite Hp.
  eexists. split; [reflexivity|].
  change (raw ") ?? ``, r'") with (raw ") ?? ``, " +:+ "r'"). rewrite string_app_assoc.
  assert (inert ("r'" +:+ pattern +:+ "')")) as Hl.
  { apply literal_inert; [done|]. by eapply ContainsAny_not. }
  apply inert_app; [by destruct negate|]. apply (inert_wrap "match(to_string("); [done..| |done].
  apply inert_app; [done|exact Hl].
Qed.

Lemma mapM_inert {A} (f : A → option string) l :
  (∀ x, x ∈ l → ∃ s, f x = Some s ∧ inert s) → ∃ ss, mapM f l = Some ss ∧ ∀ s, s ∈ ss → inert s.
Proof.
  intros Hf. induction l as [|x l IH]; [by exists []; split; [|intros ? ?%not_elem_of_nil]|].
  apply forall_cons_iff in Hf as [(s & Hs & Hi) Hl]. destruct (IH Hl) as (ss & Hss & Hall).
  exists (s :: ss). cbn [mapM]. rewrite Hs. cbn [mbind option_bind]. rewrite Hss.
  split; [done|]. by apply forall_cons_iff.
Qed.

Lemma condition_VRL_inert regexp_compiles c :
  drop_condition_ok regexp_compiles c → ∃ s, condition_VRL parse_other c = Some s ∧ inert s.
Proof.
  unfold drop_condition_ok, condition_VRL.
  destruct (String.eqb_spec (dc_OlderThan c) "") as [E|E]; cbn [negb].
  - rewrite decide_True by done. intros ([_ Hf%toml_safe_contained] & _ & Hm & Hn & _).
    assert (contained ("._internal" +:+ dc_Field c)) as Hfield by by apply contained_app_left.
    destruct (_ != ""); by apply buildMatchCondition_inert.
  - rewrite decide_False by done. intros (t & Ht & Hv)%older_than_denotes.
    unfold buildOlderThanCondition. rewrite Hv. eexists. split; [reflexivity|].
    change (raw "((parse_timestamp(to_string(.timestamp) ?? ``, `%+`) < t'")
      with (raw "((parse_timestamp(to_string(.timestamp) ?? ``, `%+`) < " +:+ "t'").
    change "') ?? false)" with ("')" +:+ " ?? false)").
    rewrite string_app_assoc, <-(string_app_assoc _ "')"), <-(string_app_assoc "t'").
    apply inert_app; [done|]. apply inert_app; [|done]. apply literal_inert; [done|].
    by eapply Format_free, denotes_nsec.
Qed.

Lemma drop_VRL_inert regexp_compiles f :
  drop_ok regexp_compiles f → ∃ s, drop_VRL parse_other (filter_DropTestsSpec f) = Some s ∧ inert s.
Proof.
  intros [_ Hf]. unfold drop_VRL.
  destruct (mapM_inert (test_VRL parse_other) (filter_DropTestsSpec f)) as (ss & -> & Hss).
  - intros t Ht. destruct (Hf t Ht) as [_ Hc]. unfold test_VRL.
    destruct (mapM_inert (condition_VRL parse_other) (dt_DropConditions t)) as (cs & -> & Hcs).
    { intros c Hin. by eapply condition_VRL_inert, Hc. }
    eexists. split; [reflexivity|]. apply inert_app; [done|]. apply inert_app; [|done]. by apply inert_Join.
  - eexists. split; [reflexivity|]. apply inert_app; [done|]. apply inert_app; [|done]. by apply inert_Join.
Qed.
End drop.

Lemma normalizeOlderThan_correct_witness :
  validateOlderThan "2024-02-29T23:30:05.120+02:30" = "" ∧
  normalizeOlderThan (λ _, None) "2024-02-29T23:30:05.120+02:30" = Some "2024-02-29T21:00:05.12Z".
Proof.
  assert (validateOlderThan "2024-02-29T23:30:05.120+02:30" = "") as Hv by by vm_compute.
  split; [exact Hv|].
  destruct (proj1 (normalizeOlderThan_correct (λ _, None)) _ Hv) as (t & Ht & E & _).
  vm_compute in Ht. injection Ht as <-. exact E.
Defined.

(** *** Prune filters *)

(** Dropping the empty parts and putting the others together again gives no run of
    quotes that was not there. *)
Lemma Split_contained s c part : contained s → part ∈ Split s c → contained part.
Proof.
  intros Hs. revert part. induction s as [|d s IH]; intros part; cbn [Split].
  { by intros ->%list_elem_of_singleton. }
  assert (contained s) as Hs'.
  { unfold contained in *. cbn [Contains] in Hs. by apply orb_false_iff in Hs as [_ ?]. }
  destruct (Ascii.eqb d c).
  { intros [->|?]%elem_of_cons; [done|by apply IH]. }
  destruct (Split s c) as [|t ts] eqn:E; [by apply Split_nonempty in E|].
  intros [->|Hin]%elem_of_cons; [|apply IH; [done|by right]].
  assert (∃ r, s = t +:+ r) as [r ->].
  { rewrite <-(Join_Split s c), E. destruct ts as [|u ts]; [exists ""; by rewrite string_app_nil_r|].
    rewrite Join_cons by done. eauto. }
  unfold contained. apply not_true_is_false. intros Hc. apply not_true_iff_false in Hs. apply Hs.
  by apply (Contains_app_l (String d t) r).
Qed.

Lemma SplitPath_contained path part : contained path → part ∈ SplitPath path → contained part.
Proof.
  intros Hp. unfold SplitPath.
  assert (∀ part, part ∈ Split path "." → contained part) as Hparts by by (intros; eapply Split_contained).
  enough (∀ parts st, (∀ part, part ∈ parts → contained part) →
    (∀ part, part ∈ st.1 → contained part) → contained st.2 →
    ∀ part, part ∈ (foldl SplitPath_step st parts).1 → contained part) as H.
  { apply H; [done|by intros ? ?%not_elem_of_nil|done]. }
  clear. induction parts as [|p parts IH]; intros st Hparts Hst Hcur part; [by apply Hst|].
  apply forall_cons_iff in Hparts as [Hp Hparts]. cbn [foldl]. apply IH; [done|..];
    destruct st as [result curr]; cbn [fst snd] in *; unfold SplitPath_step.
  - assert (contained (curr +:+ "." +:+ p)) by by apply contained_sep.
    repeat case_match; cbn [fst]; try done; apply forall_app_iff; (split; [done|]);
      by intros ? ->%list_elem_of_singleton.
  - assert (contained (curr +:+ "." +:+ p)) by by apply contained_sep.
    repeat case_match; cbn [snd]; done.
Qed.

Lemma QuotePathSegments_inert l :
  (∀ s, s ∈ l → contained s) → ∀ s, s ∈ QuotePathSegments l → inert s.
Proof.
  intros Hl ? (s & -> & Hs)%list_elem_of_fmap. destruct (fullmatch quoteRegex s) eqn:Hm.
  - apply fullmatch_spec, matches_quoteRegex in Hm as (t & -> & _).
    apply Hl in Hs. apply inert_wrap; [done..|].
    unfold contained in *. apply not_true_is_false. intros Hc. apply not_true_iff_false in Hs. apply Hs.
    by apply Contains_app_r, Contains_app_l.
  - by apply inert_Quote, Hl.
Qed.

Lemma quoted_inert path : contained path → inert (quoted path).
Proof.
  intros Hp. apply inert_app; [done|]. apply inert_app; [|done]. apply inert_Join; [done|].
  apply QuotePathSegments_inert. intros s. by apply SplitPath_contained.
Qed.

Lemma contained_ReplaceAll s old new :
  Ascii.eqb "'" old = false → new ≠ "" → in_string "'" new = false →
  contained s → contained (ReplaceAll s old new).
Proof.
  intros Ho Hne Hnew. unfold ReplaceAll. apply contained_map_bytes. split.
  - by rewrite Ho.
  - intros c Hc. destruct (Ascii.eqb c old); [done|]. split; [done|]. cbn [in_string]. by rewrite Hc.
Qed.

Lemma dedotted_inert path d s :
  d ∈ dedottedFields → contained path → s ∈ dedotted path d → inert s.
Proof.
  intros Hd Hp. unfold dedotted. destruct (CutPrefix path d) as [label|] eqn:E; [|by intros ?%not_elem_of_nil].
  apply CutPrefix_spec in E as ->. destruct (ContainsAny label "/."); [|by intros ?%not_elem_of_nil].
  intros ->%list_elem_of_singleton. apply quoted_inert.
  apply contained_app_left.
  - unfold dedottedFields in Hd. rewrite !elem_of_cons in Hd.
    by destruct Hd as [->|[->|?%not_elem_of_nil]].
  - do 2 (apply contained_ReplaceAll; [done..|]).
    unfold contained in *. apply not_true_is_false. intros Hc. apply not_true_iff_false in Hp. apply Hp.
    by apply Contains_app_r.
  - unfold dedottedFields in Hd. rewrite !elem_of_cons in Hd.
    by destruct Hd as [->|[->|?%not_elem_of_nil]].
Qed.

Lemma generate_inert l :
  (∀ x, x ∈ l → contained x) → inert (generateQuotedPathSegmentArrayStr l).
Proof.
  intros Hl. apply inert_app; [done|]. apply inert_app; [|done]. apply inert_Join; [done|].
  apply forall_bind_iff. intros x Hx. apply forall_cons_iff. split; [by apply quoted_inert, Hl|].
  apply forall_bind_iff. intros d Hd s. apply dedotted_inert; [done|by apply Hl].
Qed.

Lemma prune_VRL_inert f p : prune_ok f → filter_PruneFilterSpec f = Some p → inert (prune_VRL p).
Proof.
  intros (p' & Hp & Hin & Hnot) E. assert (p' = p) as -> by congruence.
  unfold prune_VRL, PruneVRLTemplate. cbn zeta.
  assert (inert (match prune_NotIn p with
    | Some l => generateQuotedPathSegmentArrayStr (l ++ ["._internal"]) | None => "" end)) as H1.
  { destruct (prune_NotIn p) as [l|] eqn:El; [|done]. apply generate_inert, forall_app_iff.
    split; [|by intros ? ->%list_elem_of_singleton].
    intros x Hx. destruct (Hnot l eq_refl) as [Hp' _]. by apply toml_safe_contained, Hp'. }
  assert (inert (match prune_In p with
    | Some l => generateQuotedPathSegmentArrayStr l | None => "" end)) as H2.
  { destruct (prune_In p) as [l|] eqn:El; [|done]. apply generate_inert.
    intros x Hx. destruct (Hin l eq_refl x Hx) as [Hp' _]. by apply toml_safe_contained, Hp'. }
  match type of H1 with inert ?a => generalize dependent a end.
  match type of H2 with inert ?b => generalize dependent b end. intros paths H2 notIn H1.
  apply inert_app; (destruct (_ != ""); [|done]).
  - unfold not_in_program. inert_tac.
  - unfold in_program. inert_tac.
Qed.

(** *** Audit policies *)

Lemma meta_byte_keeps : keeps_quotes meta_byte.
Proof. keeps_quotes_tac. Qed.

Lemma contained_take n s : contained s → contained (take_bytes n s).
Proof.
  intros Hs. assert (∃ r, s = take_bytes n s +:+ r) as [r E].
  { clear. revert s. induction n as [|n IH]; intros s; [by exists s|].
    destruct s as [|c s]; [by exists ""|]. destruct (IH s) as [r Hr]. exists r.
    cbn [take_bytes String.append]. by rewrite <-Hr. }
  unfold contained in *. apply not_true_is_false. intros Hc. apply not_true_iff_false in Hs. apply Hs.
  rewrite E. by apply Contains_app_l.
Qed.

Lemma wildcard_contained w : contained w → contained (wildcardRegexp w).
Proof.
  intros Hw. unfold wildcardRegexp.
  assert (∀ s, contained s → contained (QuoteMeta s)) as Hq.
  { intros s. by apply contained_map_bytes, meta_byte_keeps. }
  assert (∀ s, contained s → contained (if HasSuffix s "*"
    then QuoteMeta (drop_last s) +:+ ".*" else QuoteMeta s)) as Hs.
  { intros s Hs. destruct (HasSuffix s "*"); [|by apply Hq].
    apply contained_app_right; [|done|done]. by apply Hq, contained_take. }
  destruct (CutPrefix w "*") as [rest|] eqn:E; [|by apply Hs].
  apply CutPrefix_spec in E as ->. apply contained_app_left; [done| |done]. apply Hs.
  by apply (contained_sep "" "*").
Qed.

Lemma pattern_inert l suffix r :
  (∀ w, w ∈ l → contained w) → inert suffix → inert ("$'" +:+ r) →
  inert (anyWildcardRegexp l suffix +:+ r).
Proof.
  intros Hl Hs Hr.
  replace (anyWildcardRegexp l suffix +:+ r)
    with (("r'^(" +:+ Join (wildcardRegexp <$> l) "|" +:+ ")") +:+ (suffix +:+ ("$'" +:+ r)))
    by (unfold anyWildcardRegexp; by rewrite !string_app_assoc).
  apply inert_app; [|by apply inert_app]. apply inert_wrap; [done..|].
  apply contained_Join; [done..|]. intros ? (w & -> & Hw)%list_elem_of_fmap. by apply wildcard_contained, Hl.
Qed.

Lemma with_list_inert {A} (l : list A) text : inert (text l) → inert (with_list l text).
Proof. by destruct l. Qed.

(** The pieces of the program around the patterns. *)
Ltac policy_tac :=
  repeat lazymatch goal with
  | |- inert (matchAny _ +:+ _) => apply pattern_inert; [auto|done|done]
  | |- inert (matchAnyPath _ +:+ _) => apply pattern_inert; [auto|done|done]
  | |- inert (json_strings _) => apply inert_json_strings; auto
  | |- inert (json_ints _) => apply inert_json_ints
  | |- inert (Join _ _) => fail
  | |- inert (with_list _ _) => apply with_list_inert
  | |- inert (_ +:+ _) => apply inert_app
  | |- inert _ => first [assumption | constructor; vm_compute; reflexivity]
  end.

Lemma groupResource_inert gr :
  (∀ s, s ∈ gr_Group gr :: gr_Resources gr ++ gr_ResourceNames gr → contained s) →
  inert (groupResource gr).
Proof.
  rewrite forall_cons_iff, forall_app_iff. intros (Hg & Hr & Hn). unfold groupResource.
  apply inert_app; [|policy_tac]. destruct (_ != ""); [|policy_tac]. by apply inert_wrap.
Qed.

Lemma rule_program_inert r : (∀ s, s ∈ rule_strings r → contained s) → inert (rule_program r).
Proof.
  unfold rule_strings. rewrite forall_cons_iff, !forall_app_iff, forall_bind_iff.
  intros (Hlevel & Hstages & Husers & Hgroups & Hverbs & Hns & Hurls & Hres).
  unfold rule_program, rule_condition.
  apply inert_app; [done|]. apply inert_app; [|apply inert_wrap; [done|done|done| |done]]; policy_tac.
  - apply inert_Join; [done|]. intros ? (gr & -> & Hgr)%list_elem_of_fmap.
    apply inert_app; [done|]. apply inert_app; [|done]. by apply groupResource_inert, Hres.
  - destruct (rule_OmitManagedFields r) as [[]|]; policy_tac.
Qed.

Lemma audit_VRL_inert f : audit_ok f → inert (apiaudit_VRL (filter_KubeAPIAudit f)).1.
Proof.
  intros Hf. unfold apiaudit_VRL. cbn [fst]. set (p := default _ _).
  assert (∀ s, s ∈ audit_strings p → contained s) as Hp.
  { intros s Hs. apply toml_safe_contained. subst p.
    destruct (filter_KubeAPIAudit f) as [a|] eqn:E; [by apply (Hf a)|].
    cbn in Hs. by apply not_elem_of_nil in Hs. }
  clearbody p. unfold audit_strings in Hp. rewrite forall_app_iff, forall_bind_iff in Hp.
  destruct Hp as [Hs Hr]. unfold policyVRLTemplate. policy_tac.
  apply inert_Join; [done|]. intros ? (r & -> & Hin)%list_elem_of_fmap. by apply rule_program_inert, Hr.
Qed.

(** ** All filters *)

Lemma labels_VRL_inert f :
  labels_ok f →
  inert ("._internal.openshift.labels = .openshift.labels = " +:+ json_map (filter_OpenshiftLabels f)).
Proof.
  intros Hf. apply inert_app; [done|]. apply inert_json_map.
  intros k v Hk. destruct (Hf k v Hk). auto using toml_safe_contained.
Qed.

Lemma terminator_inline : inline literalMultilineTerminator.
Proof.
  split; [done|]. intros c. cbn. rewrite !orb_false_r, !orb_diag. by intros ->%Ascii.eqb_eq.
Qed.

Lemma NewRemap_closes vrl inputs :
  inert vrl → ¬ closes (transform_value (TRemap (Some (NewRemap vrl inputs)))).
Proof.
  intros [Hc _ _] (s & [= <-] & Hs)%closes_transform. cbn [remap_Source NewRemap] in Hs.
  rewrite Contains_normalize in Hs by apply terminator_inline. congruence.
Qed.

Lemma NewFilter_closes vrl inputs :
  inert vrl → ¬ closes (transform_value (TFilter (Some (NewFilter vrl inputs)))).
Proof. intros [Hc _ _] (s & [= <-] & Hs)%closes_transform. cbn in Hs. congruence. Qed.

(** A transform is there but its pointer is nil. *)
Definition nil_pointer (t : transform) : bool :=
  match t with
  | TRemap None | TFilter None | TDetectExceptions None | TThrottle None
  | TRoute None | TReduce None | TLogToMetric None => true
  | _ => false
  end.

Lemma filter_factory_returns regexp_compiles parse_other f inputs :
  filter_admitted f → filter_ok regexp_compiles f →
  ∃ t, filter_factory parse_other f inputs = Ret (Some t) ∧
    ¬ closes (transform_value t) ∧
    (nil_pointer t = true ↔ filter_Type f = FilterTypeOpenshiftLabels ∧ filter_OpenshiftLabels f = ∅).
Proof.
  intros (Htype & Haudit & Hprune) (Hd & Hp & Ha & Hl).
  assert (∀ s, ¬ closes (transform_value (TDetectExceptions (Some s)))) as Hde.
  { by intros s (? & [=] & _)%closes_transform. }
  unfold FilterTypes in Htype. rewrite !elem_of_cons in Htype.
  destruct Htype as [E|[E|[E|[E|[E|[E|[]%not_elem_of_nil]]]]]];
    rewrite E in *; unfold filter_factory; rewrite E; cbn [String.eqb].
  - specialize (Hl eq_refl). unfold labels_New. eexists. split; [reflexivity|].
    destruct (Nat.eqb_spec (size (filter_OpenshiftLabels f)) 0) as [Hs|Hs].
    + split; [by intros (? & [=] & _)%closes_transform|]. by apply map_size_empty_inv in Hs.
    + split; [by apply NewRemap_closes, labels_VRL_inert|]. split; [done|].
      intros [_ H0]. rewrite H0 in Hs. by rewrite map_size_empty in Hs.
  - eexists. split; [reflexivity|]. split; [apply Hde|]. by split; [|intros [[=] _]].
  - destruct (drop_VRL_inert parse_other _ f (Hd eq_refl)) as (vrl & Hv & Hi). unfold drop_New.
    rewrite Hv. eexists. split; [reflexivity|]. split; [by apply NewFilter_closes|].
    by split; [|intros [[=] _]].
  - eexists. split; [reflexivity|]. split; [by apply NewRemap_closes, audit_VRL_inert, Ha|].
    by split; [|intros [[=] _]].
  - eexists. split; [reflexivity|]. split; [by apply NewRemap_closes|]. by split; [|intros [[=] _]].
  - destruct (Hprune eq_refl) as [p Hf]. rewrite Hf. cbn [prune_New deref mbind outcome_bind].
    eexists. split; [reflexivity|].
    split; [by eapply NewRemap_closes, prune_VRL_inert, Hf; apply Hp|]. by split; [|intros [[=] _]].
Qed.

Lemma mapM_None {A B} (f : A → option B) l : mapM f l = None ↔ ∃ x, x ∈ l ∧ f x = None.
Proof.
  induction l as [|x l IH]; cbn [mapM]; [by rewrite exists_nil_iff|]. rewrite exists_cons_iff, <-IH.
  destruct (f x) as [y|] eqn:E; cbn [mbind option_bind]; [|split; [by left|done]].
  destruct (mapM f l); cbn [mbind option_bind]; [|split; [by right|done]]. by split; [|intros [?|?]].
Qed.

(** C35. From a validated filter to its transform.  For a filter the API admits and the
    validation accepts, the factory returns a transform, whatever its inputs; the
    program in it, the user's paths, patterns, labels and names included, cannot close
    the literal it is written in, so the configuration is never refused because of
    it; and the transform is a nil pointer, which the test against nil does not
    notice, exactly for a labels filter without labels.  A drop filter gives no
    transform at all exactly when one of its conditions cannot be written. *)
Theorem filter_factory_correct regexp_compiles parse_other f inputs :
  filter_admitted f → filter_ok regexp_compiles f →
  (∃ t, filter_factory parse_other f inputs = Ret (Some t) ∧
    ¬ closes (transform_value t) ∧
    (nil_pointer t = true ↔ filter_Type f = FilterTypeOpenshiftLabels ∧ filter_OpenshiftLabels f = ∅)) ∧
  (∀ spec, drop_New parse_other spec inputs = None ↔
     ∃ t, t ∈ spec ∧ ∃ c, c ∈ dt_DropConditions t ∧ condition_VRL parse_other c = None).
Proof.
  intros Ha Ho. split; [by eapply filter_factory_returns|]. intros spec. unfold drop_New, drop_VRL.
  transitivity (mapM (test_VRL parse_other) spec = None).
  { by destruct (mapM (test_VRL parse_other) spec). }
  rewrite mapM_None. unfold test_VRL. split.
  - intros (t & Ht & Hn). exists t. split; [done|]. apply mapM_None.
    by destruct (mapM (condition_VRL parse_other) (dt_DropConditions t)).
  - intros (t & Ht & Hn%mapM_None). exists t. split; [done|]. by rewrite Hn.
Qed.

(** A filter to show it at. *)
Definition example_drop : FilterSpec := {|
  filter_Name := "old"; filter_Type := FilterTypeDrop; filter_KubeAPIAudit := None;
  filter_DropTestsSpec := [{| dt_DropConditions :=
    [{| dc_OlderThan := "2024-01-01"; dc_Field := ""; dc_Matches := ""; dc_NotMatches := "" |};
     {| dc_OlderThan := ""; dc_Field := ".level"; dc_Matches := "debug"; dc_NotMatches := "" |}] |}];
  filter_PruneFilterSpec := None; filter_OpenshiftLabels := ∅ |}.

Lemma filter_factory_correct_witness :
  filter_errors (H := canonical_order) (λ _, true) example_drop = [] ∧
  match filter_factory (λ _, None) example_drop ["a"] with
  | Ret (Some t) => nil_pointer t | _ => true
  end = false.
Proof.
  assert (filter_errors (H := canonical_order) (λ _, true) example_drop = []) as Hv by by vm_compute.
  assert (filter_admitted example_drop) as Ha by (split; [set_solver|by split]).
  split; [exact Hv|].
  destruct (filter_factory_correct (λ _, true) (λ _, None) example_drop ["a"] Ha
    (proj1 (filter_errors_nil _ _) Hv)) as [(t & E & _ & Hn) _].
  rewrite E. apply not_true_is_false. intros [[=] _]%Hn.
Defined.

(** ** Patterns of audit policies *)

(** A pattern that VRL reads to its end: nothing in it is the quote that ends it. *)
Definition one_literal (pattern : string) : Prop :=
  ∃ body, pattern = "r'" +:+ body +:+ "'" ∧ in_string "'" body = false.

Lemma one_literal_iff body : one_literal ("r'" +:+ body +:+ "'") ↔ in_string "'" body = false.
Proof.
  split; [|by exists body]. intros (body' & E & H). injection E as E.
  apply string_app_inj_r in E as ->. done.
Qed.

Lemma in_string_QuoteMeta s : in_string "'" (QuoteMeta s) = in_string "'" s.
Proof.
  induction s as [|c s IH]; [done|]. cbn [QuoteMeta map_bytes in_string].
  rewrite in_string_app. f_equal; [|exact IH].
  clear. destruct c as [[] [] [] [] [] [] [] []]; reflexivity.
Qed.

Lemma drop_last_snoc s c : drop_last (s +:+ String c "") = s.
Proof.
  unfold drop_last. rewrite string_app_length. cbn [String.length]. rewrite Nat.add_sub.
  induction s as [|d s IH]; [done|]. cbn [String.length take_bytes String.append]. by rewrite IH.
Qed.

Lemma in_string_wildcard w : in_string "'" (wildcardRegexp w) = in_string "'" w.
Proof.
  unfold wildcardRegexp.
  assert (∀ s, in_string "'" (if HasSuffix s "*" then QuoteMeta (drop_last s) +:+ ".*"
    else QuoteMeta s) = in_string "'" s) as Hs.
  { intros s. destruct (HasSuffix s "*") eqn:E; [|apply in_string_QuoteMeta].
    apply HasSuffix_spec in E as [u ->].
    by rewrite drop_last_snoc, !in_string_app, in_string_QuoteMeta. }
  destruct (CutPrefix w "*") as [rest|] eqn:E; [|exact (Hs w)].
  apply CutPrefix_spec in E as ->. rewrite !in_string_app, Hs. done.
Qed.

Lemma in_string_Join c l sep :
  in_string c sep = false → in_string c (Join l sep) = existsb (in_string c) l.
Proof.
  intros Hsep. induction l as [|s l IH]; [done|]. cbn [existsb]. rewrite <-IH.
  destruct l as [|t l]; [by rewrite orb_false_r|]. rewrite Join_cons by done.
  by rewrite !in_string_app, Hsep.
Qed.

(** A policy the validation accepts. *)
Definition quoted_user : FilterSpec := {|
  filter_Name := "a"; filter_Type := FilterTypeKubeAPIAudit;
  filter_KubeAPIAudit := Some {|
    kaa_Rules := [{| rule_Level := "Metadata"; rule_Users := ["o'brien"]; rule_UserGroups := [];
      rule_Verbs := []; rule_Resources := []; rule_Namespaces := []; rule_NonResourceURLs := [];
      rule_OmitStages := []; rule_OmitManagedFields := None |}];
    kaa_OmitStages := []; kaa_OmitResponseCodes := None |};
  filter_DropTestsSpec := []; filter_PruneFilterSpec := None; filter_OpenshiftLabels := ∅ |}.

(** Quotes in the patterns of audit policies.  The pattern built from wildcards is
    one literal of VRL exactly when no wildcard has a single quote.  Nothing ensures
    this: the validation accepts a policy about a user whose name has a quote, and
    the program of that policy has a pattern that ends in the middle of the name. *)
Theorem audit_patterns_correct :
  (∀ l, one_literal (matchAny l) ↔ ∀ w, w ∈ l → in_string "'" w = false) ∧
  (∀ l, one_literal (matchAnyPath l) ↔ ∀ w, w ∈ l → in_string "'" w = false) ∧
  validateKubeAPIAuditFilter quoted_user = [] ∧
  Contains (apiaudit_VRL (filter_KubeAPIAudit quoted_user)).1
    "match(username, r'^(o'brien)$')" = true.
Proof.
  assert (∀ l suffix, in_string "'" suffix = false →
    one_literal (anyWildcardRegexp l suffix) ↔ ∀ w, w ∈ l → in_string "'" w = false) as H.
  { intros l suffix Hs.
    replace (anyWildcardRegexp l suffix)
      with ("r'" +:+ ("^(" +:+ Join (wildcardRegexp <$> l) "|" +:+ ")" +:+ suffix +:+ "$") +:+ "'")
      by (unfold anyWildcardRegexp; by rewrite !string_app_assoc).
    rewrite one_literal_iff, !in_string_app, in_string_Join, Hs by done. cbn [orb in_string Ascii.eqb Bool.eqb].
    rewrite orb_false_r. induction l as [|w l IH]; [by split; [intros _ ? ?%not_elem_of_nil|]|].
    cbn [fmap list_fmap existsb]. by rewrite orb_false_iff, IH, in_string_wildcard, forall_cons_iff. }
  split_and!; [intros l; by apply H..|by vm_compute|by vm_compute].
Qed.
