(* ===== verification/Viaq.v ===== *)
(** * The program every pipeline has ([internal/generator/vector/filter/openshift/viaq/v1])

    The transform that puts the fields of a record where the data model has them.  Its
    texts are those of the source; which of them a pipeline gets depends on the inputs
    it reads. *)

From S2P Require Import Prelude GoStrings ApiCommon ApiInputs ObsInputs Toml Transforms VrlText.
From S2P Require Import VectorHelpers FilterVRL.

Definition Viaq : string := "viaq".
Definition logSourceContainer : string := "container".

(** ** [audit.go] *)

Definition AddDefaultLogLevel : string := raw ".level = `default`".

Definition ParseHostAuditLogs : string := raw "
match1 = parse_regex(._internal.message, r'type=(?P<type>[^ ]+)') ?? {}
envelop = {}
envelop |= {`type`: match1.type}

match2, err = parse_regex(._internal.message, r'msg=audit\((?P<ts_record>[^ ]+)\):')
if err == null {
  sp, err = split(match2.ts_record,`:`)
  if err == null && length(sp) == 2 {
      host_audit_time, host_audit_err = parse_timestamp(sp[0], `%s.%3f`)
      if host_audit_err == null {
        ._internal.timestamp = host_audit_time
      }
      envelop |= {`record_id`: sp[1]}
      ._internal |= {`audit.linux` : envelop}
  }
} else {
  log(`could not parse host audit msg. err=` + err, rate_limit_secs: 0)
}
".

Definition ParseOVNAuditLogTimestamp : string := raw "
ovn_parts, ovn_err = parse_regex(._internal.message, r'^(?P<timestamp>[^|]+)\|')
if ovn_err == null {
  ovn_time, ovn_err = parse_timestamp(ovn_parts.timestamp, `%+`)
  if ovn_err == null {
    ._internal.timestamp = ovn_time
  }
}
".

Definition SetK8sAuditLevel : string := raw ".k8s_audit_level = ._internal.structured.level".

Definition SetOpenshiftAuditLevel : string := raw ".openshift_audit_level = ._internal.structured.level".

(** ** [dedot_labels.go] *)

Definition VRLDedotLabels : string := raw "
if ._internal.log_source == `container` {
  if exists(._internal.kubernetes.namespace_labels) {
    ._internal.dedot_namespace_labels = {}
    for_each(object!(._internal.kubernetes.namespace_labels)) -> |key,value| {
      newkey = replace(key, r'[\./]', `_`)
      ._internal.dedot_namespace_labels = set!(._internal.dedot_namespace_labels,[newkey],value)
    }
  }
  if exists(._internal.kubernetes.labels) {
    ._internal.dedot_labels = {}
    for_each(object!(._internal.kubernetes.labels)) -> |key,value| {
      newkey = replace(key, r'[\./]', `_`)
      ._internal.dedot_labels = set!(._internal.dedot_labels,[newkey],value)
    }
  }
}
if exists(._internal.openshift.labels) {for_each(object!(._internal.openshift.labels)) -> |key,value| {
  ._internal.dedot_openshift_labels = {}
  newkey = replace(key, r'[\./]', `_`)
  ._internal.dedot_openshift_labels = set!(._internal.dedot_openshift_labels,[newkey],value)
}}
".

(** ** [journal.go] *)

Definition AddHostName : string := raw "if exists(._internal.host) { .hostname = del(._internal.host) }".

Definition AddJournalLogTag : string := raw ".tag = `.journal.system`".

Definition FixJournalLogLevel : string := raw "
if ._internal.PRIORITY == `8` || ._internal.PRIORITY == 8 {
  ._internal.level = `trace`
} else {
  priority = to_int!(._internal.PRIORITY)
  ._internal.level, err = to_syslog_level(priority)
  if err != null {
    log(`Unable to determine level from PRIORITY: ` + err, level: `error`)
    log(., level: `error`)
    ._internal.level = `unknown`
  } else {
    del(._internal.PRIORITY)
  }
}
".

Definition SetJournalMessage : string := raw "if exists(._internal.MESSAGE) {._internal.message = del(._internal.MESSAGE)}".

Definition SystemK : string := raw "
# systemd’s kernel-specific metadata.
# .systemd.k = {}
if exists(._internal.KERNEL_DEVICE) { ._internal.systemd.k.KERNEL_DEVICE = del(._internal.KERNEL_DEVICE) }
if exists(._internal.KERNEL_SUBSYSTEM) { ._internal.systemd.k.KERNEL_SUBSYSTEM = del(._internal.KERNEL_SUBSYSTEM) }
if exists(._internal.UDEV_DEVLINK) { ._internal.systemd.k.UDEV_DEVLINK = del(._internal.UDEV_DEVLINK) }
if exists(._internal.UDEV_DEVNODE) { ._internal.systemd.k.UDEV_DEVNODE = del(._internal.UDEV_DEVNODE) }
if exists(._internal.UDEV_SYSNAME) { ._internal.systemd.k.UDEV_SYSNAME = del(._internal.UDEV_SYSNAME) }
".

Definition SystemT : string := raw "
# trusted journal fields, fields that are implicitly added by the journal and cannot be altered by client code.
._internal.systemd.t = {}
if exists(._internal._AUDIT_LOGINUID) { ._internal.systemd.t.AUDIT_LOGINUID = del(._internal._AUDIT_LOGINUID) }
if exists(._internal._BOOT_ID) { ._internal.systemd.t.BOOT_ID = del(._internal._BOOT_ID) }
if exists(._internal._AUDIT_SESSION) { ._internal.systemd.t.AUDIT_SESSION = del(._internal._AUDIT_SESSION) }
if exists(._internal._CAP_EFFECTIVE) { ._internal.systemd.t.CAP_EFFECTIVE = del(._internal._CAP_EFFECTIVE) }
if exists(._internal._CMDLINE) { ._internal.systemd.t.CMDLINE = del(._internal._CMDLINE) }
if exists(._internal._COMM) { ._internal.systemd.t.COMM = del(._internal._COMM) }
if exists(._internal._EXE) { ._internal.systemd.t.EXE = del(._internal._EXE) }
if exists(._internal._GID) { ._internal.systemd.t.GID = del(._internal._GID) }
if exists(._internal._HOSTNAME) { ._internal.systemd.t.HOSTNAME = del(._internal._HOSTNAME) }
if exists(._internal._LINE_BREAK) { ._internal.systemd.t.LINE_BREAK = del(._internal._LINE_BREAK) }
if exists(._internal._MACHINE_ID) { ._internal.systemd.t.MACHINE_ID = del(._internal._MACHINE_ID) }
if exists(._internal._PID) { ._internal.systemd.t.PID = del(._internal._PID) }
if exists(._internal._SELINUX_CONTEXT) { ._internal.systemd.t.SELINUX_CONTEXT = del(._internal._SELINUX_CONTEXT) }
if exists(._internal._SOURCE_REALTIME_TIMESTAMP) { ._internal.systemd.t.SOURCE_REALTIME_TIMESTAMP = del(._internal._SOURCE_REALTIME_TIMESTAMP) }
if exists(._internal._STREAM_ID) { ._internal.systemd.t.STREAM_ID = ._internal._STREAM_ID }
if exists(._internal._SYSTEMD_CGROUP) { ._internal.systemd.t.SYSTEMD_CGROUP = del(._internal._SYSTEMD_CGROUP) }
if exists(._internal._SYSTEMD_INVOCATION_ID) {._internal.systemd.t.SYSTEMD_INVOCATION_ID = ._internal._SYSTEMD_INVOCATION_ID}
if exists(._internal._SYSTEMD_OWNER_UID) { ._internal.systemd.t.SYSTEMD_OWNER_UID = del(._internal._SYSTEMD_OWNER_UID) }
if exists(._internal._SYSTEMD_SESSION) { ._internal.systemd.t.SYSTEMD_SESSION = del(._internal._SYSTEMD_SESSION) }
if exists(._internal._SYSTEMD_SLICE) { ._internal.systemd.t.SYSTEMD_SLICE = del(._internal._SYSTEMD_SLICE) }
if exists(._internal._SYSTEMD_UNIT) { ._internal.systemd.t.SYSTEMD_UNIT = del(._internal._SYSTEMD_UNIT) }
if exists(._internal._SYSTEMD_USER_UNIT) { ._internal.systemd.t.SYSTEMD_USER_UNIT = del(._internal._SYSTEMD_USER_UNIT) }
if exists(._internal._TRANSPORT) { ._internal.systemd.t.TRANSPORT = del(._internal._TRANSPORT) }
if exists(._internal._UID) { ._internal.systemd.t.UID = del(._internal._UID) }
".

Definition SystemU : string := raw "
# fields that are directly passed from clients and stored in the journal.
._internal.systemd.u = {}
if exists(._internal.CODE_FILE) { ._internal.systemd.u.CODE_FILE = del(._internal.CODE_FILE) }
if exists(._internal.CODE_FUNC) { ._internal.systemd.u.CODE_FUNCTION = del(._internal.CODE_FUNC) }
if exists(._internal.CODE_LINE) { ._internal.systemd.u.CODE_LINE = del(._internal.CODE_LINE) }
if exists(._internal.ERRNO) { ._internal.systemd.u.ERRNO = del(._internal.ERRNO) }
if exists(._internal.MESSAGE_ID) { ._internal.systemd.u.MESSAGE_ID = del(._internal.MESSAGE_ID) }
if exists(._internal.SYSLOG_FACILITY) { ._internal.systemd.u.SYSLOG_FACILITY = del(._internal.SYSLOG_FACILITY) }
if exists(._internal.SYSLOG_IDENTIFIER) { ._internal.systemd.u.SYSLOG_IDENTIFIER = del(._internal.SYSLOG_IDENTIFIER) }
if exists(._internal.SYSLOG_PID) { ._internal.systemd.u.SYSLOG_PID = del(._internal.SYSLOG_PID) }
if exists(._internal.RESULT) { ._internal.systemd.u.RESULT = del(._internal.RESULT) }
if exists(._internal.UNIT) { ._internal.systemd.u.UNIT = del(._internal.UNIT) }
".

(** ** [normalize.go] *)

Definition HandleEventRouterLog : string := raw "

if exists(._internal.kubernetes.pod_name) && starts_with(string!(._internal.kubernetes.pod_name), `eventrouter-`) {

  parsed, err = parse_json(._internal.message)
  if err != null {
    log(`Unable to process EventRouter log: ` + err, level: `info`)
  } else {
    ._internal.event = parsed
    if exists(._internal.event.event) && is_object(._internal.event.event) {
      ._internal.kubernetes.event = del(._internal.event.event)
      ._internal.kubernetes.event.verb = del(._internal.event.verb)
      # escape 'new line' symbol see: LOG-8090
      msg = to_string!(del(._internal.kubernetes.event.message))
      ._internal.message = replace(msg, `\n`, s'\n')
      # Determine event timestamp: prefer lastTimestamp, then firstTimestamp (v1 events),
      # fall back to eventTime (events.k8s.io/v1), then creationTimestamp
      # lastTimestamp -> firstTimestamp -> eventTime -> creationTimestamp
      ts = ._internal.kubernetes.event.lastTimestamp
      if ts == null || ts == `` || ts == `0001-01-01T00:00:00Z` {
        ts = ._internal.kubernetes.event.firstTimestamp
      }
      if ts == null || ts == `` || ts == `0001-01-01T00:00:00Z` {
        ts = ._internal.kubernetes.event.eventTime
      }
      if ts == null || ts == `` {
        ts = ._internal.kubernetes.event.metadata.creationTimestamp
      }
      ._internal.`@timestamp` = ts
      ._internal.timestamp = ts
    } else {
      log(`Unable to merge EventRouter log message into record: ` + err, level: `info`)
    }
  }
}
".

Definition MergeStructuredIntoRoot : string := raw "
if ._internal.log_type == `audit` && exists(._internal.structured) {. = merge!(.,._internal.structured) }
if ._internal.log_source == `syslog` && exists(._internal.structured) {. = merge!(.,._internal.structured) }
if ._internal.log_source == `container` && exists(._internal.structured) {.structured = ._internal.structured }
".

Definition SetLogLevel : string := raw "
if !exists(._internal.level) {
  level = null
  message = ._internal.message

  # attempt 1: parse as logfmt (e.g. level=error msg=`Failed to connect`)
  parsed_logfmt, err = parse_logfmt(message)
  if err == null && is_string(parsed_logfmt.level) {
    level = downcase!(parsed_logfmt.level)
  }

  # attempt 2: parse as klog (e.g. I0920 14:22:00.089385 1 scheduler.go:592] `Successfully bound pod to node`)
  if level == null {
    parsed_klog, err = parse_klog(message)
    if err == null && is_string(parsed_klog.level) {
      level = parsed_klog.level
    }
  }

  # attempt 3: parse with groks template (if previous attempts failed) for classic text logs like Logback, Log4j etc.
  if level == null {
    parsed_grok, err = parse_groks(
      message,
      patterns: [
        `%{common_prefix} %{_message}`
      ],
      aliases: {
        `common_prefix`: `%{_timestamp} %{_loglevel}`,
        `_timestamp`: `%{TIMESTAMP_ISO8601:timestamp}`,
        `_loglevel`: `%{LOGLEVEL:level}`,
        `_message`: `%{GREEDYDATA:message}`
      }
    )
    if err == null && is_string(parsed_grok.level) {
      level = downcase!(parsed_grok.level)
    }
  }

  if level == null {
    level = `default`

    # attempt 4: Match on well known structured patterns
    # Order: emergency, alert, critical, error, warn, notice, info, debug, trace

    if match!(message, r'^EM[0-9]+|level=emergency|Value:emergency|`level`:`emergency`') {
      level = `emergency`
    } else if match!(message, r'^A[0-9]+|level=alert|Value:alert|`level`:`alert`') {
      level = `alert`
    } else if match!(message, r'^C[0-9]+|level=critical|Value:critical|`level`:`critical`') {
      level = `critical`
    } else if match!(message, r'^E[0-9]+|level=error|Value:error|`level`:`error`') {
      level = `error`
    } else if match!(message, r'^W[0-9]+|level=warn|Value:warn|`level`:`warn`') {
      level = `warn`
    } else if match!(message, r'^N[0-9]+|level=notice|Value:notice|`level`:`notice`') {
      level = `notice`
    } else if match!(message, r'^I[0-9]+|level=info|Value:info|`level`:`info`') {
      level = `info`
    } else if match!(message, r'^D[0-9]+|level=debug|Value:debug|`level`:`debug`') {
      level = `debug`
    } else if match!(message, r'^T[0-9]+|level=trace|Value:trace|`level`:`trace`') {
      level = `trace`
    }

    # attempt 5: Match on the keyword that appears earliest in the message
    if level == `default` {
      level_patterns = r'(?i)(?<emergency>emergency|<emergency>)|(?<alert>alert|<alert>)|(?<critical>critical|<critical>)|(?<error>error|<error>)|(?<warn>warn(?:ing)?|<warn>)|(?<notice>notice|<notice>)|(?:\b(?<info>info)\b|<info>)|(?<debug>debug|<debug>)|(?<trace>trace|<trace>)'
      parsed, err = parse_regex(message, level_patterns)
      if err == null {
        if is_string(parsed.emergency) {
          level = `emergency`
        } else if is_string(parsed.alert) {
          level = `alert`
        } else if is_string(parsed.critical) {
          level = `critical`
        } else if is_string(parsed.error) {
          level = `error`
        } else if is_string(parsed.warn) {
          level = `warn`
        } else if is_string(parsed.notice) {
          level = `notice`
        } else if is_string(parsed.info) {
          level = `info`
        } else if is_string(parsed.debug) {
          level = `debug`
        } else if is_string(parsed.trace) {
          level = `trace`
        }
      }
    }
  }
  ._internal.level = level
}
".

Definition SetLogLevelOnRoot : string := raw "
if ._internal.log_type != `audit` && exists(._internal.level) {
  .level = ._internal.level
}
".

Definition SetLogTypeOnRoot : string := raw ".log_type = ._internal.log_type".

Definition SetHostnameOnRoot : string := raw "if exists(._internal.hostname) { .hostname = ._internal.hostname }".

Definition SetLogSourceOnRoot : string := raw ".log_source = ._internal.log_source".

Definition SetKubernetesOnRoot : string := raw "
.kubernetes = ._internal.kubernetes
if exists(._internal.dedot_labels) {.kubernetes.labels = del(._internal.dedot_labels) }
if exists(._internal.dedot_namespace_labels) {.kubernetes.namespace_labels = del(._internal.dedot_namespace_labels) }
del(.kubernetes.node_labels)
del(.kubernetes.container_image_id)
del(.kubernetes.pod_ips)
".

Definition RemoveKubernetesForNonContainerLogs : string := raw "
if .log_source != `container` && exists(.kubernetes) {
  del(.kubernetes)
}
".

Definition SetMessageOnRoot : string := raw "
if !exists(._internal.structured) {
  .message = ._internal.message
}
".

Definition SetOpenShiftOnRoot : string := raw "
if exists(._internal.openshift) {.openshift = ._internal.openshift}
if exists(._internal.dedot_openshift_labels) {.openshift.labels = del(._internal.dedot_openshift_labels)}
".

(** ** The programs of one source of logs *)

(** The lines of a source of audit logs. *)
Definition audit_logs (source : AuditSource) (lines : list string) : string :=
  raw "
if ._internal.log_type == `" +:+ InputTypeAudit +:+ raw "` && ._internal.log_source == `" +:+ source +:+ raw "` {
" +:+ Join lines LF +:+ "
}
".

Definition auditHostLogs : string :=
  audit_logs AuditSourceAuditd
    [SetMessageOnRoot; raw ".`audit.linux` = ._internal.`audit.linux`"; AddDefaultLogLevel].

Definition auditK8sLogs : string := audit_logs AuditSourceKube (TrimSpaces [SetK8sAuditLevel]).

Definition auditOpenshiftLogs : string := audit_logs AuditSourceOpenShift (TrimSpaces [SetOpenshiftAuditLevel]).

Definition auditOVNLogs : string :=
  audit_logs AuditSourceOVN (TrimSpaces [SetMessageOnRoot; ".level = ._internal.level"]).

Definition containerLogs : string :=
  raw "
if .log_source == `" +:+ logSourceContainer +:+ raw "` {
  " +:+ Join (TrimSpaces [HandleEventRouterLog; VRLDedotLabels; SetKubernetesOnRoot; SetMessageOnRoot]) LF +:+ "
}
".

Definition journalLogsVRL : string :=
  Join (TrimSpaces [AddJournalLogTag; AddHostName; ".systemd = ._internal.systemd"; SetMessageOnRoot]) LF.

Definition journalLogs : string :=
  raw "
if ._internal.log_source == `" +:+ InfrastructureSourceNode +:+ raw "` {
" +:+ journalLogsVRL +:+ "
}
".

Definition receiverLogsVRL : string :=
  Join (TrimSpaces [".message = ._internal.message";
    raw ".log_type = `" +:+ InputTypeInfrastructure +:+ raw "`";
    raw ".log_source = `" +:+ InfrastructureSourceNode +:+ raw "`"]) (LF +:+ LF).

Definition receiverLogs : string :=
  raw "
if ._internal.log_type == `" +:+ InputTypeReceiver +:+ raw "` {
  " +:+ receiverLogsVRL +:+ "
}
".

(** ** [filter.go] *)

Definition auditHost (vrls : list string) (inputs : list InputSpec) : list string :=
  if HasAuditSource inputs AuditSourceAuditd then vrls ++ [auditHostLogs] else vrls.

Definition auditKube (vrls : list string) (inputs : list InputSpec) : list string :=
  if HasAuditSource inputs AuditSourceKube then vrls ++ [auditK8sLogs] else vrls.

Definition auditOpenShift (vrls : list string) (inputs : list InputSpec) : list string :=
  if HasAuditSource inputs AuditSourceOpenShift then vrls ++ [auditOpenshiftLogs] else vrls.

Definition auditOVN (vrls : list string) (inputs : list InputSpec) : list string :=
  if HasAuditSource inputs AuditSourceOVN then vrls ++ [auditOVNLogs] else vrls.

Definition containerSource (vrls : list string) (inputs : list InputSpec) : list string :=
  if HasContainerSource inputs then vrls ++ [containerLogs] else vrls.

Definition journalSource (vrls : list string) (inputs : list InputSpec) : list string :=
  if HasJournalSource inputs then vrls ++ [journalLogs] else vrls.

Definition receiverSource (vrls : list string) (inputs : list InputSpec) : list string :=
  if HasReceiverSource inputs then vrls ++ [receiverLogs] else vrls.

Definition viaq_vrls (inputSpecs : list InputSpec) : list string :=
  let vrls := [SetHostnameOnRoot; SetLogTypeOnRoot; SetLogSourceOnRoot; SetOpenShiftOnRoot] in
  let vrls := auditHost vrls inputSpecs in
  let vrls := auditKube vrls inputSpecs in
  let vrls := auditOpenShift vrls inputSpecs in
  let vrls := auditOVN vrls inputSpecs in
  let vrls := containerSource vrls inputSpecs in
  let vrls := journalSource vrls inputSpecs in
  let vrls := receiverSource vrls inputSpecs in
  vrls ++ [RemoveKubernetesForNonContainerLogs; MergeStructuredIntoRoot;
    ".timestamp = ._internal.timestamp"; raw ".`@timestamp` = ._internal.timestamp"; SetLogLevelOnRoot].

Definition viaq_New (inputs : list string) (inputSpecs : list InputSpec) : Transform :=
  Some (TRemap (Some (NewRemap (Join (viaq_vrls inputSpecs) LF) inputs))).

(** ** The program can stand in the configuration *)

Lemma viaq_closes inputs inputSpecs :
  ∃ t, viaq_New inputs inputSpecs = Some t ∧ ¬ closes (transform_value t) ∧ nil_pointer t = false.
Proof.
  eexists. split; [reflexivity|]. split; [|done]. apply NewRemap_closes.
  apply inert_Join; [done|].
  assert (∀ (b : bool) vrls vrl, (∀ s, s ∈ vrls → inert s) → inert vrl →
    ∀ s, s ∈ (if b then vrls ++ [vrl] else vrls) → inert s) as Happ.
  { intros [] vrls vrl Hv Hi s; [|by apply Hv].
    by intros [?| ->%list_elem_of_singleton]%elem_of_app; [apply Hv|]. }
  assert (∀ l s, Forall inert l → s ∈ l → inert s) as Hall by (intros l s Hl; by apply Forall_forall).
  unfold viaq_vrls. cbn zeta. intros s [Hs|Hs]%elem_of_app.
  - revert s Hs. unfold auditHost, auditKube, auditOpenShift, auditOVN, containerSource, journalSource,
      receiverSource.
    do 7 (apply Happ; [|constructor; vm_compute; reflexivity]).
    intros s. apply Hall. repeat constructor; vm_compute; reflexivity.
  - revert Hs. apply Hall. repeat constructor; vm_compute; reflexivity.
Qed.
