(* ===== verification/Network.v ===== *)
(** * Network policies and services ([internal/network], [internal/factory/network_policy.go])

    The ports the collector opens and is allowed to reach.  The packages are
    [internal/network/ports.go], [network_policy.go] and [service.go], the builders of
    [internal/runtime/network_policy.go] and [internal/factory/service.go], and the
    services of receivers of [internal/collector/input_service.go].  [url.Parse] is the
    parameter of the validation of outputs. *)

From S2P Require Import Prelude GoStrings ApiCommon ApiInputs ApiOutputs ApiForwarder VrlText.
From S2P Require Import Regex ValidateOutputs.

(** ** Ports of URLs *)

Definition ProtocolTCP : string := "TCP".
Definition ProtocolUDP : string := "UDP".
Definition DefaultHTTPPort : Z := 80.
Definition DefaultHTTPSPort : Z := 443.

Record PortProtocol := { pp_Port : Z; pp_Protocol : string }.

#[export] Instance PortProtocol_eq_dec : EqDecision PortProtocol.
Proof. solve_decision. Defined.

#[export] Instance PortProtocol_countable : Countable PortProtocol.
Proof.
  refine (inj_countable' (λ p, (pp_Port p, pp_Protocol p)) (λ p, {| pp_Port := p.1; pp_Protocol := p.2 |}) _).
  by intros [].
Defined.

Definition defaultHTTPSTCPPort : PortProtocol := {| pp_Port := DefaultHTTPSPort; pp_Protocol := ProtocolTCP |}.

(** [URL.Port]: what follows the last colon of the host if it is digits only. *)
Definition URL_Port (u : URL) : string :=
  match reverse (Split (url_Host u) ":") with
  | port :: _ :: _ => if string_forallb is_digit port then port else ""
  | _ => ""
  end.

(** [strconv.ParseInt] in base ten for 32 bits, on digits and a sign. *)
Definition maxInt32 : Z := 2147483647.

Fixpoint parse_digits (acc : Z) (s : string) : option Z :=
  match s with
  | "" => Some acc
  | String c s =>
      if is_digit c then parse_digits (10 * acc + (Z.of_nat (Ascii.nat_of_ascii c) - 48)) s else None
  end.

Definition ParseInt32 (s : string) : option Z :=
  let digits d := if d == "" then None else parse_digits 0 d in
  n ← match s with
      | String "-" d => Z.opp <$> digits d
      | String "+" d => digits d
      | _ => digits s
      end;
  if bool_decide (- maxInt32 - 1 ≤ n ≤ maxInt32)%Z then Some n else None.

Definition parsePortString (portStr : string) : option Z :=
  port ← ParseInt32 portStr;
  if bool_decide (0 < port)%Z then Some port else None.

Section network.
Context (parse_url : string → option URL).

Definition parsePortProtocolFromURL (urlStr : string) : outcome (option PortProtocol) :=
  if urlStr == "" then Ret None
  else match parse_url urlStr with
  | None => Panic ("failed to parse URL " +:+ Quote urlStr +:+ " for port and protocol")
  | Some parsedURL =>
      let '(port, protocol) :=
        if url_Scheme parsedURL == "udp" then (0%Z, ProtocolUDP)
        else if url_Scheme parsedURL == "http" then (DefaultHTTPPort, ProtocolTCP)
        else (DefaultHTTPSPort, ProtocolTCP) in
      match parsePortString (URL_Port parsedURL) with
      | Some parsedPort => Ret (Some {| pp_Port := parsedPort; pp_Protocol := protocol |})
      | None =>
          if (url_Scheme parsedURL != "http") && (url_Scheme parsedURL != "https") then
            Panic ("non-standard scheme " +:+ Quote (url_Scheme parsedURL)
              +:+ " requires an explicit port in URL " +:+ Quote urlStr)
          else Ret (Some {| pp_Port := port; pp_Protocol := protocol |})
      end
  end.

Definition getKafkaAndBrokerURLs (kafka : Kafka) : list string := kafka_URL kafka :: kafka_Brokers kafka.

Definition section_urls {A} (section : option A) (urls : A → list string) :
    outcome (list PortProtocol + list string) :=
  Ret (inr (match section with Some s => urls s | None => [] end)).

Definition optional_url {A} (section : option A) (url : A → string) : outcome (list PortProtocol + list string) :=
  match section with
  | None => Ret (inl [])
  | Some s => if url s == "" then Ret (inl [defaultHTTPSTCPPort]) else Ret (inr [url s])
  end.

(** The result of the [switch]: ports that are known, or URLs to read them from. *)
Definition output_urls (output : OutputSpec) : outcome (list PortProtocol + list string) :=
  let t := out_Type output in
  if t == OutputTypeElasticsearch then
    section_urls (out_Elasticsearch output) (λ e, (if es_URL e != "" then [es_URL e] else []) ++ es_Endpoints e)
  else if t == OutputTypeSplunk then section_urls (out_Splunk output) (λ s, [url_URL (splunk_URLSpec s)])
  else if t == OutputTypeLoki then section_urls (out_Loki output) (λ l, [url_URL (loki_URLSpec l); loki_ProxyURL l])
  else if t == OutputTypeSyslog then section_urls (out_Syslog output) (λ s, [syslog_URL s])
  else if t == OutputTypeOTLP then section_urls (out_OTLP output) (λ o, [otlp_URL o])
  else if t == OutputTypeHTTP then section_urls (out_HTTP output) (λ h, [url_URL (http_URLSpec h); http_ProxyURL h])
  else if t == OutputTypeKafka then section_urls (out_Kafka output) getKafkaAndBrokerURLs
  else if t == OutputTypeCloudwatch then optional_url (out_Cloudwatch output) cw_URL
  else if t == OutputTypeS3 then optional_url (out_S3 output) s3_URL
  else if t == OutputTypeAzureLogsIngestion then
    section_urls (out_AzureLogsIngestion output) (λ a, [url_URL (ali_URLSpec a)])
  else if t == OutputTypeLokiStack then Ret (inl [{| pp_Port := 8080; pp_Protocol := ProtocolTCP |}])
  else if (t == OutputTypeGoogleCloudLogging) || (t == OutputTypeAzureMonitor) then Ret (inl [defaultHTTPSTCPPort])
  else Panic ("Unsupported output type: " +:+ t).

Definition url_ports (urls : list string) : outcome (list PortProtocol) :=
  concat_mapM (λ url, port ← parsePortProtocolFromURL url; Ret (option_list port)) urls.

Definition getPortProtocolFromOutputURLs (output : OutputSpec) : outcome (list PortProtocol) :=
  found ← output_urls output;
  match found with
  | inl ports => Ret ports
  | inr urls => url_ports urls
  end.

Definition GetOutputPortsWithProtocols (outputs : list OutputSpec) : outcome (gset PortProtocol) :=
  portProtocols ← concat_mapM getPortProtocolFromOutputURLs outputs;
  Ret (list_to_set (filter (λ pp, (0 < pp_Port pp)%Z) portProtocols)).

Definition GetInputPorts (inputs : list InputSpec) : gset Z :=
  list_to_set (i ← inputs;
    if in_Type i == InputTypeReceiver then
      match in_Receiver i with
      | Some r => if bool_decide (0 < recv_Port r)%Z then [recv_Port r] else []
      | None => []
      end
    else []).

(** ** Proxies

    The environment is a map from names to values. *)
Definition ProxyEnvVars : list string :=
  ["HTTPS_PROXY"; "https_proxy"; "HTTP_PROXY"; "http_proxy"; "NO_PROXY"; "no_proxy"].

(** Of the sources of a value only the fields of the pod are used. *)
Record ObjectFieldSelector := { ofs_APIVersion : string; ofs_FieldPath : string }.

Record EnvVar := { env_Name : string; env_Value : string; env_ValueFrom : option ObjectFieldSelector }.

Definition GetProxyEnvVars (Getenv : string → string) (ExtraNoProxyList : list string) : list EnvVar :=
  envvar ← ProxyEnvVars;
  let value := Getenv envvar in
  if value != "" then
    let value :=
      if ((envvar == "NO_PROXY") || (envvar == "no_proxy")) && negb (length ExtraNoProxyList =? 0)%nat
      then Join ExtraNoProxyList "," +:+ "," +:+ value else value in
    [{| env_Name := ToLower envvar; env_Value := value; env_ValueFrom := None |}]
  else [].

Definition GetProxyPorts (proxyEnvVars : list EnvVar) : outcome (gset PortProtocol) :=
  ports ← concat_mapM (λ envVar,
    if (env_Name envVar == "no_proxy") || (env_Value envVar == "") then Ret []
    else port ← parsePortProtocolFromURL (env_Value envVar); Ret (option_list port)) proxyEnvVars;
  Ret (list_to_set ports).

(** The ports the outputs and the proxies need; [None] is the nil slice. *)
Definition DetermineEgressPortProtocols (proxyEnvVars : list EnvVar) (outputs : list OutputSpec)
    (policyRuleSet : NetworkPolicyRuleSetType) : outcome (gset PortProtocol) :=
  if policyRuleSet != NetworkPolicyRuleSetTypeRestrictIngressEgress then Ret ∅
  else
    egressPortMap ← GetOutputPortsWithProtocols outputs;
    proxy ← GetProxyPorts proxyEnvVars;
    Ret (egressPortMap ∪ proxy).

Definition DetermineIngressPortProtocols (inputs : list InputSpec) (policyRuleSet : NetworkPolicyRuleSetType) : gset Z :=
  if policyRuleSet != NetworkPolicyRuleSetTypeRestrictIngressEgress then ∅ else GetInputPorts inputs.
End network.

(** ** Labels ([internal/runtime/runtime.go]) *)

Definition LabelK8sName : string := "app.kubernetes.io/name".
Definition LabelK8sInstance : string := "app.kubernetes.io/instance".
Definition LabelK8sVersion : string := "app.kubernetes.io/version".
Definition LabelK8sComponent : string := "app.kubernetes.io/component".
Definition LabelK8sPartOf : string := "app.kubernetes.io/part-of".
Definition LabelK8sManagedBy : string := "app.kubernetes.io/managed-by".
Definition LabelLoggingServiceType : string := "logging.observability.openshift.io/service-type".
Definition LabelLoggingInputServiceType : string := "logging.observability.openshift.io/input-service-type".
Definition ClusterLogging : string := "cluster-logging".
Definition ClusterLoggingOperator : string := "cluster-logging-operator".
Definition CollectorName : string := "collector".
Definition VectorName : string := "vector".
Definition LogfilesmetricexporterName : string := "logfilesmetricexporter".
Definition MetricsPort : Z := 24231.
Definition LogfilesmetricexporterPort : Z := 2112.
Definition version : string := "6.7.0".

(** [AddLabels]: the labels of the object win. *)
Definition AddLabels (existed labels : gmap string string) : gmap string string := existed ∪ labels.

Definition SetCommonLabels (labels : gmap string string) (name instanceName component : string) : gmap string string :=
  AddLabels labels (list_to_map
    [(LabelK8sName, name); (LabelK8sInstance, instanceName); (LabelK8sComponent, component);
     (LabelK8sPartOf, ClusterLogging); (LabelK8sManagedBy, ClusterLoggingOperator); (LabelK8sVersion, version)]).

Definition Selectors (instanceName component name : string) : gmap string string := list_to_map
  [(LabelK8sName, name); (LabelK8sInstance, instanceName); (LabelK8sComponent, component);
   (LabelK8sPartOf, ClusterLogging); (LabelK8sManagedBy, ClusterLoggingOperator)].

(** A change of the labels of an object: what the visitors of this operator do. *)
Definition visitor := gmap string string → gmap string string.

(** [CommonLabelInitializer] of the collector's factory. *)
Definition CommonLabelInitializer (forwarderName : string) : visitor :=
  λ labels, SetCommonLabels labels VectorName forwarderName CollectorName.

(** ** The builder of policies ([internal/runtime/network_policy.go]) *)

Definition PolicyTypeIngress : string := "Ingress".
Definition PolicyTypeEgress : string := "Egress".

Record NetworkPolicyPort := { npp_Protocol : string; npp_Port : IntOrString }.

#[export] Instance IntOrString_eq_dec : EqDecision IntOrString.
Proof. solve_decision. Defined.

#[export] Instance NetworkPolicyPort_eq_dec : EqDecision NetworkPolicyPort.
Proof. solve_decision. Defined.

(** A rule is its ports: one without ports allows everything. *)
Definition rule := list NetworkPolicyPort.

Record NetworkPolicyObject := {
  np_Namespace : string;
  np_Name : string;
  np_Labels : gmap string string;
  np_PodSelector : gmap string string;
  np_PolicyTypes : list string;
  np_Ingress : list rule;
  np_Egress : list rule;
}.

(** [json.MustMarshal] of a port. *)
Definition port_json (p : NetworkPolicyPort) : string :=
  "{" +:+ LF +:+ "  " +:+ json_string "protocol" +:+ ": " +:+ json_string (npp_Protocol p) +:+ "," +:+ LF
  +:+ "  " +:+ json_string "port" +:+ ": "
  +:+ (match npp_Port p with FromInt n => Itoa n | FromString s => json_string s end) +:+ LF +:+ "}".

Definition port_le (p q : NetworkPolicyPort) : Prop := String.le (port_json p) (port_json q).

#[export] Instance port_le_dec : RelDecision port_le.
Proof. intros p q. unfold port_le. apply _. Defined.

Definition sort_ports (r : rule) : rule := merge_sort port_le r.

(** The rules are sorted by their number of ports. *)
Definition fewer_ports (r1 r2 : rule) : Prop := (length r1 ≤ length r2)%nat.

#[export] Instance fewer_ports_dec : RelDecision fewer_ports.
Proof. intros r1 r2. unfold fewer_ports. apply _. Defined.

Definition with_type (t : string) (types : list string) : list string :=
  if bool_decide (t ∈ types) then types else types ++ [t].

Definition np_set_Ingress (np : NetworkPolicyObject) (types : list string) (rules : list rule) : NetworkPolicyObject := {|
  np_Namespace := np_Namespace np; np_Name := np_Name np; np_Labels := np_Labels np;
  np_PodSelector := np_PodSelector np; np_PolicyTypes := types; np_Ingress := rules; np_Egress := np_Egress np |}.

Definition np_set_Egress (np : NetworkPolicyObject) (types : list string) (rules : list rule) : NetworkPolicyObject := {|
  np_Namespace := np_Namespace np; np_Name := np_Name np; np_Labels := np_Labels np;
  np_PodSelector := np_PodSelector np; np_PolicyTypes := types; np_Ingress := np_Ingress np; np_Egress := rules |}.

Definition AllowAllIngress (np : NetworkPolicyObject) : NetworkPolicyObject :=
  np_set_Ingress np (with_type PolicyTypeIngress (np_PolicyTypes np)) (np_Ingress np ++ [[]]).

Definition AllowAllEgress (np : NetworkPolicyObject) : NetworkPolicyObject :=
  np_set_Egress np (with_type PolicyTypeEgress (np_PolicyTypes np)) (np_Egress np ++ [[]]).

Definition OnPort (r : rule) (protocol : string) (port : Z) : rule :=
  r ++ [{| npp_Protocol := protocol; npp_Port := FromInt port |}].

Definition OnNamedPort (r : rule) (protocol portName : string) : rule :=
  r ++ [{| npp_Protocol := protocol; npp_Port := FromString portName |}].

(** [End] of a rule: the ports of every rule are sorted, and then the rules. *)
Definition end_rule (rules : list rule) (r : rule) : list rule :=
  merge_sort fewer_ports (sort_ports <$> (rules ++ [r])).

(** A rule from [NewIngressRule] to [End]. *)
Definition ingress_rule (np : NetworkPolicyObject) (r : rule) : NetworkPolicyObject :=
  np_set_Ingress np (with_type PolicyTypeIngress (np_PolicyTypes np)) (end_rule (np_Ingress np) r).

Definition egress_rule (np : NetworkPolicyObject) (r : rule) : NetworkPolicyObject :=
  np_set_Egress np (with_type PolicyTypeEgress (np_PolicyTypes np)) (end_rule (np_Egress np) r).

(** ** The policies ([internal/factory/network_policy.go]) *)

Definition DNSPortName : string := "dns".
Definition KubeAPIPort : Z := 6443.
Definition NetworkPolicyRuleSetTypeAllowIngressMetrics : string := "AllowIngressMetrics".

Definition NetworkPolicyTypeAllowAllIngressEgress (np : NetworkPolicyObject) : NetworkPolicyObject :=
  AllowAllEgress (AllowAllIngress np).

Definition NetworkPolicyTypeRestrictIngressEgressWithProtocols (np : NetworkPolicyObject) (ingressPorts : list Z)
    (egressPorts : list PortProtocol) (metricsPort : Z) : NetworkPolicyObject :=
  let ingressRule := foldl (λ r port, OnPort r ProtocolTCP port) (OnPort [] ProtocolTCP metricsPort) ingressPorts in
  let np := ingress_rule np ingressRule in
  let egressRule := foldl (λ r pp, OnPort r (pp_Protocol pp) (pp_Port pp))
    (OnPort (OnNamedPort [] ProtocolUDP DNSPortName) ProtocolTCP KubeAPIPort) egressPorts in
  egress_rule np egressRule.

Definition NetworkPolicyTypeAllowIngressMetrics (np : NetworkPolicyObject) (port : Z) : NetworkPolicyObject :=
  NetworkPolicyTypeRestrictIngressEgressWithProtocols np [] [] port.

Definition NewNetworkPolicyWithProtocolPorts (namespace policyName instanceName component policyRuleSet : string)
    (egressPorts : list PortProtocol) (ingressPorts : list Z) (visit : visitor) : NetworkPolicyObject :=
  let labels := visit ∅ in
  let np := {| np_Namespace := namespace; np_Name := policyName; np_Labels := labels;
    np_PodSelector := Selectors instanceName component (default "" (labels !! LabelK8sName));
    np_PolicyTypes := []; np_Ingress := []; np_Egress := [] |} in
  let metricsPort := if component == LogfilesmetricexporterName then LogfilesmetricexporterPort else MetricsPort in
  if policyRuleSet == NetworkPolicyRuleSetTypeAllowAllIngressEgress then NetworkPolicyTypeAllowAllIngressEgress np
  else if policyRuleSet == NetworkPolicyRuleSetTypeAllowIngressMetrics then
    NetworkPolicyTypeAllowIngressMetrics np metricsPort
  else if policyRuleSet == NetworkPolicyRuleSetTypeRestrictIngressEgress then
    NetworkPolicyTypeRestrictIngressEgressWithProtocols np ingressPorts egressPorts metricsPort
  else NetworkPolicyTypeAllowAllIngressEgress np.

(** [ReconcileClusterLogForwarderNetworkPolicy]: the policy that is applied.  The
    functions give the elements of the sets in the order in which Go visits them. *)
Definition ForwarderNetworkPolicy (parse_url : string → option URL)
    (visit_egress : gset PortProtocol → list PortProtocol) (visit_ingress : gset Z → list Z)
    (proxyEnvVars : list EnvVar) (namespace policyName instanceName component policyRuleSet : string)
    (outputs : list OutputSpec) (inputs : list InputSpec) (visit : visitor) : outcome NetworkPolicyObject :=
  egressPorts ← DetermineEgressPortProtocols parse_url proxyEnvVars outputs policyRuleSet;
  let ingressPorts := DetermineIngressPortProtocols inputs policyRuleSet in
  Ret (NewNetworkPolicyWithProtocolPorts namespace policyName instanceName component policyRuleSet
    (visit_egress egressPorts) (visit_ingress ingressPorts) visit).

(** ** The ports of a forwarder *)

Section ports.
Context (parse_url : string → option URL).

(** The protocol of a URL, and the port it names or its scheme stands for. *)
Definition scheme_protocol (p : URL) : string := if url_Scheme p == "udp" then ProtocolUDP else ProtocolTCP.

Definition port_of (p : URL) : option Z :=
  match parsePortString (URL_Port p) with
  | Some port => Some port
  | None =>
      if url_Scheme p == "http" then Some DefaultHTTPPort
      else if url_Scheme p == "https" then Some DefaultHTTPSPort else None
  end.

(** The port and the protocol by which a URL is reached. *)
Definition reached_by (u : string) (pp : PortProtocol) : Prop :=
  ∃ p, parse_url u = Some p ∧ port_of p = Some (pp_Port pp) ∧ pp_Protocol pp = scheme_protocol p.

Lemma parsePortString_bounds s n : parsePortString s = Some n → (0 < n ≤ maxInt32)%Z.
Proof.
  unfold parsePortString, ParseInt32. intros (p & Hp & Hn)%bind_Some. apply bind_Some in Hp as (q & _ & Hq).
  case_bool_decide; [|done]. case_bool_decide; [|done]. injection Hq as ->. injection Hn as ->. lia.
Qed.

Lemma reached_by_bounds u pp : reached_by u pp → (0 < pp_Port pp ≤ maxInt32)%Z.
Proof.
  intros (p & _ & Hp & _). unfold port_of in Hp.
  destruct (parsePortString (URL_Port p)) as [port|] eqn:E; [injection Hp as <-; by eapply parsePortString_bounds|].
  repeat case_match; try done; injection Hp as <-; by split.
Qed.

Lemma parsePortProtocolFromURL_spec u :
  u ≠ "" →
  (∃ pp, reached_by u pp ∧ parsePortProtocolFromURL parse_url u = Ret (Some pp)) ∨
  ((∀ pp, ¬ reached_by u pp) ∧ ¬ returns (parsePortProtocolFromURL parse_url u)).
Proof.
  intros Hu%String.eqb_neq. unfold parsePortProtocolFromURL, reached_by, scheme_protocol, port_of. rewrite Hu.
  destruct (parse_url u) as [p|].
  2: { right. split; [by intros pp (? & [=] & _)|by intros [? [=]]]. }
  destruct (parsePortString (URL_Port p)) as [port|] eqn:E.
  { left. exists {| pp_Port := port; pp_Protocol := scheme_protocol p |}. unfold scheme_protocol.
    split; [exists p; by rewrite E|]. by destruct (url_Scheme p == "udp"), (url_Scheme p == "http"). }
  destruct (String.eqb_spec (url_Scheme p) "udp") as [Es|Hudp]; [rewrite Es; cbn|].
  { right. split; [|by intros [? [=]]]. intros pp (? & [= <-] & Hq & _). by rewrite E, Es in Hq. }
  destruct (String.eqb_spec (url_Scheme p) "http") as [Es|Hhttp]; [rewrite ?Es; cbn|].
  { left. exists {| pp_Port := DefaultHTTPPort; pp_Protocol := ProtocolTCP |}. split; [|done]. exists p. by rewrite E, Es. }
  destruct (String.eqb_spec (url_Scheme p) "https") as [Es|Hhttps]; [rewrite ?Es; cbn|].
  { left. exists {| pp_Port := DefaultHTTPSPort; pp_Protocol := ProtocolTCP |}. split; [|done]. exists p. by rewrite E, Es. }
  right. split; [|by intros [? [=]]]. intros pp (q & [= <-] & Hq & _).
  apply String.eqb_neq in Hhttp, Hhttps. by rewrite E, Hhttp, Hhttps in Hq.
Qed.

(** What a URL adds to a list of ports. *)
Lemma url_ports_one u :
  (returns (port ← parsePortProtocolFromURL parse_url u; Ret (option_list port)) ↔
     (u ≠ "" → ∃ pp, reached_by u pp)) ∧
  ∀ l, (port ← parsePortProtocolFromURL parse_url u; Ret (option_list port)) = Ret l →
    ∀ pp, pp ∈ l ↔ u ≠ "" ∧ reached_by u pp.
Proof.
  destruct (decide (u = "")) as [->|Hu].
  { split; [split; [by intros _ []|intros _; by eexists]|]. cbn. intros l [= <-] pp. split; [by intros ?%not_elem_of_nil|by intros []]. }
  destruct (parsePortProtocolFromURL_spec u Hu) as [(pp & Hpp & ->)|[Hno Hret]].
  - cbn. split; [split; [intros _ _; by exists pp|intros _; by eexists]|].
    intros l [= <-] pp'. rewrite list_elem_of_singleton. split; [by intros ->|]. intros [_ Hpp'].
    destruct Hpp as (p & E & H1 & H2), Hpp' as (p' & E' & H1' & H2'). destruct pp, pp'. cbn in *. congruence.
  - split; [split; [by intros ?%returns_bind_inv|intros Hex; destruct (Hex Hu) as [pp Hpp]; by apply Hno in Hpp]|].
    intros l (o & Ho & _)%bind_ret_inv. exfalso. apply Hret. by eexists.
Qed.

(** The URLs an output is reached by, or the ports it is known to use. *)
Definition reached_urls (o : OutputSpec) : list string :=
  match output_urls o with Ret (inr urls) => urls | _ => [] end.

Definition fixed_ports (o : OutputSpec) : list PortProtocol :=
  match output_urls o with Ret (inl ports) => ports | _ => [] end.

Lemma output_urls_returns o : out_Type o ∈ OutputTypes → ∃ r, output_urls o = Ret r.
Proof.
  intros Ht. unfold output_urls, section_urls, optional_url. unfold OutputTypes in Ht. rewrite !elem_of_cons in Ht.
  repeat (destruct Ht as [->|Ht]; [cbn; repeat case_match; by eexists|]). by apply not_elem_of_nil in Ht.
Qed.

Lemma fixed_ports_positive o pp : pp ∈ fixed_ports o → (0 < pp_Port pp ≤ maxInt32)%Z.
Proof.
  unfold fixed_ports, output_urls, section_urls, optional_url. repeat case_match; simplify_eq;
    rewrite ?list_elem_of_singleton; try (by intros ?%not_elem_of_nil); intros ->; by split.
Qed.

Lemma output_ports_spec o :
  out_Type o ∈ OutputTypes →
  (returns (getPortProtocolFromOutputURLs parse_url o) ↔
     ∀ u, u ∈ reached_urls o → u ≠ "" → ∃ pp, reached_by u pp) ∧
  ∀ l, getPortProtocolFromOutputURLs parse_url o = Ret l →
    ∀ pp, pp ∈ l ↔ pp ∈ fixed_ports o ∨ ∃ u, u ∈ reached_urls o ∧ u ≠ "" ∧ reached_by u pp.
Proof.
  intros Ht. unfold getPortProtocolFromOutputURLs, fixed_ports, reached_urls.
  destruct (output_urls_returns o Ht) as [[ports|urls] ->]; cbn [mbind outcome_bind].
  { split; [split; [by intros _ u ?%not_elem_of_nil|intros _; by eexists]|].
    intros l [= <-] pp. split; [by left|]. by intros [?|(u & ?%not_elem_of_nil & _)]. }
  unfold url_ports. split.
  - rewrite concat_mapM_returns_iff. split; intros Hall u Hu; by apply (proj1 (url_ports_one u)), Hall.
  - intros l Hl pp. rewrite (elem_of_concat_mapM _ _ _ _ Hl). split.
    + intros (u & zs & Hu & Hz & Hpp). right. exists u. split; [done|]. by apply (proj2 (url_ports_one u) zs Hz).
    + intros [?%not_elem_of_nil|(u & Hu & Hne & Hpp)]; [done|].
      destruct (proj2 (proj1 (url_ports_one u)) (λ _, ex_intro _ pp Hpp)) as [zs Hz].
      exists u, zs. split; [done|]. split; [done|]. by apply (proj2 (url_ports_one u) zs Hz).
Qed.

(** A proxy whose port is opened. *)
Definition proxied (env : EnvVar) : Prop := env_Name env ≠ "no_proxy" ∧ env_Value env ≠ "".

Lemma GetProxyPorts_spec envs :
  (returns (GetProxyPorts parse_url envs) ↔ ∀ e, e ∈ envs → proxied e → ∃ pp, reached_by (env_Value e) pp) ∧
  ∀ s, GetProxyPorts parse_url envs = Ret s →
    ∀ pp, pp ∈ s ↔ ∃ e, e ∈ envs ∧ proxied e ∧ reached_by (env_Value e) pp.
Proof.
  unfold GetProxyPorts. set (f := λ envVar : EnvVar, _).
  assert (∀ e, (returns (f e) ↔ (proxied e → ∃ pp, reached_by (env_Value e) pp)) ∧
    ∀ l, f e = Ret l → ∀ pp, pp ∈ l ↔ proxied e ∧ reached_by (env_Value e) pp) as Hf.
  { intros e. unfold f, proxied. destruct (String.eqb_spec (env_Name e) "no_proxy") as [En|En]; cbn [orb].
    { split; [split; [by intros _ []|intros _; by eexists]|]. intros l [= <-] pp.
      split; [by intros ?%not_elem_of_nil|by intros [[] _]]. }
    destruct (String.eqb_spec (env_Value e) "") as [Ev|Ev].
    { split; [split; [by intros _ []|intros _; by eexists]|]. intros l [= <-] pp.
      split; [by intros ?%not_elem_of_nil|by intros [[_ []] _]]. }
    destruct (url_ports_one (env_Value e)) as [H1 H2]. split; [rewrite H1; tauto|].
    intros l Hl pp. rewrite (H2 l Hl). tauto. }
  split.
  - split.
    + intros Hr%returns_bind_inv e He. by apply Hf, (proj1 (concat_mapM_returns_iff _ _) Hr).
    + intros Hall. apply returns_bind; [|intros l _; by eexists]. apply concat_mapM_returns. intros e He. by apply Hf, Hall.
  - intros s (l & Hl & [= <-])%bind_ret_inv pp. rewrite elem_of_list_to_set, (elem_of_concat_mapM _ _ _ _ Hl). split.
    + intros (e & zs & He & Hz & Hpp). exists e. by apply (proj2 (Hf e) zs Hz) in Hpp as [? ?].
    + intros (e & He & Hp & Hpp). destruct (proj2 (proj1 (Hf e)) (λ _, ex_intro _ pp Hpp)) as [zs Hz].
      exists e, zs. split; [done|]. split; [done|]. by apply (proj2 (Hf e) zs Hz).
Qed.

Lemma GetOutputPorts_spec outputs :
  (∀ o, o ∈ outputs → out_Type o ∈ OutputTypes) →
  (returns (GetOutputPortsWithProtocols parse_url outputs) ↔
     ∀ o u, o ∈ outputs → u ∈ reached_urls o → u ≠ "" → ∃ pp, reached_by u pp) ∧
  ∀ s, GetOutputPortsWithProtocols parse_url outputs = Ret s →
    ∀ pp, pp ∈ s ↔ ∃ o, o ∈ outputs ∧ (pp ∈ fixed_ports o ∨ ∃ u, u ∈ reached_urls o ∧ u ≠ "" ∧ reached_by u pp).
Proof.
  intros Ht. unfold GetOutputPortsWithProtocols. split.
  - split.
    + intros Hr%returns_bind_inv o u Ho. revert u. apply (proj1 (output_ports_spec o (Ht o Ho))).
      by apply (proj1 (concat_mapM_returns_iff _ _) Hr).
    + intros Hall. apply returns_bind; [|intros l _; by eexists]. apply concat_mapM_returns.
      intros o Ho. apply (proj1 (output_ports_spec o (Ht o Ho))). intros u. by apply Hall.
  - intros s (l & Hl & [= <-])%bind_ret_inv pp.
    rewrite elem_of_list_to_set, list_elem_of_filter, (elem_of_concat_mapM _ _ _ _ Hl). split.
    + intros (_ & o & zs & Ho & Hz & Hpp). exists o. split; [done|]. by apply (proj2 (output_ports_spec o (Ht o Ho)) zs Hz).
    + intros (o & Ho & Hpp). split.
      { destruct Hpp as [Hf|(u & _ & _ & Hu)]; [apply fixed_ports_positive in Hf; lia|apply reached_by_bounds in Hu; lia]. }
      assert (returns (getPortProtocolFromOutputURLs parse_url o)) as [zs Hz]
        by (apply (proj1 (concat_mapM_returns_iff _ _) (ex_intro _ l Hl)); done).
      exists o, zs. split; [done|]. split; [done|]. by apply (proj2 (output_ports_spec o (Ht o Ho)) zs Hz).
Qed.

(** C38. What a restricted collector may reach.  The operator panics exactly when a URL of
    an output or of a proxy cannot be parsed, or has neither a port nor one of the two
    schemes of HTTP; the validation does not look for this.  Otherwise the ports that
    are opened are those by which the URLs are reached and the known ones of outputs
    without a URL, each with its protocol; they are positive numbers of 32 bits, but a
    port that is not one, such as 70000, is opened too. *)
Theorem egress_ports_correct envs outputs :
  (∀ o, o ∈ outputs → out_Type o ∈ OutputTypes) →
  (returns (DetermineEgressPortProtocols parse_url envs outputs NetworkPolicyRuleSetTypeRestrictIngressEgress) ↔
     (∀ o u, o ∈ outputs → u ∈ reached_urls o → u ≠ "" → ∃ pp, reached_by u pp) ∧
     (∀ e, e ∈ envs → proxied e → ∃ pp, reached_by (env_Value e) pp)) ∧
  (∀ s, DetermineEgressPortProtocols parse_url envs outputs NetworkPolicyRuleSetTypeRestrictIngressEgress = Ret s →
     ∀ pp, pp ∈ s ↔
       (∃ o, o ∈ outputs ∧ (pp ∈ fixed_ports o ∨ ∃ u, u ∈ reached_urls o ∧ u ≠ "" ∧ reached_by u pp)) ∨
       (∃ e, e ∈ envs ∧ proxied e ∧ reached_by (env_Value e) pp)) ∧
  (∀ u pp, reached_by u pp → (0 < pp_Port pp ≤ maxInt32)%Z) ∧
  parsePortString "70000" = Some 70000%Z ∧ parsePortString "2147483648" = None.
Proof.
  intros Ht. unfold DetermineEgressPortProtocols. cbn [String.eqb negb]. rewrite String.eqb_refl. cbn [negb].
  destruct (GetOutputPorts_spec outputs Ht) as [Ho1 Ho2], (GetProxyPorts_spec envs) as [Hp1 Hp2].
  split; [|split; [|split; [intros u pp; apply reached_by_bounds|done]]].
  - rewrite <-Ho1, <-Hp1. split.
    + intros [s (os & Ho & (ps & Hp & _)%bind_ret_inv)%bind_ret_inv]. split; by eexists.
    + intros [[os ->] [ps ->]]. by eexists.
  - intros s (os & Ho & (ps & Hp & [= <-])%bind_ret_inv)%bind_ret_inv pp.
    by rewrite elem_of_union, (Ho2 os Ho), (Hp2 ps Hp).
Qed.
End ports.

(** ** The policies *)

(** The ports the operator writes: a number, or the name of the port of the DNS. *)
Definition plain_port (p : NetworkPolicyPort) : Prop :=
  (npp_Protocol p = ProtocolTCP ∨ npp_Protocol p = ProtocolUDP) ∧
  ((∃ n, npp_Port p = FromInt n) ∨ npp_Port p = FromString DNSPortName).

Lemma port_json_inj p q : plain_port p → plain_port q → port_json p = port_json q → p = q.
Proof.
  assert (∀ n t, Itoa n +:+ t ≠ json_string "dns" +:+ t) as Hdns.
  { intros n t E%string_app_inj_r. pose proof (Itoa_not_quote n) as Hq. by rewrite E in Hq. }
  destruct p as [p1 p2], q as [q1 q2]. intros [Hp1 Hp2] [Hq1 Hq2] E. cbn [npp_Protocol npp_Port] in *.
  unfold port_json in E. cbn [npp_Protocol npp_Port] in E.
  assert (p1 = q1) as ->.
  { destruct Hp1 as [->| ->], Hq1 as [->| ->]; try done; apply (f_equal (take_bytes 25)) in E; by vm_compute in E. }
  repeat apply string_app_inj_l in E.
  destruct Hp2 as [[n ->]| ->], Hq2 as [[m ->]| ->]; try done.
  - apply string_app_inj_r in E. unfold Itoa in E. by apply (inj pretty) in E as ->.
  - by apply Hdns in E.
  - symmetry in E. by apply Hdns in E.
Qed.

Lemma sort_ports_perm r : sort_ports r ≡ₚ r.
Proof. apply merge_sort_Permutation. Qed.

#[local] Instance port_le_total : Total port_le.
Proof. intros p q. apply (total String.le). Qed.

#[local] Instance port_le_trans : Transitive port_le.
Proof. intros p q r. apply (transitivity (R := String.le)). Qed.

(** The order of the ports of a rule does not matter. *)
Lemma sort_ports_proper r1 r2 : Forall plain_port r1 → r1 ≡ₚ r2 → sort_ports r1 = sort_ports r2.
Proof.
  intros Hp Hperm. apply (StronglySorted_unique_strong port_le).
  - intros p q Hp1 Hq1 H1 H2. rewrite sort_ports_perm in Hp1. rewrite sort_ports_perm, <-Hperm in Hq1.
    rewrite Forall_forall in Hp. apply port_json_inj; [by apply Hp..|].
    by apply (anti_symm String.le).
  - apply StronglySorted_merge_sort; apply _.
  - apply StronglySorted_merge_sort; apply _.
  - by rewrite !sort_ports_perm.
Qed.

Definition known_protocol (pp : PortProtocol) : Prop := pp_Protocol pp = ProtocolTCP ∨ pp_Protocol pp = ProtocolUDP.

Section protocols.
Context (parse_url : string → option URL).

Lemma URL_known_protocol u pp : parsePortProtocolFromURL parse_url u = Ret (Some pp) → known_protocol pp.
Proof.
  unfold parsePortProtocolFromURL, known_protocol. case_match; [done|]. case_match; [|done].
  destruct (url_Scheme _ == "udp"), (url_Scheme _ == "http"); repeat case_match; intros [= <-]; auto.
Qed.

Lemma url_ports_known l ports pp : url_ports parse_url l = Ret ports → pp ∈ ports → known_protocol pp.
Proof.
  intros Hl Hpp. apply (elem_of_concat_mapM _ _ _ _ Hl) in Hpp as (u & zs & _ & (port & Hu & [= <-])%bind_ret_inv & Hpp).
  destruct port as [q|]; [|by apply not_elem_of_nil in Hpp]. apply list_elem_of_singleton in Hpp as ->.
  by eapply URL_known_protocol.
Qed.

Lemma output_ports_known o ports pp :
  getPortProtocolFromOutputURLs parse_url o = Ret ports → pp ∈ ports → known_protocol pp.
Proof.
  intros (r & Hr & E)%bind_ret_inv. destruct r as [fixed|urls]; [|by apply url_ports_known with urls].
  injection E as <-. unfold output_urls, section_urls, optional_url in Hr.
  repeat case_match; simplify_eq; rewrite ?list_elem_of_singleton; try (by intros ?%not_elem_of_nil); intros ->; by left.
Qed.

Lemma egress_known envs outputs ruleSet s pp :
  DetermineEgressPortProtocols parse_url envs outputs ruleSet = Ret s → pp ∈ s → known_protocol pp.
Proof.
  unfold DetermineEgressPortProtocols. case_match; [intros [= <-]; set_solver|].
  intros (os & (ol & Hol & [= <-])%bind_ret_inv & (ps & (pl & Hpl & [= <-])%bind_ret_inv & [= <-])%bind_ret_inv)%bind_ret_inv.
  rewrite elem_of_union, !elem_of_list_to_set, list_elem_of_filter. intros [[_ Hpp]|Hpp].
  - apply (elem_of_concat_mapM _ _ _ _ Hol) in Hpp as (o & zs & _ & Hz & Hpp). by eapply output_ports_known.
  - apply (elem_of_concat_mapM _ _ _ _ Hpl) in Hpp as (e & zs & _ & Hz & Hpp). case_match.
    + injection Hz as <-. by apply not_elem_of_nil in Hpp.
    + apply bind_ret_inv in Hz as ([q|] & Hq & [= <-]); [|by apply not_elem_of_nil in Hpp].
      apply list_elem_of_singleton in Hpp as ->. by eapply URL_known_protocol.
Qed.
End protocols.

Definition tcp (port : Z) : NetworkPolicyPort := {| npp_Protocol := ProtocolTCP; npp_Port := FromInt port |}.
Definition port_rule (pp : PortProtocol) : NetworkPolicyPort :=
  {| npp_Protocol := pp_Protocol pp; npp_Port := FromInt (pp_Port pp) |}.
Definition dns : NetworkPolicyPort := {| npp_Protocol := ProtocolUDP; npp_Port := FromString DNSPortName |}.

Lemma foldl_OnPort l : ∀ r, foldl (λ r port, OnPort r ProtocolTCP port) r l = r ++ (tcp <$> l).
Proof.
  induction l as [|p l IH]; intros r; cbn; [by rewrite app_nil_r|]. rewrite IH. unfold OnPort. by rewrite <-app_assoc.
Qed.

Lemma foldl_OnPort_pp l : ∀ r, foldl (λ r pp, OnPort r (pp_Protocol pp) (pp_Port pp)) r l = r ++ (port_rule <$> l).
Proof.
  induction l as [|p l IH]; intros r; cbn; [by rewrite app_nil_r|]. rewrite IH. unfold OnPort. by rewrite <-app_assoc.
Qed.

(** The restricted policy, its two rules written as sorted lists of ports. *)
Lemma restricted_policy np ingress egress metricsPort :
  np_PolicyTypes np = [] → np_Ingress np = [] → np_Egress np = [] →
  let np' := NetworkPolicyTypeRestrictIngressEgressWithProtocols np ingress egress metricsPort in
  np_PolicyTypes np' = [PolicyTypeIngress; PolicyTypeEgress] ∧
  np_Ingress np' = [sort_ports (tcp metricsPort :: (tcp <$> ingress))] ∧
  np_Egress np' = [sort_ports (dns :: tcp KubeAPIPort :: (port_rule <$> egress))] ∧
  np_PodSelector np' = np_PodSelector np ∧ np_Labels np' = np_Labels np ∧
  np_Namespace np' = np_Namespace np ∧ np_Name np' = np_Name np.
Proof.
  intros H1 H2 H3. cbv zeta. unfold NetworkPolicyTypeRestrictIngressEgressWithProtocols.
  rewrite foldl_OnPort, foldl_OnPort_pp. unfold egress_rule, ingress_rule, end_rule. cbn. by rewrite H1, H2, H3.
Qed.

Section policies.
Context (parse_url : string → option URL).
Context (visit_egress : gset PortProtocol → list PortProtocol) (visit_ingress : gset Z → list Z).
Context (egress_perm : ∀ s, visit_egress s ≡ₚ elements s) (ingress_perm : ∀ s, visit_ingress s ≡ₚ elements s).

Lemma ingress_rule_order ports metricsPort :
  sort_ports (tcp metricsPort :: (tcp <$> visit_ingress ports)) =
  sort_ports (tcp metricsPort :: (tcp <$> elements ports)).
Proof.
  apply sort_ports_proper; [|by rewrite ingress_perm].
  constructor; [by split; [left|left; eexists]|]. apply Forall_fmap, Forall_true. intros n.
  by split; [left|left; eexists].
Qed.

Lemma egress_rule_order s :
  (∀ pp, pp ∈ s → known_protocol pp) →
  sort_ports (dns :: tcp KubeAPIPort :: (port_rule <$> visit_egress s)) =
  sort_ports (dns :: tcp KubeAPIPort :: (port_rule <$> elements s)).
Proof.
  intros Hs. apply sort_ports_proper; [|by rewrite egress_perm].
  constructor; [by split; [right|right]|]. constructor; [by split; [left|left; eexists]|].
  apply Forall_fmap, Forall_forall. intros pp Hpp. rewrite egress_perm, elem_of_elements in Hpp.
  split; [by apply Hs|left; by eexists].
Qed.

(** C37. The network policy of a forwarder.  With the restricting rule set the policy
    covers both directions and the pods of the collector: what comes in is for the port
    of the metrics or for a receiver, and what goes out is for the DNS, the API server,
    or a port the outputs and proxies need, with its protocol.  The policy does not
    depend on the order in which the maps of ports are visited, so that reconciling
    again changes nothing.  With any other rule set everything is allowed, unless it is
    the one of the metrics exporter. *)
Theorem ForwarderNetworkPolicy_correct envs ns name instanceName component outputs inputs visit ruleSet r :
  ForwarderNetworkPolicy parse_url visit_egress visit_ingress envs ns name instanceName component ruleSet
    outputs inputs visit = r →
  r = ForwarderNetworkPolicy parse_url elements elements envs ns name instanceName component ruleSet
    outputs inputs visit ∧
  (∀ np, r = Ret np →
     (ruleSet = NetworkPolicyRuleSetTypeRestrictIngressEgress →
        ∃ s, DetermineEgressPortProtocols parse_url envs outputs ruleSet = Ret s ∧
          np_PolicyTypes np = [PolicyTypeIngress; PolicyTypeEgress] ∧
          (∃ rule, np_Ingress np = [rule] ∧ rule ≡ₚ tcp (if component == LogfilesmetricexporterName
             then LogfilesmetricexporterPort else MetricsPort) :: (tcp <$> elements (GetInputPorts inputs))) ∧
          (∃ rule, np_Egress np = [rule] ∧ rule ≡ₚ dns :: tcp KubeAPIPort :: (port_rule <$> elements s))) ∧
     (ruleSet ≠ NetworkPolicyRuleSetTypeRestrictIngressEgress →
      ruleSet ≠ NetworkPolicyRuleSetTypeAllowIngressMetrics →
        np_Ingress np = [[]] ∧ np_Egress np = [[]]) ∧
     np_PodSelector np = Selectors instanceName component (default "" (visit ∅ !! LabelK8sName))).
Proof.
  intros <-. unfold ForwarderNetworkPolicy.
  destruct (DetermineEgressPortProtocols parse_url envs outputs ruleSet) as [s| |] eqn:Es;
    [|by split; [done|intros np [=]]..]. cbn [mbind outcome_bind].
  pose proof (λ pp, egress_known parse_url envs outputs ruleSet s pp Es) as Hknown.
  unfold NewNetworkPolicyWithProtocolPorts.
  destruct (String.eqb_spec ruleSet NetworkPolicyRuleSetTypeAllowAllIngressEgress) as [->|Hall].
  { split; [done|]. by intros np [= <-]. }
  set (np0 := {| np_Namespace := ns |}). set (mp := if component == _ then _ else _).
  destruct (String.eqb_spec ruleSet NetworkPolicyRuleSetTypeAllowIngressMetrics) as [->|Hmet].
  { split; [done|]. intros np [= <-]. split; [done|]. split; [done|].
    unfold NetworkPolicyTypeAllowIngressMetrics.
    by destruct (restricted_policy np0 [] [] mp eq_refl eq_refl eq_refl) as (_ & _ & _ & -> & _). }
  destruct (String.eqb_spec ruleSet NetworkPolicyRuleSetTypeRestrictIngressEgress) as [->|Hres].
  2: { split; [done|]. intros np [= <-]. split; [done|]. by split. }
  unfold DetermineIngressPortProtocols. rewrite String.eqb_refl. cbn [negb].
  destruct (restricted_policy np0 (visit_ingress (GetInputPorts inputs)) (visit_egress s) mp eq_refl eq_refl eq_refl)
    as (Ht & Hi & He & Hps & Hl & Hn & Hnm).
  destruct (restricted_policy np0 (elements (GetInputPorts inputs)) (elements s) mp eq_refl eq_refl eq_refl)
    as (Ht' & Hi' & He' & Hps' & Hl' & Hn' & Hnm').
  rewrite (ingress_rule_order _ _) in Hi. rewrite (egress_rule_order s Hknown) in He.
  split.
  - f_equal. destruct (NetworkPolicyTypeRestrictIngressEgressWithProtocols np0 (visit_ingress _) _ mp),
      (NetworkPolicyTypeRestrictIngressEgressWithProtocols np0 (elements _) _ mp). cbn in *. congruence.
  - intros np [= <-]. split; [|split; [done|by rewrite Hps]]. intros _. exists s.
    split; [done|]. split; [exact Ht|]. split; eexists; (split; [eassumption|apply sort_ports_perm]).
Qed.
End policies.

(** ** Examples *)

(** A parser for the URLs of the examples. *)
Definition example_parse (u : string) : option URL :=
  if u == "https://logs.example" then Some {| url_Scheme := "https"; url_Host := "logs.example"; url_Path := "" |}
  else if u == "tcp://proxy:3128" then Some {| url_Scheme := "tcp"; url_Host := "proxy:3128"; url_Path := "" |}
  else if u == "tcp://logs.example" then Some {| url_Scheme := "tcp"; url_Host := "logs.example"; url_Path := "" |} else None.

Definition example_http (url : string) : OutputSpec := {|
  out_Name := "out"; out_Type := OutputTypeHTTP; out_TLS := None; out_Limit := None;
  out_AzureLogsIngestion := None; out_AzureMonitor := None; out_Cloudwatch := None;
  out_Elasticsearch := None; out_GoogleCloudLogging := None;
  out_HTTP := Some {| http_URLSpec := {| url_URL := url |}; http_Authentication := None;
    http_Tuning := None; http_Headers := ∅; http_Timeout := 0; http_Method := "POST";
    http_ProxyURL := ""; http_Format := HTTPFormatJSON |};
  out_Kafka := None; out_Loki := None; out_LokiStack := None; out_S3 := None;
  out_Splunk := None; out_Syslog := None; out_OTLP := None |}.

Definition example_env : list EnvVar := [{| env_Name := "https_proxy"; env_Value := "tcp://proxy:3128"; env_ValueFrom := None |}].

Lemma egress_ports_correct_witness :
  (∀ o, o ∈ [example_http "https://logs.example"] → out_Type o ∈ OutputTypes) ∧
  (∃ s, DetermineEgressPortProtocols example_parse example_env [example_http "https://logs.example"]
      NetworkPolicyRuleSetTypeRestrictIngressEgress = Ret s ∧
    {| pp_Port := 443; pp_Protocol := ProtocolTCP |} ∈ s ∧ {| pp_Port := 3128; pp_Protocol := ProtocolTCP |} ∈ s) ∧
  ¬ returns (DetermineEgressPortProtocols example_parse [] [example_http "tcp://logs.example"]
      NetworkPolicyRuleSetTypeRestrictIngressEgress).
Proof.
  assert (∀ u o, o ∈ [example_http u] → out_Type o ∈ OutputTypes) as Ht.
  { intros u o ->%list_elem_of_singleton. unfold OutputTypes. cbn. set_solver. }
  split; [apply Ht|]. split.
  - destruct (egress_ports_correct example_parse example_env _ (Ht "https://logs.example")) as (_ & Hs & _).
    assert (returnsb (DetermineEgressPortProtocols example_parse example_env [example_http "https://logs.example"]
      NetworkPolicyRuleSetTypeRestrictIngressEgress) = true) as Hret by by vm_compute.
    apply returnsb_true in Hret as [s E]. exists s. split; [exact E|]. split; apply (Hs s E).
    + left. eexists. split; [by left|]. right. exists "https://logs.example". split; [by left|]. split; [done|].
      eexists. split; [reflexivity|]. by vm_compute.
    + right. eexists. split; [by left|]. split; [by split|]. eexists. split; [reflexivity|]. by vm_compute.
  - destruct (egress_ports_correct example_parse [] _ (Ht "tcp://logs.example")) as (Hr & _).
    rewrite Hr. intros [Hall _]. destruct (Hall (example_http "tcp://logs.example") "tcp://logs.example")
      as (pp & p & [= <-] & Hp & _); [by left|by left|done|]. vm_compute in Hp. discriminate.
Defined.

Lemma ForwarderNetworkPolicy_correct_witness :
  (∀ s : gset PortProtocol, reverse (elements s) ≡ₚ elements s) ∧ (∀ s : gset Z, reverse (elements s) ≡ₚ elements s) ∧
  ∃ np, ForwarderNetworkPolicy example_parse (λ s, reverse (elements s)) (λ s, reverse (elements s)) example_env
      "ns" "collector-fwd" "fwd" CollectorName NetworkPolicyRuleSetTypeRestrictIngressEgress
      [example_http "https://logs.example"] [] (CommonLabelInitializer "fwd") = Ret np ∧
    ∃ rule, np_Egress np = [rule] ∧ dns ∈ rule ∧ tcp KubeAPIPort ∈ rule.
Proof.
  assert (∀ s : gset PortProtocol, reverse (elements s) ≡ₚ elements s) as He by (intros s; apply reverse_Permutation).
  assert (∀ s : gset Z, reverse (elements s) ≡ₚ elements s) as Hi by (intros s; apply reverse_Permutation).
  split; [exact He|]. split; [exact Hi|].
  destruct (ForwarderNetworkPolicy_correct example_parse (λ s, reverse (elements s)) (λ s, reverse (elements s)) He Hi
    example_env "ns" "collector-fwd" "fwd" CollectorName [example_http "https://logs.example"] []
    (CommonLabelInitializer "fwd") NetworkPolicyRuleSetTypeRestrictIngressEgress _ eq_refl) as [_ Hnp].
  set (r := ForwarderNetworkPolicy _ _ _ _ _ _ _ _ _ _ _ _) in *.
  assert (returnsb r = true) as Hret by by vm_compute. apply returnsb_true in Hret as [np E].
  exists np. split; [exact E|]. destruct (Hnp np E) as (Hres & _ & _).
  destruct (Hres eq_refl) as (s & _ & _ & _ & rule & Hr & Hp). exists rule. split; [exact Hr|].
  rewrite !Hp. split; [by left|right; by left].
Defined.
