(* ===== verification/Adapters.v ===== *)
(** * Pipelines of the collector's configuration ([internal/generator/vector/adapters])

    The files [input.go], [output.go], [internal_filter_spec.go], [pipeline_filter.go]
    and [pipeline.go].  Inputs are shared by the pipelines and get their identifiers
    after the pipelines are made, so that a filter holds the name of an input and reads
    its identifiers when its transform is made; the identifiers of a filter never
    change, so that a reference to it is a copy of them.  Outputs are shared and
    changed while the pipelines are made: they are threaded through. *)

From S2P Require Import Prelude GoStrings ApiCommon ApiInputs ApiFilters ApiOutputs ApiForwarder.
From S2P Require Import Regex GoTime ValidateFilters ObsResources ObsInputs Toml Transforms VrlText.
From S2P Require Import VectorHelpers FilterVRL Viaq.

(** ** Components that give input to others *)

(** [InputComponent]: an input, by its name, or a filter of a pipeline. *)
Inductive InputComponent : Type :=
  | InputComp (name : string)
  | FilterComp (ids : list string).

(** [InputIDs], given the identifiers of the inputs. *)
Definition InputIDs (Ids : gmap string (list string)) (n : InputComponent) : list string :=
  match n with
  | InputComp name => default [] (Ids !! name)
  | FilterComp ids => ids
  end.

Record Output := {
  o_Spec : OutputSpec;
  o_InputIDs : list string;
  o_tuning : Tuning;
}.

Definition NewOutput (spec : OutputSpec) : Output := {|
  o_Spec := spec; o_InputIDs := []; o_tuning := NewTuning spec |}.

(** [AddInputFrom] of an output: the identifiers of a nil component cannot be read. *)
Definition Output_AddInputFrom (Ids : gmap string (list string)) (o : Output) (n : option InputComponent) :
    outcome Output :=
  n ← deref n;
  Ret {| o_Spec := o_Spec o; o_InputIDs := o_InputIDs o ++ InputIDs Ids n; o_tuning := o_tuning o |}.

(** The call on the output of a name, which is nil and does nothing if there is none. *)
Definition add_input_to (Ids : gmap string (list string)) (outputs : gmap string Output) (name : string)
    (n : option InputComponent) : outcome (gmap string Output) :=
  match outputs !! name with
  | None => Ret outputs
  | Some o => o' ← Output_AddInputFrom Ids o n; Ret (<[name := o']> outputs)
  end.

(** ** Filters of a pipeline *)

Record PipelineFilter := {
  pf_ids : list string;
  pf_Next : list (option InputComponent);
  pf_Factory : FilterFactory;
}.

Definition NewPipelineFilter (pipelineName filterRef : string) (spec : InternalFilterSpec) : PipelineFilter := {|
  pf_ids := [MakePipelineID [pipelineName; filterRef]]; pf_Next := []; pf_Factory := if_Factory spec |}.

Definition pf_ID (pf : PipelineFilter) : string := default "" (head (pf_ids pf)).

Definition PipelineFilter_AddInputFrom (pf : PipelineFilter) (n : option InputComponent) : PipelineFilter := {|
  pf_ids := pf_ids pf; pf_Next := pf_Next pf ++ [n]; pf_Factory := pf_Factory pf |}.

(** [Transform]: components that are nil are left out. *)
Definition PipelineFilter_Transform (Ids : gmap string (list string)) (pf : PipelineFilter) : outcome Transform :=
  pf_Factory pf (sort_strings (n ← somes (pf_Next pf); InputIDs Ids n)).

(** ** Pipelines *)

Record Pipeline := {
  pl_Spec : PipelineSpec;
  pl_index : nat;
  pl_filterMap : gmap string InternalFilterSpec;
  pl_Filters : list PipelineFilter;
  pl_inputSpecs : list InputSpec;
}.

Definition pipe_set_FilterRefs (p : PipelineSpec) (refs : list string) : PipelineSpec := {|
  pipe_Name := pipe_Name p; pipe_InputRefs := pipe_InputRefs p;
  pipe_OutputRefs := pipe_OutputRefs p; pipe_FilterRefs := refs |}.

Definition pl_set_Filters (p : Pipeline) (l : list PipelineFilter) : Pipeline := {|
  pl_Spec := pl_Spec p; pl_index := pl_index p; pl_filterMap := pl_filterMap p;
  pl_Filters := l; pl_inputSpecs := pl_inputSpecs p |}.

Definition Pipeline_Name (p : Pipeline) : string :=
  if pipe_Name (pl_Spec p) == "" then MakeID ["pipeline"; Itoa_nat (pl_index p)]
  else pipe_Name (pl_Spec p).

(** The filter the operator adds to every pipeline. *)
Definition viaq_filter (inputSpecs : list InputSpec) : InternalFilterSpec := {|
  if_FilterSpec := {| filter_Name := ""; filter_Type := Viaq; filter_KubeAPIAudit := None;
    filter_DropTestsSpec := []; filter_PruneFilterSpec := None; filter_OpenshiftLabels := ∅ |};
  if_Factory := λ inputs, Ret (viaq_New inputs inputSpecs) |}.

Definition isEarlyStage (filterMap : gmap string InternalFilterSpec) (refName : string) : bool :=
  match filterMap !! refName with
  | Some spec => (filter_Type (if_FilterSpec spec) == FilterTypeParse)
      || (filter_Type (if_FilterSpec spec) == FilterTypeDetectMultiline)
  | None => false
  end.

Definition AddSystemFilters (p : Pipeline) : Pipeline :=
  let filterMap := <[Viaq := viaq_filter (pl_inputSpecs p)]> (pl_filterMap p) in
  let refs := pipe_FilterRefs (pl_Spec p) in
  let preFilters := filter (λ ref, isEarlyStage filterMap ref = true) refs in
  let otherFilters := filter (λ ref, isEarlyStage filterMap ref = false) refs in
  {| pl_Spec := pipe_set_FilterRefs (pl_Spec p) (preFilters ++ [Viaq] ++ otherFilters);
     pl_index := pl_index p; pl_filterMap := filterMap; pl_Filters := pl_Filters p;
     pl_inputSpecs := pl_inputSpecs p |}.

Definition initFilter (p : Pipeline) (index : nat) (filterRef : string) : Pipeline :=
  match pl_filterMap p !! filterRef with
  | None => p
  | Some f =>
      let filterID := MakeID [filterRef; Itoa_nat index] in
      let pf := NewPipelineFilter (Pipeline_Name p) filterID f in
      let pf := match last (pl_Filters p) with
                | Some last => PipelineFilter_AddInputFrom pf (Some (FilterComp (pf_ids last)))
                | None => pf
                end in
      pl_set_Filters p (pl_Filters p ++ [pf])
  end.

(** The loop over the references of a pipeline. *)
Fixpoint init_filters (p : Pipeline) (index : nat) (refs : list string) : Pipeline :=
  match refs with
  | [] => p
  | ref :: refs => init_filters (initFilter p index ref) (S index) refs
  end.

(** The component of a name, nil if there is none. *)
Definition input_component (inputs : gset string) (name : string) : option InputComponent :=
  if bool_decide (name ∈ inputs) then Some (InputComp name) else None.

(** [NewPipeline]: [inputs] are the names of the inputs there are. *)
Definition NewPipeline (Ids : gmap string (list string)) (index : nat) (p : PipelineSpec) (inputs : gset string)
    (outputs : gmap string Output) (filters : gmap string InternalFilterSpec) (inputSpecs : list InputSpec)
    (addPostFilters : Pipeline → Pipeline) : outcome (Pipeline * gmap string Output) :=
  let pipeline := {| pl_Spec := p; pl_index := index; pl_filterMap := filters; pl_Filters := [];
    pl_inputSpecs := (i ← inputSpecs;
      (λ _, i) <$> filter (λ ref, in_Name i = ref) (pipe_InputRefs p)) |} in
  let pipeline := addPostFilters pipeline in
  let refs := pipe_FilterRefs (pl_Spec pipeline) in
  let pipeline := init_filters pipeline 0 refs in
  let spec := pl_Spec pipeline in
  match refs with
  | _ :: _ =>
      match pl_Filters pipeline with
      | [] => Exit 1
      | first :: others =>
          let first := foldl (λ first ref, PipelineFilter_AddInputFrom first (input_component inputs ref))
            first (pipe_InputRefs spec) in
          let pipeline := pl_set_Filters pipeline (first :: others) in
          match pl_Filters pipeline !! (length refs - 1) with
          | None => Panic "index out of range"
          | Some last =>
              outputs ← foldM (λ outputs name,
                add_input_to Ids outputs name (Some (FilterComp (pf_ids last)))) outputs (pipe_OutputRefs spec);
              Ret (pipeline, outputs)
          end
      end
  | [] =>
      outputs ← foldM (λ outputs outputRef,
        if bool_decide (is_Some (outputs !! outputRef)) then
          foldM (λ outputs ref, add_input_to Ids outputs outputRef (input_component inputs ref))
            outputs (pipe_InputRefs spec)
        else Ret outputs) outputs (pipe_OutputRefs spec);
      Ret (pipeline, outputs)
  end.

(** One round of the loop of [Transforms]. *)
Definition add_transform (Ids : gmap string (list string)) (p : Pipeline) (tfs : Transforms + string)
    (pf : PipelineFilter) : outcome (Transforms + string) :=
  match tfs with
  | inr err => Ret (inr err)
  | inl tfs =>
      tf ← PipelineFilter_Transform Ids pf;
      match tf with
      | None => Ret (inr ("filter " +:+ Quote (pf_ID pf) +:+ " produced nil transform for pipeline "
          +:+ Quote (Pipeline_Name p)))
      | Some t => Ret (inl (<[pf_ID pf := t]> tfs))
      end
  end.

(** [Transforms]: the error or the transforms by identifier. *)
Definition Pipeline_Transforms (Ids : gmap string (list string)) (p : Pipeline) : outcome (Transforms + string) :=
  foldM (add_transform Ids p) (inl ∅) (pl_Filters p).

(** ** What a pipeline is made of *)

(** The identifier of a filter at a position of a pipeline. *)
Definition filter_id (name : string) (index : nat) (ref : string) : string :=
  MakePipelineID [name; MakeID [ref; Itoa_nat index]].

(** The references in the order in which they are applied. *)
Definition applied_refs (filters : gmap string InternalFilterSpec) (inputSpecs : list InputSpec) (refs : list string) :
    list string :=
  let filterMap := <[Viaq := viaq_filter inputSpecs]> filters in
  filter (λ ref, isEarlyStage filterMap ref = true) refs ++ [Viaq]
  ++ filter (λ ref, isEarlyStage filterMap ref = false) refs.

(** The filters made from references, each with the one before it as its input. *)
Fixpoint filter_chain (name : string) (filterMap : gmap string InternalFilterSpec) (prev : option (list string))
    (index : nat) (refs : list string) : list PipelineFilter :=
  match refs with
  | [] => []
  | ref :: refs =>
      match filterMap !! ref with
      | None => filter_chain name filterMap prev (S index) refs
      | Some f =>
          {| pf_ids := [filter_id name index ref];
             pf_Next := match prev with Some ids => [Some (FilterComp ids)] | None => [] end;
             pf_Factory := if_Factory f |}
          :: filter_chain name filterMap (Some [filter_id name index ref]) (S index) refs
      end
  end.

Lemma init_filters_chain p index refs :
  init_filters p index refs = pl_set_Filters p (pl_Filters p ++
    filter_chain (Pipeline_Name p) (pl_filterMap p) (pf_ids <$> last (pl_Filters p)) index refs).
Proof.
  revert p index. induction refs as [|ref refs IH]; intros p index; cbn [init_filters filter_chain].
  { rewrite app_nil_r. by destruct p. }
  rewrite IH. unfold initFilter. destruct (pl_filterMap p !! ref) as [f|] eqn:Hf; [|by destruct p].
  destruct p as [s i fm l isp]. cbn [pl_set_Filters pl_Filters pl_filterMap pl_Spec pl_index pl_inputSpecs] in *.
  unfold pl_set_Filters. cbn. f_equal. rewrite <-app_assoc. cbn. rewrite last_snoc.
  by destruct (last l).
Qed.

(** The identifiers of a chain and what each filter reads. *)
Record chain_ok (name : string) (filterMap : gmap string InternalFilterSpec) (first : list (option InputComponent))
    (refs : list string) (l : list PipelineFilter) : Prop := {
  chain_ids : pf_ids <$> l = imap (λ i ref, [filter_id name i ref]) refs;
  chain_first : ∀ pf, l !! 0 = Some pf → pf_Next pf = first;
  chain_next : ∀ i pf pf', l !! i = Some pf → l !! S i = Some pf' → pf_Next pf' = [Some (FilterComp (pf_ids pf))];
  chain_factory : ∀ i ref pf, refs !! i = Some ref → l !! i = Some pf →
    ∃ f, filterMap !! ref = Some f ∧ pf_Factory pf = if_Factory f;
}.

Lemma filter_chain_lookup name fm refs :
  (∀ ref, ref ∈ refs → is_Some (fm !! ref)) →
  ∀ prev index i, filter_chain name fm prev index refs !! i =
    (ref ← refs !! i; f ← fm !! ref;
     Some {| pf_ids := [filter_id name (index + i) ref];
       pf_Next := match i with
         | O => match prev with Some ids => [Some (FilterComp ids)] | None => [] end
         | S j => (λ ref, Some (FilterComp [filter_id name (index + j) ref])) <$> option_list (refs !! j)
         end;
       pf_Factory := if_Factory f |}).
Proof.
  induction refs as [|ref refs IH]; intros Hrefs prev index i; [by destruct i|].
  apply forall_cons_iff in Hrefs as [[f Hf] Hrefs]. cbn [filter_chain]. rewrite Hf.
  destruct i as [|i]; cbn [lookup list_lookup mbind option_bind].
  { rewrite Hf. cbn [mbind option_bind]. by rewrite Nat.add_0_r. }
  rewrite (IH Hrefs). destruct (refs !! i) as [r|]; [|done]. cbn [mbind option_bind].
  destruct (fm !! r) as [g|]; [|done]. cbn [mbind option_bind].
  rewrite <-Nat.add_succ_comm. do 2 f_equal. destruct i as [|i]; cbn; rewrite ?Nat.add_0_r, ?Nat.add_succ_r; done.
Qed.

Lemma add_inputs_next l : ∀ pf,
  foldl PipelineFilter_AddInputFrom pf l =
  {| pf_ids := pf_ids pf; pf_Next := pf_Next pf ++ l; pf_Factory := pf_Factory pf |}.
Proof.
  induction l as [|n l IH]; intros pf; cbn [foldl].
  - rewrite app_nil_r. by destruct pf.
  - rewrite IH. cbn. by rewrite <-app_assoc.
Qed.

Lemma foldl_fmap {A B C} (f : C → B → C) (g : A → B) l : ∀ c,
  foldl (λ c x, f c (g x)) c l = foldl f c (g <$> l).
Proof. induction l as [|x l IH]; intros c; [done|]. cbn. apply IH. Qed.

(** A chain whose first filter reads from the inputs. *)
Lemma chain_correct name fm inputs refs first others :
  (∀ ref, ref ∈ refs → is_Some (fm !! ref)) →
  filter_chain name fm None 0 refs = first :: others →
  chain_ok name fm inputs refs
    ({| pf_ids := pf_ids first; pf_Next := pf_Next first ++ inputs; pf_Factory := pf_Factory first |} :: others).
Proof.
  intros Hrefs Hl. pose proof (filter_chain_lookup name fm refs Hrefs None 0) as Hlook. rewrite Hl in Hlook.
  assert (pf_Next first = []) as Hfirst.
  { specialize (Hlook 0). cbn in Hlook. destruct (refs !! 0) as [r|]; [|done]. cbn in Hlook.
    destruct (fm !! r); [|done]. injection Hlook as ->. done. }
  assert (∀ i pf, (first :: others) !! i = Some pf →
    ∃ r f, refs !! i = Some r ∧ fm !! r = Some f ∧ pf_ids pf = [filter_id name i r] ∧ pf_Factory pf = if_Factory f ∧
      (∀ j, i = S j → ∃ r', refs !! j = Some r' ∧ pf_Next pf = [Some (FilterComp [filter_id name j r'])])) as Hpf.
  { intros i pf Hi. rewrite Hlook in Hi. destruct (refs !! i) as [r|] eqn:Hr; [|done]. cbn [mbind option_bind] in Hi.
    destruct (fm !! r) as [f|] eqn:Hf; [|done]. injection Hi as <-. exists r, f. split_and!; try done.
    intros j ->. apply lookup_lt_Some in Hr. destruct (lookup_lt_is_Some_2 refs j) as [r' Hr']; [lia|].
    exists r'. cbn. by rewrite Hr'. }
  assert (∀ i, is_Some (refs !! i) → is_Some ((first :: others) !! i)) as Hsome.
  { intros i [r Hr]. rewrite Hlook, Hr. cbn. destruct (Hrefs r) as [f ->]; [by eapply list_elem_of_lookup_2|by eexists]. }
  constructor.
  - apply list_eq. intros i. rewrite list_lookup_fmap, list_lookup_imap.
    assert ((pf_ids <$> (first :: others) !! i) = (λ ref, [filter_id name i ref]) <$> refs !! i) as E.
    { destruct ((first :: others) !! i) as [pf|] eqn:Hi.
      - destruct (Hpf i pf Hi) as (r & f & -> & _ & Hids & _). cbn. by rewrite Hids.
      - destruct (refs !! i) eqn:Hr; [|done]. destruct (Hsome i) as [? ?]; [by eexists|congruence]. }
    by destruct i.
  - intros pf [= <-]. cbn. by rewrite Hfirst.
  - intros i pf pf' Hi Hi'. destruct (Hpf (S i) pf' Hi') as (_ & _ & _ & _ & _ & _ & Hn).
    destruct (Hn i eq_refl) as (r' & Hr' & ->). do 3 f_equal.
    assert (∃ pf0, (first :: others) !! i = Some pf0 ∧ pf_ids pf0 = pf_ids pf) as (pf0 & H0 & <-).
    { destruct i; [injection Hi as <-; by exists first|by exists pf]. }
    destruct (Hpf i pf0 H0) as (r & _ & Hr & _ & -> & _). congruence.
  - intros i ref pf Hr Hi.
    assert (∃ pf0, (first :: others) !! i = Some pf0 ∧ pf_Factory pf0 = pf_Factory pf) as (pf0 & H0 & <-).
    { destruct i; [injection Hi as <-; by exists first|by exists pf]. }
    destruct (Hpf i pf0 H0) as (r & f & Hr' & Hf & _ & -> & _). exists f. split; [congruence|done].
Qed.

Lemma filter_chain_length name fm refs :
  (∀ ref, ref ∈ refs → is_Some (fm !! ref)) →
  ∀ prev index, length (filter_chain name fm prev index refs) = length refs.
Proof.
  induction refs as [|ref refs IH]; intros Hrefs prev index; [done|].
  apply forall_cons_iff in Hrefs as [[f Hf] Hrefs]. cbn [filter_chain]. rewrite Hf. cbn [length]. by rewrite IH.
Qed.

(** ** Outputs *)

(** An output after the identifiers were added to it [k] times. *)
Definition fed (ids : list string) (k : nat) (o : Output) : Output := {|
  o_Spec := o_Spec o; o_InputIDs := o_InputIDs o ++ mjoin (replicate k ids); o_tuning := o_tuning o |}.

Definition count (name : string) (refs : list string) : nat := length (filter (λ ref, ref = name) refs).

Lemma add_filter_to Ids outputs name ids :
  add_input_to Ids outputs name (Some (FilterComp ids)) = Ret (alter (fed ids 1) name outputs).
Proof.
  unfold add_input_to. destruct (outputs !! name) as [o|] eqn:Ho.
  - cbn. f_equal. apply map_eq. intros n. destruct (decide (name = n)) as [<-|Hne].
    + rewrite lookup_insert_eq, lookup_alter_eq, Ho. unfold fed. cbn. by rewrite app_nil_r.
    + by rewrite lookup_insert_ne, lookup_alter_ne.
  - f_equal. symmetry. apply map_eq. intros n. destruct (decide (name = n)) as [<-|Hne].
    + by rewrite lookup_alter_eq, Ho.
    + by rewrite lookup_alter_ne.
Qed.

Lemma feed_outputs Ids ids refs : ∀ outputs,
  ∃ outputs', foldM (λ outputs name, add_input_to Ids outputs name (Some (FilterComp ids))) outputs refs
      = Ret outputs' ∧
    ∀ name, outputs' !! name = fed ids (count name refs) <$> outputs !! name.
Proof.
  induction refs as [|ref refs IH]; intros outputs; cbn [foldM].
  { exists outputs. split; [done|]. intros name. destruct (outputs !! name) as [[s l t]|]; [|done].
    cbn. unfold fed. cbn. by rewrite app_nil_r. }
  rewrite add_filter_to. cbn [mbind outcome_bind]. destruct (IH (alter (fed ids 1) ref outputs)) as (outputs' & -> & Hout).
  exists outputs'. split; [done|]. intros name. rewrite Hout. unfold count. rewrite filter_cons.
  destruct (decide (ref = name)) as [->|Hne]; [|by rewrite lookup_alter_ne].
  rewrite lookup_alter_eq. destruct (outputs !! name) as [o|]; [|done]. cbn. unfold fed. cbn.
  by rewrite app_nil_r, <-app_assoc.
Qed.

(** ** Identifiers *)

Lemma FormatComponentID_app s t : FormatComponentID (s +:+ t) = FormatComponentID s +:+ FormatComponentID t.
Proof. unfold FormatComponentID. by rewrite map_bytes_app, ToLower_app. Qed.

Lemma FormatComponentID_digits s : string_forallb is_digit s = true → FormatComponentID s = s.
Proof.
  unfold FormatComponentID. induction s as [|c s IH]; [done|]. cbn [string_forallb map_bytes].
  intros [Hc Hs]%andb_true_iff. rewrite ToLower_app, IH by done.
  assert (ToLower (Replacer_byte c) = String c "") as ->; [|done].
  clear -Hc. revert Hc. destruct c as [[] [] [] [] [] [] [] []]; vm_compute; congruence.
Qed.

(** An identifier ends with the position of the filter. *)
Lemma filter_id_suffix name i ref :
  filter_id name i ref =
  FormatComponentID ("pipeline_" +:+ name +:+ "_" +:+ FormatComponentID ref) +:+ String "_" (Itoa_nat i).
Proof.
  unfold filter_id, MakePipelineID, MakeID. cbn [Join]. rewrite !FormatComponentID_app.
  rewrite !(FormatComponentID_digits (Itoa_nat i)) by apply Itoa_nat_digits.
  by rewrite !string_app_assoc.
Qed.

Lemma suffix_inj c s t d1 d2 :
  in_string c d1 = false → in_string c d2 = false → s +:+ String c d1 = t +:+ String c d2 → d1 = d2.
Proof.
  intros H1 H2 E. apply (f_equal (λ x, Split x c)) in E. rewrite !Split_concat in E.
  rewrite (Split_no_sep d1), (Split_no_sep d2) in E by done. by apply app_inj_tail in E as [_ ?].
Qed.

Lemma filter_id_index name name' i j ref ref' : filter_id name i ref = filter_id name' j ref' → i = j.
Proof.
  rewrite !filter_id_suffix. intros E%suffix_inj.
  - unfold Itoa_nat in E. apply (inj pretty) in E. lia.
  - eapply string_forallb_in_string; [apply Itoa_nat_digits|done].
  - eapply string_forallb_in_string; [apply Itoa_nat_digits|done].
Qed.

Lemma filter_ids_NoDup name refs : NoDup (imap (λ i ref, filter_id name i ref) refs).
Proof.
  apply NoDup_alt. intros i j x. rewrite !list_lookup_imap.
  intros (r & Hr & Ei)%fmap_Some (r' & Hr' & Ej)%fmap_Some. rewrite Ei in Ej. by eapply filter_id_index.
Qed.

Lemma applied_refs_perm filters inputSpecs refs :
  applied_refs filters inputSpecs refs ≡ₚ Viaq :: refs.
Proof.
  unfold applied_refs. cbn zeta. set (fm := <[_ := _]> _).
  rewrite (Permutation_app_comm (filter _ _)), <-app_assoc. cbn [app]. constructor.
  rewrite Permutation_app_comm.
  induction refs as [|r refs IH]; [done|]. destruct (isEarlyStage fm r) eqn:E.
  - rewrite filter_cons_True, filter_cons_False by congruence. cbn. by constructor.
  - rewrite filter_cons_False, filter_cons_True by congruence. by rewrite <-Permutation_middle, IH.
Qed.

(** ** Making a pipeline *)

(** The inputs of the spec that a pipeline reads. *)
Definition read_inputs (p : PipelineSpec) (inputSpecs : list InputSpec) : list InputSpec :=
  i ← inputSpecs; (λ _, i) <$> filter (λ ref, in_Name i = ref) (pipe_InputRefs p).

(** The filters by name once the one of the operator is added. *)
Definition with_viaq (p : PipelineSpec) (filters : gmap string InternalFilterSpec) (inputSpecs : list InputSpec) :
    gmap string InternalFilterSpec :=
  <[Viaq := viaq_filter (read_inputs p inputSpecs)]> filters.

(** The name and the references a pipeline ends up with. *)
Definition effective_name (index : nat) (p : PipelineSpec) : string :=
  if pipe_Name p == "" then MakeID ["pipeline"; Itoa_nat index] else pipe_Name p.

Definition effective_refs (p : PipelineSpec) (filters : gmap string InternalFilterSpec) (inputSpecs : list InputSpec) :
    list string :=
  applied_refs filters (read_inputs p inputSpecs) (pipe_FilterRefs p).

Lemma effective_refs_resolve p filters inputSpecs :
  (∀ ref, ref ∈ pipe_FilterRefs p → is_Some (filters !! ref)) →
  ∀ ref, ref ∈ effective_refs p filters inputSpecs → is_Some (with_viaq p filters inputSpecs !! ref).
Proof.
  intros Hrefs ref. unfold effective_refs. rewrite applied_refs_perm, elem_of_cons. unfold with_viaq.
  destruct (decide (ref = Viaq)) as [->|Hne]; [by rewrite lookup_insert_eq|].
  rewrite lookup_insert_ne by done. intros [->|?]; [done|by apply Hrefs].
Qed.

Lemma last_chain_id name fm inputs refs l pf ref :
  chain_ok name fm inputs refs l → l !! (length refs - 1) = Some pf → refs !! (length refs - 1) = Some ref →
  pf_ids pf = [filter_id name (length refs - 1) ref].
Proof.
  intros Hc Hl Hr. assert ((pf_ids <$> l) !! (length refs - 1) = Some (pf_ids pf)) as E by by rewrite list_lookup_fmap, Hl.
  rewrite (chain_ids _ _ _ _ _ Hc), list_lookup_imap, Hr in E. by injection E.
Qed.

(** Making a pipeline whose filters exist: the chain is made, and then the outputs
    are given the identifiers of its last filter. *)
Lemma NewPipeline_chain Ids index p inputs outputs filters inputSpecs :
  (∀ ref, ref ∈ pipe_FilterRefs p → is_Some (filters !! ref)) →
  ∃ pl pf,
    chain_ok (effective_name index p) (with_viaq p filters inputSpecs)
      (input_component inputs <$> pipe_InputRefs p) (effective_refs p filters inputSpecs) (pl_Filters pl) ∧
    pl_Filters pl !! (length (effective_refs p filters inputSpecs) - 1) = Some pf ∧
    NewPipeline Ids index p inputs outputs filters inputSpecs AddSystemFilters =
      (outputs ← foldM (λ outputs name, add_input_to Ids outputs name (Some (FilterComp (pf_ids pf))))
         outputs (pipe_OutputRefs p); Ret (pl, outputs)).
Proof.
  intros Hrefs. pose proof (effective_refs_resolve p filters inputSpecs Hrefs) as Hres.
  assert (effective_refs p filters inputSpecs ≠ []) as Hne.
  { unfold effective_refs. intros E. pose proof (applied_refs_perm filters (read_inputs p inputSpecs) (pipe_FilterRefs p)) as Hp.
    rewrite E in Hp. by apply Permutation_nil_cons in Hp. }
  unfold NewPipeline. fold (read_inputs p inputSpecs). set (pl0 := AddSystemFilters _).
  assert (pipe_FilterRefs (pl_Spec pl0) = effective_refs p filters inputSpecs) as Er by done.
  assert (Pipeline_Name pl0 = effective_name index p) as En by done.
  assert (pl_filterMap pl0 = with_viaq p filters inputSpecs) as Ef by done.
  rewrite init_filters_chain, Er, En, Ef.
  change (pl_Filters pl0) with (@nil PipelineFilter). cbn [last fmap option_fmap option_map app].
  cbn [pl_set_Filters pl_Spec pl_Filters].
  assert (pipe_InputRefs (pl_Spec pl0) = pipe_InputRefs p) as -> by done.
  assert (pipe_OutputRefs (pl_Spec pl0) = pipe_OutputRefs p) as -> by done.
  clear Er En Ef. clearbody pl0.
  pose proof (filter_chain_length (effective_name index p) _ _ Hres None 0) as Hcl.
  destruct (effective_refs p filters inputSpecs) as [|r refs]; [done|].
  destruct (filter_chain _ _ _ _ _) as [|first others] eqn:Ec; [done|].
  rewrite foldl_fmap, add_inputs_next.
  pose proof (chain_correct _ _ (input_component inputs <$> pipe_InputRefs p) _ _ _ Hres Ec) as Hc.
  match type of Hc with chain_ok _ _ _ _ ?x => set (l := x) in * end.
  destruct (l !! (length (r :: refs) - 1)) as [pf|] eqn:Hpf.
  2: { apply lookup_ge_None in Hpf. subst l. cbn [length] in *. lia. }
  exists (pl_set_Filters pl0 l), pf. split; [exact Hc|]. split; [exact Hpf|]. done.
Qed.

(** The identifier of the last filter of a pipeline. *)
Definition last_id (index : nat) (p : PipelineSpec) (filters : gmap string InternalFilterSpec)
    (inputSpecs : list InputSpec) : string :=
  filter_id (effective_name index p) (length (pipe_FilterRefs p))
    (default "" (last (effective_refs p filters inputSpecs))).

Lemma NewPipeline_returns Ids index p inputs outputs filters inputSpecs :
  (∀ ref, ref ∈ pipe_FilterRefs p → is_Some (filters !! ref)) →
  ∃ pl outputs',
    NewPipeline Ids index p inputs outputs filters inputSpecs AddSystemFilters = Ret (pl, outputs') ∧
    chain_ok (effective_name index p) (with_viaq p filters inputSpecs)
      (input_component inputs <$> pipe_InputRefs p) (effective_refs p filters inputSpecs) (pl_Filters pl) ∧
    ∀ name, outputs' !! name =
      fed [last_id index p filters inputSpecs] (count name (pipe_OutputRefs p)) <$> outputs !! name.
Proof.
  intros Hrefs. destruct (NewPipeline_chain Ids index p inputs outputs filters inputSpecs Hrefs) as (pl & pf & Hc & Hpf & ->).
  pose proof (applied_refs_perm filters (read_inputs p inputSpecs) (pipe_FilterRefs p)) as Hperm.
  fold (effective_refs p filters inputSpecs) in Hperm. unfold last_id.
  set (refs := effective_refs p filters inputSpecs) in *.
  assert (length refs = S (length (pipe_FilterRefs p))) as Hlen by by rewrite Hperm.
  destruct (lookup_lt_is_Some_2 refs (length refs - 1)) as [ref Href]; [lia|].
  pose proof (last_chain_id _ _ _ _ _ _ _ Hc Hpf Href) as Hid.
  assert (last refs = Some ref) as ->.
  { rewrite last_lookup. by replace (pred (length refs)) with (length refs - 1) by lia. }
  destruct (feed_outputs Ids (pf_ids pf) (pipe_OutputRefs p) outputs) as (outputs' & -> & Hout).
  exists pl, outputs'. split; [reflexivity|]. split; [exact Hc|].
  intros name. rewrite Hout, Hid, Hlen. cbn [length default from_option id]. by rewrite Nat.sub_succ, Nat.sub_0_r.
Qed.

(** C34. What a pipeline becomes.  When the filters a pipeline refers to exist, making it
    succeeds.  It gets the filter of the operator besides its own, those that parse
    or merge lines before it and the others after it, each group in the order of the
    spec.  Every filter has an identifier of its own, the first one reads from the
    inputs of the pipeline, every other one from the filter before it, and the
    identifier of the last one is added to each output as often as the pipeline
    names it; the outputs it does not name are not changed.  A filter of the spec that
    is named as the one of the operator is never run: its name stands for the other. *)
Theorem NewPipeline_correct Ids index p inputs outputs filters inputSpecs :
  (∀ ref, ref ∈ pipe_FilterRefs p → is_Some (filters !! ref)) →
  ∃ pl outputs',
    NewPipeline Ids index p inputs outputs filters inputSpecs AddSystemFilters = Ret (pl, outputs') ∧
    chain_ok (effective_name index p) (with_viaq p filters inputSpecs)
      (input_component inputs <$> pipe_InputRefs p) (effective_refs p filters inputSpecs) (pl_Filters pl) ∧
    effective_refs p filters inputSpecs ≡ₚ Viaq :: pipe_FilterRefs p ∧
    NoDup (pf_ids <$> pl_Filters pl) ∧
    (∀ name, outputs' !! name =
       fed [last_id index p filters inputSpecs] (count name (pipe_OutputRefs p)) <$> outputs !! name) ∧
    with_viaq p filters inputSpecs !! Viaq = Some (viaq_filter (read_inputs p inputSpecs)).
Proof.
  intros Hrefs.
  destruct (NewPipeline_returns Ids index p inputs outputs filters inputSpecs Hrefs) as (pl & outputs' & E & Hc & Hout).
  exists pl, outputs'. split; [exact E|]. split; [exact Hc|]. split; [apply applied_refs_perm|]. split_and!.
  - rewrite (chain_ids _ _ _ _ _ Hc).
    pose proof (filter_ids_NoDup (effective_name index p) (effective_refs p filters inputSpecs)) as Hnd.
    apply (NoDup_fmap_2 (λ x : string, [x])) in Hnd. by rewrite fmap_imap in Hnd.
  - exact Hout.
  - apply lookup_insert_eq.
Qed.

(** ** The transforms of a pipeline *)

(** Filters that all give a transform. *)
Lemma Transforms_assignments Ids p ts :
  Forall2 (λ pf t, PipelineFilter_Transform Ids pf = Ret (Some t)) (pl_Filters p) ts →
  Pipeline_Transforms Ids p = Ret (inl (map_of_assignments (zip (pf_ID <$> pl_Filters p) ts))).
Proof.
  unfold Pipeline_Transforms, map_of_assignments. generalize (∅ : Transforms) as acc.
  induction (pl_Filters p) as [|pf l IH] in ts |- *; intros acc Hts; inversion Hts as [|? t ? ts' Ht Hl]; [done|].
  subst. cbn [foldM add_transform]. rewrite Ht. cbn [mbind outcome_bind]. by rewrite (IH ts').
Qed.

Lemma Forall2_exists {A B} (R : A → B → Prop) l :
  (∀ x, x ∈ l → ∃ y, R x y) → ∃ k, Forall2 R l k.
Proof.
  induction l as [|x l IH]; intros Hl; [by exists []|].
  apply forall_cons_iff in Hl as [[y Hy] Hl]. destruct (IH Hl) as [k Hk]. exists (y :: k). by constructor.
Qed.

(** The filters of a spec, as the configuration has them, are its filters with their
    factories. *)
Lemma NewInternalFilterMap_lookup `{RangeOrder} parse_other filters name f :
  (∀ k g, filters !! k = Some g → filter_Name g = k) →
  NewInternalFilterMap parse_other filters !! name = Some f ↔
  ∃ g, filters !! name = Some g ∧ f = {| if_FilterSpec := g; if_Factory := filter_factory parse_other g |}.
Proof.
  intros Hnames. unfold NewInternalFilterMap. set (l := _ <$> range filters).
  assert (l.*1 = (range filters).*1) as Hfst.
  { subst l. rewrite <-list_fmap_compose. apply list_fmap_ext. intros i [k g] Hk. cbn.
    apply Hnames. apply elem_of_range. by eapply list_elem_of_lookup_2. }
  rewrite map_of_assignments_NoDup by (rewrite Hfst; apply NoDup_range_fst).
  subst l. rewrite list_elem_of_fmap. split.
  - intros ([k g] & [= -> ->] & Hk%elem_of_range). exists g. cbn in *. by rewrite (Hnames k g Hk).
  - intros (g & Hg & ->). exists (name, g). cbn. by rewrite (Hnames _ _ Hg), elem_of_range.
Qed.

(** A filter the API admits and the validation accepts. *)
Definition valid_filter (regexp_compiles : string → bool) (f : FilterSpec) : Prop :=
  filter_admitted f ∧ filter_ok regexp_compiles f.

Section transforms.
Context `{RangeOrder} (regexp_compiles : string → bool) (parse_other : string → option instant).
Context (filters : gmap string FilterSpec).
Context (Hnames : ∀ k g, filters !! k = Some g → filter_Name g = k).
Context (Hvalid : ∀ k g, filters !! k = Some g → valid_filter regexp_compiles g).

Lemma with_viaq_factory p inputSpecs ref f inputs :
  with_viaq p (NewInternalFilterMap parse_other filters) inputSpecs !! ref = Some f →
  ∃ t, if_Factory f inputs = Ret (Some t) ∧ ¬ closes (transform_value t) ∧
    (nil_pointer t = true ↔ ref ≠ Viaq ∧ ∃ g, filters !! ref = Some g ∧
       filter_Type g = FilterTypeOpenshiftLabels ∧ filter_OpenshiftLabels g = ∅).
Proof.
  unfold with_viaq. destruct (decide (ref = Viaq)) as [->|Hne].
  - rewrite lookup_insert_eq. intros [= <-]. cbn [if_Factory viaq_filter].
    destruct (viaq_closes inputs (read_inputs p inputSpecs)) as (t & -> & Hc & Hn). exists t.
    split; [done|]. split; [done|]. rewrite Hn. split; [done|by intros [[] _]].
  - rewrite lookup_insert_ne by done. intros (g & Hg & ->)%NewInternalFilterMap_lookup; [|done].
    destruct (Hvalid _ _ Hg) as [Ha Ho].
    destruct (filter_factory_returns regexp_compiles parse_other g inputs Ha Ho) as (t & Et & Hc & Hn).
    exists t. split; [exact Et|]. split; [done|]. rewrite Hn. split.
    + intros [? ?]. split; [done|]. by exists g.
    + intros (_ & g' & Hg' & ?). assert (g' = g) as -> by congruence. done.
Qed.

(** A reference whose filter of the spec is a labels filter without labels. *)
Definition empty_labels (ref : string) : Prop :=
  ref ≠ Viaq ∧ ∃ g, filters !! ref = Some g ∧
    filter_Type g = FilterTypeOpenshiftLabels ∧ filter_OpenshiftLabels g = ∅.

Lemma chain_transforms Ids p inputSpecs name inputs refs l :
  (∀ ref, ref ∈ refs → is_Some (with_viaq p (NewInternalFilterMap parse_other filters) inputSpecs !! ref)) →
  chain_ok name (with_viaq p (NewInternalFilterMap parse_other filters) inputSpecs) inputs refs l →
  ∃ ts, Forall2 (λ pf t, PipelineFilter_Transform Ids pf = Ret (Some t)) l ts ∧
    ∀ i ref t, refs !! i = Some ref → ts !! i = Some t →
      ¬ closes (transform_value t) ∧ (nil_pointer t = true ↔ empty_labels ref).
Proof.
  intros Hres Hc.
  assert (∀ i pf, l !! i = Some pf → ∃ t, PipelineFilter_Transform Ids pf = Ret (Some t) ∧
    ∀ ref, refs !! i = Some ref → ¬ closes (transform_value t) ∧ (nil_pointer t = true ↔ empty_labels ref)) as Hpf.
  { intros i pf Hi. assert ((pf_ids <$> l) !! i = Some (pf_ids pf)) as E by by rewrite list_lookup_fmap, Hi.
    rewrite (chain_ids _ _ _ _ _ Hc), list_lookup_imap in E. apply fmap_Some in E as (ref & Hr & _).
    destruct (chain_factory _ _ _ _ _ Hc _ _ _ Hr Hi) as (f & Hf & Hfac). unfold PipelineFilter_Transform.
    rewrite Hfac. destruct (with_viaq_factory _ _ _ _ (sort_strings (n ← somes (pf_Next pf); InputIDs Ids n)) Hf)
      as (t & -> & Hcl & Hn). exists t. split; [done|]. intros r Hr'. assert (r = ref) as -> by congruence. done. }
  exists (omap (λ pf, match PipelineFilter_Transform Ids pf with Ret t => t | _ => None end) l).
  assert (∀ l', (∀ i pf, l' !! i = Some pf → ∃ t, PipelineFilter_Transform Ids pf = Ret (Some t)) →
    Forall2 (λ pf t, PipelineFilter_Transform Ids pf = Ret (Some t)) l'
      (omap (λ pf, match PipelineFilter_Transform Ids pf with Ret t => t | _ => None end) l')) as H2.
  { clear. induction l' as [|pf l' IH]; intros H; [constructor|]. destruct (H 0 pf eq_refl) as [t Ht].
    cbn. rewrite Ht. constructor; [done|]. apply IH. intros i. apply (H (S i)). }
  assert (Forall2 (λ pf t, PipelineFilter_Transform Ids pf = Ret (Some t)) l
    (omap (λ pf, match PipelineFilter_Transform Ids pf with Ret t => t | _ => None end) l)) as Hall.
  { apply H2. intros i pf Hi. destruct (Hpf i pf Hi) as (t & ? & _). by exists t. }
  split; [exact Hall|]. intros i ref t Hr Ht.
  destruct (Forall2_lookup_r _ _ _ _ _ Hall Ht) as (pf & Hi & Et).
  destruct (Hpf i pf Hi) as (t' & Et' & Hok). assert (t' = t) as -> by congruence. by apply Hok.
Qed.

(** The transforms of a pipeline.  For a pipeline whose filters exist and are valid,
    making the transforms succeeds whatever identifiers the inputs got in the meantime:
    there is one transform for each filter that is applied, under the identifier of
    that filter, and none of them can make the configuration be refused.  The one of a
    labels filter without labels, and no other, is a nil pointer. *)
Lemma Pipeline_Transforms_valid Ids Ids' index p inputs outputs inputSpecs pl outputs' :
  (∀ ref, ref ∈ pipe_FilterRefs p → is_Some (filters !! ref)) →
  NewPipeline Ids index p inputs outputs (NewInternalFilterMap parse_other filters) inputSpecs AddSystemFilters
    = Ret (pl, outputs') →
  ∃ tfs, Pipeline_Transforms Ids' pl = Ret (inl tfs) ∧
    (∀ id, is_Some (tfs !! id) ↔
       ∃ i ref, effective_refs p (NewInternalFilterMap parse_other filters) inputSpecs !! i = Some ref ∧
         id = filter_id (effective_name index p) i ref) ∧
    (∀ i ref t,
       effective_refs p (NewInternalFilterMap parse_other filters) inputSpecs !! i = Some ref →
       tfs !! filter_id (effective_name index p) i ref = Some t →
       ¬ closes (transform_value t) ∧ (nil_pointer t = true ↔ empty_labels ref)).
Proof.
  intros Hrefs Hnew.
  assert (∀ ref, ref ∈ pipe_FilterRefs p → is_Some (NewInternalFilterMap parse_other filters !! ref)) as Hrefs'.
  { intros ref [g Hg]%Hrefs. eexists. apply NewInternalFilterMap_lookup; eauto. }
  destruct (NewPipeline_chain Ids index p inputs outputs _ inputSpecs Hrefs') as (pl' & pf & Hc & _ & E).
  rewrite E in Hnew. apply bind_ret_inv in Hnew as (o & _ & [= <- _]). clear E.
  pose proof (effective_refs_resolve p _ inputSpecs Hrefs') as Hres.
  destruct (chain_transforms Ids' p inputSpecs _ _ _ _ Hres Hc) as (ts & Hts & Hok).
  exists (map_of_assignments (zip (pf_ID <$> pl_Filters pl') ts)).
  split; [by apply Transforms_assignments|].
  set (refs := effective_refs _ _ _) in *. set (name := effective_name _ _) in *.
  assert (pf_ID <$> pl_Filters pl' = imap (λ i ref, filter_id name i ref) refs) as Eids.
  { change (pf_ID <$> pl_Filters pl') with (((λ ids, default "" (head ids)) ∘ pf_ids) <$> pl_Filters pl').
    rewrite list_fmap_compose, (chain_ids _ _ _ _ _ Hc), fmap_imap. done. }
  assert (length (imap (λ i ref, filter_id name i ref) refs) = length ts) as Hlen.
  { rewrite <-Eids, length_fmap. by eapply Forall2_length. }
  rewrite Eids. split.
  - intros id. rewrite map_of_assignments_dom, fst_zip by lia. split.
    + intros (i & Hi)%list_elem_of_lookup. rewrite list_lookup_imap in Hi.
      apply fmap_Some in Hi as (ref & ? & ->). eauto.
    + intros (i & ref & Hi & ->). apply (list_elem_of_lookup_2 _ i). by rewrite list_lookup_imap, Hi.
  - intros i ref t Hi Ht. apply Hok with i; [done|].
    apply map_of_assignments_NoDup in Ht; [|rewrite fst_zip by lia; apply filter_ids_NoDup].
    apply list_elem_of_lookup in Ht as [j Hj]. apply lookup_zip_Some in Hj as [Hj Htj].
    rewrite list_lookup_imap in Hj. apply fmap_Some in Hj as (r & _ & Er).
    by apply filter_id_index in Er as ->.
Qed.
End transforms.

(** ** What the transforms of a pipeline read *)

Lemma remap_reads v l x : x ∈ inputs_of (TRemap (Some (NewRemap v l))) → x ∈ l.
Proof. apply elem_of_sort_strings. Qed.

Lemma filter_reads v l x : x ∈ inputs_of (TFilter (Some (NewFilter v l))) → x ∈ l.
Proof. apply elem_of_sort_strings. Qed.

Lemma filter_factory_inputs parse_other f inputs t x :
  filter_factory parse_other f inputs = Ret (Some t) → x ∈ inputs_of t → x ∈ inputs.
Proof.
  unfold filter_factory.
  destruct (_ == FilterTypeOpenshiftLabels).
  { unfold labels_New. destruct (_ =? _)%nat; intros [= <-]; [by intros ?%not_elem_of_nil|apply remap_reads]. }
  destruct (_ == FilterTypeDrop).
  { unfold drop_New. destruct (drop_VRL _ _); intros [= <-]. apply filter_reads. }
  destruct (_ == FilterTypePrune).
  { intros (r & (g & _ & [= <-])%bind_ret_inv & [= <-])%bind_ret_inv. apply remap_reads. }
  destruct (_ == FilterTypeKubeAPIAudit); [intros [= <-]; apply remap_reads|].
  destruct (_ == FilterTypeParse); [intros [= <-]; apply remap_reads|].
  destruct (_ == FilterTypeDetectMultiline); intros [= <-]. apply elem_of_sort_strings.
Qed.

(** The transforms are those of the filters. *)
Lemma Pipeline_Transforms_filters Ids p tfs id t :
  Pipeline_Transforms Ids p = Ret (inl tfs) → tfs !! id = Some t →
  ∃ pf, pf ∈ pl_Filters p ∧ PipelineFilter_Transform Ids pf = Ret (Some t).
Proof.
  unfold Pipeline_Transforms.
  enough (∀ l acc, foldM (add_transform Ids p) (inl acc) l = Ret (inl tfs) → tfs !! id = Some t →
    acc !! id = Some t ∨ ∃ pf, pf ∈ l ∧ PipelineFilter_Transform Ids pf = Ret (Some t)) as Hl.
  { intros E Ht. destruct (Hl (pl_Filters p) ∅ E Ht) as [Hn|?]; [by rewrite lookup_empty in Hn|done]. }
  assert (∀ l err, foldM (add_transform Ids p) (inr err) l = Ret (inr err)) as Herr.
  { induction l as [|pf l IH]; intros err; [done|]. cbn [foldM add_transform mbind outcome_bind]. apply IH. }
  induction l as [|pf l IH]; intros acc; cbn [foldM add_transform]; [by intros [= ->]; left|].
  destruct (PipelineFilter_Transform Ids pf) as [[t'|]| |] eqn:E; cbn [mbind outcome_bind]; [| |done|done].
  - intros El Ht. destruct (IH _ El Ht) as [Hins|(pf' & Hin & Hpf)]; [|right; exists pf'; by split; [right|]].
    apply lookup_insert_Some in Hins as [[_ ->]|[_ ?]]; [right; exists pf; by split; [left|]|by left].
  - rewrite Herr. done.
Qed.

(** A filter of a chain reads the first components or a filter of the chain. *)
Lemma chain_reads name fm first refs l pf n :
  chain_ok name fm first refs l → pf ∈ l → n ∈ pf_Next pf →
  n ∈ first ∨ ∃ j ref, refs !! j = Some ref ∧ n = Some (FilterComp [filter_id name j ref]).
Proof.
  intros Hc [[|i] Hi]%list_elem_of_lookup Hn; [left; by rewrite <-(chain_first _ _ _ _ _ Hc _ Hi)|right].
  destruct (lookup_lt_is_Some_2 l i) as [prev Hprev]; [apply lookup_lt_Some in Hi; lia|].
  rewrite (chain_next _ _ _ _ _ Hc _ _ _ Hprev Hi) in Hn. apply list_elem_of_singleton in Hn as ->.
  assert ((pf_ids <$> l) !! i = Some (pf_ids prev)) as E by by rewrite list_lookup_fmap, Hprev.
  rewrite (chain_ids _ _ _ _ _ Hc), list_lookup_imap in E. apply fmap_Some in E as (ref & Hr & ->). eauto.
Qed.

(** A transform of a pipeline reads an input of the pipeline or a filter of it. *)
Lemma pipeline_transform_reads `{RangeOrder} parse_other Ids name inputs refs p fm filters inputSpecs pl tfs id t x :
  (∀ k g, filters !! k = Some g → filter_Name g = k) →
  fm = with_viaq p (NewInternalFilterMap parse_other filters) inputSpecs →
  chain_ok name fm (input_component inputs <$> pipe_InputRefs p) refs (pl_Filters pl) →
  Pipeline_Transforms Ids pl = Ret (inl tfs) → tfs !! id = Some t → x ∈ inputs_of t →
  (∃ ref, ref ∈ pipe_InputRefs p ∧ ref ∈ inputs ∧ x ∈ default [] (Ids !! ref)) ∨
  ∃ j ref, refs !! j = Some ref ∧ x = filter_id name j ref.
Proof.
  intros Hnames -> Hc Et Ht Hx.
  destruct (Pipeline_Transforms_filters _ _ _ _ _ Et Ht) as (pf & Hpf & E). unfold PipelineFilter_Transform in E.
  destruct (proj1 (list_elem_of_lookup _ _) Hpf) as [i Hi].
  assert (∃ ref, refs !! i = Some ref) as [ref Hr].
  { assert ((pf_ids <$> pl_Filters pl) !! i = Some (pf_ids pf)) as Ei by by rewrite list_lookup_fmap, Hi.
    rewrite (chain_ids _ _ _ _ _ Hc), list_lookup_imap in Ei. apply fmap_Some in Ei as (r & ? & _). eauto. }
  destruct (chain_factory _ _ _ _ _ Hc _ _ _ Hr Hi) as (f & Hf & Hfac). rewrite Hfac in E.
  assert (x ∈ (n ← somes (pf_Next pf); InputIDs Ids n)) as Hin.
  { apply elem_of_sort_strings. unfold with_viaq in Hf. apply lookup_insert_Some in Hf as [[_ <-]|[_ Hf]].
    - injection E as <-. by apply remap_reads in Hx.
    - apply NewInternalFilterMap_lookup in Hf as (g & _ & ->); [|done]. by eapply filter_factory_inputs. }
  apply list_elem_of_bind in Hin as (n & Hxn & Hn%elem_of_somes).
  destruct (chain_reads _ _ _ _ _ _ _ Hc Hpf Hn) as [(r & En & Hir)%list_elem_of_fmap|(j & r & Hj & En)].
  - unfold input_component in En. case_bool_decide; [|done]. injection En as ->. left. eauto.
  - injection En as ->. cbn in Hxn. apply list_elem_of_singleton in Hxn as ->. right. eauto.
Qed.

(** A pipeline with a filter that parses and one that adds labels. *)
Definition example_filter (name type : string) (labels : gmap string string) : FilterSpec := {|
  filter_Name := name; filter_Type := type; filter_KubeAPIAudit := None; filter_DropTestsSpec := [];
  filter_PruneFilterSpec := None; filter_OpenshiftLabels := labels |}.

Definition example_filters : gmap string InternalFilterSpec :=
  (λ f, {| if_FilterSpec := f; if_Factory := filter_factory (λ _, None) f |}) <$>
  ({["json" := example_filter "json" FilterTypeParse ∅;
     "tag" := example_filter "tag" FilterTypeOpenshiftLabels {["team" := "a"]}]} : gmap string FilterSpec).

Definition example_pipeline : PipelineSpec := {|
  pipe_Name := "my-app"; pipe_InputRefs := ["application"]; pipe_OutputRefs := ["out"];
  pipe_FilterRefs := ["tag"; "json"] |}.

Lemma NewPipeline_correct_witness :
  Forall (λ ref, is_Some (example_filters !! ref)) (pipe_FilterRefs example_pipeline) ∧
  effective_refs example_pipeline example_filters [] = ["json"; Viaq; "tag"] ∧
  ∃ pl outputs, NewPipeline ∅ 0 example_pipeline {["application"]} ∅ example_filters [] AddSystemFilters
      = Ret (pl, outputs) ∧
    NoDup (pf_ids <$> pl_Filters pl) ∧
    pf_ids <$> pl_Filters pl =
      [["pipeline_my_app_json_0"]; ["pipeline_my_app_viaq_1"]; ["pipeline_my_app_tag_2"]].
Proof.
  assert (Forall (λ ref, is_Some (example_filters !! ref)) (pipe_FilterRefs example_pipeline)) as Hf.
  { repeat constructor; by eexists. }
  split; [exact Hf|]. split; [by vm_compute|].
  destruct (NewPipeline_correct ∅ 0 example_pipeline {["application"]} ∅ example_filters []
    (proj1 (Forall_forall _ _) Hf)) as (pl & outputs & E & Hc & _ & Hnd & _).
  exists pl, outputs. split; [exact E|]. split; [exact Hnd|]. rewrite (chain_ids _ _ _ _ _ Hc). by vm_compute.
Defined.
