(* ===== verification/ContainerPaths.v ===== *)
(** * Paths of container logs ([internal/generator/helpers])

    The files [container_path_glob_builder.go] and [label_selector.go]: the globs of the
    files a container source reads and leaves out, and the selector of its pods.

    A glob is given the language the collector gives it: a star matches any run of
    characters, which cannot cross a slash when the collector walks directories and can
    when it matches a path as text; what is proved holds for both. *)

From S2P Require Import Prelude GoStrings Regex ApiCommon Sets.

(** ** The builder *)

Definition crioPodPathFmt (s : string) : string := "/var/log/pods/" +:+ s.
Definition crioNamespacePathFmt (s : string) : string := "/var/log/pods/" +:+ s +:+ "/*/*.log".
Definition crioNamespaceAndContainerPathFmt (n c : string) : string :=
  "/var/log/pods/" +:+ n +:+ "/" +:+ c +:+ "/*.log".
Definition crioNamespaceContainerCombined (s : string) : string := "/var/log/pods/" +:+ s +:+ "/*.log".
Definition crioContainerPathFmt (s : string) : string := "/var/log/pods/*/" +:+ s +:+ "/*.log".
Definition crioPathExtFmt (s : string) : string := "/var/log/pods/*/*/*." +:+ s.
Definition crioEverything : string := "/var/log/pods/*/*/*.log".

(** [consecutiveWildcards.ReplaceAllString]: runs of wildcards become one. *)
Fixpoint collapseWildcards (entry : string) : string :=
  match entry with
  | "" => ""
  | String c rest =>
      if Ascii.eqb c "*" && HasPrefix rest "*" then collapseWildcards rest
      else String c (collapseWildcards rest)
  end.

Definition normalizeNamespace (ns : string) : string :=
  if ns == "*" then ns
  else if negb (Contains ns "*") then ns +:+ "_*"
  else collapseWildcards ns +:+ "_*".

Definition joinContainerPathsForVector (paths : list string) : string :=
  if (length paths =? 0)%nat then "" else "[" +:+ Join paths ", " +:+ "]".

Definition ContainerPathGlobFrom (namespaces containers extensions : list string) : string :=
  let paths :=
    ((λ n, crioNamespacePathFmt (normalizeNamespace n)) <$> namespaces)
    ++ ((λ c, crioContainerPathFmt (collapseWildcards c)) <$> containers)
    ++ ((λ e, crioPathExtFmt (collapseWildcards e)) <$> extensions) in
  if (length paths =? 0)%nat then "" else joinContainerPathsForVector paths.

Record ContainerPathGlobBuilder := {
  gb_containers : gset string;
  gb_namespaces : gset string;
  gb_nsContainers : gset string;
  gb_paths : list string;
}.

Record NamespaceContainer := { Namespace : string; Container : string }.

Definition NewContainerPathGlobBuilder : ContainerPathGlobBuilder := {|
  gb_containers := NewString []; gb_namespaces := NewString []; gb_nsContainers := NewString []; gb_paths := [] |}.

Definition gb_add_paths (b : ContainerPathGlobBuilder) (l : list string) : ContainerPathGlobBuilder := {|
  gb_containers := gb_containers b; gb_namespaces := gb_namespaces b; gb_nsContainers := gb_nsContainers b;
  gb_paths := gb_paths b ++ l |}.

(** The text [AddCombined] adds for a namespace and a container. *)
Definition combined (n : NamespaceContainer) : string :=
  normalizeNamespace (if Namespace n == "" then "*" else Namespace n) +:+ "/" +:+
  collapseWildcards (if Container n == "" then "*" else Container n).

Definition AddCombined (b : ContainerPathGlobBuilder) (ncs : list NamespaceContainer) : ContainerPathGlobBuilder := {|
  gb_containers := gb_containers b; gb_namespaces := gb_namespaces b;
  gb_nsContainers := foldl (λ s n, Insert s [combined n]) (gb_nsContainers b) ncs; gb_paths := gb_paths b |}.

Definition AddOther (b : ContainerPathGlobBuilder) (other : list string) : ContainerPathGlobBuilder :=
  foldl (λ b n, gb_add_paths b [crioPodPathFmt (collapseWildcards n)]) b other.

Definition AddNamespaces (b : ContainerPathGlobBuilder) (namespaces : list string) : ContainerPathGlobBuilder := {|
  gb_containers := gb_containers b;
  gb_namespaces := foldl (λ s n, if n != "" then Insert s [normalizeNamespace n] else s) (gb_namespaces b) namespaces;
  gb_nsContainers := gb_nsContainers b; gb_paths := gb_paths b |}.

Definition AddContainers (b : ContainerPathGlobBuilder) (containers : list string) : ContainerPathGlobBuilder := {|
  gb_containers := foldl (λ s c, if c != "" then Insert s [collapseWildcards c] else s) (gb_containers b) containers;
  gb_namespaces := gb_namespaces b; gb_nsContainers := gb_nsContainers b; gb_paths := gb_paths b |}.

Definition AddExtensions (b : ContainerPathGlobBuilder) (extensions : list string) : ContainerPathGlobBuilder :=
  foldl (λ b e, gb_add_paths b [crioPathExtFmt (collapseWildcards e)]) b extensions.

Section build.
Context `{RangeOrder}.

Definition namespacesNotToCombine (excludeNSFromContainers : list string) : gset string :=
  foldl (λ s ns, Insert s [normalizeNamespace ns]) (NewString []) excludeNSFromContainers.

(** The set of paths [Build] collects. *)
Definition Build_uniq (b : ContainerPathGlobBuilder) (excludeNSFromContainers : list string) : gset string :=
  let uniq := NewString (gb_paths b) in
  let uniq :=
    if (0 <? size (gb_nsContainers b))%nat
    then foldl (λ u ncs, Insert u [crioNamespaceContainerCombined ncs]) uniq (List (gb_nsContainers b))
    else uniq in
  let containers := size (gb_containers b) in
  let namespaces := size (gb_namespaces b) in
  if (containers =? 0)%nat && (0 <? namespaces)%nat then
    foldl (λ u n, Insert u [crioNamespaceAndContainerPathFmt n "*"]) uniq (List (gb_namespaces b))
  else if (namespaces =? 0)%nat && (0 <? containers)%nat then
    foldl (λ u c, Insert u [crioNamespaceAndContainerPathFmt "*" c]) uniq (List (gb_containers b))
  else if (0 <? namespaces)%nat && (0 <? containers)%nat then
    foldl (λ u c,
      foldl (λ u n,
        let cFinal := if Has (namespacesNotToCombine excludeNSFromContainers) n then "*" else c in
        Insert u [crioNamespaceAndContainerPathFmt n cFinal]) u (List (gb_namespaces b)))
      uniq (List (gb_containers b))
  else uniq.

Definition Build (b : ContainerPathGlobBuilder) (excludeNSFromContainers : list string) : list string :=
  let paths := sort_strings (List (Build_uniq b excludeNSFromContainers)) in
  match paths with
  | [] => []
  | [p] => if p == crioEverything then [] else paths
  | _ => paths
  end.
End build.

(** ** Selectors of pods *)

Definition LabelSelectorOpIn : string := "In".
Definition LabelSelectorOpNotIn : string := "NotIn".
Definition LabelSelectorOpExists : string := "Exists".
Definition LabelSelectorOpDoesNotExist : string := "DoesNotExist".

(** The values of an [In] requirement are sorted in place: the requirement is changed. *)
Definition sort_values (r : LabelSelectorRequirement) : LabelSelectorRequirement :=
  if lsr_Operator r == LabelSelectorOpIn then
    {| lsr_Key := lsr_Key r; lsr_Operator := lsr_Operator r; lsr_Values := sort_strings (lsr_Values r) |}
  else r.

Definition requirement (r : LabelSelectorRequirement) : option string :=
  if lsr_Operator r == LabelSelectorOpExists then Some (lsr_Key r)
  else if lsr_Operator r == LabelSelectorOpDoesNotExist then Some ("!" +:+ lsr_Key r)
  else if lsr_Operator r == LabelSelectorOpIn then
    Some (lsr_Key r +:+ " in (" +:+ Join (lsr_Values (sort_values r)) "," +:+ ")")
  else if lsr_Operator r == LabelSelectorOpNotIn then
    Some (lsr_Key r +:+ " notin (" +:+ Join (lsr_Values r) "," +:+ ")")
  else None.

Definition matchExpressions (expressions : list LabelSelectorRequirement) : list string :=
  sort_strings (omap requirement expressions).

Section labels.
Context `{RangeOrder}.

Definition matchLabels (labels : gmap string string) : list string :=
  sort_strings ((λ kv, if kv.2 == "" then kv.1 else kv.1 +:+ "=" +:+ kv.2) <$> range labels).

(** The selector as text, and the selector with its values as they are left. *)
Definition LabelSelectorFrom (selector : option LabelSelector) : string * option LabelSelector :=
  match selector with
  | None => ("", None)
  | Some s =>
      (Join (matchLabels (ls_MatchLabels s) ++ matchExpressions (ls_MatchExpressions s)) ",",
       Some {| ls_MatchLabels := ls_MatchLabels s; ls_MatchExpressions := sort_values <$> ls_MatchExpressions s |})
  end.
End labels.

(** ** What [Build] gives *)

(** Inserting what a function gives for each element of a list. *)
Lemma elem_of_foldl_Insert {A} (f : A → string) l : ∀ (u : gset string) p,
  p ∈ foldl (λ u x, Insert u [f x]) u l ↔ p ∈ u ∨ ∃ x, x ∈ l ∧ p = f x.
Proof.
  induction l as [|x l IH]; intros u p; cbn [foldl].
  - rewrite exists_nil_iff. naive_solver.
  - rewrite IH, elem_of_Insert, exists_cons_iff, list_elem_of_singleton. naive_solver.
Qed.

Lemma AddCombined_elem b ncs x :
  x ∈ gb_nsContainers (AddCombined b ncs) ↔ x ∈ gb_nsContainers b ∨ ∃ n, n ∈ ncs ∧ x = combined n.
Proof. apply elem_of_foldl_Insert. Qed.

(** Texts that [AddCombined] is called with one by one. *)
Lemma AddCombined_fold {A} (f : A → NamespaceContainer) l : ∀ b,
  foldl (λ b x, AddCombined b [f x]) b l = AddCombined b (f <$> l).
Proof.
  induction l as [|x l IH]; intros b; [by destruct b|]. cbn [foldl fmap list_fmap]. by rewrite IH.
Qed.

Lemma AddCombined_app b l1 l2 : AddCombined (AddCombined b l1) l2 = AddCombined b (l1 ++ l2).
Proof. unfold AddCombined. cbn. by rewrite foldl_app. Qed.

Lemma gb_add_paths_fold (f : string → string) l : ∀ b,
  foldl (λ b n, gb_add_paths b [f n]) b l = gb_add_paths b (f <$> l).
Proof.
  induction l as [|x l IH]; intros [? ? ? ps]; cbn [foldl fmap list_fmap].
  - unfold gb_add_paths. cbn. by rewrite app_nil_r.
  - rewrite IH. unfold gb_add_paths. cbn. by rewrite <-app_assoc.
Qed.

Lemma AddExtensions_paths b l :
  AddExtensions b l = gb_add_paths b ((λ e, crioPathExtFmt (collapseWildcards e)) <$> l).
Proof. apply gb_add_paths_fold. Qed.

Lemma AddOther_paths b l :
  AddOther b l = gb_add_paths b ((λ n, crioPodPathFmt (collapseWildcards n)) <$> l).
Proof. apply gb_add_paths_fold. Qed.

Lemma elem_of_AddNamespaces b l x :
  x ∈ gb_namespaces (AddNamespaces b l) ↔ x ∈ gb_namespaces b ∨ ∃ n, n ∈ l ∧ n ≠ "" ∧ x = normalizeNamespace n.
Proof.
  unfold AddNamespaces. cbn [gb_namespaces]. generalize (gb_namespaces b) as s. induction l as [|n l IH]; intros s; cbn [foldl].
  - rewrite exists_nil_iff. naive_solver.
  - rewrite IH, exists_cons_iff. destruct (String.eqb_spec n "") as [->|Hn]; cbn [negb].
    + naive_solver.
    + rewrite elem_of_Insert, list_elem_of_singleton. naive_solver.
Qed.

Section build_spec.
Context `{RangeOrder}.

(** A path is one of the other paths, or that of a combination, or that of a namespace
    and a container: any of a side nothing was added to, and any container for the
    namespaces whose containers are not to be combined. *)
Definition build_path (b : ContainerPathGlobBuilder) (excludeNS : list string) (p : string) : Prop :=
  p ∈ gb_paths b
  ∨ (∃ x, x ∈ gb_nsContainers b ∧ p = crioNamespaceContainerCombined x)
  ∨ (gb_containers b = ∅ ∧ ∃ n, n ∈ gb_namespaces b ∧ p = crioNamespaceAndContainerPathFmt n "*")
  ∨ (gb_namespaces b = ∅ ∧ ∃ c, c ∈ gb_containers b ∧ p = crioNamespaceAndContainerPathFmt "*" c)
  ∨ (∃ n c, n ∈ gb_namespaces b ∧ c ∈ gb_containers b ∧
       p = crioNamespaceAndContainerPathFmt n
             (if Has (namespacesNotToCombine excludeNS) n then "*" else c)).

Lemma size_pos (s : gset string) : (0 <? size s)%nat = negb (size s =? 0)%nat.
Proof. by destruct (size s). Qed.

Lemma size_zero (s : gset string) : reflect (s = ∅) (size s =? 0)%nat.
Proof.
  destruct (Nat.eqb_spec (size s) 0) as [Hs|Hs]; constructor.
  - by apply leibniz_equiv, size_empty_iff.
  - intros ->. by apply Hs, size_empty.
Qed.

Lemma combined_step (u s : gset string) p :
  p ∈ (if (0 <? size s)%nat
       then foldl (λ u ncs, Insert u [crioNamespaceContainerCombined ncs]) u (List s) else u)
  ↔ p ∈ u ∨ ∃ x, x ∈ s ∧ p = crioNamespaceContainerCombined x.
Proof.
  rewrite size_pos. destruct (size_zero s) as [->|_]; cbn [negb].
  - set_solver.
  - rewrite elem_of_foldl_Insert. by setoid_rewrite elem_of_List.
Qed.

Lemma combine_step (u ns cs : gset string) (f : string → string → string) p :
  p ∈ foldl (λ u c, foldl (λ u n, Insert u [f n c]) u (List ns)) u (List cs)
  ↔ p ∈ u ∨ ∃ n c, n ∈ ns ∧ c ∈ cs ∧ p = f n c.
Proof.
  transitivity (p ∈ u ∨ ∃ c, c ∈ List cs ∧ ∃ n, n ∈ ns ∧ p = f n c);
    [|setoid_rewrite elem_of_List; naive_solver].
  generalize (List cs) as l. revert u. intros u l. revert u.
  induction l as [|c l IH]; intros u; cbn [foldl].
  - rewrite exists_nil_iff. naive_solver.
  - rewrite IH, elem_of_foldl_Insert, exists_cons_iff. setoid_rewrite elem_of_List. naive_solver.
Qed.

Lemma elem_of_Build_uniq b excludeNS p : p ∈ Build_uniq b excludeNS ↔ build_path b excludeNS p.
Proof.
  unfold Build_uniq, build_path. cbv zeta.
  pose proof (combined_step (NewString (gb_paths b)) (gb_nsContainers b) p) as Hu. rewrite elem_of_NewString in Hu.
  set (u := if (0 <? size (gb_nsContainers b))%nat then _ else _) in *. clearbody u. rewrite !size_pos.
  destruct (size_zero (gb_containers b)) as [Hc|Hc], (size_zero (gb_namespaces b)) as [Hn|Hn];
    cbn [negb andb].
  - rewrite Hu, Hc, Hn. set_solver +.
  - rewrite elem_of_foldl_Insert, Hu, Hc. setoid_rewrite elem_of_List. set_solver +.
  - rewrite elem_of_foldl_Insert, Hu, Hn. setoid_rewrite elem_of_List. set_solver +.
  - rewrite (combine_step u _ _ (λ n c, crioNamespaceAndContainerPathFmt n
      (if Has (namespacesNotToCombine excludeNS) n then "*" else c))), Hu. clear -Hc Hn. naive_solver.
Qed.

(** The paths are sorted, once each, and those [build_path] says; there are none, which
    stands for every path, if the only one is that of every log. *)
Lemma Build_spec b excludeNS :
  StronglySorted String.le (Build b excludeNS) ∧ NoDup (Build b excludeNS) ∧
  ((∀ p, p ∈ Build b excludeNS ↔ build_path b excludeNS p) ∨
   (Build b excludeNS = [] ∧ ∀ p, build_path b excludeNS p ↔ p = crioEverything)).
Proof.
  unfold Build. set (l := sort_strings (List (Build_uniq b excludeNS))).
  assert (∀ p, p ∈ l ↔ build_path b excludeNS p) as Hl.
  { intros p. subst l. by rewrite elem_of_sort_strings, elem_of_List, elem_of_Build_uniq. }
  assert (StronglySorted String.le l) as Hs by apply sort_strings_sorted.
  assert (NoDup l) as Hnd by (subst l; rewrite sort_strings_perm, List_SortedList; apply SortedList_NoDup).
  destruct l as [|p [|q l]]; [by eauto| |by eauto].
  destruct (String.eqb_spec p crioEverything) as [->|]; [|by eauto].
  split; [constructor|]. split; [constructor|]. right. split; [done|].
  intros p. by rewrite <-Hl, list_elem_of_singleton.
Qed.
End build_spec.

(** ** The language of a glob *)

Definition glob_char (star : ascii → bool) (c : ascii) : regex :=
  if Ascii.eqb c "*" then Star (Char star) else Char (Ascii.eqb c).

Fixpoint glob (star : ascii → bool) (p : string) : regex :=
  match p with
  | "" => Eps
  | String c p => Seq (glob_char star c) (glob star p)
  end.

(** What a star matches: any character, the slash only if it crosses them. *)
Definition wild (crosses : bool) (c : ascii) : bool := crosses || negb (Ascii.eqb c "/").

(** A pattern for a name, such as those of a spec, matches it. *)
Definition globs (p s : string) : Prop := matches (glob (wild false) p) s.

Section glob.
Context (star : ascii → bool).
Notation g := (glob star).

Lemma glob_app p q s : matches (g (p +:+ q)) s ↔ ∃ s1 s2, s = s1 +:+ s2 ∧ matches (g p) s1 ∧ matches (g q) s2.
Proof.
  induction p as [|c p IH] in s |- *; cbn [glob String.append].
  - setoid_rewrite matches_eps_inv. split.
    + by exists "", s.
    + by intros (? & s2 & -> & -> & ?).
  - setoid_rewrite matches_seq_inv. setoid_rewrite IH. split.
    + intros (s1 & ? & -> & ? & s2 & s3 & -> & ? & ?). exists (s1 +:+ s2), s3.
      rewrite string_app_assoc. eauto 10.
    + intros (? & s3 & -> & (s1 & s2 & -> & ? & ?) & ?). exists s1, (s2 +:+ s3).
      rewrite string_app_assoc. eauto 10.
Qed.

Lemma glob_literal p s : in_string "*" p = false → matches (g p) s ↔ s = p.
Proof.
  induction p as [|c p IH] in s |- *; cbn [glob in_string]; [by rewrite matches_eps_inv|].
  intros [Hc Hp]%orb_false_iff. rewrite Ascii.eqb_sym in Hc. unfold glob_char. rewrite Hc, matches_seq_inv.
  setoid_rewrite matches_char_inv. setoid_rewrite (IH _ Hp). split.
  - by intros (? & ? & -> & (d & -> & <-%Ascii.eqb_eq) & ->).
  - intros ->. exists (String c ""), p. split; [done|]. split; [|done]. exists c. by rewrite Ascii.eqb_refl.
Qed.

Lemma glob_star s : matches (g "*") s ↔ string_forallb star s = true.
Proof.
  cbn [glob]. unfold glob_char. rewrite Ascii.eqb_refl, matches_seq_inv. setoid_rewrite matches_eps_inv.
  setoid_rewrite matches_Star_Char. split.
  - intros (s1 & ? & -> & Hs & ->). by rewrite string_app_nil_r.
  - intros Hs. exists s, "". by rewrite string_app_nil_r.
Qed.

(** Making runs of stars one does not change what a glob matches. *)
Lemma glob_collapse p s : matches (g (collapseWildcards p)) s ↔ matches (g p) s.
Proof.
  induction p as [|c p IH] in s |- *; cbn [collapseWildcards]; [done|].
  destruct (Ascii.eqb c "*" && HasPrefix p "*") eqn:E.
  - apply andb_true_iff in E as [->%Ascii.eqb_eq (q & ->)%HasPrefix_spec]. rewrite IH.
    change (String "*" ("*" +:+ q)) with ("*" +:+ ("*" +:+ q)). rewrite (glob_app "*" ("*" +:+ q)).
    setoid_rewrite glob_app. setoid_rewrite glob_star. split.
    + intros (s1 & s2 & -> & ? & ?). exists "", (s1 +:+ s2). split; [done|]. split; [done|]. eauto.
    + intros (s1 & ? & -> & H1 & s2 & s3 & -> & H2 & ?). exists (s1 +:+ s2), s3.
      by rewrite string_app_assoc, string_forallb_app, H1, H2.
  - cbn [glob]. rewrite !matches_seq_inv. by setoid_rewrite IH.
Qed.

(** A character the glob does not name and a star does not match is in no match. *)
Lemma glob_without d p s :
  in_string d p = false → star d = false → matches (g p) s → in_string d s = false.
Proof.
  induction p as [|c p IH] in s |- *; cbn [glob in_string]; [by intros _ _ ->%matches_eps_inv|].
  intros [Hc Hp]%orb_false_iff Hd (s1 & s2 & -> & H1 & H2)%matches_seq_inv.
  rewrite in_string_app, (IH s2 Hp Hd H2), orb_false_r. unfold glob_char in H1.
  destruct (Ascii.eqb c "*").
  - apply matches_Star_Char in H1. by eapply string_forallb_in_string.
  - apply matches_char_inv in H1 as (e & -> & <-%Ascii.eqb_eq). cbn. by rewrite Hc.
Qed.
End glob.

Lemma in_string_split d s : in_string d s = true → ∃ u v, s = u +:+ String d v ∧ in_string d u = false.
Proof.
  induction s as [|c s IH]; cbn [in_string]; [done|]. destruct (Ascii.eqb_spec d c) as [->|Hne].
  - intros _. by exists "", s.
  - intros (u & v & -> & Hu)%IH. exists (String c u), v. split; [done|]. cbn.
    by destruct (Ascii.eqb_spec d c).
Qed.

(** A separator that is written in the glob and that stars do not match. *)
Lemma glob_sep star d p q a b :
  Ascii.eqb d "*" = false → star d = false → in_string d p = false → in_string d a = false →
  matches (glob star (p +:+ String d q)) (a +:+ String d b) ↔ matches (glob star p) a ∧ matches (glob star q) b.
Proof.
  intros Hs Hd Hp Ha. change (String d q) with (String d "" +:+ q). rewrite glob_app.
  setoid_rewrite glob_app. setoid_rewrite (glob_literal star (String d "")).
  2: { cbn [in_string]. by rewrite Ascii.eqb_sym, Hs. }
  split.
  - intros (s1 & ? & E & H1 & ? & s2 & -> & -> & H2). cbn in E.
    destruct (sep_inj d a s1 b s2 Ha (glob_without star d p s1 Hp Hd H1) E) as [-> ->]. done.
  - intros [H1 H2]. exists a, (String d b). split; [done|]. split; [done|]. by exists (String d ""), b.
Qed.

(** ** Stars that cross slashes *)

Fixpoint slashes (s : string) : nat :=
  match s with
  | "" => 0
  | String c s => (if Ascii.eqb c "/" then 1 else 0) + slashes s
  end.

Lemma slashes_app s t : slashes (s +:+ t) = slashes s + slashes t.
Proof. induction s as [|c s IH]; cbn [slashes String.append]; [done|]. rewrite IH. lia. Qed.

Lemma slashes_zero s : slashes s = 0 ↔ in_string "/" s = false.
Proof.
  induction s as [|c s IH]; cbn [slashes in_string]; [done|].
  rewrite (Ascii.eqb_sym "/" c). destruct (Ascii.eqb c "/"); cbn; [by split|exact IH].
Qed.

Lemma wild_false s : string_forallb (wild false) s = true ↔ in_string "/" s = false.
Proof.
  induction s as [|c s IH]; cbn [string_forallb in_string]; [done|].
  rewrite andb_true_iff, orb_false_iff, IH. unfold wild. rewrite (Ascii.eqb_sym "/" c).
  destruct (Ascii.eqb c "/"); cbn; naive_solver.
Qed.

Lemma wild_false_char d : wild false d = false ↔ d = "/"%char.
Proof. unfold wild. cbn. destruct (Ascii.eqb_spec d "/"); naive_solver. Qed.

Lemma glob_char_slashes c s :
  matches (glob_char (wild true) c) s →
  (if Ascii.eqb c "/" then 1 else 0) <= slashes s ∧
  (slashes s = (if Ascii.eqb c "/" then 1 else 0) → matches (glob_char (wild false) c) s).
Proof.
  unfold glob_char. destruct (Ascii.eqb_spec c "*") as [->|_]; cbn [Ascii.eqb Bool.eqb andb].
  - intros _. split; [lia|]. by rewrite slashes_zero, matches_Star_Char, wild_false.
  - intros H. split; [|done]. apply matches_char_inv in H as (d & -> & <-%Ascii.eqb_eq). cbn. lia.
Qed.

(** A path with as many slashes as the glob leaves none for the stars. *)
Lemma glob_slashes p s :
  matches (glob (wild true) p) s →
  slashes p <= slashes s ∧ (slashes s = slashes p → matches (glob (wild false) p) s).
Proof.
  induction p as [|c p IH] in s |- *; cbn [glob slashes].
  - intros ->%matches_eps_inv. split; [done|by constructor].
  - intros (s1 & s2 & -> & [Hle H1]%glob_char_slashes & [Hle2 H2]%IH)%matches_seq_inv.
    rewrite slashes_app. split; [lia|]. intros E.
    apply matches_seq_inv. exists s1, s2. split; [done|]. split; [apply H1; lia|apply H2; lia].
Qed.

Lemma glob_wild p s : matches (glob (wild false) p) s → matches (glob (wild true) p) s.
Proof.
  induction p as [|c p IH] in s |- *; cbn [glob]; [done|].
  intros (s1 & s2 & -> & H1 & H2)%matches_seq_inv. apply matches_seq_inv. exists s1, s2.
  split; [done|]. split; [|by apply IH]. unfold glob_char in *. destruct (Ascii.eqb c "*"); [|done].
  apply matches_Star_Char. exact (string_forallb_all s1).
Qed.

Lemma glob_crosses crosses p s :
  slashes s = slashes p → matches (glob (wild crosses) p) s ↔ matches (glob (wild false) p) s.
Proof.
  intros E. destruct crosses; [|done]. split; [|apply glob_wild].
  intros H%glob_slashes. by apply H.
Qed.

(** ** Files of container logs *)

(** The file of a container: namespace, pod and uid make the directory of the pod, in it
    a directory for each container has a file for each restart. *)
Record log_file := {
  lf_namespace : string; lf_pod : string; lf_uid : string; lf_container : string; lf_restart : string }.

Definition pod_dir (f : log_file) : string := lf_namespace f +:+ "_" +:+ lf_pod f +:+ "_" +:+ lf_uid f.

Definition log_path (f : log_file) : string :=
  "/var/log/pods/" +:+ pod_dir f +:+ "/" +:+ lf_container f +:+ "/" +:+ lf_restart f +:+ ".log".

(** Names have no slash, that of the namespace no underscore, and a restart is a number. *)
Record log_file_ok (f : log_file) : Prop := {
  lo_namespace : in_string "/" (lf_namespace f) = false ∧ in_string "_" (lf_namespace f) = false;
  lo_pod : in_string "/" (lf_pod f) = false;
  lo_uid : in_string "/" (lf_uid f) = false;
  lo_container : in_string "/" (lf_container f) = false;
  lo_restart : string_forallb is_digit (lf_restart f) = true;
}.

Definition path_glob (N C E : string) : string := "/var/log/pods/" +:+ N +:+ "/" +:+ C +:+ "/" +:+ E.

Definition noslash (s : string) : Prop := in_string "/" s = false.

Lemma noslash_app s t : noslash (s +:+ t) ↔ noslash s ∧ noslash t.
Proof. unfold noslash. by rewrite in_string_app, orb_false_iff. Qed.

Lemma pod_dir_noslash f : log_file_ok f → noslash (pod_dir f).
Proof.
  intros Hf. unfold pod_dir. rewrite !noslash_app. unfold noslash.
  by rewrite (proj1 (lo_namespace f Hf)), (lo_pod f Hf), (lo_uid f Hf).
Qed.

Lemma restart_clean f c : log_file_ok f → is_digit c = false → in_string c (lf_restart f) = false.
Proof. intros Hf Hc. by eapply string_forallb_in_string; [apply lo_restart|]. Qed.

Lemma restart_noslash f : log_file_ok f → noslash (lf_restart f +:+ ".log").
Proof. intros Hf. apply noslash_app. split; [by apply restart_clean|done]. Qed.

(** The parts of a path glob are those of the path, whether or not stars cross slashes. *)
Lemma path_glob_matches crosses N C E f :
  log_file_ok f → noslash N → noslash C → noslash E →
  matches (glob (wild crosses) (path_glob N C E)) (log_path f) ↔
  globs N (pod_dir f) ∧ globs C (lf_container f) ∧ globs E (lf_restart f +:+ ".log").
Proof.
  intros Hf HN HC HE. pose proof (pod_dir_noslash f Hf) as Hd. pose proof (restart_clean f "/" Hf eq_refl) as Hr.
  pose proof (lo_container f Hf) as Hc. rewrite glob_crosses.
  2: { unfold log_path, path_glob. rewrite !slashes_app. cbn [slashes].
       repeat match goal with |- context [slashes ?s] =>
         assert (slashes s = 0) as -> by by apply slashes_zero end. done. }
  unfold log_path, path_glob, globs. rewrite (glob_app _ "/var/log/pods/").
  setoid_rewrite (glob_literal _ "/var/log/pods/"); [|done].
  transitivity (matches (glob (wild false) (N +:+ String "/" (C +:+ String "/" E)))
    (pod_dir f +:+ String "/" (lf_container f +:+ String "/" (lf_restart f +:+ ".log")))).
  { split.
    - intros (? & s2 & E2 & -> & H2). apply string_app_inj_l in E2. by subst s2.
    - intros H2. by do 2 eexists. }
  by rewrite !glob_sep.
Qed.

(** The file of the logs of a container has the extension of a log. *)
Lemma glob_extension ext f :
  log_file_ok f → globs ("*." +:+ ext) (lf_restart f +:+ ".log") ↔ globs ext "log".
Proof.
  intros Hf. unfold globs.
  change ("*." +:+ ext) with ("*" +:+ String "." ext). change (lf_restart f +:+ ".log") with (lf_restart f +:+ String "." "log").
  rewrite (glob_app _ "*"). setoid_rewrite glob_star. split.
  - intros (s1 & s2 & E & _ & H2). cbn [glob] in H2.
    apply matches_seq_inv in H2 as (? & t & -> & (d & -> & <-%Ascii.eqb_eq)%matches_char_inv & Ht).
    cbn [String.append] in E. assert (in_string "." s1 = false) as Hs1.
    { destruct (in_string "." s1) eqn:Es; [|done]. exfalso. apply in_string_split in Es as (u & v & -> & Hu).
      rewrite string_app_assoc in E. destruct (sep_inj "." _ _ _ _ (restart_clean f "." Hf eq_refl) Hu E) as [_ E2].
      apply (f_equal (in_string ".")) in E2. rewrite (in_string_app _ v) in E2. cbn in E2. by rewrite orb_true_r in E2. }
    destruct (sep_inj "." _ _ _ _ (restart_clean f "." Hf eq_refl) Hs1 E) as [_ ->]. done.
  - intros H. exists (lf_restart f), (String "." "log"). split; [done|]. split.
    + apply wild_false. by apply restart_clean.
    + apply matches_seq_inv. exists (String "." ""), "log". split; [done|]. split; [|done]. by constructor.
Qed.

(** ** Patterns of namespaces and containers *)

(** A name, or the start of one with a star after it. *)
Definition plain_pattern (n : string) : Prop :=
  ∃ lit, in_string "*" lit = false ∧ in_string "_" lit = false ∧ noslash lit ∧ (n = lit ∨ n = lit +:+ "*").

Lemma glob_normalize star n s :
  matches (glob star (normalizeNamespace n)) s ↔
  matches (glob star (if n == "*" then "*" else n +:+ "_*")) s.
Proof.
  unfold normalizeNamespace. destruct (String.eqb_spec n "*") as [->|_]; [done|].
  destruct (Contains n "*"); [|done]. cbn [negb]. rewrite !glob_app. by setoid_rewrite glob_collapse.
Qed.

Lemma noslash_collapse p : noslash p → noslash (collapseWildcards p).
Proof.
  unfold noslash. induction p as [|c p IH]; cbn [collapseWildcards in_string]; [done|].
  intros [Hc Hp]%orb_false_iff. destruct (_ && _); [by apply IH|]. cbn [in_string]. by rewrite Hc, IH.
Qed.

Lemma noslash_normalize n : noslash n → noslash (normalizeNamespace n).
Proof.
  intros Hn. unfold normalizeNamespace. destruct (n == "*"); [done|]. destruct (Contains n "*"); cbn [negb].
  - apply noslash_app. split; [by apply noslash_collapse|done].
  - by apply noslash_app.
Qed.

Lemma plain_noslash n : plain_pattern n → noslash n.
Proof. intros (lit & _ & _ & Hs & [->| ->]); [done|]. by apply noslash_app. Qed.

(** A pattern for the namespace always selects the pods of the namespaces it matches. *)
Lemma namespace_selected f n :
  log_file_ok f → globs n (lf_namespace f) → globs (normalizeNamespace n) (pod_dir f).
Proof.
  intros Hf Hn. unfold globs. rewrite glob_normalize. destruct (n == "*").
  { apply glob_star, wild_false. by apply pod_dir_noslash. }
  unfold pod_dir. change ("_*") with ("_" +:+ "*"). rewrite glob_app.
  exists (lf_namespace f), ("_" +:+ lf_pod f +:+ "_" +:+ lf_uid f). split; [done|]. split; [done|].
  rewrite glob_app. exists "_", (lf_pod f +:+ "_" +:+ lf_uid f). split; [done|]. split; [by apply glob_literal|].
  apply glob_star, wild_false. rewrite !in_string_app, (lo_pod f Hf), (lo_uid f Hf). done.
Qed.

(** A plain one selects no others. *)
Lemma namespace_selects f n :
  log_file_ok f → plain_pattern n → globs (normalizeNamespace n) (pod_dir f) ↔ globs n (lf_namespace f).
Proof.
  intros Hf (lit & Hstar & Hund & Hsl & Hn). split; [|by apply namespace_selected].
  destruct (lo_namespace f Hf) as [Hs Hu]. unfold globs. rewrite glob_normalize.
  destruct (String.eqb_spec n "*") as [->|Hne]; [intros _; by apply glob_star, wild_false|].
  change ("_*") with ("_" +:+ "*"). rewrite !glob_app. setoid_rewrite glob_app.
  setoid_rewrite (glob_literal _ "_"); [|done].
  intros (s1 & ? & E & H1 & ? & s2 & -> & -> & _). destruct Hn as [->| ->].
  - apply glob_literal in H1 as ->; [|done]. apply glob_literal; [done|].
    unfold pod_dir in E. by apply sep_inj in E as [? _].
  - apply glob_app in H1 as (? & m & -> & ->%glob_literal & _); [|done].
    rewrite string_app_assoc in E. assert (String.prefix lit (lf_namespace f) = true) as (t & Et)%prefix_spec.
    { rewrite <-(prefix_sep lit (lf_namespace f) "_" (lf_pod f +:+ "_" +:+ lf_uid f) Hund).
      apply prefix_spec. eexists. exact E. }
    rewrite Et, glob_app. exists lit, t. split; [done|]. split; [by apply glob_literal|].
    apply glob_star, wild_false. rewrite Et, in_string_app, orb_false_iff in Hs. by destruct Hs.
Qed.

(** What a namespace and a container of a spec are meant to select. *)
Definition selects (n : NamespaceContainer) (f : log_file) : Prop :=
  (Namespace n = "" ∨ globs (Namespace n) (lf_namespace f)) ∧
  (Container n = "" ∨ globs (Container n) (lf_container f)).

Record plain (n : NamespaceContainer) : Prop := {
  pl_namespace : plain_pattern (Namespace n);
  pl_container : noslash (Container n);
}.

Lemma globs_star s : noslash s → globs "*" s.
Proof. intros Hs. by apply glob_star, wild_false. Qed.

Lemma log_extension f : log_file_ok f → globs "*.log" (lf_restart f +:+ ".log").
Proof. intros Hf. by apply (glob_extension "log"), glob_literal. Qed.

Lemma combined_matches crosses n f :
  log_file_ok f → plain n →
  matches (glob (wild crosses) (crioNamespaceContainerCombined (combined n))) (log_path f) ↔ selects n f.
Proof.
  intros Hf [Hn Hc]. unfold crioNamespaceContainerCombined, combined.
  set (N := if Namespace n == "" then _ else _). set (C := if Container n == "" then _ else _). rewrite !string_app_assoc.
  change ("/var/log/pods/" +:+ normalizeNamespace N +:+ "/" +:+ collapseWildcards C +:+ "/*.log") with (path_glob (normalizeNamespace N) (collapseWildcards C) "*.log").
  assert (plain_pattern N) as HN.
  { subst N. destruct (Namespace n == ""); [|done]. exists "". split_and!; try done. by right. }
  assert (noslash C) as HC by (subst C; by destruct (Container n == "")).
  rewrite (path_glob_matches crosses _ _ "*.log" f Hf (noslash_normalize _ (plain_noslash _ HN))
    (noslash_collapse _ HC) eq_refl).
  rewrite namespace_selects by done. unfold selects. unfold globs at 2. rewrite glob_collapse. fold (globs C (lf_container f)).
  subst N C. destruct (lo_namespace f Hf) as [Hs _].
  pose proof (log_extension f Hf). pose proof (globs_star _ Hs). pose proof (globs_star _ (lo_container f Hf)).
  destruct (String.eqb_spec (Namespace n) ""), (String.eqb_spec (Container n) ""); naive_solver.
Qed.

(** The files a source reads, given the globs it includes, none of which stands for
    every file, and those it excludes. *)
Definition collects (crosses : bool) (includes excludes : list string) (f : log_file) : Prop :=
  (includes = [] ∨ ∃ p, p ∈ includes ∧ matches (glob (wild crosses) p) (log_path f)) ∧
  ¬ ∃ p, p ∈ excludes ∧ matches (glob (wild crosses) p) (log_path f).

Section selection.
Context `{RangeOrder} (crosses : bool) (f : log_file) (Hf : log_file_ok f).

Lemma everything_matches : matches (glob (wild crosses) crioEverything) (log_path f).
Proof.
  apply (path_glob_matches crosses "*" "*" "*.log" f Hf); [done..|].
  split; [apply globs_star; by apply pod_dir_noslash|].
  split; [apply globs_star, (lo_container f Hf)|by apply log_extension].
Qed.

(** No paths, or one that matches. *)
Lemma Build_collects b excludeNS :
  (Build b excludeNS = [] ∨ ∃ p, p ∈ Build b excludeNS ∧ matches (glob (wild crosses) p) (log_path f)) ↔
  (∀ p, ¬ build_path b excludeNS p) ∨
  ∃ p, build_path b excludeNS p ∧ matches (glob (wild crosses) p) (log_path f).
Proof.
  destruct (Build_spec b excludeNS) as (_ & _ & [Hl|[-> Hall]]).
  - setoid_rewrite Hl. apply or_iff_compat_r. split.
    + intros E p Hp. apply (not_elem_of_nil p). rewrite <-E. by apply Hl.
    + intros Hno. destruct (Build b excludeNS) as [|p l]; [done|]. destruct (Hno p). apply Hl. by left.
  - split; [|by left]. intros _. right. exists crioEverything. by rewrite Hall; split; [|apply everything_matches].
Qed.

Lemma Build_excludes b excludeNS :
  (∃ p, build_path b excludeNS p ∧ p ≠ crioEverything) →
  (∃ p, p ∈ Build b excludeNS ∧ matches (glob (wild crosses) p) (log_path f)) ↔
  ∃ p, build_path b excludeNS p ∧ matches (glob (wild crosses) p) (log_path f).
Proof.
  intros (p & Hp & Hne). destruct (Build_spec b excludeNS) as (_ & _ & [Hl|[_ Hall]]).
  - by setoid_rewrite Hl.
  - by apply Hall in Hp.
Qed.

Lemma extension_matches e :
  noslash e → matches (glob (wild crosses) (crioPathExtFmt (collapseWildcards e))) (log_path f) ↔ globs e "log".
Proof.
  intros He. change (crioPathExtFmt (collapseWildcards e)) with (path_glob "*" "*" ("*." +:+ collapseWildcards e)).
  rewrite (path_glob_matches crosses "*" "*" ("*." +:+ collapseWildcards e) f Hf eq_refl eq_refl).
  2: { apply noslash_app. split; [done|by apply noslash_collapse]. }
  rewrite (glob_extension _ f Hf). unfold globs at 3 4. rewrite glob_collapse.
  split; [by intros (_ & _ & ?)|]. intros ?. split; [by apply globs_star, pod_dir_noslash|].
  split; [apply globs_star, (lo_container f Hf)|done].
Qed.

(** The paths of combinations include what the combinations select. *)
Lemma combined_includes ncs :
  (∀ n, n ∈ ncs → plain n) →
  let l := Build (AddCombined NewContainerPathGlobBuilder ncs) [] in
  (l = [] ∨ ∃ p, p ∈ l ∧ matches (glob (wild crosses) p) (log_path f)) ↔
  ncs = [] ∨ ∃ n, n ∈ ncs ∧ selects n f.
Proof.
  intros Hp l. subst l. rewrite Build_collects. set (b := AddCombined _ _).
  assert (∀ p, build_path b [] p ↔ ∃ n, n ∈ ncs ∧ p = crioNamespaceContainerCombined (combined n)) as Hb.
  { intros p. unfold build_path. subst b. setoid_rewrite AddCombined_elem. cbn. set_solver +. }
  setoid_rewrite Hb. split.
  - intros [E|(p & (n & Hn & ->) & Hm)].
    + left. destruct ncs as [|n ncs]; [done|]. destruct (E (crioNamespaceContainerCombined (combined n))). exists n. split; [by left|done].
    + right. exists n. split; [done|]. by apply (combined_matches crosses); [|apply Hp|].
  - intros [->|(n & Hn & Hs)].
    + left. by intros p (? & []%not_elem_of_nil & _).
    + right. eexists. split; [by exists n|]. by apply combined_matches; [|apply Hp|].
Qed.

(** With extensions other than that of a log they exclude what the combinations select. *)
Lemma combined_excludes ncs exts excludeNS :
  (∀ n, n ∈ ncs → plain n) → (∀ e, e ∈ exts → noslash e ∧ ¬ globs e "log") → exts ≠ [] →
  (∃ p, p ∈ Build (AddExtensions (AddCombined NewContainerPathGlobBuilder ncs) exts) excludeNS ∧
     matches (glob (wild crosses) p) (log_path f)) ↔
  ∃ n, n ∈ ncs ∧ selects n f.
Proof.
  intros Hp He Hne. rewrite AddExtensions_paths. set (b := gb_add_paths _ _).
  assert (∀ p, build_path b excludeNS p ↔
    (∃ e, e ∈ exts ∧ p = crioPathExtFmt (collapseWildcards e)) ∨
    ∃ n, n ∈ ncs ∧ p = crioNamespaceContainerCombined (combined n)) as Hb.
  { intros p. unfold build_path. subst b. cbn [gb_add_paths gb_paths gb_nsContainers gb_containers gb_namespaces].
    setoid_rewrite AddCombined_elem. cbn. rewrite list_elem_of_fmap. set_solver +. }
  assert (∀ e, e ∈ exts → ¬ matches (glob (wild crosses) (crioPathExtFmt (collapseWildcards e))) (log_path f)) as Hext.
  { intros e Hin. destruct (He e Hin). by rewrite extension_matches. }
  rewrite Build_excludes.
  2: { destruct exts as [|e exts]; [done|]. eexists. split; [apply Hb; left; exists e; split; [by left|done]|].
       intros E. apply (Hext e (list_elem_of_here _ _)). rewrite E. apply everything_matches. }
  setoid_rewrite Hb. split.
  - intros (p & [(e & Hin & ->)|(n & Hn & ->)] & Hm); [by destruct (Hext e Hin)|].
    exists n. split; [done|]. by apply (combined_matches crosses); [|apply Hp|].
  - intros (n & Hn & Hs). eexists. split; [right; by exists n|]. by apply combined_matches; [|apply Hp|].
Qed.

(** The paths of namespaces include their pods. *)
Lemma namespaces_includes ns :
  (∀ n, n ∈ ns → plain_pattern n ∧ n ≠ "") → ns ≠ [] →
  let l := Build (AddNamespaces NewContainerPathGlobBuilder ns) [] in
  (l = [] ∨ ∃ p, p ∈ l ∧ matches (glob (wild crosses) p) (log_path f)) ↔ ∃ n, n ∈ ns ∧ globs n (lf_namespace f).
Proof.
  intros Hp Hne l. subst l. rewrite Build_collects. set (b := AddNamespaces _ _).
  assert (∀ p, build_path b [] p ↔
    ∃ n, n ∈ ns ∧ p = path_glob (normalizeNamespace n) "*" "*.log") as Hb.
  { intros p. unfold build_path. subst b. setoid_rewrite elem_of_AddNamespaces.
    assert (∀ n, n ∈ ns → n ≠ "") as Hns by (intros n Hn; by apply Hp). cbn. set_solver +Hns. }
  setoid_rewrite Hb.
  assert (∀ n, n ∈ ns → matches (glob (wild crosses) (path_glob (normalizeNamespace n) "*" "*.log")) (log_path f)
    ↔ globs n (lf_namespace f)) as Hm.
  { intros n Hn. destruct (Hp n Hn) as [Hpl _].
    rewrite (path_glob_matches crosses _ "*" "*.log" f Hf (noslash_normalize _ (plain_noslash _ Hpl)) eq_refl eq_refl).
    rewrite (namespace_selects f n Hf Hpl). pose proof (globs_star _ (lo_container f Hf)). pose proof (log_extension f Hf).
    naive_solver. }
  split.
  - intros [E|(p & (n & Hn & ->) & H')].
    + destruct ns as [|n ns]; [done|]. destruct (E (path_glob (normalizeNamespace n) "*" "*.log")). exists n. by split; [left|].
    + exists n. split; [done|]. by apply Hm.
  - intros (n & Hn & H'). right. eexists. split; [by exists n|]. by apply Hm.
Qed.
End selection.
