(* ===== verification/Tls.v ===== *)
(** * TLS ([internal/tls], [internal/generator/framework], [generator/vector/common/tls])

    The files [tls.go] and [fips.go], [options.go] and [tls.go] of the framework, [tls.go]
    of the Vector configuration and its transport type.  The profiles, groups and names
    of versions of the OpenShift API and the lists of suites of Go's [crypto/tls] are
    parameters; what is read from the host is one too. *)

From S2P Require Import Prelude GoStrings ApiCommon ApiInputs ApiOutputs Sets ObsResources ValidateOutputs.
From S2P Require Import VectorHelpers Adapters.

(** ** What is not in the source *)

(** The constants of [github.com/openshift/api/config/v1].  The intermediate profile is
    one of its profiles. *)
Class OpenshiftTLS := {
  TLSProfiles : gmap string TLSProfileSpec;
  TLSProfileIntermediateType : string;
  TLSProfileCustomType : string;
  VersionTLS10 : string;
  VersionTLS11 : string;
  VersionTLS12 : string;
  VersionTLS13 : string;
  TLSGroupX25519 : string;
  TLSGroupSecP256r1 : string;
  TLSGroupSecP384r1 : string;
  TLSGroupSecP521r1 : string;
  TLSGroupX25519MLKEM768 : string;
  TLSGroupSecP256r1MLKEM768 : string;
  TLSGroupSecP384r1MLKEM1024 : string;
  intermediate : TLSProfileSpec;
  intermediate_profile : TLSProfiles !! TLSProfileIntermediateType = Some intermediate;
}.

(** What the operator reads from its host: the flag of the FIPS mode, if the file can be
    read, and whether a socket of IPv6 can be made. *)
Class Host := {
  fips_enabled_file : option string;
  has_inet6 : bool;
}.

(** [tls.CipherSuites] and [tls.InsecureCipherSuites]: names and numbers. *)
Class GoCipherSuites := {
  CipherSuites : list (string * Z);
  InsecureCipherSuites : list (string * Z);
}.

(** ** FIPS mode ([fips.go]) *)

Definition FIPSEnabled `{Host} : bool :=
  match fips_enabled_file with
  | Some enabled => TrimSpace enabled == "1"
  | None => false
  end.

Section profiles.
Context `{OpenshiftTLS, Host}.

Definition nonFIPSTLSGroups : list string :=
  [TLSGroupX25519; TLSGroupX25519MLKEM768; TLSGroupSecP256r1MLKEM768; TLSGroupSecP384r1MLKEM1024].

Definition FilterGroupsForFIPS (groups : list string) : list string :=
  if negb FIPSEnabled then groups
  else filter (λ group, group ∉ nonFIPSTLSGroups) groups.

(** ** Profiles ([tls.go]) *)

Definition APIServerName : string := "cluster".

Definition DefaultTLSProfileType : string := TLSProfileIntermediateType.
Definition DefaultTLSCiphers : list string := tps_Ciphers intermediate.
Definition DefaultMinTLSVersion : string := tps_MinTLSVersion intermediate.
Definition DefaultTLSGroups : list string := tps_Groups intermediate.

(** A map of groups; the names of the OpenShift API are the keys. *)
Definition opensslGroupNames : gmap string string := map_of_assignments
  [(TLSGroupX25519, "X25519"); (TLSGroupSecP256r1, "prime256v1"); (TLSGroupSecP384r1, "secp384r1");
   (TLSGroupSecP521r1, "secp521r1"); (TLSGroupX25519MLKEM768, "X25519MLKEM768");
   (TLSGroupSecP256r1MLKEM768, "SecP256r1MLKEM768"); (TLSGroupSecP384r1MLKEM1024, "SecP384r1MLKEM1024")].

(** The numbers are those of [crypto/tls]. *)
Definition supportedTLSGroups : gmap string Z := map_of_assignments
  [(TLSGroupX25519, 29); (TLSGroupSecP256r1, 23); (TLSGroupSecP384r1, 24); (TLSGroupSecP521r1, 25);
   (TLSGroupX25519MLKEM768, 4588)]%Z.

Definition TLSCiphers (profile : TLSProfileSpec) : list string :=
  if (length (tps_Ciphers profile) =? 0)%nat then DefaultTLSCiphers else tps_Ciphers profile.

Definition MinTLSVersion (profile : TLSProfileSpec) : string :=
  if tps_MinTLSVersion profile == "" then DefaultMinTLSVersion else tps_MinTLSVersion profile.

Definition TLSGroups (profile : TLSProfileSpec) : list string :=
  if (length (tps_Groups profile) =? 0)%nat then DefaultTLSGroups else tps_Groups profile.

Definition TLSGroupToID (group : string) : Z + string :=
  match supportedTLSGroups !! group with
  | Some id => inl id
  | None => inr ("unsupported TLS group: " +:+ group)
  end.

Definition TLSGroupsToOpenSSL (groups : list string) : string :=
  Join (omap (λ g, opensslGroupNames !! g) (FilterGroupsForFIPS groups)) ":".

Definition GetClusterTLSProfileSpec (apiServerTLSProfile : option TLSSecurityProfile) : TLSProfileSpec :=
  match apiServerTLSProfile with
  | None => intermediate
  | Some p =>
      if tsp_Type p == "" then intermediate
      else if tsp_Type p != TLSProfileCustomType then default intermediate (TLSProfiles !! tsp_Type p)
      else default intermediate (tsp_Custom p)
  end.

(** ** The configuration of the operator's own servers *)

Definition TLSVersionToConstant (v : string) : Z :=
  if v == VersionTLS10 then 769
  else if v == VersionTLS11 then 770
  else if v == VersionTLS12 then 771
  else if v == VersionTLS13 then 772
  else 771.

Record tls_Config := {
  MinVersion : Z;
  config_CipherSuites : list Z;
  CurvePreferences : list Z;
}.

Context `{GoCipherSuites}.

Definition CipherSuiteStringToID (name : string) : Z + string :=
  match list_find (λ suite, suite.1 = name) CipherSuites with
  | Some (_, suite) => inl suite.2
  | None =>
      match list_find (λ suite, suite.1 = name) InsecureCipherSuites with
      | Some (_, suite) => inl suite.2
      | None => inr ("unsupported cipher suite: " +:+ name)
      end
  end.

(** What is converted; what is not supported is skipped. *)
Definition supported {A} (f : string → A + string) (l : list string) : list A :=
  omap (λ x, match f x with inl a => Some a | inr _ => None end) l.

Definition TLSConfigFromProfile (profileSpec : TLSProfileSpec) : tls_Config := {|
  MinVersion :=
    if tps_MinTLSVersion profileSpec != "" then TLSVersionToConstant (tps_MinTLSVersion profileSpec) else 771;
  config_CipherSuites := supported CipherSuiteStringToID (tps_Ciphers profileSpec);
  CurvePreferences := supported TLSGroupToID (tps_Groups profileSpec) |}.

(** Given the profile of the API server, or the error of fetching it: what is set on a
    configuration of a server. *)
Definition GetTLSConfigOptions (fetched : option TLSSecurityProfile + string) : tls_Config → tls_Config :=
  let tlsProfile := match fetched with inl p => p | inr _ => None end in
  let tlsConfig := TLSConfigFromProfile (GetClusterTLSProfileSpec tlsProfile) in
  λ _, tlsConfig.
End profiles.

(** ** Events of the API server *)

#[export] Instance TLSProfileSpec_eq_dec : EqDecision TLSProfileSpec.
Proof. solve_decision. Defined.
#[export] Instance TLSSecurityProfile_eq_dec : EqDecision TLSSecurityProfile.
Proof. solve_decision. Defined.

Inductive watched_object : Type :=
  | APIServer (name : string) (TLSSecurityProfile : option TLSSecurityProfile)
  | OtherObject.

Definition IsClusterAPIServer (obj : watched_object) : bool :=
  match obj with
  | APIServer name _ => name == APIServerName
  | OtherObject => false
  end.

Inductive watch_event : Type :=
  | CreateEvent (obj : watched_object)
  | UpdateEvent (old new : watched_object)
  | DeleteEvent (obj : watched_object)
  | GenericEvent (obj : watched_object).

(** A predicate passes the events it has no function for. *)
Definition APIServerTLSProfileChangedPredicate (reconcileOnCreate : bool) (e : watch_event) : bool :=
  match e with
  | CreateEvent obj => if negb reconcileOnCreate then false else IsClusterAPIServer obj
  | UpdateEvent old new =>
      if negb (IsClusterAPIServer new) then false
      else match old, new with
           | APIServer _ p, APIServer _ p' => bool_decide (p ≠ p')
           | _, _ => false
           end
  | DeleteEvent _ => false
  | GenericEvent _ => true
  end.

(** ** Options of the generator ([framework]) *)

Definition ClusterTLSProfileSpec : string := "tlsProfileSpec".
Definition OptMinTLSVersion : string := "minTLSVersion".
Definition OptCiphers : string := "ciphers".
Definition OptGroups : string := "groups".
Definition OptURL : string := "url".

Record FrameworkOption := { fo_Name : string; fo_Value : any }.

Fixpoint HasOption (name : string) (options : list FrameworkOption) : option any :=
  match options with
  | [] => None
  | o :: options => if fo_Name o == name then Some (fo_Value o) else HasOption name options
  end.

(** [TransportLayerSecurity]: what a component says of its TLS. *)
Class TransportLayerSecurity (T : Type) := {
  GetTlsSpec : T → option TLSSpec;
  GetTlsSecurityProfile : T → option TLSSecurityProfile;
  IsInsecureSkipVerify : T → bool;
}.

#[export] Instance Output_TLS : TransportLayerSecurity Output := {|
  GetTlsSpec o := otls_TLSSpec <$> out_TLS (o_Spec o);
  GetTlsSecurityProfile o := out_TLS (o_Spec o) ⇀ otls_TLSSecurityProfile;
  IsInsecureSkipVerify o := match out_TLS (o_Spec o) with Some t => otls_InsecureSkipVerify t | None => false end |}.

Section framework.
Context `{OpenshiftTLS, Host} {T : Type} `{TransportLayerSecurity T}.

(** The version, the suites and the groups of the profile of the component, or else of
    the cluster. *)
Definition TLSProfileInfo (op : Options) (tlsSpec : option T) (separator : string) :
    outcome (string * string * string) :=
  tlsProfileSpec ←
    match tlsSpec ⇀ GetTlsSecurityProfile with
    | Some p => Ret (GetClusterTLSProfileSpec (Some p))
    | None =>
        match op !! ClusterTLSProfileSpec with
        | Some v => as_TLSProfileSpec v
        | None => Ret TLSProfileSpec_zero
        end
    end;
  let groups := TLSGroupsToOpenSSL (tps_Groups tlsProfileSpec) in
  Ret (MinTLSVersion tlsProfileSpec, Join (TLSCiphers tlsProfileSpec) separator,
       if groups == "" then TLSGroupsToOpenSSL (tps_Groups intermediate) else groups).

Definition SetTLSProfileOptionsFrom (op : Options) (tlsSpec : option T) : outcome Options :=
  info ← TLSProfileInfo op tlsSpec ",";
  Ret (<[OptGroups := AnyString info.2]> (<[OptCiphers := AnyString info.1.2]>
        (<[OptMinTLSVersion := AnyString info.1.1]> op))).
End framework.

(** ** The TLS section of a component of the collector ([common/tls/tls.go]) *)

Definition ExcludeInsecureSkipVerify : string := "ExcludeInsecureSkipVerify".

Record TLS := {
  MinTlsVersion : string;
  tls_CipherSuites : string;
  Curves : string;
  VerifyCertificate : option bool;
  VerifyHostname : option bool;
  KeyFile : string;
  CRTFile : string;
  CAFile : string;
  KeyPass : string;
}.

#[export] Instance TLS_eq_dec : EqDecision TLS.
Proof. solve_decision. Defined.

Record TlsEnabled := { te_TLS : TLS; Enabled : bool }.

Definition emptyTLSConf : TLS := {|
  MinTlsVersion := ""; tls_CipherSuites := ""; Curves := ""; VerifyCertificate := None;
  VerifyHostname := None; KeyFile := ""; CRTFile := ""; CAFile := ""; KeyPass := "" |}.

Definition ValuePath (resource : option ValueReference) (formatter : list verb) : string :=
  match resource with
  | None => ""
  | Some r =>
      if vr_SecretName r != "" then helpers_SecretPath (vr_SecretName r) (vr_Key r) formatter
      else if vr_ConfigMapName r != "" then ConfigPath (vr_ConfigMapName r) (vr_Key r) formatter
      else ""
  end.

Definition SecretPath (resource : option SecretReference) (formatter : list verb) : string :=
  match resource with
  | None => ""
  | Some r =>
      if sr_SecretName r == "" then "" else helpers_SecretPath (sr_SecretName r) (sr_Key r) formatter
  end.

(** The option, a string, or else what was there. *)
Definition string_option (op : Options) (key old : string) : outcome string :=
  match op !! key with
  | Some v => as_string v
  | None => Ret old
  end.

Definition SetTLSProfile (t : TLS) (op : Options) : outcome TLS :=
  version ← string_option op OptMinTLSVersion (MinTlsVersion t);
  ciphers ← string_option op OptCiphers (tls_CipherSuites t);
  groups ← string_option op OptGroups (Curves t);
  Ret {| MinTlsVersion := version; tls_CipherSuites := ciphers; Curves := groups;
         VerifyCertificate := VerifyCertificate t; VerifyHostname := VerifyHostname t;
         KeyFile := KeyFile t; CRTFile := CRTFile t; CAFile := CAFile t; KeyPass := KeyPass t |}.

Section conf.
Context (parse_url : string → option URL) {T : Type} `{TransportLayerSecurity T}.

(** The files and the passphrase of the spec, and whether the peer is verified. *)
Definition tls_files (comp : T) (secrets : Secrets) (options : list FrameworkOption) : TLS :=
  match GetTlsSpec comp with
  | None => emptyTLSConf
  | Some spec =>
      let skip := match HasOption ExcludeInsecureSkipVerify options with
                  | Some _ => None
                  | None => if IsInsecureSkipVerify comp then Some false else None
                  end in
      {| MinTlsVersion := ""; tls_CipherSuites := ""; Curves := "";
         VerifyCertificate := skip; VerifyHostname := skip;
         KeyFile := SecretPath (tls_Key spec) [Verb_s]; CRTFile := ValuePath (tls_Certificate spec) [Verb_s];
         CAFile := ValuePath (tls_CA spec) [Verb_s]; KeyPass := AsString secrets (tls_KeyPassphrase spec) |}
  end.

Definition NewTls (comp : option T) (secrets : Secrets) (op : Options) (options : list FrameworkOption) :
    outcome (option TLS) :=
  insecure ← (match HasOption OptURL options with
              | Some outURL => url ← as_string outURL; Ret (negb (IsSecure parse_url url))
              | None => Ret false
              end : outcome bool);
  if (insecure : bool) then Ret None
  else
    conf ← SetTLSProfile (match comp with Some c => tls_files c secrets options | None => emptyTLSConf end) op;
    Ret (if bool_decide (conf = emptyTLSConf) then None else Some conf).

Definition NewTlsEnabled (comp : option T) (secrets : Secrets) (op : Options) (options : list FrameworkOption) :
    outcome (option TlsEnabled) :=
  tls ← NewTls comp secrets op options;
  match tls with
  | Some tls =>
      if (CAFile tls != "") || ((CRTFile tls != "") && (KeyFile tls != ""))
      then Ret (Some {| te_TLS := tls; Enabled := true |})
      else Ret None
  | None => Ret None
  end.
End conf.
