(* ===== verification/SinkTypes.v ===== *)
(** * Types of sinks ([internal/generator/vector/api/sinks])

    The structs of the sinks of the collector and their constructors, which sort what the
    sink reads.  The fields that nothing sets are left out: the acknowledgements, the
    events and the time of a batch, the events of a buffer, the attempts of a request, the
    delimiters of a framing, the path, the framing and the buffer of a socket, the
    resources of the metrics' authorization. *)

From S2P Require Import Prelude GoStrings ApiCommon Tls.

(** ** Parts of sinks ([component.go], [auth.go], [aws_auth.go]) *)

Definition CompressionTypeNone : string := "none".

Record Batch := { MaxBytes : Z }.

Definition BufferTypeDisk : string := "disk".
Definition BufferWhenFullBlock : string := "block".
Definition BufferWhenFullDropNewest : string := "drop_newest".

Record Buffer := { buf_Type : string; WhenFull : string; MaxSize : Z }.

Record Encoding := { Codec : string; TimestampFormat : string; ExceptFields : list string }.

Definition FramingMethodNewlineDelimited : string := "newline_delimited".

Record Framing := { framing_Method : string }.
Record Proxy := { proxy_Enabled : bool; proxy_Http : string; proxy_Https : string }.

Record Request := {
  RetryInitialBackoffSecs : Z;
  RetryMaxDurationSec : Z;
  TimeoutSecs : Z;
  req_Headers : gmap string string;
}.

Definition Request_zero : Request := {|
  RetryInitialBackoffSecs := 0; RetryMaxDurationSec := 0; TimeoutSecs := 0; req_Headers := ∅ |}.

Definition req_set_Headers (r : Request) (h : gmap string string) : Request := {|
  RetryInitialBackoffSecs := RetryInitialBackoffSecs r; RetryMaxDurationSec := RetryMaxDurationSec r;
  TimeoutSecs := TimeoutSecs r; req_Headers := h |}.

Definition HttpAuthStrategyBasic : string := "basic".
Definition HttpAuthStrategyBearer : string := "bearer".

Record HttpAuth := { auth_Strategy : string; auth_User : string; auth_Password : string; auth_Token : string }.

Record AwsAuth := {
  awa_AccessKeyId : string;
  awa_SecretAccessKey : string;
  awa_AssumeRole : string;
  awa_ExternalId : string;
  awa_SessionName : string;
  awa_CredentialsFile : string;
  awa_Profile : string;
}.

Definition AwsAuth_zero : AwsAuth := {|
  awa_AccessKeyId := ""; awa_SecretAccessKey := ""; awa_AssumeRole := ""; awa_ExternalId := ""; awa_SessionName := "";
  awa_CredentialsFile := ""; awa_Profile := "" |}.

Record BaseSink := {
  Compression : string;
  base_Encoding : option Encoding;
  base_Batch : option Batch;
  base_Buffer : option Buffer;
  base_Request : option Request;
  base_TLS : option TLS;
}.

Record HealthCheck := { hc_Enabled : bool }.

(** ** The sinks *)

Definition MethodTypePost : string := "post".

Record AwsCloudwatchLogs := {
  cwl_Inputs : list string;
  cwl_Region : string;
  cwl_GroupName : string;
  cwl_StreamName : string;
  cwl_Endpoint : string;
  cwl_Base : BaseSink;
  cwl_Auth : option AwsAuth;
  cwl_HealthCheck : HealthCheck;
}.

Record AwsS3 := {
  as3_Inputs : list string;
  as3_Region : string;
  as3_Bucket : string;
  as3_KeyPrefix : string;
  as3_Endpoint : string;
  as3_Base : BaseSink;
  as3_Auth : option AwsAuth;
  as3_HealthCheck : HealthCheck;
}.

Record AzureLogsIngestionAuth := {
  alia_AzureCredentialKind : string;
  alia_AzureTenantId : string;
  alia_AzureClientId : string;
  alia_AzureClientSecret : string;
  alia_TenantId : string;
  alia_ClientId : string;
  alia_TokenFilePath : string;
}.

(** The sink of the same name as the section of the API. *)
Record AzureLogsIngestionSink := {
  alis_Inputs : list string;
  alis_Endpoint : string;
  alis_DcrImmutableId : string;
  alis_StreamName : string;
  alis_TokenScope : string;
  alis_TimestampField : string;
  alis_Auth : option AzureLogsIngestionAuth;
  alis_Base : BaseSink;
}.

Record AzureMonitorLogs := {
  aml_Inputs : list string;
  aml_AzureResourceId : string;
  aml_CustomerId : string;
  aml_Host : string;
  aml_LogType : string;
  aml_SharedKey : string;
  aml_Base : BaseSink;
}.

Definition ElasticsearchApiVersion6 : string := "v6".
Definition ElasticsearchApiVersion7 : string := "v7".
Definition ElasticsearchApiVersion8 : string := "v8".
Definition BulkActionCreate : string := "create".

Record Bulk := { bulk_Index : string; bulk_Action : string }.

Record ElasticsearchSink := {
  ess_Inputs : list string;
  ess_Endpoints : list string;
  ess_IdKey : string;
  ess_ApiVersion : string;
  ess_Base : BaseSink;
  ess_Bulk : option Bulk;
  ess_Auth : option HttpAuth;
}.

Record GcpStackdriverLogs := {
  gcp_Inputs : list string;
  gcp_BillingAccountId : string;
  gcp_CredentialsPath : string;
  gcp_LogId : string;
  gcp_SeverityKey : string;
  gcp_FolderId : string;
  gcp_ProjectId : string;
  gcp_OrganizationId : string;
  gcp_Resource : gmap string string;
  gcp_Base : BaseSink;
}.

Record Http := {
  https_Inputs : list string;
  https_URI : string;
  https_Method : string;
  https_Base : BaseSink;
  https_Framing : option Framing;
  https_Auth : option HttpAuth;
  https_Proxy : option Proxy;
}.

Record Sasl := { sasls_Enabled : bool; sasls_Username : string; sasls_Password : string; sasls_Mechanism : string }.

Record KafkaSink := {
  ks_Inputs : list string;
  ks_BootstrapServers : string;
  ks_Topic : string;
  ks_Compression : string;
  ks_HealthCheck : option HealthCheck;
  ks_Encoding : option Encoding;
  ks_Batch : option Batch;
  ks_Buffer : option Buffer;
  ks_Sasl : option Sasl;
  ks_TLS : option TlsEnabled;
  ks_LibrdKafka_Options : gmap string string;
}.

Definition LokiOutOfOrderActionAccept : string := "accept".

Record LokiSink := {
  ls_Inputs : list string;
  ls_Endpoint : string;
  ls_OutOfOrderAction : string;
  ls_TenantId : string;
  ls_Base : BaseSink;
  ls_HealthCheck : option HealthCheck;
  ls_Auth : option HttpAuth;
  ls_Proxy : option Proxy;
  ls_Labels : gmap string string;
}.

Record OpenTelemetryProtocol := {
  otp_URI : string;
  otp_Type : string;
  otp_Method : string;
  otp_PayloadPrefix : string;
  otp_PayloadSuffix : string;
  otp_Compression : string;
  otp_TLS : option TLS;
  otp_Encoding : option Encoding;
  otp_Auth : option HttpAuth;
  otp_Request : option Request;
}.

Record OpenTelemetry := {
  ot_Inputs : list string;
  ot_Protocol : OpenTelemetryProtocol;
  ot_Batch : option Batch;
  ot_Buffer : option Buffer;
}.

Definition PrometheusExporterAuthStrategySar : string := "sar".

Record PrometheusExporterAuth := { pea_Strategy : string; pea_Path : string; pea_Verb : string }.

Record PrometheusExporter := {
  pe_Inputs : list string;
  pe_Address : string;
  pe_DefaultNamespace : string;
  pe_TLS : option TlsEnabled;
  pe_Auth : option PrometheusExporterAuth;
}.

Definition SocketModeTCP : string := "tcp".
Definition SocketModeUDP : string := "udp".

Record Keepalive := { ka_TimeSecs : Z }.

Record SyslogEncodingConfig := {
  sec_RFC : string;
  sec_Facility : string;
  sec_Severity : string;
  sec_AppName : string;
  sec_MsgID : string;
  sec_ProcID : string;
}.

Record SocketEncoding := { se_Codec : string; se_Syslog : option SyslogEncodingConfig }.

Record Socket := {
  sock_Inputs : list string;
  sock_Address : string;
  sock_Mode : string;
  sock_Keepalive : option Keepalive;
  sock_Encoding : option SocketEncoding;
  sock_Buffer : option Buffer;
  sock_TLS : option TlsEnabled;
}.

Record SplunkHecLogs := {
  shl_Inputs : list string;
  shl_Endpoint : string;
  shl_DefaultToken : string;
  shl_Index : string;
  shl_TimestampKey : string;
  shl_IndexedFields : list string;
  shl_Source : string;
  shl_SourceType : string;
  shl_HostKey : string;
  shl_Base : BaseSink;
}.

(** ** Any sink *)

Inductive sink : Type :=
  | KAwsCloudwatchLogs (s : AwsCloudwatchLogs)
  | KAwsS3 (s : AwsS3)
  | KAzureLogsIngestion (s : AzureLogsIngestionSink)
  | KAzureMonitorLogs (s : AzureMonitorLogs)
  | KElasticsearch (s : ElasticsearchSink)
  | KGcpStackdriverLogs (s : GcpStackdriverLogs)
  | KHttp (s : Http)
  | KKafka (s : KafkaSink)
  | KLoki (s : LokiSink)
  | KOpenTelemetry (s : OpenTelemetry)
  | KPrometheusExporter (s : PrometheusExporter)
  | KSocket (s : Socket)
  | KSplunkHecLogs (s : SplunkHecLogs).

(** The field [Type], which the constructors set and [SinkType] reads. *)
Definition SinkType (s : sink) : string :=
  match s with
  | KAwsCloudwatchLogs _ => "aws_cloudwatch_logs"
  | KAwsS3 _ => "aws_s3"
  | KAzureLogsIngestion _ => "azure_logs_ingestion"
  | KAzureMonitorLogs _ => "azure_monitor_logs"
  | KElasticsearch _ => "elasticsearch"
  | KGcpStackdriverLogs _ => "gcp_stackdriver_logs"
  | KHttp _ => "http"
  | KKafka _ => "kafka"
  | KLoki _ => "loki"
  | KOpenTelemetry _ => "opentelemetry"
  | KPrometheusExporter _ => "prometheus_exporter"
  | KSocket _ => "socket"
  | KSplunkHecLogs _ => "splunk_hec_logs"
  end.

(** What a sink reads. *)
Definition sink_inputs (s : sink) : list string :=
  match s with
  | KAwsCloudwatchLogs s => cwl_Inputs s
  | KAwsS3 s => as3_Inputs s
  | KAzureLogsIngestion s => alis_Inputs s
  | KAzureMonitorLogs s => aml_Inputs s
  | KElasticsearch s => ess_Inputs s
  | KGcpStackdriverLogs s => gcp_Inputs s
  | KHttp s => https_Inputs s
  | KKafka s => ks_Inputs s
  | KLoki s => ls_Inputs s
  | KOpenTelemetry s => ot_Inputs s
  | KPrometheusExporter s => pe_Inputs s
  | KSocket s => sock_Inputs s
  | KSplunkHecLogs s => shl_Inputs s
  end.

Notation Sinks := (gmap string sink).
