(* ===== verification/Sources.v ===== *)
(** * Sources of the collector ([internal/generator/vector/input])

    The files of [input], [api/sources] and [api/types/source_types.go], with
    [adapters/input.go].  A source function appends to the identifiers of its input,
    which the pipelines read, and the one of a container sorts values of its selector:
    the input is threaded through.  So are the options, which [NewSource] writes. *)

From S2P Require Import Prelude GoStrings Regex ApiCommon ApiInputs Sets ObsResources ObsInputs ValidateOutputs Toml.
From S2P Require Import Transforms VrlText VectorHelpers Viaq Adapters ContainerPaths Tls Network.

(** ** Types of sources *)

Definition SourceTypeFile : string := "file".
Definition SourceTypeHttpServer : string := "http_server".
Definition SourceTypeInternalMetrics : string := "internal_metrics".
Definition SourceTypeKubernetesLogs : string := "kubernetes_logs".
Definition SourceTypeJournald : string := "journald".
Definition SourceTypeSyslog : string := "syslog".

Record File := {
  file_Type : string;
  file_Include : list string;
  file_HostKey : string;
  file_GlobalMinimumCooldownMilliSeconds : Z;
  file_IgnoreOlderSecs : Z;
  file_MaxLineBytes : Z;
  file_MaxReadBytes : Z;
  file_RotateWaitSecs : Z;
}.

Definition NewFile (include : list string) : File := {|
  file_Type := SourceTypeFile; file_Include := include; file_HostKey := "";
  file_GlobalMinimumCooldownMilliSeconds := 0; file_IgnoreOlderSecs := 0; file_MaxLineBytes := 0;
  file_MaxReadBytes := 0; file_RotateWaitSecs := 0 |}.

Definition CodecTypeJSON : string := "json".

Record HttpServer := {
  http_Type : string;
  http_Address : string;
  http_Decoding : option string;
  http_TLS : option TlsEnabled;
}.

Definition listen_at (listenAddress : string) (listenPort : Z) : string := listenAddress +:+ ":" +:+ Itoa listenPort.

Definition NewHttpServer (listenAddress : string) (listenPort : Z) : HttpServer := {|
  http_Type := SourceTypeHttpServer; http_Address := listen_at listenAddress listenPort;
  http_Decoding := None; http_TLS := None |}.

Record InternalMetrics := { im_Type : string; im_ScrapIntervalSeconds : Z }.

Definition NewInternalMetrics : InternalMetrics := {|
  im_Type := SourceTypeInternalMetrics; im_ScrapIntervalSeconds := 0 |}.

Record Journald := { jd_Type : string; jd_JournalDirectory : string; jd_JournalctlPath : string }.

Definition NewJournalD : Journald := {|
  jd_Type := SourceTypeJournald; jd_JournalDirectory := "/var/log/journal";
  jd_JournalctlPath := "/usr/bin/journalctl" |}.

Record PodAnnotationFields := {
  PodLabels : string; PodNamespace : string; PodAnnotations : string; PodUid : string; PodNodeName : string }.

Record KubernetesLogs := {
  kl_Type : string;
  kl_MaxReadBytes : Z;
  kl_GlobMinimumCooldownMillis : Z;
  kl_AutoPartialMerge : bool;
  kl_MaxMergedLineBytes : Z;
  kl_IncludePathsGlobPatterns : list string;
  kl_ExcludePathsGlobPatterns : list string;
  kl_ExtraLabelSelector : string;
  kl_RotateWaitSecs : Z;
  kl_UseApiServerCache : bool;
  kl_PodAnnotationFields : option PodAnnotationFields;
  kl_NamespaceUid : option string;   (** [NamespaceAnnotationFields] *)
}.

Definition SyslogModeTcp : string := "tcp".

Record Syslog := {
  syslog_Type : string;
  syslog_Address : string;
  syslog_Mode : string;
  syslog_TLS : option TlsEnabled;
}.

Definition NewSyslogServer (listenAddress : string) (listenPort : Z) (mode : string) : Syslog := {|
  syslog_Type := SourceTypeSyslog; syslog_Address := listen_at listenAddress listenPort;
  syslog_Mode := mode; syslog_TLS := None |}.

Inductive source : Type :=
  | SFile (f : File)
  | SHttpServer (h : HttpServer)
  | SInternalMetrics (i : InternalMetrics)
  | SKubernetesLogs (k : KubernetesLogs)
  | SJournald (j : Journald)
  | SSyslog (s : Syslog).

(** [SourceType]; the internal metrics do not read their field. *)
Definition SourceType (s : source) : string :=
  match s with
  | SFile f => file_Type f
  | SHttpServer h => http_Type h
  | SInternalMetrics _ => SourceTypeInternalMetrics
  | SKubernetesLogs k => kl_Type k
  | SJournald j => jd_Type j
  | SSyslog s => syslog_Type s
  end.

Notation Sources := (gmap string source).

(** ** Inputs ([adapters/input.go]) *)

Record Input := { i_Spec : InputSpec; i_Ids : list string }.

Definition NewInput (spec : InputSpec) : Input := {| i_Spec := spec; i_Ids := [] |}.

Definition add_id (i : Input) (id : string) : Input := {| i_Spec := i_Spec i; i_Ids := i_Ids i ++ [id] |}.

#[export] Instance Input_TLS : TransportLayerSecurity Input := {|
  GetTlsSpec i := in_Receiver (i_Spec i) ⇀ recv_TLS;
  GetTlsSecurityProfile _ := None;
  IsInsecureSkipVerify _ := false |}.

(** ** Programs that normalize records ([internal.go]) *)

Definition logTypeContainer : string := raw "
# If namespace is infra, label log_type as infra
if match_any(string(._internal.kubernetes.namespace_name) ?? ``, [r'^default$', r'^openshift(-.+)?$', r'^kube(-.+)?$']) {
  ._internal.log_type = `infrastructure`
} else {
  ._internal.log_type = `application`
}
".

Definition parseStructured : string := "
._internal.structured = parse_json!(string!(._internal.message))
._internal = merge!(._internal,._internal.structured)
".

Definition parseStructuredAuditTimestamp : string := raw "
audit_time, audit_err = parse_timestamp(to_string(._internal.stageTimestamp) ?? ``, `%+`)
if audit_err != null {
  audit_time, audit_err = parse_timestamp(to_string(._internal.requestReceivedTimestamp) ?? ``, `%+`)
}
if audit_err == null { ._internal.timestamp = audit_time }
".

Definition parseReceiverStructuredAuditTimestamp : string := raw "
audit_time, audit_err = parse_timestamp(to_string(._internal.structured.stageTimestamp) ?? ``, `%+`)
if audit_err != null {
  audit_time, audit_err = parse_timestamp(to_string(._internal.structured.requestReceivedTimestamp) ?? ``, `%+`)
}
if audit_err == null { ._internal.timestamp = audit_time }
".

Definition setClusterID : string := raw "._internal.openshift = { `cluster_id`: `${OPENSHIFT_CLUSTER_ID:-}`}".
Definition setOpenshiftSequence : string :=
  raw "._internal.openshift.sequence = to_unix_timestamp(now(), unit: `nanoseconds`)".
Definition setEnvelope : string := raw ". = {`_internal`: .}".
Definition setKubernetesContainerIOStream : string :=
  "if exists(._internal.stream) {._internal.kubernetes.container_iostream = ._internal.stream}".
Definition setEnvelopeToStructured : string := raw ". = {`_internal`: {`structured`: .}}".
Definition setHostName : string := raw "._internal.hostname = get_env_var(`VECTOR_SELF_NODE_NAME`) ?? ``".

Definition recoverMetadataFromFilePath : string := "
if exists(._internal.file) && !exists(._internal.kubernetes.namespace_name) {
  parsed_path, err = parse_regex(string!(._internal.file), r'^/var/log/pods/(?P<namespace>[^_]+)_(?P<pod>.+)_(?P<uid>[a-f0-9-]{36})/(?P<container>[^/]+)/\d+\.log$')
  if err == null {
    ._internal.kubernetes.namespace_name = parsed_path.namespace
    ._internal.kubernetes.pod_name = parsed_path.pod
    ._internal.kubernetes.pod_id = parsed_path.uid
    ._internal.kubernetes.container_name = parsed_path.container
  }
}
".

(** The kinds of values a log source has: comparing one with a constant of another
    type, behind an interface, is false. *)
Inductive log_source : Type :=
  | LSInfrastructure (s : InfrastructureSource)
  | LSAudit (s : AuditSource)
  | LSReceiver (s : ReceiverType).

Definition log_source_text (s : log_source) : string :=
  match s with LSInfrastructure s | LSAudit s | LSReceiver s => s end.

Definition is_container (s : log_source) : bool :=
  match s with LSInfrastructure s => s == InfrastructureSourceContainer | _ => false end.

Definition fmtLogSource (logSource : string) : string := "._internal.log_source = " +:+ Quote logSource.
Definition fmtLogType (logType : string) : string := "._internal.log_type = " +:+ Quote logType.

Definition remap (vrls : list string) (inputs : string) : transform := TRemap (Some (NewRemap (Join vrls LF) [inputs])).

Definition NewAuditInternalNormalization (logSource : AuditSource) (inputs : string) (parseIntoStructured : bool)
    (addVRLs : list string) : transform :=
  remap ([setEnvelope]
    ++ (if parseIntoStructured then [parseStructured; parseStructuredAuditTimestamp] else [])
    ++ [fmtLogSource logSource; fmtLogType InputTypeAudit; setHostName; setClusterID; setOpenshiftSequence]
    ++ addVRLs) inputs.

Definition NewInternalNormalization (logSource : log_source) (logType : InputType) (inputs : string)
    (addVRLs : list string) : transform :=
  remap ([setEnvelope]
    ++ (if is_container logSource then [setKubernetesContainerIOStream; recoverMetadataFromFilePath] else [])
    ++ [fmtLogSource (log_source_text logSource);
        (if is_container logSource then logTypeContainer else fmtLogType logType);
        setHostName; setClusterID; setOpenshiftSequence; SetLogLevel]
    ++ addVRLs) inputs.

Definition NewJournalInternalNormalization (logSource : log_source) (envelopeVrl inputs : string)
    (addVRLs : list string) : transform :=
  remap ([envelopeVrl; fmtLogSource (log_source_text logSource); fmtLogType InputTypeInfrastructure;
          setClusterID; setOpenshiftSequence] ++ addVRLs) inputs.

Definition NewReceiverInternalNormalization (logSource : log_source) (envelopeVrl inputs : string)
    (addVRLs : list string) : transform :=
  remap ([envelopeVrl; fmtLogSource (log_source_text logSource); fmtLogType InputTypeReceiver;
          "._internal.timestamp = del(._internal.structured.timestamp)";
          "._internal.message = del(._internal.structured.message)"] ++ addVRLs) inputs.

(** ** Audit logs ([audit.go]) *)

Definition GlobalMinimumCooldown : Z := 15000.
Definition IgnoreOlderSecs : Z := 3600.
Definition MaxLineBytes : Z := 3145728.
Definition MaxReadBytes : Z := 262144.
Definition RotateWaitSecs : Z := 5.

(** A quotient of positive numbers rounded to the nearest float64, ties to even: the
    result is a mantissa and an exponent of two. *)
Definition round64 (num den : Z) : Z * Z :=
  if (num =? 0)%Z then (0, 0)%Z
  else
    let k := (Z.log2 num - Z.log2 den)%Z in
    let below := (num * 2 ^ Z.max 0 (- k) <? den * 2 ^ Z.max 0 k)%Z in
    let e := (k - (if below then 53 else 52))%Z in
    let n := (num * 2 ^ Z.max 0 (- e))%Z in
    let d := (den * 2 ^ Z.max 0 e)%Z in
    let q := (n / d)%Z in
    let r := (n mod d)%Z in
    (if (2 * r <? d) || ((2 * r =? d) && Z.even q) then q else q + 1, e)%Z.

(** [int64(d.Seconds())]: the seconds and the nanoseconds are added as floats and the
    sum is truncated. *)
Definition Seconds (d : Z) : Z :=
  let sec := (Z.abs d / 1000000000)%Z in
  let q := round64 (Z.abs d mod 1000000000) 1000000000 in
  let s := round64 (sec * 2 ^ Z.max 0 (- q.2) + q.1) (2 ^ Z.max 0 (- q.2)) in
  (Z.sgn d * (s.1 * 2 ^ Z.max 0 s.2 / 2 ^ Z.max 0 (- s.2)))%Z.

Definition auditIgnoreOlderSecs (input : Input) : Z :=
  match in_Audit (i_Spec input) ⇀ audit_Tuning ⇀ aitune_IgnoreOlder with
  | Some d => Seconds d
  | None => IgnoreOlderSecs
  end.

(** What a source function gives: the identifier, the source, the transforms and the input. *)
Definition made_source := (string * source * Transforms * Input)%type.

Definition audit_file (input : Input) (include : list string) : source := SFile {|
  file_Type := SourceTypeFile; file_Include := include; file_HostKey := "hostname";
  file_GlobalMinimumCooldownMilliSeconds := GlobalMinimumCooldown;
  file_IgnoreOlderSecs := auditIgnoreOlderSecs input; file_MaxLineBytes := MaxLineBytes;
  file_MaxReadBytes := MaxReadBytes; file_RotateWaitSecs := RotateWaitSecs |}.

Definition meta (id : string) : string := MakeID [id; "meta"].

Definition audit_source (input : Input) (name : string) (include : list string) (normalize : string → transform) :
    made_source :=
  let id := MakeInputID [in_Name (i_Spec input); name] in
  (id, audit_file input include, {[meta id := normalize id]}, add_id input (meta id)).

Definition NewAuditAuditdSource (input : Input) : made_source :=
  audit_source input "host" ["/var/log/audit/audit.log"] (λ id,
    NewInternalNormalization (LSAudit AuditSourceAuditd) InputTypeAudit id [ParseHostAuditLogs]).

Definition NewK8sAuditSource (input : Input) : made_source :=
  audit_source input "kube" ["/var/log/kube-apiserver/audit.log"] (λ id,
    NewAuditInternalNormalization AuditSourceKube id true []).

Definition NewOpenshiftAuditSource (input : Input) : made_source :=
  audit_source input "openshift"
    ["/var/log/oauth-apiserver/audit.log"; "/var/log/openshift-apiserver/audit.log"; "/var/log/oauth-server/audit.log"]
    (λ id, NewAuditInternalNormalization AuditSourceOpenShift id true []).

Definition NewOVNAuditSource (input : Input) : made_source :=
  audit_source input "ovn" ["/var/log/ovn/acl-audit-log.log"] (λ id,
    NewInternalNormalization (LSAudit AuditSourceOVN) InputTypeAudit id [ParseOVNAuditLogTimestamp]).

(** ** The journal of a node ([journal.go]) *)

Definition NewJournalInput (input : Input) : made_source :=
  let id := MakeInputID [in_Name (i_Spec input); "journal"] in
  (id, SJournald NewJournalD,
   {[meta id := NewJournalInternalNormalization (LSInfrastructure InfrastructureSourceNode) setEnvelope id
       [FixJournalLogLevel; SetJournalMessage; SystemK; SystemT; SystemU]]},
   add_id input (meta id)).

(** ** Receivers ([receiver.go], [helpers.go]) *)

Definition newItemsTransform (inputs : string) : transform := remap [raw "
if exists(.items) {
  r = array([])
  for_each(array!(.items)) -> |_index, i| {
    r = push(r, {`structured`: i})
  }
  . = r
} else {
  . = {`structured`: .}
}
"] inputs.

Definition ListenOnAllLocalInterfacesAddress `{Host} : string := if has_inet6 then "[::]" else "0.0.0.0".

Section receiver.
Context (parse_url : string → option URL) `{Host}.

Definition NewViaqReceiverSource (spec : Input) (secrets : Secrets) (op : Options) : outcome made_source :=
  let base := MakeInputID [in_Name (i_Spec spec)] in
  let metaID := meta base in
  serverTls ← NewTlsEnabled parse_url (Some spec) secrets op [];
  receiver ← deref (in_Receiver (i_Spec spec));
  if recv_Type receiver == ReceiverTypeSyslog then
    let server := NewSyslogServer ListenOnAllLocalInterfacesAddress (recv_Port receiver) SyslogModeTcp in
    Ret (base,
         SSyslog {| syslog_Type := syslog_Type server; syslog_Address := syslog_Address server;
                    syslog_Mode := syslog_Mode server; syslog_TLS := serverTls |},
         {[metaID := NewReceiverInternalNormalization (LSReceiver ReceiverTypeSyslog) setEnvelopeToStructured base []]},
         add_id spec metaID)
  else if recv_Type receiver == ReceiverTypeHTTP then
    let itemsID := MakeID [base; "items"] in
    let server := NewHttpServer ListenOnAllLocalInterfacesAddress (recv_Port receiver) in
    Ret (base,
         SHttpServer {| http_Type := http_Type server; http_Address := http_Address server;
                        http_TLS := serverTls; http_Decoding := Some CodecTypeJSON |},
         <[metaID := NewAuditInternalNormalization AuditSourceKube itemsID false [parseReceiverStructuredAuditTimestamp]]>
           {[itemsID := newItemsTransform base]},
         add_id spec metaID)
  else Panic ("Unsupported receiver type " +:+ Quote (recv_Type receiver)).
End receiver.

(** ** Containers ([container.go], [throttle.go]) *)

Definition OpenshiftNS : string := "openshift-logging".
Definition ElasticsearchName : string := "elasticsearch".
Definition KibanaName : string := "kibana".

Definition nsPodPathFmt (ns pod : string) : string := ns +:+ "_" +:+ pod +:+ "-*/*/*.log".
Definition nsContainerPathFmt (ns container : string) : string := ns +:+ "_*/" +:+ container +:+ "/*.log".

Definition excludeExtensions : list string := ["gz"; "tmp"; "log.*"].
Definition infraNamespaces : list string := ["default"; "openshift*"; "kube*"].

Definition loggingExcludes_builder : ContainerPathGlobBuilder :=
  AddExtensions
    (AddOther
      (AddOther NewContainerPathGlobBuilder
        [nsPodPathFmt OpenshiftNS LogfilesmetricexporterName; nsPodPathFmt OpenshiftNS ElasticsearchName;
         nsPodPathFmt OpenshiftNS KibanaName])
      [nsContainerPathFmt OpenshiftNS "loki*"; nsContainerPathFmt OpenshiftNS "gateway";
       nsContainerPathFmt OpenshiftNS "opa"])
    excludeExtensions.

Definition perContainerLimitKeyField : string := "{{ _internal.file }}".

Definition AddThrottleToInput (input : string) (maxRecordsPerSec : Z) : transform :=
  TThrottle (Some (NewThrottle [input] maxRecordsPerSec perContainerLimitKeyField)).

(** The size, if it is given and is an integer. *)
Definition message_size (t : option ContainerInputTuningSpec) (old : Z) : Z :=
  default old (t ⇀ citune_MaxMessageSize ⇀ Quantity_AsInt64).

Definition set_selector (i : Input) (selector : option LabelSelector) : Input :=
  match in_Application (i_Spec i) with
  | None => i
  | Some app =>
      let spec := i_Spec i in
      {| i_Ids := i_Ids i; i_Spec := {|
           in_Name := in_Name spec; in_Type := in_Type spec; in_Infrastructure := in_Infrastructure spec;
           in_Audit := in_Audit spec; in_Receiver := in_Receiver spec;
           in_Application := Some {| app_Selector := selector; app_Tuning := app_Tuning app;
             app_Includes := app_Includes app; app_Excludes := app_Excludes app |} |} |}
  end.

Definition max_message_size (spec : InputSpec) : Z :=
  let maxMsgSize := message_size (in_Application spec ⇀ app_Tuning) 0 in
  match in_Infrastructure spec with
  | Some infra =>
      if (length (infra_Sources infra) =? 0)%nat
         || Has (NewString (infra_Sources infra)) InfrastructureSourceContainer
      then message_size (infra_Tuning infra ⇀ iitune_Container) maxMsgSize
      else maxMsgSize
  | None => maxMsgSize
  end.

Section container.
Context `{RangeOrder}.

Definition loggingExcludes : list string := Build loggingExcludes_builder [].

Definition NewContainerSource (spec : Input) (includes excludes : list string) (logType : InputType)
    (logSource : log_source) : outcome made_source :=
  let base := MakeInputID [in_Name (i_Spec spec); "container"] in
  let metaID := meta base in
  let '(labels, selector) := LabelSelectorFrom (in_Application (i_Spec spec) ⇀ app_Selector) in
  let source := SKubernetesLogs {|
    kl_Type := SourceTypeKubernetesLogs; kl_MaxReadBytes := 3145728; kl_GlobMinimumCooldownMillis := 15000;
    kl_AutoPartialMerge := true; kl_MaxMergedLineBytes := to_uint64 (max_message_size (i_Spec spec));
    kl_IncludePathsGlobPatterns := includes; kl_ExcludePathsGlobPatterns := excludes;
    kl_ExtraLabelSelector := labels; kl_RotateWaitSecs := 5; kl_UseApiServerCache := true;
    kl_PodAnnotationFields := Some {|
      PodLabels := "kubernetes.labels"; PodNamespace := "kubernetes.namespace_name";
      PodAnnotations := "kubernetes.annotations"; PodUid := "kubernetes.pod_id"; PodNodeName := "hostname" |};
    kl_NamespaceUid := Some "kubernetes.namespace_id" |} in
  let tfs : Transforms := {[metaID := NewInternalNormalization logSource logType base []]} in
  let spec := set_selector spec selector in
  policy ← MaxRecordsPerSecond (i_Spec spec);
  if (policy : Z * bool).2 then
    let throttleID := MakeID [base; "throttle"] in
    Ret (base, source, <[throttleID := AddThrottleToInput metaID policy.1]> tfs, add_id spec throttleID)
  else Ret (base, source, tfs, add_id spec metaID).

(** The group of [InfraNSRegex] that takes part in its leftmost match.  The alternation
    binds weaker than the anchors, so that the last two are searched for. *)
Fixpoint infra_capture (start : bool) (s : string) : option string :=
  if start && HasPrefix s "default" then Some "default"
  else if HasPrefix s "openshift" then Some "openshift"
  else if HasPrefix s "kube" && negb (in_string "010" s) then Some "kube"
  else match s with "" => None | String _ s => infra_capture false s end.

Definition remove_infra (infraNSSet : gset string) (k : string) : gset string :=
  if k == "default" then infraNSSet ∖ {["default"]}
  else if k == "openshift" then infraNSSet ∖ {["openshift*"]}
  else if k == "kube" then infraNSSet ∖ {["kube*"]}
  else infraNSSet.

Definition pruneInfraNS (includes : list string) : list string :=
  let foundInfraNamespaces := NewString (omap (infra_capture true) includes) in
  List (foldl remove_infra (NewString infraNamespaces) (set_order foundInfraNamespaces)).
End container.

(** ** The sources of an input ([source.go]) *)

Definition container_of (n : NamespaceContainerSpec) : NamespaceContainer := {|
  Namespace := nc_Namespace n; Container := nc_Container n |}.

Section new_source.
Context `{RangeOrder, OpenshiftTLS, Host} (parse_url : string → option URL).

Definition namespace_only (ns : string) : NamespaceContainer := {| Namespace := ns; Container := "" |}.

(** The builders of what an application input includes and excludes. *)
Definition application_builders (app : option Application) : ContainerPathGlobBuilder * ContainerPathGlobBuilder :=
  let ib := NewContainerPathGlobBuilder in
  let eb := NewContainerPathGlobBuilder in
  match app with
  | Some app =>
      let ib := foldl (λ b n, AddCombined b [container_of n]) ib (app_Includes app) in
      let appIncludes := nc_Namespace <$> app_Includes app in
      let eb := foldl (λ b ns, AddCombined b [namespace_only ns]) eb (pruneInfraNS appIncludes) in
      let eb := foldl (λ b n, AddCombined b [container_of n]) eb (app_Excludes app) in
      (ib, AddExtensions eb excludeExtensions)
  | None =>
      (ib, AddExtensions (foldl (λ b ns, AddCombined b [namespace_only ns]) eb (pruneInfraNS [])) excludeExtensions)
  end.

(** What [NewSource] has put together, with the input as it is left. *)
Definition sources_state := (Sources * Transforms * Input)%type.

Definition add_source (st : sources_state) (m : made_source) : sources_state :=
  let '(sources, tfs, _) := st in
  let '(id, source, ctfs, input) := m in
  (<[id := source]> sources, ctfs ∪ tfs, input).

(** A source that is made only if it is asked for. *)
Definition add_if (asked : bool) (make : Input → outcome made_source) (st : sources_state) : outcome sources_state :=
  if asked then m ← make st.2; Ret (add_source st m) else Ret st.

Definition infra_sources (input : InputSpec) : gset string :=
  match in_Infrastructure input with
  | None => NewString InfrastructureSources
  | Some infra =>
      let sources := NewString (infra_Sources infra) in
      if (size sources =? 0)%nat then Insert sources InfrastructureSources else sources
  end.

Definition audit_sources (input : InputSpec) : gset string :=
  match in_Audit input with
  | None => NewString AuditSources
  | Some audit =>
      if (length (audit_Sources audit) =? 0)%nat then NewString AuditSources
      else
        let sources := NewString (audit_Sources audit) in
        if (size sources =? 0)%nat then Insert sources AuditSources else sources
  end.

Definition NewSource (input : Input) (secrets : Secrets) (op : Options) : outcome (sources_state * Options) :=
  op ← SetTLSProfileOptionsFrom op (Some input);
  let st : sources_state := (∅, ∅, input) in
  let ty := in_Type (i_Spec input) in
  let container := LSInfrastructure InfrastructureSourceContainer in
  st ← (if ty == InputTypeApplication then
          let '(ib, eb) := application_builders (in_Application (i_Spec input)) in
          m ← NewContainerSource input (Build ib []) (Build eb infraNamespaces) InputTypeApplication container;
          Ret (add_source st m)
        else if ty == InputTypeInfrastructure then
          let sources := infra_sources (i_Spec input) in
          let infraIncludes := Build (AddNamespaces NewContainerPathGlobBuilder infraNamespaces) [] in
          st ← add_if (Has sources InfrastructureSourceContainer) (λ input,
                 NewContainerSource input infraIncludes loggingExcludes InputTypeInfrastructure container) st;
          add_if (Has sources InfrastructureSourceNode) (λ input, Ret (NewJournalInput input)) st
        else if ty == InputTypeAudit then
          let sources := audit_sources (i_Spec input) in
          st ← add_if (Has sources AuditSourceAuditd) (λ input, Ret (NewAuditAuditdSource input)) st;
          st ← add_if (Has sources AuditSourceKube) (λ input, Ret (NewK8sAuditSource input)) st;
          st ← add_if (Has sources AuditSourceOpenShift) (λ input, Ret (NewOpenshiftAuditSource input)) st;
          add_if (Has sources AuditSourceOVN) (λ input, Ret (NewOVNAuditSource input)) st
        else if ty == InputTypeReceiver then
          m ← NewViaqReceiverSource parse_url input secrets op;
          Ret (add_source st m)
        else Ret st : outcome sources_state);
  Ret (st, op).
End new_source.
