(* ===== verification/SourcesSpec.v ===== *)
(** * What the sources of the collector do

    The properties of [Sources]: the files the container sources read, and the shape of
    what every input gives. *)

From S2P Require Import Prelude GoStrings Regex ApiCommon ApiInputs Sets ObsResources ObsInputs ValidateOutputs Toml.
From S2P Require Import Transforms VrlText VectorHelpers FilterVRL Viaq Adapters ContainerPaths Tls Network Sources.

(** ** Which files the container sources read *)

(** The namespaces of the infrastructure, by the name of their group in the expression
    that is looked for in the namespaces of a spec. *)
Definition infra_groups : list string := ["default"; "openshift"; "kube"].

Definition infra_pattern (k : string) : string := if k == "default" then "default" else k +:+ "*".

(** An infrastructure namespace an application input does not mention. *)
Definition hidden (app : option Application) (ns : string) : Prop :=
  ∃ k, k ∈ infra_groups ∧ globs (infra_pattern k) ns ∧
    ∀ a n, app = Some a → n ∈ app_Includes a → infra_capture true (nc_Namespace n) ≠ Some k.

(** What an application input is meant to collect. *)
Definition application_wants (app : option Application) (f : log_file) : Prop :=
  (∀ a, app = Some a → app_Includes a = [] ∨ ∃ n, n ∈ app_Includes a ∧ selects (container_of n) f) ∧
  ¬ hidden app (lf_namespace f) ∧
  ∀ a n, app = Some a → n ∈ app_Excludes a → ¬ selects (container_of n) f.

(** The logs of the logging stack itself. *)
Definition logging_pod (f : log_file) : Prop :=
  lf_namespace f = OpenshiftNS ∧
  ((∃ pod, pod ∈ [LogfilesmetricexporterName; ElasticsearchName; KibanaName] ∧
      HasPrefix (lf_pod f) (pod +:+ "-") = true) ∨
   ∃ c, c ∈ ["loki*"; "gateway"; "opa"] ∧ globs c (lf_container f)).

Definition infra_namespace (ns : string) : Prop :=
  ns = "default" ∨ HasPrefix ns "openshift" = true ∨ HasPrefix ns "kube" = true.

Section files.
Context `{RangeOrder}.

Lemma elem_of_remove_infra l : ∀ (s : gset string) x,
  x ∈ foldl remove_infra s l ↔ x ∈ s ∧ ∀ k, k ∈ infra_groups → k ∈ l → x ≠ infra_pattern k.
Proof.
  induction l as [|k l IH]; intros s x; cbn [foldl].
  { split; [|by intros [? _]]. intros ?. split; [done|]. by intros k _ ?%not_elem_of_nil. }
  rewrite IH. unfold remove_infra, infra_groups, infra_pattern.
  destruct (String.eqb_spec k "default") as [->|]; [set_solver|].
  destruct (String.eqb_spec k "openshift") as [->|]; [set_solver|].
  destruct (String.eqb_spec k "kube") as [->|]; set_solver.
Qed.

Lemma elem_of_pruneInfraNS includes x :
  x ∈ pruneInfraNS includes ↔
  ∃ k, k ∈ infra_groups ∧ x = infra_pattern k ∧ ∀ i, i ∈ includes → infra_capture true i ≠ Some k.
Proof.
  unfold pruneInfraNS. rewrite elem_of_List, elem_of_remove_infra, elem_of_NewString.
  setoid_rewrite elem_of_set_order. setoid_rewrite elem_of_NewString. setoid_rewrite list_elem_of_omap.
  assert (∀ k k', k ∈ infra_groups → k' ∈ infra_groups → infra_pattern k = infra_pattern k' → k = k') as Hinj.
  { unfold infra_groups. intros k k'. rewrite !elem_of_cons, !elem_of_nil.
    by intros [->|[->|[->|[]]]] [->|[->|[->|[]]]]. }
  assert (x ∈ infraNamespaces ↔ ∃ k, k ∈ infra_groups ∧ x = infra_pattern k) as ->.
  { change infraNamespaces with (infra_pattern <$> infra_groups). rewrite list_elem_of_fmap. naive_solver. }
  split.
  - intros [(k & Hk & ->) Hno]. exists k. split; [done|]. split; [done|].
    intros i Hi E. apply (Hno k Hk); [by exists i|done].
  - intros (k & Hk & -> & Hno). split; [by exists k|]. intros k' Hk' (i & Hi & E) Ek.
    apply (Hinj k k' Hk Hk') in Ek as ->. by apply (Hno i).
Qed.

Lemma infra_pattern_plain k : k ∈ infra_groups → plain_pattern (infra_pattern k) ∧ infra_pattern k ≠ "".
Proof.
  unfold infra_groups. rewrite !elem_of_cons, elem_of_nil.
  intros [->|[->|[->|[]]]]; (split; [|done]); [exists "default"|exists "openshift"|exists "kube"];
    split_and!; try done; [by left|by right|by right].
Qed.

(** A pattern that ends in its only star. *)
Lemma globs_prefix lit s : in_string "*" lit = false → noslash s → globs (lit +:+ "*") s ↔ HasPrefix s lit = true.
Proof.
  intros Hl Hs. unfold globs. rewrite glob_app, HasPrefix_spec. setoid_rewrite (glob_literal _ lit); [|done].
  setoid_rewrite glob_star. setoid_rewrite wild_false. split.
  - intros (? & t & -> & -> & _). by exists t.
  - intros (t & ->). apply noslash_app in Hs as [_ Hs]. by exists lit, t.
Qed.

Lemma infra_patterns f :
  log_file_ok f → (∃ k, k ∈ infra_groups ∧ globs (infra_pattern k) (lf_namespace f)) ↔ infra_namespace (lf_namespace f).
Proof.
  intros Hf. destruct (lo_namespace f Hf) as [Hs _]. unfold infra_groups. repeat setoid_rewrite exists_cons_iff.
  rewrite exists_nil_iff. unfold infra_pattern, infra_namespace. cbn [String.eqb Ascii.eqb Bool.eqb].
  rewrite !globs_prefix by done. unfold globs. rewrite glob_literal by done. naive_solver.
Qed.

Lemma excludeExtensions_ok e : e ∈ excludeExtensions → noslash e ∧ ¬ globs e "log".
Proof.
  unfold excludeExtensions, globs. rewrite !elem_of_cons, elem_of_nil.
  intros [->|[->|[->|[]]]]; (split; [done|]); rewrite <-fullmatch_spec; by vm_compute.
Qed.

Definition app_plain (app : option Application) : Prop :=
  ∀ a n, app = Some a → n ∈ app_Includes a ∨ n ∈ app_Excludes a → plain (container_of n).

Lemma application_builders_eq app :
  application_builders app =
  (AddCombined NewContainerPathGlobBuilder (container_of <$> default [] (app_Includes <$> app)),
   AddExtensions (AddCombined NewContainerPathGlobBuilder
     ((namespace_only <$> pruneInfraNS (nc_Namespace <$> default [] (app_Includes <$> app)))
      ++ (container_of <$> default [] (app_Excludes <$> app)))) excludeExtensions).
Proof.
  unfold application_builders. destruct app as [a|]; cbn [default fmap option_fmap option_map].
  - by rewrite !AddCombined_fold, AddCombined_app.
  - rewrite AddCombined_fold. by rewrite app_nil_r.
Qed.

Lemma selects_namespace k f : k ∈ infra_groups → selects (namespace_only (infra_pattern k)) f ↔ globs (infra_pattern k) (lf_namespace f).
Proof. intros [_ Hne]%infra_pattern_plain. unfold selects. cbn. naive_solver. Qed.

Lemma application_collects crosses app f :
  log_file_ok f → app_plain app →
  collects crosses (Build (application_builders app).1 []) (Build (application_builders app).2 infraNamespaces) f
  ↔ application_wants app f.
Proof.
  intros Hf Hpl. rewrite application_builders_eq. cbn [fst snd]. unfold collects.
  set (incs := default [] (app_Includes <$> app)). set (excs := default [] (app_Excludes <$> app)).
  assert (∀ n, n ∈ container_of <$> incs → plain n) as Hinc.
  { intros n (m & -> & Hm)%list_elem_of_fmap. destruct app as [a|]; [|by apply not_elem_of_nil in Hm].
    apply (Hpl a m eq_refl). by left. }
  assert (∀ n, n ∈ (namespace_only <$> pruneInfraNS (nc_Namespace <$> incs)) ++ (container_of <$> excs) → plain n) as Hexc.
  { intros n [(m & -> & (k & Hk & -> & _)%elem_of_pruneInfraNS)%list_elem_of_fmap|(m & -> & Hm)%list_elem_of_fmap]%elem_of_app.
    - split; [by apply infra_pattern_plain|done].
    - destruct app as [a|]; [|by apply not_elem_of_nil in Hm]. apply (Hpl a m eq_refl). by right. }
  rewrite (combined_includes crosses f Hf _ Hinc), (combined_excludes crosses f Hf _ _ _ Hexc excludeExtensions_ok) by done.
  unfold application_wants, hidden. setoid_rewrite elem_of_app. setoid_rewrite list_elem_of_fmap.
  setoid_rewrite elem_of_pruneInfraNS. setoid_rewrite list_elem_of_fmap. subst incs excs. split.
  - intros [Hi He]. split_and!.
    + intros a ->. cbn in Hi. destruct Hi as [Hi%fmap_nil_inv|(n & (m & -> & Hm) & Hs)]; [by left|right; by exists m].
    + intros (k & Hk & Hg & Hno). apply He. exists (namespace_only (infra_pattern k)).
      split; [|by apply selects_namespace]. left. eexists. split; [done|]. exists k. split; [done|]. split; [done|].
      intros i (n & -> & Hn). destruct app as [a|]; [by apply (Hno a n)|by apply not_elem_of_nil in Hn].
    + intros a n -> Hn Hs. apply He. exists (container_of n). split; [|done]. right. by exists n.
  - intros (Hi & Hh & He). split.
    + destruct app as [a|]; [|by left]. cbn. destruct (Hi a eq_refl) as [->|(n & Hn & Hs)]; [by left|right].
      exists (container_of n). split; [by exists n|done].
    + intros (n & [(? & -> & k & Hk & -> & Hno)|(m & -> & Hm)] & Hs).
      * apply Hh. exists k. split; [done|]. split; [by apply selects_namespace in Hs|].
        intros a n -> Hn. apply Hno. by exists n.
      * destruct app as [a|]; [by eapply He|by apply not_elem_of_nil in Hm].
Qed.

Lemma prefix_at c a b p q :
  in_string c a = false → in_string c p = false →
  HasPrefix (a +:+ String c b) (p +:+ String c q) = true ↔ a = p ∧ HasPrefix b q = true.
Proof.
  intros Ha Hp. rewrite !HasPrefix_spec. split.
  - intros (t & E). rewrite string_app_assoc in E. apply sep_inj in E as [-> ->]; [|done..]. split; [done|]. by exists t.
  - intros [-> (t & ->)]. exists t. by rewrite string_app_assoc.
Qed.

Lemma loggingExcludes_paths :
  gb_paths loggingExcludes_builder =
  ((λ pod, path_glob ((OpenshiftNS +:+ "_" +:+ pod +:+ "-") +:+ "*") "*" "*.log")
     <$> [LogfilesmetricexporterName; ElasticsearchName; KibanaName])
  ++ ((λ c, path_glob (normalizeNamespace OpenshiftNS) c "*.log") <$> ["loki*"; "gateway"; "opa"])
  ++ ((λ e, crioPathExtFmt (collapseWildcards e)) <$> excludeExtensions).
Proof. reflexivity. Qed.

Lemma logging_pod_glob crosses f pod :
  log_file_ok f → pod ∈ [LogfilesmetricexporterName; ElasticsearchName; KibanaName] →
  matches (glob (wild crosses) (path_glob ((OpenshiftNS +:+ "_" +:+ pod +:+ "-") +:+ "*") "*" "*.log")) (log_path f) ↔
  lf_namespace f = OpenshiftNS ∧ HasPrefix (lf_pod f) (pod +:+ "-") = true.
Proof.
  intros Hf Hin. destruct (lo_namespace f Hf) as [Hs Hu].
  pose proof (globs_star _ (lo_container f Hf)) as Hc. pose proof (log_extension f Hf) as Hl.
  assert (noslash pod ∧ in_string "*" pod = false ∧ in_string "_" pod = false) as (Hp1 & Hp2 & Hp3).
  { rewrite !elem_of_cons, elem_of_nil in Hin. destruct Hin as [->|[->|[->|[]]]]; done. }
  rewrite (path_glob_matches crosses _ "*" "*.log" f Hf); [|by rewrite !noslash_app|done..].
  rewrite globs_prefix; [|by rewrite !in_string_app, Hp2|by apply pod_dir_noslash].
  unfold pod_dir. change (OpenshiftNS +:+ "_" +:+ pod +:+ "-") with (OpenshiftNS +:+ String "_" (pod +:+ "-")).
  change (lf_namespace f +:+ "_" +:+ lf_pod f +:+ "_" +:+ lf_uid f)
    with (lf_namespace f +:+ String "_" (lf_pod f +:+ String "_" (lf_uid f))).
  rewrite prefix_at by done. unfold HasPrefix at 1. rewrite prefix_sep; [|by rewrite in_string_app, Hp3]. naive_solver.
Qed.

Lemma logging_container_glob crosses f c :
  log_file_ok f → noslash c →
  matches (glob (wild crosses) (path_glob (normalizeNamespace OpenshiftNS) c "*.log")) (log_path f) ↔
  lf_namespace f = OpenshiftNS ∧ globs c (lf_container f).
Proof.
  intros Hf Hnc. pose proof (log_extension f Hf) as Hl.
  rewrite (path_glob_matches crosses (normalizeNamespace OpenshiftNS) c "*.log" f Hf eq_refl Hnc eq_refl).
  rewrite (namespace_selects f OpenshiftNS Hf); [|exists OpenshiftNS; split_and!; try done; by left].
  unfold globs at 1. rewrite glob_literal by done. naive_solver.
Qed.

Lemma logging_containers c : c ∈ ["loki*"; "gateway"; "opa"] → noslash c.
Proof. rewrite !elem_of_cons, elem_of_nil. by intros [->|[->|[->|[]]]]. Qed.

Lemma loggingExcludes_match crosses f :
  log_file_ok f →
  (∃ p, p ∈ loggingExcludes ∧ matches (glob (wild crosses) p) (log_path f)) ↔ logging_pod f.
Proof.
  intros Hf. unfold loggingExcludes. rewrite (Build_excludes crosses f).
  2: { exists (crioPathExtFmt (collapseWildcards "gz")). split; [left; rewrite loggingExcludes_paths; set_solver|done]. }
  assert (∀ p, build_path loggingExcludes_builder [] p ↔ p ∈ gb_paths loggingExcludes_builder) as Hb.
  { intros p. unfold build_path. cbn [loggingExcludes_builder]. set_solver +. }
  setoid_rewrite Hb. rewrite loggingExcludes_paths. setoid_rewrite elem_of_app. setoid_rewrite elem_of_app.
  setoid_rewrite list_elem_of_fmap. unfold logging_pod. split.
  - intros (p & [(pod & -> & Hin)|[(c & -> & Hin)|(e & -> & Hin)]] & Hm).
    + apply logging_pod_glob in Hm as [? ?]; [|done..]. split; [done|]. left. eauto.
    + apply logging_container_glob in Hm as [? ?]; [|done|by apply logging_containers]. split; [done|]. right. eauto.
    + destruct (excludeExtensions_ok e Hin) as [Hn Hg]. by apply (extension_matches crosses f Hf) in Hm.
  - intros [Hn [(pod & Hin & Hp)|(c & Hin & Hg)]].
    + eexists. split; [left; by exists pod|]. by apply logging_pod_glob.
    + eexists. split; [right; left; by exists c|]. by apply logging_container_glob; [|apply logging_containers|].
Qed.

Lemma infrastructure_collects crosses f :
  log_file_ok f →
  collects crosses (Build (AddNamespaces NewContainerPathGlobBuilder infraNamespaces) []) loggingExcludes f ↔
  infra_namespace (lf_namespace f) ∧ ¬ logging_pod f.
Proof.
  intros Hf. unfold collects. rewrite (loggingExcludes_match crosses f Hf), <-(infra_patterns f Hf).
  change infraNamespaces with (infra_pattern <$> infra_groups).
  rewrite (namespaces_includes crosses f Hf); [|intros ? (k & -> & ?)%list_elem_of_fmap; by apply infra_pattern_plain|done].
  setoid_rewrite list_elem_of_fmap. naive_solver.
Qed.
End files.

(** ** The shape of what an input gives *)

(** An input but for the selector of its pods, whose values are sorted in place. *)
Definition but_selector (i : InputSpec) : InputSpec := {|
  in_Name := in_Name i; in_Type := in_Type i; in_Infrastructure := in_Infrastructure i;
  in_Audit := in_Audit i; in_Receiver := in_Receiver i;
  in_Application := (λ app, {| app_Selector := None; app_Tuning := app_Tuning app;
    app_Includes := app_Includes app; app_Excludes := app_Excludes app |}) <$> in_Application i |}.

(** The kinds of sources an input asks for. *)
Definition kinds `{RangeOrder} (i : InputSpec) : list string :=
  if in_Type i == InputTypeApplication then ["container"]
  else if in_Type i == InputTypeInfrastructure then
    (if Has (infra_sources i) InfrastructureSourceContainer then ["container"] else [])
    ++ (if Has (infra_sources i) InfrastructureSourceNode then ["journal"] else [])
  else if in_Type i == InputTypeAudit then
    (if Has (audit_sources i) AuditSourceAuditd then ["host"] else [])
    ++ (if Has (audit_sources i) AuditSourceKube then ["kube"] else [])
    ++ (if Has (audit_sources i) AuditSourceOpenShift then ["openshift"] else [])
    ++ (if Has (audit_sources i) AuditSourceOVN then ["ovn"] else [])
  else if in_Type i == InputTypeReceiver then [""]
  else [].

Definition source_id (name k : string) : string := MakeInputID (name :: if k == "" then [] else [k]).

Definition all_kinds : list string := ["container"; "journal"; "host"; "kube"; "openshift"; "ovn"].
Definition id_suffixes : list string := ["_meta"; "_throttle"; "_items"].

(** The limit on the records of an input, if there is one. *)
Definition limit_of (i : InputSpec) : option Z :=
  match MaxRecordsPerSecond i with Ret (rate, true) => Some rate | _ => None end.

(** The transforms of a source in their order, by what follows its identifier in theirs:
    normalization, which a limit on containers follows and the split of the items of an
    HTTP request precedes. *)
Definition chain_suffixes (i : InputSpec) (k : string) : list string :=
  if k == "container" then "_meta" :: (if limit_of i then ["_throttle"] else [])
  else if bool_decide (k = "" ∧ recv_Type <$> in_Receiver i = Some ReceiverTypeHTTP) then ["_items"; "_meta"]
  else ["_meta"].

Definition chain (base : string) (sfx : list string) : list string := (λ s, base +:+ s) <$> sfx.

Definition chain_of (i : InputSpec) (k : string) : list string := chain (source_id (in_Name i) k) (chain_suffixes i k).

(** Each of the transforms is there and reads the one before it and nothing else, the
    first one [x]. *)
Fixpoint links (tfs : Transforms) (x : string) (ids : list string) : Prop :=
  match ids with
  | [] => True
  | id :: ids => (∃ t, tfs !! id = Some t ∧ inputs_of t = [x]) ∧ links tfs id ids
  end.

(** The transform of the limit lets [rate] records of a file pass in a second. *)
Definition limits (tfs : Transforms) (id : string) (rate : Z) : Prop :=
  ∃ t, tfs !! id = Some (TThrottle (Some t)) ∧ thr_Threshold t = to_uint64 rate ∧ thr_WindowSecs t = 1%Z ∧
    thr_KeyField t = "{{ _internal.file }}".

(** What one source function gives: a source, a chain of transforms that starts with it,
    and one more identifier of the input, that of the end of the chain. *)
Record source_ok (i : Input) (base : string) (sfx : list string) (m : made_source) : Prop := {
  mk_base : m.1.1.1 = base;
  mk_last : ∃ e, last (chain base sfx) = Some e ∧ i_Ids m.2 = i_Ids i ++ [e];
  mk_spec : but_selector (i_Spec m.2) = but_selector (i_Spec i);
  mk_keys : ∀ id, is_Some (m.1.2 !! id) ↔ id ∈ chain base sfx;
  mk_links : links m.1.2 base (chain base sfx);
  mk_limit : ∀ rate, "_throttle" ∈ sfx → limit_of (i_Spec i) = Some rate → limits m.1.2 (base +:+ "_throttle") rate;
  mk_safe : ∀ id t, m.1.2 !! id = Some t → ¬ closes (transform_value t);
}.

(** What an input gives: a source for each kind, and nothing else; for each source a chain
    of transforms that starts with it, and no transform that is not in one of them, or in
    two; the identifiers of the input are the ends of the chains, in the order of the
    sources; the limit is in the chain of the containers.  No program can end the literal
    it is written in, and the input is as it was but for its selector. *)
Record sources_ok (i : Input) (done : list string) (st : sources_state) : Prop := {
  so_sources : ∀ id, is_Some (st.1.1 !! id) ↔ ∃ k, k ∈ done ∧ id = source_id (in_Name (i_Spec i)) k;
  so_ids : ∃ new, i_Ids st.2 = i_Ids i ++ new ∧ Forall2 (λ k e, last (chain_of (i_Spec i) k) = Some e) done new;
  so_spec : but_selector (i_Spec st.2) = but_selector (i_Spec i);
  so_keys : ∀ id, is_Some (st.1.2 !! id) ↔ id ∈ done ≫= chain_of (i_Spec i);
  so_links : ∀ k, k ∈ done → links st.1.2 (source_id (in_Name (i_Spec i)) k) (chain_of (i_Spec i) k);
  so_apart : NoDup (done ≫= chain_of (i_Spec i));
  so_limit : ∀ rate, "container" ∈ done → limit_of (i_Spec i) = Some rate →
    limits st.1.2 (source_id (in_Name (i_Spec i)) "container" +:+ "_throttle") rate;
  so_safe : ∀ id t, st.1.2 !! id = Some t → ¬ closes (transform_value t);
}.

(** ** Chains *)

Lemma chain_suffixes_in i k : chain_suffixes i k ≠ [] ∧ NoDup (chain_suffixes i k) ∧ ∀ s, s ∈ chain_suffixes i k → s ∈ id_suffixes.
Proof.
  unfold chain_suffixes, id_suffixes. repeat case_match; (split; [done|split; [apply (bool_decide_unpack _); by vm_compute|set_solver +]]).
Qed.

Lemma elem_of_chain base sfx id : id ∈ chain base sfx ↔ ∃ s, s ∈ sfx ∧ id = base +:+ s.
Proof. unfold chain. rewrite list_elem_of_fmap. naive_solver. Qed.

Lemma chain_NoDup base sfx : NoDup sfx → NoDup (chain base sfx).
Proof. apply NoDup_fmap_2. intros s s'. apply string_app_inj_l. Qed.

Lemma links_mono (tfs tfs' : Transforms) x ids : tfs ⊆ tfs' → links tfs x ids → links tfs' x ids.
Proof.
  intros Hsub. induction ids as [|id ids IH] in x |- *; [done|]. intros [(t & Ht & Hx) Hl]. split; [|by apply IH].
  exists t. split; [by eapply lookup_weaken|done].
Qed.

Lemma limits_mono (tfs tfs' : Transforms) id rate : tfs ⊆ tfs' → limits tfs id rate → limits tfs' id rate.
Proof. intros Hsub (t & Ht & Hl). exists t. split; [by eapply lookup_weaken|done]. Qed.

(** A link of a chain reads its start or another link. *)
Lemma links_reads tfs x ids id :
  links tfs x ids → id ∈ ids → ∃ t y, tfs !! id = Some t ∧ inputs_of t = [y] ∧ (y = x ∨ y ∈ ids).
Proof.
  induction ids as [|id' ids IH] in x |- *; [by intros _ ?%not_elem_of_nil|].
  intros [(t & Ht & Hx) Hl] [->|Hin]%elem_of_cons; [exists t, x; auto|].
  destruct (IH _ Hl Hin) as (t' & y & ? & ? & Hy). exists t', y. split_and!; [done..|]. right. rewrite elem_of_cons. tauto.
Qed.

(** Every transform reads one component, a source or a transform that is there. *)
Lemma so_inputs i done st id t :
  sources_ok i done st → st.1.2 !! id = Some t →
  ∃ x, inputs_of t = [x] ∧ (is_Some (st.1.1 !! x) ∨ is_Some (st.1.2 !! x)).
Proof.
  intros Hok Ht. assert (is_Some (st.1.2 !! id)) as Hid by by exists t.
  apply (so_keys _ _ _ Hok), list_elem_of_bind in Hid as (k & Hid & Hk).
  destruct (links_reads _ _ _ _ (so_links _ _ _ Hok k Hk) Hid) as (t' & x & Ht' & Hx & Hor).
  assert (t' = t) as -> by congruence. exists x. split; [done|]. destruct Hor as [->|Hin].
  - left. apply (so_sources _ _ _ Hok). by exists k.
  - right. apply (so_keys _ _ _ Hok), list_elem_of_bind. by exists k.
Qed.

(** The identifiers of the input are those of transforms. *)
Lemma so_new i done st :
  sources_ok i done st → ∃ new, i_Ids st.2 = i_Ids i ++ new ∧ length new = length done ∧ ∀ id, id ∈ new → is_Some (st.1.2 !! id).
Proof.
  intros Hok. destruct (so_ids _ _ _ Hok) as (new & E & HF). exists new. split; [done|].
  split; [symmetry; by eapply Forall2_length|]. intros id (n & Hn)%list_elem_of_lookup_1.
  destruct (Forall2_lookup_r _ _ _ _ _ HF Hn) as (k & Hk & Hlast). apply (so_keys _ _ _ Hok), list_elem_of_bind.
  exists k. split; [by apply last_Some_elem_of|by eapply list_elem_of_lookup_2].
Qed.

Lemma but_selector_name i i' : but_selector i = but_selector i' → in_Name i = in_Name i'.
Proof. by intros [= -> _]. Qed.

Lemma sources_ok_start i : sources_ok i [] (∅, ∅, i).
Proof.
  split; cbn.
  - intros id. rewrite lookup_empty, exists_nil_iff. split; [by intros []|done].
  - exists []. rewrite app_nil_r. by split.
  - done.
  - intros id. rewrite lookup_empty, elem_of_nil. split; [by intros []|done].
  - by intros k ?%not_elem_of_nil.
  - apply NoDup_nil_2.
  - by intros rate ?%not_elem_of_nil.
  - intros id t. by rewrite lookup_empty.
Qed.

Lemma MaxRecordsPerSecond_but_selector i i' :
  but_selector i = but_selector i' → MaxRecordsPerSecond i = MaxRecordsPerSecond i'.
Proof.
  intros E. pose proof (f_equal in_Infrastructure E) as Hi. pose proof (f_equal in_Application E) as Ha.
  cbn in Hi, Ha. unfold MaxRecordsPerSecond. rewrite Hi.
  destruct (in_Application i) as [[]|], (in_Application i') as [[]|]; cbn in Ha; try done. by injection Ha as -> _ _.
Qed.

Lemma limit_of_but_selector i i' : but_selector i = but_selector i' → limit_of i = limit_of i'.
Proof. intros E. unfold limit_of. by rewrite (MaxRecordsPerSecond_but_selector _ _ E). Qed.

Lemma chain_suffixes_but_selector i i' k : but_selector i = but_selector i' → chain_suffixes i k = chain_suffixes i' k.
Proof.
  intros E. unfold chain_suffixes. rewrite (limit_of_but_selector _ _ E).
  pose proof (f_equal in_Receiver E) as Er. cbn in Er. by rewrite Er.
Qed.

Lemma add_source_ok i done st k m :
  sources_ok i done st → source_ok st.2 (source_id (in_Name (i_Spec i)) k) (chain_suffixes (i_Spec i) k) m →
  (∀ d s s', d ∈ done → s ∈ id_suffixes → s' ∈ id_suffixes →
     source_id (in_Name (i_Spec i)) d +:+ s ≠ source_id (in_Name (i_Spec i)) k +:+ s') →
  sources_ok i (done ++ [k]) (add_source st m).
Proof.
  destruct st as [[srcs tfs] cur], m as [[[base src] ctfs] i'].
  intros [Hs (new & Hn & Hnew) Hsp Hk Hl Hnd Hlim Hsafe] [Hb (e & He & Hids) Hsp' Hk' Hl' Hlim' Hsafe'] Hdisj.
  cbn [fst snd] in *. subst base. change (chain _ (chain_suffixes _ k)) with (chain_of (i_Spec i) k) in *.
  assert (∀ id, id ∈ done ≫= chain_of (i_Spec i) → id ∉ chain_of (i_Spec i) k) as Happ.
  { intros id (d & (s & Hsf & ->)%elem_of_chain & Hd)%list_elem_of_bind (s' & Hsf' & E)%elem_of_chain.
    eapply Hdisj; [exact Hd| | |exact E]; by eapply chain_suffixes_in. }
  assert (ctfs ##ₘ tfs) as Hd.
  { apply map_disjoint_spec. intros id t t' H1 H2. apply (Happ id); [apply Hk|apply Hk']; by eexists. }
  assert (tfs ⊆ ctfs ∪ tfs) as Hsub by by apply map_union_subseteq_r.
  assert (ctfs ⊆ ctfs ∪ tfs) as Hsub' by by apply map_union_subseteq_l.
  split; cbn [add_source fst snd].
  - intros id. rewrite lookup_insert_is_Some', Hs. setoid_rewrite elem_of_app. setoid_rewrite list_elem_of_singleton. naive_solver.
  - exists (new ++ [e]). rewrite Hids, Hn, app_assoc. split; [done|]. by apply Forall2_app; [|constructor].
  - congruence.
  - intros id. rewrite lookup_union_is_Some, Hk, Hk', bind_app, elem_of_app, bind_singleton. tauto.
  - intros d [Hin| ->%list_elem_of_singleton]%elem_of_app; [by eapply links_mono, Hl|by eapply links_mono, Hl'].
  - rewrite bind_app, bind_singleton. apply NoDup_app. split; [done|]. split; [done|].
    apply chain_NoDup, chain_suffixes_in.
  - intros rate [Hin|E%list_elem_of_singleton]%elem_of_app Hr; [by eapply limits_mono, Hlim|]. subst k.
    eapply limits_mono, Hlim'; [done| |by rewrite (limit_of_but_selector _ _ Hsp)].
    unfold chain_suffixes. rewrite Hr. by right; left.
  - intros id t [H1|[_ H1]]%lookup_union_Some_raw; [by eapply Hsafe'|by eapply Hsafe].
Qed.

(** ** Identifiers of sources *)

Lemma FormatComponentID_idemp s : FormatComponentID (FormatComponentID s) = FormatComponentID s.
Proof.
  induction s as [|c s IH]; [done|]. change (String c s) with (String c "" +:+ s). rewrite !FormatComponentID_app, IH.
  f_equal. clear. destruct c as [[] [] [] [] [] [] [] []]; vm_compute; reflexivity.
Qed.

Definition name_id (name : string) : string := FormatComponentID ("input_" +:+ name).

Lemma source_id_eq name k :
  FormatComponentID k = k → source_id name k = name_id name +:+ (if k == "" then "" else "_" +:+ k).
Proof.
  intros Hk. unfold source_id, MakeInputID, MakeID, name_id. destruct (String.eqb_spec k "") as [->|_]; cbn [Join].
  - by rewrite string_app_nil_r.
  - rewrite <-Hk at 2. rewrite !FormatComponentID_app. by rewrite !string_app_assoc.
Qed.

Lemma source_id_formatted name k : FormatComponentID (source_id name k) = source_id name k.
Proof. apply FormatComponentID_idemp. Qed.

(** An identifier with a part after it. *)
Lemma MakeID_part id part :
  FormatComponentID id = id → FormatComponentID part = part → MakeID [id; part] = id +:+ "_" +:+ part.
Proof. intros Hid Hp. unfold MakeID. cbn [Join]. by rewrite !FormatComponentID_app, Hid, Hp. Qed.

Lemma meta_eq name k : meta (source_id name k) = source_id name k +:+ "_meta".
Proof. apply (MakeID_part _ "meta"); [apply source_id_formatted|done]. Qed.

Lemma forallb_elem {A} (p : A → bool) l x : forallb p l = true → x ∈ l → p x = true.
Proof. intros Hl Hx. by apply (proj1 (forallb_forall p l) Hl), list_elem_of_In. Qed.

Lemma source_id_kind name k : k ∈ all_kinds → source_id name k = name_id name +:+ ("_" +:+ k).
Proof.
  intros Hk. assert ((FormatComponentID k == k) && (k != "") = true) as [E Hne]%andb_true_iff.
  { exact (forallb_elem (λ k, (FormatComponentID k == k) && (k != "")) all_kinds k eq_refl Hk). }
  rewrite source_id_eq by by apply String.eqb_eq. by destruct (k == "").
Qed.

(** The identifiers of the sources of one input, with what may follow, differ. *)
Lemma source_ids_differ name d k s s' :
  d ∈ all_kinds → k ∈ all_kinds → d ≠ k → s ∈ id_suffixes → s' ∈ id_suffixes →
  source_id name d +:+ s ≠ source_id name k +:+ s'.
Proof.
  intros Hd Hk Hne Hs Hs'. rewrite !source_id_kind, !string_app_assoc by done. intros E%string_app_inj_l%string_app_inj_l.
  pose (differ := λ d k s s', (d == k) || (d +:+ s != k +:+ s')).
  assert (forallb (λ d, forallb (λ k, forallb (λ s, forallb (differ d k s) id_suffixes) id_suffixes) all_kinds) all_kinds = true)
    as Hall by (by vm_compute).
  eapply forallb_elem in Hall; [|exact Hd]. eapply forallb_elem in Hall; [|exact Hk].
  eapply forallb_elem in Hall; [|exact Hs]. eapply forallb_elem in Hall; [|exact Hs'].
  unfold differ in Hall. rewrite E, String.eqb_refl, orb_false_r in Hall. by apply String.eqb_eq in Hall.
Qed.

(** ** Each source function *)

Lemma remap_safe vrls x : inert (Join vrls LF) → ¬ closes (transform_value (remap vrls x)).
Proof. apply NewRemap_closes. Qed.

(** A source with one transform. *)
Lemma single_ok i i' name k src t :
  FormatComponentID k = k → i_Ids i' = i_Ids i → but_selector (i_Spec i') = but_selector (i_Spec i) →
  inputs_of t = [source_id name k] → ¬ closes (transform_value t) →
  source_ok i (source_id name k) ["_meta"]
    (source_id name k, src, {[meta (source_id name k) := t]}, add_id i' (meta (source_id name k))).
Proof.
  intros Hk Hids Hspec Hin Hsafe. assert (chain (source_id name k) ["_meta"] = [meta (source_id name k)]) as Ec.
  { unfold chain. cbn [fmap list_fmap]. by rewrite meta_eq. }
  split; cbn [fst snd add_id i_Ids i_Spec]; rewrite ?Ec.
  - done.
  - eexists. split; [reflexivity|]. by rewrite Hids.
  - done.
  - intros id. rewrite list_elem_of_singleton, lookup_singleton_is_Some. naive_solver.
  - split; [|done]. exists t. by rewrite lookup_singleton_eq.
  - by intros rate [=]%list_elem_of_singleton.
  - by intros id t' [_ <-]%lookup_singleton_Some.
Qed.

(** A source with two transforms, one after the other. *)
Lemma double_ok i i' base src a b ta tb :
  i_Ids i' = i_Ids i → but_selector (i_Spec i') = but_selector (i_Spec i) → a ≠ b →
  inputs_of ta = [base] → inputs_of tb = [base +:+ a] →
  ¬ closes (transform_value ta) → ¬ closes (transform_value tb) → a ≠ "_throttle" →
  (∀ rate, b = "_throttle" → limit_of (i_Spec i) = Some rate → limits {[base +:+ b := tb]} (base +:+ b) rate) →
  source_ok i base [a; b] (base, src, <[base +:+ b := tb]> {[base +:+ a := ta]}, add_id i' (base +:+ b)).
Proof.
  intros Hids Hspec Hab Ha Hb Hsa Hsb Hna Hlim.
  assert (base +:+ b ≠ base +:+ a) as Hne by (intros ?%string_app_inj_l; congruence).
  split; cbn [fst snd add_id i_Ids i_Spec].
  - done.
  - eexists. split; [reflexivity|]. by rewrite Hids.
  - done.
  - intros id. unfold chain. cbn [fmap list_fmap].
    rewrite lookup_insert_is_Some', lookup_singleton_is_Some, !elem_of_cons, elem_of_nil. naive_solver.
  - split; [|split; [|done]].
    + exists ta. by rewrite lookup_insert_ne, lookup_singleton_eq by done.
    + exists tb. by rewrite lookup_insert_eq.
  - intros rate Hin Hr. rewrite !elem_of_cons, elem_of_nil in Hin. destruct Hin as [E|[E|[]]]; [by destruct Hna|].
    rewrite E. eapply limits_mono; [|by apply (Hlim rate)]. rewrite <-(insert_empty (base +:+ b)). apply insert_mono, map_empty_subseteq.
  - by intros id t [[<- <-]|[_ [<- <-]%lookup_singleton_Some]]%lookup_insert_Some.
Qed.

(** The texts of a program, which are constants, are inert. *)
Definition program_of (normalize : string → transform) (vrls : list string) : Prop :=
  inert (Join vrls LF) ∧ ∀ id, normalize id = remap vrls id.

Lemma audit_source_ok i kind include normalize vrls :
  kind ≠ "" → FormatComponentID kind = kind → program_of normalize vrls →
  source_ok i (source_id (in_Name (i_Spec i)) kind) ["_meta"] (audit_source i kind include normalize).
Proof.
  intros Hne Hk [Hv Hn]. unfold audit_source. rewrite Hn.
  assert (MakeInputID [in_Name (i_Spec i); kind] = source_id (in_Name (i_Spec i)) kind) as ->.
  { unfold source_id. by destruct (String.eqb_spec kind ""). }
  apply single_ok; [done..|]. by apply remap_safe.
Qed.

Ltac program_tac := eexists; split; [|intros id; cbv beta delta [NewAuditInternalNormalization NewInternalNormalization
  NewJournalInternalNormalization NewReceiverInternalNormalization]; reflexivity]; inert_tac.

Lemma auditd_program : ∃ vrls, program_of (λ id,
  NewInternalNormalization (LSAudit AuditSourceAuditd) InputTypeAudit id [ParseHostAuditLogs]) vrls.
Proof. program_tac. Qed.

Lemma kube_program : ∃ vrls, program_of (λ id, NewAuditInternalNormalization AuditSourceKube id true []) vrls.
Proof. program_tac. Qed.
Lemma openshift_program : ∃ vrls, program_of (λ id, NewAuditInternalNormalization AuditSourceOpenShift id true []) vrls.
Proof. program_tac. Qed.

Lemma ovn_program : ∃ vrls, program_of (λ id,
  NewInternalNormalization (LSAudit AuditSourceOVN) InputTypeAudit id [ParseOVNAuditLogTimestamp]) vrls.
Proof. program_tac. Qed.

Lemma journal_program : ∃ vrls, program_of (λ id,
  NewJournalInternalNormalization (LSInfrastructure InfrastructureSourceNode) setEnvelope id
    [FixJournalLogLevel; SetJournalMessage; SystemK; SystemT; SystemU]) vrls.
Proof. program_tac. Qed.

Lemma container_program ty : ∃ vrls, program_of (λ id,
  NewInternalNormalization (LSInfrastructure InfrastructureSourceContainer) ty id []) vrls.
Proof. program_tac. Qed.

Lemma syslog_program : ∃ vrls, program_of (λ id,
  NewReceiverInternalNormalization (LSReceiver ReceiverTypeSyslog) setEnvelopeToStructured id []) vrls.
Proof. program_tac. Qed.

Lemma http_program : ∃ vrls, program_of (λ id,
  NewAuditInternalNormalization AuditSourceKube id false [parseReceiverStructuredAuditTimestamp]) vrls.
Proof. program_tac. Qed.

Lemma items_program : ∃ vrls, program_of newItemsTransform vrls.
Proof. eexists. split; [|intros id; unfold newItemsTransform; reflexivity]. inert_tac. Qed.

Lemma audit_sources_ok i :
  let name := in_Name (i_Spec i) in
  source_ok i (source_id name "host") ["_meta"] (NewAuditAuditdSource i) ∧
  source_ok i (source_id name "kube") ["_meta"] (NewK8sAuditSource i) ∧
  source_ok i (source_id name "openshift") ["_meta"] (NewOpenshiftAuditSource i) ∧
  source_ok i (source_id name "ovn") ["_meta"] (NewOVNAuditSource i).
Proof.
  destruct auditd_program as [v1 H1], kube_program as [v2 H2], openshift_program as [v3 H3], ovn_program as [v4 H4].
  split_and!.
  - by apply (audit_source_ok i "host" _ _ v1).
  - by apply (audit_source_ok i "kube" _ _ v2).
  - by apply (audit_source_ok i "openshift" _ _ v3).
  - by apply (audit_source_ok i "ovn" _ _ v4).
Qed.

Lemma NewJournalInput_ok i : source_ok i (source_id (in_Name (i_Spec i)) "journal") ["_meta"] (NewJournalInput i).
Proof.
  destruct journal_program as [vrls [Hv Hn]]. unfold NewJournalInput.
  change (MakeInputID [in_Name (i_Spec i); "journal"]) with (source_id (in_Name (i_Spec i)) "journal").
  rewrite (Hn (source_id (in_Name (i_Spec i)) "journal")). apply single_ok; [done..|]. by apply remap_safe.
Qed.

Lemma set_selector_spec i sel : but_selector (i_Spec (set_selector i sel)) = but_selector (i_Spec i).
Proof. unfold set_selector. destruct i as [[n ty [app|] inf au re] ids]; done. Qed.

Lemma set_selector_ids i sel : i_Ids (set_selector i sel) = i_Ids i.
Proof. unfold set_selector. by destruct (in_Application (i_Spec i)). Qed.

Lemma suffix_in s : existsb (String.eqb s) id_suffixes = true → s ∈ id_suffixes.
Proof. intros (x & Hx & ->%String.eqb_eq)%existsb_exists. by apply list_elem_of_In. Qed.

(** A container source, whose transform may be followed by a limit. *)
Lemma NewContainerSource_ok `{RangeOrder} i includes excludes ty :
  returns (MaxRecordsPerSecond (i_Spec i)) →
  ∃ m kl, NewContainerSource i includes excludes ty (LSInfrastructure InfrastructureSourceContainer) = Ret m ∧
    source_ok i (source_id (in_Name (i_Spec i)) "container") (chain_suffixes (i_Spec i) "container") m ∧
    m.1.1.2 = SKubernetesLogs kl ∧
    kl_IncludePathsGlobPatterns kl = includes ∧ kl_ExcludePathsGlobPatterns kl = excludes.
Proof.
  intros [[rate limited] Hr]. unfold NewContainerSource. destruct (LabelSelectorFrom _) as [labels sel].
  set (i' := set_selector i sel). pose proof (set_selector_spec i sel) as Hspec.
  pose proof (set_selector_ids i sel) as Hids. fold i' in Hspec, Hids. clearbody i'.
  rewrite (MaxRecordsPerSecond_but_selector _ _ Hspec), Hr. cbn [mbind outcome_bind fst snd].
  unfold chain_suffixes. rewrite String.eqb_refl. unfold limit_of. rewrite Hr.
  destruct (container_program ty) as [vrls [Hv Hn]].
  change (MakeInputID [in_Name (i_Spec i); "container"]) with (source_id (in_Name (i_Spec i)) "container").
  set (base := source_id _ _). rewrite (Hn base).
  destruct limited; (do 2 eexists; split; [done|]; split; [|done]); [|by apply single_ok; [..|apply remap_safe]].
  assert (meta base = base +:+ "_meta") as -> by apply meta_eq.
  assert (MakeID [base; "throttle"] = base +:+ "_throttle") as -> by (apply MakeID_part; [apply source_id_formatted|done]).
  apply double_ok; try done; [by apply remap_safe|by intros (? & [=] & _)%closes_transform|].
  intros rate' _. unfold limit_of. rewrite Hr. intros [= <-]. eexists. by rewrite lookup_singleton_eq.
Qed.

(** The options of TLS are strings. *)
Definition tls_options_set (op : Options) : Prop :=
  ∀ key, key ∈ [OptMinTLSVersion; OptCiphers; OptGroups] → ∃ s, op !! key = Some (AnyString s).

Lemma NewTlsEnabled_returns parse_url `{TransportLayerSecurity T} (comp : option T) secrets op :
  tls_options_set op → ∃ t, NewTlsEnabled parse_url comp secrets op [] = Ret t.
Proof.
  intros Hop. unfold NewTlsEnabled, NewTls, SetTLSProfile, string_option. cbn [HasOption mbind outcome_bind].
  destruct (Hop OptMinTLSVersion) as [v ->]; [by left|]. destruct (Hop OptCiphers) as [c ->]; [by right; left|].
  destruct (Hop OptGroups) as [g ->]; [by right; right; left|]. cbn [mbind outcome_bind as_string].
  destruct (bool_decide _); [by exists None|]. destruct (_ || _); eexists; reflexivity.
Qed.

Lemma NewViaqReceiverSource_ok parse_url `{Host} i secrets op r :
  tls_options_set op → in_Receiver (i_Spec i) = Some r → recv_Type r ∈ ReceiverTypes →
  ∃ m, NewViaqReceiverSource parse_url i secrets op = Ret m ∧
    source_ok i (source_id (in_Name (i_Spec i)) "") (chain_suffixes (i_Spec i) "") m.
Proof.
  intros Hop Hr Hty. unfold NewViaqReceiverSource.
  destruct (NewTlsEnabled_returns parse_url (Some i) secrets op Hop) as [tls ->]. cbn [mbind outcome_bind].
  unfold chain_suffixes. rewrite Hr. cbn [deref mbind outcome_bind String.eqb fmap option_fmap option_map].
  change (MakeInputID [in_Name (i_Spec i)]) with (source_id (in_Name (i_Spec i)) "").
  set (base := source_id _ _). unfold ReceiverTypes in Hty. rewrite !elem_of_cons, elem_of_nil in Hty.
  destruct Hty as [Hty|[Hty|[]]]; rewrite Hty; cbn [String.eqb Ascii.eqb Bool.eqb]; (eexists; split; [reflexivity|]).
  2: { rewrite bool_decide_false by (by intros [_ [=]]).
       destruct syslog_program as [vrls [Hv Hn]]. rewrite (Hn base). apply (single_ok i i _ ""); [done..|]. by apply remap_safe. }
  rewrite bool_decide_true by done.
  destruct http_program as [vrls [Hv Hn]], items_program as [vrls' [Hv' Hn']]. rewrite (Hn _), (Hn' _).
  assert (meta base = base +:+ "_meta") as -> by apply meta_eq.
  assert (MakeID [base; "items"] = base +:+ "_items") as -> by (apply MakeID_part; [apply source_id_formatted|done]).
  apply double_ok; try done; by apply remap_safe.
Qed.

(** ** The sources of an input *)

(** An input the sources can be made of: its type is one of the four, a receiver is of a
    known type, and the limit on its records can be read. *)
Record source_ready (i : InputSpec) : Prop := {
  sr_type : in_Type i ∈ InputTypes;
  sr_receiver : in_Type i = InputTypeReceiver → ∃ r, in_Receiver i = Some r ∧ recv_Type r ∈ ReceiverTypes;
  sr_limit : returns (MaxRecordsPerSecond i);
}.

(** The profile of the cluster, if there is one, is a profile. *)
Definition profile_option (op : Options) : Prop :=
  ∀ v, op !! ClusterTLSProfileSpec = Some v → ∃ p, v = AnyTLSProfileSpec p.

Lemma SetTLSProfileOptionsFrom_returns `{OpenshiftTLS, Host} `{TransportLayerSecurity T} op (comp : option T) :
  profile_option op →
  ∃ op', SetTLSProfileOptionsFrom op comp = Ret op' ∧ tls_options_set op' ∧
    ∀ key, key ∉ [OptMinTLSVersion; OptCiphers; OptGroups] → op' !! key = op !! key.
Proof.
  intros Hop. unfold SetTLSProfileOptionsFrom.
  assert (∃ info, TLSProfileInfo op comp "," = Ret info) as [info ->].
  { unfold TLSProfileInfo. destruct (comp ⇀ GetTlsSecurityProfile) as [p|]; [eexists; reflexivity|].
    destruct (op !! ClusterTLSProfileSpec) as [v|] eqn:E; [|eexists; reflexivity].
    destruct (Hop v E) as [p ->]. eexists; reflexivity. }
  eexists. split; [done|]. split.
  - intros key. rewrite !elem_of_cons, elem_of_nil. intros [->|[->|[->|[]]]].
    + eexists. rewrite 2!lookup_insert_ne by done. apply lookup_insert_eq.
    + eexists. rewrite lookup_insert_ne by done. apply lookup_insert_eq.
    + eexists. apply lookup_insert_eq.
  - intros key. rewrite !not_elem_of_cons. intros (? & ? & ? & _). by rewrite !lookup_insert_ne by done.
Qed.

(** A step that succeeds with the sources of some kinds. *)
Definition gives (i : Input) (l : list string) (m : outcome sources_state) : Prop :=
  ∃ st, m = Ret st ∧ sources_ok i l st.

Lemma gives_bind i l l' m f :
  gives i l m → (∀ st, sources_ok i l st → gives i l' (f st)) → gives i l' (m ≫= f).
Proof. intros (st & -> & Hst) Hf. by apply Hf. Qed.

Lemma gives_add_if i done (asked : bool) k make st :
  sources_ok i done st →
  (∀ i', but_selector (i_Spec i') = but_selector (i_Spec i) →
     ∃ m, make i' = Ret m ∧ source_ok i' (source_id (in_Name (i_Spec i')) k) (chain_suffixes (i_Spec i') k) m) →
  k ∈ all_kinds → (∀ d, d ∈ done → d ∈ all_kinds ∧ d ≠ k) →
  gives i (done ++ if asked then [k] else []) (add_if asked make st).
Proof.
  intros Hst Hm Hk Hd. unfold gives, add_if. destruct asked; [|exists st; by rewrite app_nil_r].
  pose proof (so_spec _ _ _ Hst) as Hspec. destruct (Hm st.2 Hspec) as (m & -> & Hok).
  rewrite (but_selector_name _ _ Hspec), (chain_suffixes_but_selector _ _ k Hspec) in Hok. eexists. split; [reflexivity|]. apply add_source_ok; [done|done|].
  intros d s s' Hin Hs Hs'. destruct (Hd d Hin). by apply source_ids_differ.
Qed.

Ltac kinds_tac := unfold all_kinds; intros; repeat case_match; set_solver.

Lemma gives_audit i :
  gives i
    ((if Has (audit_sources (i_Spec i)) AuditSourceAuditd then ["host"] else [])
     ++ (if Has (audit_sources (i_Spec i)) AuditSourceKube then ["kube"] else [])
     ++ (if Has (audit_sources (i_Spec i)) AuditSourceOpenShift then ["openshift"] else [])
     ++ (if Has (audit_sources (i_Spec i)) AuditSourceOVN then ["ovn"] else []))
    (st ← add_if (Has (audit_sources (i_Spec i)) AuditSourceAuditd) (λ i : Input, Ret (NewAuditAuditdSource i)) (∅, ∅, i);
     st ← add_if (Has (audit_sources (i_Spec i)) AuditSourceKube) (λ i : Input, Ret (NewK8sAuditSource i)) st;
     st ← add_if (Has (audit_sources (i_Spec i)) AuditSourceOpenShift) (λ i : Input, Ret (NewOpenshiftAuditSource i)) st;
     add_if (Has (audit_sources (i_Spec i)) AuditSourceOVN) (λ i : Input, Ret (NewOVNAuditSource i)) st).
Proof.
  eapply gives_bind.
  { eapply (gives_add_if i [] _ "host"); [apply sources_ok_start| |kinds_tac..].
    intros i' _. eexists. split; [reflexivity|]. apply audit_sources_ok. }
  intros st1 H1. eapply gives_bind.
  { eapply (gives_add_if i _ _ "kube"); [exact H1| |kinds_tac..].
    intros i' _. eexists. split; [reflexivity|]. apply audit_sources_ok. }
  intros st2 H2. eapply gives_bind.
  { eapply (gives_add_if i _ _ "openshift"); [exact H2| |kinds_tac..].
    intros i' _. eexists. split; [reflexivity|]. apply audit_sources_ok. }
  intros st3 H3. rewrite !app_assoc. eapply (gives_add_if i _ _ "ovn"); [exact H3| |kinds_tac..].
  intros i' _. eexists. split; [reflexivity|]. apply audit_sources_ok.
Qed.

Section new_source.
Context `{RangeOrder, OpenshiftTLS, Host} (parse_url : string → option URL).

Lemma gives_container i includes excludes ty :
  returns (MaxRecordsPerSecond (i_Spec i)) →
  gives i ["container"]
    (m ← NewContainerSource i includes excludes ty (LSInfrastructure InfrastructureSourceContainer);
     Ret (add_source (∅, ∅, i) m)).
Proof.
  intros Hlim. destruct (NewContainerSource_ok i includes excludes ty Hlim) as (m & kl & -> & Hm & _).
  eexists. split; [reflexivity|].
  apply (add_source_ok i [] _ "container" m (sources_ok_start i) Hm). by intros d s s' ?%not_elem_of_nil.
Qed.

Lemma gives_infrastructure i includes excludes :
  returns (MaxRecordsPerSecond (i_Spec i)) →
  gives i
    ((if Has (infra_sources (i_Spec i)) InfrastructureSourceContainer then ["container"] else [])
     ++ (if Has (infra_sources (i_Spec i)) InfrastructureSourceNode then ["journal"] else []))
    (st ← add_if (Has (infra_sources (i_Spec i)) InfrastructureSourceContainer) (λ input : Input,
       NewContainerSource input includes excludes InputTypeInfrastructure
         (LSInfrastructure InfrastructureSourceContainer)) (∅, ∅, i);
     add_if (Has (infra_sources (i_Spec i)) InfrastructureSourceNode) (λ input : Input, Ret (NewJournalInput input)) st).
Proof.
  intros Hlim. eapply gives_bind.
  { eapply (gives_add_if i [] _ "container"); [apply sources_ok_start| |kinds_tac..].
    intros i' Hl%MaxRecordsPerSecond_but_selector. rewrite <-Hl in Hlim.
    destruct (NewContainerSource_ok i' includes excludes InputTypeInfrastructure Hlim) as (m & kl & ? & ? & _). by exists m. }
  intros st1 H1'. eapply (gives_add_if i _ _ "journal"); [exact H1'| |kinds_tac..].
  intros i' _. eexists. split; [reflexivity|]. apply NewJournalInput_ok.
Qed.

Lemma gives_receiver i secrets op r :
  tls_options_set op → in_Receiver (i_Spec i) = Some r → recv_Type r ∈ ReceiverTypes →
  gives i [""] (m ← NewViaqReceiverSource parse_url i secrets op; Ret (add_source (∅, ∅, i) m)).
Proof.
  intros Hop Hr Hty. destruct (NewViaqReceiverSource_ok parse_url i secrets op r Hop Hr Hty) as (m & -> & Hm).
  eexists. split; [reflexivity|].
  apply (add_source_ok i [] _ "" m (sources_ok_start i) Hm). by intros d s s' ?%not_elem_of_nil.
Qed.

(** What [NewSource] gives for an input that is ready. *)
Lemma NewSource_ok i secrets op :
  source_ready (i_Spec i) → profile_option op →
  ∃ st op', NewSource parse_url i secrets op = Ret (st, op') ∧ sources_ok i (kinds (i_Spec i)) st ∧
    (∀ key, key ∉ [OptMinTLSVersion; OptCiphers; OptGroups] → op' !! key = op !! key) ∧ tls_options_set op'.
Proof.
  intros [Hty Hrecv Hlim] Hop. unfold NewSource, kinds.
  destruct (SetTLSProfileOptionsFrom_returns op (Some i) Hop) as (op' & -> & Hset & Hother). cbn [mbind outcome_bind].
  lazymatch goal with |- ∃ _ _, (?m ≫= _) = _ ∧ sources_ok _ ?l _ ∧ _ =>
    enough (gives i l m) as (st & -> & Hst) by (exists st, op'; by split_and!) end.
  unfold InputTypes in Hty. rewrite !elem_of_cons, elem_of_nil in Hty.
  destruct Hty as [Hty|[Hty|[Hty|[Hty|[]]]]]; rewrite Hty; cbn [String.eqb Ascii.eqb Bool.eqb].
  - destruct (application_builders _) as [ib eb]. by apply gives_container.
  - by apply gives_infrastructure.
  - apply gives_audit.
  - destruct (Hrecv Hty) as (r & ? & ?). by apply gives_receiver with r.
Qed.
End new_source.

(** ** What is proved of the sources *)

(** The sources an input names are those of the enumerations. *)
Definition sources_enumerated (i : InputSpec) : Prop :=
  (∀ infra s, in_Infrastructure i = Some infra → s ∈ infra_Sources infra → s ∈ InfrastructureSources) ∧
  (∀ audit s, in_Audit i = Some audit → s ∈ audit_Sources audit → s ∈ AuditSources).

(** A set made of the elements of a list, or of all if there are none, has one of all. *)
Lemma some_source (l all : list string) :
  all ≠ [] → (∀ s, s ∈ l → s ∈ all) →
  ∃ s, s ∈ all ∧ s ∈ (if (size (NewString l) =? 0)%nat then Insert (NewString l) all else NewString l).
Proof.
  intros Hall Hl. destruct (size_zero (NewString l)) as [_|Hne].
  - destruct all as [|s all]; [done|]. exists s. split; [by left|]. apply elem_of_Insert. by right; left.
  - destruct (set_choose_L _ Hne) as [s Hs]. exists s. split; [by apply Hl, elem_of_NewString|done].
Qed.

Lemma infra_sources_some `{RangeOrder} i : sources_enumerated i → ∃ s, s ∈ InfrastructureSources ∧ s ∈ infra_sources i.
Proof.
  intros [Hi _]. unfold infra_sources. destruct (in_Infrastructure i) as [infra|] eqn:E.
  - apply some_source; [done|]. intros s. by apply Hi.
  - exists InfrastructureSourceNode. rewrite elem_of_NewString. split; by left.
Qed.

Lemma audit_sources_some `{RangeOrder} i : sources_enumerated i → ∃ s, s ∈ AuditSources ∧ s ∈ audit_sources i.
Proof.
  intros [_ Ha]. unfold audit_sources.
  assert (∃ s, s ∈ AuditSources ∧ s ∈ NewString AuditSources) as Hall.
  { exists AuditSourceKube. rewrite elem_of_NewString. split; by left. }
  destruct (in_Audit i) as [audit|] eqn:E; [|done]. destruct (_ =? 0)%nat; [done|].
  apply some_source; [done|]. intros s. by apply Ha.
Qed.

Lemma Has_true (s : gset string) x : x ∈ s → Has s x = true.
Proof. intros Hx. by apply bool_decide_eq_true. Qed.

Lemma kinds_nonempty `{RangeOrder} i : in_Type i ∈ InputTypes → sources_enumerated i → kinds i ≠ [].
Proof.
  intros Hty He. unfold kinds. unfold InputTypes in Hty. rewrite !elem_of_cons, elem_of_nil in Hty.
  destruct Hty as [->|[->|[->|[->|[]]]]]; cbn [String.eqb Ascii.eqb Bool.eqb]; [done| | |done].
  - destruct (infra_sources_some i He) as (s & Hs & Hin%Has_true). unfold InfrastructureSources in Hs.
    rewrite !elem_of_cons, elem_of_nil in Hs. destruct Hs as [->|[->|[]]]; rewrite Hin; [by destruct (if Has _ _ then _ else _)|done].
  - destruct (audit_sources_some i He) as (s & Hs & Hin%Has_true). unfold AuditSources in Hs.
    rewrite !elem_of_cons, elem_of_nil in Hs. destruct Hs as [->|[->|[->|[->|[]]]]]; rewrite Hin; by repeat destruct (Has _ _).
Qed.

(** What application inputs collect by default is what infrastructure inputs do not. *)
Lemma application_default f : log_file_ok f → application_wants None f ↔ ¬ infra_namespace (lf_namespace f).
Proof.
  intros Hf. unfold application_wants, hidden. rewrite <-(infra_patterns f Hf). naive_solver.
Qed.

Section claims.
Context `{RangeOrder, OpenshiftTLS, Host} (parse_url : string → option URL).

(** C30. The configuration of an input is well formed.  For an input whose type is known, with
    a receiver of a known type if it is one, a limit that can be read and sources of the
    enumerations, and for options whose TLS profile is one, making its sources returns and
    changes no option but the three of the TLS profile.  There is a source for each kind of
    logs the input asks for, at least one, and no other.  Every transform is in exactly one
    chain that starts with a source, each transform of which reads the one before and
    nothing else: normalization, after the split of the items of an HTTP receiver, before
    the limit of a container source, which lets pass as many records as the input says.
    The identifiers the input gets are the ends of the chains, in the order of the sources,
    so that nothing bypasses a limit; no program can end the literal it is written in. *)
Theorem NewSource_correct i secrets op :
  source_ready (i_Spec i) → profile_option op → sources_enumerated (i_Spec i) →
  ∃ st op', NewSource parse_url i secrets op = Ret (st, op') ∧
    sources_ok i (kinds (i_Spec i)) st ∧ kinds (i_Spec i) ≠ [] ∧
    ∀ key, key ∉ [OptMinTLSVersion; OptCiphers; OptGroups] → op' !! key = op !! key.
Proof.
  intros Hi Hop He. destruct (NewSource_ok parse_url i secrets op Hi Hop) as (st & op' & E & Hok & Hother & _).
  exists st, op'. split_and!; [done|done| |done]. apply kinds_nonempty; [apply Hi|done].
Qed.

(** A container source is found under its identifier, also after a journal. *)
Lemma infra_container_lookup (i : Input) st includes excludes (journal : bool) :
  returns (MaxRecordsPerSecond (i_Spec i)) →
  (st ← add_if true (λ input : Input, NewContainerSource input includes excludes InputTypeInfrastructure
      (LSInfrastructure InfrastructureSourceContainer)) (∅, ∅, i);
   add_if journal (λ input : Input, Ret (NewJournalInput input)) st) = Ret st →
  ∃ kl, st.1.1 !! source_id (in_Name (i_Spec i)) "container" = Some (SKubernetesLogs kl) ∧
    kl_IncludePathsGlobPatterns kl = includes ∧ kl_ExcludePathsGlobPatterns kl = excludes.
Proof.
  intros Hlim. cbn [add_if fst snd].
  destruct (NewContainerSource_ok i includes excludes InputTypeInfrastructure Hlim) as (m & kl & -> & Hm & Hsrc & Hin & Hex).
  cbn [mbind outcome_bind]. pose proof (mk_base _ _ _ _ Hm) as Hb. pose proof (but_selector_name _ _ (mk_spec _ _ _ _ Hm)) as Hname.
  destruct m as [[[base src] tfs] i']. cbn [fst snd] in *. subst base src. cbn [add_source]. intros E. exists kl. split; [|done].
  destruct journal; cbn [add_if mbind outcome_bind] in E; injection E as <-; [|by apply lookup_insert_eq].
  unfold add_source, NewJournalInput. cbn [fst snd]. rewrite lookup_insert_ne; [by apply lookup_insert_eq|].
  rewrite Hname. change (MakeInputID [in_Name (i_Spec i); "journal"]) with (source_id (in_Name (i_Spec i)) "journal").
  intros Eq. by apply (source_ids_differ (in_Name (i_Spec i)) "journal" "container" "_meta" "_meta");
    [by right; left|by left|done|by apply suffix_in|by apply suffix_in|rewrite Eq].
Qed.

(** C31. Which logs of containers are collected.  For an application input whose patterns of
    namespaces are names with at most a star at the end, the source reads the logs of a
    container exactly when the input includes it, or includes nothing in particular, does
    not exclude it, and its namespace is not one of the infrastructure that the input
    leaves out because none of its patterns mentions that group.  By default those are the
    logs of the namespaces that an infrastructure input collects, which reads all of them
    but the logs of the logging stack.  It does not matter whether stars cross slashes. *)
Theorem containers_collected i secrets op :
  source_ready (i_Spec i) → profile_option op →
  ∃ st op', NewSource parse_url i secrets op = Ret (st, op') ∧
    (in_Type (i_Spec i) = InputTypeApplication → app_plain (in_Application (i_Spec i)) →
     ∃ kl, st.1.1 !! source_id (in_Name (i_Spec i)) "container" = Some (SKubernetesLogs kl) ∧
       ∀ crosses f, log_file_ok f →
         collects crosses (kl_IncludePathsGlobPatterns kl) (kl_ExcludePathsGlobPatterns kl) f ↔
         application_wants (in_Application (i_Spec i)) f) ∧
    (in_Type (i_Spec i) = InputTypeInfrastructure →
     InfrastructureSourceContainer ∈ infra_sources (i_Spec i) →
     ∃ kl, st.1.1 !! source_id (in_Name (i_Spec i)) "container" = Some (SKubernetesLogs kl) ∧
       ∀ crosses f, log_file_ok f →
         collects crosses (kl_IncludePathsGlobPatterns kl) (kl_ExcludePathsGlobPatterns kl) f ↔
         infra_namespace (lf_namespace f) ∧ ¬ logging_pod f) ∧
    ∀ f, log_file_ok f → application_wants None f ↔ ¬ infra_namespace (lf_namespace f).
Proof.
  intros Hi Hop. destruct (NewSource_ok parse_url i secrets op Hi Hop) as (st & op' & E & _ & _).
  exists st, op'. split; [done|]. pose proof (sr_limit _ Hi) as Hlim. revert E. unfold NewSource.
  destruct (SetTLSProfileOptionsFrom_returns op (Some i) Hop) as (op1 & -> & _). cbn [mbind outcome_bind]. intros E.
  apply bind_ret_inv in E as (st' & E & [= -> ->]). split_and!; [| |apply application_default].
  - intros Hty Hpl. rewrite Hty in E. cbn [String.eqb Ascii.eqb Bool.eqb] in E.
    destruct (application_builders (in_Application (i_Spec i))) as [ib eb] eqn:Eb.
    destruct (NewContainerSource_ok i (Build ib []) (Build eb infraNamespaces) InputTypeApplication Hlim)
      as (m & kl & Em & Hm & Hsrc & Hin & Hex). rewrite Em in E. cbn [mbind outcome_bind] in E. injection E as <-.
    exists kl. pose proof (mk_base _ _ _ _ Hm) as Hb. destruct m as [[[base src] tfs] i']. cbn [fst snd] in *. subst base src.
    cbn [add_source fst snd]. split; [by apply lookup_insert_eq|]. intros crosses f Hf. rewrite Hin, Hex.
    rewrite <-(application_collects crosses _ f Hf Hpl), Eb. done.
  - intros Hty Hc. rewrite Hty, (Has_true _ _ Hc) in E. cbn [String.eqb Ascii.eqb Bool.eqb] in E.
    destruct (infra_container_lookup i st _ _ _ Hlim E) as (kl & Hkl & Hin & Hex). exists kl. split; [done|].
    intros crosses f Hf. rewrite Hin, Hex. by apply infrastructure_collects.
Qed.
End claims.

(** A star is not kept to the namespace: the directory it is matched with goes on with the
    name of the pod. *)
Lemma pattern_reaches_pods :
  ∃ n f, log_file_ok f ∧ ¬ selects n f ∧
    ∀ crosses, matches (glob (wild crosses) (crioNamespaceContainerCombined (combined n))) (log_path f).
Proof.
  exists {| Namespace := "*-prod"; Container := "" |},
    {| lf_namespace := "team"; lf_pod := "db-prod"; lf_uid := "1"; lf_container := "c"; lf_restart := "0" |}.
  split; [by split|]. split.
  - unfold selects, globs. cbn [Namespace lf_namespace]. rewrite <-fullmatch_spec. by intros [[?|?] _].
  - intros crosses. apply fullmatch_spec. by destruct crosses; vm_compute.
Qed.

(** ** Witnesses *)

#[local] Existing Instance canonical_order.

Definition example_openshift : OpenshiftTLS.
Proof.
  refine {| TLSProfiles := {["Intermediate" := {| tps_Ciphers := ["c1"; "c2"]; tps_Groups := ["X25519"; "secp256r1"];
      tps_MinTLSVersion := "VersionTLS12" |}]};
    TLSProfileIntermediateType := "Intermediate"; TLSProfileCustomType := "Custom"; VersionTLS10 := "VersionTLS10";
    VersionTLS11 := "VersionTLS11"; VersionTLS12 := "VersionTLS12"; VersionTLS13 := "VersionTLS13";
    TLSGroupX25519 := "X25519"; TLSGroupSecP256r1 := "secp256r1"; TLSGroupSecP384r1 := "secp384r1";
    TLSGroupSecP521r1 := "secp521r1"; TLSGroupX25519MLKEM768 := "X25519MLKEM768";
    TLSGroupSecP256r1MLKEM768 := "SecP256r1MLKEM768"; TLSGroupSecP384r1MLKEM1024 := "SecP384r1MLKEM1024";
    intermediate_profile := eq_refl |}.
Defined.

Definition example_host : Host := {| fips_enabled_file := Some "0"; has_inet6 := true |}.

#[local] Existing Instances example_openshift example_host.

Definition example_app : InputSpec := {|
  in_Name := "my-app"; in_Type := InputTypeApplication;
  in_Application := Some {| app_Selector := None; app_Tuning := None;
    app_Includes := [{| nc_Namespace := "openshift-logging"; nc_Container := "" |}];
    app_Excludes := [{| nc_Namespace := "kube*"; nc_Container := "" |}] |};
  in_Infrastructure := None; in_Audit := None; in_Receiver := None |}.

Lemma example_app_ready : source_ready example_app.
Proof. split; [by left|done|by eexists]. Qed.

Lemma no_profile : profile_option ∅.
Proof. intros v. by rewrite lookup_empty. Qed.

(** An application input that lets 100 records of a container pass in a second. *)
Definition example_limited : InputSpec := {|
  in_Name := "my-app"; in_Type := InputTypeApplication;
  in_Application := Some {| app_Selector := None; app_Includes := []; app_Excludes := [];
    app_Tuning := Some {| citune_RateLimitPerContainer := Some {| limit_MaxRecordsPerSecond := 100 |};
      citune_MaxMessageSize := None |} |};
  in_Infrastructure := None; in_Audit := None; in_Receiver := None |}.

Lemma NewSource_correct_witness :
  ∃ st op', NewSource (λ _, None) (NewInput example_limited) ∅ ∅ = Ret (st, op') ∧
    i_Ids st.2 = ["input_my_app_container_throttle"] ∧
    limits st.1.2 "input_my_app_container_throttle" 100 ∧
    links st.1.2 "input_my_app_container" ["input_my_app_container_meta"; "input_my_app_container_throttle"].
Proof.
  assert (source_ready example_limited) as Hr by (split; [by left|done|by eexists]).
  assert (kinds example_limited = ["container"]) as Hk by (vm_compute; reflexivity).
  assert (chain_of example_limited "container" = ["input_my_app_container_meta"; "input_my_app_container_throttle"]) as Hc
    by (vm_compute; reflexivity).
  assert (limit_of example_limited = Some 100%Z) as Hl by (vm_compute; reflexivity).
  destruct (NewSource_correct (λ _, None) (NewInput example_limited) ∅ ∅ Hr no_profile) as (st & op' & E & Hok & _).
  { by split. }
  exists st, op'. split; [exact E|]. change (i_Spec (NewInput example_limited)) with example_limited in Hok. rewrite Hk in Hok.
  destruct Hok as [_ (new & Hnew & HF) _ _ Hlinks _ Hlim _]. change (i_Spec (NewInput example_limited)) with example_limited in *.
  specialize (Hlinks "container" (list_elem_of_here _ _)). specialize (Hlim 100%Z (list_elem_of_here _ _) Hl).
  rewrite Hc in Hlinks. split_and!; [|exact Hlim|exact Hlinks].
  inversion HF as [|? e ? ? He Hnil]; subst. inversion Hnil; subst. rewrite Hc in He. injection He as <-. exact Hnew.
Defined.

Definition example_log (ns : string) : log_file := {|
  lf_namespace := ns; lf_pod := "p"; lf_uid := "1"; lf_container := "c"; lf_restart := "0" |}.

Lemma containers_collected_witness :
  ∃ st op' kl, NewSource (λ _, None) (NewInput example_app) ∅ ∅ = Ret (st, op') ∧
    st.1.1 !! source_id "my-app" "container" = Some (SKubernetesLogs kl) ∧
    collects true (kl_IncludePathsGlobPatterns kl) (kl_ExcludePathsGlobPatterns kl) (example_log "openshift-logging") ∧
    ¬ collects true (kl_IncludePathsGlobPatterns kl) (kl_ExcludePathsGlobPatterns kl) (example_log "team").
Proof.
  assert (∀ lit n, in_string "*" lit = false → in_string "_" lit = false → noslash lit → n = lit ∨ n = lit +:+ "*" →
    plain (container_of {| nc_Namespace := n; nc_Container := "" |})) as Hplain.
  { intros lit n ? ? ? ?. split; [by exists lit|done]. }
  assert (app_plain (in_Application example_app)) as Hpl.
  { intros a n [= <-] [->%list_elem_of_singleton| ->%list_elem_of_singleton].
    - apply (Hplain "openshift-logging"); [done..|by left].
    - apply (Hplain "kube"); [done..|by right]. }
  destruct (containers_collected (λ _, None) (NewInput example_app) ∅ ∅ example_app_ready no_profile)
    as (st & op' & E & Happ & _).
  destruct (Happ eq_refl Hpl) as (kl & Hkl & Hc). exists st, op', kl. split; [exact E|]. split; [exact Hkl|].
  assert (∀ p s, globs p s ↔ fullmatch (glob (wild false) p) s = true) as Hg by (intros; symmetry; apply fullmatch_spec).
  split; [apply Hc; [by split|]; split_and!|intros Hno; apply Hc in Hno as [Hi _]; [|by split]].
  - intros a [= <-]. right. eexists. split; [by left|]. split; [right; by apply Hg; vm_compute|by left].
  - intros (k & Hk & Hgk & Hno). unfold infra_groups in Hk. rewrite !elem_of_cons, elem_of_nil in Hk.
    destruct Hk as [->|[->|[->|[]]]]; [by apply Hg in Hgk| |by apply Hg in Hgk].
    by apply (Hno _ _ eq_refl (list_elem_of_here _ _)).
  - intros a n [= <-] ->%list_elem_of_singleton [[?|?%Hg] _]; done.
  - destruct (Hi _ eq_refl) as [?|(n & ->%list_elem_of_singleton & [?|?%Hg] & _)]; done.
Defined.
