(* ===== verification/OutputCommon.v ===== *)
(** * What the outputs share ([internal/generator/vector/output/common], [aws/auth])

    The authentication, the batches, the buffers, the encoding and the requests of sinks,
    and the counter of unmatched events of [vector/metrics]. *)

From S2P Require Import Prelude GoStrings ApiCommon ApiInputs ApiOutputs ApiForwarder Sets ObsResources AwsAuth Toml Transforms.
From S2P Require Import VectorHelpers Adapters Tls SinkTypes Sources.
From S2P Require Reconcile.

(** ** Authentication ([auth.go]) *)

Definition OptionServiceAccountTokenSecretName : string := "serviceAccountTokenSecretName".

(** The token a reference stands for: of a secret, or of the service account. *)
Definition bearer_token (key : BearerToken) (op : Options) : outcome string :=
  if bt_From key == BearerTokenFromSecret then
    Ret (match bt_Secret key with
         | Some s => SecretFrom (Some {| sr_SecretName := btsk_Name s; sr_Key := btsk_Key s |})
         | None => ""
         end)
  else if bt_From key == BearerTokenFromServiceAccount then
    r ← GetOption as_string op OptionServiceAccountTokenSecretName "";
    let '(name, found) := r in
    Ret (if (found : bool) then SecretFrom (Some {| sr_SecretName := name; sr_Key := TokenKey |}) else "")
  else Ret "".

Definition NewHttpAuth (spec : option HTTPAuthentication) (op : Options) : outcome (option HttpAuth) :=
  match spec with
  | None => Ret None
  | Some spec =>
      match ha_Token spec with
      | Some key =>
          token ← bearer_token key op;
          Ret (Some {| auth_Strategy := HttpAuthStrategyBearer; auth_User := ""; auth_Password := "";
                       auth_Token := token |})
      | None =>
          Ret (Some {| auth_Strategy := HttpAuthStrategyBasic; auth_User := SecretFrom (ha_Username spec);
                       auth_Password := SecretFrom (ha_Password spec); auth_Token := "" |})
      end
  end.

(** ** Tuning ([batch.go], [buffer.go], [request.go], [encoding.go]) *)

(** [uint64] of an [int64] is [to_uint64]. *)
Definition NewApiBatch (t : Tuning) : option Batch :=
  match bt_MaxWrite (tuning_Base t) with
  | Some maxBytes => if negb (Quantity_IsZero maxBytes) then Some {| MaxBytes := to_uint64 (Quantity_Value maxBytes) |} else None
  | None => None
  end.

Definition minBufferSize : Z := 268435488.

Definition NewApiBuffer (t : Tuning) : option Buffer :=
  if bt_DeliveryMode (tuning_Base t) == DeliveryModeAtLeastOnce then
    Some {| WhenFull := BufferWhenFullBlock; buf_Type := BufferTypeDisk; MaxSize := minBufferSize |}
  else if bt_DeliveryMode (tuning_Base t) == DeliveryModeAtMostOnce then
    Some {| WhenFull := BufferWhenFullDropNewest; buf_Type := ""; MaxSize := 0 |}
  else None.

Definition NewApiEncoding (codecType : string) : Encoding := {|
  Codec := codecType; TimestampFormat := ""; ExceptFields := ["_internal"] |}.

(** [uint] of a float, by its integral part: the language leaves open what a negative one
    gives. *)
Class UintOfFloat := {
  uint_of_float : Z → Z;
  uint_of_float_exact : ∀ z, (0 ≤ z < 2 ^ 64)%Z → uint_of_float z = z;
}.

(** The product of two [int64]. *)
Definition wrap64 (z : Z) : Z := ((z + 2 ^ 63) mod 2 ^ 64 - 2 ^ 63)%Z.

Section request.
Context `{UintOfFloat}.

(** A duration that counts seconds, in seconds. *)
Definition retry_secs (d : Z) : Z := uint_of_float (Seconds (wrap64 (d * 1000000000))).

Definition NewApiRequest (t : Tuning) : option Request :=
  let r : option Request :=
    match bt_MinRetryDuration (tuning_Base t) with
    | Some d =>
        if (0 <? d)%Z then
          Some {| RetryInitialBackoffSecs := retry_secs d; RetryMaxDurationSec := 0; TimeoutSecs := 0; req_Headers := ∅ |}
        else None
    | None => None
    end in
  match bt_MaxRetryDuration (tuning_Base t) with
  | Some d =>
      if (0 <? d)%Z then
        let r := default Request_zero r in
        Some {| RetryInitialBackoffSecs := RetryInitialBackoffSecs r; RetryMaxDurationSec := retry_secs d;
                TimeoutSecs := TimeoutSecs r; req_Headers := req_Headers r |}
      else r
  | None => r
  end.
End request.

(** ** AWS ([aws/auth/auth.go]) *)

(** [strings.Trim] of double quotes. *)
Fixpoint trim_dquotes_left (s : string) : string :=
  match s with String c s' => if Ascii.eqb c dquote then trim_dquotes_left s' else s | "" => "" end.
Fixpoint trim_dquotes_right (s : string) : string :=
  match s with
  | "" => ""
  | String c s' =>
      let t := trim_dquotes_right s' in
      if (t == "") && Ascii.eqb c dquote then "" else String c t
  end.
Definition Trim_dquotes (s : string) : string := trim_dquotes_right (trim_dquotes_left s).

Definition AwsCredentialsKey : string := "credentials".
Definition OptionForwarderName : string := "forwarderName".

Definition aws_auth_New (outputName : string) (auth : option AwsAuthentication) (options : Options) :
    outcome (option SinkTypes.AwsAuth) :=
  match auth with
  | None => Ret None
  | Some auth =>
      if aws_Type auth == AwsAuthTypeAccessKey then
        key ← deref (aws_AwsAccessKey auth);
        let role := aws_AssumeRole auth in
        Ret (Some {|
          awa_AccessKeyId := SecretFrom (Some (aak_KeyId key));
          awa_SecretAccessKey := SecretFrom (Some (aak_KeySecret key));
          awa_AssumeRole := match role with Some r => SecretFrom (Some (aar_RoleARN r)) | None => "" end;
          awa_ExternalId := match role with
            | Some r => if (AssumeRoleHasExternalId r).1 then (AssumeRoleHasExternalId r).2 else ""
            | None => "" end;
          awa_SessionName := match role with Some r => aar_SessionName r | None => "" end;
          awa_CredentialsFile := ""; awa_Profile := "" |})
      else if aws_Type auth == AwsAuthTypeIAMRole then
        r ← GetOption as_string options OptionForwarderName "";
        let '(forwarderName, found) := r in
        Ret (Some (if (found : bool) then {|
          awa_AccessKeyId := ""; awa_SecretAccessKey := ""; awa_AssumeRole := ""; awa_ExternalId := ""; awa_SessionName := "";
          awa_CredentialsFile := Trim_dquotes
            (ConfigPath (forwarderName +:+ "-" +:+ Reconcile.AwsCredentialsConfigMapName) AwsCredentialsKey []);
          awa_Profile := "output_" +:+ outputName |} else AwsAuth_zero))
      else Ret (Some AwsAuth_zero)
  end.

(** ** The counter of unmatched events ([vector/metrics]) *)

Definition OptionLogsToMetricInputs : string := "logsToMetricInputs".

Definition NewUnmatched (id : string) (op : Options) (labels : gmap string string) : outcome (transform * Options) :=
  let tags : gmap string string := map_of_assignments
    [("log_type", "{{ log_type }}"); ("log_source", "{{ log_source }}");
     ("output_type", ToLower OutputTypeLokiStack); ("component_id", id)] in
  let unmatchedID := MakeID [id; Unmatched] in
  op ← AddToStringSet op OptionLogsToMetricInputs [unmatchedID];
  Ret (TLogToMetric (Some (NewLogToMetric "component_event_unmatched_count" MetricsTypeCounter
         (Tags_AddAll tags labels) [UnmatchedRoute id])), op).

(** *** Seconds of requests *)

(** An integer of a mantissa is its own float. *)
Lemma round64_whole n : (0 < n < 2 ^ 53)%Z →
  ((round64 n 1).1 * 2 ^ Z.max 0 (round64 n 1).2 / 2 ^ Z.max 0 (- (round64 n 1).2))%Z = n.
Proof.
  intros Hn. unfold round64. destruct (Z.eqb_spec n 0) as [|_]; [lia|]. change (Z.log2 1) with 0%Z.
  assert (0 ≤ Z.log2 n ≤ 52)%Z as Hk.
  { split; [apply Z.log2_nonneg|]. apply Z.lt_succ_r. apply Z.log2_lt_pow2; lia. }
  pose proof (Z.log2_spec n ltac:(lia)) as [Hlow _].
  rewrite Z.sub_0_r, (Z.max_l 0 (- Z.log2 n)), (Z.max_r 0 (Z.log2 n)), Z.pow_0_r, Z.mul_1_r, Z.mul_1_l by lia.
  destruct (Z.ltb_spec n (2 ^ Z.log2 n)) as [|_]; [lia|]. cbn iota zeta.
  rewrite (Z.max_r 0 (- (Z.log2 n - 52))), (Z.max_l 0 (Z.log2 n - 52)) by lia.
  rewrite Z.pow_0_r, Z.mul_1_r, Z.mod_1_r, Z.div_1_r. cbn [fst snd]. change (2 * 0 <? 1)%Z with true. cbn [orb fst snd].
  rewrite (Z.max_l 0 (Z.log2 n - 52)), (Z.max_r 0 (- (Z.log2 n - 52))), Z.pow_0_r, Z.mul_1_r by lia.
  apply Z.div_mul. apply Z.pow_nonzero; lia.
Qed.

Lemma Seconds_whole n : (0 ≤ n < 2 ^ 53)%Z → Seconds (n * 1000000000) = n.
Proof.
  intros Hn. unfold Seconds. rewrite Z.abs_eq by lia. rewrite Z.mod_mul, Z.div_mul by lia.
  change (round64 0 1000000000) with (0, 0)%Z. cbn [fst snd]. change (Z.max 0 (- 0)) with 0%Z.
  rewrite Z.pow_0_r, Z.mul_1_r, Z.add_0_r. destruct (decide (n = 0)%Z) as [->|Hne]; [done|].
  rewrite round64_whole by lia. rewrite Z.sgn_pos by lia. lia.
Qed.

Lemma retry_secs_exact `{UintOfFloat} d : (0 ≤ d ≤ 9223372036)%Z → retry_secs d = d.
Proof.
  intros Hd. unfold retry_secs, wrap64. rewrite Z.mod_small by lia.
  replace (d * 1000000000 + 2 ^ 63 - 2 ^ 63)%Z with (d * 1000000000)%Z by lia.
  rewrite Seconds_whole by lia. apply uint_of_float_exact. lia.
Qed.

(** The seconds of a duration that is given and positive. *)
Definition given_secs (d : option Z) : Z := match d with Some d => Z.max 0 d | None => 0 end.

(** The delays between retries.  Durations of at most 9223372036 seconds are given to
    the sink as they are, those that are missing or not positive as none, and without any
    the sink has no request.  Longer ones overflow: one of 18446744074 seconds gives
    none, and sixty thousand million, a minute in the nanoseconds that the type counts,
    gives a hundred and forty-seven years. *)
Theorem NewApiRequest_correct `{UintOfFloat} :
  (∀ t, let base := tuning_Base t in
     (∀ d, d ∈ [bt_MinRetryDuration base; bt_MaxRetryDuration base] → (given_secs d ≤ 9223372036)%Z) →
     NewApiRequest t =
       if (given_secs (bt_MinRetryDuration base) =? 0)%Z && (given_secs (bt_MaxRetryDuration base) =? 0)%Z then None
       else Some {| RetryInitialBackoffSecs := given_secs (bt_MinRetryDuration base);
                    RetryMaxDurationSec := given_secs (bt_MaxRetryDuration base); TimeoutSecs := 0; req_Headers := ∅ |}) ∧
  retry_secs 18446744074 = 0%Z ∧ retry_secs 60000000000 = 4659767778%Z.
Proof.
  split; [|by split; unfold retry_secs; rewrite uint_of_float_exact by (vm_compute; by split); vm_compute].
  intros t base Hd. unfold NewApiRequest. fold base.
  pose proof (Hd (bt_MinRetryDuration base) ltac:(by left)) as Hmin.
  pose proof (Hd (bt_MaxRetryDuration base) ltac:(by right; left)) as Hmax.
  destruct (bt_MinRetryDuration base) as [d1|], (bt_MaxRetryDuration base) as [d2|]; cbn [given_secs] in *;
    repeat match goal with |- context [(0 <? ?d)%Z] =>
      destruct (Z.ltb_spec 0 d); [rewrite (Z.max_r 0 d) by lia|rewrite (Z.max_l 0 d) by lia] end;
    rewrite ?retry_secs_exact by lia; cbn [Z.eqb andb default RetryInitialBackoffSecs TimeoutSecs req_Headers Request_zero];
    repeat match goal with |- context [(?d =? 0)%Z] => destruct (Z.eqb_spec d 0); [lia|] end; done.
Qed.

Definition example_floats : UintOfFloat := {| uint_of_float := λ z, z; uint_of_float_exact := λ z _, eq_refl |}.

Definition example_tuning : Tuning := {|
  tuning_Base := {| bt_DeliveryMode := ""; bt_MaxWrite := None; bt_MinRetryDuration := Some 5%Z; bt_MaxRetryDuration := Some (-1)%Z |};
  tuning_Compression := "" |}.

Lemma NewApiRequest_correct_witness :
  @NewApiRequest example_floats example_tuning =
    Some {| RetryInitialBackoffSecs := 5; RetryMaxDurationSec := 0; TimeoutSecs := 0; req_Headers := ∅ |}.
Proof.
  apply (proj1 (@NewApiRequest_correct example_floats) example_tuning).
  intros d. cbn. rewrite !elem_of_cons, elem_of_nil. intros [->|[->|[]]]; cbn; lia.
Defined.
