(* ===== verification/Outputs.v ===== *)
(** * The outputs of the collector ([internal/generator/vector/output])

    One function per type of output, named after its package: what it makes of an output
    is the identifier of its sink, the sink and the transforms before it.  The files of
    Syslog, Loki, LokiStack and OTLP are modelled in [SyslogOutput], [LokiOutput],
    [OtlpOutput] and [OutputFactory].  A constructor that is given a function to set its
    fields is written as the record with the fields set.  A list of indexed fields that is
    nil and one that is empty are not told apart: both give no fields. *)

From S2P Require Import Prelude GoStrings Regex ApiCommon ApiInputs ApiOutputs ApiForwarder Sets ObsResources ValidateOutputs Toml Transforms.
From S2P Require Import VrlText Template VectorHelpers Adapters Tls SinkTypes Sources OutputCommon.
From S2P Require AwsAuth.

(** What an output is made of: the identifier of the sink, the sink and the transforms. *)
Definition made_sink := (string * sink * Transforms)%type.

Definition remap_of (vrl : string) (inputs : list string) : transform := TRemap (Some (NewRemap vrl inputs)).

(** The field of the event that a component puts its text in. *)
Definition internal_field (componentID : string) : string := "{{ _internal." +:+ componentID +:+ " }}".

(** The tuning of an output as its sink has it; [codec] is the one of the encoding. *)
Definition tuned_base `{UintOfFloat} (o : Output) (compression codec : string) (tls : option TLS) : BaseSink := {|
  Compression := compression; base_Encoding := Some (NewApiEncoding codec);
  base_Batch := NewApiBatch (o_tuning o); base_Buffer := NewApiBuffer (o_tuning o);
  base_Request := NewApiRequest (o_tuning o); base_TLS := tls |}.

Definition base_set_Request (b : BaseSink) (r : option Request) : BaseSink := {|
  Compression := Compression b; base_Encoding := base_Encoding b; base_Batch := base_Batch b;
  base_Buffer := base_Buffer b; base_Request := r; base_TLS := base_TLS b |}.

Definition base_set_Batch (b : BaseSink) (l : option Batch) : BaseSink := {|
  Compression := Compression b; base_Encoding := base_Encoding b; base_Batch := l;
  base_Buffer := base_Buffer b; base_Request := base_Request b; base_TLS := base_TLS b |}.

(** A batch that is at most as large as the service takes. *)
Definition capped_batch (cap : Z) (b : option Batch) : option Batch :=
  Some (match b with
        | Some b => if (cap <? MaxBytes b)%Z then {| MaxBytes := cap |} else b
        | None => {| MaxBytes := cap |}
        end).

(** ** Texts of programs *)

Definition add_id_vrl : string := "._id = encode_base64(uuid_v4())
if exists(.kubernetes.event.metadata.uid) {
  ._id = .kubernetes.event.metadata.uid
}".

Definition normalize_stream_vrl : string := raw "
.stream_name = `default`
if ( .log_type == `audit` ) {
 .stream_name = (.hostname +`.`+ downcase(.log_source)) ?? .stream_name
}
if ( .log_source == `container` ) {
  k = .kubernetes
  .stream_name = (k.namespace_name+`_`+k.pod_name+`_`+k.container_name) ?? .stream_name
}
if ( .log_type == `infrastructure` ) {
 .stream_name = ( .hostname + `.` + .stream_name ) ?? .stream_name
}
if ( .log_source == `node` ) {
 .stream_name =  ( .hostname + `.journal.system` ) ?? .stream_name
}
del(.tag)
del(.source_type)
	".

Definition normalize_severity_vrl : string := raw "
# Set audit log level to 'INFO'
if .log_type == `audit` {
	.level = `INFO`
} else if !exists(.level) {
  	.level = `DEFAULT`
} else if .level == `warn` {
	.level = `WARNING`
} else if .level == `trace` {
	.level = `DEBUG`
} else {
	.level = upcase!(.level) 
}
".

Definition reserved_keywords_vrl : string := "
if exists(.kind) {
  .openshift_kind = del(.kind)
}
".

(** The programs of Splunk, and the formats of the source as functions. *)

Definition sourceTmpl : string := raw "
# Splunk 'source' field detection
if ._internal.log_type == `infrastructure` && ._internal.log_source == `node` {
    ._internal.splunk.source = to_string!(._internal.systemd.u.SYSLOG_IDENTIFIER || ``)
}
if ._internal.log_source == `container` {
   	._internal.splunk.source = join!([._internal.kubernetes.namespace_name, ._internal.kubernetes.pod_name, ._internal.kubernetes.container_name], `_`)
}
if ._internal.log_type == `audit` {
   ._internal.splunk.source = ._internal.log_source
}
".

Definition payloadKeyTmpl (path : string) : string := "
payloadKey = " +:+ path +:+ (raw "
if !is_null(payloadKey) {
	value = get!(., payloadKey) 
	if !is_null(value) {
        internal = ._internal
        . = {}
        . = set!(., payloadKey, value)
        ._internal = internal
		if is_object(value) {
			._internal.splunk.sourcetype = `_json`
		} else {
			._internal.splunk.sourcetype = `generic_single_line`
		}
	} else {
		._internal.splunk.sourcetype = `_json`
	}
}
").

Definition payloadKeysourceTypeTmpl (path sourceType : string) : string := "
payloadKey = " +:+ path +:+ "
sourceType = " +:+ sourceType +:+ (raw "
if !is_null(payloadKey) {
	value = get!(., payloadKey) 
	if !is_null(value) {
        internal = ._internal
        . = {}
        . = set!(., payloadKey, value)
        ._internal = internal
	    ._internal.splunk.sourcetype = sourceType
	} else {
		._internal.splunk.sourcetype = `_json`
	}
}
").

Definition indexedFieldsRemap (paths : string) : string := "
# Splunk indexed fields
indexed_fields = " +:+ paths +:+ (raw "
for_each(indexed_fields) -> |_, field| {
	value = get!(., field) 
	if !is_null(value) {
		new_key = replace(join!(field,`_`), r'[\./]', `_`)  
		if !is_string(value) {
		  if is_object(value) {
			value = encode_json(value)
		  } else {
			value = to_string!(value)
		  }
		}
        . = remove!(., field, true)
		. = set!(., [new_key], value)	
	} else {
        log(`Path ` + join!(field, `.`) + ` not found in log event`, level: `warn`)
    }
}
").

Definition fix_timestamp_vrl : string := raw "
ts, err = parse_timestamp(._internal.timestamp,`%+`)
if err != null {
	log(`could not parse timestamp. err=` + err, rate_limit_secs: 0)
} else {
	._internal.timestamp = ts
}
".

Section outputs.
Context `{RangeOrder, UintOfFloat} (parse_url : string → option URL).

Notation made := (outcome made_sink).
Notation sink_tls o secrets op := (NewTls parse_url (Some (o : Output)) secrets op []).

(** ** Kafka *)

Definition defaultKafkaTopic : string := "topic".
Definition SASLMechanismPlain : string := "PLAIN".

Definition isTlsBrokers (o : option Kafka) : bool :=
  match o with Some o => forallb (λ b, HasPrefix b "tls:") (kafka_Brokers o) | None => true end.

(** The hosts of the URLs that can be parsed. *)
Definition brokers (o : Kafka) : string :=
  let brokerUrls := (if kafka_URL o != "" then [kafka_URL o] else []) ++ kafka_Brokers o in
  Join (omap (λ s, url_Host <$> parse_url s) brokerUrls) ",".

Fixpoint TrimLeft_slash (s : string) : string :=
  match s with String c s' => if Ascii.eqb c "/" then TrimLeft_slash s' else s | "" => "" end.

Definition topic (o : Kafka) : outcome string :=
  if kafka_Topic o != "" then Ret (kafka_Topic o)
  else
    url ← deref (parse_url (kafka_URL o));
    let topicName := TrimLeft_slash (url_Path url) in
    Ret (if topicName != "" then topicName else defaultKafkaTopic).

Definition kafkaTls (o : Output) (secrets : Secrets) (op : Options) : outcome (option TlsEnabled) :=
  NewTlsEnabled parse_url (Some o) secrets op
    (if bool_decide (is_Some (out_TLS (o_Spec o))) && isTlsBrokers (out_Kafka (o_Spec o))
     then [{| fo_Name := ExcludeInsecureSkipVerify; fo_Value := AnyString "" |}] else []).

Definition librdKafkaOptions (o : Output) : gmap string string :=
  let options : gmap string string :=
    match out_TLS (o_Spec o) with
    | Some tls =>
        if isTlsBrokers (out_Kafka (o_Spec o)) && otls_InsecureSkipVerify tls
        then {["enable.ssl.certificate.verification" := "false"]} else ∅
    | None => ∅
    end in
  match bt_MaxWrite (tuning_Base (o_tuning o)) with
  | Some q => <["message.max.bytes" := Itoa (Quantity_Value q)]> options
  | None => options
  end.

Definition sasl (spec : option KafkaAuthentication) : option Sasl :=
  match spec ⇀ ka_SASL with
  | Some saslAuth =>
      match sasl_Username saslAuth, sasl_Password saslAuth with
      | Some username, Some password => Some {|
          sasls_Enabled := true; sasls_Username := SecretFrom (Some username);
          sasls_Password := SecretFrom (Some password);
          sasls_Mechanism := if sasl_Mechanism saslAuth != "" then sasl_Mechanism saslAuth else SASLMechanismPlain |}
      | _, _ => None
      end
  | None => None
  end.

Definition kafka_New (id : string) (o : Output) (inputs : list string) (secrets : Secrets) (op : Options) : made :=
  let componentID := MakeID [id; "topic"] in
  spec ← deref (out_Kafka (o_Spec o));
  topic ← topic spec;
  tls ← kafkaTls o secrets op;
  let encoding := NewApiEncoding CodecTypeJSON in
  Ret (id,
       KKafka {|
         ks_Inputs := sort_strings [componentID]; ks_BootstrapServers := brokers spec;
         ks_Topic := internal_field componentID; ks_Compression := tuning_Compression (o_tuning o);
         ks_HealthCheck := Some {| hc_Enabled := false |};
         ks_Encoding := Some {| Codec := Codec encoding; TimestampFormat := "rfc3339"; ExceptFields := ExceptFields encoding |};
         ks_Batch := NewApiBatch (o_tuning o); ks_Buffer := NewApiBuffer (o_tuning o);
         ks_Sasl := sasl (kafka_Authentication spec); ks_TLS := tls; ks_LibrdKafka_Options := librdKafkaOptions o |},
       {[componentID := NewTemplateRemap inputs topic componentID]}).

(** ** Elasticsearch *)

Definition mergeEndpoints (es : Elasticsearch) : list string :=
  (if es_URL es != "" then [es_URL es] else []) ++ es_Endpoints es.

Definition apiVersionFrom (version : Z) : string :=
  if (version =? 6)%Z then ElasticsearchApiVersion6
  else if (version =? 7)%Z then ElasticsearchApiVersion7
  else ElasticsearchApiVersion8.

(** The request with the header of a token, and the authentication by name and password.
    Where the output has headers the header is also written in the map of the spec, which
    nothing reads afterwards. *)
Definition elasticsearchAuth (auth : option HTTPAuthentication) (r : option Request) (op : Options) :
    outcome (option Request * option HttpAuth) :=
  match auth with
  | None => Ret (r, None)
  | Some auth =>
      match ha_Token auth with
      | Some key =>
          token ← bearer_token key op;
          let r := default Request_zero r in
          Ret (Some (req_set_Headers r (<["Authorization" := "Bearer " +:+ token]> (req_Headers r))), None)
      | None =>
          match ha_Username auth, ha_Password auth with
          | Some username, Some password => Ret (r, Some {|
              auth_Strategy := HttpAuthStrategyBasic; auth_User := SecretFrom (Some username);
              auth_Password := SecretFrom (Some password); auth_Token := "" |})
          | _, _ => Ret (r, None)
          end
      end
  end.

(** The request with headers, if there are any. *)
Definition with_headers (headers : gmap string string) (r : option Request) : option Request :=
  if (size headers =? 0)%nat then r else Some (req_set_Headers (default Request_zero r) headers).

Definition elasticsearch_New (id : string) (o : Output) (inputs : list string) (secrets : Secrets) (op : Options) : made :=
  let componentID := MakeID [id; "index"] in
  es ← deref (out_Elasticsearch (o_Spec o));
  let addID := MakeID [id; "add_id"] in
  let '(tfs, inputs) := (if (es_Version es =? 6)%Z then ({[addID := remap_of add_id_vrl inputs]}, [addID])
                         else (∅, inputs) : Transforms * list string) in
  tls ← sink_tls o secrets op;
  auth ← elasticsearchAuth (es_Authentication es) (with_headers (es_Headers es) (NewApiRequest (o_tuning o))) op;
  Ret (id,
       KElasticsearch {|
         ess_Inputs := sort_strings [componentID]; ess_Endpoints := mergeEndpoints es;
         ess_IdKey := if (es_Version es =? 6)%Z then "_id" else "";
         ess_ApiVersion := apiVersionFrom (es_Version es);
         ess_Base := base_set_Request (tuned_base o (tuning_Compression (o_tuning o)) "" tls) auth.1;
         ess_Bulk := Some {| bulk_Action := BulkActionCreate; bulk_Index := internal_field componentID |};
         ess_Auth := auth.2 |},
       <[componentID := NewTemplateRemap inputs (es_Index es) componentID]> tfs).

(** ** AWS *)

Definition groupNameField : string := "cw_group_name".
Definition templatedInternalGroupNameField : string := internal_field groupNameField.
Definition CloudwatchDefaultMaxBytes : Z := 1048576.

Definition NormalizeStreamName (inputs : list string) : transform := remap_of (TrimSpace normalize_stream_vrl) inputs.

Definition cloudwatch_New (id : string) (o : Output) (inputs : list string) (secrets : Secrets) (op : Options) : made :=
  let componentID := MakeID [id; "normalize_streams"] in
  let groupNameID := MakeID [id; "group_name"] in
  cw ← deref (out_Cloudwatch (o_Spec o));
  auth ← aws_auth_New (out_Name (o_Spec o)) (cw_Authentication cw) op;
  tls ← sink_tls o secrets op;
  let compression := tuning_Compression (o_tuning o) in
  Ret (id,
       KAwsCloudwatchLogs {|
         cwl_Inputs := sort_strings [groupNameID]; cwl_Region := cw_Region cw; cwl_Endpoint := cw_URL cw; cwl_Auth := auth;
         cwl_GroupName := templatedInternalGroupNameField; cwl_StreamName := "{{ stream_name }}";
         cwl_Base := base_set_Batch (tuned_base o (if compression == "" then CompressionTypeNone else compression) CodecTypeJSON tls)
           (capped_batch CloudwatchDefaultMaxBytes (NewApiBatch (o_tuning o)));
         cwl_HealthCheck := {| hc_Enabled := false |} |},
       <[groupNameID := NewTemplateRemap [componentID] (cw_GroupName cw) groupNameField]>
         {[componentID := NormalizeStreamName inputs]}).

Definition s3_New (id : string) (o : Output) (inputs : list string) (secrets : Secrets) (op : Options) : made :=
  let keyPrefixID := MakeID [id; "key_prefix"] in
  s3 ← deref (out_S3 (o_Spec o));
  auth ← aws_auth_New (out_Name (o_Spec o)) (s3_Authentication s3) op;
  tls ← sink_tls o secrets op;
  Ret (id,
       KAwsS3 {|
         as3_Inputs := sort_strings [keyPrefixID]; as3_Region := s3_Region s3; as3_Bucket := s3_Bucket s3;
         as3_KeyPrefix := internal_field keyPrefixID; as3_Endpoint := s3_URL s3; as3_Auth := auth;
         as3_Base := tuned_base o (tuning_Compression (o_tuning o)) CodecTypeJSON tls;
         as3_HealthCheck := {| hc_Enabled := false |} |},
       {[keyPrefixID := NewTemplateRemap inputs (s3_KeyPrefix s3) keyPrefixID]}).

(** ** Google Cloud Logging *)

Definition DefaultSeverityKey : string := "level".

Definition gcl_auth (spec : option GoogleCloudLoggingAuthentication) : string :=
  match spec ⇀ gcla_Credentials with
  | Some c => helpers_SecretPath (sr_SecretName c) (sr_Key c) [Verb_s]
  | None => ""
  end.

Definition NormalizeSeverity (inputs : list string) : transform := remap_of normalize_severity_vrl inputs.

(** No sink at all without the section.  [LogDestination] sets the field of the type of the
    identifier. *)
Definition gcl_New (id : string) (o : Output) (inputs : list string) (secrets : Secrets) (op : Options) :
    outcome (option made_sink) :=
  match out_GoogleCloudLogging (o_Spec o) with
  | None => Ret None
  | Some g =>
      let componentID := MakeID [id; "log_id"] in
      let gclSeverityID := MakeID [id; "normalize_severity"] in
      tls ← sink_tls o secrets op;
      let destination ty := if gcli_Type (gcl_ID g) == ty then gcli_Value (gcl_ID g) else "" in
      Ret (Some (id,
        KGcpStackdriverLogs {|
          gcp_Inputs := sort_strings [gclSeverityID];
          gcp_BillingAccountId := destination GoogleCloudLoggingIdTypeBillingAccount;
          gcp_FolderId := destination GoogleCloudLoggingIdTypeFolder;
          gcp_ProjectId := destination GoogleCloudLoggingIdTypeProject;
          gcp_OrganizationId := destination GoogleCloudLoggingIdTypeOrganization;
          gcp_CredentialsPath := gcl_auth (gcl_Authentication g); gcp_LogId := internal_field componentID;
          gcp_SeverityKey := DefaultSeverityKey;
          gcp_Resource := map_of_assignments [("type", "k8s_node"); ("node_name", "{{hostname}}")];
          gcp_Base := tuned_base o "" "" tls |},
        <[componentID := NewTemplateRemap inputs (gcl_LogId g) componentID]>
          {[gclSeverityID := NormalizeSeverity [componentID]]}))
  end.

(** ** Splunk *)

Definition hasIndexKey (s : option Splunk) : bool :=
  match s with Some s => splunk_Index s != "" | None => false end.

Definition defaultToken (o : Splunk) : string := SecretFrom (splunk_Authentication o ⇀ splunka_Token).

Definition fixTimestampFormat (inputs : list string) : transform := remap_of fix_timestamp_vrl inputs.

(** The program of the metadata. *)
Definition splunk_program (s : Splunk) : string :=
  (if splunk_Source s != "" then "._internal.splunk.source = " +:+ TransformUserTemplateToVRL (splunk_Source s)
   else sourceTmpl)
  +:+ (if splunk_PayloadKey s != "" then
         let quotedPathArray := path_array (splunk_PayloadKey s) in
         if splunk_SourceType s != "" then
           payloadKeysourceTypeTmpl quotedPathArray (TransformUserTemplateToVRL (splunk_SourceType s))
         else payloadKeyTmpl quotedPathArray
       else LF +:+ "._internal.splunk.sourcetype = " +:+ DQ +:+ "_json" +:+ DQ +:+ LF)
  +:+ (if (length (splunk_IndexedFields s) =? 0)%nat then ""
       else indexedFieldsRemap (GenerateQuotedPathSegmentArrayStr (splunk_IndexedFields s)).1).

Definition splunk_New (id : string) (o : Output) (inputs : list string) (secrets : Secrets) (op : Options) : made :=
  let timestampID := MakeID [id; "timestamp"] in
  let splunkIndexID := MakeID [id; "splunk_index"] in
  let splunkMetadataID := MakeID [id; "metadata"] in
  s ← deref (out_Splunk (o_Spec o));
  tls ← sink_tls o secrets op;
  let indexed := hasIndexKey (out_Splunk (o_Spec o)) in
  let tfs : Transforms := if indexed then {[splunkIndexID := NewTemplateRemap [timestampID] (splunk_Index s) splunkIndexID]} else ∅ in
  let inputID := if indexed then splunkIndexID else timestampID in
  Ret (id,
       KSplunkHecLogs {|
         shl_Inputs := sort_strings [splunkMetadataID]; shl_Endpoint := url_URL (splunk_URLSpec s);
         shl_Index := if indexed then "{{ ._internal." +:+ splunkIndexID +:+ " }}" else "";
         shl_DefaultToken := defaultToken s; shl_Source := "{{ ._internal.splunk.source }}";
         shl_SourceType := "{{ ._internal.splunk.sourcetype }}"; shl_HostKey := "._internal.hostname";
         shl_TimestampKey := "._internal.timestamp";
         shl_IndexedFields := if (length (splunk_IndexedFields s) =? 0)%nat then []
           else (GenerateQuotedPathSegmentArrayStr (splunk_IndexedFields s)).2;
         shl_Base := tuned_base o (tuning_Compression (o_tuning o)) CodecTypeJSON tls |},
       <[timestampID := fixTimestampFormat inputs]>
         (<[splunkMetadataID := remap_of (splunk_program s) [inputID]]> tfs)).

(** ** HTTP *)

Definition framing (h : HTTP) : option Framing :=
  if http_Format h == HTTPFormatNDJSON then Some {| framing_Method := FramingMethodNewlineDelimited |} else None.

Definition method (h : option HTTP) : string :=
  match h with
  | Some h => if http_Method h == "" then MethodTypePost else ToLower (http_Method h)
  | None => MethodTypePost
  end.

Definition http_request (h : HTTP) (r : option Request) : option Request :=
  let r := if (http_Timeout h =? 0)%Z then r
           else
             let r := default Request_zero r in
             Some {| RetryInitialBackoffSecs := RetryInitialBackoffSecs r; RetryMaxDurationSec := RetryMaxDurationSec r;
                     TimeoutSecs := to_uint64 (http_Timeout h); req_Headers := req_Headers r |} in
  with_headers (http_Headers h) r.

Definition proxy_of (url : string) : option Proxy :=
  if url != "" then Some {| proxy_Enabled := true; proxy_Http := url; proxy_Https := url |} else None.

Definition http_New (id : string) (o : Output) (inputs : list string) (secrets : Secrets) (op : Options) : made :=
  h ← deref (out_HTTP (o_Spec o));
  auth ← NewHttpAuth (http_Authentication h) op;
  tls ← sink_tls o secrets op;
  Ret (id,
       KHttp {|
         https_Inputs := sort_strings inputs; https_URI := url_URL (http_URLSpec h); https_Method := method (Some h);
         https_Base := base_set_Request (tuned_base o (tuning_Compression (o_tuning o)) CodecTypeJSON tls)
           (http_request h (NewApiRequest (o_tuning o)));
         https_Framing := framing h; https_Auth := auth; https_Proxy := proxy_of (http_ProxyURL h) |},
       ∅).

(** ** Azure *)

Definition azureCredentialKindWorkloadIdentity : string := "workload_identity".
Definition azureCredentialKindClientSecret : string := "client_secret_credential".
Definition AzureDefaultMaxBytes : Z := 1000000.

Definition RemapReservedKeywords (inputs : list string) : transform := remap_of reserved_keywords_vrl inputs.

Definition azure_auth (azli : AzureLogsIngestion) : option AzureLogsIngestionAuth :=
  match ali_Authentication azli with
  | None => None
  | Some auth =>
      if ala_Type auth == AzureLogsIngestionAuthTypeWorkloadIdentity then
        let w := ala_WorkloadIdentity auth in
        Some {|
          alia_AzureCredentialKind := azureCredentialKindWorkloadIdentity;
          alia_AzureTenantId := ""; alia_AzureClientId := ""; alia_AzureClientSecret := "";
          alia_TenantId := match w with Some w => alwi_TenantId w | None => "" end;
          alia_ClientId := match w with Some w => alwi_ClientId w | None => "" end;
          alia_TokenFilePath :=
            match w ⇀ alwi_Token with
            | Some token =>
                if bt_From token == BearerTokenFromSecret then
                  match bt_Secret token with
                  | Some s => AwsAuth.SecretPath (btsk_Name s) (btsk_Key s)
                  | None => ""
                  end
                else AwsAuth.ServiceAccountBasePath AwsAuth.TokenKey
            | None => ""
            end |}
      else
        let c := ala_ClientSecret auth in
        Some {|
          alia_AzureCredentialKind := azureCredentialKindClientSecret;
          alia_AzureTenantId := match c with Some c => alcs_TenantId c | None => "" end;
          alia_AzureClientId := match c with Some c => alcs_ClientId c | None => "" end;
          alia_AzureClientSecret := SecretFrom (c ⇀ alcs_Secret);
          alia_TenantId := ""; alia_ClientId := ""; alia_TokenFilePath := "" |}
  end.

Definition azurelogsingestion_New (id : string) (o : Output) (inputs : list string) (secrets : Secrets) (op : Options) : made :=
  let remapReservedKeywordsID := MakeID [id; "remap_reserved_keywords"] in
  azli ← deref (out_AzureLogsIngestion (o_Spec o));
  tls ← sink_tls o secrets op;
  Ret (id,
       KAzureLogsIngestion {|
         alis_Inputs := sort_strings [remapReservedKeywordsID]; alis_Endpoint := url_URL (ali_URLSpec azli);
         alis_DcrImmutableId := ali_DcrImmutableId azli; alis_StreamName := ali_StreamName azli;
         alis_TokenScope := ali_TokenScope azli; alis_TimestampField := ali_TimestampField azli;
         alis_Auth := azure_auth azli;
         alis_Base := base_set_Batch (tuned_base o "" "" tls) (capped_batch AzureDefaultMaxBytes (NewApiBatch (o_tuning o))) |},
       {[remapReservedKeywordsID := RemapReservedKeywords inputs]}).

Definition azuremonitor_New (id : string) (o : Output) (inputs : list string) (secrets : Secrets) (op : Options) : made :=
  azm ← deref (out_AzureMonitor (o_Spec o));
  tls ← sink_tls o secrets op;
  Ret (id,
       KAzureMonitorLogs {|
         aml_Inputs := sort_strings inputs; aml_SharedKey := SecretFrom (am_Authentication azm ⇀ ama_SharedKey);
         aml_CustomerId := am_CustomerId azm; aml_LogType := am_LogType azm;
         aml_AzureResourceId := am_AzureResourceId azm; aml_Host := am_Host azm; aml_Base := tuned_base o "" "" tls |},
       ∅).
End outputs.
