(* ===== verification/SyslogOutput.v ===== *)
(** * Syslog ([internal/generator/vector/output/syslog])

    The file [syslog.go]: a transform that fills the fields of a Syslog message from the
    spec, with defaults by the kind of log, and a socket. *)

From S2P Require Import Prelude GoStrings Regex ApiCommon ApiInputs ApiOutputs ApiForwarder Sets ObsResources ValidateOutputs Toml Transforms.
From S2P Require Import VrlText Template VectorHelpers Adapters Tls SinkTypes Sources OutputCommon Outputs.

(** ** Texts of programs *)

Definition vrlKeySyslogFacility : string := "._syslog.facility".
Definition vrlKeySyslogSeverity : string := "._syslog.severity".
Definition vrlKeySyslogProcID : string := "._syslog.proc_id".
Definition vrlKeySyslogAppName : string := "._syslog.app_name".
Definition vrlKeySyslogMsgID : string := "._syslog.msg_id".

Definition defProcIdRFC3164 : string := "to_string(._syslog.proc_id)
if is_empty(strip_whitespace(._syslog.proc_id)) { del(._syslog.proc_id) }
".
Definition defAppNameRFC3164 : string := raw "to_string!(._syslog.app_name || ``)".
Definition nodeAppNameRFC5424 : string := raw "._syslog.app_name = to_string!(.systemd.u.SYSLOG_IDENTIFIER || `-`)".
Definition nodeAppNameRFC3164 : string := raw "._syslog.app_name = to_string!(.systemd.u.SYSLOG_IDENTIFIER || ``)".
Definition nodeProcIdRFC3164 : string := raw "._syslog.proc_id = to_string!(.systemd.t.PID || ``)".
Definition nodeProcIdRFC5424 : string := raw "._syslog.proc_id = to_string!(.systemd.t.PID || `-`)".
Definition containerAppNameRFC5424 : string := raw "._syslog.app_name, err = join([.kubernetes.namespace_name, .kubernetes.pod_name, .kubernetes.container_name], `_`)
if err != null {
  log(`K8s metadata (namespace, pod, or container) missing; syslog.app_name set to '-'`, level: `error`)
  ._syslog.app_name = `-`
}
".
Definition containerAppNameRFC3164 : string := raw "._syslog.app_name, err = join([.kubernetes.namespace_name, .kubernetes.pod_name, .kubernetes.container_name], ``)
if err != null {
  log(`K8s metadata (namespace, pod, or container) missing: unable to calculate syslog.app_name (TAG)`, level: `error`)
} else {
  #Remove non-alphanumeric characters
  ._syslog.app_name = replace(._syslog.app_name, r'[^a-zA-Z0-9]', ``)
  #Truncate the sanitized tag to 32 characters
  ._syslog.app_name = truncate(._syslog.app_name, 32)
}
".
Definition containerFacility : string := raw "._syslog.facility = `user`".
Definition containerSeverity : string := "._syslog.severity = .level".
Definition containerProcId : string := raw "._syslog.proc_id = to_string!(.kubernetes.pod_id || ``)".
Definition auditAppName : string := "._syslog.app_name = .log_source".
Definition auditSeverity : string := raw "._syslog.severity = `info`".
Definition auditFacility : string := raw "._syslog.facility = `security`".
Definition auditProcId : string := raw "._syslog.proc_id = to_string!(.auditID || `-`)".
Definition msgId : string := "._syslog.msg_id = .log_source".
Definition isInfrastructureNodeLogCond : string := raw ".log_type == `infrastructure` && .log_source == `node`".
Definition isContainerLogCond : string := raw ".log_source == `container`".
Definition isAuditLogCond : string := raw ".log_type == `audit`".
Definition facilityConversionVRL : string := raw "
# try to convert syslog code to the facility, severity names (e.g. 4 -> `warning`, `4` -> `warning`  )
if exists(._syslog.facility) && !is_null(._syslog.facility) {
  _, err = to_syslog_facility_code(._syslog.facility)
  if err != null {
    # Field is not a valid name — try treating it as a code (int or string int)
    code, err2 = to_int(._syslog.facility)
    if err2 == null {
      facility, err3 = to_syslog_facility(code)
      if err3 == null {
        ._syslog.facility = facility
      } else {
        log(`Invalid syslog facility code`, level: `warn`)
      }
    } else {
      log(`Invalid syslog facility value`, level: `warn`)
    }
  }
  # else: already a valid name, leave it as-is
}".
Definition severityNormalizationInfallibleVRL : string := raw "
  ._syslog.severity = downcase(._syslog.severity)
  if ._syslog.severity == `emergency` { ._syslog.severity = `emerg` } else if ._syslog.severity == `critical` { ._syslog.severity = `crit` } else if ._syslog.severity == `informational` { ._syslog.severity = `info` }".
Definition severityNormalizationFallibleVRL : string := raw "
  if is_string(._syslog.severity) {
    ._syslog.severity = downcase(._syslog.severity) ?? ._syslog.severity
    if ._syslog.severity == `emergency` { ._syslog.severity = `emerg` } else if ._syslog.severity == `critical` { ._syslog.severity = `crit` } else if ._syslog.severity == `informational` { ._syslog.severity = `info` }
  }".

(** The formats of the source as functions. *)
Definition severityValidationVRL (normalization : string) : string := "
if exists(._syslog.severity) && !is_null(._syslog.severity) {
" +:+ normalization +:+ (raw "
  _, err = to_syslog_severity(._syslog.severity)
  if err != null {
    # Field is not a valid name — try treating it as a code (int or string int)
    code, err2 = to_int(._syslog.severity)
    if err2 == null {
      severity, err3 = to_syslog_level(code)
      if err3 == null {
        ._syslog.severity = severity
      } else {
        log(`Invalid syslog severity code`, level: `warn`)
      }
    } else {
      log(`Invalid syslog severity value`, level: `warn`)
    }
  }
  # else: already a valid name, leave it as-is
}").
Definition payloadKeyConfiguredVRL (key : string) : string := (raw "
# Payload key configured, going to use the payload key for .message field
payload_key = `") +:+ key +:+ (raw "`
if starts_with(payload_key, `.`) {
  payload_key = slice!(payload_key, 1)
}
path = split(payload_key, `.`)
value, err = get(., path)
if err == null && value != null {
  .message = value
} else {
  excluded_fields = [`_internal`, `_syslog`]
  temp = .
  for_each(excluded_fields) -> |_index, field| {
    temp = remove(temp, [field]) ?? temp
  }
  .message = temp
}").
Definition payloadKeyDefaultVRL : string := raw "
# Payload key NOT configured, full payload set to .message field (skipping internal objects)
excluded_fields = [`_internal`, `_syslog`]
temp = .
for_each(excluded_fields) -> |_index, field| {
  temp = remove(temp, [field]) ?? temp
}
.message = temp".
Definition kubernetesMinimalEnrichmentVRL : string := raw "
# KubernetesMinimal
# Adds namespace_name, pod_name, and container_name to the beginning of the message body (e.g. namespace_name=myproject, container_name=server, pod_name=pod-123, message={`foo`:`bar`}).
# This may result in the message body being an invalid JSON structure.
# Fields are only added when present and non-empty (e.g. audit/journald logs have no Kubernetes metadata).

parts = []

if exists(.kubernetes.namespace_name) && ((to_string(.kubernetes.namespace_name) ?? ``) != ``) {
  parts = push(parts, `namespace_name=` + to_string!(.kubernetes.namespace_name))
}

if exists(.kubernetes.container_name) && ((to_string(.kubernetes.container_name) ?? ``) != ``) {
  parts = push(parts, `container_name=` + to_string!(.kubernetes.container_name))
}

if exists(.kubernetes.pod_name) && ((to_string(.kubernetes.pod_name) ?? ``) != ``) {
  parts = push(parts, `pod_name=` + to_string!(.kubernetes.pod_name))
}

msg_value = to_string(.message) ?? encode_json(.message)

if length(parts) > 0 {
  parts = push(parts, `message=` + msg_value)
  .message = join!(parts, `, `)
} else {
  .message = msg_value
}".

(** ** Defaults *)

Record defaultRule := {
  dr_cond : string;
  dr_appName : string;
  dr_procId : string;
  dr_severity : string;
  dr_facility : string;
  dr_msgId : string;
}.

Definition defaultIfEmpty (val defaultVal : string) : string := if val == "" then defaultVal else "".

Definition buildRFC3164Rules (o : ApiOutputs.Syslog) : list defaultRule :=
  (if (syslog_ProcId o == "") || (syslog_AppName o == "") then
     [{| dr_cond := isInfrastructureNodeLogCond;
         dr_appName := defaultIfEmpty (syslog_AppName o) nodeAppNameRFC3164;
         dr_procId := defaultIfEmpty (syslog_ProcId o) nodeProcIdRFC3164;
         dr_severity := ""; dr_facility := ""; dr_msgId := "" |}]
   else [])
  ++ (if (syslog_AppName o == "") || (syslog_Severity o == "") || (syslog_Facility o == "") then
        [{| dr_cond := isContainerLogCond;
            dr_appName := defaultIfEmpty (syslog_AppName o) containerAppNameRFC3164;
            dr_severity := defaultIfEmpty (syslog_Severity o) containerSeverity;
            dr_facility := defaultIfEmpty (syslog_Facility o) containerFacility;
            dr_procId := ""; dr_msgId := "" |};
         {| dr_cond := isAuditLogCond;
            dr_appName := defaultIfEmpty (syslog_AppName o) auditAppName;
            dr_severity := defaultIfEmpty (syslog_Severity o) auditSeverity;
            dr_facility := defaultIfEmpty (syslog_Facility o) auditFacility;
            dr_procId := ""; dr_msgId := "" |}]
      else []).

Definition buildRFC5424Rules (o : ApiOutputs.Syslog) : list defaultRule :=
  (if syslog_MsgId o == "" then
     [{| dr_cond := ""; dr_appName := ""; dr_procId := ""; dr_severity := ""; dr_facility := ""; dr_msgId := msgId |}]
   else [])
  ++ (if (syslog_ProcId o == "") || (syslog_AppName o == "") then
        [{| dr_cond := isInfrastructureNodeLogCond;
            dr_appName := defaultIfEmpty (syslog_AppName o) nodeAppNameRFC5424;
            dr_procId := defaultIfEmpty (syslog_ProcId o) nodeProcIdRFC5424;
            dr_severity := ""; dr_facility := ""; dr_msgId := "" |}]
      else [])
  ++ (if (syslog_AppName o == "") || (syslog_ProcId o == "") || (syslog_Severity o == "") || (syslog_Facility o == "") then
        [{| dr_cond := isContainerLogCond;
            dr_appName := defaultIfEmpty (syslog_AppName o) containerAppNameRFC5424;
            dr_procId := defaultIfEmpty (syslog_ProcId o) containerProcId;
            dr_severity := defaultIfEmpty (syslog_Severity o) containerSeverity;
            dr_facility := defaultIfEmpty (syslog_Facility o) containerFacility; dr_msgId := "" |};
         {| dr_cond := isAuditLogCond;
            dr_appName := defaultIfEmpty (syslog_AppName o) auditAppName;
            dr_procId := defaultIfEmpty (syslog_ProcId o) auditProcId;
            dr_severity := defaultIfEmpty (syslog_Severity o) auditSeverity;
            dr_facility := defaultIfEmpty (syslog_Facility o) auditFacility; dr_msgId := "" |}]
      else []).

Definition rules_of (o : ApiOutputs.Syslog) : list defaultRule :=
  if syslog_RFC o == SyslogRFC3164 then buildRFC3164Rules o
  else if syslog_RFC o == SyslogRFC5424 then buildRFC5424Rules o
  else [].

Definition rule_text (rule : defaultRule) : string :=
  (if dr_cond rule != "" then "if " +:+ dr_cond rule +:+ " {" +:+ LF else "")
  +:+ Join ((λ s, if s != "" then s +:+ LF else "") <$>
        [dr_appName rule; dr_procId rule; dr_severity rule; dr_facility rule; dr_msgId rule]) ""
  +:+ (if dr_cond rule != "" then "}" +:+ LF else "").

Definition buildDefaults (o : option ApiOutputs.Syslog) : string :=
  match o with
  | None => ""
  | Some o => Join (rule_text <$> rules_of o) ""
  end.

(** ** The transform *)

Definition normalizeSeverity (s : string) : string :=
  let lower := ToLower s in
  if lower == "emergency" then "emerg"
  else if lower == "critical" then "crit"
  else if lower == "informational" then "info"
  else lower.

(** [plKey[1 : len(plKey)-1]], out of bounds for one byte. *)
Definition PayloadKey (plKey : string) : outcome string :=
  if plKey == "" then Ret ""
  else if (String.length plKey <? 2)%nat then Panic "slice bounds out of range"
  else Ret (String.substring 1 (String.length plKey - 2) plKey).

Section syslog.
Context `{RangeOrder}.

(** [appendField]. *)
Definition appendField (field userValue defaultValue : string) : list string :=
  let vrl := if userValue != "" then TransformUserTemplateToVRL userValue else defaultValue in
  if vrl != "" then [field +:+ " = " +:+ vrl] else [].

Definition isDynamicSeverity (o : ApiOutputs.Syslog) : bool := Contains (syslog_Severity o) "{".

Definition severity_of (o : ApiOutputs.Syslog) : string :=
  if negb (isDynamicSeverity o) && (syslog_Severity o != "") then normalizeSeverity (syslog_Severity o)
  else syslog_Severity o.

(** The assignments of the fields the user gives, and of their defaults. *)
Definition syslog_fields (o : ApiOutputs.Syslog) : list string :=
  appendField vrlKeySyslogFacility (syslog_Facility o) ""
  ++ appendField vrlKeySyslogSeverity (severity_of o) ""
  ++ (if syslog_RFC o == SyslogRFC3164 then
        appendField vrlKeySyslogProcID (syslog_ProcId o) defProcIdRFC3164
        ++ appendField vrlKeySyslogAppName (syslog_AppName o) defAppNameRFC3164
      else
        appendField vrlKeySyslogProcID (syslog_ProcId o) ""
        ++ appendField vrlKeySyslogAppName (syslog_AppName o) ""
        ++ appendField vrlKeySyslogMsgID (syslog_MsgId o) "").

Definition severity_normalization (o : ApiOutputs.Syslog) : string :=
  if isDynamicSeverity o then severityNormalizationInfallibleVRL
  else if severity_of o == "" then severityNormalizationFallibleVRL
  else "".

Definition payload_text (key : string) : string :=
  if key != "" then payloadKeyConfiguredVRL (ReplaceAll key dquote ("\" +:+ DQ)) else payloadKeyDefaultVRL.

Definition parseEncoding (inputs : list string) (o : ApiOutputs.Syslog) : outcome transform :=
  key ← PayloadKey (syslog_PayloadKey o);
  Ret (remap_of (Join
    ([LF +:+ "._syslog = {}"; buildDefaults (Some o)] ++ syslog_fields o
     ++ [facilityConversionVRL; severityValidationVRL (severity_normalization o); payload_text key]
     ++ (if syslog_Enrichment o == EnrichmentTypeKubernetesMinimal then [kubernetesMinimalEnrichmentVRL] else [])) LF) inputs).

(** ** The sink *)

Definition socketMode (urlScheme : string) : string :=
  let scheme := ToLower urlScheme in
  if (scheme == "tcp") || (scheme == "tls") then SocketModeTCP
  else if scheme == "udp" then SocketModeUDP
  else scheme.

Definition buildSocketEncoding (o : ApiOutputs.Syslog) : SocketEncoding := {|
  se_Codec := "syslog";
  se_Syslog := Some {|
    sec_RFC := ToLower (syslog_RFC o); sec_Facility := "._syslog.facility"; sec_Severity := "._syslog.severity";
    sec_AppName := "._syslog.app_name"; sec_ProcID := "._syslog.proc_id";
    sec_MsgID := if syslog_RFC o == SyslogRFC5424 then "._syslog.msg_id" else "" |} |}.

Definition syslog_New (parse_url : string → option URL) (id : string) (o : Output) (inputs : list string)
    (secrets : Secrets) (op : Options) : outcome made_sink :=
  let parseEncodingID := MakeID [id; "parse_encoding"] in
  s ← deref (out_Syslog (o_Spec o));
  parse ← parseEncoding inputs s;
  u ← deref (parse_url (syslog_URL s));
  let mode := socketMode (url_Scheme u) in
  tls ← NewTlsEnabled parse_url (Some o) secrets op [];
  Ret (id,
       KSocket {|
         sock_Inputs := sort_strings [parseEncodingID]; sock_Mode := mode; sock_Address := url_Host u;
         sock_Keepalive := if mode == SocketModeTCP then Some {| ka_TimeSecs := 60 |} else None;
         sock_Encoding := Some (buildSocketEncoding s); sock_TLS := tls; sock_Buffer := NewApiBuffer (o_tuning o) |},
       {[parseEncodingID := parse]}).
End syslog.
