(* ===== verification/LokiOutput.v ===== *)
(** * Loki ([internal/generator/vector/output/loki])

    The file [loki.go]: the labels of the streams and the sink. *)

From S2P Require Import Prelude GoStrings Regex ApiCommon ApiInputs ApiOutputs ApiForwarder Sets ObsResources ValidateOutputs Toml Transforms.
From S2P Require Import VrlText Template VectorHelpers Adapters Tls SinkTypes Sources OutputCommon Outputs.

Definition logType : string := "log_type".
Definition lokiLabelKubernetesNamespaceName : string := "kubernetes.namespace_name".
Definition lokiLabelKubernetesPodName : string := "kubernetes.pod_name".
Definition lokiLabelKubernetesHost : string := "kubernetes.host".
Definition lokiLabelKubernetesContainerName : string := "kubernetes.container_name".
Definition podNamespace : string := "kubernetes.namespace_name".
Definition otellogType : string := "openshift.log_type".
Definition otellokiLabelKubernetesNamespaceName : string := "k8s.namespace_name".
Definition otellokiLabelKubernetesPodName : string := "k8s.pod_name".
Definition otellokiLabelKubernetesContainerName : string := "k8s.container_name".
Definition otellokiLabelKubernetesNodeName : string := "k8s.node_name".

Definition DefaultLabelKeys : list string :=
  [logType; lokiLabelKubernetesNamespaceName; lokiLabelKubernetesPodName; lokiLabelKubernetesContainerName;
   otellogType; otellokiLabelKubernetesNamespaceName; otellokiLabelKubernetesPodName;
   otellokiLabelKubernetesContainerName].

Definition containerLabels : list string :=
  [lokiLabelKubernetesNamespaceName; lokiLabelKubernetesPodName; lokiLabelKubernetesContainerName].

Definition requiredLabelKeys : list string := [otellokiLabelKubernetesNodeName; lokiLabelKubernetesHost].

Definition viaqOtelLabelMap : gmap string string := map_of_assignments
  [(logType, otellogType); (lokiLabelKubernetesNamespaceName, otellokiLabelKubernetesNamespaceName);
   (lokiLabelKubernetesPodName, otellokiLabelKubernetesPodName);
   (lokiLabelKubernetesContainerName, otellokiLabelKubernetesContainerName)].

(** ** Labels *)

Definition addOtelEquivalentLabels (customLabelKeys : list string) : list string :=
  omap (λ label, viaqOtelLabelMap !! label) customLabelKeys.

(** The value of a label that is not the field of its key, if there is one. *)
Definition generateCustomLabelValues (value : string) : string :=
  let field labelVal := "{{" +:+ labelVal +:+ "}}" in
  if value == otellogType then field logType
  else if value == otellokiLabelKubernetesContainerName then field lokiLabelKubernetesContainerName
  else if (value == lokiLabelKubernetesNamespaceName) || (value == otellokiLabelKubernetesNamespaceName) then field podNamespace
  else if value == otellokiLabelKubernetesPodName then field lokiLabelKubernetesPodName
  else if (value == lokiLabelKubernetesHost) || (value == otellokiLabelKubernetesNodeName) then "${VECTOR_SELF_NODE_NAME}"
  else "".

Definition label_key_byte (c : ascii) : string := if in_string c "/." then "_" else String c "".

Definition formatLokiLabelValue (value : string) : string :=
  let value :=
    if HasPrefix value "kubernetes.labels." || HasPrefix value "kubernetes.namespace_labels." then
      match cut value "labels." with
      | Some (before, after) => before +:+ "labels." +:+ Quote (map_bytes label_key_byte after)
      | None => value
      end
    else value in
  "{{" +:+ value +:+ "}}".

Definition label_name_byte (c : ascii) : string := if in_string c "./\-" then "_" else String c "".

(** The name of the label of a key. *)
Definition label_name (k : string) : string := map_bytes label_name_byte k.

(** Its value: the custom one replaces the field. *)
Definition label_value (k : string) : string :=
  let val := generateCustomLabelValues k in
  if val != "" then val else formatLokiLabelValue k.

Section labels.
Context `{RangeOrder}.

Definition lokiLabelKeys (l : option Loki) : list string :=
  let keys :=
    match l with
    | Some l =>
        if (length (loki_LabelKeys l) =? 0)%nat then NewString DefaultLabelKeys
        else Insert (NewString (loki_LabelKeys l)) (addOtelEquivalentLabels (loki_LabelKeys l))
    | None => NewString DefaultLabelKeys
    end in
  List (Insert keys requiredLabelKeys).

(** A label of a later key takes the place of one of the same name. *)
Definition lokiLabels (lo : option Loki) : gmap string string :=
  foldl (λ ls k, <[label_name k := label_value k]> ls) ∅ (lokiLabelKeys lo).
End labels.

(** ** Transforms *)

Definition remapLabelsVrl (labels : list string) : string :=
  Join ((λ v, LF +:+ "if !exists(." +:+ v +:+ ") {" +:+ LF +:+ "  ." +:+ v +:+ " = " +:+ DQ +:+ DQ +:+ LF +:+ "}") <$> labels) "".

Definition RemapLabels (inputs : list string) : transform := remap_of (remapLabelsVrl containerLabels) inputs.
Definition CleanupFields (inputs : list string) : transform := remap_of "del(.tag)" inputs.

Definition hasTenantKey (l : option Loki) : bool :=
  match l with Some l => loki_TenantKey l != "" | None => false end.

Section loki.
Context `{RangeOrder, UintOfFloat} (parse_url : string → option URL).

Definition loki_New (id : string) (o : Output) (inputs : list string) (secrets : Secrets) (op : Options) :
    outcome made_sink :=
  let componentID := MakeID [id; "remap"] in
  let remapLabelID := MakeID [id; "remap_label"] in
  let lokiTenantID := MakeID [id; "loki_tenant"] in
  loki ← deref (out_Loki (o_Spec o));
  auth ← NewHttpAuth (loki_Authentication loki) op;
  tls ← NewTls parse_url (Some o) secrets op [];
  let tenant := hasTenantKey (out_Loki (o_Spec o)) in
  let tfs : Transforms := <[remapLabelID := RemapLabels [componentID]]> {[componentID := CleanupFields inputs]} in
  Ret (id,
       KLoki {|
         ls_Inputs := if tenant then [lokiTenantID] else sort_strings [remapLabelID];
         ls_Endpoint := url_URL (loki_URLSpec loki); ls_OutOfOrderAction := LokiOutOfOrderActionAccept;
         ls_TenantId := if tenant then internal_field lokiTenantID else "";
         ls_Base := tuned_base o (tuning_Compression (o_tuning o)) CodecTypeJSON tls;
         ls_HealthCheck := Some {| hc_Enabled := false |}; ls_Auth := auth; ls_Proxy := proxy_of (loki_ProxyURL loki);
         ls_Labels := lokiLabels (out_Loki (o_Spec o)) |},
       if tenant then <[lokiTenantID := NewTemplateRemap [remapLabelID] (loki_TenantKey loki) lokiTenantID]> tfs else tfs).
End loki.
