(* ===== verification/OtlpOutput.v ===== *)
(** * OTLP ([internal/generator/vector/output/otlp])

    The files [otlp.go], [transform.go] and [group_by.go]: the events of an output are
    routed by their source, made into resources and records by one transform per source,
    and grouped again. *)

From S2P Require Import Prelude GoStrings Regex ApiCommon ApiInputs ApiOutputs ApiForwarder Sets ObsResources ValidateOutputs Toml Transforms.
From S2P Require Import VrlText VectorHelpers Adapters Tls SinkTypes Sources OutputCommon Outputs.

(** ** Texts of programs *)

Definition BaseResourceAttributes : string := raw "
# Create base resource attributes
resource.attributes = []
resource.attributes = append(resource.attributes,
  [
    {`key`: `openshift.cluster.uid`, `value`: {`stringValue`: .openshift.cluster_id}},
    {`key`: `openshift.log.source`, `value`: {`stringValue`: .log_source}},
    {`key`: `openshift.log.type`, `value`: {`stringValue`: .log_type}},
    {`key`: `k8s.node.name`, `value`: {`stringValue`: .hostname}}
  ]
)
if exists(.openshift.labels) {for_each(object!(.openshift.labels)) -> |key,value| {
    resource.attributes = append(resource.attributes,
        [{`key`: `openshift.label.` + key, `value`: {`stringValue`: value}}]
    )
}}
".
Definition ContainerResourceAttributes : string := raw "
resource.attributes = append( resource.attributes,
  [
    {`key`: `k8s.pod.name`, `value`: {`stringValue`: .kubernetes.pod_name}},
	{`key`: `k8s.pod.uid`, `value`: {`stringValue`: .kubernetes.pod_id}},
    {`key`: `k8s.container.name`, `value`: {`stringValue`: .kubernetes.container_name}},
    {`key`: `k8s.namespace.name`, `value`: {`stringValue`: .kubernetes.namespace_name}}
  ]
)
# Use original (non-dedotted) labels to preserve keys containing dots and slashes
if exists(._internal.kubernetes.labels) {for_each(object!(._internal.kubernetes.labels)) -> |key,value| {
    resource.attributes = append(resource.attributes,
        [{`key`: `k8s.pod.label.` + key, `value`: {`stringValue`: value}}]
    )
}}
".
Definition LogRecord : string := raw "
# Create logRecord object
r = {`attributes`: []}
r.timeUnixNano = to_string(to_unix_timestamp(parse_timestamp!(.@timestamp, format:`%+`), unit:`nanoseconds`))
r.observedTimeUnixNano = to_string(to_unix_timestamp(now(), unit:`nanoseconds`))
".
Definition LogRecordSeverity : string := "
r.severityText = .level
".
Definition BodyFromMessage : string := raw "
# Create body from original message or structured
value = .message
if (value == null) { value = encode_json(.structured) }
r.body = {`stringValue`: string!(value)}
".
Definition BodyFromInternal : string := raw "
# Create body from internal message
r.body = {`stringValue`: to_string!(get!(.,[`_internal`,`message`]))}
".
Definition LogRecordTraceContext : string := "
	
# Set trace context fields if any
if exists(._internal.trace_id) {
  r.traceId = ._internal.trace_id
}
if exists(._internal.span_id) {
  r.spanId = ._internal.span_id
}
if exists(._internal.trace_flags) {
  r.flags = ._internal.trace_flags
}

".
Definition OVNLogAttributes : string := raw "
# Fill up OVN logRecord object
if exists(.level) { r.severityText = .level } 
ovnTokens = split(to_string!(get!(.,[`_internal`,`message`])),`|`)
if 0 < length(ovnTokens) { r.attributes = push(r.attributes, {`key`: `log.sequence`, `value`: {`stringValue`: ovnTokens[1] }})}
if 1 < length(ovnTokens) { r.attributes = push(r.attributes, {`key`: `k8s.ovn.component`, `value`: {`stringValue`: ovnTokens[2] }})}
".
Definition HostLogAttributes : string := raw "
# Fill up auditd logRecord object
if exists(.level) { r.severityText = .level } 
kv = parse_key_value!(to_string!(get!(.,[`_internal`,`message`])))
if exists(kv.type) {
  r.attributes = push(r.attributes, {`key`: `auditd.type`, `value`: {`stringValue`: kv.type }})
}
if exists(kv.msg) {
  msg_str = ``
  if is_array(kv.msg) {
    msg_str = kv.msg[0] 
  } else {
    msg_str = kv.msg 
  }
  trimmed = slice!(msg_str, find!(msg_str, `(`) + 1, -2)
  parts = split!(trimmed, `:`)
  r.attributes = push(r.attributes, {`key`: `log.sequence`, `value`: {`stringValue`: parts[1] }})
}
".
Definition LogAttributes : string := "".
Definition ContainerLogAttributes : string := raw "
r.attributes = append(r.attributes,
  [
	{`key`: `log.iostream`, `value`: {`stringValue`: .kubernetes.container_iostream}},
	{`key`: `level`, `value`: {`stringValue`: .level}}
  ]
)
".
Definition NodeResourceAttributes : string := raw "
resource.attributes = append(resource.attributes,
  [
	{`key`: `process.command_line`, `value`: {`stringValue`: .systemd.t.CMDLINE}},
	{`key`: `process.executable.name`, `value`: {`stringValue`: .systemd.t.COMM}},
	{`key`: `process.executable.path`, `value`: {`stringValue`: .systemd.t.EXE}},
	{`key`: `process.pid`, `value`: {`stringValue`: .systemd.t.PID}},
	{`key`: `service.name`, `value`: {`stringValue`: .systemd.t.SYSTEMD_UNIT}}
  ]
)
".
Definition NodeLogAttributes : string := raw "
r.attributes = append(r.attributes, [{`key`: `level`, `value`: {`stringValue`: .level}}])
".
Definition FinalGrouping : string := raw "
# Openshift object for grouping (dropped before sending)
o = {
    `log_type`: .log_type,
    `log_source`: .log_source,
    `hostname`: .hostname,
    `cluster_id`: .openshift.cluster_id
}
. = {
  `openshift`: o,
  `resource`: resource,
  `logRecords`: r
}
".
Definition FinalGroupingContainers : string := raw "
# Openshift and kubernetes objects for grouping containers (dropped before sending)
o = {
    `log_type`: .log_type,
    `log_source`: .log_source,
    `cluster_id`: .openshift.cluster_id
}
.kubernetes = {
    `namespace_name`: .kubernetes.namespace_name,
    `pod_name`: .kubernetes.pod_name,
    `container_name`: .kubernetes.container_name
}
. = {
  `openshift`: o,
  `kubernetes`: .kubernetes,
  `resource`: resource,
  `logRecords`: r
}
".
Definition BackwardCompatBaseResourceAttributes : string := raw "
# Append backward compatibility attributes
resource.attributes = append( resource.attributes,
	[
      {`key`: `log_type`, `value`: {`stringValue`: .log_type}},
      {`key`: `log_source`, `value`: {`stringValue`: .log_source}},
      {`key`: `openshift.cluster_id`, `value`: {`stringValue`: .openshift.cluster_id}},
      {`key`: `kubernetes.host`, `value`: {`stringValue`: .hostname}}
    ]
)
".
Definition BackwardCompatContainerResourceAttributes : string := raw "
# Append backward compatibility attributes for container logs
resource.attributes = append( resource.attributes,
	[{`key`: `kubernetes.pod_name`, `value`: {`stringValue`: .kubernetes.pod_name}},
	{`key`: `kubernetes.container_name`, `value`: {`stringValue`: .kubernetes.container_name}},
	{`key`: `kubernetes.namespace_name`, `value`: {`stringValue`: .kubernetes.namespace_name}}]
)
".
Definition format_resource_vrl : string := raw "
. = {
      `resource`: {
         `attributes`: .resource.attributes,
      },
      `scopeLogs`: [
        {`logRecords`: .logRecords}
      ]
    }
".

(** The three steps that look for the context of a trace. *)
Definition AddLogRecordTraceContexts : string := raw "
trace_context = {}
# 1. Try to extract trace context from structured log fields
if exists(._internal.structured) {
	if exists(._internal.structured.trace_id) {
		trace_context.trace_id = ._internal.structured.trace_id
	}
	if exists(._internal.structured.span_id) {
		trace_context.span_id = ._internal.structured.span_id
	}
	if exists(._internal.structured.trace_flags) {
		trace_context.trace_flags = ._internal.structured.trace_flags
	}
}

# 2. If not structured, try parsing the message as JSON
if !exists(._internal.structured) {
	parsed, err = parse_json(._internal.message)
	if err == null {
		if exists(parsed.trace_id) {
			trace_context.trace_id = parsed.trace_id
		}
		if exists(parsed.span_id) {
			trace_context.span_id = parsed.span_id
		}
		if exists(parsed.trace_flags) {
			trace_context.trace_flags = parsed.trace_flags
		}
	}
}

# 3. Fall back to regex for any fields still missing
if trace_context.trace_id == null {
	parsed, err = parse_regex(._internal.message, r'(?i)(trace_id|traceId|traceID|trace\-id|trace\.id)[=:]\s*[`\']?(?<trace_id>[0-9a-f]{32})[`\']?')
	if err == null && exists(parsed.trace_id) {
		trace_context.trace_id = parsed.trace_id
	}
}
if trace_context.span_id == null {
	parsed, err = parse_regex(._internal.message, r'(?i)(span_id|spanId|spanID|span\-id|span\.id)[=:]\s*[`\']?(?<span_id>[0-9a-f]{16})[`\']?')
	if err == null && exists(parsed.span_id) {
		trace_context.span_id = parsed.span_id
	}
}
if trace_context.trace_flags == null {
	parsed, err = parse_regex(._internal.message, r'(?i)(trace_flags|traceFlags|flags|trace\-flags|trace\.flags)[=:]\s*[`\']?(?<trace_flags>[0-9a-f]{1,2})[`\']?')
	if err == null && exists(parsed.trace_flags) {
		trace_context.trace_flags = parsed.trace_flags
	}
}

# 4. Validate and set each trace context field
if trace_context.trace_id != null {
	trace_id_str = downcase(to_string!(trace_context.trace_id))
	if match(trace_id_str, r'^[0-9a-f]{32}$') {
		._internal.trace_id = trace_id_str
	}
}
if trace_context.span_id != null {
	span_id_str = downcase(to_string!(trace_context.span_id))
	if match(span_id_str, r'^[0-9a-f]{16}$') {
		._internal.span_id = span_id_str
	}
}
if trace_context.trace_flags != null {
	trace_flags_str = downcase(to_string!(trace_context.trace_flags))
	if match(trace_flags_str, r'^0?[01]$') {
		._internal.trace_flags = trace_flags_str
	}
}
".

Definition containerLogsVRL : string := Join (TrimSpaces
  [BaseResourceAttributes; ContainerResourceAttributes; BackwardCompatBaseResourceAttributes; BackwardCompatContainerResourceAttributes; LogRecord; LogRecordSeverity; BodyFromMessage; LogRecordTraceContext; LogAttributes; ContainerLogAttributes; FinalGroupingContainers]) LF.

Definition nodeLogsVRL : string := Join (TrimSpaces
  [BaseResourceAttributes; BackwardCompatBaseResourceAttributes; NodeResourceAttributes; LogRecord; LogRecordSeverity; BodyFromMessage; LogRecordTraceContext; LogAttributes; NodeLogAttributes; FinalGrouping]) LF.

Definition auditHostLogsVRL : string := Join (TrimSpaces
  [BaseResourceAttributes; BackwardCompatBaseResourceAttributes; LogRecord; BodyFromInternal; LogRecordTraceContext; LogAttributes; HostLogAttributes; FinalGrouping]) LF.

Definition auditAPILogsVRL : string := Join (TrimSpaces
  [BaseResourceAttributes; BackwardCompatBaseResourceAttributes; LogRecord; BodyFromInternal; LogRecordTraceContext; LogAttributes; FinalGrouping]) LF.

Definition auditOVNLogsVRL : string := Join (TrimSpaces
  [BaseResourceAttributes; BackwardCompatBaseResourceAttributes; LogRecord; BodyFromInternal; LogRecordTraceContext; LogAttributes; OVNLogAttributes; FinalGrouping]) LF.

Definition TransformContainer (inputs : list string) : transform := remap_of containerLogsVRL inputs.
Definition TransformJournal (inputs : list string) : transform := remap_of nodeLogsVRL inputs.
Definition TransformAuditHost (inputs : list string) : transform := remap_of auditHostLogsVRL inputs.
Definition TransformAuditKube (inputs : list string) : transform := remap_of auditAPILogsVRL inputs.
Definition TransformAuditOpenshift (inputs : list string) : transform := remap_of auditAPILogsVRL inputs.
Definition TransformAuditOvn (inputs : list string) : transform := remap_of auditOVNLogsVRL inputs.
Definition FormatResourceLog (inputs : list string) : transform := remap_of format_resource_vrl inputs.
Definition TransformTraceContext (inputs : list string) : transform := remap_of (TrimSpace AddLogRecordTraceContexts) inputs.

(** ** Grouping ([group_by.go]) *)

Definition MaxEventsGroupByContainer : Z := 1.
Definition MaxEventsGroupBySource : Z := 1.
Definition MaxEventsGroupByHost : Z := 1.
Definition expireAfterMs : Z := 15000.

Definition group_by (maxEvents : Z) (groupBy inputs : list string) : transform :=
  TReduce (Some (NewReduce expireAfterMs maxEvents groupBy
    (Some {| ms_LogRecords := MergeStrategiesLogRecordsArray; ms_Resource := MergeStrategiesResourceRetain |}) inputs)).

Definition GroupByContainer (inputs : list string) : transform :=
  group_by MaxEventsGroupByContainer
    [".openshift.cluster_id"; ".kubernetes.namespace_name"; ".kubernetes.pod_name"; ".kubernetes.container_name"] inputs.

Definition GroupBySource (inputs : list string) : transform :=
  group_by MaxEventsGroupBySource [".openshift.cluster_id"; ".openshift.log_type"; ".openshift.log_source"] inputs.

Definition GroupByHost (inputs : list string) : transform :=
  group_by MaxEventsGroupByHost
    [".openshift.cluster_id"; ".openshift.hostname"; ".openshift.log_type"; ".openshift.log_source"] inputs.

(** ** The output ([otlp.go]) *)

Definition OtlpLogSourcesOption : string := "otlpLogSourcesOption".
Definition MigratedFromLokistackOption : string := "migratedFromLokistackOption".

Definition logSourceContainer : string := ApplicationSourceContainer.
Definition logSourceNode : string := InfrastructureSourceNode.
Definition logSourceAuditd : string := AuditSourceAuditd.
Definition logSourceKubeAPI : string := AuditSourceKube.
Definition logSourceOpenshiftAPI : string := AuditSourceOpenShift.
Definition logSourceOvn : string := AuditSourceOVN.

Definition allLogSources : list string :=
  [logSourceContainer; logSourceNode; logSourceAuditd; logSourceKubeAPI; logSourceOpenshiftAPI; logSourceOvn].

(** [Has] of [logSources]. *)
Definition has_source (ls : list string) (source : string) : bool := existsb (λ e, e == source) ls.

(** The sort in place of the sources changes nothing that is read: the routes are a map. *)
Definition RouteBySource (inputs logSources : list string) : transform :=
  let routes := map_of_assignments ((λ source, (ToLower source, ".log_source == " +:+ Quote source)) <$> sort_strings logSources) in
  TRoute (Some (NewRoute routes inputs)).

(** The sources that have a transform of their own, with how they are grouped. *)
Inductive grouping := ByContainer | ByHost | BySource.

Definition source_transforms : list (string * (list string → transform) * grouping) :=
  [(logSourceContainer, TransformContainer, ByContainer); (logSourceNode, TransformJournal, ByHost);
   (logSourceAuditd, TransformAuditHost, ByHost); (logSourceKubeAPI, TransformAuditKube, BySource);
   (logSourceOpenshiftAPI, TransformAuditOpenshift, BySource); (logSourceOvn, TransformAuditOvn, BySource)].

Definition grouped (g g' : grouping) : bool :=
  match g, g' with ByContainer, ByContainer | ByHost, ByHost | BySource, BySource => true | _, _ => false end.

(** The identifiers of the transforms of the sources asked for, of one grouping. *)
Definition source_ids (id : string) (sources : list string) (g : grouping) : list string :=
  omap (λ t, if has_source sources t.1.1 && grouped g t.2 then Some (MakeID [id; t.1.1]) else None) source_transforms.

(** A source that is asked for adds its transform, which reads its route. *)
Definition add_source_transform (id rerouteID : string) (sources : list string) (tfs : Transforms)
    (t : string * (list string → transform) * grouping) : Transforms :=
  if has_source sources t.1.1
  then <[MakeID [id; t.1.1] := t.1.2 [MakeRouteInputID rerouteID t.1.1]]> tfs
  else tfs.

(** What is given to the last transform, and the transforms that group. *)
Definition reduce_steps (id : string) (sources : list string) : list (string * transform) :=
  (if has_source sources logSourceContainer
   then [(MakeID [id; "groupby"; "container"], GroupByContainer [MakeID [id; logSourceContainer]])] else [])
  ++ (if (0 <? length (source_ids id sources BySource))%nat
      then [(MakeID [id; "groupby"; "source"], GroupBySource (source_ids id sources BySource))] else [])
  ++ (if (0 <? length (source_ids id sources ByHost))%nat
      then [(MakeID [id; "groupby"; "host"], GroupByHost (source_ids id sources ByHost))] else []).

Section otlp.
Context `{UintOfFloat} (parse_url : string → option URL).

(** The transforms of an OTLP output, and the options with the counter of what no route
    takes. *)
Definition otlp_transforms (id : string) (inputs sources : list string) (fromLokistack : bool) (op : Options) :
    outcome (Transforms * Options) :=
  let rerouteID := MakeID [id; "reroute"] in
  let transformTraceContextID := MakeID [id; "trace"; "context"] in
  let tfs : Transforms :=
    if fromLokistack then {[rerouteID := RouteBySource inputs sources]}
    else <[rerouteID := RouteBySource [transformTraceContextID] sources]>
           {[transformTraceContextID := TransformTraceContext inputs]} in
  unmatched ← NewUnmatched rerouteID op ∅;
  let tfs := <[MakeID [rerouteID; Unmatched] := unmatched.1]> tfs in
  let tfs := foldl (add_source_transform id rerouteID sources) tfs source_transforms in
  let steps := reduce_steps id sources in
  let tfs := foldl (λ tfs s, <[s.1 := s.2]> tfs) tfs steps in
  Ret (<[MakeID [id; "resource"; "logs"] := FormatResourceLog steps.*1]> tfs, unmatched.2).

Definition otlp_sink (id : string) (o : Output) (secrets : Secrets) (op : Options) : outcome sink :=
  spec ← deref (out_OTLP (o_Spec o));
  let tuned := bool_decide (is_Some (otlp_Tuning spec)) in
  tls ← (if bool_decide (is_Some (out_TLS (o_Spec o))) && IsSecure parse_url (otlp_URL spec)
         then NewTls parse_url (Some o) secrets op [] else Ret None);
  auth ← NewHttpAuth (otlp_Authentication spec) op;
  Ret (KOpenTelemetry {|
    ot_Inputs := sort_strings [MakeID [id; "resource"; "logs"]];
    ot_Protocol := {|
      otp_URI := otlp_URL spec; otp_Type := "http"; otp_Method := MethodTypePost;
      otp_Encoding := Some (NewApiEncoding CodecTypeJSON);
      otp_PayloadPrefix := raw "{`resourceLogs`:"; otp_PayloadSuffix := "}";
      otp_Compression := match otlp_Tuning spec with Some t => otlpt_Compression t | None => "" end;
      otp_Request := if tuned then NewApiRequest (o_tuning o) else None; otp_TLS := tls; otp_Auth := auth |};
    ot_Batch := if tuned then NewApiBatch (o_tuning o) else None;
    ot_Buffer := if tuned then NewApiBuffer (o_tuning o) else None |}).

(** The sources and whether a LokiStack output is behind are read from the options. *)
Definition otlp_New (id : string) (o : Output) (inputs : list string) (secrets : Secrets) (op : Options) :
    outcome (made_sink * Options) :=
  opSources ← GetOption as_strings op OtlpLogSourcesOption allLogSources;
  let sources := opSources.1 in
  if (length sources =? 0)%nat then Panic "InputSources not found while generating config"
  else
    fromLokistack ← GetOption as_bool op MigratedFromLokistackOption false;
    tfs ← otlp_transforms id inputs sources fromLokistack.1 op;
    sink ← otlp_sink id o secrets tfs.2;
    Ret ((id, sink, tfs.1), tfs.2).
End otlp.
