(* ===== verification/OutputFactory.v ===== *)
(** * Making outputs ([internal/generator/vector/output])

    The files of [output/lokistack], which makes one output per tenant, [factory.go] and
    [output/metrics].  The options are threaded: a LokiStack output leaves in them what
    the OTLP outputs it is made of read, and counters add their identifiers to them. *)

From S2P Require Import Prelude GoStrings Regex ApiCommon ApiInputs ApiOutputs ApiForwarder Sets ObsResources ObsInputs ObsForwarder.
From S2P Require Import ValidateOutputs Toml Transforms VrlText Template VectorHelpers Adapters Tls SinkTypes Sources.
From S2P Require Import OutputCommon Outputs SyslogOutput LokiOutput OtlpOutput.

(** ** The outputs of a LokiStack ([init_lokiStack.go]) *)

Definition lokiOtlpEndpoint : string := "/otlp/v1/logs".

Definition lokiStackGatewayService (lokiStackServiceName : string) : string := lokiStackServiceName +:+ "-gateway-http".

Definition lokiStackURL (lokiStackSpec : LokiStack) (tenant : string) (otlp : bool) : string :=
  if negb (Has ReservedInputTypes tenant) then ""
  else
    let baseURL := "https://" +:+ lokiStackGatewayService (lst_Name (lstack_Target lokiStackSpec)) +:+ "."
      +:+ lst_Namespace (lstack_Target lokiStackSpec) +:+ ".svc:8080/api/logs/v1/" +:+ tenant in
    if otlp then baseURL +:+ lokiOtlpEndpoint else baseURL.

(** [slices.Compact]. *)
Fixpoint Compact (l : list string) : list string :=
  match l with
  | x :: (y :: _) as l' => if x == y then Compact l' else x :: Compact l'
  | _ => l
  end.

Definition lokiStackLabelKeysForTenant (labelKeys : option LokiStackLabelKeys) (tenant : string) (defaultKeys : list string) :
    list string :=
  match labelKeys with
  | None => []
  | Some labelKeys =>
      let tenantConfig :=
        if tenant == InputTypeApplication then lsl_Application labelKeys
        else if tenant == InputTypeInfrastructure then lsl_Infrastructure labelKeys
        else if tenant == InputTypeAudit then lsl_Audit labelKeys
        else None in
      let ignoreGlobal := match tenantConfig with Some c => lstl_IgnoreGlobal c | None => false end in
      let keys := match tenantConfig with Some c => lstl_LabelKeys c | None => [] end in
      let keys :=
        if negb ignoreGlobal then
          if (0 <? length (lsl_Global labelKeys))%nat then keys ++ lsl_Global labelKeys
          else if (0 <? length keys)%nat then keys ++ defaultKeys else keys
        else keys in
      if (1 <? length keys)%nat then Compact (sort_strings keys) else keys
  end.

Definition GenerateLokiSpec (ls : LokiStack) (tenant : string) : outcome Loki :=
  let url := lokiStackURL ls tenant false in
  if url == "" then Panic "LokiStack output has no valid URL"
  else
    auth ← deref (lstack_Authentication ls);
    Ret {| loki_URLSpec := {| url_URL := url |};
           loki_Authentication := Some {| ha_Token := lsa_Token auth; ha_Username := None; ha_Password := None |};
           loki_Tuning := lstack_Tuning ls;
           loki_LabelKeys := lokiStackLabelKeysForTenant (lstack_LabelKeys ls) tenant DefaultLabelKeys;
           loki_TenantKey := ""; loki_ProxyURL := "" |}.

Definition GenerateOtlpSpec (ls : LokiStack) (tenant : string) : outcome OTLP :=
  auth ← deref (lstack_Authentication ls);
  Ret {| otlp_URL := lokiStackURL ls tenant true;
         otlp_Authentication := Some {| ha_Token := lsa_Token auth; ha_Username := None; ha_Password := None |};
         otlp_Tuning := (λ t, {| otlpt_Base := lokit_Base t; otlpt_Compression := lokit_Compression t |}) <$> lstack_Tuning ls |}.

(** The output of a tenant with its type and the section of it. *)
Definition tenant_output (outSpec : OutputSpec) (tenant : string) (ty : OutputType) (otlp : option OTLP) (loki : option Loki) :
    OutputSpec := {|
  out_Name := out_Name outSpec +:+ "-" +:+ tenant; out_Type := ty; out_TLS := out_TLS outSpec; out_Limit := out_Limit outSpec;
  out_AzureLogsIngestion := None; out_AzureMonitor := None; out_Cloudwatch := None; out_Elasticsearch := None;
  out_GoogleCloudLogging := None; out_HTTP := None; out_Kafka := None; out_Loki := loki; out_LokiStack := None;
  out_S3 := None; out_Splunk := None; out_Syslog := None; out_OTLP := otlp |}.

Definition GenerateOutput (outSpec : OutputSpec) (tenant : string) : outcome OutputSpec :=
  ls ← deref (out_LokiStack outSpec);
  if lstack_DataModel ls == LokiStackDataModelOpenTelemetry then
    otlp ← GenerateOtlpSpec ls tenant; Ret (tenant_output outSpec tenant OutputTypeOTLP (Some otlp) None)
  else
    loki ← GenerateLokiSpec ls tenant; Ret (tenant_output outSpec tenant OutputTypeLoki None (Some loki)).

(** ** LokiStack ([lokistack.go]) *)

Definition CLFSpec : string := "clfSpec".

Definition getTenantForReceiver (receiverType : ReceiverType) : string :=
  if receiverType == ReceiverTypeHTTP then InputTypeAudit else InputTypeInfrastructure.

(** The tenants of one input. *)
Definition input_tenants (inputSpec : InputSpec) : outcome (list string) :=
  if in_Type inputSpec == InputTypeApplication then
    Ret (InputTypeApplication ::
         if IncludesInfraNamespace (in_Application inputSpec) then [InputTypeInfrastructure] else [])
  else if in_Type inputSpec == InputTypeAudit then Ret [InputTypeAudit]
  else if in_Type inputSpec == InputTypeInfrastructure then Ret [InputTypeInfrastructure]
  else if in_Type inputSpec == InputTypeReceiver then
    r ← deref (in_Receiver inputSpec); Ret [getTenantForReceiver (recv_Type r)]
  else Ret [].

Definition determineTenants (inputSpecs : list InputSpec) : outcome (gset string) :=
  tenants ← concat_mapM input_tenants inputSpecs; Ret (NewString tenants).

Definition addReceiverSources (inputSpecs : list InputSpec) (inputType : InputType) : outcome (list string) :=
  concat_mapM (λ i,
    if in_Type i != InputTypeReceiver then Ret []
    else if inputType == InputTypeAudit then
      r ← deref (in_Receiver i); Ret (if recv_Type r == ReceiverTypeHTTP then ["receiver.http"] else [])
    else if inputType == InputTypeInfrastructure then
      r ← deref (in_Receiver i); Ret (if recv_Type r == ReceiverTypeSyslog then ["receiver.syslog"] else [])
    else Ret []) inputSpecs.

Section factory.
Context `{RangeOrder, UintOfFloat, OpenshiftTLS, Host} (parse_url : string → option URL).

Definition buildRoutes (tenants : gset string) : gmap string string :=
  map_of_assignments ((λ tenant, (tenant, ".log_type == " +:+ Quote tenant)) <$> List tenants).

Definition getInputSources (inputSpecs : list InputSpec) (inputType : InputType) : outcome (list string) :=
  receivers ← addReceiverSources inputSpecs inputType;
  Ret (InputSources inputSpecs inputType ++ receivers).

(** What a tenant is made of, and the options it leaves. *)
Definition generateSinkForTenant (id routeID inputType : string) (o : OutputSpec) (inputSpecs : list InputSpec)
    (secrets : Secrets) (op : Options) : outcome (made_sink * Options) :=
  let outputID := MakeID [id; inputType] in
  migratedOutput ← GenerateOutput o inputType;
  let factoryInput := MakeRouteInputID routeID inputType in
  if out_Type migratedOutput == OutputTypeOTLP then
    sources ← getInputSources inputSpecs inputType;
    let op := <[MigratedFromLokistackOption := AnyBool true]> (<[OtlpLogSourcesOption := AnyStrings sources]> op) in
    let adapter := NewOutput migratedOutput in
    let adapter := {| o_Spec := o_Spec adapter; o_InputIDs := o_InputIDs adapter ++ [factoryInput]; o_tuning := o_tuning adapter |} in
    otlp_New parse_url outputID adapter [factoryInput] secrets op
  else
    m ← loki_New parse_url outputID (NewOutput migratedOutput) [factoryInput] secrets op; Ret (m, op).

(** The loop over the tenants. *)
Fixpoint add_tenants (id routeID : string) (o : OutputSpec) (inputSpecs : list InputSpec) (secrets : Secrets)
    (st : Sinks * Transforms * Options) (tenants : list string) : outcome (Sinks * Transforms * Options) :=
  match tenants with
  | [] => Ret st
  | inputType :: tenants =>
      let '(sinks, tfs, op) := st in
      m ← generateSinkForTenant id routeID inputType o inputSpecs secrets op;
      let '((tenantId, tenantSink, tenantTfs), op) := m in
      add_tenants id routeID o inputSpecs secrets (<[tenantId := tenantSink]> sinks, tenantTfs ∪ tfs, op) tenants
  end.

(** The zero spec has no inputs. *)
Definition lokistack_spec (op : Options) : outcome ClusterLogForwarderSpec :=
  let missing : outcome ClusterLogForwarderSpec := Panic "ClusterLogForwarderSpec not found while generating LokiStack config" in
  match op !! CLFSpec with
  | Some v =>
      clfSpec ← as_Spec v;
      if (length (spec_Inputs clfSpec) =? 0)%nat || (length (spec_Pipelines clfSpec) =? 0)%nat
         || (length (spec_Outputs clfSpec) =? 0)%nat
      then missing else Ret clfSpec
  | None => missing
  end.

Definition lokistack_New (id : string) (o : Output) (inputs : list string) (secrets : Secrets) (op : Options) :
    outcome (Sinks * Transforms * Options) :=
  clfSpec ← lokistack_spec op;
  let transformTraceContextID := MakeID [id; "trace"; "context"] in
  let otel := match out_LokiStack (o_Spec o) with
              | Some ls => lstack_DataModel ls == LokiStackDataModelOpenTelemetry | None => false end in
  let '(tfs, inputs) := (if otel then ({[transformTraceContextID := TransformTraceContext inputs]}, [transformTraceContextID])
                         else (∅, inputs) : Transforms * list string) in
  let inputSpecs := InputSpecsTo clfSpec (o_Spec o) in
  tenants ← determineTenants inputSpecs;
  let routeID := MakeID [id; "route"] in
  let tfs := <[routeID := TRoute (Some (NewRoute (buildRoutes tenants) inputs))]> tfs in
  unmatched ← NewUnmatched routeID op {["output_type" := ToLower OutputTypeLokiStack]};
  let tfs := <[MakeID [routeID; Unmatched] := unmatched.1]> tfs in
  add_tenants id routeID (o_Spec o) inputSpecs secrets (∅, tfs, unmatched.2) (List tenants).

(** ** The factory ([factory.go]) *)

(** A type with one sink and no options. *)
Definition one_sink (m : outcome made_sink) (op : Options) : outcome (option made_sink * Options) :=
  m ← m; Ret (Some m, op).

(** The sink of a type other than LokiStack, if it has one. *)
Definition typed_sink (baseID : string) (o : Output) (inputs : list string) (secrets : Secrets) (op : Options) :
    outcome (option made_sink * Options) :=
  let ty := out_Type (o_Spec o) in
  if ty == OutputTypeKafka then one_sink (kafka_New parse_url baseID o inputs secrets op) op
  else if ty == OutputTypeLoki then one_sink (loki_New parse_url baseID o inputs secrets op) op
  else if ty == OutputTypeElasticsearch then one_sink (elasticsearch_New parse_url baseID o inputs secrets op) op
  else if ty == OutputTypeCloudwatch then one_sink (cloudwatch_New parse_url baseID o inputs secrets op) op
  else if ty == OutputTypeS3 then one_sink (s3_New parse_url baseID o inputs secrets op) op
  else if ty == OutputTypeGoogleCloudLogging then m ← gcl_New parse_url baseID o inputs secrets op; Ret (m, op)
  else if ty == OutputTypeSplunk then one_sink (splunk_New parse_url baseID o inputs secrets op) op
  else if ty == OutputTypeHTTP then one_sink (http_New parse_url baseID o inputs secrets op) op
  else if ty == OutputTypeSyslog then one_sink (syslog_New parse_url baseID o inputs secrets op) op
  else if ty == OutputTypeAzureLogsIngestion then one_sink (azurelogsingestion_New parse_url baseID o inputs secrets op) op
  else if ty == OutputTypeAzureMonitor then one_sink (azuremonitor_New parse_url baseID o inputs secrets op) op
  else if ty == OutputTypeOTLP then m ← otlp_New parse_url baseID o inputs secrets op; Ret (Some m.1, m.2)
  else Ret (None, op).

(** The limit of an output as a transform before it, and what the output reads then. *)
Definition output_throttle (baseID : string) (o : Output) (inputs : list string) : Transforms * list string :=
  let '(threshold, hasPolicy) := Threshold (out_Limit (o_Spec o)) in
  let throttleID := MakeID [baseID; "throttle"] in
  if hasPolicy && (0 <? threshold)%Z
  then ({[throttleID := TThrottle (Some (NewThrottle inputs threshold ""))]}, [throttleID])
  else (∅, inputs).

Definition output_New (o : Output) (inputs : list string) (secrets : Secrets) (op : Options) :
    outcome (Sinks * Transforms * Options) :=
  op ← SetTLSProfileOptionsFrom op (Some o);
  let baseID := MakeOutputID [out_Name (o_Spec o)] in
  let '(transforms, inputs) := output_throttle baseID o inputs in
  if out_Type (o_Spec o) == OutputTypeLokiStack then
    st ← lokistack_New baseID o inputs secrets op;
    Ret (st.1.1, st.1.2 ∪ transforms, st.2)
  else
    m ← typed_sink baseID o inputs secrets op;
    Ret (match m with
         | (Some (sinkId, sink, sinkTransforms), op) => ({[sinkId := sink]}, sinkTransforms ∪ transforms, op)
         | (None, op) => (∅, transforms, op)
         end).

(** ** The metrics of the collector ([output/metrics]) *)

Definition AddNodenameToMetricTransformName : string := "add_nodename_to_metric".
Definition PrometheusOutputSinkName : string := "prometheus_output".
Definition prometheusExporterListenPort : string := "24231".

Definition AddNodeNameToMetric (inputs : list string) : transform :=
  remap_of (raw ".tags.hostname = get_env_var!(`VECTOR_SELF_NODE_NAME`)") inputs.

Definition PrometheusOutput (inputs : list string) (op : Options) : outcome sink :=
  more ← GetStringSet op OptionLogsToMetricInputs;
  found ← NewTlsEnabled (T := Output) parse_url None ∅ op [];
  let base := match found with Some t => te_TLS t | None => emptyTLSConf end in
  tls ← SetTLSProfile {|
    MinTlsVersion := MinTlsVersion base; tls_CipherSuites := tls_CipherSuites base; Curves := Curves base;
    VerifyCertificate := VerifyCertificate base; VerifyHostname := VerifyHostname base;
    KeyFile := "/etc/collector/metrics/tls.key"; CRTFile := "/etc/collector/metrics/tls.crt";
    CAFile := CAFile base; KeyPass := KeyPass base |} op;
  Ret (KPrometheusExporter {|
    pe_Inputs := sort_strings (inputs ++ more);
    pe_Address := ListenOnAllLocalInterfacesAddress +:+ ":" +:+ prometheusExporterListenPort;
    pe_DefaultNamespace := "collector"; pe_TLS := Some {| te_TLS := tls; Enabled := true |};
    pe_Auth := Some {| pea_Strategy := PrometheusExporterAuthStrategySar; pea_Path := "/metrics"; pea_Verb := "get" |} |}).
End factory.
