(* ===== verification/OutputTexts.v ===== *)
(** * The programs of the outputs stay in their literals

    Each transform of an output is given a program put together from constants, from
    identifiers and from texts of the user.  Here it is shown of every such program that
    it does not contain the end of the literal it is written in when the texts of the
    user do not. *)

From S2P Require Import Prelude GoStrings Regex ApiCommon ApiInputs ApiOutputs ApiForwarder Toml Transforms VrlText.
From S2P Require Import Sets ObsResources VectorHelpers FilterVRL Adapters SourcesSpec Template SinkTypes OutputCommon Outputs.
From S2P Require Import SyslogOutput LokiOutput OtlpOutput OutputFactory.

(** ** Transforms that cannot end a literal *)

Definition safe (t : transform) : Prop := ¬ closes (transform_value t).

Lemma remap_of_safe vrl inputs : contained vrl → safe (remap_of vrl inputs).
Proof.
  intros Hc (s & [= <-] & Hs)%closes_transform. cbn [remap_Source NewRemap] in Hs.
  rewrite Contains_normalize in Hs by apply terminator_inline. congruence.
Qed.

Lemma no_program_safe t : program t = None → safe t.
Proof. intros Hp (s & Hs & _)%closes_transform. congruence. Qed.

(** A constant: the search is run. *)
Ltac contained_const := vm_compute; reflexivity.

(** ** Identifiers *)

(** An identifier as [FormatComponentID] leaves it, without a quote. *)
Definition id_ok (id : string) : Prop := FormatComponentID id = id ∧ in_string "'" id = false.

Lemma FormatComponentID_free s : in_string "'" s = false → in_string "'" (FormatComponentID s) = false.
Proof.
  induction s as [|c s IH]; [done|]. cbn [in_string]. intros [Hc Hs]%orb_false_iff.
  change (String c s) with (String c "" +:+ s). rewrite FormatComponentID_app, in_string_app, IH, orb_false_r by done.
  clear -Hc. revert Hc. destruct c as [[] [] [] [] [] [] [] []]; vm_compute; congruence.
Qed.

Lemma Join_free sep l : in_string "'" sep = false → (∀ s, s ∈ l → in_string "'" s = false) → in_string "'" (Join l sep) = false.
Proof.
  intros Hsep Hl. induction l as [|s l IH]; [done|]. apply forall_cons_iff in Hl as [Hs Hl].
  destruct l as [|t l]; [done|]. rewrite Join_cons, !in_string_app, Hs, Hsep by done. by apply IH.
Qed.

Lemma MakeID_ok parts : (∀ s, s ∈ parts → in_string "'" s = false) → id_ok (MakeID parts).
Proof. intros Hp. split; [apply FormatComponentID_idemp|]. by apply FormatComponentID_free, Join_free. Qed.

Lemma MakeID_part_ok id part : id_ok id → in_string "'" part = false → id_ok (MakeID [id; part]).
Proof. intros [_ Hid] Hp. apply MakeID_ok. intros s. rewrite !elem_of_cons, elem_of_nil. by intros [->|[->|[]]]. Qed.

(** ** Assignments *)

(** [left = right]. *)
Lemma contained_assignment l r : contained l → contained r → contained (l +:+ " = " +:+ r).
Proof.
  intros Hl Hr. change (l +:+ " = " +:+ r) with (l +:+ String " " ("=" +:+ String " " r)).
  rewrite !contained_sep by done. done.
Qed.

Lemma contained_line s r : contained s → contained r → contained (s +:+ LF +:+ r).
Proof. intros. change (LF +:+ r) with (String "010" r). by apply contained_sep. Qed.

(** Lines joined. *)
Lemma contained_lines l : (∀ s, s ∈ l → contained s) → contained (Join l LF).
Proof. by apply contained_Join. Qed.

Section texts.
Context `{RangeOrder}.

Lemma template_remap_safe inputs t field :
  in_string "'" field = false → contained t → safe (NewTemplateRemap inputs t field).
Proof.
  intros Hf Ht. apply remap_of_safe. unfold template_program.
  rewrite <-string_app_assoc. apply contained_assignment.
  - by apply (quote_free_inert ("._internal." +:+ field)).
  - apply contained_app_right; [by apply TransformUserTemplateToVRL_contained|done..].
Qed.

(** ** Paths of fields (Splunk) *)

Lemma contained_brackets s : contained s → contained ("[" +:+ s +:+ "]").
Proof.
  intros Hs. rewrite contained_scan, scan_skip by done. change (s +:+ "]") with (s +:+ String "]" "").
  rewrite scan_sep, (proj1 (contained_scan s) Hs) by done. done.
Qed.

Lemma contained_commas l : (∀ s, s ∈ l → contained s) → contained ("[" +:+ Join l "," +:+ "]").
Proof. intros Hl. apply contained_brackets. by apply contained_Join. Qed.

Lemma path_array_contained path : contained path → contained (path_array path).
Proof.
  intros Hp. apply contained_commas. intros s (f & -> & Hf)%list_elem_of_fmap.
  pose proof (SplitPath_contained path f Hp Hf). destruct (fullmatch quoteRegex f); [done|]. by apply inert_Quote.
Qed.
(** ** Splunk *)

Lemma payload_texts path sourceType : contained path → contained sourceType →
  contained (payloadKeyTmpl path) ∧ contained (payloadKeysourceTypeTmpl path sourceType).
Proof.
  intros Hp Ht. split.
  - unfold payloadKeyTmpl. rewrite contained_scan, scan_skip by done.
    apply contained_scan, contained_app_right; [done|contained_const|reflexivity].
  - unfold payloadKeysourceTypeTmpl. rewrite contained_scan, scan_skip by done.
    apply contained_scan, contained_app_right; [done| |reflexivity].
    rewrite contained_scan, scan_skip by done.
    apply contained_scan, contained_app_right; [done|contained_const|reflexivity].
Qed.

Lemma indexedFieldsRemap_contained paths : contained paths → contained (indexedFieldsRemap paths).
Proof.
  intros Hp. unfold indexedFieldsRemap. rewrite contained_scan, scan_skip by done.
  apply contained_scan, contained_app_right; [done|contained_const|done].
Qed.

(** The texts of Splunk a user gives. *)
Definition splunk_texts (s : Splunk) : list string :=
  [splunk_Index s; splunk_Source s; splunk_SourceType s; splunk_PayloadKey s] ++ splunk_IndexedFields s.

Lemma splunk_program_contained s : (∀ t, t ∈ splunk_texts s → contained t) → contained (splunk_program s).
Proof.
  intros Ht. assert (∀ t, t ∈ [splunk_Source s; splunk_SourceType s; splunk_PayloadKey s] → contained t) as H3.
  { intros t Hin. apply Ht. unfold splunk_texts. set_solver. }
  unfold splunk_program. apply contained_app_right; [|apply contained_app_right|].
  - destruct (splunk_Source s != ""); [|contained_const]. apply contained_skip; [done..|].
    apply TransformUserTemplateToVRL_contained, H3. by left.
  - destruct (splunk_PayloadKey s != ""); [|contained_const].
    assert (contained (path_array (splunk_PayloadKey s))) as Hp by (apply path_array_contained, H3; set_solver).
    assert (contained (TransformUserTemplateToVRL (splunk_SourceType s))) as Hs
      by (apply TransformUserTemplateToVRL_contained, H3; set_solver).
    destruct (payload_texts _ _ Hp Hs). by destruct (splunk_SourceType s != "").
  - destruct (_ =? 0)%nat; [done|]. apply indexedFieldsRemap_contained, contained_commas.
    intros x (f & -> & Hf)%list_elem_of_fmap. apply path_array_contained, Ht. unfold splunk_texts. set_solver.
  - by destruct (_ =? 0)%nat.
  - destruct (splunk_PayloadKey s != ""); [|done]. by destruct (splunk_SourceType s != "").
Qed.

(** ** Syslog *)

Definition syslog_texts (o : ApiOutputs.Syslog) : list string :=
  [syslog_Facility o; syslog_Severity o; syslog_AppName o; syslog_ProcId o; syslog_MsgId o; syslog_PayloadKey o].

Lemma buildDefaults_contained o : contained (buildDefaults (Some o)).
Proof.
  unfold buildDefaults, rules_of, buildRFC3164Rules, buildRFC5424Rules, defaultIfEmpty.
  destruct (syslog_RFC o == SyslogRFC3164); [|destruct (syslog_RFC o == SyslogRFC5424); [|done]];
    destruct (syslog_ProcId o == ""), (syslog_AppName o == ""), (syslog_Severity o == ""), (syslog_Facility o == "");
    first [contained_const | destruct (syslog_MsgId o == ""); contained_const].
Qed.

Lemma appendField_contained field value dflt s :
  contained field → contained value → contained dflt → s ∈ appendField field value dflt → contained s.
Proof.
  intros Hf Hv Hd. unfold appendField. set (vrl := if value != "" then _ else _).
  assert (contained vrl) as Hvrl.
  { unfold vrl. destruct (value != ""); [by apply TransformUserTemplateToVRL_contained|done]. }
  cbn zeta. destruct (vrl != ""); [|by intros ?%elem_of_nil]. intros ->%list_elem_of_singleton. by apply contained_assignment.
Qed.

Lemma ToLower_contained s : contained s → contained (ToLower s).
Proof.
  assert (ToLower s = map_bytes (λ c, String (lower_byte c) "") s) as ->.
  { induction s as [|c s IH]; [done|]. cbn [ToLower map_bytes String.append]. by rewrite IH. }
  apply contained_map_bytes. split; [done|]. intros [[] [] [] [] [] [] [] []]; vm_compute; intros; split; congruence.
Qed.

Lemma severity_of_contained o : contained (syslog_Severity o) → contained (severity_of o).
Proof.
  intros Hs. unfold severity_of, normalizeSeverity. destruct (_ && _); [|done].
  repeat (case_match; [contained_const|]). by apply ToLower_contained.
Qed.

Lemma syslog_fields_contained o s : (∀ t, t ∈ syslog_texts o → contained t) → s ∈ syslog_fields o → contained s.
Proof.
  intros Ht. unfold syslog_fields.
  assert (∀ field value dflt, contained field → value ∈ syslog_texts o → contained dflt → s ∈ appendField field value dflt → contained s)
    as Hf by (intros field value dflt ? ? ?; apply appendField_contained; auto).
  rewrite !elem_of_app. intros [Hs|[Hs|Hs]].
  - revert Hs. apply Hf; [done|unfold syslog_texts; set_solver|done].
  - revert Hs. apply appendField_contained; [done|apply severity_of_contained, Ht; unfold syslog_texts; set_solver|done].
  - revert Hs. destruct (_ == _); rewrite !elem_of_app.
    + intros [Hs|Hs]; revert Hs; (apply Hf; [done|unfold syslog_texts; set_solver|contained_const]).
    + intros [Hs|[Hs|Hs]]; revert Hs; (apply Hf; [done|unfold syslog_texts; set_solver|done]).
Qed.

Lemma substring_part n : ∀ m s, ∃ p q, s = p +:+ String.substring n m s +:+ q.
Proof.
  induction n as [|n IHn].
  - induction m as [|m IHm]; intros [|c s]; [by exists "", ""|by exists "", (String c s)|by exists "", ""|].
    destruct (IHm s) as (p & q & E). exists "". cbn [String.substring String.append] in *.
    assert (∃ q, s = String.substring 0 m s +:+ q) as [q' E'].
    { clear. revert m. induction s as [|c s IH]; intros [|m]; [by exists ""|by exists ""|by exists (String c s)|].
      destruct (IH m) as [q E]. exists q. cbn [String.substring String.append]. by rewrite <-E. }
    exists q'. by rewrite <-E'.
  - intros m [|c s]; [by exists "", ""|]. destruct (IHn m s) as (p & q & E). exists (String c p), q.
    cbn [String.substring String.append]. by rewrite <-E.
Qed.

Lemma PayloadKey_contained k key : PayloadKey k = Ret key → contained k → contained key.
Proof.
  unfold PayloadKey. destruct (k == ""); [by intros [= <-]|]. destruct (_ <? 2)%nat; [done|]. intros [= <-] Hk.
  destruct (substring_part 1 (String.length k - 2) k) as (p & q & E). rewrite E in Hk.
  by apply contained_app_inv in Hk as [_ [? _]%contained_app_inv].
Qed.
Lemma payload_text_contained key : contained key → contained (payload_text key).
Proof.
  intros Hk. unfold payload_text. destruct (key != ""); [|contained_const].
  unfold payloadKeyConfiguredVRL. apply contained_skip; [done..|].
  apply contained_app_right; [|contained_const|reflexivity].
  unfold ReplaceAll. apply contained_map_bytes; [|done].
  split; [done|]. intros [[] [] [] [] [] [] [] []]; vm_compute; intros; split; congruence.
Qed.

Lemma parseEncoding_safe inputs o t :
  (∀ t, t ∈ syslog_texts o → contained t) → parseEncoding inputs o = Ret t →
  safe t ∧ ∀ x, x ∈ inputs_of t → x ∈ inputs.
Proof.
  intros Ht. unfold parseEncoding. intros (key & Hk & <-%Ret_inj)%bind_ret_inv.
  split; [|intros x; apply remap_reads]. apply remap_of_safe, contained_lines. intros s.
  rewrite !elem_of_app, !elem_of_cons, !elem_of_nil.
  assert (contained (payload_text key)) as Hpay.
  { apply payload_text_contained. eapply PayloadKey_contained; [exact Hk|]. apply Ht. unfold syslog_texts. set_solver. }
  assert (contained (severityValidationVRL (severity_normalization o))) as Hsev.
  { unfold severity_normalization. destruct (isDynamicSeverity o); [contained_const|].
    destruct (severity_of o == ""); contained_const. }
  intros [[->|[->|[]]]|[Hs|[[->|[->|[->|[]]]]|Hs]]]; [contained_const|apply buildDefaults_contained| |contained_const|done..|].
  - by apply (syslog_fields_contained o).
  - destruct (_ == _); [|by apply elem_of_nil in Hs]. apply list_elem_of_singleton in Hs as ->. contained_const.
Qed.
End texts.

(** ** Constants *)

Lemma constant_safe vrl inputs : contained vrl → safe (remap_of vrl inputs) ∧ ∀ x, x ∈ inputs_of (remap_of vrl inputs) → x ∈ inputs.
Proof. intros Hc. split; [by apply remap_of_safe|intros x; apply remap_reads]. Qed.

(** A transform that is safe and reads nothing but what it is given. *)
Definition fine (t : list string → transform) : Prop := ∀ inputs, safe (t inputs) ∧ ∀ x, x ∈ inputs_of (t inputs) → x ∈ inputs.

Ltac fine_const := intros ?; apply constant_safe; contained_const.

Lemma fine_constants :
  Forall fine [remap_of add_id_vrl; NormalizeStreamName; NormalizeSeverity; RemapReservedKeywords; fixTimestampFormat;
    RemapLabels; CleanupFields; FormatResourceLog; TransformTraceContext; AddNodeNameToMetric].
Proof. repeat (apply List.Forall_cons; [fine_const|]). apply List.Forall_nil. Qed.

Lemma fine_sources : Forall (λ t, fine t.1.2) source_transforms.
Proof. repeat (apply List.Forall_cons; [fine_const|]). apply List.Forall_nil. Qed.
