(* ===== verification/OutputsSpec.v ===== *)
(** * What outputs are made of

    Each output that is ready is made of sinks and transforms that read what the output
    is given or what is made with them, under identifiers that start with the one of the
    output. *)

From S2P Require Import Prelude GoStrings Regex ApiCommon ApiInputs ApiOutputs ApiForwarder Toml Transforms VrlText.
From S2P Require Import Sets ObsResources ObsInputs ObsOutputs ObsForwarder ValidateOutputs VectorHelpers FilterVRL Adapters Tls.
From S2P Require Import Sources SourcesSpec Template SinkTypes OutputCommon Outputs SyslogOutput LokiOutput OtlpOutput OutputFactory OutputTexts.

(** ** Components that can be read *)

(** A transform, or an output of a route transform. *)
Definition provided (tfs : Transforms) (x : string) : Prop :=
  is_Some (tfs !! x) ∨
  ∃ k r, tfs !! k = Some (TRoute (Some r)) ∧
    (x = UnmatchedRoute k ∨ ∃ route, is_Some (route_Routes r !! route) ∧ x = MakeRouteInputID k route).

Lemma provided_union_l (t1 t2 : Transforms) x : provided t1 x → provided (t1 ∪ t2) x.
Proof.
  intros [Hx|(k & r & Hk & Hx)]; [left|right].
  - apply lookup_union_is_Some. by left.
  - exists k, r. split; [|done]. by apply lookup_union_Some_l.
Qed.

Lemma provided_union_r (t1 t2 : Transforms) x : t1 ##ₘ t2 → provided t2 x → provided (t1 ∪ t2) x.
Proof.
  intros Hd [Hx|(k & r & Hk & Hx)]; [left|right].
  - apply lookup_union_is_Some. by right.
  - exists k, r. split; [|done]. by apply lookup_union_Some_r.
Qed.

(** The identifier of a component of an output. *)
Definition own (id k : string) : Prop := ∃ rest, k = id +:+ "_" +:+ rest.

Lemma own_MakeID id part : id_ok id → own id (MakeID [id; part]).
Proof.
  intros [Hid _]. exists (FormatComponentID part). unfold MakeID. cbn [Join]. by rewrite !FormatComponentID_app, Hid.
Qed.

Lemma own_MakeID2 id a b : id_ok id → own id (MakeID [id; a; b]).
Proof.
  intros [Hid _]. exists (FormatComponentID (a +:+ "_" +:+ b)). unfold MakeID. cbn [Join].
  by rewrite !FormatComponentID_app, Hid.
Qed.

Lemma own_own id id' k : own id id' → own id' k → own id k.
Proof. intros [r ->] [r' ->]. exists (r +:+ "_" +:+ r'). by rewrite !string_app_assoc. Qed.

(** A transform under an identifier of the output, which is safe and reads what it may. *)
Definition entry (id : string) (may : string → Prop) (k : string) (t : transform) : Prop :=
  own id k ∧ safe t ∧ ∀ x, x ∈ inputs_of t → may x.

Definition may_read (inputs : list string) (tfs : Transforms) (x : string) : Prop := x ∈ inputs ∨ provided tfs x.

(** The sinks and transforms an output is made of. *)
Record outs_ok (id : string) (inputs : list string) (sinks : Sinks) (tfs : Transforms) : Prop := {
  ok_tfs : map_Forall (entry id (may_read inputs tfs)) tfs;
  ok_sinks : map_Forall (λ k s, (k = id ∨ own id k) ∧ ∀ x, x ∈ sink_inputs s → may_read inputs tfs x) sinks;
}.

(** The same for what is made of one sink. *)
Definition made_ok (id : string) (inputs : list string) (m : made_sink) : Prop :=
  m.1.1 = id ∧ (∀ x, x ∈ sink_inputs m.1.2 → may_read inputs m.2 x) ∧ map_Forall (entry id (may_read inputs m.2)) m.2.

Lemma made_outs id inputs (m : made_sink) : made_ok id inputs m → outs_ok id inputs {[m.1.1 := m.1.2]} m.2.
Proof. intros (-> & Hs & Ht). split; [done|]. apply map_Forall_singleton. split; [by left|done]. Qed.

Lemma entry_mono id (P Q : string → Prop) k t : (∀ x, P x → Q x) → entry id P k t → entry id Q k t.
Proof. intros HPQ (? & ? & Hr). split_and!; auto. Qed.

(** The entries of a map that is written as assignments. *)
Lemma one_entry (P : string → transform → Prop) k t : P k t → map_Forall P ({[k := t]} : Transforms).
Proof. by rewrite map_Forall_singleton. Qed.

Lemma more_entry (P : string → transform → Prop) k t (m : Transforms) : P k t → map_Forall P m → map_Forall P (<[k := t]> m).
Proof. apply map_Forall_insert_2. Qed.

Ltac entries := cbn [fst snd];
  lazymatch goal with
  | |- map_Forall _ (<[_ := _]> _) => apply more_entry; [|entries]
  | |- map_Forall _ {[_ := _]} => apply one_entry
  | |- map_Forall _ ∅ => apply map_Forall_empty
  | _ => idtac
  end.

Section reads.
Context `{RangeOrder}.

Lemma template_entry id (may : string → Prop) part t field l :
  id_ok id → in_string "'" field = false → contained t → (∀ x, x ∈ l → may x) →
  entry id may (MakeID [id; part]) (NewTemplateRemap l t field).
Proof.
  intros Hid Hf Ht Hl. split_and!; [by apply own_MakeID|by apply template_remap_safe|].
  intros x Hx%remap_reads. by apply Hl.
Qed.

Lemma fine_entry id (may : string → Prop) part t l :
  id_ok id → fine t → (∀ x, x ∈ l → may x) → entry id may (MakeID [id; part]) (t l).
Proof. intros Hid Ht Hl. destruct (Ht l) as [Hs Hr]. split_and!; [by apply own_MakeID|done|]. auto. Qed.
End reads.

(** ** Options of the known types *)

Definition option_types : list (string * (any → Prop)) :=
  [(ClusterTLSProfileSpec, λ v, ∃ p, v = AnyTLSProfileSpec p);
   (OptionServiceAccountTokenSecretName, λ v, ∃ s, v = AnyString s);
   (OptionForwarderName, λ v, ∃ s, v = AnyString s);
   (OptionLogsToMetricInputs, λ v, ∃ l, v = AnyStrings l);
   (OtlpLogSourcesOption, λ v, ∃ l, v = AnyStrings l ∧ l ≠ []);
   (MigratedFromLokistackOption, λ v, ∃ b, v = AnyBool b);
   (CLFSpec, λ v, ∃ s, v = AnySpec s);
   (OptMinTLSVersion, λ v, ∃ s, v = AnyString s);
   (OptCiphers, λ v, ∃ s, v = AnyString s);
   (OptGroups, λ v, ∃ s, v = AnyString s)].

Definition op_ok (op : Options) : Prop := ∀ k P v, (k, P) ∈ option_types → op !! k = Some v → P v.

Lemma op_ok_insert op k v : op_ok op → (∀ P, (k, P) ∈ option_types → P v) → op_ok (<[k := v]> op).
Proof. intros Hop Hk k' P v' Hin [[<- <-]|[_ Hl]]%lookup_insert_Some; [by apply Hk|by eapply Hop]. Qed.

(** The type of an option that is known. *)
Ltac option_type :=
  let Hin := fresh in
  intros ? Hin; unfold option_types in Hin; rewrite !elem_of_cons, elem_of_nil in Hin;
  repeat match type of Hin with _ ∨ _ => destruct Hin as [Hin|Hin]; [apply pair_eq in Hin as [? Hin]; try discriminate; subst; eauto|] end;
  try done.

Ltac option_known := unfold option_types; rewrite !elem_of_cons; tauto.

Lemma op_string op k : op_ok op → (k, λ v, ∃ s, v = AnyString s) ∈ option_types → ∀ d, returns (GetOption as_string op k d).
Proof.
  intros Hop Hk d. unfold GetOption. destruct (op !! k) as [v|] eqn:E; [|by eexists].
  destruct (Hop _ _ _ Hk E) as [s ->]. by eexists.
Qed.

Lemma string_option_returns op k old : op_ok op → (k, λ v, ∃ s, v = AnyString s) ∈ option_types → returns (string_option op k old).
Proof.
  intros Hop Hk. unfold string_option. destruct (op !! k) as [v|] eqn:E; [|by eexists].
  destruct (Hop _ _ _ Hk E) as [s ->]. by eexists.
Qed.

Lemma SetTLSProfile_returns t op : op_ok op → returns (SetTLSProfile t op).
Proof.
  intros Hop. unfold SetTLSProfile.
  do 3 (apply returns_bind; [apply string_option_returns; [done|option_known]|intros ? _]). apply returns_ret.
Qed.

Lemma NewTls_ok {T} `{TransportLayerSecurity T} parse_url (comp : option T) secrets op options :
  op_ok op → HasOption OptURL options = None → returns (NewTls parse_url comp secrets op options).
Proof.
  intros Hop Ho. unfold NewTls. rewrite Ho. cbn [mbind outcome_bind].
  apply returns_bind; [by apply SetTLSProfile_returns|intros ? _; apply returns_ret].
Qed.

Lemma NewTlsEnabled_ok {T} `{TransportLayerSecurity T} parse_url (comp : option T) secrets op options :
  op_ok op → HasOption OptURL options = None → returns (NewTlsEnabled parse_url comp secrets op options).
Proof.
  intros Hop Ho. unfold NewTlsEnabled. apply returns_bind; [by apply NewTls_ok|]. intros [t|] _; [|apply returns_ret].
  destruct (_ || _); apply returns_ret.
Qed.

Lemma bearer_token_returns key op : op_ok op → returns (bearer_token key op).
Proof.
  intros Hop. unfold bearer_token. destruct (_ == _); [apply returns_ret|]. destruct (_ == _); [|apply returns_ret].
  apply returns_bind; [apply op_string; [done|option_known]|]. intros [name found] _. apply returns_ret.
Qed.

Lemma NewHttpAuth_returns spec op : op_ok op → returns (NewHttpAuth spec op).
Proof.
  intros Hop. unfold NewHttpAuth. destruct spec as [spec|]; [|apply returns_ret].
  destruct (ha_Token spec); [|apply returns_ret]. apply returns_bind; [by apply bearer_token_returns|intros; apply returns_ret].
Qed.

Lemma elasticsearchAuth_returns auth r op : op_ok op → returns (elasticsearchAuth auth r op).
Proof.
  intros Hop. unfold elasticsearchAuth. destruct auth as [auth|]; [|apply returns_ret].
  destruct (ha_Token auth); [apply returns_bind; [by apply bearer_token_returns|intros; apply returns_ret]|].
  destruct (ha_Username auth), (ha_Password auth); apply returns_ret.
Qed.

Lemma aws_auth_New_returns name auth op :
  op_ok op → (∀ a, auth = Some a → aws_Type a = AwsAuthTypeAccessKey → is_Some (aws_AwsAccessKey a)) →
  returns (aws_auth_New name auth op).
Proof.
  intros Hop Ha. unfold aws_auth_New. destruct auth as [a|]; [|apply returns_ret].
  destruct (String.eqb_spec (aws_Type a) AwsAuthTypeAccessKey) as [E|_].
  - destruct (Ha a eq_refl E) as [key ->]. by eexists.
  - destruct (_ == _); [|apply returns_ret]. apply returns_bind; [apply op_string; [done|option_known]|].
    intros [name' found] _. apply returns_ret.
Qed.

(** ** One output of each type *)

Lemma sorted_single x y : x ∈ sort_strings [y] ↔ x = y.
Proof. by rewrite elem_of_sort_strings, list_elem_of_singleton. Qed.

Lemma TrimLeft_slash_contained s : contained s → contained (TrimLeft_slash s).
Proof.
  induction s as [|c s IH]; [done|]. intros Hs. cbn [TrimLeft_slash]. destruct (Ascii.eqb c "/"); [|done].
  apply IH. by apply (contained_app_inv (String c "")) in Hs as [_ ?].
Qed.

(** What the topic of a Kafka output is read from. *)
Definition topic_ready (parse_url : string → option URL) (k : Kafka) : Prop :=
  contained (kafka_Topic k) ∧
  (kafka_Topic k = "" → ∃ u, parse_url (kafka_URL k) = Some u ∧ contained (url_Path u)).

Lemma topic_contained parse_url k : topic_ready parse_url k → ∃ t, topic parse_url k = Ret t ∧ contained t.
Proof.
  intros [Ht Hu]. unfold topic. destruct (String.eqb_spec (kafka_Topic k) "") as [E|_]; cbn [negb]; [|by eexists].
  destruct (Hu E) as (u & -> & Hp). cbn [deref mbind outcome_bind]. eexists. split; [reflexivity|].
  destruct (_ != ""); [by apply TrimLeft_slash_contained|contained_const].
Qed.

Section types.
Context `{RangeOrder, UintOfFloat} (parse_url : string → option URL).
Context (id : string) (o : Output) (inputs : list string) (secrets : Secrets) (op : Options).
Context (Hid : id_ok id) (Hop : op_ok op).

Notation gives_sink m ty := (∃ r, m = Ret r ∧ made_ok id inputs r ∧ SinkType r.1.2 = ty).

Lemma part_free part : in_string "'" part = false → in_string "'" (MakeID [id; part]) = false.
Proof using Hid. intros Hp. by apply MakeID_part_ok. Qed.

Lemma reads_own (tfs : Transforms) k x : is_Some (tfs !! k) → x ∈ sort_strings [k] → may_read inputs tfs x.
Proof. intros Hk ->%sorted_single. right. by left. Qed.

Lemma reads_one (tfs : Transforms) k x : is_Some (tfs !! k) → x ∈ [k] → may_read inputs tfs x.
Proof. intros Hk ->%list_elem_of_singleton. right. by left. Qed.

Lemma reads_given (tfs : Transforms) x : x ∈ inputs → may_read inputs tfs x.
Proof. by left. Qed.

(** A transform is there. *)
Ltac there := cbn [fst snd];
  repeat first [rewrite lookup_singleton_eq; by eexists | apply lookup_insert_is_Some'; first [by left | right]].

Ltac reads :=
  intros ?; solve [apply reads_given | apply reads_own; there | apply reads_one; there].

Ltac tls_ret := match goal with
  | |- context [NewTls parse_url ?c ?s ?p ?l] =>
      let t := fresh "tls" in destruct (NewTls_ok parse_url c s p l) as [t ->]; [done..|]; cbn [mbind outcome_bind]
  | |- context [NewTlsEnabled parse_url ?c ?s ?p ?l] =>
      let t := fresh "tls" in destruct (NewTlsEnabled_ok parse_url c s p l) as [t ->]; [done..|]; cbn [mbind outcome_bind]
  end.

Lemma kafka_ok spec : out_Kafka (o_Spec o) = Some spec → topic_ready parse_url spec →
  gives_sink (kafka_New parse_url id o inputs secrets op) "kafka".
Proof using Hid Hop.
  intros E Ht. unfold kafka_New. rewrite E. cbn [deref mbind outcome_bind].
  destruct (topic_contained parse_url spec Ht) as (t & -> & Hc). cbn [mbind outcome_bind].
  destruct (NewTlsEnabled_ok parse_url (Some o) secrets op
    (if bool_decide (is_Some (out_TLS (o_Spec o))) && isTlsBrokers (out_Kafka (o_Spec o))
     then [{| fo_Name := ExcludeInsecureSkipVerify; fo_Value := AnyString "" |}] else [])) as [tls Htls];
    [done|by destruct (_ && _)|]. unfold kafkaTls. rewrite Htls. cbn [mbind outcome_bind].
  eexists. split; [reflexivity|]. split; [|done]. split_and!; [done|reads|]. entries.
  apply template_entry; [done|by apply part_free|done|reads].
Qed.

Lemma elasticsearch_ok es : out_Elasticsearch (o_Spec o) = Some es → contained (es_Index es) →
  gives_sink (elasticsearch_New parse_url id o inputs secrets op) "elasticsearch".
Proof using Hid Hop.
  intros E Hc. unfold elasticsearch_New. rewrite E. cbn [deref mbind outcome_bind].
  destruct (es_Version es =? 6)%Z; cbn beta iota zeta; tls_ret;
    destruct (elasticsearchAuth_returns (es_Authentication es) (with_headers (es_Headers es) (NewApiRequest (o_tuning o))) op Hop)
      as [auth ->]; cbn [mbind outcome_bind]; (eexists; split; [reflexivity|]; split; [|done]; split_and!; [done|reads|]).
  - entries; [apply template_entry; [done|by apply part_free|done|reads]|].
    apply (fine_entry id _ "add_id" (remap_of add_id_vrl)); [done| |reads]. fine_const.
  - entries. apply template_entry; [done|by apply part_free|done|reads].
Qed.

Lemma cloudwatch_ok cw : out_Cloudwatch (o_Spec o) = Some cw → contained (cw_GroupName cw) →
  (∀ a, cw_Authentication cw = Some a → aws_Type a = AwsAuthTypeAccessKey → is_Some (aws_AwsAccessKey a)) →
  gives_sink (cloudwatch_New parse_url id o inputs secrets op) "aws_cloudwatch_logs".
Proof using Hid Hop.
  intros E Hc Ha. unfold cloudwatch_New. rewrite E. cbn [deref mbind outcome_bind].
  destruct (aws_auth_New_returns (out_Name (o_Spec o)) (cw_Authentication cw) op Hop Ha) as [auth ->]. cbn [mbind outcome_bind].
  tls_ret. eexists. split; [reflexivity|]. split; [|done]. split_and!; [done|reads|]. entries.
  - apply template_entry; [done|done|done|reads].
  - apply (fine_entry id _ "normalize_streams" NormalizeStreamName); [done|fine_const|reads].
Qed.

Lemma s3_ok s : out_S3 (o_Spec o) = Some s → contained (s3_KeyPrefix s) →
  (∀ a, s3_Authentication s = Some a → aws_Type a = AwsAuthTypeAccessKey → is_Some (aws_AwsAccessKey a)) →
  gives_sink (s3_New parse_url id o inputs secrets op) "aws_s3".
Proof using Hid Hop.
  intros E Hc Ha. unfold s3_New. rewrite E. cbn [deref mbind outcome_bind].
  destruct (aws_auth_New_returns (out_Name (o_Spec o)) (s3_Authentication s) op Hop Ha) as [auth ->]. cbn [mbind outcome_bind].
  tls_ret. eexists. split; [reflexivity|]. split; [|done]. split_and!; [done|reads|]. entries.
  apply template_entry; [done|by apply part_free|done|reads].
Qed.

Lemma gcl_ok g : out_GoogleCloudLogging (o_Spec o) = Some g → contained (gcl_LogId g) →
  ∃ r, gcl_New parse_url id o inputs secrets op = Ret (Some r) ∧ made_ok id inputs r ∧ SinkType r.1.2 = "gcp_stackdriver_logs".
Proof using Hid Hop.
  intros E Hc. unfold gcl_New. rewrite E. tls_ret. eexists. split; [reflexivity|]. split; [|done].
  split_and!; [done|reads|]. entries.
  - apply template_entry; [done|by apply part_free|done|reads].
  - apply (fine_entry id _ "normalize_severity" NormalizeSeverity); [done|fine_const|reads].
Qed.

Lemma splunk_ok s : out_Splunk (o_Spec o) = Some s → (∀ t, t ∈ splunk_texts s → contained t) →
  gives_sink (splunk_New parse_url id o inputs secrets op) "splunk_hec_logs".
Proof using Hid Hop.
  intros E Ht. unfold splunk_New. rewrite E. cbn [deref mbind outcome_bind]. tls_ret.
  eexists. split; [reflexivity|]. split; [|done]. split_and!; [done|cbn [fst snd]|].
  - intros ? ->%sorted_single. right; left. there.
  - assert (fine (remap_of (splunk_program s))) as Hp.
    { intros l. split; [by apply remap_of_safe, splunk_program_contained|intros x; apply remap_reads]. }
    destruct (hasIndexKey (Some s)); entries;
      first [apply (fine_entry id _ "timestamp" fixTimestampFormat); [done|fine_const|reads]
            |apply (fine_entry id _ "metadata" (remap_of (splunk_program s))); [done|done|reads]|idtac].
    apply template_entry; [done|by apply part_free| |reads]. apply Ht. by left.
Qed.

Lemma http_ok h : out_HTTP (o_Spec o) = Some h → gives_sink (http_New parse_url id o inputs secrets op) "http".
Proof using Hop.
  intros E. unfold http_New. rewrite E. cbn [deref mbind outcome_bind].
  destruct (NewHttpAuth_returns (http_Authentication h) op Hop) as [auth ->]. cbn [mbind outcome_bind]. tls_ret.
  eexists. split; [reflexivity|]. split; [|done]. split_and!; [done| |entries].
  intros x. cbn [fst snd sink_inputs https_Inputs]. rewrite elem_of_sort_strings. apply reads_given.
Qed.

Lemma syslog_ok s : out_Syslog (o_Spec o) = Some s → (∀ t, t ∈ syslog_texts s → contained t) →
  is_Some (parse_url (syslog_URL s)) → String.length (syslog_PayloadKey s) ≠ 1%nat →
  gives_sink (syslog_New parse_url id o inputs secrets op) "socket".
Proof using Hid Hop.
  intros E Ht [u Hu] Hk. unfold syslog_New. rewrite E. cbn [deref mbind outcome_bind].
  assert (returns (parseEncoding inputs s)) as [t Hpe].
  { unfold parseEncoding. apply returns_bind; [|intros; apply returns_ret]. unfold PayloadKey.
    destruct (String.eqb_spec (syslog_PayloadKey s) "") as [_|Hne]; [by eexists|].
    destruct (Nat.ltb_spec (String.length (syslog_PayloadKey s)) 2) as [Hl|_]; [|by eexists].
    exfalso. revert Hk Hne Hl. destruct (syslog_PayloadKey s) as [|c [|d k]]; [done|done|cbn; lia]. }
  destruct (parseEncoding_safe inputs s t Ht Hpe) as [Hs Hr]. rewrite Hpe. cbn [mbind outcome_bind].
  rewrite Hu. cbn [deref mbind outcome_bind]. tls_ret.
  eexists. split; [reflexivity|]. split; [|done]. split_and!; [done|reads|]. entries.
  split_and!; [by apply own_MakeID|done|]. intros x Hx. by apply reads_given, Hr.
Qed.

Lemma azurelogsingestion_ok a : out_AzureLogsIngestion (o_Spec o) = Some a →
  gives_sink (azurelogsingestion_New parse_url id o inputs secrets op) "azure_logs_ingestion".
Proof using Hid Hop.
  intros E. unfold azurelogsingestion_New. rewrite E. cbn [deref mbind outcome_bind]. tls_ret.
  eexists. split; [reflexivity|]. split; [|done]. split_and!; [done|reads|]. entries.
  apply (fine_entry id _ "remap_reserved_keywords" RemapReservedKeywords); [done|fine_const|reads].
Qed.

Lemma azuremonitor_ok a : out_AzureMonitor (o_Spec o) = Some a →
  gives_sink (azuremonitor_New parse_url id o inputs secrets op) "azure_monitor_logs".
Proof using Hop.
  intros E. unfold azuremonitor_New. rewrite E. cbn [deref mbind outcome_bind]. tls_ret.
  eexists. split; [reflexivity|]. split; [|done]. split_and!; [done| |entries].
  intros x. cbn [fst snd sink_inputs aml_Inputs]. rewrite elem_of_sort_strings. apply reads_given.
Qed.

Lemma loki_ok l : out_Loki (o_Spec o) = Some l → contained (loki_TenantKey l) →
  gives_sink (loki_New parse_url id o inputs secrets op) "loki".
Proof using Hid Hop.
  intros E Hc. unfold loki_New. rewrite E. cbn [deref mbind outcome_bind].
  destruct (NewHttpAuth_returns (loki_Authentication l) op Hop) as [auth ->]. cbn [mbind outcome_bind]. tls_ret.
  eexists. split; [reflexivity|]. split; [|done]. split_and!; [done|cbn [fst snd sink_inputs ls_Inputs]|].
  - destruct (hasTenantKey (Some l)); reads.
  - destruct (hasTenantKey (Some l)); entries;
      first [apply (fine_entry id _ "remap_label" RemapLabels); [done|fine_const|reads]
            |apply (fine_entry id _ "remap" CleanupFields); [done|fine_const|reads]|idtac].
    apply template_entry; [done|by apply part_free|done|reads].
Qed.
End types.

(** ** OTLP *)

(** What is read of the counters of an output. *)
Definition metric_inputs (op : Options) : list string :=
  match op !! OptionLogsToMetricInputs with Some (AnyStrings l) => l | _ => [] end.

(** The options that a step leaves: those of the known types, with some more counters. *)
Record op_step (op op' : Options) (tfs : Transforms) : Prop := {
  os_ok : op_ok op';
  os_metrics : ∀ x, x ∈ metric_inputs op' → x ∈ metric_inputs op ∨ is_Some (tfs !! x);
  os_spec : op' !! CLFSpec = op !! CLFSpec;
}.

Lemma NewUnmatched_ok id op labels : op_ok op →
  ∃ t op', NewUnmatched id op labels = Ret (t, op') ∧ safe t ∧ inputs_of t = [UnmatchedRoute id] ∧
    op_ok op' ∧ (∀ x, x ∈ metric_inputs op' ↔ x ∈ metric_inputs op ∨ x = MakeID [id; Unmatched]) ∧
    ∀ k, k ≠ OptionLogsToMetricInputs → op' !! k = op !! k.
Proof.
  intros Hop. unfold NewUnmatched, AddToStringSet.
  assert (∃ l, as_strings (default (AnyStrings []) (op !! OptionLogsToMetricInputs)) = Ret l ∧ metric_inputs op = l) as (l & -> & Hl).
  { unfold metric_inputs. destruct (op !! OptionLogsToMetricInputs) as [v|] eqn:E; [|by eexists].
    destruct (Hop OptionLogsToMetricInputs (λ v, ∃ l, v = AnyStrings l) v) as [l ->]; [option_known|done|by eexists]. }
  cbn [mbind outcome_bind]. eexists _, _. split; [reflexivity|]. split_and!.
  - by apply no_program_safe.
  - cbn. apply sort_strings_singleton.
  - apply op_ok_insert; [done|]. option_type.
  - intros x. unfold metric_inputs at 1. rewrite lookup_insert_eq, Hl, elem_of_app, list_elem_of_singleton. done.
  - intros k Hk. by rewrite lookup_insert_ne.
Qed.

Notation assigned := (foldl (λ (tfs : Transforms) s, <[s.1 := s.2]> tfs)).

(** The transforms of the sources that are asked for. *)
Definition source_steps (id rerouteID : string) (sources : list string) : list (string * transform) :=
  omap (λ t, if has_source sources t.1.1
             then Some (MakeID [id; t.1.1], t.1.2 [MakeRouteInputID rerouteID t.1.1]) else None) source_transforms.

Lemma add_source_steps id rerouteID sources l tfs :
  foldl (add_source_transform id rerouteID sources) tfs l =
  assigned tfs (omap (λ t, if has_source sources t.1.1
             then Some (MakeID [id; t.1.1], t.1.2 [MakeRouteInputID rerouteID t.1.1]) else None) l).
Proof.
  revert tfs. induction l as [|t l IH]; intros tfs; [done|]. cbn [foldl omap list_omap]. rewrite IH.
  unfold add_source_transform. by destruct (has_source sources t.1.1).
Qed.

Lemma assigned_elem l : ∀ (tfs : Transforms) k t, assigned tfs l !! k = Some t → (k, t) ∈ l ∨ tfs !! k = Some t.
Proof.
  induction l as [|[k' t'] l IH]; intros tfs k t Hk; [by right|]. cbn [foldl fst snd] in Hk.
  destruct (IH _ _ _ Hk) as [?|[[<- <-]|[_ ?]]%lookup_insert_Some]; [left; by right|left; by left|by right].
Qed.

Lemma assigned_some l : ∀ (tfs : Transforms) k, is_Some (assigned tfs l !! k) ↔ k ∈ l.*1 ∨ is_Some (tfs !! k).
Proof.
  induction l as [|[k' t'] l IH]; intros tfs k; cbn [foldl fmap list_fmap fst snd]; [rewrite elem_of_nil; tauto|].
  rewrite IH, elem_of_cons, lookup_insert_is_Some'. naive_solver.
Qed.

Lemma assigned_other l : ∀ (tfs : Transforms) k, k ∉ l.*1 → assigned tfs l !! k = tfs !! k.
Proof.
  induction l as [|[k' t'] l IH]; intros tfs k; cbn [foldl fmap list_fmap fst snd]; [done|].
  intros [Hne Hl]%not_elem_of_cons. by rewrite IH, lookup_insert_ne by done.
Qed.

Lemma has_source_elem sources s : has_source sources s = true ↔ s ∈ sources.
Proof.
  unfold has_source. rewrite existsb_exists. setoid_rewrite String.eqb_eq.
  setoid_rewrite <-list_elem_of_In. naive_solver.
Qed.

(** Identifiers of different parts differ. *)
Lemma MakeID_ne id a b : id_ok id → FormatComponentID a ≠ FormatComponentID b → MakeID [id; a] ≠ MakeID [id; b].
Proof.
  intros [Hid _] Hne E. apply Hne. unfold MakeID in E. cbn [Join] in E. rewrite !FormatComponentID_app, Hid in E.
  by apply string_app_inj_l, string_app_inj_l in E.
Qed.

Lemma own_ne id k : own id k → k ≠ id.
Proof. intros [rest ->] E. apply (f_equal String.length) in E. rewrite !string_app_length in E. cbn in E. lia. Qed.

Lemma MakeRouteInputID_lower k s : MakeRouteInputID k (ToLower s) = MakeRouteInputID k s.
Proof. unfold MakeRouteInputID. cbn [Join]. by rewrite !ToLower_app, ToLower_idemp. Qed.

(** The sources of the steps, by their shape. *)
Lemma source_steps_elem id rerouteID sources k t : (k, t) ∈ source_steps id rerouteID sources →
  ∃ s, s ∈ source_transforms ∧ s.1.1 ∈ sources ∧ k = MakeID [id; s.1.1] ∧ t = s.1.2 [MakeRouteInputID rerouteID s.1.1].
Proof.
  unfold source_steps. rewrite list_elem_of_omap. intros (s & Hs & E). exists s.
  destruct (has_source sources s.1.1) eqn:Eh; [|done]. injection E as -> ->. by apply has_source_elem in Eh.
Qed.

Lemma source_ids_steps id rerouteID sources g x : x ∈ source_ids id sources g → x ∈ (source_steps id rerouteID sources).*1.
Proof.
  unfold source_ids, source_steps. rewrite list_elem_of_omap. intros (s & Hs & E).
  destruct (has_source sources s.1.1) eqn:Eh; [|done]. cbn [andb] in E. destruct (grouped g s.2); [|done]. injection E as <-.
  apply list_elem_of_fmap. eexists (_, _). split; [reflexivity|]. apply list_elem_of_omap. exists s. split; [done|]. by rewrite Eh.
Qed.

Lemma group_by_reads n by_ l x : x ∈ inputs_of (group_by n by_ l) ↔ x ∈ l.
Proof. apply elem_of_sort_strings. Qed.

(** The steps that group read the transforms of the sources. *)
Lemma reduce_steps_elem id rerouteID sources k t : id_ok id → (k, t) ∈ reduce_steps id sources →
  own id k ∧ k ≠ MakeID [id; "reroute"] ∧ safe t ∧ ∀ x, x ∈ inputs_of t → x ∈ (source_steps id rerouteID sources).*1.
Proof.
  intros Hid. unfold reduce_steps. rewrite !elem_of_app.
  assert (∀ part, part ∈ ["container"; "source"; "host"] →
    own id (MakeID [id; "groupby"; part]) ∧ MakeID [id; "groupby"; part] ≠ MakeID [id; "reroute"]) as Hk.
  { intros part. rewrite !elem_of_cons, elem_of_nil. intros Hp. split; [by apply own_MakeID2|].
    destruct Hp as [->|[->|[->|[]]]]; [apply (MakeID_ne id "groupby_container")|apply (MakeID_ne id "groupby_source")|
      apply (MakeID_ne id "groupby_host")]; done. }
  assert (∀ n by_ l, safe (group_by n by_ l)) as Hs by (intros; by apply no_program_safe).
  intros [H1|[H1|H1]].
  - destruct (has_source sources logSourceContainer) eqn:E; [|by apply elem_of_nil in H1].
    apply list_elem_of_singleton in H1 as [= -> ->]. destruct (Hk "container") as [? ?]; [by left|]. split_and!; [done..|apply Hs|].
    intros x ->%group_by_reads%list_elem_of_singleton. apply (source_ids_steps _ _ _ ByContainer).
    unfold source_ids. apply list_elem_of_omap. exists (logSourceContainer, TransformContainer, ByContainer). split; [by left|].
    cbn [fst snd]. by rewrite E.
  - destruct (_ <? _)%nat; [|by apply elem_of_nil in H1]. apply list_elem_of_singleton in H1 as [= -> ->].
    destruct (Hk "source") as [? ?]; [by right; left|]. split_and!; [done..|apply Hs|].
    intros x Hx%group_by_reads. by apply (source_ids_steps _ _ _ BySource).
  - destruct (_ <? _)%nat; [|by apply elem_of_nil in H1]. apply list_elem_of_singleton in H1 as [= -> ->].
    destruct (Hk "host") as [? ?]; [by right; right; left|]. split_and!; [done..|apply Hs|].
    intros x Hx%group_by_reads. by apply (source_ids_steps _ _ _ ByHost).
Qed.

Section otlp.
Context (id : string) (Hid : id_ok id).

Notation rerouteID := (MakeID [id; "reroute"]).
Notation traceID := (MakeID [id; "trace"; "context"]).
Notation resourceID := (MakeID [id; "resource"; "logs"]).

Lemma route_by_source l sources : ∃ r, RouteBySource l sources = TRoute (Some r) ∧ route_Inputs r = sort_strings l ∧
  ∀ s, s ∈ sources → is_Some (route_Routes r !! ToLower s).
Proof.
  eexists. split; [reflexivity|]. split; [done|]. intros s Hs. apply map_of_assignments_dom.
  rewrite <-list_fmap_compose. apply list_elem_of_fmap. exists s. split; [done|]. by apply elem_of_sort_strings.
Qed.

Lemma source_steps_ne sources : rerouteID ∉ (source_steps id rerouteID sources).*1.
Proof using Hid.
  intros ([k t] & E & (s & Hs & _ & Ek & _)%source_steps_elem)%list_elem_of_fmap_1. cbn in E. subst k.
  revert Ek. apply MakeID_ne; [done|]. revert Hs. unfold source_transforms. rewrite !elem_of_cons, elem_of_nil.
  by intros [->|[->|[->|[->|[->|[->|[]]]]]]].
Qed.

(** What is there before the steps of the sources. *)
Definition otlp_base (inputs sources : list string) (fromLokistack : bool) : Transforms :=
  if fromLokistack then {[rerouteID := RouteBySource inputs sources]}
  else <[rerouteID := RouteBySource [traceID] sources]> {[traceID := TransformTraceContext inputs]}.

(** The route transform stays, and everything that was assigned is there. *)
Lemma otlp_final inputs sources from (u res : transform) :
  let final := <[resourceID := res]> (assigned (assigned (<[MakeID [rerouteID; Unmatched] := u]> (otlp_base inputs sources from))
                 (source_steps id rerouteID sources)) (reduce_steps id sources)) in
  (∀ k, is_Some (final !! k) ↔ k = resourceID ∨ k ∈ (reduce_steps id sources).*1 ∨ k ∈ (source_steps id rerouteID sources).*1 ∨
    k = MakeID [rerouteID; Unmatched] ∨ is_Some (otlp_base inputs sources from !! k)) ∧
  ∃ r, final !! rerouteID = Some (TRoute (Some r)) ∧ ∀ s, s ∈ sources → is_Some (route_Routes r !! ToLower s).
Proof using Hid.
  intros final. split.
  { intros k. unfold final. rewrite lookup_insert_is_Some', !assigned_some, lookup_insert_is_Some'. naive_solver. }
  destruct (route_by_source (if from then inputs else [traceID]) sources) as (r & E & _ & Hrs). exists r. split; [|done].
  unfold final. rewrite lookup_insert_ne by (apply (MakeID_ne id "resource_logs"); done).
  rewrite assigned_other by (intros ([k t] & E' & Hin)%list_elem_of_fmap_1; cbn in E'; subst k;
    by destruct (reduce_steps_elem id rerouteID sources _ _ Hid Hin) as (_ & ? & _)).
  rewrite assigned_other by apply source_steps_ne.
  rewrite lookup_insert_ne by by apply own_ne, own_MakeID, MakeID_part_ok.
  unfold otlp_base. rewrite <-E. destruct from; [by rewrite lookup_singleton_eq|by rewrite lookup_insert_eq].
Qed.

Lemma otlp_base_entries (may : string → Prop) inputs sources from :
  (∀ x, x ∈ inputs → may x) → (from = false → may traceID) → map_Forall (entry id may) (otlp_base inputs sources from).
Proof using Hid.
  intros Hi Ht. assert (∀ l, (∀ x, x ∈ l → may x) → entry id may rerouteID (RouteBySource l sources)) as Hroute.
  { intros l Hl. destruct (route_by_source l sources) as (r & -> & E & _).
    split_and!; [by apply own_MakeID|by apply no_program_safe|]. intros x. cbn. rewrite E, elem_of_sort_strings. apply Hl. }
  unfold otlp_base. destruct from; entries.
  - by apply Hroute.
  - apply Hroute. intros x ->%list_elem_of_singleton. by apply Ht.
  - assert (fine TransformTraceContext) as Hf by fine_const. destruct (Hf inputs) as [Hs Hr].
    split_and!; [by apply own_MakeID2|done|]. auto.
Qed.

Lemma otlp_transforms_ok inputs sources from op : op_ok op →
  ∃ tfs op', otlp_transforms id inputs sources from op = Ret (tfs, op') ∧
    map_Forall (entry id (may_read inputs tfs)) tfs ∧ is_Some (tfs !! resourceID) ∧ op_step op op' tfs ∧
    ∀ k, k ≠ OptionLogsToMetricInputs → op' !! k = op !! k.
Proof using Hid.
  intros Hop. unfold otlp_transforms. fold (otlp_base inputs sources from).
  destruct (NewUnmatched_ok rerouteID op ∅ Hop) as (u & op' & -> & Hu & Hui & Hop' & Hm & Hk). cbn [mbind outcome_bind fst snd].
  rewrite add_source_steps. fold (source_steps id rerouteID sources).
  destruct (otlp_final inputs sources from u (FormatResourceLog (reduce_steps id sources).*1)) as [Hsome (r & Hr & Hroutes)].
  set (final := <[resourceID := _]> _) in *.
  assert (∀ x, is_Some (final !! x) → may_read inputs final x) as Hmay by (intros x Hx; right; by left).
  exists final, op'. split; [reflexivity|]. split_and!; [|by apply Hsome; left| |done].
  - intros k t [[<- <-]|[_ [Hkt|[Hkt|[[<- <-]|[_ Hkt]]%lookup_insert_Some]%assigned_elem]%assigned_elem]]%lookup_insert_Some.
    + apply (fine_entry id _ "resource_logs" FormatResourceLog); [done|fine_const|]. intros x Hx. apply Hmay, Hsome. tauto.
    + destruct (reduce_steps_elem id rerouteID sources k t Hid Hkt) as (? & _ & ? & Hreads). split_and!; [done..|].
      intros x Hx%Hreads. apply Hmay, Hsome. tauto.
    + apply source_steps_elem in Hkt as (s & Hs & Hin & -> & ->).
      pose proof (proj1 (Forall_forall _ _) fine_sources s Hs) as Hf. apply (fine_entry id _ s.1.1 s.1.2); [done..|].
      intros x ->%list_elem_of_singleton. right; right. exists rerouteID, r. split; [done|]. right.
      exists (ToLower s.1.1). split; [by apply Hroutes|]. by rewrite MakeRouteInputID_lower.
    + split_and!; [|done|].
      * eapply own_own; apply own_MakeID; [done|by apply MakeID_part_ok].
      * intros x. rewrite Hui. intros ->%list_elem_of_singleton. right; right. exists rerouteID, r. split; [done|by left].
    + revert k t Hkt. apply otlp_base_entries; [by left|].
      intros ->. apply Hmay, Hsome. do 4 right. unfold otlp_base. apply lookup_insert_is_Some'. right.
      rewrite lookup_singleton_eq. by eexists.
  - split; [done| |by apply Hk]. intros x [?| ->]%Hm; [by left|right]. apply Hsome. tauto.
Qed.
End otlp.

Lemma otlp_sink_ok `{UintOfFloat} parse_url id o secrets op spec :
  op_ok op → out_OTLP (o_Spec o) = Some spec →
  ∃ s, otlp_sink parse_url id o secrets op = Ret s ∧ sink_inputs s = [MakeID [id; "resource"; "logs"]] ∧ SinkType s = "opentelemetry".
Proof.
  intros Hop E. unfold otlp_sink. rewrite E. cbn [deref mbind outcome_bind].
  assert (returns (if bool_decide (is_Some (out_TLS (o_Spec o))) && IsSecure parse_url (otlp_URL spec)
         then NewTls parse_url (Some o) secrets op [] else Ret None)) as [tls ->].
  { destruct (_ && _); [by apply NewTls_ok|apply returns_ret]. }
  cbn [mbind outcome_bind]. destruct (NewHttpAuth_returns (otlp_Authentication spec) op Hop) as [auth ->].
  eexists. split; [reflexivity|]. split; [|done]. apply sort_strings_singleton.
Qed.

Lemma otlp_ok `{UintOfFloat} parse_url id o inputs secrets op spec :
  id_ok id → op_ok op → out_OTLP (o_Spec o) = Some spec →
  ∃ m op', otlp_New parse_url id o inputs secrets op = Ret (m, op') ∧ made_ok id inputs m ∧ SinkType m.1.2 = "opentelemetry" ∧
    op_step op op' m.2 ∧ ∀ k, k ≠ OptionLogsToMetricInputs → op' !! k = op !! k.
Proof.
  intros Hid Hop E. unfold otlp_New, GetOption.
  assert (∃ r, match op !! OtlpLogSourcesOption with None => Ret (allLogSources, false) | Some v => v' ← as_strings v; Ret (v', true) end
    = Ret r ∧ r.1 ≠ []) as ([sources f] & -> & Hne).
  { destruct (op !! OtlpLogSourcesOption) as [v|] eqn:Es; [|by eexists].
    destruct (Hop OtlpLogSourcesOption (λ v, ∃ l, v = AnyStrings l ∧ l ≠ []) v) as (l & -> & Hl); [option_known|done|by eexists]. }
  cbn [mbind outcome_bind fst]. destruct (Nat.eqb_spec (length sources) 0) as [H0|_]; [by destruct sources|].
  assert (∃ r, match op !! MigratedFromLokistackOption with None => Ret (false, false) | Some v => v' ← as_bool v; Ret (v', true) end
    = Ret r) as ([from f'] & ->).
  { destruct (op !! MigratedFromLokistackOption) as [v|] eqn:Es; [|by eexists].
    destruct (Hop MigratedFromLokistackOption (λ v, ∃ b, v = AnyBool b) v) as (b & ->); [option_known|done|by eexists]. }
  cbn [mbind outcome_bind fst].
  destruct (otlp_transforms_ok id Hid inputs sources from op Hop) as (tfs & op' & -> & Ht & Hres & Hstep & Hk).
  cbn [mbind outcome_bind fst snd].
  destruct (otlp_sink_ok parse_url id o secrets op' spec (os_ok _ _ _ Hstep) E) as (s & -> & Hi & Hty).
  eexists _, _. split; [reflexivity|]. cbn [fst snd]. split_and!; [|done..]. split_and!; [done| |done].
  cbn [fst snd]. intros x. rewrite Hi. intros ->%list_elem_of_singleton. right; by left.
Qed.
