(* ===== verification/LokiStackSpec.v ===== *)
(** * What a LokiStack output is made of

    One output per tenant, behind a route transform, and what the factory makes of any
    output that is ready. *)

From S2P Require Import Prelude GoStrings Regex ApiCommon ApiInputs ApiOutputs ApiForwarder Toml Transforms VrlText.
From S2P Require Import Sets ObsResources ObsInputs ObsOutputs ObsForwarder ValidateOutputs VectorHelpers FilterVRL Adapters Tls.
From S2P Require Import Sources SourcesSpec Template SinkTypes OutputCommon Outputs SyslogOutput LokiOutput OtlpOutput OutputFactory.
From S2P Require Import OutputTexts OutputsSpec.

(** ** Tenants *)

Definition tenant_names : list string := [InputTypeApplication; InputTypeAudit; InputTypeInfrastructure].

(** Receivers have their section. *)
Definition receivers_ready (inputs : list InputSpec) : Prop :=
  ∀ i, i ∈ inputs → in_Type i = InputTypeReceiver → ∃ r, in_Receiver i = Some r ∧ recv_Type r ∈ ReceiverTypes.

(** The tenants an input is for. *)
Definition tenant_of (i : InputSpec) (t : string) : Prop :=
  (in_Type i = InputTypeApplication ∧
     (t = InputTypeApplication ∨ t = InputTypeInfrastructure ∧ IncludesInfraNamespace (in_Application i) = true)) ∨
  (in_Type i = InputTypeAudit ∧ t = InputTypeAudit) ∨
  (in_Type i = InputTypeInfrastructure ∧ t = InputTypeInfrastructure) ∨
  (in_Type i = InputTypeReceiver ∧ ∃ r, in_Receiver i = Some r ∧ t = getTenantForReceiver (recv_Type r)).

Lemma input_tenants_ok i : (in_Type i = InputTypeReceiver → is_Some (in_Receiver i)) →
  ∃ l, input_tenants i = Ret l ∧ ∀ t, t ∈ l ↔ tenant_of i t.
Proof.
  intros Hr. unfold input_tenants, tenant_of.
  destruct (String.eqb_spec (in_Type i) InputTypeApplication) as [->|Ha].
  { eexists. split; [reflexivity|]. intros t. destruct (IncludesInfraNamespace _);
      rewrite !elem_of_cons, elem_of_nil; unfold InputTypeAudit, InputTypeInfrastructure, InputTypeReceiver, InputTypeApplication; naive_solver. }
  destruct (String.eqb_spec (in_Type i) InputTypeAudit) as [->|Hu].
  { eexists. split; [reflexivity|]. intros t. rewrite elem_of_cons, elem_of_nil. naive_solver. }
  destruct (String.eqb_spec (in_Type i) InputTypeInfrastructure) as [->|Hi].
  { eexists. split; [reflexivity|]. intros t. rewrite elem_of_cons, elem_of_nil. naive_solver. }
  destruct (String.eqb_spec (in_Type i) InputTypeReceiver) as [E|Hc].
  { destruct (Hr E) as [r ->]. eexists. split; [reflexivity|]. intros t. rewrite elem_of_cons, elem_of_nil. naive_solver. }
  eexists. split; [reflexivity|]. intros t. rewrite elem_of_nil. naive_solver.
Qed.

Lemma determineTenants_ok inputs : receivers_ready inputs →
  ∃ s, determineTenants inputs = Ret s ∧ ∀ t, t ∈ s ↔ ∃ i, i ∈ inputs ∧ tenant_of i t.
Proof.
  intros Hr. unfold determineTenants.
  assert (∀ i, i ∈ inputs → in_Type i = InputTypeReceiver → is_Some (in_Receiver i)) as Hrs.
  { intros i Hi E. destruct (Hr i Hi E) as (r & -> & _). by eexists. }
  assert (returns (concat_mapM input_tenants inputs)) as [l El].
  { apply concat_mapM_returns. intros i Hi. destruct (input_tenants_ok i (Hrs i Hi)) as (l & -> & _). apply returns_ret. }
  rewrite El. eexists. split; [reflexivity|]. intros t. rewrite elem_of_NewString, (elem_of_concat_mapM _ _ _ _ El). split.
  - intros (i & l' & Hi & Ei & Ht). exists i. split; [done|].
    destruct (input_tenants_ok i (Hrs i Hi)) as (l2 & E2 & Hl2). rewrite E2 in Ei. injection Ei as ->. by apply Hl2.
  - intros (i & Hi & Ht). destruct (input_tenants_ok i (Hrs i Hi)) as (l2 & E2 & Hl2). exists i, l2. split_and!; [done..|]. by apply Hl2.
Qed.

Lemma tenant_name i t : tenant_of i t → t ∈ tenant_names.
Proof.
  unfold tenant_of, getTenantForReceiver, tenant_names. rewrite !elem_of_cons, elem_of_nil. intros Ht.
  destruct Ht as [[_ [->|[-> _]]]|[[_ ->]|[[_ ->]|(_ & r & _ & ->)]]]; try tauto. destruct (_ == _); tauto.
Qed.

(** The inputs of an output are inputs of the spec, or of no type. *)
Lemma foldl_keeps {A B} (P : A → Prop) (f : A → B → A) l : (∀ a b, b ∈ l → P a → P (f a b)) → ∀ a, P a → P (foldl f a l).
Proof.
  induction l as [|b l IH]; intros Hf a Ha; [done|]. cbn [foldl]. apply IH.
  - intros a' b' Hb. apply Hf. by right.
  - apply Hf; [by left|done].
Qed.

Lemma InputSpecsTo_elem `{RangeOrder} spec out i : i ∈ InputSpecsTo spec out → i ∈ spec_Inputs spec ∨ i = InputSpec_zero.
Proof.
  unfold InputSpecsTo. intros ([k v] & -> & Hk%elem_of_range)%list_elem_of_fmap_1. cbn [snd]. revert k v Hk.
  set (P := λ m : gmap string InputSpec, ∀ k v, m !! k = Some v → v ∈ spec_Inputs spec ∨ v = InputSpec_zero).
  change (P (foldl (λ found p,
      if Has (NewString (pipe_OutputRefs p)) (out_Name out) then
        foldl (λ found ref, <[ref := default InputSpec_zero (Inputs_Map (spec_Inputs spec) !! ref)]> found)
          found (pipe_InputRefs p)
      else found) ∅ (spec_Pipelines spec))).
  apply foldl_keeps; [|by intros ? ? ?%lookup_empty_Some]. intros m p _ Hm. destruct (Has _ _); [|done].
  apply foldl_keeps; [|done]. clear m Hm. intros m ref _ Hm k v [[_ <-]|[_ Hv]]%lookup_insert_Some; [|by eapply Hm].
  destruct (Inputs_Map (spec_Inputs spec) !! ref) as [i|] eqn:E; [left; cbn|by right].
  by apply Inputs_Map_name in E as [_ ?].
Qed.

(** ** The sources of a tenant *)

(** Some input of the output collects for the tenant what a source is known for. *)
Definition has_sources (inputs : list InputSpec) (t : string) : Prop :=
  ∃ i, i ∈ inputs ∧
    (in_Type i = t ∨ in_Type i = InputTypeReceiver ∧ ∃ r, in_Receiver i = Some r ∧ t = getTenantForReceiver (recv_Type r)).

Section sources.
Context `{RangeOrder}.

(** What an input of the tenant adds. *)
Definition added_sources (i : InputSpec) : list string :=
  if in_Type i == InputTypeApplication then List ReservedApplicationSources
  else if in_Type i == InputTypeInfrastructure then
    match in_Infrastructure i with
    | Some infra => if (length (infra_Sources infra) =? 0)%nat then List ReservedInfrastructureSources else infra_Sources infra
    | None => List ReservedInfrastructureSources
    end
  else if in_Type i == InputTypeAudit then
    match in_Audit i with
    | Some audit => if (length (audit_Sources audit) =? 0)%nat then List ReservedAuditSources else audit_Sources audit
    | None => List ReservedAuditSources
    end
  else [].

Lemma InputSources_add_eq t s i : InputSources_add t s i = if in_Type i == t then Insert s (added_sources i) else s.
Proof.
  unfold InputSources_add, added_sources. destruct (in_Type i == t); [|done].
  repeat case_match; done.
Qed.

Lemma added_sources_nonempty i : in_Type i ∈ tenant_names → ∃ x, x ∈ added_sources i.
Proof.
  unfold tenant_names, added_sources. rewrite !elem_of_cons, elem_of_nil.
  assert (∀ (l : list string) s, (∃ x, x ∈ List s) → ∃ x, x ∈ (if (length l =? 0)%nat then List s else l)) as Hl.
  { intros l s Hs. destruct l as [|x l]; [done|]. exists x. by left. }
  assert (∀ s : gset string, (∃ x, x ∈ s) → ∃ x, x ∈ List s) as Hs by (intros s [x Hx]; exists x; by apply elem_of_List).
  assert (∀ x l, ∃ y, y ∈ NewString (x :: l)) as Hne by (intros x l; exists x; apply elem_of_NewString; by left).
  intros [->|[->|[->|[]]]]; cbn [String.eqb Ascii.eqb Bool.eqb InputTypeApplication InputTypeAudit InputTypeInfrastructure].
  - apply Hs, Hne.
  - change (∃ x, x ∈ match in_Audit i with Some audit => if (length (audit_Sources audit) =? 0)%nat then List ReservedAuditSources
      else audit_Sources audit | None => List ReservedAuditSources end).
    destruct (in_Audit i); [apply Hl|]; apply Hs, Hne.
  - change (∃ x, x ∈ match in_Infrastructure i with Some infra => if (length (infra_Sources infra) =? 0)%nat
      then List ReservedInfrastructureSources else infra_Sources infra | None => List ReservedInfrastructureSources end).
    destruct (in_Infrastructure i); [apply Hl|]; apply Hs, Hne.
Qed.


Lemma elem_of_InputSources inputs t x :
  x ∈ InputSources inputs t ↔ ∃ i, i ∈ inputs ∧ in_Type i = t ∧ x ∈ added_sources i.
Proof.
  unfold InputSources. rewrite elem_of_SortedList.
  assert (∀ s, x ∈ foldl (InputSources_add t) s inputs ↔ x ∈ s ∨ ∃ i, i ∈ inputs ∧ in_Type i = t ∧ x ∈ added_sources i) as Hf.
  { induction inputs as [|i inputs IH]; intros s; cbn [foldl]; [setoid_rewrite elem_of_nil; naive_solver|].
    rewrite IH, InputSources_add_eq. setoid_rewrite elem_of_cons.
    destruct (String.eqb_spec (in_Type i) t) as [E|E]; rewrite ?elem_of_Insert; naive_solver. }
  rewrite Hf. set_solver.
Qed.

Definition receiver_source (inputType : string) (i : InputSpec) : list string :=
  if in_Type i != InputTypeReceiver then []
  else match in_Receiver i with
       | Some r =>
           if inputType == InputTypeAudit then (if recv_Type r == ReceiverTypeHTTP then ["receiver.http"] else [])
           else if inputType == InputTypeInfrastructure then (if recv_Type r == ReceiverTypeSyslog then ["receiver.syslog"] else [])
           else []
       | None => []
       end.

Lemma getInputSources_ok inputs t : receivers_ready inputs → t ∈ tenant_names →
  ∃ l, getInputSources inputs t = Ret l ∧ (l ≠ [] ↔ has_sources inputs t).
Proof.
  intros Hr Ht. unfold getInputSources, addReceiverSources.
  match goal with |- context [concat_mapM ?f inputs] => assert (∀ i, i ∈ inputs → f i = Ret (receiver_source t i)) as Hf end.
  { intros i Hi. unfold receiver_source. destruct (String.eqb_spec (in_Type i) InputTypeReceiver) as [E|_]; [|done].
    destruct (Hr i Hi E) as (r & -> & _). cbn [negb deref mbind outcome_bind]. by repeat case_match. }
  match goal with |- context [concat_mapM ?f inputs] => destruct (concat_mapM_returns f inputs) as [l El] end.
  { intros i Hi. rewrite Hf by done. apply returns_ret. }
  rewrite El. cbn [mbind outcome_bind]. eexists. split; [reflexivity|].
  assert (∀ l : list string, l ≠ [] ↔ ∃ x, x ∈ l) as Hne.
  { intros [|x l']; [set_solver|]. split; [intros _; exists x; by left|done]. }
  rewrite Hne. setoid_rewrite elem_of_app. setoid_rewrite elem_of_InputSources. setoid_rewrite (elem_of_concat_mapM _ _ _ _ El).
  unfold has_sources. split.
  - intros (x & [(i & Hi & E & _)|(i & zs & Hi & Ez & Hx)]); [exists i; auto|]. rewrite Hf in Ez by done. injection Ez as <-.
    exists i. split; [done|]. right. revert Hx. unfold receiver_source, getTenantForReceiver.
    destruct (String.eqb_spec (in_Type i) InputTypeReceiver) as [E|_]; [|by intros ?%elem_of_nil]. cbn [negb].
    destruct (Hr i Hi E) as (r & -> & Hrt). intros Hx. split; [done|]. exists r. split; [done|]. revert Hx.
    destruct (String.eqb_spec t InputTypeAudit) as [->|_].
    + destruct (recv_Type r == ReceiverTypeHTTP); [done|by intros ?%elem_of_nil].
    + destruct (String.eqb_spec t InputTypeInfrastructure) as [->|_]; [|by intros ?%elem_of_nil].
      destruct (String.eqb_spec (recv_Type r) ReceiverTypeSyslog) as [->|_]; [done|by intros ?%elem_of_nil].
  - intros (i & Hi & [E|(E & r & Er & E')]).
    + subst t. destruct (added_sources_nonempty i Ht) as [x Hx]. exists x. left. by exists i.
    + assert (∃ x, x ∈ receiver_source t i) as [x Hx]; [|exists x; right; exists i, (receiver_source t i); by rewrite Hf].
      unfold receiver_source. rewrite E, Er, E'. destruct (Hr i Hi E) as (r' & Er' & Hrt). assert (r' = r) as -> by congruence.
      revert Hrt. unfold ReceiverTypes. rewrite !elem_of_cons, elem_of_nil.
      intros [->|[->|[]]]; cbn; eexists; by apply list_elem_of_singleton.
Qed.
End sources.

(** Where an application input includes infrastructure namespaces, something else collects
    from the sources of that tenant. *)
Definition infra_covered (inputs : list InputSpec) : Prop :=
  ∀ i, i ∈ inputs → in_Type i = InputTypeApplication → IncludesInfraNamespace (in_Application i) = true →
    has_sources inputs InputTypeInfrastructure.

Lemma tenants_have_sources inputs t i :
  i ∈ inputs → tenant_of i t → has_sources inputs t ∨ t = InputTypeInfrastructure ∧ in_Type i = InputTypeApplication ∧
    IncludesInfraNamespace (in_Application i) = true.
Proof.
  intros Hi Ht. unfold tenant_of, has_sources in *.
  destruct Ht as [[E [->|[-> Hn]]]|[[E ->]|[[E ->]|(E & r & Er & ->)]]]; try (left; exists i; split; [done|]; by left).
  - by right.
  - left. exists i. split; [done|]. right. split; [done|]. by exists r.
Qed.

(** ** One tenant *)

Definition otel (ls : LokiStack) : bool := lstack_DataModel ls == LokiStackDataModelOpenTelemetry.

Lemma lokiStackURL_some ls t : t ∈ tenant_names → (lokiStackURL ls t false == "") = false.
Proof.
  intros Ht. assert (Has ReservedInputTypes t = true) as E.
  { unfold tenant_names in Ht. rewrite !elem_of_cons, elem_of_nil in Ht. by destruct Ht as [->|[->|[->|[]]]]; vm_compute. }
  unfold lokiStackURL. by rewrite E.
Qed.

Section tenant.
Context `{RangeOrder, UintOfFloat} (parse_url : string → option URL).
Context (id : string) (o : OutputSpec) (ls : LokiStack) (inputSpecs : list InputSpec) (secrets : Secrets).
Context (Hid : id_ok id) (Hls : out_LokiStack o = Some ls) (Hauth : is_Some (lstack_Authentication ls)).
Context (Hrecv : receivers_ready inputSpecs).

Notation routeID := (MakeID [id; "route"]).

Lemma tenant_free t : t ∈ tenant_names → in_string "'" t = false.
Proof. unfold tenant_names. rewrite !elem_of_cons, elem_of_nil. by intros [->|[->|[->|[]]]]. Qed.

Lemma tenant_sink_ok t op : t ∈ tenant_names → op_ok op → (otel ls = true → has_sources inputSpecs t) →
  ∃ m op', generateSinkForTenant parse_url id routeID t o inputSpecs secrets op = Ret (m, op') ∧
    made_ok (MakeID [id; t]) [MakeRouteInputID routeID t] m ∧
    SinkType m.1.2 = (if otel ls then "opentelemetry" else "loki") ∧ op_step op op' m.2.
Proof using Hid Hls Hauth Hrecv.
  intros Ht Hop Hsrc. destruct Hauth as [auth Ea]. unfold generateSinkForTenant, GenerateOutput.
  rewrite Hls. cbn [deref mbind outcome_bind]. unfold GenerateOtlpSpec, GenerateLokiSpec. rewrite Ea, (lokiStackURL_some ls t Ht).
  cbn [deref mbind outcome_bind]. fold (otel ls).
  assert (id_ok (MakeID [id; t])) as Hidt by (apply MakeID_part_ok; [done|by apply tenant_free]).
  destruct (otel ls) eqn:Em; cbn [mbind outcome_bind tenant_output out_Type].
  - change (OutputTypeOTLP == OutputTypeOTLP) with true. cbn [mbind outcome_bind].
    destruct (getInputSources_ok inputSpecs t Hrecv Ht) as (l & -> & Hl). apply proj2 in Hl. specialize (Hl (Hsrc eq_refl)).
    cbn [mbind outcome_bind]. set (op1 := <[MigratedFromLokistackOption := _]> _). set (adapter := {| o_Spec := _; o_InputIDs := _ |}).
    assert (op_ok op1) as Hop1 by (apply op_ok_insert; [apply op_ok_insert; [done|]|]; option_type).
    destruct (otlp_ok parse_url (MakeID [id; t]) adapter [MakeRouteInputID routeID t] secrets op1 _ Hidt Hop1 eq_refl)
      as (m & op' & -> & Hm & Hty & [Hok Hmet Hspec] & Hk).
    exists m, op'. split; [reflexivity|]. split_and!; [done..|]. split; [done| |].
    + intros x [Hx|Hx]%Hmet; [left|by right]. revert Hx. unfold metric_inputs, op1. by rewrite !lookup_insert_ne by done.
    + rewrite Hspec. unfold op1. by rewrite !lookup_insert_ne by done.
  - change (OutputTypeLoki == OutputTypeOTLP) with false. cbn [mbind outcome_bind].
    set (loki := {| loki_URLSpec := _ |}).
    destruct (loki_ok parse_url (MakeID [id; t]) (NewOutput (tenant_output o t OutputTypeLoki None (Some loki)))
      [MakeRouteInputID routeID t] secrets op Hidt Hop loki eq_refl eq_refl) as (m & Em' & Hm & Hty).
    rewrite Em'. exists m, op. split; [reflexivity|]. split_and!; [done..|]. split; [done|by left|done].
Qed.
End tenant.

(** ** The tenants of an output *)

Lemma op_step_trans op op1 op2 (t1 t2 : Transforms) : op_step op op1 t1 → op_step op1 op2 t2 → op_step op op2 (t2 ∪ t1).
Proof.
  intros [_ Hm1 Hs1] [Hok Hm2 Hs2]. split; [done| |by rewrite Hs2].
  intros x [Hx|Hx]%Hm2; [|right; apply lookup_union_is_Some; by left].
  destruct (Hm1 x Hx) as [?|?]; [by left|]. right. apply lookup_union_is_Some. by right.
Qed.

(** The identifiers of different tenants, and of the transforms before them, are apart. *)
Lemma tenants_apart id t t' k : t ∈ tenant_names → t' ∈ tenant_names → id_ok id →
  own (MakeID [id; t]) k → own (MakeID [id; t']) k → t = t'.
Proof.
  unfold tenant_names. rewrite !elem_of_cons, !elem_of_nil. intros Ht Ht' [Hid _] [r ->] [r' E]. revert E.
  unfold MakeID. cbn [Join]. rewrite !FormatComponentID_app, Hid, !string_app_assoc. intros E%string_app_inj_l%string_app_inj_l.
  destruct Ht as [->|[->|[->|[]]]], Ht' as [->|[->|[->|[]]]]; try done; vm_compute in E; discriminate.
Qed.

Lemma tenant_apart id t part : t ∈ tenant_names → id_ok id →
  part ∈ ["trace_context"; "route"; "route_unmatched"] → ¬ own (MakeID [id; t]) (MakeID [id; part]).
Proof.
  unfold tenant_names. rewrite !elem_of_cons, !elem_of_nil. intros Ht [Hid _] Hp [r E]. revert E.
  unfold MakeID. cbn [Join]. rewrite !FormatComponentID_app, Hid, !string_app_assoc. intros E%string_app_inj_l%string_app_inj_l.
  destruct Ht as [->|[->|[->|[]]]], Hp as [->|[->|[->|[]]]]; vm_compute in E; discriminate.
Qed.

Lemma may_read_mono inputs inputs' (tfs tfs' : Transforms) x :
  (∀ y, y ∈ inputs → may_read inputs' tfs' y) → (provided tfs x → provided tfs' x) → may_read inputs tfs x → may_read inputs' tfs' x.
Proof. intros Hi Hp [Hx|Hx]; [by apply Hi|right; auto]. Qed.

Section loop.
Context (id : string) (Hid : id_ok id) (ls : LokiStack) (inputs tenants : list string) (op0 : Options).

Notation routeID := (MakeID [id; "route"]).

(** Sinks of the tenants that were added, behind a route to each tenant there is. *)
Record tenants_inv (added : list string) (st : Sinks * Transforms * Options) : Prop := {
  ti_outs : outs_ok id inputs st.1.1 st.1.2;
  ti_route : ∃ r, st.1.2 !! routeID = Some (TRoute (Some r)) ∧ ∀ t, t ∈ tenants → is_Some (route_Routes r !! t);
  ti_keys : ∀ k, is_Some (st.1.2 !! k) →
    (∃ part, part ∈ ["trace_context"; "route"; "route_unmatched"] ∧ k = MakeID [id; part]) ∨ ∃ t, t ∈ added ∧ own (MakeID [id; t]) k;
  ti_step : op_step op0 st.2 st.1.2;
  ti_dom : ∀ k, is_Some (st.1.1 !! k) ↔ ∃ t, t ∈ added ∧ k = MakeID [id; t];
  ti_type : ∀ k s, st.1.1 !! k = Some s → SinkType s = if otel ls then "opentelemetry" else "loki";
}.

Lemma add_tenant_inv added t (sinks : Sinks) (tfs : Transforms) op (m : made_sink) op' :
  (∀ t', t' ∈ t :: added → t' ∈ tenant_names) → t ∉ added → t ∈ tenants → tenants_inv added (sinks, tfs, op) →
  made_ok (MakeID [id; t]) [MakeRouteInputID routeID t] m → SinkType m.1.2 = (if otel ls then "opentelemetry" else "loki") →
  op_step op op' m.2 → tenants_inv (t :: added) (<[m.1.1 := m.1.2]> sinks, m.2 ∪ tfs, op').
Proof using Hid.
  intros Hnames Hnew Htn [[Ht Hs] (r & Hr & Hroutes) Hkeys Hstep Hdom Htype] (Eid & Hms & Hmt) Hmty Hop.
  cbn [fst snd] in *. apply forall_cons_iff in Hnames as [Hname Hnames].
  assert (own id (MakeID [id; t])) as Hown by by apply own_MakeID.
  assert (m.2 ##ₘ tfs) as Hdisj.
  { apply map_disjoint_spec. intros k t1 t2 H1 H2. destruct (Hmt k t1 H1) as [Hk _].
    destruct (Hkeys k) as [(part & Hp & ->)|(t' & Ht' & Hk')]; [by eexists|by eapply tenant_apart|].
    apply Hnew. by rewrite (tenants_apart id t t' k Hname (Hnames t' Ht') Hid Hk Hk'). }
  assert ((m.2 ∪ tfs) !! routeID = Some (TRoute (Some r))) as Hr' by by apply lookup_union_Some_r.
  assert (∀ x, may_read [MakeRouteInputID routeID t] m.2 x → may_read inputs (m.2 ∪ tfs) x) as Hnewr.
  { intros x. apply may_read_mono; [|apply provided_union_l]. intros y ->%list_elem_of_singleton. right; right.
    exists routeID, r. split; [done|]. right. exists t. split; [by apply Hroutes|done]. }
  assert (∀ x, may_read inputs tfs x → may_read inputs (m.2 ∪ tfs) x) as Hold.
  { intros x. apply may_read_mono; [by left|by apply provided_union_r]. }
  split; cbn [fst snd].
  - split.
    + intros k t1 [H1|H1]%lookup_union_Some; [| |done].
      * destruct (Hmt k t1 H1) as (? & ? & ?). split_and!; [by eapply own_own|done|auto].
      * eapply entry_mono; [exact Hold|by apply Ht].
    + intros k s [[<- <-]|[_ Hk]]%lookup_insert_Some.
      * split; [right; by rewrite Eid|auto].
      * destruct (Hs k s Hk). split; [done|auto].
  - by exists r.
  - intros k [Hk|Hk]%lookup_union_is_Some.
    + destruct Hk as [t1 Hk]. right. exists t. split; [by left|]. by destruct (Hmt k t1 Hk).
    + destruct (Hkeys k Hk) as [?|(t' & ? & ?)]; [by left|]. right. exists t'. split; [by right|done].
  - by eapply op_step_trans.
  - intros k. rewrite lookup_insert_is_Some', Hdom, Eid. setoid_rewrite elem_of_cons. naive_solver.
  - intros k s [[_ <-]|[_ Hk]]%lookup_insert_Some; [done|by eapply Htype].
Qed.
Section calls.
Context `{RangeOrder, UintOfFloat} (parse_url : string → option URL).
Context (o : OutputSpec) (inputSpecs : list InputSpec) (secrets : Secrets).
Context (Hls : out_LokiStack o = Some ls) (Hauth : is_Some (lstack_Authentication ls)) (Hrecv : receivers_ready inputSpecs).
Context (Hnames : ∀ t, t ∈ tenants → t ∈ tenant_names) (Hsrc : otel ls = true → ∀ t, t ∈ tenants → has_sources inputSpecs t).

Lemma add_tenants_ok l : ∀ added st,
  NoDup (l ++ added) → (∀ t, t ∈ l ++ added → t ∈ tenants) → tenants_inv added st →
  ∃ st', add_tenants parse_url id routeID o inputSpecs secrets st l = Ret st' ∧ tenants_inv (reverse l ++ added) st'.
Proof using Hid Hls Hauth Hrecv Hnames Hsrc.
  induction l as [|t l IH]; intros added [[sinks tfs] op] Hnd Hin Hinv; [by eexists|]. cbn [add_tenants].
  destruct (tenant_sink_ok parse_url id o ls inputSpecs secrets Hid Hls Hauth Hrecv t op) as (m & op' & -> & Hm & Hty & Hop).
  - apply Hnames, Hin. by left.
  - apply (os_ok _ _ _ (ti_step _ _ Hinv)).
  - intros E. apply Hsrc; [done|]. apply Hin. by left.
  - cbn [mbind outcome_bind]. rewrite reverse_cons, <-app_assoc. destruct m as [[tid tsink] ttfs]. cbn [app] in *.
    apply NoDup_cons in Hnd as [Hnew Hnd]. apply IH.
    + rewrite NoDup_app, NoDup_cons in *. set_solver.
    + set_solver.
    + apply (add_tenant_inv added t sinks tfs op (tid, tsink, ttfs)); try done; set_solver.
Qed.
End calls.
End loop.

(** ** The whole output *)

Section before.
Context `{RangeOrder} (id : string) (Hid : id_ok id) (ls : LokiStack) (inputs : list string) (op : Options).

Notation routeID := (MakeID [id; "route"]).
Notation traceID := (MakeID [id; "trace"; "context"]).

(** What is there before the tenants. *)
Definition before_tenants (tenants : gset string) (u : transform) : Transforms :=
  <[MakeID [routeID; Unmatched] := u]> (<[routeID := TRoute (Some (NewRoute (buildRoutes tenants)
    (if otel ls then [traceID] else inputs)))]> (if otel ls then {[traceID := TransformTraceContext inputs]} else ∅)).

Lemma before_tenants_inv tenants u op' :
  op_step op op' ({[MakeID [routeID; Unmatched] := u]} : Transforms) → safe u → inputs_of u = [UnmatchedRoute routeID] →
  tenants_inv id ls inputs (List tenants) op [] (∅, before_tenants tenants u, op').
Proof using Hid.
  intros [Hok Hm Hsp] Hu Hui. set (tfs := before_tenants tenants u).
  assert (id_ok routeID) as Hrid by by apply MakeID_part_ok.
  assert (routeID ≠ MakeID [routeID; Unmatched]) as Hne by by apply not_eq_sym, own_ne, own_MakeID.
  assert (∃ r, tfs !! routeID = Some (TRoute (Some r)) ∧ ∀ t, t ∈ List tenants → is_Some (route_Routes r !! t)) as (r & Hr & Hroutes).
  { eexists. unfold tfs, before_tenants. rewrite lookup_insert_ne, lookup_insert_eq by done. split; [reflexivity|].
    intros t Ht. apply map_of_assignments_dom. rewrite <-list_fmap_compose. apply list_elem_of_fmap. by exists t. }
  assert (∀ k, is_Some (tfs !! k) → ∃ part, part ∈ ["trace_context"; "route"; "route_unmatched"] ∧ k = MakeID [id; part]) as Hkeys.
  { intros k. unfold tfs, before_tenants. rewrite !lookup_insert_is_Some'. intros [<-|[<-|Hk]].
    - exists "route_unmatched". split; [set_solver|]. unfold MakeID. cbn [Join]. rewrite !FormatComponentID_app, FormatComponentID_idemp.
      by rewrite !string_app_assoc.
    - exists "route". split; [set_solver|done].
    - exists "trace_context". split; [set_solver|]. destruct (otel ls); [|by destruct Hk as [? ?%lookup_empty_Some]].
      destruct Hk as [? [<- _]%lookup_singleton_Some]. done. }
  split; cbn [fst snd].
  - split; [|done]. unfold before_tenants in tfs. unfold tfs at 2. entries.
    + split_and!; [eapply own_own; apply own_MakeID; done|done|]. intros x. rewrite Hui. intros ->%list_elem_of_singleton.
      right; right. exists routeID, r. split; [done|by left].
    + split_and!; [by apply own_MakeID|by apply no_program_safe|]. intros x.
      change (x ∈ sort_strings (if otel ls then [traceID] else inputs) → may_read inputs tfs x). rewrite elem_of_sort_strings.
      destruct (otel ls) eqn:E; [|by left]. intros ->%list_elem_of_singleton. right; left. unfold tfs, before_tenants.
      rewrite !lookup_insert_is_Some', ?E. right; right. rewrite lookup_singleton_eq. by eexists.
    + destruct (otel ls); entries. assert (fine TransformTraceContext) as Hf by fine_const. destruct (Hf inputs) as [Hs Hrd].
      split_and!; [by apply own_MakeID2|done|]. intros x Hx. left. auto.
  - by exists r.
  - intros k Hk. left. by apply Hkeys.
  - split; [done| |done]. intros x [Hx|Hx]%Hm; [by left|right]. unfold tfs, before_tenants. rewrite lookup_insert_is_Some'. left.
    by destruct Hx as [? [<- _]%lookup_singleton_Some].
  - intros k. rewrite lookup_empty. setoid_rewrite elem_of_nil. split; [by intros [? [=]]|by intros (? & [] & _)].
  - by intros k s ?%lookup_empty_Some.
Qed.

End before.

Section lokistack.
Context `{RangeOrder, UintOfFloat} (parse_url : string → option URL).
Context (id : string) (o : Output) (ls : LokiStack) (clfSpec : ClusterLogForwarderSpec) (inputs : list string) (secrets : Secrets) (op : Options).
Context (Hid : id_ok id) (Hls : out_LokiStack (o_Spec o) = Some ls) (Hauth : is_Some (lstack_Authentication ls)).
Context (Hop : op_ok op) (Hspec : op !! CLFSpec = Some (AnySpec clfSpec)).

Notation routeID := (MakeID [id; "route"]).
Notation traceID := (MakeID [id; "trace"; "context"]).
Notation inputSpecs := (InputSpecsTo clfSpec (o_Spec o)).

Lemma lokistack_spec_ok :
  (0 < length (spec_Inputs clfSpec))%nat → (0 < length (spec_Pipelines clfSpec))%nat → (0 < length (spec_Outputs clfSpec))%nat →
  lokistack_spec op = Ret clfSpec.
Proof using Hspec.
  intros H1 H2 H3. unfold lokistack_spec. rewrite Hspec. cbn [as_Spec mbind outcome_bind].
  destruct (spec_Inputs clfSpec), (spec_Pipelines clfSpec), (spec_Outputs clfSpec); cbn in *; lia || done.
Qed.

(** The sinks of a LokiStack output: one for each tenant of its inputs. *)
Definition lokistack_sinks (sinks : Sinks) : Prop :=
  (∀ k, is_Some (sinks !! k) ↔ ∃ t i, i ∈ inputSpecs ∧ tenant_of i t ∧ k = MakeID [id; t]) ∧
  ∀ k s, sinks !! k = Some s → SinkType s = if otel ls then "opentelemetry" else "loki".

Lemma lokistack_ok :
  (0 < length (spec_Inputs clfSpec))%nat → (0 < length (spec_Pipelines clfSpec))%nat → (0 < length (spec_Outputs clfSpec))%nat →
  receivers_ready inputSpecs → (otel ls = true → infra_covered inputSpecs) →
  ∃ sinks tfs op', lokistack_New parse_url id o inputs secrets op = Ret (sinks, tfs, op') ∧
    outs_ok id inputs sinks tfs ∧ op_step op op' tfs ∧ lokistack_sinks sinks.
Proof using Hid Hls Hauth Hop Hspec.
  intros H1 H2 H3 Hrecv Hotel. unfold lokistack_New. rewrite lokistack_spec_ok by done. cbn [mbind outcome_bind].
  rewrite Hls. fold (otel ls).
  destruct (determineTenants_ok inputSpecs Hrecv) as (tenants & -> & Htenants).
  destruct (NewUnmatched_ok routeID op ({["output_type" := ToLower OutputTypeLokiStack]}) Hop)
    as (u & op' & Eu & Hu & Hui & Hop' & Hm & Hk).
  assert (op_step op op' ({[MakeID [routeID; Unmatched] := u]} : Transforms)) as Hstep.
  { split; [done| |by apply Hk]. intros x [?| ->]%Hm; [by left|right]. rewrite lookup_singleton_eq. by eexists. }
  pose proof (before_tenants_inv id Hid ls inputs op tenants u op' Hstep Hu Hui) as Hinv.
  assert (∀ t, t ∈ List tenants → ∃ i, i ∈ inputSpecs ∧ tenant_of i t) as Hti by (intros t Ht; apply Htenants; by apply elem_of_List).
  destruct (add_tenants_ok id Hid ls inputs (List tenants) op parse_url (o_Spec o) inputSpecs secrets Hls Hauth Hrecv) with
    (l := List tenants) (added := @nil string) (st := (∅ : Sinks, before_tenants id ls inputs tenants u, op')) as (st & Est & Hst).
  { intros t (i & _ & Ht)%Hti. by eapply tenant_name. }
  { intros E t (i & Hi & Ht)%Hti. destruct (tenants_have_sources _ t i Hi Ht) as [?|(-> & Ety & Hn)]; [done|].
    by apply (Hotel E i). }
  { rewrite app_nil_r, List_SortedList. apply SortedList_NoDup. }
  { intros t. by rewrite app_nil_r. }
  { exact Hinv. }
  exists st.1.1, st.1.2, st.2. split_and!.
  - assert (Ret (st.1.1, st.1.2, st.2) = Ret st) as -> by by destruct st as [[] ?]. rewrite <-Est.
    unfold before_tenants. destruct (otel ls); cbn beta iota zeta; cbn [mbind outcome_bind]; rewrite Eu; done.
  - apply (ti_outs _ _ _ _ _ _ _ Hst).
  - apply (ti_step _ _ _ _ _ _ _ Hst).
  - split; [|apply (ti_type _ _ _ _ _ _ _ Hst)]. intros k. rewrite (ti_dom _ _ _ _ _ _ _ Hst), app_nil_r.
    setoid_rewrite elem_of_reverse. setoid_rewrite elem_of_List. setoid_rewrite Htenants. naive_solver.
Qed.
End lokistack.

(** ** The factory *)

(** The bytes the API admits in the name of an output. *)
Definition name_byte (c : ascii) : bool :=
  let n := Ascii.nat_of_ascii c in ((97 <=? n)%nat && (n <=? 122)%nat) || is_digit c || Ascii.eqb c "-".

(** An output the configuration can be made of: it is admitted and its texts are contained,
    the URLs that are read are URLs, and a LokiStack output has an authentication and, for
    OpenTelemetry, the sources of each tenant. *)
Record output_ready `{RangeOrder} (parse_url : string → option URL) (clfSpec : ClusterLogForwarderSpec) (o : OutputSpec) : Prop := {
  or_admitted : output_admitted o;
  or_name : string_forallb name_byte (out_Name o) = true;
  or_texts : ∀ fv, fv ∈ output_templates o → contained fv.2;
  or_kafka : ∀ k, out_Kafka o = Some k → kafka_Topic k = "" → ∃ u, parse_url (kafka_URL k) = Some u ∧ contained (url_Path u);
  or_syslog : ∀ s, out_Syslog o = Some s → is_Some (parse_url (syslog_URL s)) ∧ String.length (syslog_PayloadKey s) ≠ 1%nat;
  or_lokistack : ∀ ls, out_LokiStack o = Some ls →
    is_Some (lstack_Authentication ls) ∧ (otel ls = true → infra_covered (InputSpecsTo clfSpec o));
}.

Lemma name_free name : string_forallb name_byte name = true → in_string "'" name = false.
Proof. intros Hn. by eapply string_forallb_in_string. Qed.

Lemma output_id_ok name : string_forallb name_byte name = true → id_ok (MakeOutputID [name]).
Proof.
  intros Hn. apply MakeID_ok. intros s. rewrite !elem_of_cons, elem_of_nil. intros [->|[->|[]]]; [done|by apply name_free].
Qed.

Lemma op_step_refl op (tfs : Transforms) : op_ok op → op_step op op tfs.
Proof. intros Hop. split; [done|by left|done]. Qed.

(** The options after those of the TLS profile are set. *)
Lemma tls_options_step op op' :
  op_ok op → tls_options_set op' →
  (∀ key, key ∉ [OptMinTLSVersion; OptCiphers; OptGroups] → op' !! key = op !! key) → op_step op op' ∅.
Proof.
  intros Hop Hset Hk. split.
  - intros k P v Hin Hv. destruct (decide (k ∈ [OptMinTLSVersion; OptCiphers; OptGroups])) as [Hin'|Hout].
    + destruct (Hset k Hin') as [s Es]. assert (v = AnyString s) as -> by congruence. clear -Hin Hin'.
      rewrite !elem_of_cons, elem_of_nil in Hin'.
      destruct Hin' as [->|[->|[->|[]]]]; revert P Hin; option_type.
    + rewrite Hk in Hv by done. by eapply Hop.
  - intros x Hx. left. unfold metric_inputs in *. rewrite Hk in Hx; [done|].
    unfold OptionLogsToMetricInputs, OptMinTLSVersion, OptCiphers, OptGroups. set_solver.
  - apply Hk. unfold CLFSpec, OptMinTLSVersion, OptCiphers, OptGroups. set_solver.
Qed.

Lemma op_ok_profile op : op_ok op → profile_option op.
Proof. intros Hop v Hv. apply (Hop ClusterTLSProfileSpec (λ v, ∃ p, v = AnyTLSProfileSpec p)); [option_known|done]. Qed.

Lemma set_tls_step `{OpenshiftTLS, Host} op (o : Output) : op_ok op →
  ∃ op', SetTLSProfileOptionsFrom op (Some o) = Ret op' ∧ op_step op op' ∅.
Proof.
  intros Hop. destruct (SetTLSProfileOptionsFrom_returns op (Some o) (op_ok_profile op Hop)) as (op' & E & Hset & Hk).
  exists op'. split; [done|]. by apply tls_options_step.
Qed.

(** What the sink of a type is. *)
Definition sink_type_of (ty : OutputType) : string :=
  if ty == OutputTypeKafka then "kafka" else if ty == OutputTypeLoki then "loki"
  else if ty == OutputTypeElasticsearch then "elasticsearch" else if ty == OutputTypeCloudwatch then "aws_cloudwatch_logs"
  else if ty == OutputTypeS3 then "aws_s3" else if ty == OutputTypeGoogleCloudLogging then "gcp_stackdriver_logs"
  else if ty == OutputTypeSplunk then "splunk_hec_logs" else if ty == OutputTypeHTTP then "http"
  else if ty == OutputTypeSyslog then "socket" else if ty == OutputTypeAzureLogsIngestion then "azure_logs_ingestion"
  else if ty == OutputTypeAzureMonitor then "azure_monitor_logs" else "opentelemetry".

(** Comparisons of constants. *)
Ltac eval_eqb := repeat match goal with
  | |- context [String.eqb ?a ?b] => let r := eval vm_compute in (String.eqb a b) in
      lazymatch r with true => idtac | false => idtac end; change (String.eqb a b) with r
  end; cbn iota.

Ltac in_templates E := unfold output_templates; rewrite E, !elem_of_app, ?elem_of_cons; tauto.

Section factory.
Context `{RangeOrder, UintOfFloat, OpenshiftTLS, Host} (parse_url : string → option URL) (clfSpec : ClusterLogForwarderSpec).

Lemma splunk_texts_contained o s t : output_ready parse_url clfSpec o → out_Splunk o = Some s → t ∈ splunk_texts s → contained t.
Proof.
  intros Ho E Ht. assert (∃ n, (n, t) ∈ output_templates o) as [n Hn]; [|by apply (or_texts _ _ _ Ho (n, t))].
  unfold splunk_texts in Ht. rewrite elem_of_app, !elem_of_cons, elem_of_nil in Ht.
  destruct Ht as [[->|[->|[->|[->|[]]]]]|Ht].
  1-4: eexists; in_templates E.
  apply list_elem_of_lookup in Ht as [i Hi]. exists ("splunk.indexedFields[" +:+ Itoa_nat i +:+ "]").
  unfold output_templates. rewrite E, !elem_of_app. do 6 right. left. right.
  apply list_elem_of_lookup. exists i. rewrite list_lookup_imap. apply fmap_Some. by exists t.
Qed.

Lemma syslog_texts_contained o s t : output_ready parse_url clfSpec o → out_Syslog o = Some s → t ∈ syslog_texts s → contained t.
Proof.
  intros Ho E Ht. assert (∃ n, (n, t) ∈ output_templates o) as [n Hn]; [|by apply (or_texts _ _ _ Ho (n, t))].
  unfold syslog_texts in Ht. rewrite !elem_of_cons, elem_of_nil in Ht.
  destruct Ht as [->|[->|[->|[->|[->|[->|[]]]]]]]; eexists; in_templates E.
Qed.

Lemma aws_ready auth a : (∃ a, auth = Some a ∧ aws_admitted a) → auth = Some a →
  aws_Type a = AwsAuthTypeAccessKey → is_Some (aws_AwsAccessKey a).
Proof. intros (a' & -> & _ & Ha & _) [= ->]. done. Qed.

(** The sink of an output that is not a LokiStack. *)
Lemma typed_sink_ok id o inputs secrets op :
  id_ok id → op_ok op → output_ready parse_url clfSpec (o_Spec o) → out_Type (o_Spec o) ≠ OutputTypeLokiStack →
  ∃ m op', typed_sink parse_url id o inputs secrets op = Ret (Some m, op') ∧ made_ok id inputs m ∧
    SinkType m.1.2 = sink_type_of (out_Type (o_Spec o)) ∧ op_step op op' m.2.
Proof.
  intros Hid Hop Ho Hls. pose proof (or_admitted _ _ _ Ho) as Ha. pose proof (or_texts _ _ _ Ho) as Ht.
  assert (∀ (m : outcome made_sink) ty, (∃ r, m = Ret r ∧ made_ok id inputs r ∧ SinkType r.1.2 = ty) →
    ∃ r op', one_sink m op = Ret (Some r, op') ∧ made_ok id inputs r ∧ SinkType r.1.2 = ty ∧ op_step op op' r.2) as Hone.
  { intros m ty (r & -> & Hm & Hty). exists r, op. split; [reflexivity|]. split_and!; [done..|by apply op_step_refl]. }
  pose proof (oa_type _ Ha) as Hin. unfold OutputTypes in Hin. rewrite !elem_of_cons, elem_of_nil in Hin.
  unfold typed_sink, sink_type_of.
  destruct Hin as [E|[E|[E|[E|[E|[E|[E|[E|[E|[E|[E|[E|[E|[]]]]]]]]]]]]]]; rewrite E in *; eval_eqb.
  - destruct (oa_ali _ Ha E) as [a Ea]. eapply Hone, azurelogsingestion_ok; done.
  - destruct (oa_am _ Ha E) as [a Ea]. eapply Hone, azuremonitor_ok; done.
  - destruct (oa_cw _ Ha E) as [a Ea]. eapply Hone, cloudwatch_ok; [done..| |].
    + apply (Ht ("cloudwatch.groupName", cw_GroupName a)). in_templates Ea.
    + intros a'. by apply aws_ready, (oa_cw_auth _ Ha).
  - destruct (oa_es _ Ha E) as [a Ea]. eapply Hone, elasticsearch_ok; [done..|].
    apply (Ht ("elasticsearch.index", es_Index a)). in_templates Ea.
  - destruct (oa_gcl _ Ha E) as [a Ea].
    destruct (gcl_ok parse_url id o inputs secrets op Hid Hop a Ea) as (r & -> & Hm & Hty).
    { apply (Ht ("googleCloudLogging.logId", gcl_LogId a)). in_templates Ea. }
    exists r, op. split; [reflexivity|]. split_and!; [done..|by apply op_step_refl].
  - destruct (oa_http _ Ha E) as [a Ea]. eapply Hone, http_ok; done.
  - destruct (oa_kafka _ Ha E) as [a Ea]. eapply Hone, kafka_ok; [done..|]. split; [|by apply (or_kafka _ _ _ Ho)].
    apply (Ht ("kafka.topic", kafka_Topic a)). in_templates Ea.
  - destruct (oa_loki _ Ha E) as [a Ea]. eapply Hone, loki_ok; [done..|].
    apply (Ht ("loki.tenantKey", loki_TenantKey a)). in_templates Ea.
  - done.
  - destruct (oa_s3 _ Ha E) as [a Ea]. eapply Hone, s3_ok; [done..| |].
    + apply (Ht ("s3.keyPrefix", s3_KeyPrefix a)). in_templates Ea.
    + intros a'. by apply aws_ready, (oa_s3_auth _ Ha).
  - destruct (oa_splunk _ Ha E) as [a Ea]. eapply Hone, splunk_ok; [done..|].
    intros t. by apply (splunk_texts_contained (o_Spec o)).
  - destruct (oa_syslog _ Ha E) as [a Ea]. destruct (or_syslog _ _ _ Ho a Ea) as [Hu Hk].
    eapply Hone, syslog_ok; [done..| |done|done]. intros t. by apply (syslog_texts_contained (o_Spec o)).
  - destruct (oa_otlp _ Ha E) as [a Ea].
    destruct (otlp_ok parse_url id o inputs secrets op a Hid Hop Ea) as (m & op' & -> & Hm & Hty & Hstep & _).
    exists m, op'. split; [reflexivity|done].
Qed.
(** A limit before an output. *)
Lemma throttled_outs id o inputs sinks (tfs : Transforms) :
  id_ok id → outs_ok id (output_throttle id o inputs).2 sinks tfs →
  outs_ok id inputs sinks (tfs ∪ (output_throttle id o inputs).1).
Proof.
  intros Hid. unfold output_throttle. destruct (Threshold _) as [threshold hasPolicy].
  destruct (hasPolicy && _); cbn [fst snd]; [|by rewrite (right_id_L ∅ (∪))].
  intros [Ht Hs]. set (throttleID := MakeID [id; "throttle"]). set (all := tfs ∪ _).
  assert (∀ x, may_read [throttleID] tfs x → may_read inputs all x) as Hmay.
  { intros x. apply may_read_mono; [|apply provided_union_l]. intros y ->%list_elem_of_singleton. right; left.
    unfold all. rewrite lookup_union_is_Some, lookup_singleton_eq. right. by eexists. }
  split.
  - intros k t [Hk|[_ [<- <-]%lookup_singleton_Some]]%lookup_union_Some_raw; [by eapply entry_mono, Ht|].
    split_and!; [by apply own_MakeID|by apply no_program_safe|]. intros x. cbn. rewrite elem_of_sort_strings. by left.
  - intros k s Hk. destruct (Hs k s Hk). split; [done|auto].
Qed.

(** The sinks of an output: one of its type, or for a LokiStack one for each tenant. *)
Definition output_sinks (o : OutputSpec) (sinks : Sinks) : Prop :=
  if out_Type o == OutputTypeLokiStack then
    ∃ ls, out_LokiStack o = Some ls ∧
      (∀ k, is_Some (sinks !! k) ↔ ∃ t i, i ∈ InputSpecsTo clfSpec o ∧ tenant_of i t ∧ k = MakeID [MakeOutputID [out_Name o]; t]) ∧
      ∀ k s, sinks !! k = Some s → SinkType s = if otel ls then "opentelemetry" else "loki"
  else ∃ s, sinks = {[MakeOutputID [out_Name o] := s]} ∧ SinkType s = sink_type_of (out_Type o).

(** A spec that outputs can be made for: it is not empty and its receivers have their section. *)
Definition spec_stored (spec : ClusterLogForwarderSpec) (op : Options) : Prop :=
  op !! CLFSpec = Some (AnySpec spec) ∧ receivers_ready (spec_Inputs spec) ∧
  (0 < length (spec_Inputs spec))%nat ∧ (0 < length (spec_Pipelines spec))%nat ∧ (0 < length (spec_Outputs spec))%nat.

Lemma receivers_to out : receivers_ready (spec_Inputs clfSpec) → receivers_ready (InputSpecsTo clfSpec out).
Proof. intros Hr i [Hi| ->]%InputSpecsTo_elem; [by apply Hr|done]. Qed.

Lemma output_New_ok o inputs secrets op :
  op_ok op → spec_stored clfSpec op → output_ready parse_url clfSpec (o_Spec o) →
  ∃ sinks tfs op', output_New parse_url o inputs secrets op = Ret (sinks, tfs, op') ∧
    outs_ok (MakeOutputID [out_Name (o_Spec o)]) inputs sinks tfs ∧ op_step op op' tfs ∧ output_sinks (o_Spec o) sinks.
Proof.
  intros Hop (Hspec & Hrecv & Hn1 & Hn2 & Hn3) Ho. unfold output_New.
  destruct (set_tls_step op o Hop) as (op1 & -> & [Hop1 Hm1 Hs1]). cbn [mbind outcome_bind]. rewrite Hspec in Hs1.
  pose proof (output_id_ok _ (or_name _ _ _ Ho)) as Hid. set (id := MakeOutputID _) in *.
  pose proof (throttled_outs id o inputs) as Hthr. destruct (output_throttle id o inputs) as [transforms inputs']. cbn [fst snd] in Hthr.
  assert (∀ op' tfs, op_step op1 op' tfs → op_step op op' (tfs ∪ transforms)) as Hstep.
  { intros op' tfs [Hok Hm Hs]. split; [done| |congruence]. intros x [Hx|Hx]%Hm; [|right; apply lookup_union_is_Some; by left].
    destruct (Hm1 x Hx) as [?|[? ?%lookup_empty_Some]]; [by left|done]. }
  unfold output_sinks. destruct (String.eqb_spec (out_Type (o_Spec o)) OutputTypeLokiStack) as [E|E].
  - destruct (oa_lokistack _ (or_admitted _ _ _ Ho) E) as [ls Els]. destruct (or_lokistack _ _ _ Ho ls Els) as [Hauth Hotel].
    destruct (lokistack_ok parse_url id o ls clfSpec inputs' secrets op1 Hid Els Hauth Hop1 Hs1 Hn1 Hn2 Hn3 (receivers_to _ Hrecv) Hotel)
      as (sinks & tfs & op' & -> & Houts & Hst & Hsinks).
    cbn [mbind outcome_bind fst snd]. exists sinks, (tfs ∪ transforms), op'. split; [reflexivity|]. split_and!; [by apply Hthr|by apply Hstep|].
    exists ls. by split.
  - destruct (typed_sink_ok id o inputs' secrets op1 Hid Hop1 Ho E) as ([[sid s] stfs] & op' & -> & Hm & Hty & Hst).
    cbn [mbind outcome_bind]. exists {[sid := s]}, (stfs ∪ transforms), op'. split; [reflexivity|].
    split_and!; [by apply Hthr, (made_outs id inputs' (sid, s, stfs))|by apply Hstep|].
    exists s. destruct Hm as [Esid _]. cbn in Esid. by subst.
Qed.
End factory.

(** ** What an output is made of *)

(** C13. One output.  For an output that is ready, making it returns.  Its transforms have
    identifiers that start with the one of the output, cannot end the literal their
    program is written in, and read what the output was given or one another; so do its
    sinks, which are those of its type.  The options keep the types their readers expect
    and the spec; the counters that are added to them are transforms of the output. *)
Theorem output_New_correct `{RangeOrder, UintOfFloat, OpenshiftTLS, Host} parse_url clfSpec o inputs secrets op :
  op_ok op → spec_stored clfSpec op → output_ready parse_url clfSpec (o_Spec o) →
  let id := MakeOutputID [out_Name (o_Spec o)] in
  ∃ sinks tfs op', output_New parse_url o inputs secrets op = Ret (sinks, tfs, op') ∧
    (∀ k t, tfs !! k = Some t → own id k ∧ ¬ closes (transform_value t) ∧ ∀ x, x ∈ inputs_of t → x ∈ inputs ∨ provided tfs x) ∧
    (∀ k s, sinks !! k = Some s → (k = id ∨ own id k) ∧ ∀ x, x ∈ sink_inputs s → x ∈ inputs ∨ provided tfs x) ∧
    output_sinks clfSpec (o_Spec o) sinks ∧
    op_ok op' ∧ spec_stored clfSpec op' ∧ (∀ x, x ∈ metric_inputs op' → x ∈ metric_inputs op ∨ is_Some (tfs !! x)).
Proof.
  intros Hop Hspec Ho id. destruct (output_New_ok parse_url clfSpec o inputs secrets op Hop Hspec Ho)
    as (sinks & tfs & op' & E & [Ht Hs] & [Hok Hm Hsp] & Hsinks).
  exists sinks, tfs, op'. split_and!; [done|exact Ht|exact Hs|done..| |done]. destruct Hspec as [Hstored ?]. split; [congruence|done].
Qed.
