(* ===== verification/LokiStackOtel.v ===== *)
(** * LokiStack outputs in the data model of OpenTelemetry

    A LokiStack output in this model is made of an OTLP output for each tenant, and tells
    each through the options of the operator which sources the tenant has.  Without
    sources the operator stops; what the last tenant was told stays in the options. *)

From S2P Require Import Prelude GoStrings Regex ApiCommon ApiInputs ApiOutputs ApiForwarder Sets ObsResources ObsInputs ObsForwarder.
From S2P Require Import ValidateOutputs Toml Transforms VrlText Template VectorHelpers Adapters Tls SinkTypes Sources.
From S2P Require Import OutputCommon Outputs LokiOutput OtlpOutput OutputFactory OutputTexts OutputsSpec LokiStackSpec.

(** ** What an OTLP output leaves and reads *)

(** The sources an OTLP output is made for. *)
Definition otlp_sources (op : Options) : list string :=
  match op !! OtlpLogSourcesOption with Some (AnyStrings l) => l | _ => allLogSources end.

(** Whether it takes its input for that of a LokiStack. *)
Definition otlp_migrated (op : Options) : bool :=
  match op !! MigratedFromLokistackOption with Some (AnyBool b) => b | _ => false end.

Lemma otlp_transforms_keeps id inputs sources from op tfs op' :
  otlp_transforms id inputs sources from op = Ret (tfs, op') → ∀ k, k ≠ OptionLogsToMetricInputs → op' !! k = op !! k.
Proof.
  unfold otlp_transforms, NewUnmatched, AddToStringSet. intros (u & Hu & E)%bind_ret_inv k Hk.
  apply bind_ret_inv in Hu as (op1 & Hu & Eu). apply bind_ret_inv in Hu as (l & _ & Hop1).
  apply Ret_inj in E, Eu, Hop1. subst. injection E as _ <-. by rewrite lookup_insert_ne.
Qed.

Lemma otlp_New_inv `{UintOfFloat} parse_url id o inputs secrets op m op' :
  otlp_New parse_url id o inputs secrets op = Ret (m, op') →
  otlp_sources op ≠ [] ∧ otlp_transforms id inputs (otlp_sources op) (otlp_migrated op) op = Ret (m.2, op').
Proof.
  unfold otlp_New, GetOption, otlp_sources, otlp_migrated. intros ([sources f] & Es & E)%bind_ret_inv. cbn [fst] in E.
  assert (sources = match op !! OtlpLogSourcesOption with Some (AnyStrings l) => l | _ => allLogSources end) as <-.
  { destruct (op !! OtlpLogSourcesOption) as [[]|]; cbn in Es; try done; by injection Es as <-. }
  destruct (Nat.eqb_spec (length sources) 0) as [|Hne]; [done|]. split; [by destruct sources|].
  apply bind_ret_inv in E as ([from f'] & Ef & E). cbn [fst] in E.
  assert (from = match op !! MigratedFromLokistackOption with Some (AnyBool b) => b | _ => false end) as <-.
  { destruct (op !! MigratedFromLokistackOption) as [[]|]; cbn in Ef; try done; by injection Ef as <-. }
  apply bind_ret_inv in E as ([tfs op1] & -> & E). apply bind_ret_inv in E as (s & _ & E).
  apply Ret_inj in E. by injection E as <- <-.
Qed.

Lemma MakeID_app id part : id_ok id → MakeID [id; part] = id +:+ "_" +:+ FormatComponentID part.
Proof. intros [Hid _]. unfold MakeID. cbn [Join]. by rewrite !FormatComponentID_app, Hid. Qed.

Notation log_sources := (source_transforms.*1.*1).

Lemma log_sources_cases (P : string → Prop) s :
  s ∈ log_sources → (∀ s', s' ∈ ["container"; "node"; "auditd"; "kubeAPI"; "openshiftAPI"; "ovn"] → P s') → P s.
Proof. intros Hs Hall. apply Hall. revert Hs. unfold source_transforms. cbn [fmap list_fmap fst]. set_solver. Qed.

Lemma log_sources_elem s : s ∈ ["container"; "node"; "auditd"; "kubeAPI"; "openshiftAPI"; "ovn"] → s ∈ log_sources.
Proof. unfold source_transforms. cbn [fmap list_fmap fst]. set_solver. Qed.

Lemma log_sources_inj s s' : s ∈ log_sources → s' ∈ log_sources → FormatComponentID s = FormatComponentID s' → s = s'.
Proof.
  intros Hs Hs'. apply (log_sources_cases (λ s, FormatComponentID s = FormatComponentID s' → s = s') s Hs). intros t Ht.
  apply (log_sources_cases (λ s', FormatComponentID t = FormatComponentID s' → t = s') s' Hs'). intros t' Ht'.
  rewrite !elem_of_cons, !elem_of_nil in *.
  destruct Ht as [->|[->|[->|[->|[->|[->|[]]]]]]], Ht' as [->|[->|[->|[->|[->|[->|[]]]]]]]; done.
Qed.

Lemma log_sources_other s (l : list string) : s ∈ log_sources →
  forallb (λ t, negb (bool_decide (FormatComponentID t ∈ l))) ["container"; "node"; "auditd"; "kubeAPI"; "openshiftAPI"; "ovn"] = true →
  FormatComponentID s ∉ l.
Proof.
  intros Hs Hl. apply (log_sources_cases (λ s, FormatComponentID s ∉ l) s Hs). intros t Ht.
  rewrite forallb_forall in Hl. specialize (Hl t (proj1 (list_elem_of_In _ _) Ht)).
  by apply negb_true_iff, bool_decide_eq_false in Hl.
Qed.

(** The transforms of an OTLP output tell its sources. *)
Lemma otlp_sources_made id inputs sources from op tfs op' :
  id_ok id → otlp_transforms id inputs sources from op = Ret (tfs, op') →
  (∀ s, s ∈ log_sources → is_Some (tfs !! MakeID [id; s]) ↔ s ∈ sources) ∧
  (is_Some (tfs !! MakeID [id; "trace_context"]) ↔ from = false).
Proof.
  intros Hid. unfold otlp_transforms. fold (otlp_base id inputs sources from). intros (u & _ & E)%bind_ret_inv.
  rewrite add_source_steps in E. fold (source_steps id (MakeID [id; "reroute"]) sources) in E. apply Ret_inj in E. injection E as <- _.
  destruct (otlp_final id Hid inputs sources from u.1 (FormatResourceLog (reduce_steps id sources).*1)) as [Hsome _].
  assert (∀ a, MakeID [MakeID [id; "reroute"]; Unmatched] = MakeID [id; a] → FormatComponentID a = "reroute_unmatched") as Hun.
  { intros a. rewrite (MakeID_app id a), (MakeID_app (MakeID [id; "reroute"])), (MakeID_app id) by (done || by apply MakeID_part_ok).
    rewrite !string_app_assoc. intros E%string_app_inj_l%string_app_inj_l. by symmetry. }
  assert (∀ a b, MakeID [id; a] = MakeID [id; b] → FormatComponentID a = FormatComponentID b) as Hinj.
  { intros a b. rewrite !MakeID_app by done. by intros E%string_app_inj_l%string_app_inj_l. }
  assert (∀ a, MakeID [id; a] ∈ (reduce_steps id sources).*1 →
    FormatComponentID a ∈ ["groupby_container"; "groupby_source"; "groupby_host"]) as Hred.
  { intros a. unfold reduce_steps. rewrite !fmap_app, !elem_of_app.
    intros [E|[E|E]]; (destruct (_ : bool) in E; [|by apply not_elem_of_nil in E]); cbn [fmap list_fmap fst] in E;
      apply list_elem_of_singleton in E.
    - apply (Hinj a "groupby_container") in E as ->. by left.
    - apply (Hinj a "groupby_source") in E as ->. by right; left.
    - apply (Hinj a "groupby_host") in E as ->. by right; right; left. }
  assert (∀ a, is_Some (otlp_base id inputs sources from !! MakeID [id; a]) →
    FormatComponentID a = "reroute" ∨ FormatComponentID a = "trace_context" ∧ from = false) as Hbase.
  { intros a. unfold otlp_base. destruct from.
    - intros [? [E%(Hinj "reroute" a) _]%lookup_singleton_Some]. by left.
    - rewrite lookup_insert_is_Some'. intros [E%(Hinj "reroute" a)|[? [E%(Hinj "trace_context" a) _]%lookup_singleton_Some]]; [by left|by right]. }
  split.
  - intros s Hs. pose proof (log_sources_other s ["resource_logs"; "groupby_container"; "groupby_source"; "groupby_host";
      "reroute_unmatched"; "reroute"; "trace_context"] Hs eq_refl) as Hother. rewrite Hsome. split.
    + intros [E%(Hinj s "resource_logs")|[E%Hred|[E|[E%eq_sym%Hun|E%Hbase]]]].
      * destruct Hother. rewrite E. by left.
      * destruct Hother. revert E. rewrite !elem_of_cons, !elem_of_nil. tauto.
      * apply list_elem_of_fmap_1 in E as ([k t] & E & (x & Hx & Hin & -> & _)%source_steps_elem). cbn [fst] in E.
        apply Hinj, log_sources_inj in E as ->; [done..|]. apply list_elem_of_fmap_2, list_elem_of_fmap_2. done.
      * destruct Hother. rewrite E, !elem_of_cons. tauto.
      * destruct Hother. rewrite !elem_of_cons. destruct E as [->|[-> _]]; tauto.
    + intros Hin. right; right; left. apply list_elem_of_fmap_1 in Hs as (x1 & -> & (x & -> & Hx)%list_elem_of_fmap_1).
      apply list_elem_of_fmap. eexists (_, _). split; [reflexivity|]. apply list_elem_of_omap. exists x. split; [done|].
      by rewrite (proj2 (has_source_elem _ _) Hin).
  - rewrite Hsome. split.
    + intros [E%(Hinj "trace_context" "resource_logs")|[E%Hred|[E|[E%eq_sym%Hun|E%Hbase]]]]; try discriminate.
      * exfalso. revert E. rewrite !elem_of_cons, elem_of_nil. by intros [|[|[|[]]]].
      * apply list_elem_of_fmap_1 in E as ([k t] & E & (x & Hx & Hin & -> & _)%source_steps_elem). cbn [fst] in E.
        apply Hinj in E. assert (x.1.1 ∈ log_sources) as Hx' by by apply list_elem_of_fmap_2, list_elem_of_fmap_2.
        destruct (log_sources_other x.1.1 ["trace_context"] Hx' eq_refl). rewrite <-E. by left.
      * by destruct E as [|[_ ?]].
    + intros ->. do 4 right. unfold otlp_base. rewrite lookup_insert_is_Some'. right. rewrite lookup_singleton_is_Some. done.
Qed.

(** ** The tenants of a LokiStack output *)

Section lokistack.
Context `{RangeOrder, UintOfFloat} (parse_url : string → option URL) (secrets : Secrets).

(** The sources of a tenant, and the options once its output is made. *)
Definition told (inputSpecs : list InputSpec) (t : string) (op : Options) : Prop :=
  ∃ l, getInputSources inputSpecs t = Ret l ∧ l ≠ [] ∧ otlp_sources op = l ∧ otlp_migrated op = true.

Lemma generate_told id routeID t o ls inputSpecs op m op' :
  out_LokiStack o = Some ls → otel ls = true →
  generateSinkForTenant parse_url id routeID t o inputSpecs secrets op = Ret (m, op') → told inputSpecs t op'.
Proof.
  intros Els Eo. unfold generateSinkForTenant, GenerateOutput. rewrite Els. cbn [deref mbind outcome_bind]. fold (otel ls). rewrite Eo.
  intros (mo & Emo & E)%bind_ret_inv. apply bind_ret_inv in Emo as (otlp & _ & Emo). apply Ret_inj in Emo as <-.
  cbn [tenant_output out_Type] in E. change (OutputTypeOTLP == OutputTypeOTLP) with true in E. cbn iota in E.
  apply bind_ret_inv in E as (l & El & E). exists l. split; [done|].
  apply otlp_New_inv in E as [Hne Htr]. pose proof (otlp_transforms_keeps _ _ _ _ _ _ _ Htr) as Hk.
  unfold otlp_sources, otlp_migrated in *. rewrite !Hk by done. rewrite !lookup_insert_eq in *.
  by rewrite lookup_insert_ne, lookup_insert_eq in * by done.
Qed.

Lemma add_tenants_told id routeID o ls inputSpecs l : out_LokiStack o = Some ls → otel ls = true →
  ∀ st st', add_tenants parse_url id routeID o inputSpecs secrets st l = Ret st' →
  (∀ t, t ∈ l → ∃ op, told inputSpecs t op) ∧ ∀ t, last l = Some t → told inputSpecs t st'.2.
Proof.
  intros Els Eo. induction l as [|t l IH]; intros [[sinks tfs] op] st'; cbn [add_tenants].
  - intros _. split; [by intros t ?%not_elem_of_nil|done].
  - intros ([[[tid ts] ttfs] op1] & Em & E)%bind_ret_inv. apply (generate_told _ _ _ _ ls) in Em; [|done..].
    destruct (IH _ _ E) as [Hall Hlast]. split.
    + intros t' [->|Ht']%elem_of_cons; [by exists op1|by apply Hall].
    + intros t'. destruct l as [|t2 l]; [|intros Hl; by apply Hlast].
      cbn [last]. intros [= <-]. apply Ret_inj in E as <-. done.
Qed.

(** What a LokiStack output that could be made says of its tenants. *)
Lemma lokistack_told id o ls inputs op sinks tfs op' clfSpec :
  op !! CLFSpec = Some (AnySpec clfSpec) → out_LokiStack (o_Spec o) = Some ls → otel ls = true →
  lokistack_New parse_url id o inputs secrets op = Ret (sinks, tfs, op') →
  ∃ tenants, determineTenants (InputSpecsTo clfSpec (o_Spec o)) = Ret tenants ∧
    (∀ t, t ∈ tenants → ∃ op, told (InputSpecsTo clfSpec (o_Spec o)) t op) ∧
    ∀ t, last (List tenants) = Some t → told (InputSpecsTo clfSpec (o_Spec o)) t op'.
Proof.
  intros Hspec Els Eo. unfold lokistack_New. rewrite Els. fold (otel ls). rewrite Eo. intros (spec & Es & E)%bind_ret_inv.
  assert (spec = clfSpec) as ->.
  { revert Es. unfold lokistack_spec. rewrite Hspec. cbn [as_Spec mbind outcome_bind]. destruct (_ || _); [done|]. by intros ?%Ret_inj. }
  cbn iota beta zeta in E. apply bind_ret_inv in E as (tenants & Et & E). apply bind_ret_inv in E as (u & _ & E).
  apply (add_tenants_told _ _ _ ls) in E as [Hall Hlast]; [|done..]. exists tenants. split; [done|]. split; [|done].
  intros t Ht. by apply Hall, elem_of_List.
Qed.
End lokistack.

(** ** What is proved of them *)

(** An application input includes a namespace of the infrastructure, and nothing collects
    for the tenant this makes. *)
Definition infra_uncovered (inputs : list InputSpec) : Prop :=
  (∃ i, i ∈ inputs ∧ in_Type i = InputTypeApplication ∧ IncludesInfraNamespace (in_Application i) = true) ∧
  ¬ has_sources inputs InputTypeInfrastructure.

Lemma infra_covered_iff `{RangeOrder} inputs : receivers_ready inputs → infra_covered inputs ↔ ¬ infra_uncovered inputs.
Proof.
  intros Hr. destruct (getInputSources_ok inputs InputTypeInfrastructure Hr) as (l & _ & Hl); [unfold tenant_names; set_solver|].
  unfold infra_covered, infra_uncovered. rewrite <-Hl. split.
  - intros Hc [(i & Hi & Ht & Hn) Hnot]. by apply Hnot, (proj2 Hl), (Hc i).
  - intros Hu i Hi Ht Hn. apply (proj1 Hl). intros ->. apply Hu. split; [by exists i|]. intros Hbad. by apply Hbad.
Qed.

Section claims.
Context `{RangeOrder, UintOfFloat} (parse_url : string → option URL) (secrets : Secrets).
Context (id : string) (o : Output) (ls : LokiStack) (clfSpec : ClusterLogForwarderSpec) (inputs : list string) (op : Options).
Context (Hid : id_ok id) (Hls : out_LokiStack (o_Spec o) = Some ls) (Hauth : is_Some (lstack_Authentication ls)).
Context (Hop : op_ok op) (Hspec : spec_stored clfSpec op).

Notation inputSpecs := (InputSpecsTo clfSpec (o_Spec o)).

(** C25. When a LokiStack output in the data model of OpenTelemetry can be made.  An
    application input that includes a namespace of the infrastructure has a tenant for it,
    but no source of that tenant: making the output panics exactly when the output has
    such an input and none that collects the logs of the infrastructure. *)
Theorem lokistack_otel_returns :
  otel ls = true → (returns (lokistack_New parse_url id o inputs secrets op) ↔ ¬ infra_uncovered inputSpecs).
Proof.
  intros Eo. destruct Hspec as (Hstored & Hrecv & H1' & H2' & H3'). pose proof (receivers_to clfSpec (o_Spec o) Hrecv) as Hr.
  rewrite <-infra_covered_iff by done. split.
  - intros [[[sinks tfs] op'] E] i Hi Ety Hn.
    destruct (lokistack_told parse_url secrets id o ls inputs op sinks tfs op' clfSpec Hstored Hls Eo E) as (tenants & Et & Hall & _).
    destruct (determineTenants_ok inputSpecs Hr) as (tenants' & Et' & Htenants). assert (tenants' = tenants) as -> by congruence.
    destruct (Hall InputTypeInfrastructure) as (op1 & l & El & Hne & _).
    { apply Htenants. exists i. split; [done|]. left. split; [done|]. by right. }
    destruct (getInputSources_ok inputSpecs InputTypeInfrastructure Hr) as (l' & El' & Hl).
    { unfold tenant_names. set_solver. }
    apply Hl. congruence.
  - intros Hc. destruct (lokistack_ok parse_url id o ls clfSpec inputs secrets op Hid Hls Hauth Hop Hstored H1' H2' H3' Hr (λ _, Hc))
      as (sinks & tfs & op' & -> & _). apply returns_ret.
Qed.

(** C26. Options that stay.  An OTLP output that is made after a LokiStack output in the
    data model of OpenTelemetry is made as if it were of the last tenant: it has a
    transform for the sources of that tenant and for no other, whatever its own inputs
    are, and no transform that sets the context of traces. *)
Theorem lokistack_options_stay sinks tfs op' t id2 o2 inputs2 m op2 :
  otel ls = true → lokistack_New parse_url id o inputs secrets op = Ret (sinks, tfs, op') →
  (∃ tenants, determineTenants inputSpecs = Ret tenants ∧ last (List tenants) = Some t) →
  id_ok id2 → otlp_New parse_url id2 o2 inputs2 secrets op' = Ret (m, op2) →
  ∃ l, getInputSources inputSpecs t = Ret l ∧ otlp_sources op' = l ∧
    (∀ s, s ∈ log_sources → is_Some (m.2 !! MakeID [id2; s]) ↔ s ∈ l) ∧
    m.2 !! MakeID [id2; "trace_context"] = None.
Proof.
  intros Eo E (tenants & Et & Hlast) Hid2 E2. destruct Hspec as (Hstored & _).
  destruct (lokistack_told parse_url secrets id o ls inputs op sinks tfs op' clfSpec Hstored Hls Eo E) as (tenants' & Et' & _ & Ht).
  assert (tenants' = tenants) as -> by congruence. destruct (Ht t Hlast) as (l & El & _ & Esrc & Emig).
  exists l. split; [done|]. split; [done|]. apply otlp_New_inv in E2 as [_ E2]. rewrite Esrc, Emig in E2.
  destruct (otlp_sources_made id2 inputs2 l true op' m.2 op2 Hid2 E2) as [Hs Htr]. split; [done|].
  apply eq_None_not_Some. rewrite Htr. done.
Qed.
End claims.
