(* ===== verification/Conf.v ===== *)
(** * The pipelines of the configuration ([internal/generator/vector/conf])

    The part of [conf.go] that makes the inputs, outputs and pipelines of a spec and
    puts the transforms of the pipelines together.  The identifiers the sources give
    the inputs between the two loops are an argument: [Config] gives them. *)

From S2P Require Import Prelude GoStrings GoTime ApiCommon ApiInputs ApiFilters ApiOutputs ApiForwarder.
From S2P Require Import Regex ValidateFilters ObsResources ObsInputs ObsForwarder Toml Transforms VrlText.
From S2P Require Import VectorHelpers FilterVRL Viaq Adapters ValidateCommon.

(** [sortAdapters]: the values of a map in the order of their keys. *)
Definition sortAdapters {V} (m : gmap string V) : list V :=
  omap (λ k, m !! k) (sort_strings (map_to_list m).*1).

(** [AddTransforms] of a configuration. *)
Definition AddTransforms (config transforms : Transforms) : Transforms := transforms ∪ config.

Definition conf_outputs (outputs : list OutputSpec) : gmap string Output :=
  foldl (λ m spec, <[out_Name spec := NewOutput spec]> m) ∅ outputs.

(** The loop over the pipelines: the pipelines by name and the outputs. *)
Fixpoint conf_pipelines (inputs : gset string) (filters : gmap string InternalFilterSpec) (inputSpecs : list InputSpec)
    (pipelineMap : gmap string Pipeline) (outputMap : gmap string Output) (i : nat) (l : list PipelineSpec) :
    outcome (gmap string Pipeline * gmap string Output) :=
  match l with
  | [] => Ret (pipelineMap, outputMap)
  | p :: l =>
      a ← NewPipeline ∅ i p inputs outputMap filters inputSpecs AddSystemFilters;
      conf_pipelines inputs filters inputSpecs (<[pipe_Name p := a.1]> pipelineMap) a.2 (S i) l
  end.

(** The loop over the pipelines that puts their transforms together. *)
Fixpoint add_pipelines (Ids : gmap string (list string)) (config : Transforms) (l : list Pipeline) :
    outcome (Transforms + string) :=
  match l with
  | [] => Ret (inl config)
  | p :: l =>
      transforms ← Pipeline_Transforms Ids p;
      match transforms with
      | inr err => Ret (inr ("generating pipeline transforms: " +:+ err))
      | inl transforms => add_pipelines Ids (AddTransforms config transforms) l
      end
  end.

(** The transforms of the pipelines on top of those of the inputs, and the outputs. *)
Definition conf_transforms `{RangeOrder} (parse_other : string → option instant)
    (Ids : gmap string (list string)) (config : Transforms) (clfspec : ClusterLogForwarderSpec) :
    outcome ((Transforms + string) * gmap string Output) :=
  let filters := NewInternalFilterMap parse_other (FilterMap clfspec) in
  st ← conf_pipelines (list_to_set (Inputs_Names (spec_Inputs clfspec))) filters (spec_Inputs clfspec) ∅
    (conf_outputs (spec_Outputs clfspec)) 0 (spec_Pipelines clfspec);
  tfs ← add_pipelines Ids config (sortAdapters st.1);
  Ret (tfs, st.2).

(** ** The pipelines of a spec *)

Section conf.
Context `{RangeOrder} (regexp_compiles : string → bool) (parse_other : string → option instant).
Context (clfspec : ClusterLogForwarderSpec).

Notation fm := (FilterMap clfspec).
Notation filters := (NewInternalFilterMap parse_other fm).
Notation inputSpecs := (spec_Inputs clfspec).

(** The filters are valid and the pipelines have names of their own and refer to
    filters that exist. *)
Record conf_ready : Prop := {
  cr_filters : ∀ f, f ∈ spec_Filters clfspec → valid_filter regexp_compiles f;
  cr_refs : ∀ p ref, p ∈ spec_Pipelines clfspec → ref ∈ pipe_FilterRefs p → is_Some (fm !! ref);
  cr_names : NoDup (pipe_Name <$> spec_Pipelines clfspec);
}.

(** A pipeline as the loop makes it. *)
Definition made (i : nat) (p : PipelineSpec) (pl : Pipeline) : Prop :=
  ∃ outs outs', NewPipeline ∅ i p (list_to_set (Inputs_Names inputSpecs)) outs filters inputSpecs AddSystemFilters
    = Ret (pl, outs').

(** The identifiers an output is given by pipelines that start at a position. *)
Definition fed_by (name : string) (i : nat) (l : list PipelineSpec) : list string :=
  mjoin (imap (λ j p, mjoin (replicate (count name (pipe_OutputRefs p)) [last_id (i + j) p filters inputSpecs])) l).

Definition feed (ids : list string) (o : Output) : Output := {|
  o_Spec := o_Spec o; o_InputIDs := o_InputIDs o ++ ids; o_tuning := o_tuning o |}.

Lemma fed_by_cons name i p l :
  fed_by name i (p :: l) =
  mjoin (replicate (count name (pipe_OutputRefs p)) [last_id i p filters inputSpecs]) ++ fed_by name (S i) l.
Proof.
  unfold fed_by. rewrite imap_cons. cbn. rewrite Nat.add_0_r. f_equal. f_equal.
  apply imap_ext. intros j q _. cbn. by rewrite Nat.add_succ_r.
Qed.

Lemma FilterMap_lookup k f : fm !! k = Some f → f ∈ spec_Filters clfspec ∧ filter_Name f = k.
Proof.
  intros Hk. apply map_of_assignments_elem, list_elem_of_fmap in Hk as (g & [= -> ->] & Hg). done.
Qed.

Lemma filters_resolve p :
  conf_ready → p ∈ spec_Pipelines clfspec → ∀ ref, ref ∈ pipe_FilterRefs p → is_Some (filters !! ref).
Proof.
  intros Hc Hp ref Href. destruct (cr_refs Hc p ref Hp Href) as [g Hg]. eexists.
  apply NewInternalFilterMap_lookup; [by intros k g' []%FilterMap_lookup|]. by exists g.
Qed.

Lemma conf_pipelines_made l : ∀ i pm om,
  (∀ p, p ∈ l → ∀ ref, ref ∈ pipe_FilterRefs p → is_Some (filters !! ref)) →
  ∃ pls om', conf_pipelines (list_to_set (Inputs_Names inputSpecs)) filters inputSpecs pm om i l
      = Ret (foldl (λ m kv, <[kv.1 := kv.2]> m) pm (zip (pipe_Name <$> l) pls), om') ∧
    length pls = length l ∧
    (∀ j p pl, l !! j = Some p → pls !! j = Some pl → made (i + j) p pl) ∧
    (∀ name, om' !! name = feed (fed_by name i l) <$> om !! name).
Proof.
  induction l as [|p l IH]; intros i pm om Hl; cbn [conf_pipelines].
  { exists [], om. split_and!; [done|done|by intros ? ? ? [=]|]. intros name. unfold fed_by. cbn.
    destruct (om !! name) as [[s ids t]|]; [|done]. cbn. unfold feed. cbn. by rewrite app_nil_r. }
  apply forall_cons_iff in Hl as [Hp Hl].
  destruct (NewPipeline_returns ∅ i p (list_to_set (Inputs_Names inputSpecs)) om filters inputSpecs Hp)
    as (pl & om1 & E & _ & Hout). rewrite E. cbn [mbind outcome_bind fst snd].
  destruct (IH (S i) (<[pipe_Name p := pl]> pm) om1 Hl) as (pls & om' & -> & Hlen & Hmade & Hom).
  exists (pl :: pls), om'. split_and!.
  - done.
  - cbn. by rewrite Hlen.
  - intros [|j] q ql; cbn.
    + intros [= <-] [= <-]. rewrite Nat.add_0_r. by exists om, om1.
    + intros Hq Hql. rewrite Nat.add_succ_r. by apply Hmade.
  - intros name. rewrite Hom, Hout, fed_by_cons. destruct (om !! name) as [o|]; [|done]. cbn. unfold feed, fed. cbn.
    by rewrite <-app_assoc.
Qed.

(** The values of a map that was assigned to distinct keys. *)
Lemma sortAdapters_elem {V} (m : gmap string V) v : v ∈ sortAdapters m ↔ ∃ k, m !! k = Some v.
Proof.
  unfold sortAdapters. rewrite list_elem_of_omap. split.
  - intros (k & _ & Hk). by exists k.
  - intros (k & Hk). exists k. split; [|done]. rewrite elem_of_sort_strings.
    apply list_elem_of_fmap. exists (k, v). by rewrite elem_of_map_to_list.
Qed.

Lemma add_pipelines_ok Ids (P : transform → Prop) l : ∀ config,
  (∀ pl, pl ∈ l → ∃ tfs, Pipeline_Transforms Ids pl = Ret (inl tfs) ∧ ∀ id t, tfs !! id = Some t → P t) →
  ∃ tfs, add_pipelines Ids config l = Ret (inl tfs) ∧
    (∀ id t, tfs !! id = Some t → config !! id = Some t ∨ P t) ∧
    (∀ id, is_Some (tfs !! id) ↔ is_Some (config !! id) ∨
       ∃ pl tfs', pl ∈ l ∧ Pipeline_Transforms Ids pl = Ret (inl tfs') ∧ is_Some (tfs' !! id)).
Proof.
  induction l as [|pl l IH]; intros config Hl; cbn [add_pipelines].
  { exists config. split; [done|]. split; [by left|]. intros id. split; [by left|].
    intros [?|(? & ? & ?%not_elem_of_nil & _)]; done. }
  apply forall_cons_iff in Hl as [(tfs & E & HP) Hl]. rewrite E. cbn [mbind outcome_bind].
  destruct (IH (AddTransforms config tfs) Hl) as (tfs' & E' & HP' & Hdom). exists tfs'. split; [done|]. split.
  - intros id t Ht. destruct (HP' id t Ht) as [Hu|]; [|by right]. unfold AddTransforms in Hu.
    apply lookup_union_Some_raw in Hu as [Hu|[_ Hu]]; [right; by eapply HP|by left].
  - intros id. rewrite Hdom. unfold AddTransforms. rewrite lookup_union_is_Some. split.
    + intros [[?|?]|(pl' & tfs1 & ? & ? & ?)]; [|by left|].
      * right. exists pl, tfs. split; [by left|done].
      * right. exists pl', tfs1. split; [by right|done].
    + intros [?|(pl' & tfs1 & [->|?]%elem_of_cons & E1 & ?)]; [by left; right| |].
      * assert (tfs1 = tfs) as -> by congruence. by left; left.
      * right. eauto.
Qed.

(** The pipelines after the loop are the ones it made. *)
Lemma conf_pipelines_elem (pls : list Pipeline) (pl : Pipeline) :
  conf_ready → length pls = length (spec_Pipelines clfspec) →
  pl ∈ sortAdapters (map_of_assignments (zip (pipe_Name <$> spec_Pipelines clfspec) pls)) ↔ pl ∈ pls.
Proof.
  intros Hc Hlen. rewrite sortAdapters_elem.
  setoid_rewrite map_of_assignments_NoDup; [|rewrite fst_zip; [apply (cr_names Hc)|rewrite length_fmap; lia]].
  split.
  - intros (k & Hk). by apply elem_of_zip_r in Hk.
  - intros [i Hi]%list_elem_of_lookup. destruct (lookup_lt_is_Some_2 (spec_Pipelines clfspec) i) as [p Hp].
    { apply lookup_lt_Some in Hi. lia. }
    exists (pipe_Name p). apply (list_elem_of_lookup_2 _ i). apply lookup_zip_Some. by rewrite list_lookup_fmap, Hp.
Qed.

Lemma made_transforms Ids i p pl :
  conf_ready → p ∈ spec_Pipelines clfspec → made i p pl →
  ∃ tfs, Pipeline_Transforms Ids pl = Ret (inl tfs) ∧
    (∀ id t, tfs !! id = Some t → ¬ closes (transform_value t)) ∧
    ∀ id, is_Some (tfs !! id) ↔ ∃ j ref, effective_refs p filters inputSpecs !! j = Some ref ∧
      id = filter_id (effective_name i p) j ref.
Proof.
  intros Hc Hp (outs & outs' & E).
  destruct (Pipeline_Transforms_valid regexp_compiles parse_other fm
    (λ k g Hg, proj2 (FilterMap_lookup k g Hg)) (λ k g Hg, cr_filters Hc g (proj1 (FilterMap_lookup k g Hg)))
    ∅ Ids i p _ outs inputSpecs pl outs' (λ ref, cr_refs Hc p ref Hp) E) as (tfs & Et & Hdom & Hok).
  exists tfs. split; [exact Et|]. split; [|exact Hdom].
  intros id t Ht. destruct (proj1 (Hdom id) (ex_intro _ t Ht)) as (j & ref & Hj & ->). by eapply Hok.
Qed.

(** The transforms and the outputs, given what holds of the transforms of a pipeline. *)
Lemma conf_transforms_made (P : transform → Prop) Ids config :
  conf_ready →
  (∀ i p pl tfs id t, spec_Pipelines clfspec !! i = Some p → made i p pl →
     Pipeline_Transforms Ids pl = Ret (inl tfs) → tfs !! id = Some t → P t) →
  ∃ tfs outs, conf_transforms parse_other Ids config clfspec = Ret (inl tfs, outs) ∧
    (∀ id t, tfs !! id = Some t → config !! id = Some t ∨ P t) ∧
    (∀ id, is_Some (tfs !! id) ↔ is_Some (config !! id) ∨
       ∃ i p j ref, spec_Pipelines clfspec !! i = Some p ∧ effective_refs p filters inputSpecs !! j = Some ref ∧
         id = filter_id (effective_name i p) j ref) ∧
    (∀ name, outs !! name =
       feed (fed_by name 0 (spec_Pipelines clfspec)) <$> conf_outputs (spec_Outputs clfspec) !! name).
Proof.
  intros Hc HPt. unfold conf_transforms.
  destruct (conf_pipelines_made (spec_Pipelines clfspec) 0 ∅ (conf_outputs (spec_Outputs clfspec)))
    as (pls & om & -> & Hlen & Hmade & Hom); [intros p Hp; by apply filters_resolve|].
  cbn [mbind outcome_bind fst snd]. fold (map_of_assignments (zip (pipe_Name <$> spec_Pipelines clfspec) pls)).
  assert (∀ pl, pl ∈ pls → ∃ i p, spec_Pipelines clfspec !! i = Some p ∧ pls !! i = Some pl ∧ made i p pl) as Hpl.
  { intros pl [i Hi]%list_elem_of_lookup. destruct (lookup_lt_is_Some_2 (spec_Pipelines clfspec) i) as [p Hp].
    { apply lookup_lt_Some in Hi. lia. }
    exists i, p. split; [done|]. split; [done|]. by apply (Hmade i). }
  destruct (add_pipelines_ok Ids P
    (sortAdapters (map_of_assignments (zip (pipe_Name <$> spec_Pipelines clfspec) pls))) config)
    as (tfs & -> & HP & Hdom).
  { intros pl Hin. apply (conf_pipelines_elem pls pl Hc Hlen) in Hin. destruct (Hpl pl Hin) as (i & p & Hp & _ & Hm).
    destruct (made_transforms Ids i p pl Hc (list_elem_of_lookup_2 _ _ _ Hp) Hm) as (tfs & Et & _). exists tfs. split; [exact Et|]. intros id t. by apply (HPt i p pl). }
  exists tfs, om. split; [done|]. split; [done|]. split; [|exact Hom].
  intros id. rewrite Hdom. apply or_iff_compat_l. split.
  - intros (pl & tfs' & Hin & Et & Hid). apply (conf_pipelines_elem pls pl Hc Hlen) in Hin.
    destruct (Hpl pl Hin) as (i & p & Hp & _ & Hm).
    destruct (made_transforms Ids i p pl Hc) as (tfs1 & Et' & _ & Hd); [by eapply list_elem_of_lookup_2|done|].
    assert (tfs1 = tfs') as -> by congruence. destruct (proj1 (Hd id) Hid) as (j & ref & Hj & Eid). by exists i, p, j, ref.
  - intros (i & p & j & ref & Hp & Hj & ->). destruct (lookup_lt_is_Some_2 pls i) as [pl Hi].
    { apply lookup_lt_Some in Hp. lia. }
    destruct (made_transforms Ids i p pl Hc) as (tfs1 & Et' & _ & Hd); [by eapply list_elem_of_lookup_2|by apply (Hmade i p pl)|].
    exists pl, tfs1. split; [apply (conf_pipelines_elem pls pl Hc Hlen); by eapply list_elem_of_lookup_2|].
    split; [done|]. apply Hd. eauto.
Qed.

(** C32. From a spec to the transforms of its pipelines.  For a spec with valid filters,
    references that resolve and pipelines with names of their own, putting the
    transforms together succeeds whatever identifiers the sources gave the inputs.
    There is a transform for every filter that is applied in every pipeline, and for
    nothing else besides the transforms that were there; none of them can make the
    configuration be refused.  Every output reads from the last filter of each pipeline
    that names it, in the order of the pipelines. *)
Theorem conf_transforms_correct Ids config :
  conf_ready →
  ∃ tfs outs, conf_transforms parse_other Ids config clfspec = Ret (inl tfs, outs) ∧
    (∀ id t, tfs !! id = Some t → config !! id = Some t ∨ ¬ closes (transform_value t)) ∧
    (∀ id, is_Some (tfs !! id) ↔ is_Some (config !! id) ∨
       ∃ i p j ref, spec_Pipelines clfspec !! i = Some p ∧ effective_refs p filters inputSpecs !! j = Some ref ∧
         id = filter_id (effective_name i p) j ref) ∧
    (∀ name, outs !! name =
       feed (fed_by name 0 (spec_Pipelines clfspec)) <$> conf_outputs (spec_Outputs clfspec) !! name).
Proof.
  intros Hc. apply (conf_transforms_made (λ t, ¬ closes (transform_value t))); [done|].
  intros i p pl tfs id t Hp Hm Et Ht.
  destruct (made_transforms Ids i p pl Hc (list_elem_of_lookup_2 _ _ _ Hp) Hm) as (tfs' & Et' & Hcl & _).
  assert (tfs' = tfs) as -> by congruence. by apply (Hcl id).
Qed.
End conf.

(** ** A collision of identifiers *)

(** Two pipelines whose names, joined with those of their filters, read the same. *)
Definition colliding : ClusterLogForwarderSpec := {|
  spec_ManagementState := ManagementStateManaged; spec_Collector := None;
  spec_Inputs := (λ name, {|
    in_Name := name; in_Type := name; in_Application := None; in_Infrastructure := None;
    in_Audit := None; in_Receiver := None |}) <$> ["infrastructure"; "audit"];
  spec_Outputs := (λ name, {|
    out_Name := name; out_Type := OutputTypeHTTP; out_TLS := None; out_Limit := None;
    out_AzureLogsIngestion := None; out_AzureMonitor := None; out_Cloudwatch := None;
    out_Elasticsearch := None; out_GoogleCloudLogging := None; out_HTTP := None;
    out_Kafka := None; out_Loki := None; out_LokiStack := None; out_S3 := None;
    out_Splunk := None; out_Syslog := None; out_OTLP := None |}) <$> ["one"; "two"];
  spec_Filters := [example_filter "b-c" FilterTypeOpenshiftLabels {["k" := "1"]};
                   example_filter "c" FilterTypeOpenshiftLabels {["k" := "2"]}];
  spec_Pipelines :=
    [{| pipe_Name := "a"; pipe_InputRefs := ["infrastructure"]; pipe_OutputRefs := ["one"]; pipe_FilterRefs := ["b-c"] |};
     {| pipe_Name := "a-b"; pipe_InputRefs := ["audit"]; pipe_OutputRefs := ["two"]; pipe_FilterRefs := ["c"] |}];
  spec_ServiceAccount := {| sa_Name := "sa" |} |}.

#[local] Existing Instance canonical_order.

Lemma colliding_ready : conf_ready (λ _, true) colliding.
Proof.
  split.
  - intros f Hf. assert (∃ n v, f = example_filter n FilterTypeOpenshiftLabels {["k" := v]} ∧ toml_safe v) as (n & v & -> & Hv).
    { cbn in Hf. rewrite !elem_of_cons in Hf. destruct Hf as [->|[->|[]%not_elem_of_nil]]; by do 2 eexists. }
    split; [split; [cbn; set_solver|by split]|]. split_and!; try done.
    intros _ k u Hu. cbn in Hu. apply lookup_singleton_Some in Hu as [<- <-]. done.
  - intros p ref Hp Href. cbn in Hp. rewrite !elem_of_cons in Hp.
    destruct Hp as [->|[->|[]%not_elem_of_nil]]; apply list_elem_of_singleton in Href as ->; by eexists.
  - cbn. repeat constructor; set_solver.
Qed.

Lemma conf_transforms_correct_witness :
  conf_ready (λ _, true) colliding ∧
  ∃ tfs outs, conf_transforms (λ _, None) ∅ ∅ colliding = Ret (inl tfs, outs) ∧
    is_Some (tfs !! "pipeline_a_viaq_0") ∧ is_Some (tfs !! "pipeline_a_b_viaq_0").
Proof.
  split; [exact colliding_ready|].
  destruct (conf_transforms_correct (λ _, true) (λ _, None) colliding ∅ ∅ colliding_ready)
    as (tfs & outs & E & _ & Hdom & _).
  exists tfs, outs. split; [exact E|].
  split; apply Hdom; right; [exists 0|exists 1]; eexists _, 0, _; (split; [reflexivity|]);
    (split; [vm_compute; reflexivity|by vm_compute]).
Defined.

(** What a configuration reads: the inputs of each transform and of each output. *)
Definition remap_inputs (t : transform) : list string :=
  match t with TRemap (Some r) => remap_Inputs r | _ => [] end.

Definition reads (c : outcome ((Transforms + string) * gmap string Output)) :
    option (list (string * list string) * list (string * list string)) :=
  match c with
  | Ret (inl tfs, outs) =>
      Some ((λ kv, (kv.1, remap_inputs kv.2)) <$> map_to_list tfs,
            (λ kv, (kv.1, o_InputIDs kv.2)) <$> map_to_list outs)
  | _ => None
  end.

(** Identifiers of different pipelines.  The identifiers of one pipeline differ, but
    those of two pipelines need not: a dash becomes the underscore that joins the
    parts.  Pipeline [a] with filter [b-c] and pipeline [a-b] with filter [c], both
    valid, end in a transform of the same name; one of them is lost, the output of each
    reads from the one that is left, and so the audit logs go to the output of the
    infrastructure logs and the latter nowhere. *)
Theorem pipelines_collide :
  (∀ name ref name' ref' i,
     FormatComponentID ("pipeline_" +:+ name +:+ "_" +:+ FormatComponentID ref) =
     FormatComponentID ("pipeline_" +:+ name' +:+ "_" +:+ FormatComponentID ref') ↔
     filter_id name i ref = filter_id name' i ref') ∧
  conf_ready (λ _, true) colliding ∧
  reads (conf_transforms (λ _, None) {["infrastructure" := ["inf"]; "audit" := ["aud"]]} ∅ colliding) =
    Some ([("pipeline_a_viaq_0", ["inf"]); ("pipeline_a_b_c_1", ["pipeline_a_b_viaq_0"]);
           ("pipeline_a_b_viaq_0", ["aud"])],
          [("one", ["pipeline_a_b_c_1"]); ("two", ["pipeline_a_b_c_1"])]).
Proof.
  split; [|split; [exact colliding_ready|]].
  - intros name ref name' ref' i. rewrite !filter_id_suffix. split; [by intros ->|].
    intros E%string_app_inj_r. done.
  - vm_compute. reflexivity.
Qed.
