(* ===== verification/Config.v ===== *)
(** * The configuration of the collector ([internal/generator/vector/conf], [api])

    The rest of [conf.go] with [global.go] and the types of [api]: the sources of the
    inputs and what they feed, then the sinks of the outputs.  The identifiers the sources
    give the inputs are what the pipelines read.  That a configuration is closed is proved
    in [ConfigSpec]; here is the part of it before the outputs. *)

From S2P Require Import Prelude GoStrings GoTime ApiCommon ApiInputs ApiFilters ApiOutputs ApiForwarder.
From S2P Require Import Regex Sets ObsResources ObsInputs ObsForwarder ValidateFilters ValidateOutputs AwsAuth Toml Transforms VrlText.
From S2P Require Import VectorHelpers FilterVRL Viaq Adapters Tls Sources SourcesSpec SinkTypes OutputCommon OutputFactory.
From S2P Require Import OutputsSpec LokiStackSpec Conf.
From S2P Require ValidatePipelines Validate.

(** ** The sections that do not depend on the forwarder *)

Record Api := { api_Enabled : bool; api_Address : string; api_Playground : bool }.
Record LogSchema := { ls_HostKey : string }.

Definition SecretTypeDirectory : string := "directory".
Record VectorSecret := { vs_Type : string; vs_Path : string }.
Definition NewDirectorySecret (path : string) : VectorSecret := {| vs_Type := SecretTypeDirectory; vs_Path := path |}.

Record GlobalSection := { ExpireMetricsSec : Z; DataDir : string }.

Record Config := {
  c_Global : GlobalSection;
  c_Api : option Api;
  c_LogSchema : option LogSchema;
  c_Secret : gmap string VectorSecret;
  c_Sources : Sources;
  c_Transforms : Transforms;
  c_Sinks : Sinks;
}.

Definition NewConfig : Config := {|
  c_Global := {| ExpireMetricsSec := 0; DataDir := "" |}; c_Api := None; c_LogSchema := None;
  c_Secret := ∅; c_Sources := ∅; c_Transforms := ∅; c_Sinks := ∅ |}.

(** ** [global.go] *)

Definition DefaultDataPath : string := "/var/lib/vector".
Definition SingletonName : string := "instance".

Definition GetDataPath (namespace forwarderName : string) : string :=
  if (OpenshiftNS == namespace) && (SingletonName == forwarderName) then DefaultDataPath
  else PathJoin [DefaultDataPath; namespace; forwarderName].

Definition Global (c : Config) (namespace forwarderName : string) : Config :=
  let dataDir := GetDataPath namespace forwarderName in
  let dataDir := if dataDir == DefaultDataPath then "" else dataDir in {|
  c_Global := {| ExpireMetricsSec := 60; DataDir := dataDir |};
  c_Api := Some {| api_Enabled := true; api_Address := "127.0.0.1:8686"; api_Playground := false |};
  c_LogSchema := Some {| ls_HostKey := "hostname" |};
  c_Secret := {[VectorSecretID := NewDirectorySecret CollectorSecretsDir]};
  c_Sources := c_Sources c; c_Transforms := c_Transforms c; c_Sinks := c_Sinks c |}.

(** ** [conf.go] *)

Definition InternalMetricsSourceName : string := "internal_metrics".

Definition AddSources (config sources : Sources) : Sources := sources ∪ config.
Definition AddSinks (config sinks : Sinks) : Sinks := sinks ∪ config.

Definition conf_inputs (inputs : list InputSpec) : gmap string Input :=
  foldl (λ m i, <[in_Name i := NewInput i]> m) ∅ inputs.

Section conf.
Context `{RangeOrder, UintOfFloat, OpenshiftTLS, Host}.
Context (parse_url : string → option URL) (parse_other : string → option instant).

(** What the loop over the inputs changes: the sources, the transforms, the identifiers of
    the inputs and the options. *)
Record inputs_state := {
  st_Sources : Sources;
  st_Transforms : Transforms;
  st_Ids : gmap string (list string);
  st_op : Options;
}.

Fixpoint add_inputs (secrets : Secrets) (st : inputs_state) (l : list Input) : outcome inputs_state :=
  match l with
  | [] => Ret st
  | i :: l =>
      r ← NewSource parse_url i secrets (st_op st);
      let '((sources, transforms, i'), op) := r in
      add_inputs secrets {|
        st_Sources := AddSources (st_Sources st) sources;
        st_Transforms := AddTransforms (st_Transforms st) transforms;
        st_Ids := <[in_Name (i_Spec i) := i_Ids i']> (st_Ids st);
        st_op := op |} l
  end.

(** [Conf] before the outputs: the configuration so far, the outputs, which know what they
    read, and the options. *)
Definition Conf_collect (secrets : Secrets) (clfspec : ClusterLogForwarderSpec) (namespace forwarderName : string)
    (op : Options) : outcome ((Config * gmap string Output * Options) + string) :=
  let op := <[OptionForwarderName := AnyString forwarderName]> (<[CLFSpec := AnySpec clfspec]> op) in
  let config := Global NewConfig namespace forwarderName in
  st ← add_inputs secrets {|
         st_Sources := {[InternalMetricsSourceName := SInternalMetrics NewInternalMetrics]};
         st_Transforms := ∅; st_Ids := ∅; st_op := op |} (sortAdapters (conf_inputs (spec_Inputs clfspec)));
  r ← conf_transforms parse_other (st_Ids st) (st_Transforms st) clfspec;
  match r with
  | (inr err, _) => Ret (inr err)
  | (inl transforms, outputs) =>
      Ret (inl ({| c_Global := c_Global config; c_Api := c_Api config; c_LogSchema := c_LogSchema config;
                   c_Secret := c_Secret config; c_Sources := st_Sources st; c_Transforms := transforms;
                   c_Sinks := c_Sinks config |},
                outputs, st_op st))
  end.

(** The loop over the outputs: the sinks, the transforms and the options. *)
Fixpoint add_outputs (secrets : Secrets) (st : Sinks * Transforms * Options) (l : list Output) :
    outcome (Sinks * Transforms * Options) :=
  match l with
  | [] => Ret st
  | o :: l =>
      let '(sinks, transforms, op) := st in
      r ← output_New parse_url o (o_InputIDs o) secrets op;
      add_outputs secrets (AddSinks sinks r.1.1, AddTransforms transforms r.1.2, r.2) l
  end.

(** The configuration, and the options it leaves. *)
Definition Conf (secrets : Secrets) (clfspec : ClusterLogForwarderSpec) (namespace forwarderName : string) (op : Options) :
    outcome ((Config * Options) + string) :=
  r ← Conf_collect secrets clfspec namespace forwarderName op;
  match r with
  | inr err => Ret (inr err)
  | inl (config, outputs, op) =>
      st ← add_outputs secrets (c_Sinks config, c_Transforms config, op) (sortAdapters outputs);
      let '(sinks, transforms, op) := st in
      metrics ← PrometheusOutput parse_url [AddNodenameToMetricTransformName] op;
      Ret (inl ({|
        c_Global := c_Global config; c_Api := c_Api config; c_LogSchema := c_LogSchema config; c_Secret := c_Secret config;
        c_Sources := c_Sources config;
        c_Transforms := <[AddNodenameToMetricTransformName := AddNodeNameToMetric [InternalMetricsSourceName]]> transforms;
        c_Sinks := <[PrometheusOutputSinkName := metrics]> sinks |}, op))
  end.

(** ** The configuration is closed *)

(** The components there are. *)
Definition component (sources : Sources) (transforms : Transforms) (id : string) : Prop :=
  is_Some (sources !! id) ∨ is_Some (transforms !! id).

Record inputs_ok (op : Options) (st : inputs_state) : Prop := {
  io_reads : ∀ id t x, st_Transforms st !! id = Some t → x ∈ inputs_of t → component (st_Sources st) (st_Transforms st) x;
  io_ids : ∀ name ids x, st_Ids st !! name = Some ids → x ∈ ids → is_Some (st_Transforms st !! x);
  io_safe : ∀ id t, st_Transforms st !! id = Some t → ¬ closes (transform_value t);
  io_step : op_step op (st_op st) ∅;
  io_metrics : is_Some (st_Sources st !! InternalMetricsSourceName);
}.

Lemma component_union s s' t t' id : component (s' ∪ s) (t' ∪ t) id ↔ component s t id ∨ component s' t' id.
Proof. unfold component. rewrite !lookup_union_is_Some. naive_solver. Qed.

Lemma add_input_ok op0 st i sources transforms i' op :
  inputs_ok op0 st → i_Ids i = [] → sources_ok i (kinds (i_Spec i)) (sources, transforms, i') →
  (∀ key, key ∉ [OptMinTLSVersion; OptCiphers; OptGroups] → op !! key = st_op st !! key) → tls_options_set op →
  inputs_ok op0 {| st_Sources := AddSources (st_Sources st) sources; st_Transforms := AddTransforms (st_Transforms st) transforms;
    st_Ids := <[in_Name (i_Spec i) := i_Ids i']> (st_Ids st); st_op := op |}.
Proof.
  intros [Hr Hi Hs Hp Hm] Hnil Hok Hop Hset. pose proof (so_new _ _ _ Hok) as (new & Hnew & _ & Hids).
  pose proof (λ id t, so_inputs _ _ _ id t Hok) as Hin. pose proof (so_safe _ _ _ Hok) as Hsafe. cbn [fst snd] in *.
  rewrite Hnil in Hnew. cbn [app] in Hnew.
  split; cbn [st_Sources st_Transforms st_Ids st_op]; unfold AddSources, AddTransforms.
  - intros id t x Ht Hx. rewrite component_union. apply lookup_union_Some_raw in Ht as [Ht|[_ Ht]].
    + destruct (Hin id t Ht) as (y & E & Hy). rewrite E in Hx. apply list_elem_of_singleton in Hx as ->. by right.
    + left. by eapply Hr.
  - intros name ids x [[_ <-]|[_ Hl]]%lookup_insert_Some Hx; rewrite lookup_union_is_Some.
    + left. rewrite Hnew in Hx. by apply Hids.
    + right. by eapply Hi.
  - intros id t [Ht|[_ Ht]]%lookup_union_Some_raw; [by eapply Hsafe|by eapply Hs].
  - rewrite <-(left_id_L ∅ (∪) ∅). eapply op_step_trans; [exact Hp|]. apply tls_options_step; [apply (os_ok _ _ _ Hp)|done..].
  - apply lookup_union_is_Some. by right.
Qed.

Lemma add_inputs_ok op0 secrets l : ∀ st,
  inputs_ok op0 st → (∀ i, i ∈ l → i_Ids i = [] ∧ source_ready (i_Spec i)) →
  ∃ st', add_inputs secrets st l = Ret st' ∧ inputs_ok op0 st'.
Proof.
  induction l as [|i l IH]; intros st Hst Hl; cbn [add_inputs]; [by exists st|].
  apply forall_cons_iff in Hl as [[Hnil Hi] Hl].
  destruct (NewSource_ok parse_url i secrets (st_op st) Hi) as ([[srcs tfs] i'] & op' & -> & Hok & Hop & Hset).
  { apply op_ok_profile, (os_ok _ _ _ (io_step _ _ Hst)). }
  cbn [mbind outcome_bind]. apply IH; [|done]. by apply add_input_ok.
Qed.

Lemma foldl_assignments {A V} (k : A → string) (v : A → V) l :
  foldl (λ m x, <[k x := v x]> m) ∅ l = map_of_assignments ((λ x, (k x, v x)) <$> l).
Proof. unfold map_of_assignments. generalize (∅ : gmap string V). by induction l as [|x l IH]; intros m; cbn. Qed.

Lemma conf_inputs_elem inputs i : i ∈ sortAdapters (conf_inputs inputs) → ∃ s, s ∈ inputs ∧ i = NewInput s.
Proof.
  rewrite sortAdapters_elem. intros (k & Hk). unfold conf_inputs in Hk. rewrite foldl_assignments in Hk.
  apply map_of_assignments_elem, list_elem_of_fmap in Hk as (s & [= _ ->] & Hs). by exists s.
Qed.

(** The last filter of a pipeline is one of its filters. *)
Lemma last_id_applied index p filters inputSpecs :
  ∃ j ref, effective_refs p filters inputSpecs !! j = Some ref ∧
    last_id index p filters inputSpecs = filter_id (effective_name index p) j ref.
Proof.
  pose proof (applied_refs_perm filters (read_inputs p inputSpecs) (pipe_FilterRefs p)) as Hperm.
  fold (effective_refs p filters inputSpecs) in Hperm. apply Permutation_length in Hperm. cbn [length] in Hperm.
  destruct (lookup_lt_is_Some_2 (effective_refs p filters inputSpecs) (length (pipe_FilterRefs p))) as [ref Hr]; [lia|].
  exists (length (pipe_FilterRefs p)), ref. split; [done|]. unfold last_id. rewrite last_lookup, Hperm. cbn [pred].
  by rewrite Hr.
Qed.

Lemma fed_by_applied clfspec name l : ∀ i x,
  x ∈ fed_by parse_other clfspec name i l →
  ∃ k p j ref, l !! k = Some p ∧
    effective_refs p (NewInternalFilterMap parse_other (FilterMap clfspec)) (spec_Inputs clfspec) !! j = Some ref ∧
    x = filter_id (effective_name (i + k) p) j ref.
Proof.
  intros i x Hx. unfold fed_by in Hx.
  apply list_elem_of_join in Hx as (ids & Hxi & (k & Hk)%list_elem_of_lookup).
  rewrite list_lookup_imap in Hk. apply fmap_Some in Hk as (p & Hp & ->).
  apply list_elem_of_join in Hxi as (one & Hx1 & ->%elem_of_replicate_inv).
  apply list_elem_of_singleton in Hx1 as ->.
  destruct (last_id_applied (i + k) p (NewInternalFilterMap parse_other (FilterMap clfspec)) (spec_Inputs clfspec))
    as (j & ref & Hr & ->). by exists k, p, j, ref.
Qed.

(** A spec the configuration can be made of: the pipelines and filters are ready, the
    inputs too, and the pipelines read inputs that exist. *)
Record spec_ready (regexp_compiles : string → bool) (clfspec : ClusterLogForwarderSpec) : Prop := {
  spr_conf : conf_ready regexp_compiles clfspec;
  spr_inputs : ∀ i, i ∈ spec_Inputs clfspec → source_ready i;
}.

(** The identifiers of the filters that pipelines apply. *)
Definition pipeline_id (clfspec : ClusterLogForwarderSpec) (id : string) : Prop :=
  ∃ i p j ref, spec_Pipelines clfspec !! i = Some p ∧
    effective_refs p (NewInternalFilterMap parse_other (FilterMap clfspec)) (spec_Inputs clfspec) !! j = Some ref ∧
    id = filter_id (effective_name i p) j ref.

(** What a pipeline reads is a transform of an input or of the pipeline. *)
Lemma made_reads (clfspec : ClusterLogForwarderSpec) op0 st i p pl (tfs : Transforms) id t x :
  inputs_ok op0 st → spec_Pipelines clfspec !! i = Some p →
  (∀ ref, ref ∈ pipe_FilterRefs p → is_Some (FilterMap clfspec !! ref)) →
  made parse_other clfspec i p pl → Pipeline_Transforms (st_Ids st) pl = Ret (inl tfs) →
  tfs !! id = Some t → x ∈ inputs_of t → is_Some (st_Transforms st !! x) ∨ pipeline_id clfspec x.
Proof.
  intros Hst Hp Hrefs (outs & outs' & E) Et Ht Hx.
  assert (∀ ref, ref ∈ pipe_FilterRefs p → is_Some (NewInternalFilterMap parse_other (FilterMap clfspec) !! ref)) as Hres.
  { intros ref [g Hg]%Hrefs. eexists. apply NewInternalFilterMap_lookup; [by intros k g' []%FilterMap_lookup|]. by exists g. }
  destruct (NewPipeline_returns ∅ i p (list_to_set (Inputs_Names (spec_Inputs clfspec))) outs
    (NewInternalFilterMap parse_other (FilterMap clfspec)) (spec_Inputs clfspec) Hres) as (pl' & o' & E' & Hc & _).
  rewrite E in E'. injection E' as <- _.
  destruct (pipeline_transform_reads parse_other (st_Ids st) (effective_name i p) _ _ p _ (FilterMap clfspec) (spec_Inputs clfspec)
    pl tfs id t x (λ k g Hg, proj2 (FilterMap_lookup clfspec k g Hg)) eq_refl Hc Et Ht Hx)
    as [(ref & _ & _ & Hids)|(j & ref & Hj & ->)]; [left|right; by exists i, p, j, ref].
  destruct (st_Ids st !! ref) as [ids|] eqn:El; [by eapply io_ids|by apply not_elem_of_nil in Hids].
Qed.

(** The loop over the inputs of a spec that is ready. *)
Lemma conf_inputs_ok secrets clfspec op :
  (∀ i, i ∈ spec_Inputs clfspec → source_ready i) → op_ok op →
  ∃ st, add_inputs secrets {|
      st_Sources := {[InternalMetricsSourceName := SInternalMetrics NewInternalMetrics]};
      st_Transforms := ∅; st_Ids := ∅; st_op := op |} (sortAdapters (conf_inputs (spec_Inputs clfspec))) = Ret st ∧
    inputs_ok op st.
Proof.
  intros Hin Hop. apply add_inputs_ok.
  - split; cbn [st_Sources st_Transforms st_Ids st_op]; [by intros ? ? ? ?%lookup_empty_Some|
      by intros ? ? ? ?%lookup_empty_Some|by intros ? ? ?%lookup_empty_Some|by apply op_step_refl|by rewrite lookup_singleton_eq].
  - intros i (s & Hs & ->)%conf_inputs_elem. split; [done|]. by apply Hin.
Qed.

(** The outputs are those of the spec. *)
Lemma conf_outputs_lookup outputs name o : conf_outputs outputs !! name = Some o → ∃ s, s ∈ outputs ∧ out_Name s = name ∧ o = NewOutput s.
Proof.
  unfold conf_outputs. rewrite foldl_assignments. intros Hk.
  apply map_of_assignments_elem, list_elem_of_fmap in Hk as (s & [= -> ->] & Hs). by exists s.
Qed.

Lemma conf_outputs_dom outputs s : s ∈ outputs → is_Some (conf_outputs outputs !! out_Name s).
Proof.
  intros Hs. unfold conf_outputs. rewrite foldl_assignments. apply map_of_assignments_dom. rewrite <-list_fmap_compose.
  by apply (list_elem_of_fmap_2 out_Name).
Qed.

(** What there is before the outputs: the sources, transforms and options, and what each
    output of the spec reads. *)
Record collected (clfspec : ClusterLogForwarderSpec) (op : Options) (config : Config) (outputs : gmap string Output) (op' : Options) : Prop := {
  co_reads : ∀ id t x, c_Transforms config !! id = Some t → x ∈ inputs_of t → component (c_Sources config) (c_Transforms config) x;
  co_safe : ∀ id t, c_Transforms config !! id = Some t → ¬ closes (transform_value t);
  co_metrics : is_Some (c_Sources config !! InternalMetricsSourceName);
  co_outputs : ∀ name o, outputs !! name = Some o → o_Spec o ∈ spec_Outputs clfspec ∧ out_Name (o_Spec o) = name ∧
    ∀ x, x ∈ o_InputIDs o → is_Some (c_Transforms config !! x);
  co_dom : ∀ s, s ∈ spec_Outputs clfspec → is_Some (outputs !! out_Name s);
  co_sinks : c_Sinks config = ∅;
  co_step : op_step op op' ∅;
}.

(** For a spec whose inputs, filters and pipelines are ready, making the configuration up to
    its sinks returns, also where identifiers of different inputs or pipelines are the same. *)
Lemma Conf_collect_closed regexp_compiles secrets clfspec namespace forwarderName op :
  let op1 := <[OptionForwarderName := AnyString forwarderName]> (<[CLFSpec := AnySpec clfspec]> op) in
  spec_ready regexp_compiles clfspec → op_ok op1 →
  ∃ config outputs op', Conf_collect secrets clfspec namespace forwarderName op = Ret (inl (config, outputs, op')) ∧
    collected clfspec op1 config outputs op'.
Proof.
  intros op1 [Hc Hin] Hop. unfold Conf_collect. fold op1.
  destruct (conf_inputs_ok secrets clfspec op1 Hin Hop) as (st & -> & Hst). cbn [mbind outcome_bind].
  destruct (conf_transforms_made regexp_compiles parse_other clfspec
    (λ t, ¬ closes (transform_value t) ∧ ∀ x, x ∈ inputs_of t → is_Some (st_Transforms st !! x) ∨ pipeline_id clfspec x)
    (st_Ids st) (st_Transforms st) Hc) as (tfs & outs & -> & Htfs & Hdom & Houts).
  { intros i p pl tfs id t Hp Hm Et Ht. pose proof (list_elem_of_lookup_2 _ _ _ Hp) as Hpin. split.
    - destruct (made_transforms regexp_compiles parse_other clfspec (st_Ids st) i p pl Hc Hpin Hm) as (tfs' & Et' & Hcl & _).
      assert (tfs' = tfs) as -> by congruence. by apply (Hcl id).
    - intros x. apply (made_reads clfspec op1 st i p pl tfs id t x Hst Hp); [|done..].
      intros ref. by apply (cr_refs _ _ Hc). }
  cbn [mbind outcome_bind]. eexists _, outs, (st_op st). split; [reflexivity|].
  assert (∀ x, is_Some (st_Transforms st !! x) ∨ pipeline_id clfspec x → is_Some (tfs !! x)) as Hx.
  { intros x. by rewrite (Hdom x). }
  split; cbn [c_Sources c_Transforms c_Sinks].
  - intros id t x Ht Hxt. destruct (Htfs id t Ht) as [Hold|[_ Hr]]; [|right; by apply Hx, Hr].
    destruct (io_reads _ st Hst id t x Hold Hxt) as [?|?]; [by left|right; apply Hx; by left].
  - intros id t Ht. destruct (Htfs id t Ht) as [Hold|[Hs _]]; [by eapply io_safe|done].
  - apply (io_metrics _ st Hst).
  - intros name o Ho. rewrite Houts in Ho. apply fmap_Some in Ho as (o0 & Ho0 & ->).
    apply conf_outputs_lookup in Ho0 as (s & Hs & Hn & ->). split_and!; [done..|]. intros x Hxo.
    apply fed_by_applied in Hxo as (k & p & j & ref & Hk & Hj & ->). apply Hx. right. by exists k, p, j, ref.
  - intros s Hs. rewrite Houts, fmap_is_Some. by apply conf_outputs_dom.
  - done.
  - apply (io_step _ st Hst).
Qed.
End conf.

(** What the validation accepts of a spec that the API admits is ready, but for what
    neither looks at: the type of a receiver, and the [container] section of the tuning of
    an infrastructure input, without which reading the limit panics. *)
Lemma forwarder_ok_ready getsa review regexp_compiles parse_url json context :
  Validate.forwarder_ok getsa review regexp_compiles parse_url json context →
  clf_admitted (ValidateCommon.ctx_Spec context) →
  (∀ i r, i ∈ spec_Inputs (ValidateCommon.ctx_Spec context) → in_Receiver i = Some r → recv_Type r ∈ ReceiverTypes) →
  (∀ i, i ∈ spec_Inputs (ValidateCommon.ctx_Spec context) → returns (MaxRecordsPerSecond i)) →
  spec_ready regexp_compiles (ValidateCommon.ctx_Spec context).
Proof.
  intros Hok Hadm Hrecv Hlim. split; [split|].
  - intros f Hf. split; [by eapply Forall_forall; [apply Hadm|]|by apply (Validate.fok_filters _ _ _ _ _ _ Hok)].
  - intros p ref Hp Href. apply map_of_assignments_dom. rewrite <-list_fmap_compose.
    exact (ValidatePipelines.pok_filters _ _ (Validate.fok_pipelines _ _ _ _ _ _ Hok p Hp) ref Href).
  - apply Hadm.
  - intros i Hi. destruct (proj1 (Forall_forall _ _) (ca_inputs _ Hadm) i Hi) as (Hty & _ & _ & _ & Hr).
    split; [done| |by apply Hlim]. intros Et. destruct (Hr Et) as [r Er]. exists r. split; [done|by eapply Hrecv].
Qed.

(** ** Witness *)

#[local] Existing Instance canonical_order.

Lemma colliding_spec_ready : spec_ready (λ _, true) colliding.
Proof.
  split; [exact colliding_ready|]. intros i Hi. cbn in Hi. rewrite !elem_of_cons, elem_of_nil in Hi.
  destruct Hi as [->|[->|[]]]; (split; [|done|by eexists]); [by right; left|by right; right; left].
Qed.
