(* ===== verification/ConfigSpec.v ===== *)
(** * The configuration of the collector is closed

    The configuration of a forwarder that is ready: every component reads components that
    are there, and each output has its sinks.  Outputs do not disturb one another because
    their identifiers start with their names, and no name is the start of another. *)

From S2P Require Import Prelude GoStrings GoTime ApiCommon ApiInputs ApiFilters ApiOutputs ApiForwarder.
From S2P Require Import Regex Sets ObsResources ObsInputs ObsForwarder ValidateFilters ValidateOutputs AwsAuth Toml Transforms VrlText.
From S2P Require Import VectorHelpers FilterVRL Viaq Adapters Tls Sources SourcesSpec SinkTypes OutputCommon OutputFactory.
From S2P Require Import OutputTexts OutputsSpec LokiStackSpec Conf Config.
From S2P Require Validate.

(** ** Identifiers of different outputs *)

Definition extends (a b : string) : Prop := ∃ r, b = a +:+ "-" +:+ r.

(** The identifiers an output may use. *)
Definition within (id k : string) : Prop := k = id ∨ own id k.

Lemma name_byte_id c s : name_byte c = true →
  FormatComponentID (String c s) = String (if Ascii.eqb c "-" then "_"%char else c) (FormatComponentID s).
Proof.
  intros Hc. change (String c s) with (String c "" +:+ s). rewrite FormatComponentID_app.
  assert (FormatComponentID (String c "") = String (if Ascii.eqb c "-" then "_"%char else c) "") as ->; [|done].
  revert Hc. destruct c as [[] [] [] [] [] [] [] []]; vm_compute; congruence.
Qed.

Lemma name_byte_inj c d : name_byte c = true → name_byte d = true →
  (if Ascii.eqb c "-" then "_"%char else c) = (if Ascii.eqb d "-" then "_"%char else d) → c = d.
Proof.
  intros Hc Hd. destruct (Ascii.eqb_spec c "-") as [->|_], (Ascii.eqb_spec d "-") as [->|_]; intros E; subst; done.
Qed.

Lemma dash_id c : name_byte c = true → (if Ascii.eqb c "-" then "_"%char else c) = "_"%char → c = "-"%char.
Proof. intros Hc E. by apply name_byte_inj. Qed.

Lemma names_differ a : ∀ b t t',
  string_forallb name_byte a = true → string_forallb name_byte b = true →
  (t = "" ∨ ∃ r, t = "_" +:+ r) → (t' = "" ∨ ∃ r, t' = "_" +:+ r) →
  FormatComponentID a +:+ t = FormatComponentID b +:+ t' → a = b ∨ extends a b ∨ extends b a.
Proof.
  induction a as [|c a IH]; intros [|d b] t t' Ha Hb Ht Ht' E; [by left|..].
  - apply andb_prop in Hb as [Hd Hb]. right; left. rewrite name_byte_id in E by done.
    destruct Ht as [->|[r ->]]; [done|]. injection E as E _. rewrite (dash_id d Hd (eq_sym E)). by exists b.
  - apply andb_prop in Ha as [Hc Ha]. right; right. rewrite name_byte_id in E by done.
    destruct Ht' as [->|[r ->]]; [done|]. injection E as E _. rewrite (dash_id c Hc E). by exists a.
  - apply andb_prop in Ha as [Hc Ha]. apply andb_prop in Hb as [Hd Hb]. rewrite !name_byte_id in E by done.
    injection E as Ec E. apply name_byte_inj in Ec as ->; [|done..].
    destruct (IH b t t' Ha Hb Ht Ht' E) as [->|[[r ->]|[r ->]]]; [by left|right; left|right; right]; by exists r.
Qed.

Lemma MakeOutputID_name name : MakeOutputID [name] = "output_" +:+ FormatComponentID name.
Proof. unfold MakeOutputID, MakeID. cbn [Join]. by rewrite !FormatComponentID_app. Qed.

Lemma within_tail id k : within id k → ∃ t, k = id +:+ t ∧ (t = "" ∨ ∃ r, t = "_" +:+ r).
Proof. intros [->|[r ->]]; [exists ""; rewrite string_app_nil_r; tauto|exists ("_" +:+ r); eauto]. Qed.

Lemma outputs_differ a b k :
  string_forallb name_byte a = true → string_forallb name_byte b = true →
  within (MakeOutputID [a]) k → within (MakeOutputID [b]) k → a = b ∨ extends a b ∨ extends b a.
Proof.
  intros Ha Hb (t & -> & Ht)%within_tail (t' & E & Ht')%within_tail. rewrite !MakeOutputID_name, !string_app_assoc in E.
  exact (names_differ a b t t' Ha Hb Ht Ht' (string_app_inj_l "output_" _ _ E)).
Qed.

Lemma within_output a k : within (MakeOutputID [a]) k → ∃ r, k = "output_" +:+ r.
Proof. intros (t & -> & _)%within_tail. rewrite MakeOutputID_name, string_app_assoc. eauto. Qed.

(** ** What can be read while the outputs are added *)

Section outputs.
Context `{RangeOrder, UintOfFloat, OpenshiftTLS, Host} (parse_url : string → option URL) (parse_other : string → option instant).
Context (clfspec : ClusterLogForwarderSpec) (sources : Sources).

Notation name o := (out_Name (o_Spec o)).
Notation output_id n := (MakeOutputID [n]).

(** A component that is there to stay: the routes are those of the outputs that were added,
    which no other output overwrites. *)
Definition reach (added : list string) (tfs : Transforms) (x : string) : Prop :=
  component sources tfs x ∨
  ∃ n k r, n ∈ added ∧ own (output_id n) k ∧ tfs !! k = Some (TRoute (Some r)) ∧
    (x = UnmatchedRoute k ∨ ∃ route, is_Some (route_Routes r !! route) ∧ x = MakeRouteInputID k route).

(** Names that output identifiers can be told apart by. *)
Definition apart (names : list string) : Prop :=
  (∀ n, n ∈ names → string_forallb name_byte n = true) ∧ ∀ a b, a ∈ names → b ∈ names → ¬ extends a b.

Lemma apart_within names a b k :
  apart names → a ∈ names → b ∈ names → within (output_id a) k → within (output_id b) k → a = b.
Proof. intros [Hb He] Ha Hb' Hk Hk'. destruct (outputs_differ a b k) as [?|[E|E]]; [by auto..|by apply He in E|by apply He in E]. Qed.

Lemma reach_mono names n added (new tfs : Transforms) x :
  apart names → n ∈ names → (∀ a, a ∈ added → a ∈ names) → n ∉ added →
  (∀ k t, new !! k = Some t → own (output_id n) k) → reach added tfs x → reach (n :: added) (new ∪ tfs) x.
Proof.
  intros Hap Hn Hadded Hnot Hown [[Hx|Hx]|(a & k & r & Ha & Hk & Hr & Hx)].
  - left; by left.
  - left; right. apply lookup_union_is_Some. by right.
  - right. exists a, k, r. split_and!; [by right|done| |done]. rewrite lookup_union_r; [done|].
    apply eq_None_not_Some. intros [t Ht]. apply Hnot. rewrite (apart_within names n a k); [done..|by auto| |by right].
    right. by eapply Hown.
Qed.

Lemma reach_new n added inputs (new tfs : Transforms) x :
  (∀ y, y ∈ inputs → is_Some (tfs !! y)) → (∀ k t, new !! k = Some t → own (output_id n) k) →
  may_read inputs new x → reach (n :: added) (new ∪ tfs) x.
Proof.
  intros Hin Hown [Hx|[Hx|(k & r & Hk & Hx)]].
  - left; right. apply lookup_union_is_Some. right. auto.
  - left; right. apply lookup_union_is_Some. by left.
  - right. exists n, k, r. split_and!; [by left|by eapply Hown|by apply lookup_union_Some_l|done].
Qed.

(** What holds while the outputs are added. *)
Record outputs_inv (op0 : Options) (added : list Output) (st : Sinks * Transforms * Options) : Prop := {
  oi_tfs : ∀ k t, st.1.2 !! k = Some t → safe t ∧ ∀ x, x ∈ inputs_of t → reach ((λ o, name o) <$> added) st.1.2 x;
  oi_sinks : ∀ k s, st.1.1 !! k = Some s →
    (∃ o, o ∈ added ∧ within (output_id (name o)) k) ∧ ∀ x, x ∈ sink_inputs s → reach ((λ o, name o) <$> added) st.1.2 x;
  oi_outputs : ∀ o, o ∈ added → ∃ sinks, sinks ⊆ st.1.1 ∧ output_sinks clfspec (o_Spec o) sinks;
  oi_ok : op_ok st.2;
  oi_spec : st.2 !! CLFSpec = op0 !! CLFSpec;
  oi_metrics : ∀ x, x ∈ metric_inputs st.2 → x ∈ metric_inputs op0 ∨ is_Some (st.1.2 !! x);
}.

Lemma add_output_inv op0 added o names (st : Sinks * Transforms * Options) sinks tfs op' :
  apart names → name o ∈ names → (∀ o', o' ∈ added → name o' ∈ names) → name o ∉ (λ o, name o) <$> added →
  (∀ x, x ∈ o_InputIDs o → is_Some (st.1.2 !! x)) →
  outputs_inv op0 added st → outs_ok (output_id (name o)) (o_InputIDs o) sinks tfs → op_step st.2 op' tfs →
  output_sinks clfspec (o_Spec o) sinks →
  outputs_inv op0 (o :: added) (AddSinks st.1.1 sinks, AddTransforms st.1.2 tfs, op').
Proof.
  intros Hap Hn Hadded Hnot Hin [Ht Hs Ho Hok Hspec Hm] [Htfs Hsinks] [Hok' Hm' Hspec'] Hout.
  assert (∀ k t, tfs !! k = Some t → own (output_id (name o)) k) as Hown by (intros k t Hk; apply (Htfs k t Hk)).
  assert (∀ a, a ∈ (λ o, name o) <$> added → a ∈ names) as Ha by (intros a (o' & -> & Ho')%list_elem_of_fmap; auto).
  assert (∀ x, reach ((λ o, name o) <$> added) st.1.2 x → reach (name o :: ((λ o, name o) <$> added)) (tfs ∪ st.1.2) x) as Hmono.
  { intros x. by eapply reach_mono. }
  assert (∀ x, may_read (o_InputIDs o) tfs x → reach (name o :: ((λ o, name o) <$> added)) (tfs ∪ st.1.2) x) as Hnew.
  { intros x. by apply reach_new. }
  split; cbn [fst snd fmap list_fmap]; unfold AddSinks, AddTransforms.
  - intros k t [Hk|[_ Hk]]%lookup_union_Some_raw.
    + destruct (Htfs k t Hk) as (_ & ? & ?). split; [done|]. intros x Hx. apply Hnew. auto.
    + destruct (Ht k t Hk). split; [done|]. intros x Hx. apply Hmono. auto.
  - intros k s [Hk|[_ Hk]]%lookup_union_Some_raw.
    + destruct (Hsinks k s Hk). split; [exists o; split; [by left|done]|]. intros x Hx. apply Hnew. auto.
    + destruct (Hs k s Hk) as [(o' & ? & ?) ?]. split; [exists o'; split; [by right|done]|]. intros x Hx. apply Hmono. auto.
  - intros o' [->|Ho']%elem_of_cons; [exists sinks; split; [apply map_union_subseteq_l|done]|].
    destruct (Ho o' Ho') as (sinks' & Hsub & ?). exists sinks'. split; [|done]. apply map_subseteq_spec. intros k s Hk.
    pose proof (lookup_weaken _ _ _ _ Hk Hsub) as Hk'. rewrite lookup_union_r; [done|]. apply eq_None_not_Some. intros [s' Hs'].
    destruct (Hsinks k s' Hs') as [Hwithin _]. destruct (Hs k s Hk') as [(o2 & Ho2 & Hw2) _].
    apply Hnot. rewrite (apart_within names (name o) (name o2) k); [by apply (list_elem_of_fmap_2 (λ o, name o))|by auto..].
  - done.
  - congruence.
  - intros x [[Hx|Hx]%Hm|Hx]%Hm'; [by left|right; apply lookup_union_is_Some; by right|right; apply lookup_union_is_Some; by left].
Qed.

Lemma add_outputs_ok op0 names secrets l : ∀ added st,
  apart names → (∀ o, o ∈ l ++ added → name o ∈ names) → NoDup ((λ o, name o) <$> l ++ added) →
  (∀ o, o ∈ l → output_ready parse_url clfspec (o_Spec o) ∧ ∀ x, x ∈ o_InputIDs o → is_Some (st.1.2 !! x)) →
  spec_stored clfspec op0 → outputs_inv op0 added st →
  ∃ st', add_outputs parse_url secrets st l = Ret st' ∧ outputs_inv op0 (reverse l ++ added) st' ∧
    ∀ x, is_Some (st.1.2 !! x) → is_Some (st'.1.2 !! x).
Proof.
  induction l as [|o l IH]; intros added st Hap Hn Hnd Hl Hspec Hinv; [by exists st|]. cbn [add_outputs].
  destruct st as [[sinks tfs] op]. cbn [fst snd] in *. apply forall_cons_iff in Hl as [[Ho Hin] Hl].
  cbn [app fmap list_fmap] in Hnd. apply NoDup_cons in Hnd as [Hnot Hnd].
  destruct (output_New_ok parse_url clfspec o (o_InputIDs o) secrets op) as (s & t & op' & E & Houts & Hstep & Hsinks); [|  |done|].
  - apply (oi_ok _ _ _ Hinv).
  - destruct Hspec as [E ?]. split; [|done]. rewrite <-E. apply (oi_spec _ _ _ Hinv).
  - rewrite E. cbn [mbind outcome_bind fst snd].
    destruct (IH (o :: added) (AddSinks sinks s, AddTransforms tfs t, op')) as (st' & -> & Hinv' & Hmono); [done|..].
    + intros o' Ho'. apply Hn. revert Ho'. rewrite !elem_of_app, !elem_of_cons. tauto.
    + assert (l ++ o :: added ≡ₚ o :: l ++ added) as -> by by rewrite Permutation_middle. cbn. apply NoDup_cons. by split.
    + intros o' Ho'. destruct (Hl o' Ho') as [? Hx]. split; [done|]. intros x Hxo. cbn [fst snd]. unfold AddTransforms.
      apply lookup_union_is_Some. right. auto.
    + done.
    + apply (add_output_inv op0 added o names (sinks, tfs, op)); [done|apply Hn; by left| | |done..].
      * intros o' Ho'. apply Hn. apply elem_of_app. by right.
      * intros Hbad. apply Hnot. rewrite fmap_app, elem_of_app. by right.
    + exists st'. split; [done|]. rewrite reverse_cons, <-app_assoc. split; [done|]. intros x Hx. apply Hmono. cbn [fst snd].
      unfold AddTransforms. apply lookup_union_is_Some. by right.
Qed.
End outputs.

(** ** The outputs of a spec *)

Lemma sortAdapters_keys {V} (f : V → string) (m : gmap string V) :
  (∀ k v, m !! k = Some v → f v = k) → f <$> sortAdapters m = sort_strings (map_to_list m).*1.
Proof.
  intros Hf. unfold sortAdapters. assert (∀ k, k ∈ sort_strings (map_to_list m).*1 → is_Some (m !! k)) as Hl.
  { intros k. rewrite elem_of_sort_strings, list_elem_of_fmap. intros ([k' v] & -> & ?%elem_of_map_to_list). by exists v. }
  induction (sort_strings _) as [|k l IH]; [done|]. apply forall_cons_iff in Hl as [[v Hv] Hl].
  cbn [omap list_omap]. rewrite Hv. cbn [fmap list_fmap]. by rewrite (Hf k v Hv), IH.
Qed.

Lemma sortAdapters_NoDup {V} (f : V → string) (m : gmap string V) :
  (∀ k v, m !! k = Some v → f v = k) → NoDup (f <$> sortAdapters m).
Proof.
  intros Hf. rewrite sortAdapters_keys by done. rewrite sort_strings_perm. apply NoDup_fst_map_to_list.
Qed.

(** A configuration can be made of a spec: the inputs, filters and pipelines are ready, the
    outputs too, with names that can be told apart. *)
Record config_ready `{RangeOrder} (regexp_compiles : string → bool) (parse_url : string → option URL)
    (clfspec : ClusterLogForwarderSpec) : Prop := {
  cfr_spec : spec_ready regexp_compiles clfspec;
  cfr_outputs : ∀ o, o ∈ spec_Outputs clfspec → output_ready parse_url clfspec o;
  cfr_names : NoDup (out_Name <$> spec_Outputs clfspec);
  cfr_apart : ∀ a b, a ∈ out_Name <$> spec_Outputs clfspec → b ∈ out_Name <$> spec_Outputs clfspec → ¬ extends a b;
  cfr_filled : (0 < length (spec_Inputs clfspec))%nat ∧ (0 < length (spec_Pipelines clfspec))%nat ∧
    (0 < length (spec_Outputs clfspec))%nat;
}.

(** What a component of a configuration may read. *)
Definition readable (c : Config) (x : string) : Prop := is_Some (c_Sources c !! x) ∨ provided (c_Transforms c) x.

Section closed.
Context `{RangeOrder, UintOfFloat, OpenshiftTLS, Host} (parse_url : string → option URL) (parse_other : string → option instant).

Lemma reach_readable (c : Config) added (tfs : Transforms) x :
  (∀ k, own (MakeOutputID [k]) AddNodenameToMetricTransformName → False) →
  reach (c_Sources c) added tfs x →
  c_Transforms c = <[AddNodenameToMetricTransformName := AddNodeNameToMetric [InternalMetricsSourceName]]> tfs → readable c x.
Proof.
  intros Hno Hx Ec. unfold readable. rewrite Ec. destruct Hx as [[Hx|Hx]|(n & k & r & _ & Hk & Hr & Hx)]; [by left|right..].
  - left. rewrite lookup_insert_is_Some'. by right.
  - right. exists k, r. split; [|done]. rewrite lookup_insert_ne; [done|]. intros <-. by eapply Hno.
Qed.

Lemma not_an_output_id n k : (∀ r, k ≠ "output_" +:+ r) → ¬ within (MakeOutputID [n]) k.
Proof. intros Hk [r Hr]%within_output. by apply (Hk r). Qed.

Lemma PrometheusOutput_returns inputs op : op_ok op →
  ∃ s, PrometheusOutput parse_url inputs op = Ret s ∧ SinkType s = "prometheus_exporter" ∧
    ∀ x, x ∈ sink_inputs s → x ∈ inputs ∨ x ∈ metric_inputs op.
Proof.
  intros Hop. unfold PrometheusOutput.
  assert (∃ l, GetStringSet op OptionLogsToMetricInputs = Ret l ∧ ∀ x, x ∈ l → x ∈ metric_inputs op) as (l & -> & Hl).
  { unfold GetStringSet, metric_inputs. destruct (op !! OptionLogsToMetricInputs) as [v|] eqn:E.
    - destruct (Hop OptionLogsToMetricInputs (λ v, ∃ l, v = AnyStrings l) v) as [l ->]; [option_known|done|].
      eexists. split; [reflexivity|]. intros x. by rewrite elem_of_sort_strings, elem_of_List, elem_of_NewString.
    - eexists. split; [reflexivity|]. done. }
  cbn [mbind outcome_bind].
  destruct (NewTlsEnabled_ok (T := Output) parse_url None ∅ op [] Hop eq_refl) as [found ->]. cbn [mbind outcome_bind].
  match goal with |- context [SetTLSProfile ?t op] => destruct (SetTLSProfile_returns t op Hop) as [tls ->] end.
  cbn [mbind outcome_bind]. eexists. split; [reflexivity|]. split; [done|]. intros x. cbn [sink_inputs pe_Inputs].
  rewrite elem_of_sort_strings, elem_of_app. intros [?|?]; [by left|right; auto].
Qed.

(** The sinks and transforms of all outputs. *)
Lemma conf_outputs_ok regexp_compiles secrets clfspec op config outputs op1 :
  config_ready regexp_compiles parse_url clfspec → op !! CLFSpec = Some (AnySpec clfspec) →
  collected clfspec op config outputs op1 →
  ∃ st, add_outputs parse_url secrets (c_Sinks config, c_Transforms config, op1) (sortAdapters outputs) = Ret st ∧
    outputs_inv clfspec (c_Sources config) op1 (reverse (sortAdapters outputs)) st ∧
    ∀ x, is_Some (c_Transforms config !! x) → is_Some (st.1.2 !! x).
Proof.
  intros [Hspec Hout Hnd Hap (Hn1 & Hn2 & Hn3)] Hop Hc.
  assert (∀ o, o ∈ sortAdapters outputs → o_Spec o ∈ spec_Outputs clfspec ∧ ∀ x, x ∈ o_InputIDs o → is_Some (c_Transforms config !! x)) as Ho.
  { intros o (k & Hk)%sortAdapters_elem. by destruct (co_outputs _ _ _ _ _ Hc k o Hk) as (? & _ & ?). }
  destruct (add_outputs_ok parse_url clfspec (c_Sources config) op1 (out_Name <$> spec_Outputs clfspec) secrets (sortAdapters outputs) []
    (c_Sinks config, c_Transforms config, op1)) as (st & E & Hst & Hmono).
  - split; [|done]. intros n (o & -> & Hin)%list_elem_of_fmap. by apply (or_name _ _ _ (Hout o Hin)).
  - intros o. rewrite app_nil_r. intros [Hin _]%Ho. by apply list_elem_of_fmap_2.
  - rewrite app_nil_r. apply (sortAdapters_NoDup (λ o, out_Name (o_Spec o))). intros k o Hk.
    by destruct (co_outputs _ _ _ _ _ Hc k o Hk) as (_ & ? & _).
  - intros o [Hin ?]%Ho. split; [by apply Hout|done].
  - split; [by rewrite (os_spec _ _ _ (co_step _ _ _ _ _ Hc))|]. split; [|done]. intros i Hi.
    by apply (sr_receiver _ (spr_inputs _ _ Hspec i Hi)).
  - rewrite (co_sinks _ _ _ _ _ Hc). split; cbn [fst snd]; [| |by intros ? ?%not_elem_of_nil|apply (co_step _ _ _ _ _ Hc)|done|by left].
    + intros k t Ht. split; [by apply (co_safe _ _ _ _ _ Hc k)|]. intros x Hx. left. by eapply (co_reads _ _ _ _ _ Hc).
    + by intros k s ?%lookup_empty_Some.
  - exists st. rewrite app_nil_r in Hst. done.
Qed.

(** No counters before, none after a step that adds none. *)
Lemma no_metrics op op' : op_step op op' ∅ → metric_inputs op = [] → metric_inputs op' = [].
Proof.
  intros Hstep Hnil. destruct (metric_inputs op') as [|y l] eqn:E; [done|]. exfalso.
  destruct (os_metrics _ _ _ Hstep y) as [Hy|[? ?%lookup_empty_Some]]; [rewrite E; by left| |done].
  rewrite Hnil in Hy. by apply not_elem_of_nil in Hy.
Qed.

(** The last sink does not replace one of an output. *)
Lemma outputs_kept clfspec sources op0 added (sinks : Sinks) tfs op s sinks' :
  outputs_inv clfspec sources op0 added (sinks, tfs, op) → sinks' ⊆ sinks → sinks' ⊆ <[PrometheusOutputSinkName := s]> sinks.
Proof.
  intros Hinv Hsub. etrans; [exact Hsub|]. apply insert_subseteq. apply eq_None_not_Some. intros [s' Hs'].
  destruct (oi_sinks _ _ _ _ _ Hinv _ _ Hs') as [(o & _ & Ho) _]. revert Ho. by apply not_an_output_id.
Qed.

Lemma NoDup_name (l : list OutputSpec) a b : NoDup (out_Name <$> l) → a ∈ l → b ∈ l → out_Name a = out_Name b → a = b.
Proof.
  intros Hnd [i Hi]%list_elem_of_lookup [j Hj]%list_elem_of_lookup E.
  assert (i = j) as ->; [|congruence]. apply (NoDup_lookup _ i j (out_Name a) Hnd); [by rewrite list_lookup_fmap, Hi|by rewrite list_lookup_fmap, Hj, E].
Qed.

(** Putting the configuration together goes through, for a spec that is ready. *)
Lemma Conf_returns regexp_compiles secrets clfspec namespace forwarderName op :
  config_ready regexp_compiles parse_url clfspec → op_ok op →
  ∃ c, Conf parse_url parse_other secrets clfspec namespace forwarderName op = Ret (inl c).
Proof.
  intros Hr Hop. unfold Conf. set (op1 := <[OptionForwarderName := AnyString forwarderName]> (<[CLFSpec := AnySpec clfspec]> op)).
  assert (op_ok op1) as Hop1 by (do 2 (apply op_ok_insert; [|option_type]); done).
  destruct (Conf_collect_closed parse_url parse_other regexp_compiles secrets clfspec namespace forwarderName op (cfr_spec _ _ _ Hr) Hop1)
    as (config & outputs & op' & -> & Hc). fold op1 in Hc. cbn [mbind outcome_bind].
  destruct (conf_outputs_ok regexp_compiles secrets clfspec op1 config outputs op' Hr) as ([[sinks tfs] op2] & -> & Hinv & _).
  { unfold op1. rewrite lookup_insert_ne by done. apply lookup_insert_eq. }
  { done. }
  destruct (PrometheusOutput_returns [AddNodenameToMetricTransformName] op2 (oi_ok _ _ _ _ _ Hinv)) as (s & E & _).
  cbn [mbind outcome_bind fst snd]. rewrite E. by eexists.
Qed.

(** C6. The configuration is closed.  For a spec whose inputs, filters, pipelines and
    outputs are ready, with output names none of which starts with another and a dash,
    [Conf] returns a configuration.  Every transform and every sink reads components that
    are there: a source, a transform, or an output of a route.  No program can end the
    literal it is written in.  Each output has the sinks of its type, a LokiStack one for
    each tenant of its inputs, and the exporter of metrics is there.  Of the options it is
    only asked that they have the types their readers expect. *)
Theorem Conf_closed regexp_compiles secrets clfspec namespace forwarderName op :
  config_ready regexp_compiles parse_url clfspec → op_ok op → op !! OptionLogsToMetricInputs = None →
  ∃ config op', Conf parse_url parse_other secrets clfspec namespace forwarderName op = Ret (inl (config, op')) ∧
    (∀ id t x, c_Transforms config !! id = Some t → x ∈ inputs_of t → readable config x) ∧
    (∀ id s x, c_Sinks config !! id = Some s → x ∈ sink_inputs s → readable config x) ∧
    (∀ id t, c_Transforms config !! id = Some t → ¬ closes (transform_value t)) ∧
    (∀ o, o ∈ spec_Outputs clfspec → ∃ sinks, sinks ⊆ c_Sinks config ∧ output_sinks clfspec o sinks) ∧
    ∃ s, c_Sinks config !! PrometheusOutputSinkName = Some s ∧ SinkType s = "prometheus_exporter".
Proof.
  intros Hr Hop Hnone. unfold Conf. set (op1 := <[OptionForwarderName := AnyString forwarderName]> (<[CLFSpec := AnySpec clfspec]> op)).
  assert (op_ok op1) as Hop1 by (do 2 (apply op_ok_insert; [|option_type]); done).
  assert (metric_inputs op1 = []) as Hnil by (unfold metric_inputs, op1; do 2 (rewrite lookup_insert_ne; [|done]); by rewrite Hnone).
  destruct (Conf_collect_closed parse_url parse_other regexp_compiles secrets clfspec namespace forwarderName op (cfr_spec _ _ _ Hr) Hop1)
    as (config & outputs & op' & -> & Hc). fold op1 in Hc. cbn [mbind outcome_bind].
  destruct (conf_outputs_ok regexp_compiles secrets clfspec op1 config outputs op' Hr) as ([[sinks tfs] op2] & -> & Hinv & _).
  { unfold op1. rewrite lookup_insert_ne by done. apply lookup_insert_eq. }
  { done. }
  pose proof (λ s k, outputs_kept _ _ _ _ _ _ _ s k Hinv) as Hkept.
  destruct Hinv as [Ht Hs Ho Hok _ Hm]. cbn [mbind outcome_bind fst snd] in *.
  destruct (PrometheusOutput_returns [AddNodenameToMetricTransformName] op2 Hok) as (s & -> & Hty & Hread). cbn [mbind outcome_bind].
  eexists _, op2. split; [reflexivity|].
  lazymatch goal with |- context [c_Transforms ?c] => set (final := c) end.
  assert (∀ x, reach (c_Sources config) ((λ o, out_Name (o_Spec o)) <$> reverse (sortAdapters outputs)) tfs x → readable final x) as Hx.
  { intros x Hx. eapply (reach_readable final); [|exact Hx|done].
    intros k Hk. apply (not_an_output_id k AddNodenameToMetricTransformName); [done|by right]. }
  unfold final in *; clear final; cbn [c_Sources c_Transforms c_Sinks] in *. split_and!.
  - intros id t x [[_ <-]|[_ Hk]]%lookup_insert_Some Hin; [|apply Hx; by eapply Ht].
    apply remap_reads, list_elem_of_singleton in Hin as ->. left. apply (co_metrics _ _ _ _ _ Hc).
  - intros id s' x [[_ <-]|[_ Hk]]%lookup_insert_Some Hin; [|apply Hx; by eapply (Hs id s')].
    apply Hread in Hin as [->%list_elem_of_singleton|Hin]; [right; left; cbn [c_Transforms]; by rewrite lookup_insert_eq|].
    apply Hm in Hin as [Hin|Hin]; [|apply Hx; by left; right].
    rewrite (no_metrics _ _ (co_step _ _ _ _ _ Hc) Hnil) in Hin. by apply not_elem_of_nil in Hin.
  - intros id t [[_ <-]|[_ Hk]]%lookup_insert_Some; [|by eapply Ht]. apply remap_of_safe. contained_const.
  - intros o Hin. destruct (co_dom _ _ _ _ _ Hc o Hin) as [a Ha]. destruct (co_outputs _ _ _ _ _ Hc _ a Ha) as (Hsp & Hn & _).
    destruct (Ho a) as (sinks' & Hsub & Hout); [apply elem_of_reverse, sortAdapters_elem; by eexists|].
    exists sinks'. split; [by apply Hkept|]. by rewrite <-(NoDup_name _ _ _ (cfr_names _ _ _ Hr) Hsp Hin Hn).
  - exists s. split; [apply lookup_insert_eq|done].
Qed.
End closed.

(** What the API and the validation do not see of the outputs of a forwarder. *)
Record outputs_unseen `{RangeOrder} (parse_url : string → option URL) (clfspec : ClusterLogForwarderSpec) : Prop := {
  ou_kafka : ∀ o k, o ∈ spec_Outputs clfspec → out_Kafka o = Some k → kafka_Topic k = "" →
    ∃ u, parse_url (kafka_URL k) = Some u ∧ contained (url_Path u);
  ou_syslog : ∀ o s, o ∈ spec_Outputs clfspec → out_Syslog o = Some s →
    is_Some (parse_url (syslog_URL s)) ∧ String.length (syslog_PayloadKey s) ≠ 1%nat;
  ou_lokistack : ∀ o ls, o ∈ spec_Outputs clfspec → out_LokiStack o = Some ls →
    is_Some (lstack_Authentication ls) ∧ (otel ls = true → infra_covered (InputSpecsTo clfspec o));
  ou_apart : ∀ a b, a ∈ out_Name <$> spec_Outputs clfspec → b ∈ out_Name <$> spec_Outputs clfspec → ¬ extends a b;
}.

(** What is accepted is ready, but for that. *)
Lemma forwarder_ok_config `{RangeOrder} getsa review regexp_compiles parse_url json context :
  let spec := ValidateCommon.ctx_Spec context in
  Validate.forwarder_ok getsa review regexp_compiles parse_url json context → clf_admitted spec →
  (∀ i r, i ∈ spec_Inputs spec → in_Receiver i = Some r → recv_Type r ∈ ReceiverTypes) →
  (∀ i, i ∈ spec_Inputs spec → returns (MaxRecordsPerSecond i)) →
  (∀ o, o ∈ spec_Outputs spec → string_forallb name_byte (out_Name o) = true) →
  (0 < length (spec_Inputs spec))%nat ∧ (0 < length (spec_Pipelines spec))%nat ∧ (0 < length (spec_Outputs spec))%nat →
  outputs_unseen parse_url spec → config_ready regexp_compiles parse_url spec.
Proof.
  intros spec Hok Hadm Hrecv Hlim Hnames Hfilled [Hk Hs Hl Hap]. split; [by eapply forwarder_ok_ready| |apply Hadm|done..].
  intros o Ho. split; [|by apply Hnames| |intros k; by apply Hk|intros s; by apply Hs|intros ls; by apply Hl].
  - by apply (proj1 (Forall_forall _ _) (ca_outputs _ Hadm)).
  - intros fv Hfv. apply toml_safe_contained. by apply (ook_templates _ _ _ _ (Validate.fok_outputs _ _ _ _ _ _ Hok o Ho)).
Qed.
