(* ===== verification/ConfigExamples.v ===== *)
(** * Configurations of small forwarders

    The theorems about configurations applied to forwarders with a LokiStack output, and
    what the conditions on names and inputs are for: without them outputs replace one
    another, read the sources of another, or stop the operator. *)

From S2P Require Import Prelude GoStrings GoTime ApiCommon ApiInputs ApiFilters ApiOutputs ApiForwarder.
From S2P Require Import Regex Sets ObsResources ObsInputs ObsForwarder ValidateFilters ValidateOutputs AwsAuth Toml Transforms VrlText.
From S2P Require Import VectorHelpers FilterVRL Viaq Adapters Tls Sources SourcesSpec SinkTypes OutputCommon OtlpOutput OutputFactory.
From S2P Require Import OutputTexts OutputsSpec LokiStackSpec LokiStackOtel Conf Config ConfigSpec.

#[local] Existing Instance canonical_order.
#[local] Existing Instances example_openshift example_host.

#[local] Existing Instance example_floats.

Definition a_stack : LokiStack := {|
  lstack_Authentication := Some {| lsa_Token := None |}; lstack_Target := {| lst_Namespace := "logging"; lst_Name := "stack" |};
  lstack_Tuning := None; lstack_LabelKeys := None; lstack_DataModel := LokiStackDataModelOpenTelemetry |}.

Definition an_output (name : string) (ty : OutputType) : OutputSpec := {|
  out_Name := name; out_Type := ty; out_TLS := None; out_Limit := None;
  out_AzureLogsIngestion := None; out_AzureMonitor := None; out_Cloudwatch := None;
  out_Elasticsearch := None; out_GoogleCloudLogging := None;
  out_HTTP := if ty == OutputTypeHTTP then Some {|
    http_URLSpec := {| url_URL := "https://logs.example" |}; http_Authentication := None; http_Tuning := None;
    http_Headers := ∅; http_Timeout := 0; http_Method := "POST"; http_ProxyURL := ""; http_Format := HTTPFormatJSON |} else None;
  out_Kafka := None; out_Loki := None;
  out_LokiStack := if ty == OutputTypeLokiStack then Some a_stack else None;
  out_S3 := None; out_Splunk := None; out_Syslog := None;
  out_OTLP := if ty == OutputTypeOTLP then Some {|
    otlp_URL := "https://otlp.example"; otlp_Authentication := None; otlp_Tuning := None |} else None |}.

Definition an_input (ty : InputType) : InputSpec := {|
  in_Name := ty; in_Type := ty; in_Application := None; in_Infrastructure := None; in_Audit := None; in_Receiver := None |}.

(** A pipeline for each output: its inputs and its name and type. *)
Definition a_forwarder (routes : list (list InputType * (string * OutputType))) : ClusterLogForwarderSpec := {|
  spec_ManagementState := ManagementStateManaged; spec_Collector := None;
  spec_Inputs := an_input <$> [InputTypeApplication; InputTypeAudit; InputTypeInfrastructure];
  spec_Outputs := (λ r, an_output r.2.1 r.2.2) <$> routes;
  spec_Filters := [];
  spec_Pipelines := (λ r, {| pipe_Name := "to-" +:+ r.2.1; pipe_InputRefs := r.1; pipe_OutputRefs := [r.2.1]; pipe_FilterRefs := [] |}) <$> routes;
  spec_ServiceAccount := {| sa_Name := "sa" |} |}.

Definition configure (spec : ClusterLogForwarderSpec) : outcome ((Config * Options) + string) :=
  Conf (λ _, None) (λ _, None) ∅ spec "ns" "clf" ∅.

(** The identifiers of the sinks and of the transforms of a configuration. *)
Definition sink_ids (r : outcome ((Config * Options) + string)) : list (string * string) :=
  match r with Ret (inl (c, _)) => (λ kv, (kv.1, SinkType kv.2)) <$> map_to_list (c_Sinks c) | _ => [] end.
Definition transform_ids (r : outcome ((Config * Options) + string)) : list string :=
  match r with Ret (inl (c, _)) => sort_strings (map_to_list (c_Transforms c)).*1 | _ => [] end.

(** ** They are ready *)

Definition route_ok (r : list InputType * (string * OutputType)) : Prop :=
  string_forallb name_byte r.2.1 = true ∧ r.2.2 ∈ [OutputTypeHTTP; OutputTypeLokiStack; OutputTypeOTLP].

Section ready.
Context (routes : list (list InputType * (string * OutputType))).
Context (Hr : ∀ r, r ∈ routes → route_ok r) (Hnd : NoDup ((λ r, r.2.1) <$> routes)).

Lemma an_input_elem i : i ∈ spec_Inputs (a_forwarder routes) → ∃ ty, ty ∈ [InputTypeApplication; InputTypeAudit; InputTypeInfrastructure] ∧ i = an_input ty.
Proof. intros (ty & -> & Hty)%list_elem_of_fmap_1. by exists ty. Qed.

Lemma a_forwarder_covered o : infra_covered (InputSpecsTo (a_forwarder routes) o).
Proof.
  intros i Hi _ Hn. apply InputSpecsTo_elem in Hi as [(ty & _ & ->)%an_input_elem| ->]; discriminate.
Qed.

Lemma an_output_ready r : r ∈ routes → output_ready (λ _, None) (a_forwarder routes) (an_output r.2.1 r.2.2).
Proof using Hr.
  clear Hnd. intros [Hn Hty]%Hr. clear Hr. destruct r as [ins [name ty]]. cbn [fst snd] in *. rewrite !elem_of_cons, elem_of_nil in Hty.
  split.
  - destruct Hty as [->|[->|[->|[]]]]; (split; cbn; try done; try (by eexists); unfold OutputTypes; set_solver).
  - done.
  - destruct Hty as [->|[->|[->|[]]]]; cbn; by intros fv ?%not_elem_of_nil.
  - by destruct Hty as [->|[->|[->|[]]]].
  - by destruct Hty as [->|[->|[->|[]]]].
  - intros ls Hls. split; [|intros _; apply a_forwarder_covered].
    destruct Hty as [->|[->|[->|[]]]]; cbn in Hls; try discriminate. injection Hls as <-. by eexists.
Qed.

Lemma a_forwarder_spec : spec_ready (λ _, true) (a_forwarder routes).
Proof using Hnd.
  clear Hr. split; [split|].
  - by intros f ?%not_elem_of_nil.
  - intros p ref (r & -> & _)%list_elem_of_fmap_1 Href. by apply not_elem_of_nil in Href.
  - cbn [a_forwarder spec_Pipelines]. rewrite <-list_fmap_compose. cbn.
    assert ((λ r : list InputType * (string * OutputType), "to-" +:+ r.2.1) <$> routes = (λ n, "to-" +:+ n) <$> ((λ r, r.2.1) <$> routes)) as Eq
      by by rewrite <-list_fmap_compose.
    change (NoDup ((λ r : list InputType * (string * OutputType), "to-" +:+ r.2.1) <$> routes)). rewrite Eq.
    apply NoDup_fmap_2; [|done]. intros a b E. by apply string_app_inj_l in E.
  - intros i (ty & Hty & ->)%an_input_elem. rewrite !elem_of_cons, elem_of_nil in Hty.
    split; [|by destruct Hty as [->|[->|[->|[]]]]|by eexists]. unfold InputTypes. cbn. set_solver.
Qed.

Lemma a_forwarder_names : out_Name <$> spec_Outputs (a_forwarder routes) = (λ r, r.2.1) <$> routes.
Proof. cbn [a_forwarder spec_Outputs]. by rewrite <-list_fmap_compose. Qed.

(** But for the names that could be the start of one another. *)
Lemma a_forwarder_ready :
  routes ≠ [] → (∀ a b, a ∈ (λ r, r.2.1) <$> routes → b ∈ (λ r, r.2.1) <$> routes → ¬ extends a b) →
  config_ready (λ _, true) (λ _, None) (a_forwarder routes).
Proof using Hr Hnd.
  intros Hne Hap. split.
  - apply a_forwarder_spec.
  - intros o (r & -> & Hin)%list_elem_of_fmap_1. by apply an_output_ready.
  - by rewrite a_forwarder_names.
  - by rewrite a_forwarder_names.
  - cbn. rewrite !length_fmap. destruct routes; [done|cbn; lia].
Qed.
End ready.

(** The start of a name, by computation. *)
Lemma extends_spec a b : extends a b ↔ String.prefix (a +:+ "-") b = true.
Proof. rewrite prefix_spec. unfold extends. by setoid_rewrite string_app_assoc. Qed.

Lemma all_apart (names : list string) :
  forallb (λ a, forallb (λ b, negb (String.prefix (a +:+ "-") b)) names) names = true →
  ∀ a b, a ∈ names → b ∈ names → ¬ extends a b.
Proof.
  intros Hall a b Ha%list_elem_of_In Hb%list_elem_of_In. rewrite extends_spec.
  pose proof (proj1 (forallb_forall _ _) Hall a Ha) as Hrow. pose proof (proj1 (forallb_forall _ _) Hrow b Hb) as Hab.
  apply negb_true_iff in Hab as ->. done.
Qed.

(** ** What they show *)

(** A LokiStack output and one that reads the same logs. *)
Definition stack_and_otlp : ClusterLogForwarderSpec := a_forwarder
  [([InputTypeApplication; InputTypeAudit], ("ls", OutputTypeLokiStack)); ([InputTypeApplication], ("otlp", OutputTypeOTLP))].

Lemma stack_and_otlp_ready : config_ready (λ _, true) (λ _, None) stack_and_otlp.
Proof.
  apply a_forwarder_ready; [| |done|by apply all_apart].
  - intros r. rewrite !elem_of_cons, elem_of_nil. intros [->|[->|[]]]; (split; [done|set_solver]).
  - apply (bool_decide_unpack _). vm_compute. exact I.
Qed.

Lemma ready_stored spec : config_ready (λ _, true) (λ _, None) spec → spec_stored spec {[CLFSpec := AnySpec spec]}.
Proof.
  intros Hr. split; [apply lookup_singleton_eq|]. split; [|apply (cfr_filled _ _ _ Hr)]. intros i Hi.
  by apply (sr_receiver _ (spr_inputs _ _ (cfr_spec _ _ _ Hr) i Hi)).
Qed.

Lemma no_options : op_ok ∅.
Proof. by intros k P v _ ?%lookup_empty_Some. Qed.

Lemma Conf_closed_witness :
  config_ready (λ _, true) (λ _, None) stack_and_otlp ∧ op_ok ∅ ∧
  ∃ config op', configure stack_and_otlp = Ret (inl (config, op')) ∧
    (∀ id s x, c_Sinks config !! id = Some s → x ∈ sink_inputs s → readable config x) ∧
    is_Some (c_Sinks config !! "prometheus_output").
Proof.
  split; [exact stack_and_otlp_ready|]. split; [exact no_options|].
  destruct (Conf_closed (λ _, None) (λ _, None) (λ _, true) ∅ stack_and_otlp "ns" "clf" ∅ stack_and_otlp_ready no_options eq_refl)
    as (config & op' & E & _ & Hs & _ & _ & (s & Hp & _)).
  exists config, op'. split; [exact E|]. split; [exact Hs|]. exists s. exact Hp.
Defined.

(** The OTLP output alone reads the logs of containers. *)
Lemma lokistack_options_stay_witness :
  (∃ sinks tfs op' m op2,
    lokistack_New (λ _, None) "output_ls" (NewOutput (an_output "ls" OutputTypeLokiStack)) [] ∅ {[CLFSpec := AnySpec stack_and_otlp]}
      = Ret (sinks, tfs, op') ∧
    otlp_New (λ _, None) "output_otlp" (NewOutput (an_output "otlp" OutputTypeOTLP)) [] ∅ op' = Ret (m, op2) ∧
    m.2 !! "output_otlp_container" = None ∧ is_Some (m.2 !! "output_otlp_auditd")) ∧
  in_Name <$> InputSpecsTo stack_and_otlp (an_output "otlp" OutputTypeOTLP) = ["application"] ∧
  bool_decide ("output_otlp_container" ∈ transform_ids (configure stack_and_otlp)) = false ∧
  bool_decide ("output_otlp_container" ∈ transform_ids (configure
    (a_forwarder [([InputTypeApplication], ("otlp", OutputTypeOTLP))]))) = true.
Proof.
  split; [|split_and!; by vm_compute].
  assert (returnsb (r ← lokistack_New (λ _, None) "output_ls" (NewOutput (an_output "ls" OutputTypeLokiStack)) [] ∅
      {[CLFSpec := AnySpec stack_and_otlp]};
    otlp_New (λ _, None) "output_otlp" (NewOutput (an_output "otlp" OutputTypeOTLP)) [] ∅ r.2) = true) as Hr by by vm_compute.
  apply returnsb_true in Hr as [[m op2] ([[sinks tfs] op'] & E & E2)%bind_ret_inv]. cbn [snd] in E2.
  exists sinks, tfs, op', m, op2. split; [exact E|]. split; [exact E2|].
  destruct (lokistack_options_stay (λ _, None) ∅ "output_ls" (NewOutput (an_output "ls" OutputTypeLokiStack)) _ stack_and_otlp []
    {[CLFSpec := AnySpec stack_and_otlp]} eq_refl (ready_stored _ stack_and_otlp_ready)
    sinks tfs op' "audit" "output_otlp" (NewOutput (an_output "otlp" OutputTypeOTLP)) [] m op2 eq_refl E) as (l & El & _ & Hs & Ht);
    [eexists; split; [reflexivity|by vm_compute]|by split|exact E2|].
  assert (getInputSources (InputSpecsTo stack_and_otlp (an_output "ls" OutputTypeLokiStack)) "audit" =
    Ret ["auditd"; "kubeAPI"; "openshiftAPI"; "ovn"]) as El' by by vm_compute.
  assert (l = ["auditd"; "kubeAPI"; "openshiftAPI"; "ovn"]) as -> by (apply Ret_inj; by rewrite <-El, <-El').
  split.
  - assert (MakeID ["output_otlp"; "container"] = "output_otlp_container") as <- by by vm_compute.
    apply eq_None_not_Some. intros Hc%Hs; [|apply log_sources_elem; by left]. clear -Hc. set_solver.
  - assert (MakeID ["output_otlp"; "auditd"] = "output_otlp_auditd") as <- by by vm_compute.
    apply Hs; [apply log_sources_elem; by right; right; left|by left].
Defined.

(** An input of applications that includes namespaces of the infrastructure. *)
Definition infra_app : InputSpec := {|
  in_Name := "apps"; in_Type := InputTypeApplication;
  in_Application := Some {| app_Selector := None; app_Tuning := None;
    app_Includes := [{| nc_Namespace := "openshift-*"; nc_Container := "" |}]; app_Excludes := [] |};
  in_Infrastructure := None; in_Audit := None; in_Receiver := None |}.

Definition stack_of_apps : ClusterLogForwarderSpec := {|
  spec_ManagementState := ManagementStateManaged; spec_Collector := None; spec_Inputs := [infra_app];
  spec_Outputs := [an_output "ls" OutputTypeLokiStack]; spec_Filters := [];
  spec_Pipelines := [{| pipe_Name := "p"; pipe_InputRefs := ["apps"]; pipe_OutputRefs := ["ls"]; pipe_FilterRefs := [] |}];
  spec_ServiceAccount := {| sa_Name := "sa" |} |}.

Lemma lokistack_otel_returns_witness :
  infra_uncovered (InputSpecsTo stack_of_apps (an_output "ls" OutputTypeLokiStack)) ∧
  returnsb (lokistack_New (λ _, None) "output_ls" (NewOutput (an_output "ls" OutputTypeLokiStack)) [] ∅
    {[CLFSpec := AnySpec stack_of_apps]}) = false.
Proof.
  assert (infra_uncovered (InputSpecsTo stack_of_apps (an_output "ls" OutputTypeLokiStack))) as Hn.
  { assert (InputSpecsTo stack_of_apps (an_output "ls" OutputTypeLokiStack) = [infra_app]) as -> by by vm_compute.
    split; [exists infra_app; split; [by left|by split; vm_compute]|].
    intros (i & ->%list_elem_of_singleton & [[=]|[[=] _]]). }
  split; [exact Hn|]. apply not_true_is_false. rewrite returnsb_true.
  rewrite (lokistack_otel_returns (λ _, None) ∅ "output_ls" (NewOutput (an_output "ls" OutputTypeLokiStack)) a_stack stack_of_apps []
    {[CLFSpec := AnySpec stack_of_apps]}); [by intros Hu; apply Hu|by split|done|by eexists| | |done].
  - apply op_ok_insert; [exact no_options|]. option_type.
  - split; [done|]. split; [|cbn; lia]. intros i ->%list_elem_of_singleton [=].
Defined.

Lemma stack_inputs :
  InputSpecsTo stack_and_otlp (an_output "ls" OutputTypeLokiStack) = an_input <$> ["audit"; "application"].
Proof. vm_compute. reflexivity. Qed.

Lemma output_New_correct_witness :
  op_ok {[CLFSpec := AnySpec stack_and_otlp]} ∧
  ∃ sinks tfs op', output_New (λ _, None) (NewOutput (an_output "ls" OutputTypeLokiStack)) ["x"] ∅ {[CLFSpec := AnySpec stack_and_otlp]}
      = Ret (sinks, tfs, op') ∧ is_Some (sinks !! "output_ls_audit") ∧ sinks !! "output_ls_infrastructure" = None.
Proof.
  assert (op_ok {[CLFSpec := AnySpec stack_and_otlp]}) as Hop by (apply op_ok_insert; [exact no_options|option_type]).
  split; [exact Hop|].
  destruct (output_New_correct (λ _, None) stack_and_otlp (NewOutput (an_output "ls" OutputTypeLokiStack)) ["x"] ∅ _ Hop
    (ready_stored _ stack_and_otlp_ready)) as (sinks & tfs & op' & E & _ & _ & (ls & _ & Hk & _) & _).
  { apply (cfr_outputs _ _ _ stack_and_otlp_ready). by left. }
  exists sinks, tfs, op'. split; [exact E|].
  cbn [NewOutput o_Spec] in Hk. rewrite stack_inputs in Hk. clear -Hk. split.
  - apply Hk. exists "audit", (an_input "audit"). split; [left|]. split; [right; left; done|vm_compute; reflexivity].
  - apply eq_None_not_Some. rewrite Hk. intros (t & i & Hi & Ht & Et). cbn in Hi. rewrite !elem_of_cons, elem_of_nil in Hi.
    unfold tenant_of in Ht. destruct Hi as [->|[->|[]]]; cbn in Ht.
    + destruct Ht as [[[=] _]|[[_ ->]|[[[=] _]|([=] & _)]]]. vm_compute in Et. discriminate.
    + destruct Ht as [[_ [->|[_ [=]]]]|[[[=] _]|[[[=] _]|([=] & _)]]]. vm_compute in Et. discriminate.
Defined.

(** A LokiStack output and one whose name starts with its name. *)
Definition stack_and_tenant : ClusterLogForwarderSpec := a_forwarder
  [([InputTypeApplication; InputTypeAudit], ("ls", OutputTypeLokiStack)); ([InputTypeInfrastructure], ("ls-application", OutputTypeHTTP))].

(** What reads a component. *)
Definition readers (r : outcome ((Config * Options) + string)) (x : string) : list string :=
  match r with
  | Ret (inl (c, _)) =>
      (map_to_list (filter (λ kv, x ∈ inputs_of kv.2) (c_Transforms c))).*1
      ++ (map_to_list (filter (λ kv, x ∈ sink_inputs kv.2) (c_Sinks c))).*1
  | _ => []
  end.

(** Outputs that replace one another.  A LokiStack output [ls] and an HTTP output
    [ls-application], each ready: the sink of the HTTP output has the identifier of the
    application tenant and replaces it, and nothing reads the logs that were prepared for
    the tenant.  The validation accepts such names, and the other conditions of
    [ConfigSpec.Conf_closed] hold. *)
Theorem outputs_collide :
  spec_ready (λ _, true) stack_and_tenant ∧ NoDup (out_Name <$> spec_Outputs stack_and_tenant) ∧
  (∀ o, o ∈ spec_Outputs stack_and_tenant → output_ready (λ _, None) stack_and_tenant o) ∧
  sink_ids (configure stack_and_tenant) =
    [("output_ls_audit", "opentelemetry"); ("output_ls_application", "http"); ("prometheus_output", "prometheus_exporter")] ∧
  "output_ls_application_resource_logs" ∈ transform_ids (configure stack_and_tenant) ∧
  readers (configure stack_and_tenant) "output_ls_application_resource_logs" = [].
Proof.
  split; [|split; [|split]].
  - apply a_forwarder_spec. apply (bool_decide_unpack _). vm_compute. exact I.
  - apply (bool_decide_unpack _). vm_compute. exact I.
  - intros o (r & -> & Hin)%list_elem_of_fmap_1. apply an_output_ready; [|done].
    clear. intros r. rewrite !elem_of_cons, elem_of_nil. intros [->|[->|[]]]; (split; [done|set_solver]).
  - split; [vm_compute; reflexivity|]. split; [apply (bool_decide_unpack _); vm_compute; exact I|vm_compute; reflexivity].
Qed.
