(* ===== verification/InputServices.v ===== *)
(** * Services of the collector ([internal/network/service.go], [internal/collector/input_service.go])

    The services of one namespace are a map by name.  Requests to the API server may
    fail: which do is a parameter, as is the order in which the server lists objects.  The
    same loops over the objects of the cluster, request by request, are in
    [CollectorObjects]; that they do this to the services of the namespace is
    [CollectorProgress.input_services_refine]. *)

From S2P Require Import Prelude GoStrings ApiCommon ApiInputs ApiForwarder Sets Network Reconcile.

(** ** Services *)

Record OwnerReference := {
  own_APIVersion : string; own_Kind : string; own_Name : string; own_UID : string;
}.

#[export] Instance OwnerReference_eq_dec : EqDecision OwnerReference.
Proof. solve_decision. Defined.

Definition OwnerReference_zero : OwnerReference := {|
  own_APIVersion := ""; own_Kind := ""; own_Name := ""; own_UID := "" |}.

Record ServicePort := {
  sp_Name : string; sp_Port : Z; sp_TargetPort : IntOrString; sp_Protocol : string;
}.

Record Service := {
  svc_Name : string;
  svc_Labels : gmap string string;
  svc_Annotations : gmap string string;
  svc_Selector : gmap string string;
  svc_Ports : list ServicePort;
  svc_Owners : list OwnerReference;
}.

Definition ServiceTypeMetrics : string := "metrics".
Definition ServiceTypeInput : string := "input".
Definition AnnotationServingCertSecretName : string := "service.beta.openshift.io/serving-cert-secret-name".

Definition withServiceTypeLabel (serviceType : string) : visitor :=
  λ labels, AddLabels labels {[LabelLoggingServiceType := serviceType]}.

(** [factory.NewService]. *)
Definition NewService (serviceName selectorComponent instanceName : string) (servicePorts : list ServicePort)
    (visitors : list visitor) : Service :=
  let labels := foldl (λ labels visit, visit labels) ∅ visitors in
  {| svc_Name := serviceName; svc_Labels := labels; svc_Annotations := ∅;
     svc_Selector := Selectors instanceName selectorComponent (default "" (labels !! LabelK8sName));
     svc_Ports := servicePorts; svc_Owners := [] |}.

Definition AddOwnerRef (owners : list OwnerReference) (ownerRef : OwnerReference) : list OwnerReference :=
  if bool_decide (OwnerReference_zero ≠ ownerRef) then owners ++ [ownerRef] else owners.

Definition HasSameOwner (curr desired : list OwnerReference) : bool := bool_decide (curr = desired).

(** ** The API server *)

Notation services := (gmap string Service).

Section services.
Context `{RangeOrder}.
Context (list_fails : string → option string) (delete_fails update_fails : string → option string).

(** [service.List]: the services with a label of that value. *)
Definition List (store : services) (key value : string) : list Service + string :=
  match list_fails value with
  | Some err => inr err
  | None => inl (filter (λ s, svc_Labels s !! key = Some value) (range store).*2)
  end.

Definition Delete (store : services) (name : string) : services * option string :=
  match delete_fails name with
  | Some err => (store, Some err)
  | None => (delete name store, None)
  end.

(** [reconcile.Service]: a service that exists keeps its annotations. *)
Definition reconcile_Service (store : services) (desired : Service) : services * option string :=
  match update_fails (svc_Name desired) with
  | Some err => (store, Some err)
  | None =>
      let annotations := match store !! svc_Name desired with
                         | Some current => svc_Annotations current
                         | None => svc_Annotations desired
                         end in
      (<[svc_Name desired := {| svc_Name := svc_Name desired; svc_Labels := svc_Labels desired;
         svc_Annotations := annotations; svc_Selector := svc_Selector desired;
         svc_Ports := svc_Ports desired; svc_Owners := svc_Owners desired |}]> store, None)
  end.

(** ** What the operator asks for *)

Definition metrics_service (name instanceName component portName certSecretName : string) (portNum : Z)
    (owner : OwnerReference) (visitors : visitor) : Service :=
  let s := NewService name component instanceName
    [{| sp_Name := portName; sp_Port := portNum; sp_TargetPort := FromString portName; sp_Protocol := "" |}]
    [withServiceTypeLabel ServiceTypeMetrics; visitors] in
  {| svc_Name := svc_Name s; svc_Labels := svc_Labels s;
     svc_Annotations := {[AnnotationServingCertSecretName := certSecretName]};
     svc_Selector := svc_Selector s; svc_Ports := svc_Ports s; svc_Owners := AddOwnerRef (svc_Owners s) owner |}.

Definition ReconcileService (store : services) (name instanceName component portName certSecretName : string)
    (portNum : Z) (owner : OwnerReference) (visitors : visitor) : services * option string :=
  reconcile_Service store (metrics_service name instanceName component portName certSecretName portNum owner visitors).

Definition input_service (name instance certSecretName : string) (port targetPort : Z) (receiverType : string)
    (owner : OwnerReference) (visitors : visitor) : Service :=
  let s := NewService name CollectorName instance
    [{| sp_Name := ""; sp_Port := port; sp_TargetPort := FromInt targetPort; sp_Protocol := ProtocolTCP |}]
    [withServiceTypeLabel ServiceTypeInput; visitors] in
  let labels := <[LabelLoggingInputServiceType := receiverType]> (svc_Labels s) in
  {| svc_Name := svc_Name s; svc_Labels := labels;
     svc_Annotations := {[AnnotationServingCertSecretName := certSecretName]};
     svc_Selector := Selectors instance CollectorName (default "" (labels !! LabelK8sName));
     svc_Ports := svc_Ports s; svc_Owners := AddOwnerRef (svc_Owners s) owner |}.

Definition ReconcileInputService (store : services) (name instance certSecretName : string) (port targetPort : Z)
    (receiverType : string) (owner : OwnerReference) (visitors : visitor) : services * option string :=
  reconcile_Service store (input_service name instance certSecretName port targetPort receiverType owner visitors).

(** ** Receivers *)

Section forwarder.
Context (resourceNames : ForwarderResourceNames) (inputs : list InputSpec) (owner : OwnerReference).

(** The names of the receivers of one type: the section is read without a test. *)
Definition receiver_names (receiverType : string) : outcome (gset string) :=
  foldM (λ names input,
    if in_Type input == InputTypeReceiver then
      r ← deref (in_Receiver input);
      Ret (if recv_Type r == receiverType then Insert names [GenerateInputServiceName resourceNames (in_Name input)]
           else names)
    else Ret names) ∅ inputs.

(** The loop over the listed services. *)
Fixpoint remove_orphans (names : gset string) (store : services) (items : list Service) : services * option string :=
  match items with
  | [] => (store, None)
  | item :: items =>
      if HasSameOwner (svc_Owners item) [owner] && negb (Has names (svc_Name item)) then
        match Delete store (svc_Name item) with
        | (store, Some err) => (store, Some err)
        | (store, None) => remove_orphans names store items
        end
      else remove_orphans names store items
  end.

Definition remove_of_type (store : services) (receiverType : string) : outcome (services * option string) :=
  match List store LabelLoggingInputServiceType receiverType with
  | inr err => Ret (store, Some err)
  | inl items => names ← receiver_names receiverType; Ret (remove_orphans names store items)
  end.

(** A loop that ends at the first error. *)
Definition RemoveOrphanedInputServices (store : services) : outcome (services * option string) :=
  foldM (λ st receiverType,
    match st with
    | (store, Some err) => Ret (store, Some err)
    | (store, None) => remove_of_type store receiverType
    end) (store, None) ReceiverTypes.

Definition reconcile_input (visitors : visitor) (st : services * option string) (input : InputSpec) :
    services * option string :=
  match st with
  | (store, Some err) => (store, Some err)
  | (store, None) =>
      match in_Receiver input with
      | None => (store, None)
      | Some r =>
          let serviceName := GenerateInputServiceName resourceNames (in_Name input) in
          ReconcileInputService store serviceName (CommonName resourceNames) serviceName
            (recv_Port r) (recv_Port r) (recv_Type r) owner visitors
      end
  end.

Definition ReconcileInputServices (store : services) (visitors : visitor) : outcome (services * option string) :=
  st ← RemoveOrphanedInputServices store;
  Ret (foldl (reconcile_input visitors) st inputs).
End forwarder.
End services.

(** ** What the services of the receivers are *)

Section correct.
Context `{RangeOrder}.
Context (list_fails delete_fails update_fails : string → option string).
Context (resourceNames : ForwarderResourceNames) (inputs : list InputSpec) (owner : OwnerReference).

Notation service_of i := (GenerateInputServiceName resourceNames (in_Name i)).

Definition store_wf (store : services) : Prop := ∀ k s, store !! k = Some s → svc_Name s = k.

(** The services of receivers that the forwarder owns. *)
Definition owned (t : string) (s : Service) : Prop :=
  svc_Owners s = [owner] ∧ svc_Labels s !! LabelLoggingInputServiceType = Some t.

Definition orphan (names : gset string) (s : Service) : bool :=
  HasSameOwner (svc_Owners s) [owner] && negb (Has names (svc_Name s)).

Lemma remove_orphans_spec names items : ∀ store store',
  remove_orphans delete_fails owner names store items = (store', None) →
  ∀ k, store' !! k = if existsb (λ s, orphan names s && (svc_Name s == k)) items then None else store !! k.
Proof.
  induction items as [|s items IH]; intros store store'; cbn [remove_orphans existsb]; [by intros [= <-]|].
  fold (orphan names s). destruct (orphan names s); cbn [andb]; [|by apply IH].
  unfold Delete. destruct (delete_fails (svc_Name s)); [done|]. intros E k. rewrite (IH _ _ E k).
  destruct (String.eqb_spec (svc_Name s) k) as [<-|Hne]; cbn [orb].
  - rewrite lookup_delete_eq. by case_match.
  - by rewrite lookup_delete_ne.
Qed.

Definition receivers_present : Prop := ∀ i, i ∈ inputs → in_Type i = InputTypeReceiver → is_Some (in_Receiver i).

Definition is_receiver (t : string) (i : InputSpec) : Prop :=
  i ∈ inputs ∧ in_Type i = InputTypeReceiver ∧ ∃ r, in_Receiver i = Some r ∧ recv_Type r = t.

Lemma receiver_names_spec t :
  receivers_present →
  ∃ names, receiver_names resourceNames inputs t = Ret names ∧
    ∀ k, k ∈ names ↔ ∃ i, is_receiver t i ∧ k = service_of i.
Proof.
  intros Hr. unfold receiver_names, is_receiver. unfold receivers_present in Hr.
  assert (∀ acc, ∃ names, foldM (λ names input,
      if in_Type input == InputTypeReceiver then
        r ← deref (in_Receiver input);
        Ret (if recv_Type r == t then Insert names [service_of input] else names)
      else Ret names) acc inputs = Ret names ∧
    ∀ k, k ∈ names ↔ k ∈ acc ∨ ∃ i, (i ∈ inputs ∧ in_Type i = InputTypeReceiver ∧
      ∃ r, in_Receiver i = Some r ∧ recv_Type r = t) ∧ k = service_of i) as Hloop.
  { induction inputs as [|i l IH]; intros acc; cbn [foldM].
    { exists acc. split; [done|]. intros k. split; [by left|]. by intros [?|(i & (?%not_elem_of_nil & _) & _)]. }
    apply forall_cons_iff in Hr as [Hi Hl]. specialize (IH Hl).
    assert (∀ acc', (∀ k, k ∈ acc' ↔ k ∈ acc ∨ (in_Type i = InputTypeReceiver ∧
        (∃ r, in_Receiver i = Some r ∧ recv_Type r = t) ∧ k = service_of i)) →
      ∃ names, foldM (λ names input,
        if in_Type input == InputTypeReceiver then
          r ← deref (in_Receiver input);
          Ret (if recv_Type r == t then Insert names [service_of input] else names)
        else Ret names) acc' l = Ret names ∧
      ∀ k, k ∈ names ↔ k ∈ acc ∨ ∃ i', (i' ∈ i :: l ∧ in_Type i' = InputTypeReceiver ∧
        ∃ r, in_Receiver i' = Some r ∧ recv_Type r = t) ∧ k = service_of i') as Hnext.
    { intros acc' Hacc. destruct (IH acc') as (names & -> & Hn). exists names. split; [done|]. intros k.
      rewrite Hn, Hacc. setoid_rewrite elem_of_cons. split.
      - intros [[?|(? & ? & ?)]|(i' & (? & ? & ?) & ?)]; [by left|right; exists i; auto|right; exists i'; auto].
      - intros [?|(i' & ([->|?] & ? & ?) & ?)]; [auto|auto|right; exists i'; auto]. }
    destruct (String.eqb_spec (in_Type i) InputTypeReceiver) as [Et|Et]; cbn [mbind outcome_bind].
    - destruct (Hi Et) as [r Er]. rewrite Er. cbn [deref mbind outcome_bind]. apply Hnext. intros k.
      destruct (String.eqb_spec (recv_Type r) t) as [Ht|Ht].
      + rewrite elem_of_Insert, list_elem_of_singleton. split; [intros [?| ->]; [by left|right; split_and!; eauto]|].
        intros [?|(_ & _ & ?)]; auto.
      + split; [by left|]. intros [?|(_ & (r' & ? & ?) & _)]; [done|]. congruence.
    - apply Hnext. intros k. split; [by left|]. by intros [?|(? & _)]. }
  destruct (Hloop ∅) as (names & E & Hn). exists names. split; [exact E|]. intros k. rewrite Hn. set_solver.
Qed.

(** The services of one type that are left. *)
Lemma remove_of_type_spec t store store' :
  receivers_present → store_wf store →
  remove_of_type list_fails delete_fails resourceNames inputs owner store t = Ret (store', None) →
  store_wf store' ∧
  ∀ k s, store' !! k = Some s ↔
    store !! k = Some s ∧ (owned t s → ∃ i, is_receiver t i ∧ k = service_of i).
Proof.
  intros Hr Hwf. unfold remove_of_type, List. destruct (list_fails t); [done|].
  destruct (receiver_names_spec t Hr) as (names & -> & Hn). cbn [mbind outcome_bind]. intros [= E].
  pose proof (remove_orphans_spec _ _ _ _ E) as Hspec.
  assert (∀ k s, store !! k = Some s →
    existsb (λ s0, orphan names s0 && (svc_Name s0 == k))
      (filter (λ s0, svc_Labels s0 !! LabelLoggingInputServiceType = Some t) (range store).*2) = true ↔
    owned t s ∧ ∀ i, is_receiver t i → k ≠ service_of i) as Hex.
  { intros k s Hk. rewrite existsb_exists. unfold orphan, HasSameOwner, Has, owned. split.
    - intros (s0 & Hin%list_elem_of_In & [Ho Hname%String.eqb_eq]%andb_true_iff).
      apply list_elem_of_filter in Hin as [Hlab ([k0 s1] & -> & Hk0%elem_of_range)%list_elem_of_fmap]. cbn in *.
      pose proof (Hwf _ _ Hk0) as Hw. assert (k0 = k) as -> by congruence. assert (s1 = s) as -> by congruence.
      apply andb_true_iff in Ho as [Ho%bool_decide_eq_true Hno%negb_true_iff%bool_decide_eq_false].
      split; [done|]. intros i Hi ->. apply Hno. rewrite Hname. apply Hn. by exists i.
    - intros [[Ho Hlab] Hno]. exists s. split.
      + apply list_elem_of_In, list_elem_of_filter. split; [done|]. apply list_elem_of_fmap. exists (k, s).
        by rewrite elem_of_range.
      + rewrite (Hwf _ _ Hk), String.eqb_refl, bool_decide_true by done. rewrite bool_decide_false; [done|].
        intros (i & Hi & ->)%Hn. by apply (Hno i). }
  assert (∀ k s, store' !! k = Some s ↔
    store !! k = Some s ∧ (owned t s → ∃ i, is_receiver t i ∧ k = service_of i)) as Hleft.
  { intros k s. rewrite (Hspec k). destruct (store !! k) as [s0|] eqn:Hk; [|split; [by case_match|by intros [[=] _]]].
    destruct (Hex k s0 Hk) as [He1 He2]. destruct (existsb _ _) eqn:E'.
    - split; [done|]. intros [[= ->] Hi]. destruct (He1 eq_refl) as [Ho Hno].
      destruct (Hi Ho) as (i & ? & ->). by destruct (Hno i).
    - split; [|by intros [? _]]. intros [= ->]. split; [done|]. intros Ho.
      destruct (decide (k ∈ names)) as [Hin|Hin]; [by apply Hn in Hin|].
      exfalso. assert (false = true) as [=]. apply He2. split; [done|]. intros i Hi ->. apply Hin, Hn. by exists i. }
  split; [|exact Hleft]. intros k s [Hk _]%Hleft. by apply Hwf.
Qed.

Lemma Orphaned_spec store store' :
  receivers_present → store_wf store →
  RemoveOrphanedInputServices list_fails delete_fails resourceNames inputs owner store = Ret (store', None) →
  store_wf store' ∧
  ∀ k s, store' !! k = Some s ↔
    store !! k = Some s ∧ (∀ t, t ∈ ReceiverTypes → owned t s → ∃ i, is_receiver t i ∧ k = service_of i).
Proof.
  intros Hr Hwf. unfold RemoveOrphanedInputServices, ReceiverTypes. cbn [foldM].
  intros ([s1 [e|]] & E1 & E)%bind_ret_inv; [by injection E|].
  apply bind_ret_inv in E as ([s2 e2] & E2 & E). injection E as -> ->.
  destruct (remove_of_type_spec _ _ _ Hr Hwf E1) as [Hwf1 H1].
  destruct (remove_of_type_spec _ _ _ Hr Hwf1 E2) as [Hwf2 H2].
  split; [done|]. intros k s. rewrite H2, H1. split.
  - intros [[Hk Ha] Hb]. split; [done|]. intros t. rewrite !elem_of_cons.
    intros [->|[->|[]%not_elem_of_nil]]; auto.
  - intros [Hk Hall]. split; [split; [done|]|]; apply Hall; set_solver.
Qed.

(** The services the inputs ask for. *)
Lemma reconcile_inputs_error visitors l store err :
  foldl (reconcile_input update_fails resourceNames owner visitors) (store, Some err) l = (store, Some err).
Proof. by induction l as [|i l IH]. Qed.

Definition asked_for (visitors : visitor) (i : InputSpec) (r : ReceiverSpec) : Service :=
  input_service (service_of i) (CommonName resourceNames) (service_of i) (recv_Port r) (recv_Port r) (recv_Type r)
    owner visitors.

(** A service as it is after the request, its annotations apart. *)
Definition same_service (s s' : Service) : Prop :=
  svc_Name s = svc_Name s' ∧ svc_Labels s = svc_Labels s' ∧ svc_Selector s = svc_Selector s' ∧
  svc_Ports s = svc_Ports s' ∧ svc_Owners s = svc_Owners s'.

Lemma reconcile_inputs_spec visitors l : ∀ store store',
  foldl (reconcile_input update_fails resourceNames owner visitors) (store, None) l = (store', None) →
  (∀ k, (∀ i r, i ∈ l → in_Receiver i = Some r → k ≠ service_of i) → store' !! k = store !! k) ∧
  (NoDup (in_Name <$> l) → ∀ i r, i ∈ l → in_Receiver i = Some r →
     ∃ s, store' !! service_of i = Some s ∧ same_service s (asked_for visitors i r)).
Proof.
  induction l as [|i l IH]; intros store store'; cbn [foldl].
  { intros [= <-]. split; [done|]. by intros _ i r ?%not_elem_of_nil. }
  cbn [reconcile_input]. destruct (in_Receiver i) as [r|] eqn:Er.
  2: { intros E. destruct (IH _ _ E) as [H1 H2]. split.
       - intros k Hk. apply H1. intros j r Hj. apply Hk. by right.
       - intros [Hi Hnd]%NoDup_cons j r [->|Hj]%elem_of_cons Hr; [congruence|by apply H2]. }
  unfold ReconcileInputService, reconcile_Service.
  destruct (update_fails _); [by rewrite reconcile_inputs_error|]. intros E. destruct (IH _ _ E) as [H1 H2]. split.
  - intros k Hk. rewrite H1; [|intros j r' Hj; apply Hk; by right]. rewrite lookup_insert_ne; [done|].
    intros Heq. eapply (Hk i r); [by left|done|]. by rewrite <-Heq.
  - intros [Hi Hnd]%NoDup_cons j r' [->|Hj]%elem_of_cons Hr; [|by apply H2].
    assert (r' = r) as -> by congruence. rewrite H1.
    + eexists. split; [apply lookup_insert_eq|]. by split_and!.
    + intros j' r' Hj' _ Heq. apply Hi. apply list_elem_of_fmap. exists j'. split; [|done].
      unfold GenerateInputServiceName in Heq. by do 2 apply string_app_inj_l in Heq.
Qed.

(** The server answers every request. *)
Definition services_answered : Prop :=
  (∀ t, list_fails t = None) ∧ (∀ name, delete_fails name = None) ∧ (∀ name, update_fails name = None).

Lemma remove_orphans_answered names items store :
  (∀ name, delete_fails name = None) → (remove_orphans delete_fails owner names store items).2 = None.
Proof.
  intros Hd. induction items as [|s items IH] in store |- *; cbn [remove_orphans]; [done|].
  destruct (_ && _); [|apply IH]. unfold Delete. rewrite Hd. apply IH.
Qed.

Lemma remove_of_type_returns t store :
  receivers_present → ∃ st, remove_of_type list_fails delete_fails resourceNames inputs owner store t = Ret st ∧
    (services_answered → st.2 = None).
Proof.
  intros Hr. unfold remove_of_type, List. destruct (receiver_names_spec t Hr) as (names & -> & _).
  destruct (list_fails t) as [err|] eqn:E; eexists; (split; [reflexivity|]).
  - intros (Hl & _). by rewrite Hl in E.
  - intros (_ & Hd & _). by apply remove_orphans_answered.
Qed.

Lemma Orphaned_returns store :
  receivers_present → ∃ st, RemoveOrphanedInputServices list_fails delete_fails resourceNames inputs owner store = Ret st ∧
    (services_answered → st.2 = None).
Proof.
  intros Hr. unfold RemoveOrphanedInputServices, ReceiverTypes. cbn [foldM].
  destruct (remove_of_type_returns ReceiverTypeHTTP store Hr) as ([s1 e1] & -> & H1). cbn [mbind outcome_bind].
  destruct e1 as [err|]; [by eexists|].
  destruct (remove_of_type_returns ReceiverTypeSyslog s1 Hr) as ([s2 e2] & -> & H2). by eexists.
Qed.

Lemma reconcile_inputs_answered visitors l st :
  (∀ name, update_fails name = None) → st.2 = None →
  (foldl (reconcile_input update_fails resourceNames owner visitors) st l).2 = None.
Proof.
  intros Hu. induction l as [|i l IH] in st |- *; intros Hst; cbn [foldl]; [done|]. apply IH.
  destruct st as [store err]. cbn [snd] in Hst. subst err. cbn [reconcile_input].
  destruct (in_Receiver i); [|done]. unfold ReconcileInputService, reconcile_Service. by rewrite Hu.
Qed.

Lemma ReconcileInputServices_returns store visitors :
  receivers_present → ∃ st, ReconcileInputServices list_fails delete_fails update_fails resourceNames inputs owner store visitors
    = Ret st ∧ (services_answered → st.2 = None).
Proof.
  intros Hr. unfold ReconcileInputServices. destruct (Orphaned_returns store Hr) as (st & -> & Hst).
  cbn [mbind outcome_bind]. eexists. split; [reflexivity|]. intros Ha. apply reconcile_inputs_answered; [apply Ha|by apply Hst].
Qed.

(** C39. The services of the receivers.  For inputs that the API server admits their
    reconciliation ends, without error if every request is answered; and then every input
    with a receiver section has its service, with its port, its type, and this
    forwarder as its owner.  Of the services the forwarder owned, those of receivers
    that are gone are deleted, so that what is left under its name belongs to an input
    with that section.  A service with another name is not touched if the forwarder
    does not own it, or if it is not one of a receiver. *)
Theorem ReconcileInputServices_correct visitors store :
  receivers_present → store_wf store → NoDup (in_Name <$> inputs) →
  ∃ store' err, ReconcileInputServices list_fails delete_fails update_fails resourceNames inputs owner store visitors
    = Ret (store', err) ∧ (services_answered → err = None) ∧
  (err = None →
  (∀ i r, i ∈ inputs → in_Receiver i = Some r →
     ∃ s, store' !! service_of i = Some s ∧ same_service s (asked_for visitors i r)) ∧
  (∀ k s t, store' !! k = Some s → t ∈ ReceiverTypes → owned t s →
     ∃ i r, i ∈ inputs ∧ in_Receiver i = Some r ∧ k = service_of i) ∧
  (∀ k s, store !! k = Some s → (∀ i r, i ∈ inputs → in_Receiver i = Some r → k ≠ service_of i) →
     (∀ t, t ∈ ReceiverTypes → ¬ owned t s) → store' !! k = Some s)).
Proof.
  intros Hr Hwf Hnd. destruct (ReconcileInputServices_returns store visitors Hr) as ([store' err] & Eall & Hok).
  exists store', err. split; [exact Eall|]. split; [exact Hok|]. intros ->. revert Eall.
  unfold ReconcileInputServices. intros ([s1 [e|]] & E1 & [= E])%bind_ret_inv.
  { by rewrite reconcile_inputs_error in E. }
  destruct (Orphaned_spec _ _ Hr Hwf E1) as [Hwf1 H1].
  destruct (reconcile_inputs_spec _ _ _ _ E) as [H2 H3].
  split; [by apply H3|]. split.
  - intros k s t Hk Ht Ho.
    destruct (decide (Exists (λ i, is_Some (in_Receiver i) ∧ k = service_of i) inputs)) as [Hex|Hno].
    { apply Exists_exists in Hex as (i & Hi & [r Hir] & ->). eauto. }
    rewrite H2 in Hk.
    + apply H1 in Hk as [_ Hi]. destruct (Hi t Ht Ho) as (i & (? & _ & r & ? & _) & ->). eauto.
    + intros i r Hi Hir ->. apply Hno, Exists_exists. exists i. split; [done|]. by split; [exists r|].
  - intros k s Hk Hno Hown. rewrite H2 by done. apply H1. split; [done|]. intros t Ht Ho. by destruct (Hown t Ht).
Qed.
End correct.

(** ** An example *)

Definition example_receiver_input (name : string) (t : string) : InputSpec := {|
  in_Name := name; in_Type := InputTypeReceiver; in_Application := None; in_Infrastructure := None; in_Audit := None;
  in_Receiver := Some {| recv_Type := t; recv_TLS := None; recv_Port := 8443; recv_HTTP := None |} |}.

Definition example_owner : OwnerReference := {|
  own_APIVersion := "observability.openshift.io/v1"; own_Kind := "ClusterLogForwarder"; own_Name := "fwd"; own_UID := "1" |}.

Definition example_names : ForwarderResourceNames := {|
  CommonName := "fwd"; SecretMetrics := ""; ConfigMapName := ""; MetadataReaderClusterRoleBinding := "";
  MetricsAuthClusterRoleBinding := ""; CaTrustBundle := ""; ServiceAccountName := ""; InternalLogStoreSecret := "";
  ServiceAccountTokenSecret := ""; ForwarderName := "fwd"; SecretsName := ""; AwsCredentialsFile := "" |}.

(** A service of a receiver the spec no longer has. *)
Definition example_store : gmap string Service := {[
  "fwd-old" := input_service "fwd-old" "fwd" "fwd-old" 8443 8443 ReceiverTypeHTTP example_owner (CommonLabelInitializer "fwd") ]}.

Lemma ReconcileInputServices_correct_witness :
  ∃ store', ReconcileInputServices (H := canonical_order) (λ _, None) (λ _, None) (λ _, None) example_names
      [example_receiver_input "new" ReceiverTypeSyslog] example_owner example_store (CommonLabelInitializer "fwd")
      = Ret (store', None) ∧
    is_Some (store' !! "fwd-new").
Proof.
  destruct (ReconcileInputServices_correct (H := canonical_order) (λ _, None) (λ _, None) (λ _, None) example_names
    [example_receiver_input "new" ReceiverTypeSyslog] example_owner (CommonLabelInitializer "fwd") example_store)
    as (store' & err & E & Hok & Hdone).
  - intros i ->%list_elem_of_singleton _. by eexists.
  - intros k s Hk. unfold example_store in Hk. apply lookup_singleton_Some in Hk as [<- <-]. done.
  - apply NoDup_singleton.
  - specialize (Hok (conj (λ _, eq_refl) (conj (λ _, eq_refl) (λ _, eq_refl)))). subst err. destruct (Hdone eq_refl) as (Hsvc & _). exists store'. split; [exact E|].
    destruct (Hsvc (example_receiver_input "new" ReceiverTypeSyslog) _ ltac:(by left) eq_refl) as (s & Hs & _).
    exists s. exact Hs.
Defined.
