(* ===== verification/Md5.v ===== *)
(** * The hash of a text ([internal/utils/utils.go], [CalculateMD5Hash])

    MD5 of the Go library ([crypto/md5]) on 32-bit integers, as the hexadecimal text the
    operator puts in the environment of its workloads: a change of the configuration or of
    the trusted CA changes the pods, and so restarts them. *)

From S2P Require Import Prelude GoStrings.

Open Scope Z_scope.

Definition byte_value (c : ascii) : Z := Z.of_nat (Ascii.nat_of_ascii c).

Fixpoint bytes_of (s : string) : list Z :=
  match s with "" => [] | String c s => byte_value c :: bytes_of s end.

(** The least significant byte first. *)
Fixpoint le_bytes (n : nat) (z : Z) : list Z :=
  match n with O => [] | S n => z mod 256 :: le_bytes n (z / 256) end.

Fixpoint le_value (l : list Z) : Z :=
  match l with [] => 0 | b :: l => b + 256 * le_value l end.

(** A one bit, zeros, and the number of bits as 64 bits, up to a multiple of 64 bytes. *)
Definition pad (msg : list Z) : list Z :=
  let n := Z.of_nat (length msg) in
  msg ++ 128 :: repeat 0 (Z.to_nat ((55 - n) mod 64)) ++ le_bytes 8 (8 * n mod 2 ^ 64).

Fixpoint chunks (k : nat) (fuel : nat) (l : list Z) : list (list Z) :=
  match fuel, l with
  | S fuel, _ :: _ => take k l :: chunks k fuel (drop k l)
  | _, _ => []
  end.

Definition words_of (block : list Z) : list Z := le_value <$> chunks 4 16 block.

Definition add32 (a b : Z) : Z := (a + b) mod 2 ^ 32.
Definition rotl32 (x : Z) (k : Z) : Z := Z.lor (Z.shiftl x k mod 2 ^ 32) (Z.shiftr x (32 - k)).
Definition not32 (x : Z) : Z := Z.lxor x (2 ^ 32 - 1).

Definition md5_shifts : list Z :=
  [7; 12; 17; 22; 7; 12; 17; 22; 7; 12; 17; 22; 7; 12; 17; 22;
   5; 9; 14; 20; 5; 9; 14; 20; 5; 9; 14; 20; 5; 9; 14; 20;
   4; 11; 16; 23; 4; 11; 16; 23; 4; 11; 16; 23; 4; 11; 16; 23;
   6; 10; 15; 21; 6; 10; 15; 21; 6; 10; 15; 21; 6; 10; 15; 21].

(** The integer part of [2^32 * |sin (i + 1)|]. *)
Definition md5_table : list Z :=
  [3614090360; 3905402710; 606105819; 3250441966; 4118548399; 1200080426; 2821735955; 4249261313;
   1770035416; 2336552879; 4294925233; 2304563134; 1804603682; 4254626195; 2792965006; 1236535329;
   4129170786; 3225465664; 643717713; 3921069994; 3593408605; 38016083; 3634488961; 3889429448;
   568446438; 3275163606; 4107603335; 1163531501; 2850285829; 4243563512; 1735328473; 2368359562;
   4294588738; 2272392833; 1839030562; 4259657740; 2763975236; 1272893353; 4139469664; 3200236656;
   681279174; 3936430074; 3572445317; 76029189; 3654602809; 3873151461; 530742520; 3299628645;
   4096336452; 1126891415; 2878612391; 4237533241; 1700485571; 2399980690; 4293915773; 2240044497;
   1873313359; 4264355552; 2734768916; 1309151649; 4149444226; 3174756917; 718787259; 3951481745].

Definition md5_state := (Z * Z * Z * Z)%type.

Definition md5_init : md5_state := (1732584193, 4023233417, 2562383102, 271733878).

Definition md5_round (words : list Z) (st : md5_state) (i : nat) : md5_state :=
  let '(a, b, c, d) := st in
  let '(f, g) :=
    if (i <? 16)%nat then (Z.lor (Z.land b c) (Z.land (not32 b) d), i)
    else if (i <? 32)%nat then (Z.lor (Z.land d b) (Z.land (not32 d) c), (5 * i + 1) mod 16)%nat
    else if (i <? 48)%nat then (Z.lxor b (Z.lxor c d), (3 * i + 5) mod 16)%nat
    else (Z.lxor c (Z.lor b (not32 d)), (7 * i) mod 16)%nat in
  let f := add32 (add32 f a) (add32 (nth i md5_table 0) (nth g words 0)) in
  (d, add32 b (rotl32 f (nth i md5_shifts 0)), b, c).

Definition md5_block (st : md5_state) (block : list Z) : md5_state :=
  let '(a, b, c, d) := st in
  let '(a', b', c', d') := foldl (md5_round (words_of block)) st (seq 0 64) in
  (add32 a a', add32 b b', add32 c c', add32 d d').

Definition md5_sum (msg : list Z) : list Z :=
  let padded := pad msg in
  let '(a, b, c, d) := foldl md5_block md5_init (chunks 64 (length padded) padded) in
  le_bytes 4 a ++ le_bytes 4 b ++ le_bytes 4 c ++ le_bytes 4 d.

(** [hex.EncodeToString]. *)
Definition hex_byte (b : Z) : string := hex_digit (Z.to_nat (b / 16)) +:+ hex_digit (Z.to_nat (b mod 16)).

Definition EncodeToString (l : list Z) : string := foldr (λ b s, hex_byte b +:+ s) "" l.

(** The [Write] of a hash never fails, so that there is no error. *)
Definition CalculateMD5Hash (text : string) : string := EncodeToString (md5_sum (bytes_of text)).

(** ** The test suite of RFC 1321 *)

Example md5_empty : CalculateMD5Hash "" = "d41d8cd98f00b204e9800998ecf8427e".
Proof. vm_compute. reflexivity. Qed.

Example md5_abc : CalculateMD5Hash "abc" = "900150983cd24fb0d6963f7d28e17f72".
Proof. vm_compute. reflexivity. Qed.

Example md5_two_blocks :
  CalculateMD5Hash "12345678901234567890123456789012345678901234567890123456789012345678901234567890"
  = "57edf4a22be3c955ac49da2e2107b67a".
Proof. vm_compute. reflexivity. Qed.

Lemma le_bytes_length n z : length (le_bytes n z) = n.
Proof. revert z. induction n as [|n IH]; intros z; cbn [le_bytes length]; [done|]. by rewrite IH. Qed.

(** The padded message is a number of whole blocks, and the message is its beginning. *)
Lemma pad_blocks msg : (Z.of_nat (length (pad msg)) mod 64 = 0) ∧ msg `prefix_of` pad msg.
Proof.
  unfold pad. split; [|by eexists]. rewrite length_app. cbn [length].
  rewrite length_app, repeat_length, le_bytes_length.
  set (n := Z.of_nat (length msg)). pose proof (Z.mod_pos_bound (55 - n) 64 ltac:(lia)).
  pose proof (Z.div_mod (55 - n) 64 ltac:(lia)).
  replace (Z.of_nat _) with ((1 - (55 - n) / 64) * 64) by lia. apply Z.mod_mul. lia.
Qed.

Definition is_byte (b : Z) : Prop := 0 ≤ b < 256.

Lemma le_bytes_bytes n z : Forall is_byte (le_bytes n z).
Proof.
  revert z. induction n as [|n IH]; intros z; cbn [le_bytes]; constructor; [|apply IH]. by apply Z.mod_pos_bound.
Qed.

Lemma hex_digit_length n : (n < 16)%nat → String.length (hex_digit n) = 1%nat.
Proof. intros H. do 16 (destruct n as [|n]; [reflexivity|]). lia. Qed.

Lemma EncodeToString_length l : Forall is_byte l → String.length (EncodeToString l) = (2 * length l)%nat.
Proof.
  induction 1 as [|b l [H0 H1] Hl IH]; [done|]. cbn [EncodeToString foldr length]. fold (EncodeToString l).
  unfold hex_byte. rewrite !string_app_length, IH.
  pose proof (Z.mod_pos_bound b 16 ltac:(lia)). pose proof (Z.div_pos b 16). pose proof (Z.div_lt_upper_bound b 16 16).
  rewrite !hex_digit_length by lia. lia.
Qed.

(** A hash is 32 characters, whatever the text. *)
Lemma hash_length text : String.length (CalculateMD5Hash text) = 32%nat.
Proof.
  unfold CalculateMD5Hash, md5_sum. destruct (foldl md5_block _ _) as [[[a b] c] d].
  rewrite EncodeToString_length by (rewrite !Forall_app; split_and!; apply le_bytes_bytes).
  by rewrite !length_app, !le_bytes_length.
Qed.
