(* ===== verification/Workload.v ===== *)
(** * The workload of the collector ([internal/collector/collector.go], [vector/visitors.go])

    The pod of the collector, and the daemon set or deployment that runs it: the files
    [collector.go], [vector/visitors.go], [vector/utils.go] and [common/constants.go] of
    the collector, [daemonset.go] and [deployment.go] of [internal/factory] and
    [internal/runtime], and the helpers of [internal/utils/utils.go].  What the code
    changes through a pointer is what the functions here return.  The environment of the
    operator is a function, as is [intstr.Parse]. *)

From S2P Require Import Prelude GoStrings ApiCommon ApiInputs ApiForwarder ObsResources ObsInputs ObsOutputs.
From S2P Require Import Reconcile AwsAuth VrlText Network Config InputServices Md5.

(** ** Pods ([k8s.io/api/core/v1]) *)

Record KeyToPath := { ktp_Key : string; ktp_Path : string }.
Record ConfigMapVolumeSource := { cmv_Name : string; cmv_Items : list KeyToPath }.
Record ServiceAccountTokenProjection := { satp_Audience : string; satp_ExpirationSeconds : Z; satp_Path : string }.

(** The kinds of volumes the operator makes: each has one source. *)
Inductive VolumeSource :=
  | VSecret (SecretName : string)
  | VConfigMap (c : ConfigMapVolumeSource)
  | VHostPath (Path : string)
  | VEmptyDir (Medium : string)
  | VProjected (Sources : list ServiceAccountTokenProjection).

Record Volume := { vol_Name : string; vol_Source : VolumeSource }.
Record VolumeMount := { vm_Name : string; vm_ReadOnly : bool; vm_MountPath : string; vm_SubPath : string }.
Record ContainerPort := { cp_Name : string; cp_ContainerPort : Z; cp_Protocol : string }.

Record SecurityContext := {
  sc_CapabilitiesDrop : list string;
  sc_SELinuxType : string;
  sc_ReadOnlyRootFilesystem : bool;
  sc_AllowPrivilegeEscalation : bool;
  sc_SeccompProfile : string;
  sc_RunAsUser : option Z;
  sc_RunAsNonRoot : option bool;
}.

Record Container := {
  con_Name : string;
  con_Image : string;
  con_ImagePullPolicy : string;
  con_Resources : option ResourceRequirements;
  con_TerminationMessagePolicy : string;
  con_Ports : list ContainerPort;
  con_Env : list EnvVar;
  con_VolumeMounts : list VolumeMount;
  con_SecurityContext : option SecurityContext;
  con_Command : list string;
  con_Args : list string;
}.

Record PodSpec := {
  pod_NodeSelector : gmap string string;
  pod_PriorityClassName : string;
  pod_ServiceAccountName : string;
  pod_TerminationGracePeriodSeconds : Z;
  pod_Tolerations : list Toleration;
  pod_Affinity : option json;
  pod_Volumes : list Volume;
  pod_Containers : list Container;
}.

Definition add_mounts (c : Container) (mounts : list VolumeMount) : Container := {|
  con_Name := con_Name c; con_Image := con_Image c; con_ImagePullPolicy := con_ImagePullPolicy c;
  con_Resources := con_Resources c; con_TerminationMessagePolicy := con_TerminationMessagePolicy c;
  con_Ports := con_Ports c; con_Env := con_Env c; con_VolumeMounts := con_VolumeMounts c ++ mounts;
  con_SecurityContext := con_SecurityContext c; con_Command := con_Command c; con_Args := con_Args c |}.

Definition add_env (c : Container) (env : list EnvVar) : Container := {|
  con_Name := con_Name c; con_Image := con_Image c; con_ImagePullPolicy := con_ImagePullPolicy c;
  con_Resources := con_Resources c; con_TerminationMessagePolicy := con_TerminationMessagePolicy c;
  con_Ports := con_Ports c; con_Env := con_Env c ++ env; con_VolumeMounts := con_VolumeMounts c;
  con_SecurityContext := con_SecurityContext c; con_Command := con_Command c; con_Args := con_Args c |}.

Definition set_command (c : Container) (command args : list string) : Container := {|
  con_Name := con_Name c; con_Image := con_Image c; con_ImagePullPolicy := con_ImagePullPolicy c;
  con_Resources := con_Resources c; con_TerminationMessagePolicy := con_TerminationMessagePolicy c;
  con_Ports := con_Ports c; con_Env := con_Env c; con_VolumeMounts := con_VolumeMounts c;
  con_SecurityContext := con_SecurityContext c; con_Command := command; con_Args := args |}.

Definition add_volumes (p : PodSpec) (volumes : list Volume) : PodSpec := {|
  pod_NodeSelector := pod_NodeSelector p; pod_PriorityClassName := pod_PriorityClassName p;
  pod_ServiceAccountName := pod_ServiceAccountName p;
  pod_TerminationGracePeriodSeconds := pod_TerminationGracePeriodSeconds p;
  pod_Tolerations := pod_Tolerations p; pod_Affinity := pod_Affinity p;
  pod_Volumes := pod_Volumes p ++ volumes; pod_Containers := pod_Containers p |}.

Definition set_containers (p : PodSpec) (containers : list Container) : PodSpec := {|
  pod_NodeSelector := pod_NodeSelector p; pod_PriorityClassName := pod_PriorityClassName p;
  pod_ServiceAccountName := pod_ServiceAccountName p;
  pod_TerminationGracePeriodSeconds := pod_TerminationGracePeriodSeconds p;
  pod_Tolerations := pod_Tolerations p; pod_Affinity := pod_Affinity p;
  pod_Volumes := pod_Volumes p; pod_Containers := containers |}.

Definition plain_env (name value : string) : EnvVar := {| env_Name := name; env_Value := value; env_ValueFrom := None |}.

Definition field_env (name path : string) : EnvVar := {|
  env_Name := name; env_Value := ""; env_ValueFrom := Some {| ofs_APIVersion := "v1"; ofs_FieldPath := path |} |}.

(** ** Constants ([internal/constants], [collector.go], [common/constants.go]) *)

Definition DefaultMaxUnavailable : string := "100%".
Definition defaultAudience : string := "openshift".
Definition clusterLoggingPriorityClassName : string := "system-node-critical".
Definition metricsVolumeName : string := "metrics".
Definition metricsVolumePath : string := "/etc/collector/metrics".
Definition saTokenVolumeName : string := "sa-token".
Definition saTokenExpirationSecs : Z := 3600.
Definition defaultTerminationGracePeriodSeconds : Z := 10.
Definition tmpVolumeName : string := "tmp".
Definition tmpPath : string := "/tmp".
Definition ConfigVolumeName : string := "config".
Definition DataDirName : string := "datadir".
Definition EntrypointVolumeName : string := "entrypoint".
Definition TrustedCABundleHashName : string := "TRUSTED_CA_HASH".
Definition VolumeNameTrustedCA : string := "trusted-ca".
Definition TrustedCABundleKey : string := "ca-bundle.crt".
Definition TrustedCABundleMountFile : string := "tls-ca-bundle.pem".
Definition TrustedCABundleMountDir : string := "/etc/pki/ca-trust/extracted/pem/".
Definition MetricsPortName : string := "metrics".
Definition AnnotationMaxUnavailable : string := "observability.openshift.io/max-unavailable-rollout".
Definition AnnotationVectorLogLevel : string := "observability.openshift.io/log-level".
Definition AnnotationSecretHash : string := "observability.openshift.io/secret-hash".
Definition AnnotationConfigMapHash : string := "observability.openshift.io/configmap-hash".
Definition RunVectorFile : string := "run-vector.sh".
Definition vectorConfigPath : string := "/etc/vector".
Definition entrypointValue : string := "/usr/bin/run-vector.sh".

(** The directories of the node, with the names of their volumes. *)
Definition sourcePods : string * string := ("varlogpods", "/var/log/pods").
Definition sourceJournal : string * string := ("varlogjournal", "/var/log/journal").
Definition sourceAuditd : string * string := ("varlogaudit", "/var/log/audit").
Definition sourceAuditOVN : string * string := ("varlogovn", "/var/log/ovn").
Definition sourceOAuthServer : string * string := ("varlogoauthserver", "/var/log/oauth-server").
Definition sourceOAuthAPIServer : string * string := ("varlogoauthapiserver", "/var/log/oauth-apiserver").
Definition sourceOpenshiftAPIServer : string * string := ("varlogopenshiftapiserver", "/var/log/openshift-apiserver").
Definition sourceKubeAPIServer : string * string := ("varlogkubeapiserver", "/var/log/kube-apiserver").

Definition DefaultTolerations : list Toleration := [
  {| tol_Key := "node-role.kubernetes.io/master"; tol_Operator := "Exists"; tol_Value := "";
     tol_Effect := "NoSchedule"; tol_TolerationSeconds := None |};
  {| tol_Key := "node.kubernetes.io/disk-pressure"; tol_Operator := "Exists"; tol_Value := "";
     tol_Effect := "NoSchedule"; tol_TolerationSeconds := None |} ].

Definition OsNodeLabel : string := "kubernetes.io/os".
Definition LinuxValue : string := "linux".

(** A nil map and an empty one are the same here. *)
Definition EnsureLinuxNodeSelector (selectors : gmap string string) : gmap string string :=
  match selectors !! OsNodeLabel with
  | Some osType => if osType == LinuxValue then selectors else <[OsNodeLabel := LinuxValue]> selectors
  | None => <[OsNodeLabel := LinuxValue]> selectors
  end.

Definition VectorReceiverName : string := "vector-receiver".

Definition COMPONENT_IMAGES : gmap string string := list_to_map
  [(VectorName, "RELATED_IMAGE_VECTOR"); (VectorReceiverName, "IMAGE_VECTOR_RECEIVER");
   (LogfilesmetricexporterName, "RELATED_IMAGE_LOG_FILE_METRIC_EXPORTER")].

Definition GetComponentImage (Getenv : string → string) (component : string) : string :=
  match COMPONENT_IMAGES !! component with
  | None => ""
  | Some envVarName => Getenv envVarName
  end.

(** ** The factory ([collector.go]) *)

Definition Visitor := Container → PodSpec → ForwarderResourceNames → string → string → Container * PodSpec.

Record Factory := {
  f_ConfigHash : string;
  f_CollectorSpec : CollectorSpec;
  f_ClusterID : string;
  f_ImageName : string;
  f_Visit : Visitor;
  f_Secrets : Secrets;
  f_ConfigMaps : ConfigMaps;
  f_ForwarderSpec : ClusterLogForwarderSpec;
  f_CommonLabelInitializer : visitor;
  f_PodLabelVisitor : visitor;
  f_ResourceNames : ForwarderResourceNames;
  f_isDaemonset : bool;
  f_annotations : gmap string string;
}.

(** [visitors.go] *)
Definition CollectorVisitor : Visitor := λ collectorContainer podSpec resNames namespace logLevel,
  let dataPath := GetDataPath namespace (ForwarderName resNames) in
  let config := VConfigMap {| cmv_Name := ConfigMapName resNames; cmv_Items := [] |} in
  let c := add_env collectorContainer
    [plain_env "VECTOR_LOG" logLevel; plain_env "KUBERNETES_SERVICE_HOST" "kubernetes.default.svc";
     field_env "VECTOR_SELF_NODE_NAME" "spec.nodeName"] in
  let c := add_mounts c
    [{| vm_Name := ConfigVolumeName; vm_ReadOnly := true; vm_MountPath := vectorConfigPath; vm_SubPath := "" |};
     {| vm_Name := DataDirName; vm_ReadOnly := false; vm_MountPath := dataPath; vm_SubPath := "" |};
     {| vm_Name := EntrypointVolumeName; vm_ReadOnly := true; vm_MountPath := entrypointValue;
        vm_SubPath := RunVectorFile |}] in
  (set_command c ["sh"] [entrypointValue],
   add_volumes podSpec
    [{| vol_Name := ConfigVolumeName; vol_Source := config |};
     {| vol_Name := DataDirName; vol_Source := VHostPath dataPath |};
     {| vol_Name := EntrypointVolumeName; vol_Source := config |}]).

Definition PodLogExcludeLabel : visitor := λ labels, AddLabels labels {["vector.dev/exclude" := "true"]}.

Definition New (confHash clusterID : string) (collectorSpec : option CollectorSpec) (secrets : Secrets)
    (configMaps : ConfigMaps) (forwarderSpec : ClusterLogForwarderSpec) (resNames : ForwarderResourceNames)
    (isDaemonset : bool) (annotations : gmap string string) : Factory := {|
  f_ConfigHash := confHash; f_CollectorSpec := default CollectorSpec_zero collectorSpec; f_ClusterID := clusterID;
  f_ImageName := VectorName; f_Visit := CollectorVisitor; f_Secrets := secrets; f_ConfigMaps := configMaps;
  f_ForwarderSpec := forwarderSpec; f_CommonLabelInitializer := CommonLabelInitializer (ForwarderName resNames);
  f_PodLabelVisitor := PodLogExcludeLabel; f_ResourceNames := resNames; f_isDaemonset := isDaemonset;
  f_annotations := annotations |}.

Definition LogLevel (annotations : gmap string string) : string :=
  match annotations !! AnnotationVectorLogLevel with Some level => level | None => "warn" end.

Definition MaxUnavailable (Parse : string → IntOrString) (f : Factory) : IntOrString :=
  match coll_MaxUnavailable (f_CollectorSpec f) with
  | Some m => m
  | None =>
      match f_annotations f !! AnnotationMaxUnavailable with
      | Some value => Parse value
      | None => Parse DefaultMaxUnavailable
      end
  end.

Definition sanitizeVolumeName (input : string) : string := ReplaceAll input "." "".

Definition AddVolumeMounts (collector : Container) (names : list string) (path : string → string) : Container :=
  add_mounts collector ((λ name,
    {| vm_Name := sanitizeVolumeName name; vm_ReadOnly := true; vm_MountPath := path name; vm_SubPath := "" |}) <$> names).

Section volumes.
Context `{RangeOrder}.

Definition AddSecretVolumes (podSpec : PodSpec) (secrets : Secrets) : PodSpec * list string :=
  let names := Secrets_Names secrets in
  (add_volumes podSpec ((λ name,
     {| vol_Name := sanitizeVolumeName name; vol_Source := VSecret name |}) <$> names), names).

Definition AddConfigmapVolumes (podSpec : PodSpec) (configMaps : ConfigMaps) : PodSpec * list string :=
  let names := ConfigMaps_Names configMaps in
  (add_volumes podSpec ((λ name,
     {| vol_Name := sanitizeVolumeName ("config-" +:+ name);
        vol_Source := VConfigMap {| cmv_Name := name; cmv_Items := [] |} |}) <$> names),
   (λ name, "config-" +:+ name) <$> names).
End volumes.

Definition AddServiceAccountProjectedVolume (podSpec : PodSpec) (audience : string) : PodSpec :=
  add_volumes podSpec [{| vol_Name := saTokenVolumeName; vol_Source := VProjected
    [{| satp_Audience := audience; satp_ExpirationSeconds := saTokenExpirationSecs; satp_Path := TokenKey |}] |}].

(** The capabilities are those of the variable [auth.RequiredDropCapabilities], whose
    slice the pod shares: what it holds at the time is an argument. *)
Definition AddSecurityContextTo (drop : list string) (c : Container) : Container := {|
  con_Name := con_Name c; con_Image := con_Image c; con_ImagePullPolicy := con_ImagePullPolicy c;
  con_Resources := con_Resources c; con_TerminationMessagePolicy := con_TerminationMessagePolicy c;
  con_Ports := con_Ports c; con_Env := con_Env c; con_VolumeMounts := con_VolumeMounts c;
  con_SecurityContext := Some {| sc_CapabilitiesDrop := drop; sc_SELinuxType := "spc_t";
    sc_ReadOnlyRootFilesystem := true; sc_AllowPrivilegeEscalation := false; sc_SeccompProfile := "RuntimeDefault";
    sc_RunAsUser := None; sc_RunAsNonRoot := None |};
  con_Command := con_Command c; con_Args := con_Args c |}.

(** The bundle, when there is one that is not empty. *)
Definition hasTrustedCABundle (configMap : option ConfigMap) : option string :=
  match configMap with
  | None => None
  | Some cm =>
      match cm_Data cm !! TrustedCABundleKey with
      | Some caBundle => if caBundle != "" then Some caBundle else None
      | None => None
      end
  end.

Definition addTrustedCABundle (collector : Container) (podSpec : PodSpec) (trustedCABundleCM : option ConfigMap) :
    Container * PodSpec :=
  match trustedCABundleCM with
  | None => (collector, podSpec)
  | Some cm =>
      match hasTrustedCABundle (Some cm) with
      | None => (collector, podSpec)
      | Some bundle =>
          (add_env (add_mounts collector
             [{| vm_Name := VolumeNameTrustedCA; vm_ReadOnly := true; vm_MountPath := TrustedCABundleMountDir;
                 vm_SubPath := "" |}])
             [plain_env TrustedCABundleHashName (CalculateMD5Hash bundle)],
           add_volumes podSpec
             [{| vol_Name := VolumeNameTrustedCA; vol_Source := VConfigMap {| cmv_Name := cm_Name cm;
                 cmv_Items := [{| ktp_Key := TrustedCABundleKey; ktp_Path := TrustedCABundleMountFile |}] |} |}])
      end
  end.

(** The volumes of the directories of the node the inputs read ([NewPodSpec]). *)
Definition host_volume (source : string * string) : Volume := {|
  vol_Name := source.1; vol_Source := VHostPath source.2 |}.

Definition hostVolumes (inputs : list InputSpec) : list Volume :=
  (if HasContainerSource inputs then [host_volume sourcePods] else [])
  ++ (if HasJournalSource inputs then [host_volume sourceJournal] else [])
  ++ (if HasAuditSource inputs AuditSourceAuditd then [host_volume sourceAuditd] else [])
  ++ (if HasAuditSource inputs AuditSourceKube then [host_volume sourceKubeAPIServer] else [])
  ++ (if HasAuditSource inputs AuditSourceOpenShift
      then [host_volume sourceOpenshiftAPIServer; host_volume sourceOAuthServer; host_volume sourceOAuthAPIServer]
      else [])
  ++ (if HasAuditSource inputs AuditSourceOVN then [host_volume sourceAuditOVN] else []).

(** Their mounts ([NewCollectorContainer]). *)
Definition host_mount (source : string * string) : VolumeMount := {|
  vm_Name := source.1; vm_ReadOnly := true; vm_MountPath := source.2; vm_SubPath := "" |}.

Definition hostMounts (inputs : list InputSpec) : list VolumeMount :=
  (if HasContainerSource inputs then [host_mount sourcePods] else [])
  ++ (if HasJournalSource inputs then [host_mount sourceJournal] else [])
  ++ (if HasAuditSource inputs AuditSourceAuditd then [host_mount sourceAuditd] else [])
  ++ (if HasAuditSource inputs AuditSourceKube then [host_mount sourceKubeAPIServer] else [])
  ++ (if HasAuditSource inputs AuditSourceOpenShift
      then [host_mount sourceOpenshiftAPIServer] ++ [host_mount sourceOAuthServer] ++ [host_mount sourceOAuthAPIServer]
      else [])
  ++ (if HasAuditSource inputs AuditSourceOVN then [host_mount sourceAuditOVN] else []).

Section factory.
Context `{RangeOrder} (Getenv : string → string) (ExtraNoProxyList drop : list string).

(** [runtime.NewContainer]. *)
Definition NewContainer (name image pullPolicy : string) (resources : option ResourceRequirements) : Container := {|
  con_Name := name; con_Image := image; con_ImagePullPolicy := pullPolicy; con_Resources := resources;
  con_TerminationMessagePolicy := ""; con_Ports := []; con_Env := []; con_VolumeMounts := [];
  con_SecurityContext := None; con_Command := []; con_Args := [] |}.

Definition collector_env (f : Factory) (clusterID : string) : list EnvVar :=
  [plain_env "COLLECTOR_CONF_HASH" (f_ConfigHash f); field_env "K8S_NODE_NAME" "spec.nodeName";
   field_env "NODE_IPV4" "status.hostIP"; plain_env "OPENSHIFT_CLUSTER_ID" clusterID;
   field_env "POD_IP" "status.podIP"; field_env "POD_IPS" "status.podIPs"; plain_env "VECTOR_RAISE_FD_LIMIT" "true"]
  ++ GetProxyEnvVars Getenv ExtraNoProxyList.

Definition NewCollectorContainer (f : Factory) (inputs : list InputSpec) (needsToken : bool)
    (secretVolumes configmapVolumes : list string) (clusterID : string) : Container :=
  let c := NewContainer CollectorName (GetComponentImage Getenv (f_ImageName f)) "IfNotPresent"
             (coll_Resources (f_CollectorSpec f)) in
  let c := {|
    con_Name := con_Name c; con_Image := con_Image c; con_ImagePullPolicy := con_ImagePullPolicy c;
    con_Resources := con_Resources c; con_TerminationMessagePolicy := "FallbackToLogsOnError";
    con_Ports := [{| cp_Name := MetricsPortName; cp_ContainerPort := MetricsPort; cp_Protocol := ProtocolTCP |}];
    con_Env := collector_env f clusterID;
    con_VolumeMounts :=
      [{| vm_Name := metricsVolumeName; vm_ReadOnly := true; vm_MountPath := metricsVolumePath; vm_SubPath := "" |};
       {| vm_Name := tmpVolumeName; vm_ReadOnly := false; vm_MountPath := tmpPath; vm_SubPath := "" |}];
    con_SecurityContext := con_SecurityContext c; con_Command := con_Command c; con_Args := con_Args c |} in
  let c :=
    if f_isDaemonset f then
      AddSecurityContextTo drop (add_mounts c (hostMounts inputs))
    else c in
  let c := AddVolumeMounts c secretVolumes SecretBasePath in
  let c := AddVolumeMounts c configmapVolumes (λ name, ConfigMapBasePath (TrimPrefix name "config-")) in
  if needsToken then AddVolumeMounts c [saTokenVolumeName] (λ _, ServiceAccountSecretPath) else c.

Definition NewPodSpec (f : Factory) (trustedCABundle : option ConfigMap) (spec : ClusterLogForwarderSpec)
    (clusterID namespace : string) : outcome PodSpec :=
  let cs := f_CollectorSpec f in
  let podSpec := {|
    pod_NodeSelector := EnsureLinuxNodeSelector (coll_NodeSelector cs);
    pod_PriorityClassName := clusterLoggingPriorityClassName;
    pod_ServiceAccountName := ServiceAccountName (f_ResourceNames f);
    pod_TerminationGracePeriodSeconds :=
      default defaultTerminationGracePeriodSeconds (coll_TerminationGracePeriodSeconds cs);
    pod_Tolerations := DefaultTolerations ++ coll_Tolerations cs;
    pod_Affinity := coll_Affinity cs;
    pod_Volumes := [{| vol_Name := metricsVolumeName; vol_Source := VSecret (SecretMetrics (f_ResourceNames f)) |};
                    {| vol_Name := tmpVolumeName; vol_Source := VEmptyDir "Memory" |}];
    pod_Containers := [] |} in
  let podSpec :=
    if f_isDaemonset f then add_volumes podSpec (hostVolumes (spec_Inputs spec)) else podSpec in
  let '(podSpec, secretVolumes) := AddSecretVolumes podSpec (f_Secrets f) in
  let '(podSpec, configmapVolumes) := AddConfigmapVolumes podSpec (f_ConfigMaps f) in
  needsToken ← NeedServiceAccountToken (spec_Outputs spec);
  let podSpec := if (needsToken : bool) then AddServiceAccountProjectedVolume podSpec defaultAudience else podSpec in
  let collector := NewCollectorContainer f (spec_Inputs spec) needsToken secretVolumes configmapVolumes clusterID in
  let '(collector, podSpec) := addTrustedCABundle collector podSpec trustedCABundle in
  let '(collector, podSpec) :=
    f_Visit f collector podSpec (f_ResourceNames f) namespace (LogLevel (f_annotations f)) in
  Ret (set_containers podSpec [collector]).
End factory.

(** ** Objects ([internal/runtime], [internal/factory]) *)

Record PodTemplate := {
  tpl_Labels : gmap string string;
  tpl_Annotations : gmap string string;
  tpl_Spec : PodSpec;
}.

Record DaemonSetObject := {
  ds_Namespace : string;
  ds_Name : string;
  ds_Labels : gmap string string;
  ds_Owners : list OwnerReference;
  ds_Selector : gmap string string;
  ds_Template : PodTemplate;
  ds_UpdateStrategy : string;
  ds_MaxUnavailable : IntOrString;
}.

Record DeploymentObject := {
  dpl_Namespace : string;
  dpl_Name : string;
  dpl_Labels : gmap string string;
  dpl_Owners : list OwnerReference;
  dpl_Selector : gmap string string;
  dpl_Template : PodTemplate;
  dpl_Replicas : Z;
}.

(** [Initialize]: the visitors run in their order on an object without labels. *)
Definition initial_labels (visitors : list visitor) : gmap string string :=
  foldl (λ labels visit, visit labels) ∅ visitors.

Definition management_annotations : gmap string string :=
  {["target.workload.openshift.io/management" := raw "{`effect`: `PreferredDuringScheduling`}"]}.

(** [factory.NewDaemonSet]: the labels of the pods are those of the daemon set. *)
Definition factory_NewDaemonSet (namespace daemonsetName instanceName component impl : string)
    (maxUnavailable : IntOrString) (podSpec : PodSpec) (visitors : list visitor) : DaemonSetObject :=
  let selectors := Selectors instanceName component impl in
  let labels := initial_labels visitors in {|
  ds_Namespace := namespace; ds_Name := daemonsetName; ds_Labels := labels; ds_Owners := [];
  ds_Selector := selectors;
  ds_Template := {| tpl_Labels := labels; tpl_Annotations := management_annotations; tpl_Spec := podSpec |};
  ds_UpdateStrategy := "RollingUpdate"; ds_MaxUnavailable := maxUnavailable |}.

(** [factory.NewDeployment]: the labels of the pods are the selectors. *)
Definition factory_NewDeployment (namespace deploymentName component impl : string) (replicas : Z)
    (podSpec : PodSpec) (visitors : list visitor) : DeploymentObject :=
  let selectors := Selectors deploymentName component impl in {|
  dpl_Namespace := namespace; dpl_Name := deploymentName; dpl_Labels := initial_labels visitors; dpl_Owners := [];
  dpl_Selector := selectors;
  dpl_Template := {| tpl_Labels := selectors; tpl_Annotations := management_annotations; tpl_Spec := podSpec |};
  dpl_Replicas := replicas |}.

Definition annotate (t : PodTemplate) (key value : string) : PodTemplate := {|
  tpl_Labels := tpl_Labels t; tpl_Annotations := <[key := value]> (tpl_Annotations t); tpl_Spec := tpl_Spec t |}.

Section workloads.
Context `{RangeOrder} (Getenv : string → string) (ExtraNoProxyList drop : list string) (Parse : string → IntOrString).

Definition hash_template (f : Factory) (t : PodTemplate) : PodTemplate :=
  annotate (annotate t AnnotationSecretHash (Secrets_Hash64a (f_Secrets f)))
    AnnotationConfigMapHash (ConfigMaps_Hash64a (f_ConfigMaps f)).

Definition NewDaemonSet (f : Factory) (namespace name : string) (trustedCABundle : option ConfigMap) :
    outcome DaemonSetObject :=
  podSpec ← NewPodSpec Getenv ExtraNoProxyList drop f trustedCABundle (f_ForwarderSpec f) (f_ClusterID f) namespace;
  let ds := factory_NewDaemonSet namespace name name CollectorName VectorName (MaxUnavailable Parse f) podSpec
    [f_CommonLabelInitializer f; f_PodLabelVisitor f] in
  Ret {| ds_Namespace := ds_Namespace ds; ds_Name := ds_Name ds; ds_Labels := ds_Labels ds; ds_Owners := ds_Owners ds;
    ds_Selector := ds_Selector ds; ds_Template := hash_template f (ds_Template ds);
    ds_UpdateStrategy := ds_UpdateStrategy ds; ds_MaxUnavailable := ds_MaxUnavailable ds |}.

Definition NewDeployment (f : Factory) (namespace name : string) (trustedCABundle : option ConfigMap) :
    outcome DeploymentObject :=
  podSpec ← NewPodSpec Getenv ExtraNoProxyList drop f trustedCABundle (f_ForwarderSpec f) (f_ClusterID f) namespace;
  let dpl := factory_NewDeployment namespace name CollectorName VectorName 2 podSpec
    [f_CommonLabelInitializer f; f_PodLabelVisitor f] in
  Ret {| dpl_Namespace := dpl_Namespace dpl; dpl_Name := dpl_Name dpl; dpl_Labels := dpl_Labels dpl;
    dpl_Owners := dpl_Owners dpl; dpl_Selector := dpl_Selector dpl; dpl_Template := hash_template f (dpl_Template dpl);
    dpl_Replicas := dpl_Replicas dpl |}.
End workloads.

(** ** The configuration ([config.go]) *)

Definition ConfigFile : string := "vector.toml".

(** [run-vector.sh], with the directory of the data. *)
Definition RunVectorScript (dataDir : string) : string := "#!/bin/bash

set -uo pipefail

# The directory used for persisting Vector state, such as on-disk buffers, file checkpoints, and more.
VECTOR_DATA_DIR=" +:+ dataDir +:+ raw "
echo `Creating the directory used for persisting Vector state $VECTOR_DATA_DIR`
mkdir -p ${VECTOR_DATA_DIR}

echo `Starting Vector process...`
exec /usr/bin/vector --config-toml /etc/vector/vector.toml
".

(** What is read of a config map of the collector's configuration. *)
Record ConfigMapObject := {
  cmo_Namespace : string;
  cmo_Name : string;
  cmo_Labels : gmap string string;
  cmo_Annotations : gmap string string;
  cmo_Owners : list OwnerReference;
  cmo_Data : gmap string string;
}.

(** The config map [ReconcileCollectorConfig] asks for. *)
Definition collector_config_map (f : Factory) (namespace collectorConfig : string) (owner : OwnerReference) :
    ConfigMapObject := {|
  cmo_Namespace := namespace; cmo_Name := ConfigMapName (f_ResourceNames f);
  cmo_Labels := initial_labels [f_CommonLabelInitializer f]; cmo_Annotations := ∅;
  cmo_Owners := AddOwnerRef [] owner;
  cmo_Data := {[ConfigFile := collectorConfig;
    RunVectorFile := RunVectorScript (GetDataPath namespace (ForwarderName (f_ResourceNames f)))]} |}.
