(* ===== verification/WorkloadSpec.v ===== *)
(** * What the workload of the collector is

    The properties of [Workload]: the files the configuration reads are mounted, volumes
    and mounts correspond, their names, and the labels the selectors of the objects of a
    forwarder match. *)

From S2P Require Import Prelude GoStrings ApiCommon ApiInputs ApiOutputs ApiForwarder Sets ObsResources ObsInputs ObsOutputs.
From S2P Require Import ValidateOutputs Reconcile AwsAuth VrlText VectorHelpers Transforms ContainerPaths Tls Network.
From S2P Require Import Sources SourcesSpec Config InputServices Md5 Workload.

(** ** The files the sources read *)

(** The files a source of the collector reads on its node.  A source of containers without
    patterns reads every log of the directory of the pods. *)
Definition files_read (s : source) : list string :=
  match s with
  | SFile f => file_Include f
  | SKubernetesLogs k => "/var/log/pods/" :: kl_IncludePathsGlobPatterns k
  | SJournald j => [jd_JournalDirectory j]
  | _ => []
  end.

Definition under (path dir : string) : Prop := path = dir ∨ HasPrefix path (dir +:+ "/") = true.

(** A directory of the node, mounted where it is. *)
Definition reachable (inputs : list InputSpec) (path : string) : Prop :=
  ∃ m, m ∈ hostMounts inputs ∧ under path (vm_MountPath m).

Definition reads_reachable (inputs : list InputSpec) (s : source) : Prop :=
  ∀ p, p ∈ files_read s → reachable inputs p.

Definition pods_path (p : string) : Prop := HasPrefix p "/var/log/pods/" = true.

Section built.
Context `{RangeOrder}.

Lemma Build_pods b excludeNS p :
  (∀ p, p ∈ gb_paths b → pods_path p) → p ∈ Build b excludeNS → pods_path p.
Proof.
  intros Hb Hp. destruct (Build_spec b excludeNS) as (_ & _ & [Hs|[Hs _]]);
    [|by rewrite Hs in Hp; apply not_elem_of_nil in Hp].
  apply Hs in Hp. unfold build_path, pods_path in *.
  destruct Hp as [?|[(x & _ & ->)|[(_ & n & _ & ->)|[(_ & c & _ & ->)|(n & c & _ & _ & ->)]]]];
    [by apply Hb|apply (HasPrefix_app "/var/log/pods/")..].
Qed.

Lemma AddCombined_gb_paths b l : gb_paths (AddCombined b l) = gb_paths b.
Proof. reflexivity. Qed.

Lemma application_includes_pods app p :
  p ∈ Build (application_builders app).1 [] → pods_path p.
Proof.
  apply Build_pods. rewrite application_builders_eq. cbn [fst]. rewrite AddCombined_gb_paths. by intros q ?%not_elem_of_nil.
Qed.

Lemma infrastructure_includes_pods p :
  p ∈ Build (AddNamespaces NewContainerPathGlobBuilder infraNamespaces) [] → pods_path p.
Proof. apply Build_pods. by intros q ?%not_elem_of_nil. Qed.
End built.

Section reads.
Context (inputs : list InputSpec).

Definition all_reachable (st : sources_state) : Prop := ∀ id s, st.1.1 !! id = Some s → reads_reachable inputs s.

Lemma all_reachable_start i : all_reachable (∅, ∅, i).
Proof. intros id s. cbn [fst]. by rewrite lookup_empty. Qed.

Lemma add_source_reachable st m :
  all_reachable st → reads_reachable inputs m.1.1.2 → all_reachable (add_source st m).
Proof.
  destruct st as [[srcs tfs] cur], m as [[[base src] ctfs] i']. intros Hst Hm id s. cbn [add_source fst snd] in *.
  intros [[<- <-]|[_ Hs]]%lookup_insert_Some; [done|by apply (Hst id)].
Qed.

(** What is asked of a step that may add a source. *)
Lemma add_if_reachable (asked : bool) make st st' :
  all_reachable st → add_if asked make st = Ret st' →
  (∀ i m, asked = true → make i = Ret m → reads_reachable inputs m.1.1.2) → all_reachable st'.
Proof.
  unfold add_if. destruct asked; [|by intros ? [= <-]]. intros Hst (m & Em & [= <-])%bind_ret_inv Hm.
  apply add_source_reachable; [done|]. by eapply Hm.
Qed.

Lemma NewContainerSource_files `{RangeOrder} i includes excludes ty ls m :
  NewContainerSource i includes excludes ty ls = Ret m → files_read m.1.1.2 = "/var/log/pods/" :: includes.
Proof.
  unfold NewContainerSource. destruct (LabelSelectorFrom _) as [labels sel]. intros (po & _ & E)%bind_ret_inv.
  destruct po as [rate []]; injection E as <-; reflexivity.
Qed.

Lemma host_reachable (source : string * string) (paths : list string) :
  host_mount source ∈ hostMounts inputs → (∀ p, p ∈ paths → under p source.2) →
  ∀ p, p ∈ paths → reachable inputs p.
Proof. intros Hm Hp p Hin. exists (host_mount source). split; [done|by apply Hp]. Qed.

Lemma pods_reachable includes :
  HasContainerSource inputs = true → (∀ p, p ∈ includes → pods_path p) →
  ∀ p, p ∈ "/var/log/pods/" :: includes → reachable inputs p.
Proof.
  intros Hc Hi. apply (host_reachable sourcePods).
  - unfold hostMounts. rewrite Hc. by left.
  - intros p [->|Hp]%elem_of_cons; right; [done|by apply Hi].
Qed.

Lemma asked_mount (b : bool) (l l1 l2 : list VolumeMount) m :
  b = true → m ∈ l → m ∈ l1 ++ (if b then l else []) ++ l2.
Proof. intros -> Hm. apply elem_of_app. right. apply elem_of_app. by left. Qed.
End reads.

(** What validation says of the sections of an input of a type of its own. *)
Record section_present (i : InputSpec) : Prop := {
  sp_infra : in_Type i = InputTypeInfrastructure → is_Some (in_Infrastructure i);
  sp_audit : in_Type i = InputTypeAudit → is_Some (in_Audit i);
}.

Lemma HasAuditSource_asked inputs i src :
  i ∈ inputs → in_Type i = InputTypeAudit → is_Some (in_Audit i) → Has (audit_sources i) src = true →
  src ∈ AuditSources → HasAuditSource inputs src = true.
Proof.
  intros Hi Ht [audit Ha] Hs Hin. apply existsb_exists. exists i. split; [by apply list_elem_of_In|].
  rewrite Ha, Ht. cbn [String.eqb Ascii.eqb Bool.eqb andb]. apply orb_true_iff. left.
  unfold audit_sources in Hs. rewrite Ha in Hs. apply orb_true_iff.
  destruct (length (audit_Sources audit) =? 0)%nat eqn:El; [by right|]. left.
  destruct (size_zero (NewString (audit_Sources audit))) as [E|E]; [|done].
  exfalso. destruct (audit_Sources audit) as [|x l]; [done|].
  assert (x ∈ NewString (x :: l)) as Hx by (apply elem_of_NewString; by left). rewrite E in Hx. set_solver.
Qed.

Lemma infra_has_source_asked i src :
  in_Type i = InputTypeInfrastructure → is_Some (in_Infrastructure i) → Has (infra_sources i) src = true →
  infra_has_source i src = true.
Proof.
  intros Ht [infra Hi] Hs. unfold infra_has_source. rewrite Hi, Ht. cbn [String.eqb Ascii.eqb Bool.eqb andb].
  unfold infra_sources in Hs. rewrite Hi in Hs. apply orb_true_iff.
  destruct (length (infra_Sources infra) =? 0)%nat eqn:El; [by left|]. right.
  destruct (size_zero (NewString (infra_Sources infra))) as [E|E]; [|done].
  exfalso. destruct (infra_Sources infra) as [|x l]; [done|].
  assert (x ∈ NewString (x :: l)) as Hx by (apply elem_of_NewString; by left). rewrite E in Hx. set_solver.
Qed.

(** The mount of a directory that is asked for. *)
Ltac find_mount H := unfold hostMounts; rewrite H, !elem_of_app, ?list_elem_of_singleton; cbn; auto 12.

Section asked.
Context (inputs : list InputSpec).

Lemma auditd_reachable i :
  HasAuditSource inputs AuditSourceAuditd = true → reads_reachable inputs (NewAuditAuditdSource i).1.1.2.
Proof.
  intros Ha. unfold reads_reachable. apply (host_reachable inputs sourceAuditd); [find_mount Ha|].
  intros p ->%list_elem_of_singleton. by right.
Qed.

Lemma kube_reachable i :
  HasAuditSource inputs AuditSourceKube = true → reads_reachable inputs (NewK8sAuditSource i).1.1.2.
Proof.
  intros Ha. unfold reads_reachable. apply (host_reachable inputs sourceKubeAPIServer); [find_mount Ha|].
  intros p ->%list_elem_of_singleton. by right.
Qed.

Lemma ovn_reachable i :
  HasAuditSource inputs AuditSourceOVN = true → reads_reachable inputs (NewOVNAuditSource i).1.1.2.
Proof.
  intros Ha. unfold reads_reachable. apply (host_reachable inputs sourceAuditOVN); [find_mount Ha|].
  intros p ->%list_elem_of_singleton. by right.
Qed.

Lemma openshift_reachable i :
  HasAuditSource inputs AuditSourceOpenShift = true → reads_reachable inputs (NewOpenshiftAuditSource i).1.1.2.
Proof.
  intros Ha p. cbn [NewOpenshiftAuditSource audit_source audit_file fst snd files_read file_Include].
  rewrite !elem_of_cons, elem_of_nil. intros [->|[->|[->|[]]]].
  - exists (host_mount sourceOAuthAPIServer). split; [find_mount Ha|by right].
  - exists (host_mount sourceOpenshiftAPIServer). split; [find_mount Ha|by right].
  - exists (host_mount sourceOAuthServer). split; [find_mount Ha|by right].
Qed.

Lemma journal_reachable i : HasJournalSource inputs = true → reads_reachable inputs (NewJournalInput i).1.1.2.
Proof.
  intros Ha. unfold reads_reachable. apply (host_reachable inputs sourceJournal); [find_mount Ha|].
  intros p ->%list_elem_of_singleton. by left.
Qed.

Lemma container_reachable `{RangeOrder} i includes excludes ty ls m :
  HasContainerSource inputs = true → (∀ p, p ∈ includes → pods_path p) →
  NewContainerSource i includes excludes ty ls = Ret m → reads_reachable inputs m.1.1.2.
Proof.
  intros Hc Hp E p. rewrite (NewContainerSource_files _ _ _ _ _ _ E). by apply pods_reachable.
Qed.

Lemma receiver_reachable `{Host} parse_url i secrets op m :
  NewViaqReceiverSource parse_url i secrets op = Ret m → reads_reachable inputs m.1.1.2.
Proof.
  unfold NewViaqReceiverSource. intros (tls & _ & E)%bind_ret_inv. apply bind_ret_inv in E as (r & _ & E).
  case_match; [injection E as <-; by intros p ?%not_elem_of_nil|].
  case_match; [injection E as <-; by intros p ?%not_elem_of_nil|done].
Qed.
End asked.

(** A source of an input of the spec reads only what is mounted. *)
Lemma NewSource_reachable `{RangeOrder, OpenshiftTLS, Host} parse_url inputs i secrets op st op' :
  i ∈ inputs → section_present i → NewSource parse_url (NewInput i) secrets op = Ret (st, op') →
  all_reachable inputs st.
Proof.
  intros Hi [Hinf Haud]. unfold NewSource. intros (o & _ & E)%bind_ret_inv.
  apply bind_ret_inv in E as (st' & E & [= <- <-]). cbn [NewInput i_Spec] in E.
  pose proof (all_reachable_start inputs (NewInput i)) as Hstart.
  assert (∀ src, src ∈ AuditSources → in_Type i = InputTypeAudit → Has (audit_sources i) src = true →
    HasAuditSource inputs src = true) as Haudit by (intros src ? Ht ?; apply (HasAuditSource_asked inputs i src); auto).
  assert (∀ src, in_Type i = InputTypeInfrastructure → Has (infra_sources i) src = true →
    existsb (λ i, infra_has_source i src) inputs = true) as Hinfra.
  { intros src Ht Hs. apply existsb_exists. exists i. split; [by apply list_elem_of_In|].
    apply infra_has_source_asked; auto. }
  destruct (String.eqb_spec (in_Type i) InputTypeApplication) as [Ht|_].
  { destruct (application_builders _) as [ib eb] eqn:Eb. apply bind_ret_inv in E as (m & Em & <-%Ret_inj).
    apply add_source_reachable; [done|]. eapply container_reachable; [|intros p|exact Em].
    - apply existsb_exists. exists i. rewrite Ht. by split; [apply list_elem_of_In|].
    - change ib with (ib, eb).1. rewrite <-Eb. apply application_includes_pods. }
  destruct (String.eqb_spec (in_Type i) InputTypeInfrastructure) as [Ht|_].
  { apply bind_ret_inv in E as (st1 & E1 & E).
    assert (all_reachable inputs st1) as Hst1.
    { apply (add_if_reachable inputs _ _ _ _ Hstart E1). intros i' m Hasked Em.
      eapply container_reachable; [|intros p; apply infrastructure_includes_pods|exact Em].
      apply existsb_exists. apply Hinfra, existsb_exists in Hasked as (j & Hj & Hs); [|done].
      exists j. by rewrite Hs, orb_true_r. }
    apply (add_if_reachable inputs _ _ _ _ Hst1 E). intros i' m Hasked [= <-]. by apply journal_reachable, Hinfra. }
  destruct (String.eqb_spec (in_Type i) InputTypeAudit) as [Ht|_].
  { apply bind_ret_inv in E as (st1 & E1 & E). apply bind_ret_inv in E as (st2 & E2 & E).
    apply bind_ret_inv in E as (st3 & E3 & E). unfold AuditSources in Haudit.
    assert (all_reachable inputs st1) as Hst1.
    { apply (add_if_reachable inputs _ _ _ _ Hstart E1). intros i' m Ha [= <-]. apply auditd_reachable, Haudit; set_solver. }
    assert (all_reachable inputs st2) as Hst2.
    { apply (add_if_reachable inputs _ _ _ _ Hst1 E2). intros i' m Ha [= <-]. apply kube_reachable, Haudit; set_solver. }
    assert (all_reachable inputs st3) as Hst3.
    { apply (add_if_reachable inputs _ _ _ _ Hst2 E3). intros i' m Ha [= <-]. apply openshift_reachable, Haudit; set_solver. }
    apply (add_if_reachable inputs _ _ _ _ Hst3 E). intros i' m Ha [= <-]. apply ovn_reachable, Haudit; set_solver. }
  destruct (in_Type i == InputTypeReceiver); [|by injection E as <-].
  apply bind_ret_inv in E as (m & Em & <-%Ret_inj). apply add_source_reachable; [done|]. by eapply receiver_reachable.
Qed.

(** ** Volumes and mounts *)

Definition backed := (Volume * VolumeMount)%type.

(** A volume and its mount, under one name. *)
Definition pair_of (name : string) (source : VolumeSource) (readOnly : bool) (path sub : string) : backed :=
  ({| vol_Name := name; vol_Source := source |},
   {| vm_Name := name; vm_ReadOnly := readOnly; vm_MountPath := path; vm_SubPath := sub |}).

Definition host_pair (source : string * string) : backed := (host_volume source, host_mount source).

(** The directories of the node. *)
Definition host_dirs (inputs : list InputSpec) : list (string * string) :=
  (if HasContainerSource inputs then [sourcePods] else [])
  ++ (if HasJournalSource inputs then [sourceJournal] else [])
  ++ (if HasAuditSource inputs AuditSourceAuditd then [sourceAuditd] else [])
  ++ (if HasAuditSource inputs AuditSourceKube then [sourceKubeAPIServer] else [])
  ++ (if HasAuditSource inputs AuditSourceOpenShift
      then [sourceOpenshiftAPIServer; sourceOAuthServer; sourceOAuthAPIServer] else [])
  ++ (if HasAuditSource inputs AuditSourceOVN then [sourceAuditOVN] else []).

Lemma host_volumes_dirs inputs : hostVolumes inputs = host_volume <$> host_dirs inputs.
Proof. unfold hostVolumes, host_dirs. rewrite !fmap_app. by repeat case_match. Qed.

Lemma host_mounts_dirs inputs : hostMounts inputs = host_mount <$> host_dirs inputs.
Proof. unfold hostMounts, host_dirs. rewrite !fmap_app. by repeat case_match. Qed.

Definition secret_pair (name : string) : backed :=
  pair_of (sanitizeVolumeName name) (VSecret name) true (SecretBasePath name) "".

Definition configmap_pair (name : string) : backed :=
  pair_of (sanitizeVolumeName ("config-" +:+ name)) (VConfigMap {| cmv_Name := name; cmv_Items := [] |}) true
    (ConfigMapBasePath name) "".

Definition token_pair : backed :=
  pair_of saTokenVolumeName (VProjected [{| satp_Audience := defaultAudience;
    satp_ExpirationSeconds := saTokenExpirationSecs; satp_Path := TokenKey |}]) true ServiceAccountSecretPath "".

Definition trusted_pair (cm : ConfigMap) : backed :=
  pair_of VolumeNameTrustedCA (VConfigMap {| cmv_Name := cm_Name cm;
    cmv_Items := [{| ktp_Key := TrustedCABundleKey; ktp_Path := TrustedCABundleMountFile |}] |}) true
    TrustedCABundleMountDir "".

Definition trusted_pairs (ca : option ConfigMap) : list backed :=
  match ca, hasTrustedCABundle ca with Some cm, Some _ => [trusted_pair cm] | _, _ => [] end.

Definition config_pairs (names : ForwarderResourceNames) (namespace : string) : list backed :=
  let config := VConfigMap {| cmv_Name := ConfigMapName names; cmv_Items := [] |} in
  let dataPath := GetDataPath namespace (ForwarderName names) in
  [pair_of ConfigVolumeName config true vectorConfigPath "";
   pair_of DataDirName (VHostPath dataPath) false dataPath "";
   pair_of EntrypointVolumeName config true entrypointValue RunVectorFile].

Definition base_pairs (names : ForwarderResourceNames) : list backed :=
  [pair_of metricsVolumeName (VSecret (SecretMetrics names)) true metricsVolumePath "";
   pair_of tmpVolumeName (VEmptyDir "Memory") false tmpPath ""].

Section pod.
Context `{RangeOrder} (Getenv : string → string) (ExtraNoProxyList drop : list string).

Definition made_pairs (f : Factory) : list backed :=
  (secret_pair <$> Secrets_Names (f_Secrets f)) ++ (configmap_pair <$> ConfigMaps_Names (f_ConfigMaps f)).

Definition pairs (f : Factory) (ca : option ConfigMap) (spec : ClusterLogForwarderSpec) (namespace : string)
    (needsToken : bool) : list backed :=
  base_pairs (f_ResourceNames f)
  ++ (if f_isDaemonset f then host_pair <$> host_dirs (spec_Inputs spec) else [])
  ++ made_pairs f ++ (if needsToken then [token_pair] else []) ++ trusted_pairs ca
  ++ config_pairs (f_ResourceNames f) namespace.

Lemma TrimPrefix_app pre s : TrimPrefix (pre +:+ s) pre = s.
Proof. unfold TrimPrefix. by rewrite (proj2 (CutPrefix_spec (pre +:+ s) pre s) eq_refl). Qed.

Lemma addTrustedCABundle_pairs c p ca :
  con_VolumeMounts (addTrustedCABundle c p ca).1 = con_VolumeMounts c ++ (trusted_pairs ca).*2 ∧
  pod_Volumes (addTrustedCABundle c p ca).2 = pod_Volumes p ++ (trusted_pairs ca).*1.
Proof.
  unfold addTrustedCABundle, trusted_pairs. destruct ca as [cm|]; [|by rewrite !app_nil_r].
  destruct (hasTrustedCABundle (Some cm)); [done|by rewrite !app_nil_r].
Qed.

Lemma CollectorVisitor_pairs c p names namespace level :
  con_VolumeMounts (CollectorVisitor c p names namespace level).1 = con_VolumeMounts c ++ (config_pairs names namespace).*2 ∧
  pod_Volumes (CollectorVisitor c p names namespace level).2 = pod_Volumes p ++ (config_pairs names namespace).*1.
Proof. done. Qed.

Lemma NewCollectorContainer_mounts f inputs needs secretVolumes configmapVolumes clusterID :
  con_VolumeMounts (NewCollectorContainer Getenv ExtraNoProxyList drop f inputs needs secretVolumes configmapVolumes clusterID) =
  (base_pairs (f_ResourceNames f)).*2 ++ (if f_isDaemonset f then hostMounts inputs else [])
  ++ ((λ n, (secret_pair n).2) <$> secretVolumes)
  ++ ((λ v, {| vm_Name := sanitizeVolumeName v; vm_ReadOnly := true;
        vm_MountPath := ConfigMapBasePath (TrimPrefix v "config-"); vm_SubPath := "" |}) <$> configmapVolumes)
  ++ (if needs then [token_pair.2] else []).
Proof.
  unfold NewCollectorContainer. destruct (f_isDaemonset f), needs; cbn [AddVolumeMounts add_mounts AddSecurityContextTo
    con_VolumeMounts fmap list_fmap]; by rewrite <-?app_assoc, ?app_nil_r.
Qed.

(** A pod is made if the outputs are as the API server admits them. *)
Lemma NewPodSpec_returns f ca spec clusterID namespace :
  (∀ o, o ∈ spec_Outputs spec → output_admitted o) →
  returns (NewPodSpec Getenv ExtraNoProxyList drop f ca spec clusterID namespace).
Proof.
  intros Ho. unfold NewPodSpec, AddSecretVolumes, AddConfigmapVolumes.
  apply returns_bind; [by apply NeedServiceAccountToken_returns|]. intros needs _.
  destruct (addTrustedCABundle _ _ _) as [c p]. destruct (f_Visit f _ _ _ _ _) as [c' p']. apply returns_ret.
Qed.

Lemma NewPodSpec_pairs f ca spec clusterID namespace pod :
  f_Visit f = CollectorVisitor →
  NewPodSpec Getenv ExtraNoProxyList drop f ca spec clusterID namespace = Ret pod →
  ∃ needs c, NeedServiceAccountToken (spec_Outputs spec) = Ret needs ∧ pod_Containers pod = [c] ∧
    pod_Volumes pod = (pairs f ca spec namespace needs).*1 ∧
    con_VolumeMounts c = (pairs f ca spec namespace needs).*2.
Proof.
  intros Hv. unfold NewPodSpec, AddSecretVolumes, AddConfigmapVolumes. intros (needs & Hn & E)%bind_ret_inv.
  rewrite Hv in E. revert E. match goal with |- context [addTrustedCABundle ?c ?p ca] =>
    destruct (addTrustedCABundle_pairs c p ca) as [Hc Hp]; destruct (addTrustedCABundle c p ca) as [c1 p1] end.
  cbn [fst snd] in Hc, Hp. match goal with |- context [CollectorVisitor c1 p1 ?n namespace ?l] =>
    destruct (CollectorVisitor_pairs c1 p1 n namespace l) as [Hc' Hp'];
    destruct (CollectorVisitor c1 p1 n namespace l) as [c2 p2] end.
  cbn [fst snd] in Hc', Hp'. intros <-%Ret_inj. exists needs, c2. split; [done|]. split; [done|].
  cbn [set_containers pod_Volumes]. rewrite Hp', Hc', Hp, Hc, NewCollectorContainer_mounts. clear.
  unfold pairs, made_pairs. rewrite host_mounts_dirs, host_volumes_dirs, !fmap_app, <-!list_fmap_compose. split.
  - destruct (f_isDaemonset f), needs; cbn [add_volumes AddServiceAccountProjectedVolume pod_Volumes fmap list_fmap];
      rewrite <-?app_assoc, <-?list_fmap_compose; cbn; try done.
  - destruct (f_isDaemonset f), needs; rewrite <-?app_assoc, <-?list_fmap_compose; cbn; try done.
Qed.

(** ** Names of volumes *)

(** The names of the volumes every pod has, and of those it may have. *)
Definition always_names : list string :=
  [metricsVolumeName; tmpVolumeName; ConfigVolumeName; DataDirName; EntrypointVolumeName].

Definition reserved_names : list string :=
  always_names ++ [saTokenVolumeName; VolumeNameTrustedCA]
  ++ ((λ s : string * string, s.1) <$> [sourcePods; sourceJournal; sourceAuditd; sourceKubeAPIServer;
        sourceOpenshiftAPIServer; sourceOAuthServer; sourceOAuthAPIServer; sourceAuditOVN]).

(** The names of the volumes of the secrets and config maps. *)
Definition made_names (secrets : Secrets) (configMaps : ConfigMaps) : list string :=
  sanitizeVolumeName <$> (Secrets_Names secrets ++ (String.append "config-" <$> ConfigMaps_Names configMaps)).

Lemma made_pairs_names f : (λ b : backed, vol_Name b.1) <$> made_pairs f = made_names (f_Secrets f) (f_ConfigMaps f).
Proof. unfold made_pairs, made_names. by rewrite !fmap_app, <-!list_fmap_compose. Qed.

(** The other volumes of a pod. *)
Definition fixed_pairs (f : Factory) (ca : option ConfigMap) (spec : ClusterLogForwarderSpec) (namespace : string)
    (needsToken : bool) : list backed :=
  base_pairs (f_ResourceNames f) ++ config_pairs (f_ResourceNames f) namespace
  ++ (if needsToken then [token_pair] else []) ++ trusted_pairs ca
  ++ (if f_isDaemonset f then host_pair <$> host_dirs (spec_Inputs spec) else []).

Lemma pairs_perm f ca spec namespace needs :
  pairs f ca spec namespace needs ≡ₚ fixed_pairs f ca spec namespace needs ++ made_pairs f.
Proof. unfold pairs, fixed_pairs. solve_Permutation. Qed.

Lemma fixed_sublist f ca spec namespace needs :
  ((λ b : backed, vol_Name b.1) <$> fixed_pairs f ca spec namespace needs) `sublist_of` reserved_names.
Proof.
  unfold fixed_pairs, reserved_names. rewrite !fmap_app, app_assoc. apply sublist_app; [done|].
  rewrite app_assoc. apply sublist_app.
  - change [saTokenVolumeName; VolumeNameTrustedCA] with ([saTokenVolumeName] ++ [VolumeNameTrustedCA]).
    unfold trusted_pairs. apply sublist_app; repeat case_match; first [done | apply sublist_nil_l].
  - destruct (f_isDaemonset f); [|apply sublist_nil_l]. unfold host_dirs. rewrite !fmap_app.
    lazymatch goal with |- _ `sublist_of` ?l => change l with ((fst <$> [sourcePods]) ++ (fst <$> [sourceJournal])
      ++ (fst <$> [sourceAuditd]) ++ (fst <$> [sourceKubeAPIServer])
      ++ (fst <$> [sourceOpenshiftAPIServer; sourceOAuthServer; sourceOAuthAPIServer]) ++ (fst <$> [sourceAuditOVN])) end.
    repeat apply sublist_app; case_match; first [done | apply sublist_nil_l].
Qed.

Lemma reserved_NoDup : NoDup reserved_names.
Proof. apply (bool_decide_unpack _). vm_compute. exact I. Qed.

Lemma fixed_NoDup f ca spec namespace needs :
  NoDup ((λ b : backed, vol_Name b.1) <$> fixed_pairs f ca spec namespace needs).
Proof.
  destruct (submseteq_Permutation _ _ (sublist_submseteq _ _ (fixed_sublist f ca spec namespace needs))) as [k Hk].
  pose proof reserved_NoDup as Hnd. rewrite Hk in Hnd. by apply NoDup_app in Hnd as [? _].
Qed.

(** The names are apart if those made of the names of secrets and config maps are, and
    are not reserved; and only if they are, and are not those every pod has. *)
Lemma pairs_NoDup f ca spec namespace needs :
  let made := made_names (f_Secrets f) (f_ConfigMaps f) in
  (NoDup made → (∀ n, n ∈ made → n ∉ reserved_names) →
     NoDup ((λ b : backed, vol_Name b.1) <$> pairs f ca spec namespace needs)) ∧
  (NoDup ((λ b : backed, vol_Name b.1) <$> pairs f ca spec namespace needs) →
     NoDup made ∧ ∀ n, n ∈ made → n ∉ always_names).
Proof.
  cbv zeta. rewrite (pairs_perm f ca spec namespace needs), fmap_app, made_pairs_names, NoDup_app. split.
  - intros Hm Hr. split; [apply fixed_NoDup|]. split; [|done]. intros n Hf Hn. apply (Hr n Hn).
    by eapply elem_of_sublist, fixed_sublist.
  - intros (_ & Hd & Hm). split; [done|]. intros n Hn Ha. apply (Hd n); [|done]. clear -Ha.
    unfold fixed_pairs. rewrite app_assoc, fmap_app. apply elem_of_app. left.
    cbn in *. set_solver.
Qed.

Lemma made_in_pairs f ca spec namespace needs b : b ∈ made_pairs f → b ∈ pairs f ca spec namespace needs.
Proof. intros Hb. rewrite (pairs_perm f ca spec namespace needs). apply elem_of_app. by right. Qed.

Lemma pairs_named f ca spec namespace needs b :
  b ∈ pairs f ca spec namespace needs →
  vol_Name b.1 = vm_Name b.2 ∧ (vm_ReadOnly b.2 = false → vm_Name b.2 ∈ [tmpVolumeName; DataDirName]).
Proof.
  assert (∀ name src ro path sub, (ro = false → name ∈ [tmpVolumeName; DataDirName]) →
    vol_Name (pair_of name src ro path sub).1 = vm_Name (pair_of name src ro path sub).2 ∧
    (vm_ReadOnly (pair_of name src ro path sub).2 = false →
     vm_Name (pair_of name src ro path sub).2 ∈ [tmpVolumeName; DataDirName])) as Hp by done.
  unfold pairs, made_pairs, base_pairs, config_pairs, trusted_pairs. rewrite !elem_of_app.
  intros [Hb|[Hb|[[Hb|Hb]|[Hb|[Hb|Hb]]]]].
  - apply elem_of_cons in Hb as [->| ->%list_elem_of_singleton]; apply Hp; [done|by left].
  - case_match; [|by apply not_elem_of_nil in Hb]. by apply list_elem_of_fmap in Hb as (d & -> & _).
  - apply list_elem_of_fmap in Hb as (n & -> & _). by apply Hp.
  - apply list_elem_of_fmap in Hb as (n & -> & _). by apply Hp.
  - case_match; [|by apply not_elem_of_nil in Hb]. apply list_elem_of_singleton in Hb as ->. by apply Hp.
  - repeat case_match; try by apply not_elem_of_nil in Hb. apply list_elem_of_singleton in Hb as ->. by apply Hp.
  - rewrite !elem_of_cons, elem_of_nil in Hb. destruct Hb as [->|[->|[->|[]]]]; apply Hp; [done|by right; left|done].
Qed.

(** C9. A pod is made for every spec that the API server admits, and its volumes and the
    mounts of its one container correspond: they have the same names in the same order, every secret and every config map has its volume and is
    mounted at the path the configuration names, and only the temporary directory and that
    of the data can be written.  The names of volumes have to be distinct: they are if those
    of the secrets and config maps are without their dots and none of them is reserved, and
    only if they are and none is that of a volume every pod has. *)
Theorem NewPodSpec_volumes f ca spec clusterID namespace :
  f_Visit f = CollectorVisitor → (∀ o, o ∈ spec_Outputs spec → output_admitted o) →
  let made := made_names (f_Secrets f) (f_ConfigMaps f) in
  ∃ pod c, NewPodSpec Getenv ExtraNoProxyList drop f ca spec clusterID namespace = Ret pod ∧ pod_Containers pod = [c] ∧
    vol_Name <$> pod_Volumes pod = vm_Name <$> con_VolumeMounts c ∧
    (∀ n, is_Some (f_Secrets f !! n) →
       (secret_pair n).1 ∈ pod_Volumes pod ∧ (secret_pair n).2 ∈ con_VolumeMounts c) ∧
    (∀ n, is_Some (f_ConfigMaps f !! n) →
       (configmap_pair n).1 ∈ pod_Volumes pod ∧ (configmap_pair n).2 ∈ con_VolumeMounts c) ∧
    (∀ m, m ∈ con_VolumeMounts c → vm_ReadOnly m = false → vm_Name m ∈ [tmpVolumeName; DataDirName]) ∧
    (NoDup made → (∀ n, n ∈ made → n ∉ reserved_names) → NoDup (vol_Name <$> pod_Volumes pod)) ∧
    (NoDup (vol_Name <$> pod_Volumes pod) → NoDup made ∧ ∀ n, n ∈ made → n ∉ always_names).
Proof.
  intros Hv Ho. cbv zeta. destruct (NewPodSpec_returns f ca spec clusterID namespace Ho) as [pod E].
  destruct (NewPodSpec_pairs _ _ _ _ _ _ Hv E) as (needs & c & _ & Hc & Hvol & Hm).
  destruct (pairs_NoDup f ca spec namespace needs) as [Hnd1 Hnd2]. exists pod, c. split; [done|]. split; [done|].
  set (l := pairs f ca spec namespace needs) in *.
  assert (vol_Name <$> pod_Volumes pod = (λ b : backed, vol_Name b.1) <$> l) as Hnames.
  { by rewrite Hvol, <-list_fmap_compose. }
  assert (∀ b, b ∈ l → b.1 ∈ pod_Volumes pod ∧ b.2 ∈ con_VolumeMounts c) as Hin.
  { intros b Hb. rewrite Hvol, Hm. split; apply list_elem_of_fmap; by exists b. }
  assert (∀ b, b ∈ l → vol_Name b.1 = vm_Name b.2 ∧
    (vm_ReadOnly b.2 = false → vm_Name b.2 ∈ [tmpVolumeName; DataDirName])) as Hpair by apply pairs_named.
  rewrite Hnames. split_and!; [| | | |exact Hnd1|exact Hnd2].
  - rewrite Hm, <-list_fmap_compose. apply list_fmap_ext. intros j b Hb%list_elem_of_lookup_2. by apply Hpair.
  - intros n Hn. apply Hin, made_in_pairs, elem_of_app. left. apply list_elem_of_fmap. exists n.
    split; [done|]. by apply elem_of_sort_strings, elem_of_range_fst.
  - intros n Hn. apply Hin, made_in_pairs, elem_of_app. right. apply list_elem_of_fmap. exists n.
    split; [done|]. by apply elem_of_sort_strings, elem_of_range_fst.
  - intros m Hmem. rewrite Hm in Hmem. apply list_elem_of_fmap in Hmem as (b & -> & Hb). by apply Hpair.
Qed.
End pod.

(** ** The workloads *)

Section workloads.
Context `{RangeOrder} (Getenv : string → string) (ExtraNoProxyList drop : list string) (Parse : string → IntOrString).

Lemma NewDaemonSet_pod f namespace name ca ds :
  NewDaemonSet Getenv ExtraNoProxyList drop Parse f namespace name ca = Ret ds →
  NewPodSpec Getenv ExtraNoProxyList drop f ca (f_ForwarderSpec f) (f_ClusterID f) namespace = Ret (tpl_Spec (ds_Template ds)).
Proof. unfold NewDaemonSet. by intros (pod & -> & <-%Ret_inj)%bind_ret_inv. Qed.

Lemma NewDaemonSet_returns f namespace name ca :
  (∀ o, o ∈ spec_Outputs (f_ForwarderSpec f) → output_admitted o) →
  returns (NewDaemonSet Getenv ExtraNoProxyList drop Parse f namespace name ca).
Proof. intros Ho. apply returns_bind; [by apply NewPodSpec_returns|]. intros. apply returns_ret. Qed.

Lemma NewDeployment_returns f namespace name ca :
  (∀ o, o ∈ spec_Outputs (f_ForwarderSpec f) → output_admitted o) →
  returns (NewDeployment Getenv ExtraNoProxyList drop f namespace name ca).
Proof. intros Ho. apply returns_bind; [by apply NewPodSpec_returns|]. intros. apply returns_ret. Qed.

Lemma host_pair_in f ca spec namespace needs d :
  f_isDaemonset f = true → d ∈ host_dirs (spec_Inputs spec) → host_pair d ∈ pairs f ca spec namespace needs.
Proof.
  intros Hd Hin. unfold pairs. rewrite Hd. apply elem_of_app. right. apply elem_of_app. left.
  apply list_elem_of_fmap. by exists d.
Qed.

(** C8. The pods of the daemon set can read what the configuration tells the collector to
    read.  The daemon set is made for outputs that the API server admits, and for every
    input of the spec that has the section of its type, if that is infrastructure or audit,
    each file or directory a source of the generated configuration reads is under a
    directory of the node that the only container mounts read-only, at the path it has on
    the node. *)
Theorem sources_reachable `{OpenshiftTLS, Host} parse_url hash id coll secrets cms spec names annotations
    namespace name ca :
  (∀ o, o ∈ spec_Outputs spec → output_admitted o) →
  ∃ ds c, NewDaemonSet Getenv ExtraNoProxyList drop Parse (New hash id coll secrets cms spec names true annotations)
    namespace name ca = Ret ds ∧
  let pod := tpl_Spec (ds_Template ds) in
  pod_Containers pod = [c] ∧
  ∀ i op st op' sid s p,
  i ∈ spec_Inputs spec → section_present i →
  NewSource parse_url (NewInput i) secrets op = Ret (st, op') →
  st.1.1 !! sid = Some s → p ∈ files_read s →
  ∃ m v, m ∈ con_VolumeMounts c ∧ v ∈ pod_Volumes pod ∧
    vm_Name m = vol_Name v ∧ vol_Source v = VHostPath (vm_MountPath m) ∧ vm_SubPath m = "" ∧
    vm_ReadOnly m = true ∧ under p (vm_MountPath m).
Proof.
  intros Ho. set (f := New hash id coll secrets cms spec names true annotations) in *.
  assert (f_Visit f = CollectorVisitor) as Hv by done.
  destruct (NewDaemonSet_returns f namespace name ca Ho) as [ds E]. pose proof (NewDaemonSet_pod _ _ _ _ _ E) as Hds.
  destruct (NewPodSpec_pairs _ _ _ _ _ _ _ _ _ Hv Hds) as (needs & c & _ & Hc & Hvol & Hm).
  exists ds, c. split; [exact E|]. split; [exact Hc|]. intros i op st op' sid s p Hi Hsec Hsrc Hs Hp.
  destruct (NewSource_reachable _ _ _ _ _ _ _ Hi Hsec Hsrc sid s Hs p Hp) as (m & Hin & Hu).
  rewrite host_mounts_dirs in Hin. apply list_elem_of_fmap in Hin as (d & -> & Hd).
  exists (host_mount d), (host_volume d).
  apply (host_pair_in f ca spec namespace needs d eq_refl) in Hd.
  rewrite Hvol, Hm. split_and!; [..|done|done|done|done|done]; apply list_elem_of_fmap; by exists (host_pair d).
Qed.

(** The container of the pod has the port of the metrics. *)
Lemma NewPodSpec_ports f ca spec clusterID namespace pod :
  f_Visit f = CollectorVisitor →
  NewPodSpec Getenv ExtraNoProxyList drop f ca spec clusterID namespace = Ret pod →
  ∃ c, pod_Containers pod = [c] ∧ MetricsPortName ∈ cp_Name <$> con_Ports c.
Proof.
  intros Hv. unfold NewPodSpec. destruct (AddSecretVolumes _ _) as [p1 sv]. destruct (AddConfigmapVolumes _ _) as [p2 cv].
  intros (needs & _ & E)%bind_ret_inv. rewrite Hv in E. revert E.
  match goal with |- context [addTrustedCABundle ?c ?p ca] =>
    assert (con_Ports (addTrustedCABundle c p ca).1 = con_Ports c) as Hc; [|destruct (addTrustedCABundle c p ca) as [c1 q]] end.
  { unfold addTrustedCABundle. by repeat case_match. }
  cbn [fst snd] in Hc. intros <-%Ret_inj. eexists. split; [reflexivity|].
  cbn [set_command add_mounts add_env con_Ports]. rewrite Hc. unfold NewCollectorContainer.
  destruct (f_isDaemonset f), needs; by left.
Qed.

(** The capabilities the container of a daemon set drops. *)
Lemma NewPodSpec_drop f ca spec clusterID namespace pod :
  f_isDaemonset f = true → f_Visit f = CollectorVisitor →
  NewPodSpec Getenv ExtraNoProxyList drop f ca spec clusterID namespace = Ret pod →
  ∃ c, pod_Containers pod = [c] ∧ sc_CapabilitiesDrop <$> con_SecurityContext c = Some drop.
Proof.
  intros Hd Hv. unfold NewPodSpec. destruct (AddSecretVolumes _ _) as [p1 sv]. destruct (AddConfigmapVolumes _ _) as [p2 cv].
  intros (needs & _ & E)%bind_ret_inv. rewrite Hv in E. revert E.
  match goal with |- context [addTrustedCABundle ?c ?p ca] =>
    assert (con_SecurityContext (addTrustedCABundle c p ca).1 = con_SecurityContext c) as Hc;
    [|destruct (addTrustedCABundle c p ca) as [c1 q]] end.
  { unfold addTrustedCABundle. by repeat case_match. }
  cbn [fst snd] in Hc. intros <-%Ret_inj. eexists. split; [reflexivity|].
  cbn [set_command add_mounts add_env con_SecurityContext]. rewrite Hc. unfold NewCollectorContainer. rewrite Hd.
  by destruct needs.
Qed.

(** ** Labels *)

Definition selector_list (instance component name : string) : list (string * string) :=
  [(LabelK8sName, name); (LabelK8sInstance, instance); (LabelK8sComponent, component);
   (LabelK8sPartOf, ClusterLogging); (LabelK8sManagedBy, ClusterLoggingOperator)].

Lemma Selectors_lookup instance component name k v :
  Selectors instance component name !! k = Some v ↔ (k, v) ∈ selector_list instance component name.
Proof.
  unfold Selectors. symmetry. apply elem_of_list_to_map. apply (bool_decide_unpack _). by vm_compute.
Qed.

Lemma Selectors_instance instance component name : Selectors instance component name !! LabelK8sInstance = Some instance.
Proof. apply Selectors_lookup. by right; left. Qed.

(** The common labels, on an object that has none of the selectors. *)
Lemma SetCommonLabels_lookup labels name instance component k v :
  (k, v) ∈ selector_list instance component name → labels !! k = None →
  SetCommonLabels labels name instance component !! k = Some v.
Proof.
  intros Hin Hl. unfold SetCommonLabels, AddLabels. rewrite lookup_union_r by done. apply elem_of_list_to_map_1.
  - apply (bool_decide_unpack _). by vm_compute.
  - lazymatch goal with |- _ ∈ ?l => change l with (selector_list instance component name ++ [(LabelK8sVersion, version)]) end.
    apply elem_of_app. by left.
Qed.

Lemma collector_labels forwarder :
  Selectors forwarder CollectorName VectorName ⊆ initial_labels [CommonLabelInitializer forwarder; PodLogExcludeLabel] ∧
  initial_labels [CommonLabelInitializer forwarder; PodLogExcludeLabel] !! "vector.dev/exclude" = Some "true".
Proof.
  unfold initial_labels. cbn [foldl]. unfold PodLogExcludeLabel, AddLabels, CommonLabelInitializer. split.
  - apply map_subseteq_spec. intros k v Hk%Selectors_lookup. apply lookup_union_Some_l.
    by apply SetCommonLabels_lookup; [|apply lookup_empty].
  - rewrite lookup_union_r; [apply lookup_singleton_eq|]. unfold SetCommonLabels, AddLabels.
    rewrite lookup_union_r by apply lookup_empty. apply not_elem_of_list_to_map.
    apply (bool_decide_unpack _). by vm_compute.
Qed.

Lemma service_name_label forwarder type :
  default "" (foldl (λ labels visit, visit labels) ∅ [withServiceTypeLabel type; CommonLabelInitializer forwarder]
    !! LabelK8sName) = VectorName.
Proof.
  cbn [foldl]. unfold CommonLabelInitializer. erewrite SetCommonLabels_lookup; [done|by left|].
  unfold withServiceTypeLabel, AddLabels. rewrite (left_id_L ∅ (∪)). by apply lookup_singleton_ne.
Qed.

(** Labels that extend the selectors of one forwarder are not selected by those of another. *)
Lemma Selectors_apart instance instance' component component' name name' labels :
  instance' ≠ instance → Selectors instance component name ⊆ labels → ¬ Selectors instance' component' name' ⊆ labels.
Proof.
  intros Hne H1 H2. pose proof (lookup_weaken _ _ _ _ (Selectors_instance instance component name) H1) as L1.
  pose proof (lookup_weaken _ _ _ _ (Selectors_instance instance' component' name') H2) as L2. congruence.
Qed.

(** What selects the pods of a forwarder: its workload, and the service of its metrics. *)
Definition selects_own (forwarder : string) (selector labels : gmap string string) (visit : visitor) : Prop :=
  selector ⊆ labels ∧
  (∀ cert owner, svc_Selector (metrics_service forwarder forwarder CollectorName MetricsPortName cert MetricsPort
     owner visit) ⊆ labels) ∧
  (∀ name cert port type owner, svc_Selector (input_service name forwarder cert port port type owner visit) ⊆ labels) ∧
  (∀ other, other ≠ forwarder → ¬ Selectors other CollectorName VectorName ⊆ labels).

Lemma selectors_own forwarder labels :
  Selectors forwarder CollectorName VectorName ⊆ labels →
  selects_own forwarder (Selectors forwarder CollectorName VectorName) labels (CommonLabelInitializer forwarder).
Proof.
  intros Hs. split; [done|]. split; [|split].
  - intros cert owner. cbn [metrics_service NewService svc_Selector svc_Labels]. by rewrite service_name_label.
  - intros n cert port ty owner. cbn [input_service NewService svc_Selector svc_Labels].
    rewrite lookup_insert_ne by done. by rewrite service_name_label.
  - intros other Hne. by eapply Selectors_apart.
Qed.
(** C28. The selectors of a forwarder's objects and the labels of its pods.  For the names
    the operator derives from a forwarder whose outputs the API server admits, both
    workloads are made; the selector of the daemon set or deployment,
    that of the service of the metrics and those of the services of receivers match the
    labels of the pods; the selector of no other forwarder does; and the port the service
    of the metrics names is one of the container's.  The pods carry the hashes of the
    secrets and config maps, so that a change of these replaces them.  The label that
    excludes the collector's own logs is on the pods of a daemon set, and is not on those
    of a deployment. *)
Theorem workload_selected hash id secrets cms clf spec coll isD annotations namespace ca :
  let names := ResourceNames clf in
  let f := New hash id coll secrets cms spec names isD annotations in
  let own selector t :=
    selects_own (clf_Name clf) selector (tpl_Labels t) (f_CommonLabelInitializer f) ∧
    tpl_Annotations t !! AnnotationSecretHash = Some (Secrets_Hash64a secrets) ∧
    tpl_Annotations t !! AnnotationConfigMapHash = Some (ConfigMaps_Hash64a cms) ∧
    ∀ c, c ∈ pod_Containers (tpl_Spec t) → MetricsPortName ∈ cp_Name <$> con_Ports c in
  (∀ o, o ∈ spec_Outputs spec → output_admitted o) →
  (∃ ds, NewDaemonSet Getenv ExtraNoProxyList drop Parse f namespace (CommonName names) ca = Ret ds ∧
     own (ds_Selector ds) (ds_Template ds) ∧
     tpl_Labels (ds_Template ds) !! "vector.dev/exclude" = Some "true") ∧
  (∃ dpl, NewDeployment Getenv ExtraNoProxyList drop f namespace (CommonName names) ca = Ret dpl ∧
     own (dpl_Selector dpl) (dpl_Template dpl) ∧
     tpl_Labels (dpl_Template dpl) !! "vector.dev/exclude" = None ∧ dpl_Labels dpl !! "vector.dev/exclude" = Some "true").
Proof.
  intros names f own Ho. destruct (collector_labels (clf_Name clf)) as [Hsub Hex].
  assert (∀ labels pod, NewPodSpec Getenv ExtraNoProxyList drop f ca (f_ForwarderSpec f) (f_ClusterID f) namespace = Ret pod →
    Selectors (clf_Name clf) CollectorName VectorName ⊆ labels →
    own (Selectors (clf_Name clf) CollectorName VectorName)
      (hash_template f {| tpl_Labels := labels; tpl_Annotations := management_annotations; tpl_Spec := pod |})) as Hown.
  { intros labels pod Hpod Hl. split_and!.
    - by apply (selectors_own (clf_Name clf)).
    - cbn [hash_template annotate tpl_Annotations]. rewrite lookup_insert_ne by done. apply lookup_insert_eq.
    - apply lookup_insert_eq.
    - intros c Hc. destruct (NewPodSpec_ports f _ _ _ _ _ eq_refl Hpod) as (c' & E & Hp). cbn [hash_template annotate tpl_Spec] in Hc.
      rewrite E in Hc. by apply list_elem_of_singleton in Hc as ->. }
  destruct (NewPodSpec_returns Getenv ExtraNoProxyList drop f ca (f_ForwarderSpec f) (f_ClusterID f) namespace Ho) as [pod Hpod]. split.
  - unfold NewDaemonSet. rewrite Hpod. eexists. split; [reflexivity|]. split; [by apply Hown|exact Hex].
  - unfold NewDeployment. rewrite Hpod. eexists. split; [reflexivity|].
    split; [by apply Hown|]. split; [|exact Hex]. cbn [hash_template annotate tpl_Labels].
    apply eq_None_not_Some. intros [v Hv%Selectors_lookup]. revert Hv. unfold selector_list.
    rewrite !elem_of_cons, elem_of_nil. by intros [[=]|[[=]|[[=]|[[=]|[[=]|[]]]]]].
Qed.
End workloads.

(** ** Examples *)

Definition example_secret (name : string) : Secret := {| secret_Name := name; secret_Data := {["token" := "t"]} |}.

(** A forwarder of the audit logs of the API servers. *)
Definition example_audit : InputSpec := {|
  in_Name := "my-audit"; in_Type := InputTypeAudit; in_Application := None; in_Infrastructure := None;
  in_Audit := Some {| audit_Sources := [AuditSourceOpenShift]; audit_Tuning := None |}; in_Receiver := None |}.

Definition example_spec : ClusterLogForwarderSpec := {|
  spec_ManagementState := ManagementStateManaged; spec_Collector := None; spec_Inputs := [example_audit];
  spec_Outputs := []; spec_Filters := []; spec_Pipelines := []; spec_ServiceAccount := {| sa_Name := "logger" |} |}.

Definition example_clf : ClusterLogForwarder := {|
  clf_Meta := {| meta_Name := "fwd"; meta_Namespace := "logs"; meta_Annotations := ∅; meta_DeletionTimestamp := None |};
  clf_Spec := example_spec; clf_Status := ClusterLogForwarderStatus_zero |}.

Definition example_factory (secrets : list string) : Factory :=
  New "hash" "cluster" None (list_to_map ((λ n, (n, example_secret n)) <$> secrets)) ∅ example_spec
    (ResourceNames example_clf) true ∅.

Definition example_parse (s : string) : IntOrString := FromString s.

#[local] Existing Instances canonical_order example_openshift example_host.

Lemma example_pod secrets :
  ∃ ds, NewDaemonSet (λ _, "") [] [] example_parse (example_factory secrets) "logs" "fwd" None = Ret ds.
Proof. eexists. reflexivity. Qed.

Lemma example_outputs o : o ∈ spec_Outputs example_spec → output_admitted o.
Proof. by intros ?%not_elem_of_nil. Qed.

Lemma sources_reachable_witness :
  ∃ ds st op' s c m, NewDaemonSet (λ _, "") [] [] example_parse (example_factory []) "logs" "fwd" None = Ret ds ∧
    NewSource (λ _, None) (NewInput example_audit) ∅ ∅ = Ret (st, op') ∧
    st.1.1 !! source_id "my-audit" "openshift" = Some s ∧
    pod_Containers (tpl_Spec (ds_Template ds)) = [c] ∧ m ∈ con_VolumeMounts c ∧ vm_ReadOnly m = true ∧
    under "/var/log/oauth-server/audit.log" (vm_MountPath m).
Proof.
  assert ((λ r : sources_state * Options, files_read <$> r.1.1.1 !! source_id "my-audit" "openshift")
    <$> NewSource (λ _, None) (NewInput example_audit) ∅ ∅ = Ret (Some
      ["/var/log/oauth-apiserver/audit.log"; "/var/log/openshift-apiserver/audit.log"; "/var/log/oauth-server/audit.log"]))
    as Hfiles by (vm_compute; reflexivity).
  destruct (NewSource (λ _, None) (NewInput example_audit) ∅ ∅) as [[st op']| |] eqn:Est; [|discriminate Hfiles..].
  apply Ret_inj in Hfiles. cbn [fst] in Hfiles. destruct (st.1.1 !! _) as [s|] eqn:Es; [|discriminate Hfiles].
  injection Hfiles as Hf.
  pose proof (sources_reachable (λ _, "") [] [] example_parse (λ _, None) "hash" "cluster" None ∅ ∅ example_spec
    (ResourceNames example_clf) ∅ "logs" "fwd" None example_outputs) as Hall.
  destruct Hall as (ds & c & Hds & Hc & Hreach).
  destruct (Hreach example_audit ∅ st op' (source_id "my-audit" "openshift") s "/var/log/oauth-server/audit.log")
    as (m & v & Hm & _ & _ & _ & _ & Hro & Hu).
  - by left.
  - by split; [|intros _; eexists].
  - exact Est.
  - exact Es.
  - rewrite Hf. by right; right; left.
  - exists ds, st, op', s, c, m. by split_and!.
Defined.

Lemma NewPodSpec_volumes_witness :
  ∃ pod c, NewPodSpec (λ _, "") [] [] (example_factory ["es"; "logs.v1"]) None example_spec "cluster" "logs" = Ret pod ∧
    pod_Containers pod = [c] ∧ NoDup (vol_Name <$> pod_Volumes pod) ∧
    (secret_pair "logs.v1").2 ∈ con_VolumeMounts c ∧
    vm_MountPath (secret_pair "logs.v1").2 = "/var/run/ocp-collector/secrets/logs.v1".
Proof.
  destruct (NewPodSpec_volumes (λ _, "") [] [] (example_factory ["es"; "logs.v1"]) None example_spec "cluster" "logs"
    eq_refl example_outputs) as (pod & c & Hpod & Hc & _ & Hs & _ & _ & Hnd & _).
  exists pod, c. split; [exact Hpod|]. split; [exact Hc|]. split_and!.
  - apply Hnd; [apply (bool_decide_unpack _); vm_compute; exact I|].
    assert (Forall (λ n, n ∉ reserved_names) (made_names (f_Secrets (example_factory ["es"; "logs.v1"])) ∅)) as Hr.
    { apply (bool_decide_unpack _). vm_compute. exact I. }
    rewrite Forall_forall in Hr. exact Hr.
  - apply Hs. exists (example_secret "logs.v1"). vm_compute. reflexivity.
  - vm_compute. reflexivity.
Defined.

(** Secrets whose names differ in their dots only share the name of their volume, and so
    does a secret that is named as a volume every pod has. *)
Lemma names_collide secrets :
  secrets = ["logs.v1"; "logsv1"] ∨ secrets = ["metrics"] →
  ∃ ds, NewDaemonSet (λ _, "") [] [] example_parse (example_factory secrets) "logs" "fwd" None = Ret ds ∧
    ¬ NoDup (vol_Name <$> pod_Volumes (tpl_Spec (ds_Template ds))).
Proof.
  intros Hs. destruct (example_pod secrets) as [ds Hds]. exists ds. split; [exact Hds|]. apply NewDaemonSet_pod in Hds.
  destruct (NewPodSpec_pairs _ _ _ (example_factory secrets) None _ _ _ _ eq_refl Hds) as (needs & c & Hn & _ & Hv & _). rewrite Hv, <-list_fmap_compose.
  intros Hnd. apply pairs_NoDup in Hnd as [Hm Ha]. destruct Hs as [-> | ->].
  - apply (bool_decide_pack _) in Hm. vm_compute in Hm. exact Hm.
  - apply (Ha "metrics"); [|by left]. apply (bool_decide_unpack _). vm_compute. exact I.
Qed.

Lemma workload_selected_witness :
  ∃ ds, NewDaemonSet (λ _, "") [] [] example_parse (example_factory []) "logs" "fwd" None = Ret ds ∧
    tpl_Labels (ds_Template ds) !! "vector.dev/exclude" = Some "true".
Proof.
  destruct (workload_selected (λ _, "") [] [] example_parse "hash" "cluster" ∅ ∅ example_clf example_spec None true ∅
    "logs" None example_outputs) as [(ds & Hds & _ & Hex) _].
  exists ds. split; [exact Hds|exact Hex].
Defined.
