(* ===== verification/ApiExporter.v ===== *)
(** * Types of the exporter of log file metrics ([api/logging/v1alpha1]) *)

From S2P Require Import Prelude ApiCommon ApiForwarder.

(** [None] is a nil pointer; a nil list of tolerations is told from an empty one. *)
Record LogFileMetricExporterSpec := {
  lfs_Resources : option ResourceRequirements;
  lfs_NodeSelector : gmap string string;
  lfs_Tolerations : option (list Toleration);
  lfs_NetworkPolicy : option string;      (** its rule set *)
}.

Definition ReasonExporterValid : string := "Valid".
Definition ReasonExporterInvalid : string := "Invalid".

Record LogFileMetricExporterStatus := { lfst_Conditions : list Condition }.

Record LogFileMetricExporter := {
  lfme_Name : string;
  lfme_Namespace : string;
  lfme_DeletionTimestamp : option Z;
  lfme_UID : string;
  lfme_Spec : LogFileMetricExporterSpec;
  lfme_Status : LogFileMetricExporterStatus;
}.

Definition lfme_set_Conditions (l : LogFileMetricExporter) (conditions : list Condition) : LogFileMetricExporter := {|
  lfme_Name := lfme_Name l; lfme_Namespace := lfme_Namespace l; lfme_DeletionTimestamp := lfme_DeletionTimestamp l;
  lfme_UID := lfme_UID l; lfme_Spec := lfme_Spec l; lfme_Status := {| lfst_Conditions := conditions |} |}.
