(* ===== verification/Cluster.v ===== *)
(** * The objects of the cluster and the client of its API server

    What the operator reads and writes: the kinds of objects it reconciles, and the
    requests of [sigs.k8s.io/controller-runtime/pkg/client].  The server keeps the objects
    it is given; to any request it may answer with an error, and which it gives is a
    parameter: a conflict, an object a cache does not have yet, or a failure.  A
    computation is a function of the state that ends with a result, with an error that the
    caller handles, or with a panic. *)

From S2P Require Import Prelude GoStrings ApiCommon ApiForwarder ApiExporter Network InputServices Workload.

(** ** Objects *)

Record PolicyRule := {
  pr_APIGroups : list string; pr_Resources : list string; pr_ResourceNames : list string; pr_Verbs : list string }.

Record RoleRef := { rr_APIGroup : string; rr_Kind : string; rr_Name : string }.
Record Subject := { sub_Kind : string; sub_Name : string; sub_Namespace : string }.

Record RoleObject := { role_Rules : list PolicyRule; role_Owners : list OwnerReference }.

Record BindingObject := {
  rb_RoleRef : RoleRef; rb_Subjects : list Subject; rb_Owners : list OwnerReference }.

Record SCCObject := {
  scc_Labels : gmap string string;
  scc_Priority : option Z;
  scc_AllowPrivilegedContainer : bool;
  scc_DefaultAddCapabilities : list string;
  scc_RequiredDropCapabilities : list string;
  scc_AllowedCapabilities : list string;
  scc_AllowHostDirVolumePlugin : bool;
  scc_Volumes : list string;
  scc_AllowedFlexVolumes : list string;
  scc_AllowHostNetwork : bool;
  scc_AllowHostPorts : bool;
  scc_AllowHostPID : bool;
  scc_AllowHostIPC : bool;
  scc_DefaultAllowPrivilegeEscalation : option bool;
  scc_AllowPrivilegeEscalation : option bool;
  scc_SELinuxContext : string;      (** the type of the strategy, as in the next three *)
  scc_RunAsUser : string;
  scc_SupplementalGroups : string;
  scc_FSGroup : string;
  scc_ReadOnlyRootFilesystem : bool;
  scc_Users : list string;
  scc_Groups : list string;
  scc_SeccompProfiles : list string;
  scc_AllowedUnsafeSysctls : list string;
  scc_ForbiddenSysctls : list string;
}.

Record SecretObject := {
  sec_Type : string; sec_Annotations : gmap string string; sec_Owners : list OwnerReference;
  sec_Data : gmap string string }.

Record ServiceAccountObject := {
  sao_UID : string; sao_Annotations : gmap string string; sao_Owners : list OwnerReference;
  sao_Finalizers : list string }.

Record RelabelConfig := {
  rlc_SourceLabels : list string; rlc_TargetLabel : string; rlc_Regex : string; rlc_Replacement : string;
  rlc_Action : string }.

Record Endpoint := {
  ep_Port : string; ep_Path : string; ep_Scheme : string; ep_BearerTokenFile : string; ep_CAFile : string;
  ep_ServerName : string; ep_MetricRelabelConfigs : list RelabelConfig }.

Record ServiceMonitorObject := {
  smon_Labels : gmap string string;
  smon_Annotations : gmap string string;
  smon_Owners : list OwnerReference;
  smon_JobLabel : string;
  smon_Endpoints : list Endpoint;
  smon_Selector : gmap string string;
  smon_MatchNames : list string;
  smon_PodTargetLabels : list string;
}.

Record PolicyObject := { pol_Policy : NetworkPolicyObject; pol_Owners : list OwnerReference }.

Record ParamRef := { prf_Name : string; prf_Namespace : string; prf_ParameterNotFoundAction : string }.

(** The specification of an admission policy is text of an embedded file. *)
Record AdmissionPolicyObject := { adp_Labels : gmap string string; adp_Spec : json }.

Record AdmissionBindingObject := {
  adb_Labels : gmap string string; adb_PolicyName : string; adb_ValidationActions : list string;
  adb_ParamRef : option ParamRef }.

Inductive kind :=
  | KDaemonSet | KDeployment | KConfigMap | KSecret | KService | KServiceAccount | KServiceMonitor
  | KNetworkPolicy | KRole | KRoleBinding | KClusterRoleBinding | KSCC
  | KExporter | KAdmissionPolicy | KAdmissionBinding | KForwarder.

Record key := { k_Kind : kind; k_Namespace : string; k_Name : string }.

Inductive object :=
  | ODaemonSet (d : DaemonSetObject)
  | ODeployment (d : DeploymentObject)
  | OConfigMap (c : ConfigMapObject)
  | OSecret (s : SecretObject)
  | OService (s : Service)
  | OServiceAccount (s : ServiceAccountObject)
  | OServiceMonitor (m : ServiceMonitorObject)
  | OPolicy (p : PolicyObject)
  | ORole (r : RoleObject)
  | OBinding (b : BindingObject)
  | OSCC (s : SCCObject)
  | OExporter (e : LogFileMetricExporter)
  | OAdmissionPolicy (p : AdmissionPolicyObject)
  | OAdmissionBinding (b : AdmissionBindingObject).

(** Equality is decided where the client compares what it read with what it writes. *)
#[export] Instance json_eq_dec : EqDecision json.
Proof.
  unfold EqDecision, Decision. fix go 1. intros x y. destruct x as [|b|n|s|l|l], y as [|b'|n'|s'|l'|l']; try (right; congruence).
  - by left.
  - destruct (decide (b = b')); [left|right]; congruence.
  - destruct (decide (n = n')); [left|right]; congruence.
  - destruct (decide (s = s')); [left|right]; congruence.
  - assert ({l = l'} + {l ≠ l'}) as [?|?]; [|left; congruence|right; congruence].
    revert l'. induction l as [|a l IH]; intros [|b l']; try (right; congruence); [by left|].
    destruct (go a b); [destruct (IH l'); [left|right]; congruence|right; congruence].
  - assert ({l = l'} + {l ≠ l'}) as [?|?]; [|left; congruence|right; congruence].
    revert l'. induction l as [|[k a] l IH]; intros [|[k' b] l']; try (right; congruence); [by left|].
    destruct (decide (k = k')); [|right; congruence].
    destruct (go a b); [destruct (IH l'); [left|right]; congruence|right; congruence].
Defined.

#[local] Ltac eq_dec := solve_decision.

#[export] Instance Quantity_eq_dec : EqDecision Quantity. Proof. eq_dec. Defined.
#[export] Instance ResourceRequirements_eq_dec : EqDecision ResourceRequirements. Proof. eq_dec. Defined.
#[export] Instance Toleration_eq_dec : EqDecision Toleration. Proof. eq_dec. Defined.
#[export] Instance KeyToPath_eq_dec : EqDecision KeyToPath. Proof. eq_dec. Defined.
#[export] Instance ConfigMapVolumeSource_eq_dec : EqDecision ConfigMapVolumeSource. Proof. eq_dec. Defined.
#[export] Instance Projection_eq_dec : EqDecision ServiceAccountTokenProjection. Proof. eq_dec. Defined.
#[export] Instance VolumeSource_eq_dec : EqDecision VolumeSource. Proof. eq_dec. Defined.
#[export] Instance Volume_eq_dec : EqDecision Volume. Proof. eq_dec. Defined.
#[export] Instance VolumeMount_eq_dec : EqDecision VolumeMount. Proof. eq_dec. Defined.
#[export] Instance ContainerPort_eq_dec : EqDecision ContainerPort. Proof. eq_dec. Defined.
#[export] Instance ObjectFieldSelector_eq_dec : EqDecision ObjectFieldSelector. Proof. eq_dec. Defined.
#[export] Instance EnvVar_eq_dec : EqDecision EnvVar. Proof. eq_dec. Defined.
#[export] Instance SecurityContext_eq_dec : EqDecision SecurityContext. Proof. eq_dec. Defined.
#[export] Instance Container_eq_dec : EqDecision Container. Proof. eq_dec. Defined.
#[export] Instance PodSpec_eq_dec : EqDecision PodSpec. Proof. eq_dec. Defined.
#[export] Instance PodTemplate_eq_dec : EqDecision PodTemplate. Proof. eq_dec. Defined.
#[export] Instance DaemonSetObject_eq_dec : EqDecision DaemonSetObject. Proof. eq_dec. Defined.
#[export] Instance DeploymentObject_eq_dec : EqDecision DeploymentObject. Proof. eq_dec. Defined.
#[export] Instance ConfigMapObject_eq_dec : EqDecision ConfigMapObject. Proof. eq_dec. Defined.
#[export] Instance SecretObject_eq_dec : EqDecision SecretObject. Proof. eq_dec. Defined.
#[export] Instance ServicePort_eq_dec : EqDecision ServicePort. Proof. eq_dec. Defined.
#[export] Instance Service_eq_dec : EqDecision Service. Proof. eq_dec. Defined.
#[export] Instance ServiceAccountObject_eq_dec : EqDecision ServiceAccountObject. Proof. eq_dec. Defined.
#[export] Instance RelabelConfig_eq_dec : EqDecision RelabelConfig. Proof. eq_dec. Defined.
#[export] Instance Endpoint_eq_dec : EqDecision Endpoint. Proof. eq_dec. Defined.
#[export] Instance ServiceMonitorObject_eq_dec : EqDecision ServiceMonitorObject. Proof. eq_dec. Defined.
#[export] Instance NetworkPolicyObject_eq_dec : EqDecision NetworkPolicyObject. Proof. eq_dec. Defined.
#[export] Instance PolicyObject_eq_dec : EqDecision PolicyObject. Proof. eq_dec. Defined.
#[export] Instance PolicyRule_eq_dec : EqDecision PolicyRule. Proof. eq_dec. Defined.
#[export] Instance RoleRef_eq_dec : EqDecision RoleRef. Proof. eq_dec. Defined.
#[export] Instance Subject_eq_dec : EqDecision Subject. Proof. eq_dec. Defined.
#[export] Instance RoleObject_eq_dec : EqDecision RoleObject. Proof. eq_dec. Defined.
#[export] Instance BindingObject_eq_dec : EqDecision BindingObject. Proof. eq_dec. Defined.
#[export] Instance SCCObject_eq_dec : EqDecision SCCObject. Proof. eq_dec. Defined.
#[export] Instance LogFileMetricExporterSpec_eq_dec : EqDecision LogFileMetricExporterSpec. Proof. eq_dec. Defined.
#[export] Instance LogFileMetricExporterStatus_eq_dec : EqDecision LogFileMetricExporterStatus. Proof. eq_dec. Defined.
#[export] Instance LogFileMetricExporter_eq_dec : EqDecision LogFileMetricExporter. Proof. eq_dec. Defined.
#[export] Instance ParamRef_eq_dec : EqDecision ParamRef. Proof. eq_dec. Defined.
#[export] Instance AdmissionPolicyObject_eq_dec : EqDecision AdmissionPolicyObject. Proof. eq_dec. Defined.
#[export] Instance AdmissionBindingObject_eq_dec : EqDecision AdmissionBindingObject. Proof. eq_dec. Defined.
#[export] Instance object_eq_dec : EqDecision object. Proof. eq_dec. Defined.
#[export] Instance kind_eq_dec : EqDecision kind. Proof. eq_dec. Defined.
#[export] Instance key_eq_dec : EqDecision key. Proof. eq_dec. Defined.

Definition kind_number (k : kind) : nat :=
  match k with
  | KDaemonSet => 0 | KDeployment => 1 | KConfigMap => 2 | KSecret => 3 | KService => 4 | KServiceAccount => 5
  | KServiceMonitor => 6 | KNetworkPolicy => 7 | KRole => 8 | KRoleBinding => 9 | KClusterRoleBinding => 10 | KSCC => 11
  | KExporter => 12 | KAdmissionPolicy => 13 | KAdmissionBinding => 14 | KForwarder => 15
  end.

Definition kind_of_number (n : nat) : kind :=
  nth n [KDaemonSet; KDeployment; KConfigMap; KSecret; KService; KServiceAccount; KServiceMonitor; KNetworkPolicy;
         KRole; KRoleBinding; KClusterRoleBinding; KSCC; KExporter; KAdmissionPolicy; KAdmissionBinding; KForwarder] KSCC.

#[export] Instance kind_countable : Countable kind.
Proof. refine (inj_countable' kind_number kind_of_number _). by intros []. Defined.

#[export] Instance key_countable : Countable key.
Proof.
  refine (inj_countable' (λ k, (k_Kind k, k_Namespace k, k_Name k))
    (λ p, {| k_Kind := p.1.1; k_Namespace := p.1.2; k_Name := p.2 |}) _).
  by intros [].
Defined.

(** ** Errors and requests *)

Inductive error_kind := EK_NotFound | EK_AlreadyExists | EK_Conflict | EK_Other.

Record api_error := { ae_Kind : error_kind; ae_Message : string }.

#[export] Instance error_kind_eq_dec : EqDecision error_kind. Proof. eq_dec. Defined.

Definition IsNotFound (e : api_error) : bool := bool_decide (ae_Kind e = EK_NotFound).
Definition IsConflict (e : api_error) : bool := bool_decide (ae_Kind e = EK_Conflict).

(** [fmt.Errorf] with a verb that does not wrap its error. *)
Definition Errorf (message : string) : api_error := {| ae_Kind := EK_Other; ae_Message := message |}.

Inductive verb := VGet | VCreate | VUpdate | VDelete | VList.

#[export] Instance verb_eq_dec : EqDecision verb. Proof. eq_dec. Defined.

(** The error the server gives to its n-th request, if it gives one. *)
Class ApiServer := { answer : nat → verb → key → option api_error }.

(** The state: the objects, the number of requests so far, the changes that were made, and
    the variable of the operator's process that its workloads share with the security
    context constraints ([auth.RequiredDropCapabilities]). *)
Record world := {
  w_objects : gmap key object;
  w_clock : nat;
  w_log : list (verb * key);
  w_dropCaps : list string;
}.

Definition K (A : Type) : Type := world → outcome (world * (A + api_error)).

#[export] Instance K_ret : MRet K := λ A a w, Ret (w, inl a).
#[export] Instance K_bind : MBind K := λ A B f m w,
  r ← m w;
  match r.2 with
  | inl a => f a r.1
  | inr e => Ret (r.1, inr e)
  end.

Definition throw {A} (e : api_error) : K A := λ w, Ret (w, inr e).

(** The error of a call as a value, for the caller to look at. *)
Definition attempt {A} (m : K A) : K (A + api_error) := λ w, r ← m w; Ret (r.1, inl r.2).

(** A function that does not use the cluster, and may panic. *)
Definition lift {A} (o : outcome A) : K A := λ w, a ← o; Ret (w, inl a).

Definition get_world : K world := λ w, Ret (w, inl w).

Definition set_dropCaps (caps : list string) : K unit := λ w, Ret ({|
  w_objects := w_objects w; w_clock := w_clock w; w_log := w_log w; w_dropCaps := caps |}, inl tt).

Section client.
Context `{ApiServer}.

Definition ask (v : verb) (k : key) : K unit := λ w,
  Ret ({| w_objects := w_objects w; w_clock := S (w_clock w); w_log := w_log w; w_dropCaps := w_dropCaps w |},
       match answer (w_clock w) v k with Some e => inr e | None => inl tt end).

Definition write (v : verb) (k : key) (objects : gmap key object) : K unit := λ w,
  Ret ({| w_objects := objects; w_clock := w_clock w; w_log := w_log w ++ [(v, k)]; w_dropCaps := w_dropCaps w |}, inl tt).

Definition not_found (k : key) : api_error := {| ae_Kind := EK_NotFound; ae_Message := k_Name k +:+ " not found" |}.

Definition Get (k : key) : K object :=
  ask VGet k;; w ← get_world;
  match w_objects w !! k with Some o => mret o | None => throw (not_found k) end.

Definition Create (k : key) (o : object) : K unit :=
  ask VCreate k;; w ← get_world;
  match w_objects w !! k with
  | Some _ => throw {| ae_Kind := EK_AlreadyExists; ae_Message := k_Name k +:+ " already exists" |}
  | None => write VCreate k (<[k := o]> (w_objects w))
  end.

Definition Update (k : key) (o : object) : K unit :=
  ask VUpdate k;; w ← get_world;
  match w_objects w !! k with
  | Some _ => write VUpdate k (<[k := o]> (w_objects w))
  | None => throw (not_found k)
  end.

Definition Delete (k : key) : K unit :=
  ask VDelete k;; w ← get_world;
  match w_objects w !! k with
  | Some _ => write VDelete k (delete k (w_objects w))
  | None => throw (not_found k)
  end.

(** [controllerutil.CreateOrUpdate]: the callback changes the object that was read, or a
    new one; nothing is written if that leaves it as it was. *)
Definition CreateOrUpdate (k : key) (mutate : option object → object) : K unit :=
  r ← attempt (Get k);
  match r with
  | inl current => if bool_decide (mutate (Some current) = current) then mret tt else Update k (mutate (Some current))
  | inr e => if IsNotFound e then Create k (mutate None) else throw e
  end.

(** [retry.RetryOnConflict]: as often as the backoff has steps, while there is a conflict. *)
Fixpoint RetryOnConflict (steps : nat) (fn : K unit) : K unit :=
  match steps with
  | O => throw (Errorf "timed out waiting for the condition")
  | S steps =>
      r ← attempt fn;
      match r with
      | inl tt => mret tt
      | inr e => if IsConflict e && negb (steps =? 0)%nat then RetryOnConflict steps fn else throw e
      end
  end.
End client.

(** The number of steps of [retry.DefaultRetry]. *)
Definition DefaultRetry : nat := 5.

(** ** Reasoning about computations

    [wp s m Q w]: when [m] ends from [w], with a result or an error, [Q] holds of the state
    and of what it ends with; with the strictness [s], it does end, and not in a panic. *)

Definition wp {A} (s : bool) (m : K A) (Q : world → A + api_error → Prop) (w : world) : Prop :=
  match m w with Ret (w', r) => Q w' r | _ => s = false end.

Lemma wp_ends {A} s (m : K A) Q w w' r : wp s m Q w → m w = Ret (w', r) → Q w' r.
Proof. unfold wp. by intros Hm E; rewrite E in Hm. Qed.

Lemma wp_total {A} (m : K A) Q w : wp true m Q w → ∃ w' r, m w = Ret (w', r) ∧ Q w' r.
Proof. unfold wp. destruct (m w) as [[w' r]| |]; [eauto|done..]. Qed.

Lemma wp_partial {A} (m : K A) Q w : (∀ w' r, m w = Ret (w', r) → Q w' r) → wp false m Q w.
Proof. unfold wp. destruct (m w) as [[w' r]| |]; auto. Qed.

(** The server answers every request. *)
Definition never_fails `{ApiServer} : Prop := ∀ n v k, answer n v k = None.

(** The state is as it was, but for the number of requests. *)
Record quiet (w w' : world) : Prop := {
  q_objects : w_objects w' = w_objects w;
  q_log : w_log w' = w_log w;
  q_caps : w_dropCaps w' = w_dropCaps w;
}.

(** One change was made. *)
Record wrote (v : verb) (k : key) (objects : gmap key object) (w w' : world) : Prop := {
  wr_objects : w_objects w' = objects;
  wr_log : w_log w' = w_log w ++ [(v, k)];
  wr_caps : w_dropCaps w' = w_dropCaps w;
}.

#[export] Instance quiet_preorder : PreOrder quiet.
Proof. split; [done|]. intros w1 w2 w3 [] []. split; congruence. Qed.

Section rules.
Context {A B : Type} (s : bool).
Implicit Types (m : K A) (f : A → K B).

Lemma wp_mono m (Q Q' : world → A + api_error → Prop) w : wp s m Q w → (∀ w' r, Q w' r → Q' w' r) → wp s m Q' w.
Proof. unfold wp. intros Hm HQ. destruct (m w) as [[w' r]| |]; [by apply HQ|done..]. Qed.

Lemma wp_bind m f Q w :
  wp s m (λ w1 r, match r with inl a => wp s (f a) Q w1 | inr e => Q w1 (inr e) end) w → wp s (m ≫= f) Q w.
Proof.
  unfold wp at 1 3. unfold mbind, K_bind. destruct (m w) as [[w1 [a|e]]| |]; [|done..].
  cbn [mbind outcome_bind fst snd]. done.
Qed.

Lemma wp_ret (a : A) Q w : Q w (inl a) → wp s (mret a) Q w.
Proof. done. Qed.

Lemma wp_throw e (Q : world → A + api_error → Prop) w : Q w (inr e) → wp s (throw e) Q w.
Proof. done. Qed.

Lemma wp_attempt m Q w : wp s m (λ w' r, Q w' (inl r)) w → wp s (attempt m) Q w.
Proof. unfold wp, attempt. by destruct (m w) as [[w1 r1]| |]. Qed.

Lemma wp_lift (o : outcome A) Q w :
  (∀ a, o = Ret a → Q w (inl a)) → (s = true → returns o) → wp s (lift o) Q w.
Proof.
  intros HQ Hs. unfold wp, lift. destruct o; [by apply HQ|..]; by destruct s; [destruct (Hs eq_refl)|].
Qed.

Lemma wp_get_world Q w : Q w (inl w) → wp s get_world Q w.
Proof. done. Qed.
End rules.

Section requests.
Context `{ApiServer} (s : bool).

Lemma wp_ask v k Q w : (∀ w' r, quiet w w' → Q w' r) → wp s (ask v k) Q w.
Proof. intros HQ. by apply HQ. Qed.

Lemma wp_write v k objects Q w : (∀ w', wrote v k objects w w' → Q w' (inl tt)) → wp s (write v k objects) Q w.
Proof. intros HQ. by apply HQ. Qed.

Lemma wp_Get k Q w :
  (∀ w' r, quiet w w' → (∀ o, r = inl o → w_objects w !! k = Some o) → Q w' r) → wp s (Get k) Q w.
Proof.
  intros HQ. apply wp_bind, wp_ask. intros w1 [[]|e] Hq; [|by apply HQ].
  apply wp_bind, wp_get_world. destruct (w_objects w1 !! k) as [o|] eqn:E.
  - apply wp_ret, HQ; [done|]. intros ? [= <-]. by rewrite <-(q_objects _ _ Hq).
  - by apply wp_throw, HQ.
Qed.

(** A request that changes one object, if it succeeds. *)
Lemma wp_Create k o Q w :
  (∀ w' e, quiet w w' → Q w' (inr e)) →
  (∀ w', w_objects w !! k = None → wrote VCreate k (<[k := o]> (w_objects w)) w w' → Q w' (inl tt)) →
  wp s (Create k o) Q w.
Proof.
  intros He Hok. apply wp_bind, wp_ask. intros w1 [[]|e] Hq; [|by apply He].
  apply wp_bind, wp_get_world. destruct (w_objects w1 !! k) as [o'|] eqn:E; [by apply wp_throw, He|].
  destruct Hq as [Ho Hl Hc]. apply wp_write. intros w' [Ho' Hl' Hc']. apply Hok; [by rewrite <-Ho|].
  split; congruence.
Qed.

Lemma wp_Update k o Q w :
  (∀ w' e, quiet w w' → Q w' (inr e)) →
  (∀ w', is_Some (w_objects w !! k) → wrote VUpdate k (<[k := o]> (w_objects w)) w w' → Q w' (inl tt)) →
  wp s (Update k o) Q w.
Proof.
  intros He Hok. apply wp_bind, wp_ask. intros w1 [[]|e] Hq; [|by apply He].
  apply wp_bind, wp_get_world. destruct (w_objects w1 !! k) as [o'|] eqn:E; [|by apply wp_throw, He].
  destruct Hq as [Ho Hl Hc]. apply wp_write. intros w' [Ho' Hl' Hc']. apply Hok; [by rewrite <-Ho, E|].
  split; congruence.
Qed.

Lemma wp_Delete k Q w :
  (∀ w' e, quiet w w' → Q w' (inr e)) →
  (∀ w', is_Some (w_objects w !! k) → wrote VDelete k (delete k (w_objects w)) w w' → Q w' (inl tt)) →
  wp s (Delete k) Q w.
Proof.
  intros He Hok. apply wp_bind, wp_ask. intros w1 [[]|e] Hq; [|by apply He].
  apply wp_bind, wp_get_world. destruct (w_objects w1 !! k) as [o'|] eqn:E; [|by apply wp_throw, He].
  destruct Hq as [Ho Hl Hc]. apply wp_write. intros w' [Ho' Hl' Hc']. apply Hok; [by rewrite <-Ho, E|].
  split; congruence.
Qed.

(** What a call does to one object: on success the object is what [mutate] makes of the
    one that was there, and on an error nothing has changed. *)
Record upserts (k : key) (mutate : option object → object) (w w' : world) (r : unit + api_error) : Prop := {
  up_caps : w_dropCaps w' = w_dropCaps w;
  up_ok : r = inl tt → w_objects w' = <[k := mutate (w_objects w !! k)]> (w_objects w);
  up_error : ∀ e, r = inr e → w_objects w' = w_objects w;
}.

Lemma upserts_error k mutate w w' e : quiet w w' → upserts k mutate w w' (inr e).
Proof. intros []. by split. Qed.

Lemma wp_CreateOrUpdate k mutate Q w :
  (∀ w' r, upserts k mutate w w' r → Q w' r) → wp s (CreateOrUpdate k mutate) Q w.
Proof.
  intros HQ. apply wp_bind, wp_attempt, wp_Get. intros w1 [o|e] Hq Hget.
  - specialize (Hget o eq_refl). case_bool_decide as Hsame.
    + apply wp_ret, HQ. destruct Hq as [Ho _ Hc]. split; [done| |done]. intros _.
      by rewrite Hget, Hsame, insert_id.
    + apply wp_Update; intros w2; [intros e Hq2; by apply HQ, upserts_error; etrans|].
      intros _ [Ho2 _ Hc2]. destruct Hq as [Ho _ Hc]. apply HQ. split; [congruence| |done]. intros _. by rewrite Ho2, Ho, Hget.
  - destruct (IsNotFound e); [|by apply wp_throw, HQ, upserts_error].
    apply wp_Create; intros w2; [intros e' Hq2; by apply HQ, upserts_error; etrans|].
    intros Hn [Ho2 _ Hc2]. destruct Hq as [Ho _ Hc]. apply HQ. rewrite Ho in Hn. split; [congruence| |done].
    intros _. by rewrite Ho2, Ho, Hn.
Qed.

(** What holds of one attempt, whatever the others did, holds of the loop. *)
Lemma wp_RetryOnConflict steps fn (I : world → Prop) (Q : world → unit + api_error → Prop) w :
  I w → (∀ w, I w → wp s fn (λ w' r, match r with inl _ => Q w' r | inr e => I w' ∧ Q w' r end) w) →
  (∀ w e, I w → Q w (inr e)) → wp s (RetryOnConflict steps fn) Q w.
Proof.
  intros Hw Hfn He. induction steps as [|steps IH] in w, Hw |- *; cbn [RetryOnConflict]; [by apply wp_throw, He|].
  apply wp_bind, wp_attempt. eapply wp_mono; [by apply Hfn|]. intros w' [[]|e]; [intros; by apply wp_ret|].
  intros [Hw' HQ]. destruct (_ && _); [by apply IH|by apply wp_throw].
Qed.
End requests.
