(* ===== verification/ReconcileObjects.v ===== *)
(** * Reconciliation of the objects ([internal/reconcile], [internal/utils/comparators], [internal/auth])

    How the operator brings one object of the cluster to what it wants: the files of
    [internal/reconcile], the comparisons of config maps and security context
    constraints, and the roles, bindings and tokens of [internal/auth].  A key is a
    kind, a namespace and a name; an object of another kind under a key cannot be. *)

From S2P Require Import Prelude GoStrings ApiCommon ApiForwarder Reconcile Network InputServices Workload Cluster.

(** ** Comparisons *)

Inductive ComparisonOption := CompareAnnotations | CompareLabels.

#[export] Instance ComparisonOption_eq_dec : EqDecision ComparisonOption. Proof. solve_decision. Defined.

(** [configmaps.AreSame]: a later option of a kind has the last word, and says the same. *)
Definition ConfigMaps_AreSame (actual desired : ConfigMapObject) (options : list ComparisonOption) : bool :=
  let dataAreEqual := bool_decide (cmo_Data actual = cmo_Data desired) in
  let '(labelsAreEqual, annotationsAreEqual) := foldl (λ r opt,
    match opt with
    | CompareAnnotations => (r.1, bool_decide (cmo_Annotations actual = cmo_Annotations desired))
    | CompareLabels => (bool_decide (cmo_Labels actual = cmo_Labels desired), r.2)
    end) (true, true) options in
  dataAreEqual && labelsAreEqual && annotationsAreEqual.

(** [sameAllowPrivilegeEscalation]; the second test is the first with its sides swapped. *)
Definition differ_ptr {A} `{EqDecision A} (x y : option A) : bool :=
  match x, y with
  | Some _, None | None, Some _ => true
  | Some a, Some b => negb (bool_decide (a = b))
  | None, None => false
  end.

Definition sameAllowPrivilegeEscalation (current desired : option bool) : bool :=
  if differ_ptr current desired then false
  else if differ_ptr desired current then false
  else true.

Definition samePriority (current desired : option Z) : bool * string :=
  if differ_ptr current desired then (false, "priority") else (true, "").

Definition set_drop (s : SCCObject) (caps : list string) : SCCObject := {|
  scc_Labels := scc_Labels s; scc_Priority := scc_Priority s; scc_AllowPrivilegedContainer := scc_AllowPrivilegedContainer s;
  scc_DefaultAddCapabilities := scc_DefaultAddCapabilities s; scc_RequiredDropCapabilities := caps;
  scc_AllowedCapabilities := scc_AllowedCapabilities s; scc_AllowHostDirVolumePlugin := scc_AllowHostDirVolumePlugin s;
  scc_Volumes := scc_Volumes s; scc_AllowedFlexVolumes := scc_AllowedFlexVolumes s;
  scc_AllowHostNetwork := scc_AllowHostNetwork s; scc_AllowHostPorts := scc_AllowHostPorts s;
  scc_AllowHostPID := scc_AllowHostPID s; scc_AllowHostIPC := scc_AllowHostIPC s;
  scc_DefaultAllowPrivilegeEscalation := scc_DefaultAllowPrivilegeEscalation s;
  scc_AllowPrivilegeEscalation := scc_AllowPrivilegeEscalation s; scc_SELinuxContext := scc_SELinuxContext s;
  scc_RunAsUser := scc_RunAsUser s; scc_SupplementalGroups := scc_SupplementalGroups s; scc_FSGroup := scc_FSGroup s;
  scc_ReadOnlyRootFilesystem := scc_ReadOnlyRootFilesystem s; scc_Users := scc_Users s; scc_Groups := scc_Groups s;
  scc_SeccompProfiles := scc_SeccompProfiles s; scc_AllowedUnsafeSysctls := scc_AllowedUnsafeSysctls s;
  scc_ForbiddenSysctls := scc_ForbiddenSysctls s |}.

(** [scc.AreSame], after the sort of the capabilities, which is in place: the slices are
    sorted copies of those of the arguments. *)
Definition same_after_priority (current desired : SCCObject) : bool * string :=
  if bool_decide (sort_strings (scc_RequiredDropCapabilities current) ≠ sort_strings (scc_RequiredDropCapabilities desired))
  then (false, "requiredDropCapabilities")
  else if negb (Bool.eqb (scc_AllowHostDirVolumePlugin current) (scc_AllowHostDirVolumePlugin desired))
  then (false, "allowHostDirVolumePlugin")
  else if negb (forallb (λ dv, existsb (λ cv, dv == cv) (scc_Volumes current)) (scc_Volumes desired))
  then (false, "volumes")
  else if negb (sameAllowPrivilegeEscalation (scc_DefaultAllowPrivilegeEscalation current)
                  (scc_DefaultAllowPrivilegeEscalation desired))
  then (false, "defaultAllowPrivilegeEscalation")
  else if negb (sameAllowPrivilegeEscalation (scc_AllowPrivilegeEscalation current) (scc_AllowPrivilegeEscalation desired))
  then (false, "allowPrivilegeEscalation")
  else if scc_RunAsUser current != scc_RunAsUser desired then (false, "runAsUser")
  else if scc_SELinuxContext current != scc_SELinuxContext desired then (false, "SELinuxContext")
  else if negb (Bool.eqb (scc_ReadOnlyRootFilesystem current) (scc_ReadOnlyRootFilesystem desired))
  then (false, "allowPrivilegeEscalation")
  else if bool_decide (sort_strings (scc_ForbiddenSysctls current) ≠ sort_strings (scc_ForbiddenSysctls desired))
  then (false, "ForbiddenSysctls")
  else if bool_decide (sort_strings (scc_SeccompProfiles current) ≠ sort_strings (scc_SeccompProfiles desired))
  then (false, "SeccompProfiles")
  else (true, "").

(** The result, and whether the capabilities were sorted on the way. *)
Definition SCC_AreSame (current desired : SCCObject) : bool * string * bool :=
  let '(same, property) := samePriority (scc_Priority current) (scc_Priority desired) in
  if negb same then (same, property, false)
  else if negb (Bool.eqb (scc_AllowPrivilegedContainer current) (scc_AllowPrivilegedContainer desired))
  then (false, "allowPrivilegedContainer", false)
  else (same_after_priority current desired, true).

(** [update]: every field but those of the metadata that are not labels. *)
Definition update (from to : SCCObject) : SCCObject := {|
  scc_Labels := scc_Labels from; scc_Priority := scc_Priority from;
  scc_AllowPrivilegedContainer := scc_AllowPrivilegedContainer from;
  scc_DefaultAddCapabilities := scc_DefaultAddCapabilities from;
  scc_RequiredDropCapabilities := scc_RequiredDropCapabilities from;
  scc_AllowedCapabilities := scc_AllowedCapabilities from;
  scc_AllowHostDirVolumePlugin := scc_AllowHostDirVolumePlugin from;
  scc_Volumes := scc_Volumes from; scc_AllowedFlexVolumes := scc_AllowedFlexVolumes from;
  scc_AllowHostNetwork := scc_AllowHostNetwork from; scc_AllowHostPorts := scc_AllowHostPorts from;
  scc_AllowHostPID := scc_AllowHostPID from; scc_AllowHostIPC := scc_AllowHostIPC from;
  scc_DefaultAllowPrivilegeEscalation := scc_DefaultAllowPrivilegeEscalation from;
  scc_AllowPrivilegeEscalation := scc_AllowPrivilegeEscalation from; scc_SELinuxContext := scc_SELinuxContext from;
  scc_RunAsUser := scc_RunAsUser from; scc_SupplementalGroups := scc_SupplementalGroups from;
  scc_FSGroup := scc_FSGroup from; scc_ReadOnlyRootFilesystem := scc_ReadOnlyRootFilesystem from;
  scc_Users := scc_Users from; scc_Groups := scc_Groups from; scc_SeccompProfiles := scc_SeccompProfiles from;
  scc_AllowedUnsafeSysctls := scc_AllowedUnsafeSysctls from; scc_ForbiddenSysctls := scc_ForbiddenSysctls from |}.

(** ** Keys *)

Definition key_of (kd : kind) (namespace name : string) : key := {|
  k_Kind := kd; k_Namespace := namespace; k_Name := name |}.

Definition wrong_kind {A} : outcome A := Panic "an object of another kind".

(** ** Reconciliation of one object ([internal/reconcile]) *)

Section reconcile.
Context `{ApiServer}.

Definition Configmap (configMap : ConfigMapObject) (opts : list ComparisonOption) : K unit :=
  let k := key_of KConfigMap (cmo_Namespace configMap) (cmo_Name configMap) in
  RetryOnConflict DefaultRetry (
    r ← attempt (Get k);
    match r with
    | inr err =>
        if IsNotFound err then Create k (OConfigMap configMap)
        else throw (Errorf ("failed to get " +:+ k_Namespace k +:+ "/" +:+ k_Name k +:+ " configmap: " +:+ ae_Message err))
    | inl (OConfigMap current) =>
        if ConfigMaps_AreSame current configMap opts && HasSameOwner (cmo_Owners current) (cmo_Owners configMap) then mret tt
        else Update k (OConfigMap {|
          cmo_Namespace := cmo_Namespace current; cmo_Name := cmo_Name current; cmo_Labels := cmo_Labels configMap;
          cmo_Annotations := cmo_Annotations configMap; cmo_Owners := cmo_Owners configMap;
          cmo_Data := cmo_Data configMap |})
    | inl _ => lift wrong_kind
    end).

(** What is set on the object that was read is all that is modelled of it. *)
Definition reconcile_DaemonSet (desired : DaemonSetObject) : K unit :=
  CreateOrUpdate (key_of KDaemonSet (ds_Namespace desired) (ds_Name desired)) (λ _, ODaemonSet {|
    ds_Namespace := ds_Namespace desired; ds_Name := ds_Name desired; ds_Labels := ds_Labels desired;
    ds_Owners := ds_Owners desired; ds_Selector := ds_Selector desired; ds_Template := ds_Template desired;
    ds_UpdateStrategy := ds_UpdateStrategy desired; ds_MaxUnavailable := ds_MaxUnavailable desired |}).

Definition reconcile_Deployment (desired : DeploymentObject) : K unit :=
  CreateOrUpdate (key_of KDeployment (dpl_Namespace desired) (dpl_Name desired)) (λ _, ODeployment {|
    dpl_Namespace := dpl_Namespace desired; dpl_Name := dpl_Name desired; dpl_Labels := dpl_Labels desired;
    dpl_Owners := dpl_Owners desired; dpl_Selector := dpl_Selector desired; dpl_Template := dpl_Template desired;
    dpl_Replicas := dpl_Replicas desired |}).

Definition reconcile_NetworkPolicy (desired : PolicyObject) : K unit :=
  CreateOrUpdate (key_of KNetworkPolicy (np_Namespace (pol_Policy desired)) (np_Name (pol_Policy desired)))
    (λ _, OPolicy desired).

Definition reconcile_ServiceMonitor (namespace name : string) (desired : ServiceMonitorObject) : K unit :=
  CreateOrUpdate (key_of KServiceMonitor namespace name) (λ _, OServiceMonitor desired).

(** The annotations of a service that exists stay. *)
Definition reconcile_service (namespace : string) (desired : Service) : K unit :=
  CreateOrUpdate (key_of KService namespace (svc_Name desired)) (λ current, OService {|
    svc_Name := svc_Name desired; svc_Labels := svc_Labels desired;
    svc_Annotations := match current with Some (OService s) => svc_Annotations s | _ => svc_Annotations desired end;
    svc_Selector := svc_Selector desired; svc_Ports := svc_Ports desired; svc_Owners := svc_Owners desired |}).

Definition reconcile_ServiceAccount (namespace name : string) (desired : ServiceAccountObject) : K ServiceAccountObject :=
  let k := key_of KServiceAccount namespace name in
  CreateOrUpdate k (λ current, OServiceAccount {|
    sao_UID := match current with Some (OServiceAccount s) => sao_UID s | _ => "" end;
    sao_Annotations := sao_Annotations desired; sao_Owners := sao_Owners desired;
    sao_Finalizers := sao_Finalizers desired |});;
  w ← get_world;
  match w_objects w !! k with Some (OServiceAccount s) => mret s | _ => lift wrong_kind end.

(** ** Roles ([rbac.go]) *)

Definition reconcile_Role (namespace name : string) (desired : RoleObject) : K unit :=
  CreateOrUpdate (key_of KRole namespace name) (λ _, ORole {|
    role_Rules := role_Rules desired; role_Owners := role_Owners desired |}).

(** The reference of a binding cannot be changed: another one is a new binding. *)
Definition RoleBinding (namespace name : string) (desired : BindingObject) : K unit :=
  let k := key_of KRoleBinding namespace name in
  r ← attempt (Get k);
  match r with
  | inr err => if IsNotFound err then Create k (OBinding desired) else throw err
  | inl (OBinding existing) =>
      if bool_decide (rb_RoleRef existing ≠ rb_RoleRef desired) then
        Delete k;; Create k (OBinding desired)
      else Update k (OBinding {| rb_RoleRef := rb_RoleRef existing; rb_Subjects := rb_Subjects desired;
                                 rb_Owners := rb_Owners desired |})
  | inl _ => lift wrong_kind
  end.

Definition ClusterRoleBinding (name : string) (desired : BindingObject) : K unit :=
  let k := key_of KClusterRoleBinding "" name in
  r ← attempt (Get k);
  match r with
  | inr err => if IsNotFound err then Create k (OBinding desired) else throw err
  | inl (OBinding existing) =>
      if bool_decide (rb_RoleRef existing ≠ rb_RoleRef desired) then
        Delete k;; Create k (OBinding desired)
      else Update k (OBinding {| rb_RoleRef := rb_RoleRef existing; rb_Subjects := rb_Subjects desired;
                                 rb_Owners := rb_Owners existing |})
  | inl _ => lift wrong_kind
  end.

(** An object that is not there is deleted already. *)
Definition delete_ignoring_absence (k : key) : K unit :=
  r ← attempt (Delete k);
  match r with
  | inl tt => mret tt
  | inr err => if IsNotFound err then mret tt else throw err
  end.

Definition DeleteClusterRoleBinding (name : string) : K unit :=
  delete_ignoring_absence (key_of KClusterRoleBinding "" name).

Definition DeleteRole (namespace name : string) : K unit := delete_ignoring_absence (key_of KRole namespace name).

(** ** Security context constraints ([scc.go])

    The capabilities of [desired] are the slice of the process ([w_dropCaps]): the sort of
    the comparison is seen by every later use of it.  The other lists it sorts are of
    [desired] only, and have one element in [NewSCC]. *)
Definition SecurityContextConstraints (name : string) (desired : SCCObject) : K unit :=
  let k := key_of KSCC "" name in
  RetryOnConflict DefaultRetry (
    w ← get_world;
    let desired := set_drop desired (w_dropCaps w) in
    r ← attempt (Get k);
    match r with
    | inr err =>
        if IsNotFound err then Create k (OSCC desired)
        else throw {| ae_Kind := ae_Kind err; ae_Message := "failed to get /" +:+ name +:+
               " SecurityContextConstraints: " +:+ ae_Message err |}
    | inl (OSCC current) =>
        let '(same, _, sorted) := SCC_AreSame current desired in
        let caps := if (sorted : bool) then sort_strings (w_dropCaps w) else w_dropCaps w in
        set_dropCaps caps;;
        if (same : bool) then mret tt else Update k (OSCC (update (set_drop desired caps) current))
    | inl _ => lift wrong_kind
    end).
End reconcile.

(** ** Roles, bindings and tokens ([internal/auth]) *)

Definition sccName : string := "logging-scc".
Definition rbac_GroupName : string := "rbac.authorization.k8s.io".
Definition systemAuthDelegatorClusterRoleName : string := "system:auth-delegator".
Definition DesiredSCCVolumes : list string := ["configMap"; "secret"; "emptyDir"; "projected"].

(** What [auth.RequiredDropCapabilities] holds when the process starts. *)
Definition RequiredDropCapabilities : list string :=
  ["CHOWN"; "DAC_OVERRIDE"; "FSETID"; "FOWNER"; "SETGID"; "SETUID"; "SETPCAP"; "NET_BIND_SERVICE"; "KILL"].

Definition NewSCC : SCCObject := {|
  scc_Labels := ∅; scc_Priority := None; scc_AllowPrivilegedContainer := false; scc_DefaultAddCapabilities := [];
  scc_RequiredDropCapabilities := RequiredDropCapabilities; scc_AllowedCapabilities := [];
  scc_AllowHostDirVolumePlugin := true; scc_Volumes := DesiredSCCVolumes; scc_AllowedFlexVolumes := [];
  scc_AllowHostNetwork := false; scc_AllowHostPorts := false; scc_AllowHostPID := false; scc_AllowHostIPC := false;
  scc_DefaultAllowPrivilegeEscalation := Some false; scc_AllowPrivilegeEscalation := Some false;
  scc_SELinuxContext := "RunAsAny"; scc_RunAsUser := "RunAsAny"; scc_SupplementalGroups := ""; scc_FSGroup := "";
  scc_ReadOnlyRootFilesystem := true; scc_Users := []; scc_Groups := []; scc_SeccompProfiles := ["runtime/default"];
  scc_AllowedUnsafeSysctls := []; scc_ForbiddenSysctls := ["*"] |}.

Definition service_account_subject (saNamespace saName : string) : Subject := {|
  sub_Kind := "ServiceAccount"; sub_Name := saName; sub_Namespace := saNamespace |}.

Definition cluster_role (name : string) : RoleRef := {|
  rr_APIGroup := rbac_GroupName; rr_Kind := "ClusterRole"; rr_Name := name |}.

Definition NewMetricsAuthClusterRoleBinding (saNamespace saName : string) : BindingObject := {|
  rb_RoleRef := cluster_role systemAuthDelegatorClusterRoleName;
  rb_Subjects := [service_account_subject saNamespace saName]; rb_Owners := [] |}.

Definition metadata_reader_name (saNamespace saName : string) : string :=
  "metadata-reader-" +:+ saNamespace +:+ "-" +:+ saName.

Definition NewMetaDataReaderClusterRoleBinding (saNamespace saName : string) : BindingObject := {|
  rb_RoleRef := cluster_role "metadata-reader";
  rb_Subjects := [service_account_subject saNamespace saName]; rb_Owners := [] |}.

Definition scc_role_name (name saName : string) : string := name +:+ "-" +:+ saName +:+ "-scc".

Definition NewServiceAccountSCCRole (owner : OwnerReference) : RoleObject := {|
  role_Rules := [{| pr_APIGroups := ["security.openshift.io"]; pr_ResourceNames := [sccName];
                    pr_Resources := ["securitycontextconstraints"]; pr_Verbs := ["use"] |}];
  role_Owners := AddOwnerRef [] owner |}.

Definition NewServiceAccountSCCRoleBinding (namespace name saName : string) (owner : OwnerReference) : BindingObject := {|
  rb_RoleRef := {| rr_APIGroup := rbac_GroupName; rr_Kind := "Role"; rr_Name := scc_role_name name saName |};
  rb_Subjects := [service_account_subject namespace saName]; rb_Owners := AddOwnerRef [] owner |}.

Section auth.
Context `{ApiServer}.

(** [List] of the role bindings of a namespace. *)
Definition ListRoleBindings (namespace : string) : K (list BindingObject) :=
  ask VList (key_of KRoleBinding namespace "");; w ← get_world;
  mret (omap (λ ko : key * object,
    if bool_decide (k_Kind ko.1 = KRoleBinding) && (k_Namespace ko.1 == namespace)
    then match ko.2 with OBinding b => Some b | _ => None end else None) (map_to_list (w_objects w))).

Definition ReconcileRBAC (rbacName saNamespace saName : string) (owner : OwnerReference) : K unit :=
  ClusterRoleBinding (metadata_reader_name saNamespace saName) (NewMetaDataReaderClusterRoleBinding saNamespace saName);;
  reconcile_Role saNamespace (scc_role_name rbacName saName) (NewServiceAccountSCCRole owner);;
  RoleBinding saNamespace (rbacName +:+ "-scc") (NewServiceAccountSCCRoleBinding saNamespace rbacName saName owner);;
  let oldRoleName := saName +:+ "-scc" in
  roleBindings ← ListRoleBindings saNamespace;
  if existsb (λ rb, rr_Name (rb_RoleRef rb) == oldRoleName) roleBindings then mret tt
  else DeleteRole saNamespace oldRoleName.

Definition ReconcileMetricsAuthRBAC (name saNamespace saName : string) : K unit :=
  ClusterRoleBinding name (NewMetricsAuthClusterRoleBinding saNamespace saName).

Definition DeleteMetricsAuthRBAC (name : string) : K unit := DeleteClusterRoleBinding name.

Definition RemoveSecurityContextConstraint (name : string) : K unit :=
  r ← attempt (Delete (key_of KSCC "" name));
  match r with
  | inl tt => mret tt
  | inr err => if IsNotFound err then mret tt else
      throw (Errorf ("failure deleting " +:+ name +:+ " security context constraint " +:+ ae_Message err))
  end.

(** [corev1.SecretTypeServiceAccountToken] and the keys of its annotations. *)
Definition SecretTypeServiceAccountToken : string := "kubernetes.io/service-account-token".
Definition ServiceAccountNameKey : string := "kubernetes.io/service-account.name".
Definition ServiceAccountUIDKey : string := "kubernetes.io/service-account.uid".

(** The secret of a token, which the cluster fills: one that exists is left alone. *)
Definition ReconcileServiceAccountTokenSecret (sa : option (string * ServiceAccountObject)) (namespace name : string)
    (owner : OwnerReference) : K SecretObject :=
  match sa with
  | None => throw (Errorf "serviceAccount not provided in-order to generate a token")
  | Some (saName, sa) =>
      let desired := {| sec_Type := SecretTypeServiceAccountToken;
        sec_Annotations := {[ServiceAccountNameKey := saName; ServiceAccountUIDKey := sao_UID sa]};
        sec_Owners := AddOwnerRef [] owner; sec_Data := ∅ |} in
      let k := key_of KSecret namespace name in
      r ← attempt (Get k);
      match r with
      | inl (OSecret current) => mret current
      | inl _ => lift wrong_kind
      | inr err =>
          if negb (IsNotFound err) then
            throw {| ae_Kind := ae_Kind err; ae_Message := "failed to get " +:+ name +:+ " token secret: " +:+ ae_Message err |}
          else
            c ← attempt (Create k (OSecret desired));
            match c with
            | inl tt => mret desired
            | inr err => throw {| ae_Kind := ae_Kind err;
                ae_Message := "failed to create " +:+ name +:+ " token secret: " +:+ ae_Message err |}
            end
      end
  end.

Definition FinalizerDeleteDependents : string := "foregroundDeletion".

(** Only the service account of the metrics exporter is the operator's. *)
Definition ReconcileServiceAccount (namespace : string) (resNames : ForwarderResourceNames) (owner : OwnerReference) :
    K unit :=
  if (namespace == "openshift-logging") && (ServiceAccountName resNames == LogfilesmetricexporterName) then
    sa ← reconcile_ServiceAccount namespace (ServiceAccountName resNames) {|
      sao_UID := ""; sao_Annotations := ∅; sao_Owners := AddOwnerRef [] owner;
      sao_Finalizers := [FinalizerDeleteDependents] |};
    ReconcileServiceAccountTokenSecret (Some (ServiceAccountName resNames, sa)) namespace
      (ServiceAccountTokenSecret resNames) owner;;
    mret tt
  else mret tt.
End auth.
