(* ===== verification/ReconcileObjectsSpec.v ===== *)
(** * What the reconciliation of objects does

    The properties of [ReconcileObjects]: the object is what is wanted after a success, and
    nothing has changed after an error, but for a binding that is replaced; what the
    comparison of security context constraints sees. *)

From S2P Require Import Prelude GoStrings ApiCommon ApiForwarder Reconcile Network InputServices Workload Cluster.
From S2P Require Import ReconcileObjects.

(** The kind of an object is that of its key. *)
Definition kind_fits (kd : kind) (o : object) : bool :=
  match kd, o with
  | KDaemonSet, ODaemonSet _ | KDeployment, ODeployment _ | KConfigMap, OConfigMap _ | KSecret, OSecret _
  | KService, OService _ | KServiceAccount, OServiceAccount _ | KServiceMonitor, OServiceMonitor _
  | KNetworkPolicy, OPolicy _ | KRole, ORole _ | KRoleBinding, OBinding _ | KClusterRoleBinding, OBinding _
  | KSCC, OSCC _ | KExporter, OExporter _ | KAdmissionPolicy, OAdmissionPolicy _
  | KAdmissionBinding, OAdmissionBinding _ => true
  | _, _ => false
  end.

Definition well_kinded (w : world) : Prop := ∀ k o, w_objects w !! k = Some o → kind_fits (k_Kind k) o = true.

Section spec.
Context `{ApiServer}.

(** ** Config maps *)

(** What a call does to the object of one key, and to no other. *)
Record touches (k : key) (w w' : world) : Prop := {
  tch_other : ∀ k', k' ≠ k → w_objects w' !! k' = w_objects w !! k';
  tch_caps : w_dropCaps w' = w_dropCaps w;
}.

Lemma quiet_touches k w w' : quiet w w' → touches k w w'.
Proof. intros [Ho _ Hc]. split; [|done]. intros k' _. by rewrite Ho. Qed.

Lemma wrote_touches v k o w w' : wrote v k (<[k := o]> (w_objects w)) w w' → touches k w w'.
Proof. intros [Ho _ Hc]. split; [|done]. intros k' Hk. by rewrite Ho, lookup_insert_ne. Qed.

(** What the options ask to be compared. *)
Definition config_map_meets (opts : list ComparisonOption) (desired cm : ConfigMapObject) : Prop :=
  cmo_Data cm = cmo_Data desired ∧ cmo_Owners cm = cmo_Owners desired ∧
  (CompareLabels ∈ opts → cmo_Labels cm = cmo_Labels desired) ∧
  (CompareAnnotations ∈ opts → cmo_Annotations cm = cmo_Annotations desired).

Lemma AreSame_options actual desired opts r :
  let r' := foldl (λ r opt, match opt with
    | CompareAnnotations => (r.1, bool_decide (cmo_Annotations actual = cmo_Annotations desired))
    | CompareLabels => (bool_decide (cmo_Labels actual = cmo_Labels desired), r.2)
    end) r opts in
  r'.1 = (if bool_decide (CompareLabels ∈ opts) then bool_decide (cmo_Labels actual = cmo_Labels desired) else r.1) ∧
  r'.2 = (if bool_decide (CompareAnnotations ∈ opts) then bool_decide (cmo_Annotations actual = cmo_Annotations desired)
          else r.2).
Proof.
  cbv zeta. induction opts as [|o opts IH] in r |- *; cbn [foldl].
  { by rewrite !bool_decide_false by (apply not_elem_of_nil). }
  rewrite (proj1 (IH _)), (proj2 (IH _)). destruct o; cbn [fst snd].
  - rewrite (bool_decide_true (CompareAnnotations ∈ CompareAnnotations :: opts)) by left.
    rewrite (bool_decide_ext (CompareLabels ∈ CompareAnnotations :: opts) (CompareLabels ∈ opts)) by set_solver.
    split; [done|by destruct (bool_decide (CompareAnnotations ∈ opts))].
  - rewrite (bool_decide_true (CompareLabels ∈ CompareLabels :: opts)) by left.
    rewrite (bool_decide_ext (CompareAnnotations ∈ CompareLabels :: opts) (CompareAnnotations ∈ opts)) by set_solver.
    split; [by destruct (bool_decide (CompareLabels ∈ opts))|done].
Qed.

Lemma ConfigMaps_AreSame_spec actual desired opts :
  ConfigMaps_AreSame actual desired opts && HasSameOwner (cmo_Owners actual) (cmo_Owners desired) = true ↔
  config_map_meets opts desired actual.
Proof.
  unfold ConfigMaps_AreSame, HasSameOwner, config_map_meets.
  destruct (AreSame_options actual desired opts (true, true)) as [H1 H2].
  destruct (foldl _ _ opts) as [l a]. cbn [fst snd] in *. subst l a. rewrite !andb_true_iff, !bool_decide_eq_true.
  repeat case_bool_decide; naive_solver.
Qed.

(** What is said of a call that reconciles a config map. *)
Definition config_map_done (configMap : ConfigMapObject) (opts : list ComparisonOption) (k : key) (w : world)
    (w' : world) (r : unit + api_error) : Prop :=
  touches k w w' ∧
  (∀ e, r = inr e → w_objects w' = w_objects w) ∧
  (r = inl tt → ∃ cm, w_objects w' !! k = Some (OConfigMap cm) ∧ config_map_meets opts configMap cm) ∧
  (∀ cm, w_objects w !! k = Some (OConfigMap cm) → config_map_meets opts configMap cm → w_objects w' = w_objects w).

Lemma wp_wrong_kind {A} str k o w (Q : world → A + api_error → Prop) :
  (str = true → well_kinded w) → w_objects w !! k = Some o → kind_fits (k_Kind k) o = false →
  ∀ w1, wp str (lift wrong_kind) Q w1.
Proof.
  intros Hk Ho Hfit w1. apply wp_lift; [done|]. intros Hs. by rewrite (Hk Hs k o Ho) in Hfit.
Qed.

Lemma wp_Configmap str configMap opts w :
  (str = true → well_kinded w) →
  wp str (Configmap configMap opts)
    (config_map_done configMap opts (key_of KConfigMap (cmo_Namespace configMap) (cmo_Name configMap)) w) w.
Proof.
  intros Hk. unfold Configmap. set (k := key_of _ _ _).
  assert (∀ w' e, quiet w w' → config_map_done configMap opts k w w' (inr e)) as Herr.
  { intros w' e Hq. split; [by apply quiet_touches|]. split; [by intros; apply Hq|]. split; [done|]. by intros; apply Hq. }
  apply (wp_RetryOnConflict _ _ _ (quiet w)); [done| |by intros; apply Herr].
  intros w0 Hq0. apply wp_bind, wp_attempt, wp_Get. intros w1 r1 Hq1 Hget.
  assert (quiet w w1) as Hq by by etrans. destruct r1 as [o|e].
  - specialize (Hget o eq_refl). rewrite (q_objects _ _ Hq0) in Hget.
    destruct o; try exact (wp_wrong_kind str k _ w _ Hk Hget eq_refl w1).
    destruct (ConfigMaps_AreSame _ _ _ && _) eqn:Es.
    + apply ConfigMaps_AreSame_spec in Es. apply wp_ret. split; [by apply quiet_touches|]. split; [done|].
      split; [|by intros; apply Hq]. intros _. exists c. by rewrite (q_objects _ _ Hq).
    + apply wp_Update; [intros w2 e Hq2; split; [by etrans|]; by apply Herr; etrans|].
      intros w2 _ Hw2. rewrite (q_objects _ _ Hq) in Hw2. destruct Hw2 as [Ho2 Hl2 Hc2].
      split; [split; [intros k' Hne; by rewrite Ho2, lookup_insert_ne|by rewrite Hc2, (q_caps _ _ Hq)]|].
      split; [done|]. split.
      * intros _. eexists. rewrite Ho2. split; [apply lookup_insert_eq|]. by split_and!.
      * intros cm Hcm Hmeet. assert (cm = c) as -> by congruence.
        apply ConfigMaps_AreSame_spec in Hmeet. by rewrite Hmeet in Es.
  - destruct (IsNotFound e); [|apply wp_throw; split; [done|by apply Herr]].
    apply wp_Create; [intros w2 e' Hq2; split; [by etrans|]; by apply Herr; etrans|].
    intros w2 Hnone Hw2. rewrite (q_objects _ _ Hq) in Hw2, Hnone. destruct Hw2 as [Ho2 Hl2 Hc2].
    split; [split; [intros k' Hne; by rewrite Ho2, lookup_insert_ne|by rewrite Hc2, (q_caps _ _ Hq)]|].
    split; [done|]. split; [|by intros cm Hcm; congruence].
    intros _. exists configMap. rewrite Ho2. split; [apply lookup_insert_eq|]. by split_and!.
Qed.

(** C17. A config map after a call that reconciles it, which ends.  No other object
    changes.  If the call succeeds, the config map that is stored has the data and the
    owners asked for, and the labels or annotations that the options name; if it fails,
    after conflicts or not, nothing has changed; and one that was as asked for is left as
    it was. *)
Theorem Configmap_correct configMap opts w :
  well_kinded w →
  ∃ w' r, Configmap configMap opts w = Ret (w', r) ∧
    config_map_done configMap opts (key_of KConfigMap (cmo_Namespace configMap) (cmo_Name configMap)) w w' r.
Proof. intros Hk. apply wp_total, wp_Configmap. by intros _. Qed.

(** ** Bindings *)

(** What is said of a call that reconciles a binding; [owners] are those it leaves on one
    that is updated. *)
Definition binding_done (desired : BindingObject) (owners : BindingObject → list OwnerReference) (k : key) (w : world)
    (w' : world) (r : unit + api_error) : Prop :=
  touches k w w' ∧
  (r = inl tt → ∃ b, w_objects w' !! k = Some (OBinding b) ∧ rb_RoleRef b = rb_RoleRef desired ∧
     rb_Subjects b = rb_Subjects desired ∧
     rb_Owners b = match w_objects w !! k with
                   | Some (OBinding old) => if bool_decide (rb_RoleRef old = rb_RoleRef desired) then owners old
                                            else rb_Owners desired
                   | _ => rb_Owners desired
                   end) ∧
  (∀ e, r = inr e → w_objects w' = w_objects w ∨
     ∃ old, w_objects w !! k = Some (OBinding old) ∧ rb_RoleRef old ≠ rb_RoleRef desired ∧
       w_objects w' = delete k (w_objects w)) ∧
  (∃ entries, w_log w' = w_log w ++ entries ∧
     ((VUpdate, k) ∈ entries → ∃ old, w_objects w !! k = Some (OBinding old) ∧ rb_RoleRef old = rb_RoleRef desired)).

Lemma quiet_log w w' k v P : quiet w w' → ∃ entries, w_log w' = w_log w ++ entries ∧ ((v, k) ∈ entries → P).
Proof. intros [_ Hl _]. exists []. rewrite app_nil_r. split; [done|]. by intros ?%not_elem_of_nil. Qed.

Lemma binding_error desired owners (k : key) w w' e : quiet w w' → binding_done desired owners k w w' (inr e).
Proof.
  intros Hq. split; [by apply quiet_touches|]. split; [done|]. split; [|by apply quiet_log].
  intros ? _. left. apply Hq.
Qed.

Lemma not_binding kd b o :
  kind_fits kd (OBinding b) = true → match o with OBinding _ => False | _ => True end → kind_fits kd o = false.
Proof. by destruct kd, o. Qed.

(** The body both functions have. *)
Lemma binding_body str desired owners (k : key) w r1 w1 :
  (str = true → well_kinded w) → kind_fits (k_Kind k) (OBinding desired) = true →
  quiet w w1 → (∀ o, r1 = inl o → w_objects w !! k = Some o) →
  wp str (match r1 with
      | inr err => if IsNotFound err then Create k (OBinding desired) else throw err
      | inl (OBinding existing) =>
          if bool_decide (rb_RoleRef existing ≠ rb_RoleRef desired) then Delete k;; Create k (OBinding desired)
          else Update k (OBinding {| rb_RoleRef := rb_RoleRef existing; rb_Subjects := rb_Subjects desired;
                                     rb_Owners := owners existing |})
      | inl _ => lift wrong_kind
      end) (binding_done desired owners k w) w1.
Proof.
  intros Hk Hfit Hq Hget. destruct r1 as [o|e].
  2: { destruct (IsNotFound e); [|by apply wp_throw, binding_error].
       apply wp_Create; [intros w2 e' Hq2; apply binding_error; by etrans|]. intros w2 Hn [Ho2 Hl2 Hc2].
       rewrite (q_objects _ _ Hq) in Ho2, Hn. rewrite (q_log _ _ Hq) in Hl2. rewrite (q_caps _ _ Hq) in Hc2.
       split; [split; [intros k' Hne; by rewrite Ho2, lookup_insert_ne|done]|]. split.
       { intros _. exists desired. rewrite Ho2, lookup_insert_eq, Hn. by split_and!. }
       split; [done|]. eexists. split; [exact Hl2|]. by intros [=]%list_elem_of_singleton. }
  specialize (Hget o eq_refl).
  destruct o as [| | | | | | | | |old| | | |];
    try (refine (wp_wrong_kind str k _ w _ Hk Hget _ w1); eapply not_binding; [exact Hfit|exact I]).
  case_bool_decide as Hne.
  - apply wp_bind, wp_Delete; [intros w2 e' Hq2; apply binding_error; by etrans|]. intros w2 _ [Ho2 Hl2 Hc2].
    rewrite (q_objects _ _ Hq) in Ho2. rewrite (q_log _ _ Hq) in Hl2. rewrite (q_caps _ _ Hq) in Hc2.
    apply wp_Create.
    + intros w3 e' [Ho3 Hl3 Hc3]. split; [split; [intros k' Hk'; by rewrite Ho3, Ho2, lookup_delete_ne|congruence]|].
      split; [done|]. split; [intros _ _; right; exists old; split_and!; [done..|congruence]|].
      eexists. split; [by rewrite Hl3, Hl2|]. by intros [=]%list_elem_of_singleton.
    + intros w3 _ [Ho3 Hl3 Hc3]. rewrite Ho2, insert_delete_eq in Ho3.
      split; [split; [intros k' Hk'; by rewrite Ho3, lookup_insert_ne|congruence]|]. split.
      { intros _. exists desired. rewrite Ho3, lookup_insert_eq, Hget. rewrite bool_decide_false by done. by split_and!. }
      split; [done|]. eexists. split; [by rewrite Hl3, Hl2, <-app_assoc|].
      by intros [[=]|[=]%list_elem_of_singleton]%elem_of_cons.
  - apply wp_Update; [intros w2 e' Hq2; apply binding_error; by etrans|].
    intros w2 _ [Ho2 Hl2 Hc2]. rewrite (q_objects _ _ Hq) in Ho2. rewrite (q_log _ _ Hq) in Hl2.
    rewrite (q_caps _ _ Hq) in Hc2.
    split; [split; [intros k' Hk'; by rewrite Ho2, lookup_insert_ne|done]|]. split.
    { intros _. eexists. rewrite Ho2, lookup_insert_eq, Hget. rewrite bool_decide_true by done. by split_and!. }
    split; [done|]. eexists. split; [exact Hl2|]. intros _. by exists old.
Qed.

Lemma wp_RoleBinding str namespace name desired w :
  (str = true → well_kinded w) →
  wp str (RoleBinding namespace name desired)
    (binding_done desired (λ _, rb_Owners desired) (key_of KRoleBinding namespace name) w) w.
Proof. intros Hk. apply wp_bind, wp_attempt, wp_Get. intros w1 r1 Hq Hget. by apply binding_body. Qed.

Lemma wp_ClusterRoleBinding str name desired w :
  (str = true → well_kinded w) →
  wp str (ClusterRoleBinding name desired) (binding_done desired rb_Owners (key_of KClusterRoleBinding "" name) w) w.
Proof. intros Hk. apply wp_bind, wp_attempt, wp_Get. intros w1 r1 Hq Hget. by apply binding_body. Qed.

(** C18. A binding of a role after a call that reconciles it, which ends.  If it succeeds,
    the binding refers to the role that is wanted, for the subjects that are wanted.  The
    reference of a binding is never updated, which the server refuses: one that refers to
    another role is deleted and made again, and is gone if that fails.  After any other
    error nothing has changed, and no other object ever does.  The owners of a cluster
    role binding that exists are left as they are. *)
Theorem bindings_correct namespace name desired w :
  well_kinded w →
  (∃ w' r, RoleBinding namespace name desired w = Ret (w', r) ∧
     binding_done desired (λ _, rb_Owners desired) (key_of KRoleBinding namespace name) w w' r) ∧
  (∃ w' r, ClusterRoleBinding name desired w = Ret (w', r) ∧
     binding_done desired rb_Owners (key_of KClusterRoleBinding "" name) w w' r).
Proof.
  intros Hk. split; apply wp_total; [apply wp_RoleBinding|apply wp_ClusterRoleBinding]; by intros _.
Qed.

(** ** Security context constraints *)

Lemma sort_strings_eq l l' : sort_strings l = sort_strings l' ↔ l ≡ₚ l'.
Proof.
  split; [|apply sort_strings_proper]. intros E. by rewrite <-(sort_strings_perm l), E, sort_strings_perm.
Qed.

Lemma differ_ptr_spec {A} `{EqDecision A} (x y : option A) : differ_ptr x y = false ↔ x = y.
Proof.
  destruct x, y; cbn; [|by split..]. rewrite negb_false_iff, bool_decide_eq_true. naive_solver.
Qed.

(** What the comparison sees. *)
Record scc_alike (current desired : SCCObject) : Prop := {
  sal_priority : scc_Priority current = scc_Priority desired;
  sal_privileged : scc_AllowPrivilegedContainer current = scc_AllowPrivilegedContainer desired;
  sal_drop : scc_RequiredDropCapabilities current ≡ₚ scc_RequiredDropCapabilities desired;
  sal_hostdir : scc_AllowHostDirVolumePlugin current = scc_AllowHostDirVolumePlugin desired;
  sal_volumes : scc_Volumes desired ⊆ scc_Volumes current;
  sal_default_escalation : scc_DefaultAllowPrivilegeEscalation current = scc_DefaultAllowPrivilegeEscalation desired;
  sal_escalation : scc_AllowPrivilegeEscalation current = scc_AllowPrivilegeEscalation desired;
  sal_user : scc_RunAsUser current = scc_RunAsUser desired;
  sal_selinux : scc_SELinuxContext current = scc_SELinuxContext desired;
  sal_readonly : scc_ReadOnlyRootFilesystem current = scc_ReadOnlyRootFilesystem desired;
  sal_sysctls : scc_ForbiddenSysctls current ≡ₚ scc_ForbiddenSysctls desired;
  sal_seccomp : scc_SeccompProfiles current ≡ₚ scc_SeccompProfiles desired;
}.

Lemma sameAllowPrivilegeEscalation_spec x y : sameAllowPrivilegeEscalation x y = true ↔ x = y.
Proof.
  unfold sameAllowPrivilegeEscalation. destruct (differ_ptr x y) eqn:E1, (differ_ptr y x) eqn:E2.
  - split; [done|]. intros ->. by rewrite (proj2 (differ_ptr_spec y y)) in E1.
  - split; [done|]. intros ->. by rewrite (proj2 (differ_ptr_spec y y)) in E1.
  - split; [done|]. intros ->. by rewrite (proj2 (differ_ptr_spec y y)) in E2.
  - by apply differ_ptr_spec in E1.
Qed.

Lemma volumes_included (desired current : list string) :
  forallb (λ dv, existsb (λ cv, dv == cv) current) desired = true ↔ desired ⊆ current.
Proof.
  rewrite forallb_forall. setoid_rewrite existsb_exists. setoid_rewrite String.eqb_eq.
  split.
  - intros Hd v Hv. destruct (Hd v) as (cv & Hcv & ->); [by apply list_elem_of_In|]. by apply list_elem_of_In.
  - intros Hd v Hv%list_elem_of_In%Hd. exists v. by split; [apply list_elem_of_In|].
Qed.

Lemma differs_at (b : bool) (property : string) x : (if b then (false, property) else x).1 = true ↔ b = false ∧ x.1 = true.
Proof. destruct b; naive_solver. Qed.

Lemma eqb_false (b b' : bool) : negb (Bool.eqb b b') = false ↔ b = b'.
Proof. rewrite negb_false_iff. apply eqb_true_iff. Qed.

Lemma neq_false (s t : string) : (s != t) = false ↔ s = t.
Proof. rewrite negb_false_iff. apply String.eqb_eq. Qed.

Lemma sorted_false (l l' : list string) : bool_decide (sort_strings l ≠ sort_strings l') = false ↔ l ≡ₚ l'.
Proof. rewrite bool_decide_eq_false, <-sort_strings_eq. split; [apply dec_stable|tauto]. Qed.

Lemma same_after_priority_spec current desired :
  (same_after_priority current desired).1 = true ↔
  scc_RequiredDropCapabilities current ≡ₚ scc_RequiredDropCapabilities desired ∧
  scc_AllowHostDirVolumePlugin current = scc_AllowHostDirVolumePlugin desired ∧
  scc_Volumes desired ⊆ scc_Volumes current ∧
  scc_DefaultAllowPrivilegeEscalation current = scc_DefaultAllowPrivilegeEscalation desired ∧
  scc_AllowPrivilegeEscalation current = scc_AllowPrivilegeEscalation desired ∧
  scc_RunAsUser current = scc_RunAsUser desired ∧ scc_SELinuxContext current = scc_SELinuxContext desired ∧
  scc_ReadOnlyRootFilesystem current = scc_ReadOnlyRootFilesystem desired ∧
  scc_ForbiddenSysctls current ≡ₚ scc_ForbiddenSysctls desired ∧
  scc_SeccompProfiles current ≡ₚ scc_SeccompProfiles desired.
Proof.
  unfold same_after_priority.
  rewrite !differs_at, !sorted_false, !eqb_false, !neq_false, !negb_false_iff, !sameAllowPrivilegeEscalation_spec,
    volumes_included. cbn [fst]. tauto.
Qed.

Lemma SCC_AreSame_spec current desired :
  ((SCC_AreSame current desired).1.1 = true ↔ scc_alike current desired) ∧
  ((SCC_AreSame current desired).2 = true ↔
     scc_Priority current = scc_Priority desired ∧
     scc_AllowPrivilegedContainer current = scc_AllowPrivilegedContainer desired).
Proof.
  unfold SCC_AreSame, samePriority.
  pose proof (differ_ptr_spec (scc_Priority current) (scc_Priority desired)) as Hp.
  pose proof (eqb_false (scc_AllowPrivilegedContainer current) (scc_AllowPrivilegedContainer desired)) as Hc.
  pose proof (same_after_priority_spec current desired) as Hs.
  destruct (differ_ptr _ _); cbn [negb fst snd].
  { split; (split; [done|]); [intros []|intros []]; exfalso; by assert (true = false) by tauto. }
  destruct (negb (Bool.eqb _ _)); cbn [fst snd].
  { split; (split; [done|]); [intros []|intros []]; exfalso; by assert (true = false) by tauto. }
  split; [|tauto]. rewrite Hs. split.
  - intros. split; tauto.
  - intros []. tauto.
Qed.

(** The comparison of security context constraints.  Two are the same exactly if they
    agree on the fields it looks at: the lists of capabilities, system controls and
    profiles up to their order, the volumes as far as those that are wanted are allowed.
    No other field matters, be it the networks, ports or processes of the host a pod may
    use, the added or allowed capabilities, or the users and groups. *)
Theorem SCC_AreSame_correct current desired :
  ((SCC_AreSame current desired).1.1 = true ↔ scc_alike current desired) ∧
  ((SCC_AreSame current desired).2 = true ↔
     scc_Priority current = scc_Priority desired ∧
     scc_AllowPrivilegedContainer current = scc_AllowPrivilegedContainer desired).
Proof. apply SCC_AreSame_spec. Qed.

(** What is said of a call that reconciles security context constraints: those that are
    stored are alike to what is wanted, and the capabilities of the process, which the call
    may sort, are the same but for their order. *)
Definition scc_done (name : string) (desired : SCCObject) (w w' : world) (r : unit + api_error) : Prop :=
  (∀ k', k' ≠ key_of KSCC "" name → w_objects w' !! k' = w_objects w !! k') ∧
  (w_dropCaps w' = w_dropCaps w ∨ w_dropCaps w' = sort_strings (w_dropCaps w)) ∧
  (∀ e, r = inr e → w_objects w' = w_objects w) ∧
  (r = inl tt → ∃ scc, w_objects w' !! key_of KSCC "" name = Some (OSCC scc) ∧
     scc_alike scc (set_drop desired (w_dropCaps w))).

Lemma scc_alike_refl scc caps caps' : caps ≡ₚ caps' → scc_alike (set_drop scc caps) (set_drop scc caps').
Proof. intros Hc. by split. Qed.

Lemma update_drop desired current caps : update (set_drop desired caps) current = set_drop desired caps.
Proof. done. Qed.

(** The state of an attempt: only the capabilities may have changed. *)
Definition resorted (w w' : world) : Prop :=
  w_objects w' = w_objects w ∧ (w_dropCaps w' = w_dropCaps w ∨ w_dropCaps w' = sort_strings (w_dropCaps w)).

Lemma sort_strings_idemp l : sort_strings (sort_strings l) = sort_strings l.
Proof. apply sort_strings_proper, sort_strings_perm. Qed.

Lemma resorted_perm w w' : resorted w w' → w_dropCaps w' ≡ₚ w_dropCaps w.
Proof. intros [_ [-> | ->]]; [done|apply sort_strings_perm]. Qed.

Lemma scc_error name desired w w' e : resorted w w' → scc_done name desired w w' (inr e).
Proof. intros [Ho Hc]. unfold scc_done. rewrite Ho. by split_and!. Qed.

Lemma wp_SecurityContextConstraints str name desired w :
  (str = true → well_kinded w) →
  wp str (SecurityContextConstraints name desired) (scc_done name desired w) w.
Proof.
  intros Hk. set (k := key_of KSCC "" name).
  apply (wp_RetryOnConflict _ _ _ (resorted w)); [by split; [|left]| |by intros; apply scc_error].
  intros w0 Hr0. apply wp_bind, wp_get_world, wp_bind, wp_attempt, wp_Get. intros w1 r1 Hq1 Hget.
  assert (resorted w w1) as Hr1 by (destruct Hr0; split; [by rewrite (q_objects _ _ Hq1)|by rewrite (q_caps _ _ Hq1)]).
  assert (∀ w2 w3, resorted w w2 → quiet w2 w3 → resorted w w3) as Htrans.
  { intros w2 w3 [Ho Hc] []. by split; congruence || (destruct Hc; [left|right]; congruence). }
  fold k in Hget |- *. destruct r1 as [o|e].
  - specialize (Hget o eq_refl). rewrite (proj1 Hr0) in Hget.
    destruct o as [| | | | | | | | | |current| | |]; try exact (wp_wrong_kind str k _ w _ Hk Hget eq_refl w1).
    pose proof (proj1 (SCC_AreSame_spec current (set_drop desired (w_dropCaps w0)))) as Hs.
    destruct (SCC_AreSame current _) as [[same property] sorted]. cbn [fst snd] in Hs.
    set (caps := if sorted then _ else _).
    assert (caps = w_dropCaps w ∨ caps = sort_strings (w_dropCaps w)) as Hcaps.
    { subst caps. destruct Hr0 as [_ [-> | ->]], sorted; rewrite ?sort_strings_idemp; auto. }
    apply wp_bind. change (wp str (if same then mret tt else Update k (OSCC (update (set_drop desired caps) current)))
      (λ w' r, match r with inl _ => scc_done name desired w w' r | inr _ => resorted w w' ∧ scc_done name desired w w' r end)
      {| w_objects := w_objects w1; w_clock := w_clock w1; w_log := w_log w1; w_dropCaps := caps |}).
    set (w2 := {| w_objects := _ |}). assert (resorted w w2) as Hr2 by (split; [apply Hr1|done]). destruct same.
    + apply wp_ret. destruct (proj1 Hs eq_refl). split; [by intros; rewrite (proj1 Hr2)|]. split; [done|]. split; [done|].
      intros _. exists current. rewrite (proj1 Hr2). split; [done|]. split; try done.
      cbn in *. by rewrite <-(resorted_perm w w0 Hr0).
    + apply wp_Update; [intros w3 e Hq3; split; [by eapply Htrans|]; by eapply scc_error, Htrans|].
      intros w3 _ [Ho3 Hl3 Hc3]. rewrite (proj1 Hr2) in Ho3. fold k. split; [|split; [|split; [done|]]].
      * intros k' Hne. by rewrite Ho3, lookup_insert_ne.
      * by rewrite Hc3.
      * intros _. eexists. rewrite Ho3. split; [apply lookup_insert_eq|]. rewrite update_drop. apply scc_alike_refl.
        destruct Hcaps as [-> | ->]; [done|apply sort_strings_perm].
  - destruct (IsNotFound e); [|apply wp_throw; split; [done|by apply scc_error]].
    apply wp_Create; [intros w2 e' Hq2; split; [by eapply Htrans|]; by eapply scc_error, Htrans|].
    intros w2 Hnone [Ho2 Hl2 Hc2]. rewrite (proj1 Hr1) in Ho2. split; [|split; [|split; [done|]]].
    + intros k' Hne. by rewrite Ho2, lookup_insert_ne.
    + rewrite Hc2. apply Hr1.
    + intros _. eexists. rewrite Ho2. split; [apply lookup_insert_eq|]. by apply scc_alike_refl, resorted_perm.
Qed.
End spec.
