(* ===== verification/ClusterProgress.v ===== *)
(** * Calls that go through

    [goes m Q w]: from a state whose objects are of the kinds of their keys, [m] ends
    without a panic in such a state; with a server that answers every request it ends
    without an error; and its results satisfy [Q].  The rules for the operations of
    [Cluster], and the reconciliations of [ReconcileObjects] all go through. *)

From S2P Require Import Prelude GoStrings ApiCommon ApiForwarder Reconcile Network InputServices Workload Cluster.
From S2P Require Import ReconcileObjects ReconcileObjectsSpec.

Section rules.
Context `{ApiServer}.

Definition goes {A} (m : K A) (Q : world → A → Prop) (w : world) : Prop :=
  wp true m (λ w' r, well_kinded w' ∧ (never_fails → ∃ a, r = inl a) ∧ ∀ a, r = inl a → Q w' a) w.

Lemma goes_ends {A} (m : K A) Q w : goes m Q w →
  ∃ w' r, m w = Ret (w', r) ∧ well_kinded w' ∧ (never_fails → ∃ a, r = inl a) ∧ ∀ a, r = inl a → Q w' a.
Proof. apply wp_total. Qed.

(** What is known of the call besides. *)
Lemma goes_and {A} (m : K A) Q (R : world → A + api_error → Prop) w :
  goes m Q w → wp false m R w → goes m (λ w' a, Q w' a ∧ R w' (inl a)) w.
Proof.
  unfold goes, wp. destruct (m w) as [[w' r]| |]; [|done..]. intros (Hk & Hs & HQ) HR. split; [done|]. split; [done|].
  intros a Ha. subst r. split; [by apply HQ|exact HR].
Qed.

Lemma goes_and_wp {A} (m : K A) Q (R : world → A + api_error → Prop) w :
  goes m Q w → wp false m R w → wp true m (λ w' r, well_kinded w' ∧ (never_fails → ∃ a, r = inl a) ∧ R w' r) w.
Proof. unfold goes, wp. destruct (m w) as [[w' r]| |]; [|done..]. by intros (? & ? & _) ?. Qed.

Lemma goes_mono {A} (m : K A) (Q Q' : world → A → Prop) w :
  goes m Q w → (∀ w' a, well_kinded w' → Q w' a → Q' w' a) → goes m Q' w.
Proof. intros Hm HQ. eapply wp_mono; [exact Hm|]. intros w' r (Hk & Hs & Hr). split_and!; auto. Qed.

Lemma goes_ret {A} (a : A) (Q : world → A → Prop) w : well_kinded w → Q w a → goes (mret a) Q w.
Proof. intros Hk HQ. split; [done|]. split; [by exists a|]. by intros ? [= <-]. Qed.

Lemma goes_throw {A} e (Q : world → A → Prop) w : well_kinded w → ¬ never_fails → goes (throw e) Q w.
Proof. intros Hk Hn. split; [done|]. split; [done|]. by intros ? [=]. Qed.

Lemma goes_bind {A B} (m : K A) (f : A → K B) Q w :
  goes m (λ w1 a, well_kinded w1 → goes (f a) Q w1) w → goes (m ≫= f) Q w.
Proof.
  intros Hm. apply wp_bind. eapply wp_mono; [exact Hm|]. intros w1 [a|e] (Hk & Hs & Hf); [by apply Hf|].
  split; [done|]. split; [|by intros ? [=]]. intros Hn. by destruct (Hs Hn).
Qed.

Lemma goes_lift {A} (o : outcome A) (Q : world → A → Prop) w :
  well_kinded w → returns o → (∀ a, o = Ret a → Q w a) → goes (lift o) Q w.
Proof.
  intros Hk Ho HQ. apply wp_lift; [|by intros _]. intros a Ha. split; [done|]. split; [by exists a|].
  intros ? [= <-]. by apply HQ.
Qed.

(** Two calls, the first of which leaves a state of which nothing more is known. *)
Lemma goes_seq {A B} (m : K A) (f : A → K B) Q w :
  goes m (λ _ _, True) w → (∀ w1 a, well_kinded w1 → goes (f a) Q w1) → goes (m ≫= f) Q w.
Proof. intros Hm Hf. apply goes_bind. eapply goes_mono; [exact Hm|]. auto. Qed.

Lemma goes_get_world {A} (f : world → K A) Q w : goes (f w) Q w → goes (get_world ≫= f) Q w.
Proof. intros Hf. apply wp_bind, wp_get_world. exact Hf. Qed.

(** An error as a value. *)
Lemma goes_attempt {A B} (m : K A) (f : A + api_error → K B) Q w :
  wp true m (λ w' r, goes (f r) Q w') w → goes (attempt m ≫= f) Q w.
Proof. intros Hm. by apply wp_bind, wp_attempt. Qed.

Lemma well_kinded_quiet w w' : quiet w w' → well_kinded w → well_kinded w'.
Proof. intros [Ho _ _] Hk k o. rewrite Ho. apply Hk. Qed.

Lemma well_kinded_insert w w' k o :
  w_objects w' = <[k := o]> (w_objects w) → kind_fits (k_Kind k) o = true → well_kinded w → well_kinded w'.
Proof. intros Ho Hf Hk k' o'. rewrite Ho, lookup_insert_Some. intros [[<- <-]|[_ ?]]; [done|by apply Hk]. Qed.

Lemma well_kinded_delete w w' k : w_objects w' = delete k (w_objects w) → well_kinded w → well_kinded w'.
Proof. intros Ho Hk k' o'. rewrite Ho, lookup_delete_Some. intros [_ ?]. by apply Hk. Qed.

(** ** Requests *)

Lemma ask_cases v k w : ∃ w1, quiet w w1 ∧
  (ask v k w = Ret (w1, inl tt) ∨ ∃ e, ask v k w = Ret (w1, inr e) ∧ ¬ never_fails).
Proof.
  unfold ask. destruct (answer _ _ _) as [e|] eqn:E; eexists; (split; [|first [by left|right; eexists; split; [reflexivity|]]]); try done.
  intros Hn. by rewrite (Hn _ _ _) in E.
Qed.

(** A request that is answered, and then what the server does. *)
Lemma wp_asked {A} v k (f : unit → K A) (Q : world → A + api_error → Prop) w :
  (∀ w1 e, quiet w w1 → ¬ never_fails → Q w1 (inr e)) → (∀ w1, quiet w w1 → wp true (f tt) Q w1) →
  wp true (ask v k ≫= f) Q w.
Proof.
  intros He Hf. apply wp_bind. unfold wp at 1. destruct (ask_cases v k w) as (w1 & Hq & [E|(e & E & Hn)]); rewrite E.
  - by apply Hf.
  - by apply He.
Qed.

Lemma goes_asked {A} v k (f : unit → K A) Q w :
  well_kinded w → (∀ w1, quiet w w1 → well_kinded w1 → goes (f tt) Q w1) → goes (ask v k ≫= f) Q w.
Proof.
  intros Hk Hf. apply wp_asked.
  - intros w1 e Hq Hn. split; [by eapply well_kinded_quiet|]. split; [done|]. by intros ? [=].
  - intros w1 Hq. apply Hf; [done|]. by eapply well_kinded_quiet.
Qed.

Lemma wp_Get_found k (Q : world → object + api_error → Prop) w :
  well_kinded w →
  (∀ w1 o, quiet w w1 → well_kinded w1 → w_objects w !! k = Some o → kind_fits (k_Kind k) o = true → Q w1 (inl o)) →
  (∀ w1 e, quiet w w1 → well_kinded w1 → (never_fails → e = not_found k ∧ w_objects w !! k = None) → Q w1 (inr e)) →
  wp true (Get k) Q w.
Proof.
  intros Hk Hok Herr. apply wp_asked.
  - intros w1 e Hq Hn. apply Herr; [done|by eapply well_kinded_quiet|done].
  - intros w1 Hq. apply wp_bind, wp_get_world. rewrite (q_objects _ _ Hq).
    pose proof (well_kinded_quiet _ _ Hq Hk). destruct (w_objects w !! k) as [o|] eqn:E.
    + apply wp_ret, Hok; try done. by apply Hk.
    + by apply wp_throw, Herr.
Qed.

Lemma goes_Create k o w :
  well_kinded w → kind_fits (k_Kind k) o = true → (never_fails → w_objects w !! k = None) →
  goes (Create k o) (λ w' _, w_objects w' = <[k := o]> (w_objects w)) w.
Proof.
  intros Hk Hf Hn. apply goes_asked; [done|]. intros w1 Hq Hk1. apply goes_get_world. rewrite (q_objects _ _ Hq).
  destruct (w_objects w !! k) eqn:E; [apply goes_throw; [done|]; intros Hno; by specialize (Hn Hno)|].
  apply wp_write. intros w2 [Ho _ _]. split; [by eapply well_kinded_insert; [exact Ho| |]; [|eapply well_kinded_quiet]|].
  split; [by exists tt|]. by intros [] _.
Qed.

Lemma goes_Update k o w :
  well_kinded w → kind_fits (k_Kind k) o = true → (never_fails → is_Some (w_objects w !! k)) →
  goes (Update k o) (λ w' _, w_objects w' = <[k := o]> (w_objects w)) w.
Proof.
  intros Hk Hf Hn. apply goes_asked; [done|]. intros w1 Hq Hk1. apply goes_get_world. rewrite (q_objects _ _ Hq).
  destruct (w_objects w !! k) eqn:E; [|apply goes_throw; [done|]; intros Hno; by destruct (Hn Hno)].
  apply wp_write. intros w2 [Ho _ _]. split; [by eapply well_kinded_insert; [exact Ho| |]; [|eapply well_kinded_quiet]|].
  split; [by exists tt|]. by intros [] _.
Qed.

Lemma wp_Delete_found k (Q : world → unit + api_error → Prop) w :
  well_kinded w → (∀ w1, well_kinded w1 → w_objects w1 = delete k (w_objects w) → Q w1 (inl tt)) →
  (∀ w1 e, well_kinded w1 → (never_fails → e = not_found k ∧ w_objects w !! k = None) → Q w1 (inr e)) →
  wp true (Delete k) Q w.
Proof.
  intros Hk Hok Herr. apply wp_asked.
  - intros w1 e Hq Hn. by apply Herr; [eapply well_kinded_quiet|].
  - intros w1 Hq. apply wp_bind, wp_get_world. pose proof (well_kinded_quiet _ _ Hq Hk) as Hk1. rewrite (q_objects _ _ Hq).
    destruct (w_objects w !! k) as [o|] eqn:E; [|by apply wp_throw, Herr].
    apply wp_write. intros w2 [Ho _ _]. apply Hok; [|done]. by eapply well_kinded_delete.
Qed.

Lemma goes_CreateOrUpdate k mutate w :
  well_kinded w → (∀ o, kind_fits (k_Kind k) (mutate o) = true) → goes (CreateOrUpdate k mutate) (λ _ _, True) w.
Proof.
  intros Hk Hf. apply goes_attempt, wp_Get_found; [done|..].
  - intros w1 o Hq Hk1 Ho _. case_bool_decide; [by apply goes_ret|]. eapply goes_mono; [apply goes_Update; [done..|]|done].
    intros _. by rewrite (q_objects _ _ Hq), Ho.
  - intros w1 e Hq Hk1 Hn. destruct (IsNotFound e) eqn:E.
    + eapply goes_mono; [apply goes_Create; [done..|]|done]. intros Hno. rewrite (q_objects _ _ Hq). by apply Hn.
    + apply goes_throw; [done|]. intros Hno. by destruct (Hn Hno) as [-> _].
Qed.

(** The first attempt of a loop goes through if every one does. *)
Lemma goes_RetryOnConflict steps fn w :
  (∀ w, well_kinded w → goes fn (λ _ _, True) w) → well_kinded w → steps ≠ 0 →
  goes (RetryOnConflict steps fn) (λ _ _, True) w.
Proof.
  intros Hfn Hk Hs. destruct steps as [|steps]; [done|]. clear Hs. induction steps as [|steps IH] in w, Hk |- *;
    cbn [RetryOnConflict]; apply goes_attempt; (eapply wp_mono; [by apply Hfn|]);
    intros w1 [[]|e] (Hk1 & Hs & _); try by apply goes_ret.
  - rewrite andb_false_r. apply goes_throw; [done|]. intros Hn. by destruct (Hs Hn).
  - destruct (_ && _); [by apply IH|]. apply goes_throw; [done|]. intros Hn. by destruct (Hs Hn).
Qed.
End rules.

(** ** Reconciliations of one object *)

Section reconciliations.
Context `{ApiServer}.

(** An object of another kind is not found. *)
Ltac other_kind := match goal with Hf : kind_fits _ _ = true |- _ => discriminate Hf end.

Lemma goes_Configmap configMap opts w : well_kinded w → goes (Configmap configMap opts) (λ _ _, True) w.
Proof.
  intros Hk. apply goes_RetryOnConflict; [|done..]. clear w Hk. intros w Hk.
  apply goes_attempt, wp_Get_found; [done|..].
  - intros w1 o Hq Hk1 Ho Hf. destruct o; try other_kind. destruct (_ && _); [by apply goes_ret|].
    eapply goes_mono; [apply goes_Update; [done..|]|done]. intros _. by rewrite (q_objects _ _ Hq), Ho.
  - intros w1 e Hq Hk1 Hn. destruct (IsNotFound e) eqn:E.
    + eapply goes_mono; [apply goes_Create; [done..|]|done]. intros Hno. rewrite (q_objects _ _ Hq). by apply Hn.
    + apply goes_throw; [done|]. intros Hno. by destruct (Hn Hno) as [-> _].
Qed.

Lemma goes_binding (k : key) desired (owners : BindingObject → list OwnerReference) w :
  well_kinded w → k_Kind k = KRoleBinding ∨ k_Kind k = KClusterRoleBinding →
  goes (r ← attempt (Get k);
    match r with
    | inr err => if IsNotFound err then Create k (OBinding desired) else throw err
    | inl (OBinding existing) =>
        if bool_decide (rb_RoleRef existing ≠ rb_RoleRef desired) then Delete k;; Create k (OBinding desired)
        else Update k (OBinding {| rb_RoleRef := rb_RoleRef existing; rb_Subjects := rb_Subjects desired;
                                   rb_Owners := owners existing |})
    | inl _ => lift wrong_kind
    end) (λ _ _, True) w.
Proof.
  intros Hk Hkd. assert (∀ b, kind_fits (k_Kind k) (OBinding b) = true) as Hfit by (by destruct Hkd as [-> | ->]).
  apply goes_attempt, wp_Get_found; [done|..].
  - intros w1 o Hq Hk1 Ho Hf. destruct o; try (by destruct Hkd as [E|E]; rewrite E in Hf; discriminate Hf).
    case_bool_decide.
    + apply wp_bind, wp_Delete_found; [done|..].
      * intros w2 Hk2 Ho2. eapply goes_mono; [apply goes_Create; [done..|]|done]. intros _. by rewrite Ho2, lookup_delete_eq.
      * intros w2 e Hk2 Hn. split; [done|]. split; [|by intros ? [=]]. intros Hno. destruct (Hn Hno) as [_ Hnone].
        by rewrite (q_objects _ _ Hq), Ho in Hnone.
    + eapply goes_mono; [apply goes_Update; [done..|]|done]. intros _. by rewrite (q_objects _ _ Hq), Ho.
  - intros w1 e Hq Hk1 Hn. destruct (IsNotFound e) eqn:E.
    + eapply goes_mono; [apply goes_Create; [done..|]|done]. intros Hno. rewrite (q_objects _ _ Hq). by apply Hn.
    + apply goes_throw; [done|]. intros Hno. by destruct (Hn Hno) as [-> _].
Qed.

Lemma goes_RoleBinding namespace name desired w :
  well_kinded w → goes (RoleBinding namespace name desired) (λ _ _, True) w.
Proof. intros Hk. apply (goes_binding _ _ (λ _, rb_Owners desired)); [done|by left]. Qed.

Lemma goes_ClusterRoleBinding name desired w : well_kinded w → goes (ClusterRoleBinding name desired) (λ _ _, True) w.
Proof. intros Hk. apply (goes_binding _ _ rb_Owners); [done|by right]. Qed.

(** A deletion that does not mind if there is nothing to delete. *)
Lemma goes_delete k (throws : api_error → K unit) w :
  well_kinded w → (∀ w e, well_kinded w → ¬ never_fails → goes (throws e) (λ _ _, True) w) →
  goes (r ← attempt (Delete k);
    match r with inl tt => mret tt | inr err => if IsNotFound err then mret tt else throws err end) (λ _ _, True) w.
Proof.
  intros Hk Ht. apply goes_attempt, wp_Delete_found; [done|..].
  - intros w1 Hk1 _. by apply goes_ret.
  - intros w1 e Hk1 Hn. destruct (IsNotFound e) eqn:E; [by apply goes_ret|]. apply Ht; [done|]. intros Hno.
    by destruct (Hn Hno) as [-> _].
Qed.

Lemma goes_delete_ignoring_absence k w : well_kinded w → goes (delete_ignoring_absence k) (λ _ _, True) w.
Proof. intros Hk. apply goes_delete; [done|]. intros. by apply goes_throw. Qed.

Lemma goes_reconcile_service namespace desired w : well_kinded w → goes (reconcile_service namespace desired) (λ _ _, True) w.
Proof. intros Hk. by apply goes_CreateOrUpdate. Qed.

Lemma goes_SecurityContextConstraints name desired w :
  well_kinded w → goes (SecurityContextConstraints name desired) (λ _ _, True) w.
Proof.
  intros Hk. apply goes_RetryOnConflict; [|done..]. clear w Hk. intros w Hk. apply goes_get_world.
  apply goes_attempt, wp_Get_found; [done|..].
  - intros w1 o Hq Hk1 Ho Hf. destruct o; try other_kind. destruct (SCC_AreSame _ _) as [[same ?] sorted].
    apply wp_bind. set (caps := if sorted then _ else _). unfold wp, set_dropCaps. set (w2 := {| w_objects := _ |}).
    change (goes (if same then mret tt else Update (key_of KSCC "" name) (OSCC (update (set_drop desired caps) s))) (λ _ _, True) w2).
    assert (well_kinded w2) as Hk2 by exact Hk1. destruct same; [by apply goes_ret|].
    eapply goes_mono; [apply goes_Update; [done..|]|done]. intros _. subst w2. cbn [w_objects].
    by rewrite (q_objects _ _ Hq), Ho.
  - intros w1 e Hq Hk1 Hn. destruct (IsNotFound e) eqn:E.
    + eapply goes_mono; [apply goes_Create; [done..|]|done]. intros Hno. rewrite (q_objects _ _ Hq). by apply Hn.
    + apply goes_throw; [done|]. intros Hno. by destruct (Hn Hno) as [-> _].
Qed.

(** ** Roles, accounts and tokens *)

Lemma goes_ReconcileRBAC rbacName ns sa owner w : well_kinded w → goes (ReconcileRBAC rbacName ns sa owner) (λ _ _, True) w.
Proof.
  intros Hk. apply goes_seq; [by apply goes_ClusterRoleBinding|]. clear w Hk. intros w _ Hk.
  apply goes_seq; [by apply goes_CreateOrUpdate|]. clear w Hk. intros w _ Hk.
  apply goes_seq; [by apply goes_RoleBinding|]. clear w Hk. intros w _ Hk.
  apply goes_seq.
  { apply goes_asked; [done|]. intros w1 _ Hk1. apply goes_get_world. by apply goes_ret. }
  clear w Hk. intros w l Hk. destruct (existsb _ _); [by apply goes_ret|by apply goes_delete_ignoring_absence].
Qed.

Lemma goes_TokenSecret name sa namespace secret owner w :
  well_kinded w → goes (ReconcileServiceAccountTokenSecret (Some (name, sa)) namespace secret owner) (λ _ _, True) w.
Proof.
  intros Hk. apply goes_attempt, wp_Get_found; [done|..].
  - intros w1 o Hq Hk1 Ho Hf. destruct o; try other_kind. by apply goes_ret.
  - intros w1 e Hq Hk1 Hn. destruct (IsNotFound e) eqn:E; cbn [negb].
    2: { apply goes_throw; [done|]. intros Hno. by destruct (Hn Hno) as [-> _]. }
    apply goes_attempt. eapply wp_mono; [apply goes_Create; [done..|]|].
    { intros Hno. rewrite (q_objects _ _ Hq). by apply Hn. }
    intros w2 [[]|e2] (Hk2 & Hs & _); [by apply goes_ret|]. apply goes_throw; [done|]. intros Hno. by destruct (Hs Hno).
Qed.

Lemma goes_ReconcileServiceAccount ns names owner w :
  well_kinded w → goes (ReconcileServiceAccount ns names owner) (λ _ _, True) w.
Proof.
  intros Hk. unfold ReconcileServiceAccount. destruct (_ && _); [|by apply goes_ret].
  apply goes_seq.
  2: { clear w Hk. intros w sa Hk. apply goes_seq; [by apply goes_TokenSecret|]. intros. by apply goes_ret. }
  unfold reconcile_ServiceAccount. apply goes_bind.
  match goal with |- goes (CreateOrUpdate ?k ?m) _ _ => set (mutate := m); set (k0 := k) end.
  eapply goes_mono; [apply goes_and; [by apply goes_CreateOrUpdate|]|].
  { apply (wp_CreateOrUpdate _ k0 mutate (λ w' r, r = inl tt → w_objects w' !! k0 = Some (mutate (w_objects w !! k0)))).
    intros w' r [_ Hok _] Hr. by rewrite (Hok Hr), lookup_insert_eq. }
  intros w1 [] Hk1 [_ Ho] _. apply goes_get_world. rewrite (Ho eq_refl). by apply goes_ret.
Qed.
End reconciliations.
