(* ===== verification/CollectorObjects.v ===== *)
(** * The resources of a collector ([internal/controller/observability/collector.go])

    [ReconcileCollector] and what it calls: the bundle of trusted certificates
    ([internal/collector/trust_bundle.go]), the file of credentials, the configuration, the
    workload, the services and the network policy, and the monitors of its metrics
    ([internal/metrics]).  The steps are taken in the order of the code, and the first
    error ends them. *)

From S2P Require Import Prelude GoStrings ApiCommon ApiInputs ApiOutputs ApiForwarder Sets ObsResources ObsInputs ObsOutputs ObsForwarder.
From S2P Require Import ValidateCommon GoTime OutputCommon ValidateOutputs Reconcile AwsAuth VrlText Transforms Tls Network Config InputServices.
From S2P Require Import Md5 Workload Cluster ReconcileObjects.

(** ** Monitors of metrics ([internal/metrics/relabel.go], [service_monitor.go]) *)

Record metricDropConfig := { mdc_labelName : string; mdc_labelValue : string; mdc_excludeMetrics : list string }.

Definition collectorMinimalAllowlist : list string :=
  ["logcollector_component_event_unmatched_count"; "vector_http_client_errors_total";
   "vector_http_client_requests_sent_total"; "vector_http_client_responses_total"; "vector_buffer_byte_size";
   "vector_component_errors_total"; "vector_component_received_events_total";
   "vector_component_discarded_events_total"; "vector_component_received_bytes_total";
   "vector_component_sent_bytes_total"; "vector_component_received_event_bytes_total"; "vector_open_files";
   "vector_buffer_discarded_events_total"; "vector_buffer_events"; "vector_buffer_sent_events_total";
   "vector_events_in_total"].

Definition collectorMinimalDropConfigs : list metricDropConfig :=
  [{| mdc_labelName := "component_kind"; mdc_labelValue := "transform";
      mdc_excludeMetrics := ["vector_component_received_bytes_total"; "vector_component_received_event_bytes_total";
        "vector_component_received_events_total"; "vector_component_sent_bytes_total"] |}].

Definition collectorTelemetryAllowlist : list string := ["vector_component_received_bytes_total"].
Definition lfmeMinimalAllowlist : list string := ["log_logged_bytes_total"].
Definition lfmeTelemetryAllowlist : list string := ["log_logged_bytes_total"].

(** A list that is not given is [None]; one without metrics is as if it were not. *)
Definition buildRelabelConfigs (allowlist : option (list string)) (dropConfigs : list metricDropConfig) : list RelabelConfig :=
  [{| rlc_SourceLabels := ["__name__"]; rlc_TargetLabel := "__name__"; rlc_Regex := "(.*)-(.*)";
      rlc_Replacement := "${1}_${2}"; rlc_Action := "" |}]
  ++ (match allowlist with
      | Some ((_ :: _) as allowed) =>
          [{| rlc_SourceLabels := ["__name__"]; rlc_TargetLabel := ""; rlc_Regex := Join allowed "|";
              rlc_Replacement := ""; rlc_Action := "keep" |}]
      | _ => []
      end)
  ++ ((λ drop, {| rlc_SourceLabels := [mdc_labelName drop; "__name__"]; rlc_TargetLabel := "";
        rlc_Regex := mdc_labelValue drop +:+ ";(" +:+ Join (mdc_excludeMetrics drop) "|" +:+ ")";
        rlc_Replacement := ""; rlc_Action := "drop" |}) <$> dropConfigs).

Definition CollectorMinimalRelabelConfigs : list RelabelConfig :=
  buildRelabelConfigs (Some collectorMinimalAllowlist) collectorMinimalDropConfigs.
Definition LFMEMinimalRelabelConfigs : list RelabelConfig := buildRelabelConfigs (Some lfmeMinimalAllowlist) [].
Definition CollectorTelemetryRelabelConfigs : list RelabelConfig := buildRelabelConfigs (Some collectorTelemetryAllowlist) [].
Definition LFMETelemetryRelabelConfigs : list RelabelConfig := buildRelabelConfigs (Some lfmeTelemetryAllowlist) [].
Definition FullRelabelConfigs : list RelabelConfig := buildRelabelConfigs None [].

Definition MetricsCollectionProfileFull : string := "full".
Definition MetricsCollectionProfileMinimal : string := "minimal".
Definition MetricsCollectionProfileTelemetry : string := "telemetry".
Definition LabelMetricsCollectionProfile : string := "monitoring.openshift.io/collection-profile".

Definition newServiceMonitor (namespace name serviceName : string) (owner : OwnerReference)
    (selector : gmap string string) (portName : string) (metricRelabelConfigs : list RelabelConfig) (profile : string) :
    ServiceMonitorObject := {|
  smon_Labels := {[LabelMetricsCollectionProfile := profile]}; smon_Annotations := ∅;
  smon_Owners := AddOwnerRef [] owner; smon_JobLabel := "monitor-" +:+ name;
  smon_Endpoints := [{| ep_Port := portName; ep_Path := "/metrics"; ep_Scheme := "https";
    ep_BearerTokenFile := "/var/run/secrets/kubernetes.io/serviceaccount/token";
    ep_CAFile := "/etc/prometheus/configmaps/serving-certs-ca-bundle/service-ca.crt";
    ep_ServerName := serviceName +:+ "." +:+ namespace +:+ ".svc"; ep_MetricRelabelConfigs := metricRelabelConfigs |}];
  smon_Selector := selector; smon_MatchNames := [namespace];
  smon_PodTargetLabels := [LabelK8sName; LabelK8sComponent; LabelK8sPartOf; LabelK8sInstance] |}.

Definition BuildSelector (component instance : string) : gmap string string :=
  {[LabelLoggingServiceType := ServiceTypeMetrics; LabelK8sComponent := component; LabelK8sInstance := instance]}.

Section monitors.
Context `{ApiServer}.

Definition ReconcileServiceMonitor (namespace name serviceName : string) (owner : OwnerReference)
    (selector : gmap string string) (portName : string) (metricRelabelConfigs : list RelabelConfig) (profile : string) :
    K unit :=
  reconcile_ServiceMonitor namespace name
    (newServiceMonitor namespace name serviceName owner selector portName metricRelabelConfigs profile).

(** ** The trusted certificates ([trust_bundle.go]) *)

Definition InjectTrustedCABundleLabel : string := "config.openshift.io/inject-trusted-cabundle".

(** The data are the cluster's. *)
Definition ReconcileTrustedCABundleConfigMap (namespace name : string) (owner : OwnerReference) : K unit :=
  CreateOrUpdate (key_of KConfigMap namespace name) (λ current, OConfigMap {|
    cmo_Namespace := namespace; cmo_Name := name; cmo_Labels := {[InjectTrustedCABundleLabel := "true"]};
    cmo_Annotations := match current with Some (OConfigMap c) => cmo_Annotations c | _ => ∅ end;
    cmo_Owners := [owner];
    cmo_Data := match current with Some (OConfigMap c) => cmo_Data c | _ => ∅ end |}).

(** The polls of [wait.PollUntilContextTimeout], as many as fit in the time: the config map
    that was read last, populated or not. *)
Fixpoint WaitForTrustedCAToBePopulated (polls : nat) (k : key) (cm : ConfigMap) : K ConfigMap :=
  match polls with
  | O => mret cm
  | S polls =>
      r ← attempt (Get k);
      match r with
      | inl (OConfigMap c) =>
          let cm := {| cm_Name := cmo_Name c; cm_Data := cmo_Data c |} in
          match hasTrustedCABundle (Some cm) with
          | Some _ => mret cm
          | None => WaitForTrustedCAToBePopulated polls k cm
          end
      | inl _ => lift wrong_kind
      | inr _ => WaitForTrustedCAToBePopulated polls k cm
      end
  end.

Definition ConfigMap_zero : ConfigMap := {| cm_Name := ""; cm_Data := ∅ |}.

(** ** The file of credentials ([collector/aws/credentials.go]) *)

Definition AwsCredentialsKey : string := "credentials".

Definition ReconcileCredsFile (clusterID : option string) (namespace name clfName : string) (outputs : list OutputSpec)
    (secrets : Secrets) (owner : OwnerReference) : K (option ConfigMap) :=
  credString ← lift (GenerateCredString clusterID clfName outputs secrets);
  if credString == "" then mret None
  else
    Configmap {| cmo_Namespace := namespace; cmo_Name := name; cmo_Labels := ∅; cmo_Annotations := ∅;
      cmo_Owners := AddOwnerRef [] owner; cmo_Data := {[AwsCredentialsKey := credString]} |} [];;
    mret (Some {| cm_Name := name; cm_Data := {[AwsCredentialsKey := credString]} |}).

(** ** Network policies ([internal/network/network_policy.go]) *)

Definition RemoveNetworkPolicy (namespace name : string) : K unit :=
  r ← attempt (Delete (key_of KNetworkPolicy namespace name));
  match r with
  | inl tt => mret tt
  | inr err => if IsNotFound err then mret tt else
      throw (Errorf ("failure deleting networkPolicy " +:+ namespace +:+ "/" +:+ name +:+ ": " +:+ ae_Message err))
  end.

(** ** The services of the receivers ([runtime/service], [collector/input_service.go])

    The services of a namespace by name: what the server lists. *)
Definition service_of (namespace : string) (k : key) (o : object) : option Service :=
  match k_Kind k, o with
  | KService, OService s => if k_Namespace k == namespace then Some s else None
  | _, _ => None
  end.

Definition services_of (namespace : string) (objects : gmap key object) : gmap string Service :=
  list_to_map (omap (λ ko : key * object,
    s ← service_of namespace ko.1 ko.2; Some (k_Name ko.1, s)) (map_to_list objects)).

Definition for_each {A} (f : A → K unit) : list A → K unit :=
  fix go l := match l with [] => mret tt | x :: l => f x;; go l end.

(** [service.List]: the services, with their names, that have a label of that value. *)
Definition ListServices `{RangeOrder} (namespace label value : string) : K (list (string * Service)) :=
  r ← attempt (ask VList (key_of KService namespace ""));
  match r with
  | inl tt =>
      w ← get_world;
      mret (filter (λ item : string * Service, svc_Labels item.2 !! label = Some value)
                   (range (services_of namespace (w_objects w))))
  | inr err => throw (Errorf ("failure listing services with label: " +:+ label +:+ "=" +:+ value +:+ ",  " +:+ ae_Message err))
  end.

(** [service.Delete]. *)
Definition delete_service (namespace name : string) : K unit :=
  r ← attempt (Delete (key_of KService namespace name));
  match r with
  | inl tt => mret tt
  | inr err => if IsNotFound err then mret tt else
      throw (Errorf ("failure deleting service " +:+ namespace +:+ "/" +:+ name +:+ ": " +:+ ae_Message err))
  end.

Definition remove_orphan (namespace : string) (owner : OwnerReference) (names : gset string)
    (item : string * Service) : K unit :=
  if HasSameOwner (svc_Owners item.2) [owner] && negb (Has names item.1) then delete_service namespace item.1
  else mret tt.

Definition remove_orphaned_input_services `{RangeOrder} (namespace : string) (names : ForwarderResourceNames)
    (inputs : list InputSpec) (owner : OwnerReference) : K unit :=
  for_each (λ receiverType,
    items ← ListServices namespace LabelLoggingInputServiceType receiverType;
    defined ← lift (receiver_names names inputs receiverType);
    for_each (remove_orphan namespace owner defined) items) ReceiverTypes.

(** One turn of the loop over the inputs. *)
Definition serve_input (namespace : string) (names : ForwarderResourceNames) (owner : OwnerReference)
    (visit : visitor) (input : InputSpec) : K unit :=
  match in_Receiver input with
  | None => mret tt
  | Some r =>
      let serviceName := GenerateInputServiceName names (in_Name input) in
      reconcile_service namespace (input_service serviceName (CommonName names) serviceName
        (recv_Port r) (recv_Port r) (recv_Type r) owner visit)
  end.

Definition reconcile_input_services `{RangeOrder} (namespace : string) (names : ForwarderResourceNames)
    (inputs : list InputSpec) (owner : OwnerReference) (visit : visitor) : K unit :=
  remove_orphaned_input_services namespace names inputs owner;;
  for_each (serve_input namespace names owner visit) inputs.
End monitors.

(** ** The configuration *)

Definition EnableDebugOutput : string := "debug-output".
Definition AnnotationDebugOutput : string := "logging.openshift.io/debug-output".

Definition EvaluateAnnotationsForEnabledCapabilities (annotations : gmap string string) (options : Options) : Options :=
  match annotations !! AnnotationDebugOutput with
  | Some value => if ToLower value == "true" then <[EnableDebugOutput := AnyString "true"]> options else options
  | None => options
  end.

Section collector.
Context `{RangeOrder, UintOfFloat, OpenshiftTLS, Host, ApiServer}.
Context (parse_url : string → option URL) (parse_other : string → option instant).
(** [toml.Marshal] of the configuration, [intstr.Parse] and the environment. *)
Context (Marshal : Config → string + string) (Parse : string → IntOrString).
Context (Getenv : string → string) (ExtraNoProxyList : list string).
(** The order in which Go visits the sets of ports. *)
Context (visit_egress : gset PortProtocol → list PortProtocol) (visit_ingress : gset Z → list Z).
(** What is read of the cluster besides the objects: the profile of its API server, if it
    can be read, and its identifier; and how often a time-out lets poll. *)
Context (apiServerProfile : option TLSSecurityProfile) (clusterID : option string) (polls : nat).

Definition GenerateConfig (clf : ClusterLogForwarder) (secrets : Secrets) (op : Options) : K string :=
  let op := <[ClusterTLSProfileSpec := AnyTLSProfileSpec (GetClusterTLSProfileSpec apiServerProfile)]> op in
  let op := EvaluateAnnotationsForEnabledCapabilities (clf_Annotations clf) op in
  r ← lift (Conf parse_url parse_other secrets (clf_Spec clf) (clf_Namespace clf) (clf_Name clf) op);
  match r with
  | inr err => throw (Errorf err)
  | inl (config, _) =>
      match Marshal config with
      | inl text => mret text
      | inr err => throw (Errorf err)
      end
  end.

Definition ReconcileCollectorConfig (f : Factory) (namespace collectorConfig : string) (owner : OwnerReference) : K unit :=
  Configmap (collector_config_map f namespace collectorConfig owner) [CompareLabels].

Definition own_ds (d : DaemonSetObject) (owner : OwnerReference) : DaemonSetObject := {|
  ds_Namespace := ds_Namespace d; ds_Name := ds_Name d; ds_Labels := ds_Labels d;
  ds_Owners := AddOwnerRef (ds_Owners d) owner; ds_Selector := ds_Selector d; ds_Template := ds_Template d;
  ds_UpdateStrategy := ds_UpdateStrategy d; ds_MaxUnavailable := ds_MaxUnavailable d |}.

Definition own_dpl (d : DeploymentObject) (owner : OwnerReference) : DeploymentObject := {|
  dpl_Namespace := dpl_Namespace d; dpl_Name := dpl_Name d; dpl_Labels := dpl_Labels d;
  dpl_Owners := AddOwnerRef (dpl_Owners d) owner; dpl_Selector := dpl_Selector d; dpl_Template := dpl_Template d;
  dpl_Replicas := dpl_Replicas d |}.

Definition ReconcileDaemonset (f : Factory) (namespace : string) (trustedCABundle : option ConfigMap)
    (owner : OwnerReference) : K unit :=
  w ← get_world;
  desired ← lift (NewDaemonSet Getenv ExtraNoProxyList (w_dropCaps w) Parse f namespace
                    (CommonName (f_ResourceNames f)) trustedCABundle);
  reconcile_DaemonSet (own_ds desired owner).

Definition ReconcileDeployment (f : Factory) (namespace : string) (trustedCABundle : option ConfigMap)
    (owner : OwnerReference) : K unit :=
  w ← get_world;
  desired ← lift (NewDeployment Getenv ExtraNoProxyList (w_dropCaps w) f namespace
                    (CommonName (f_ResourceNames f)) trustedCABundle);
  reconcile_Deployment (own_dpl desired owner).

Definition ReconcileClusterLogForwarderNetworkPolicy (namespace policyName instanceName component policyRuleSet : string)
    (outputs : list OutputSpec) (inputs : list InputSpec) (ownerRef : OwnerReference) (visit : visitor) : K unit :=
  desired ← lift (ForwarderNetworkPolicy parse_url visit_egress visit_ingress (GetProxyEnvVars Getenv ExtraNoProxyList)
                    namespace policyName instanceName component policyRuleSet outputs inputs visit);
  reconcile_NetworkPolicy {| pol_Policy := desired; pol_Owners := AddOwnerRef [] ownerRef |}.

(** ** The parts of [ReconcileCollector], in their order *)

(** A map of the context that is written to: it panics if it is nil. *)
Definition assign {V} (m : option (gmap string V)) : outcome (gmap string V) :=
  match m with Some m => Ret m | None => Panic "assignment to entry in nil map" end.

(** The secret of the token, for the outputs that need one: with it among the secrets, and
    its name among the options. *)
Definition token_step (clf : ClusterLogForwarder) (names : ForwarderResourceNames) (owner : OwnerReference)
    (secrets : option Secrets) (options : Options) : K (Secrets * Options) :=
  needed ← lift (NeedServiceAccountToken (spec_Outputs (clf_Spec clf)));
  if (needed : bool) then
    let saName := sa_Name (spec_ServiceAccount (clf_Spec clf)) in
    o ← Get (key_of KServiceAccount (clf_Namespace clf) saName);
    sa ← (match o with OServiceAccount sa => mret sa | _ => lift wrong_kind end : K ServiceAccountObject);
    secret ← ReconcileServiceAccountTokenSecret (Some (saName, sa)) (clf_Namespace clf)
               (ServiceAccountTokenSecret names) owner;
    secrets ← lift (assign secrets);
    mret (<[ServiceAccountTokenSecret names := {| secret_Name := ServiceAccountTokenSecret names;
             secret_Data := sec_Data secret |}]> secrets,
          <[OptionServiceAccountTokenSecretName := AnyString (ServiceAccountTokenSecret names)]> options)
  else mret (default ∅ secrets, options).

Definition access_step (clf : ClusterLogForwarder) (names : ForwarderResourceNames) (owner : OwnerReference) : K unit :=
  let saName := sa_Name (spec_ServiceAccount (clf_Spec clf)) in
  ReconcileRBAC (clf_Name clf) (clf_Namespace clf) saName owner;;
  ReconcileMetricsAuthRBAC (MetricsAuthClusterRoleBinding names) (clf_Namespace clf) saName.

Definition creds_step (clf : ClusterLogForwarder) (names : ForwarderResourceNames) (owner : OwnerReference)
    (secrets : Secrets) (configMaps : option ConfigMaps) : K ConfigMaps :=
  if RequiresProfilesConfigMap (spec_Outputs (clf_Spec clf)) then
    cm ← ReconcileCredsFile clusterID (clf_Namespace clf) (AwsCredentialsFile names) (clf_Name clf)
           (spec_Outputs (clf_Spec clf)) secrets owner;
    match cm with
    | Some cm => configMaps ← lift (assign configMaps); mret (<[cm_Name cm := cm]> configMaps)
    | None => mret (default ∅ configMaps)
    end
  else mret (default ∅ configMaps).

Definition workload_step (f : Factory) (clf : ClusterLogForwarder) (collectorConfig : string)
    (trustedCABundle : ConfigMap) (owner : OwnerReference) : K unit :=
  ReconcileCollectorConfig f (clf_Namespace clf) collectorConfig owner;;
  if f_isDaemonset f then ReconcileDaemonset f (clf_Namespace clf) (Some trustedCABundle) owner
  else ReconcileDeployment f (clf_Namespace clf) (Some trustedCABundle) owner.

Definition network_step (f : Factory) (clf : ClusterLogForwarder) (names : ForwarderResourceNames) (owner : OwnerReference) :
    K unit :=
  let networkPolicyName := CollectorName +:+ "-" +:+ CommonName names in
  match spec_Collector (clf_Spec clf) ⇀ coll_NetworkPolicy with
  | Some policy =>
      ReconcileClusterLogForwarderNetworkPolicy (clf_Namespace clf) networkPolicyName (clf_Name clf) CollectorName
        (np_RuleSet policy) (spec_Outputs (clf_Spec clf)) (spec_Inputs (clf_Spec clf)) owner
        (f_CommonLabelInitializer f)
  | None => RemoveNetworkPolicy (clf_Namespace clf) networkPolicyName
  end.

Definition metrics_step (f : Factory) (clf : ClusterLogForwarder) (names : ForwarderResourceNames) (owner : OwnerReference) :
    K unit :=
  let ns := clf_Namespace clf in
  let metricsSelector := BuildSelector CollectorName (CommonName names) in
  reconcile_service ns (metrics_service (CommonName names) (clf_Name clf) CollectorName MetricsPortName
    (SecretMetrics names) MetricsPort owner (f_CommonLabelInitializer f));;
  ReconcileServiceMonitor ns (CommonName names) (CommonName names) owner metricsSelector MetricsPortName
    FullRelabelConfigs MetricsCollectionProfileFull;;
  ReconcileServiceMonitor ns (MetricsCollectionProfileMinimal +:+ "-" +:+ CommonName names) (CommonName names) owner
    metricsSelector MetricsPortName CollectorMinimalRelabelConfigs MetricsCollectionProfileMinimal;;
  ReconcileServiceMonitor ns (MetricsCollectionProfileTelemetry +:+ "-" +:+ CommonName names) (CommonName names) owner
    metricsSelector MetricsPortName CollectorTelemetryRelabelConfigs MetricsCollectionProfileTelemetry.

Definition ReconcileCollector (context : ForwarderContext) (ownerRef : OwnerReference) : K unit :=
  SecurityContextConstraints sccName NewSCC;;
  let clf := ctx_Forwarder context in
  let names := ResourceNames clf in
  so ← token_step clf names ownerRef (ctx_Secrets context) (ctx_AdditionalContext context);
  let '(secrets, options) := so : Secrets * Options in
  access_step clf names ownerRef;;
  ReconcileTrustedCABundleConfigMap (clf_Namespace clf) (CaTrustBundle names) ownerRef;;
  trustedCABundle ← WaitForTrustedCAToBePopulated polls (key_of KConfigMap (clf_Namespace clf) (CaTrustBundle names))
                      ConfigMap_zero;
  configMaps ← creds_step clf names ownerRef secrets (ctx_ConfigMaps context);
  collectorConfig ← GenerateConfig clf secrets options;
  let f := New (CalculateMD5Hash collectorConfig) (ctx_ClusterID context) (spec_Collector (clf_Spec clf)) secrets
             configMaps (clf_Spec clf) names (negb (DeployAsDeployment clf)) (clf_Annotations clf) in
  workload_step f clf collectorConfig trustedCABundle ownerRef;;
  reconcile_input_services (clf_Namespace clf) names (spec_Inputs (clf_Spec clf)) ownerRef (f_CommonLabelInitializer f);;
  network_step f clf names ownerRef;;
  metrics_step f clf names ownerRef.
End collector.
