(* ===== verification/CollectorProgress.v ===== *)
(** * The reconciliation of a collector goes through

    For a forwarder whose configuration can be put together, on a server that answers every
    request, [ReconcileCollector] ends without an error; whatever the server answers, it
    ends and does not panic.  Its loops over the services of the receivers refine those of
    [InputServices]. *)

From S2P Require Import Prelude GoStrings ApiCommon ApiInputs ApiOutputs ApiForwarder Sets ObsResources ObsInputs ObsOutputs ObsForwarder.
From S2P Require Import ValidateCommon GoTime SinkTypes SourcesSpec OutputCommon OutputsSpec LokiStackSpec ValidateOutputs Reconcile AwsAuth VrlText.
From S2P Require Import Transforms Tls Network Config ConfigSpec InputServices Md5 Workload WorkloadSpec Cluster ReconcileObjects.
From S2P Require Import ReconcileObjectsSpec ClusterProgress CollectorObjects.

Section monitors.
Context `{ApiServer}.

Lemma goes_ServiceMonitor ns name service owner selector port relabel profile w :
  well_kinded w → goes (ReconcileServiceMonitor ns name service owner selector port relabel profile) (λ _ _, True) w.
Proof. intros Hk. by apply goes_CreateOrUpdate. Qed.

Lemma goes_RemoveNetworkPolicy ns name w : well_kinded w → goes (RemoveNetworkPolicy ns name) (λ _ _, True) w.
Proof. intros Hk. apply goes_delete; [done|]. intros. by apply goes_throw. Qed.

Lemma goes_WaitForTrustedCA n ns name cm w :
  well_kinded w → goes (WaitForTrustedCAToBePopulated n (key_of KConfigMap ns name) cm) (λ _ _, True) w.
Proof.
  induction n as [|n IH] in w, cm |- *; intros Hk; cbn [WaitForTrustedCAToBePopulated]; [by apply goes_ret|].
  apply goes_attempt, wp_Get_found; [done|..].
  - intros w1 o _ Hk1 _ Hf. destruct o; try discriminate Hf.
    destruct (hasTrustedCABundle _); [by apply goes_ret|by apply IH].
  - intros w1 e _ Hk1 _. by apply IH.
Qed.

(** ** The services of the receivers *)

Lemma goes_for_each {A} (f : A → K unit) (l : list A) w :
  well_kinded w → (∀ x w, x ∈ l → well_kinded w → goes (f x) (λ _ _, True) w) → goes (for_each f l) (λ _ _, True) w.
Proof.
  intros Hk Hf. induction l as [|x l IH] in w, Hk, Hf |- *; cbn [for_each]; [by apply goes_ret|].
  apply goes_seq; [apply Hf; [by left|done]|]. intros w1 [] Hk1. apply IH; [done|]. intros y w2 Hy. apply Hf. by right.
Qed.

Lemma goes_ListServices `{RangeOrder} ns label value w :
  well_kinded w → goes (ListServices ns label value) (λ w' items, quiet w w' ∧
    items = filter (λ item : string * Service, svc_Labels item.2 !! label = Some value)
              (range (services_of ns (w_objects w)))) w.
Proof.
  intros Hk. apply goes_attempt. unfold wp at 1. destruct (ask_cases VList (key_of KService ns "") w) as (w1 & Hq & Ha).
  pose proof (well_kinded_quiet _ _ Hq Hk) as Hk1. destruct Ha as [->|(e & -> & Hn)]; [|by apply goes_throw].
  apply goes_get_world, goes_ret; [done|]. by rewrite (q_objects _ _ Hq).
Qed.

Lemma goes_remove_orphan ns owner names item w :
  well_kinded w → goes (remove_orphan ns owner names item) (λ _ _, True) w.
Proof.
  intros Hk. unfold remove_orphan. destruct (_ && _); [|by apply goes_ret].
  apply goes_delete; [done|]. intros. by apply goes_throw.
Qed.

Lemma goes_input_services `{RangeOrder} ns names inputs owner visit w :
  well_kinded w → receivers_present inputs →
  goes (reconcile_input_services ns names inputs owner visit) (λ _ _, True) w.
Proof.
  intros Hk Hr. apply goes_seq.
  - apply goes_for_each; [done|]. clear w Hk. intros t w _ Hk.
    apply goes_seq; [eapply goes_mono; [by apply goes_ListServices|done]|]. clear w Hk. intros w items Hk.
    destruct (receiver_names_spec (λ _, None) (λ _, None) (λ _, None) names inputs t Hr) as (defined & E & _).
    apply goes_seq; [apply goes_lift; [done|by exists defined|done]|]. clear w Hk. intros w d Hk.
    apply goes_for_each; [done|]. intros. by apply goes_remove_orphan.
  - clear w Hk. intros w _ Hk. apply goes_for_each; [done|]. clear w Hk. intros i w _ Hk.
    unfold serve_input. destruct (in_Receiver i); [by apply goes_reconcile_service|by apply goes_ret].
Qed.
End monitors.

(** ** The services of the receivers, as a map

    On a server that answers every request the loops over the objects of the cluster do to
    the services of the namespace what [InputServices] says of them as a map by name. *)
Lemma omap_keys_NoDup {A} (f : key * object → option (string * A)) (ns : string) l :
  (∀ ko p, f ko = Some p → ko.1 = key_of KService ns p.1) → NoDup l.*1 → NoDup (omap f l).*1.
Proof.
  intros Hf. induction l as [|ko l IH]; [by constructor|]. cbn [fmap list_fmap omap list_omap].
  intros [Hno Hl]%NoDup_cons. destruct (f ko) as [p|] eqn:E; [|by apply IH]. cbn [fmap list_fmap].
  apply NoDup_cons. split; [|by apply IH].
  intros (p' & Hp & (ko' & Hin & E')%list_elem_of_omap)%list_elem_of_fmap. apply Hno, list_elem_of_fmap. exists ko'.
  split; [|done]. by rewrite (Hf _ _ E), (Hf _ _ E'), Hp.
Qed.

Lemma service_of_inv ns k o s :
  service_of ns k o = Some s → k = key_of KService ns (k_Name k) ∧ o = OService s.
Proof.
  unfold service_of. destruct k as [kd ns' n], kd; try done. destruct o as [| | | |s'| | | | | | | | |]; try done. cbn.
  destruct (String.eqb_spec ns' ns) as [->|]; [|done]. by intros [= <-].
Qed.

Lemma services_of_lookup ns objects n s :
  services_of ns objects !! n = Some s ↔ objects !! key_of KService ns n = Some (OService s).
Proof.
  unfold services_of. rewrite <-elem_of_list_to_map.
  2: { apply (omap_keys_NoDup _ ns); [|apply NoDup_fst_map_to_list].
       by intros [k o] p (s' & [Hk _]%service_of_inv & [= <-])%bind_Some. }
  rewrite list_elem_of_omap. split.
  - intros ([k o] & Hin%elem_of_map_to_list & (s' & Hs & E)%bind_Some). cbn [fst snd] in *.
    apply service_of_inv in Hs as [Hk ->]. congruence.
  - intros Hl. exists (key_of KService ns n, OService s). rewrite elem_of_map_to_list. split; [done|].
    unfold service_of, key_of. cbn. by rewrite String.eqb_refl.
Qed.

Lemma services_of_insert ns objects n s :
  services_of ns (<[key_of KService ns n := OService s]> objects) = <[n := s]> (services_of ns objects).
Proof.
  apply map_eq. intros n'. apply option_eq. intros s'.
  rewrite services_of_lookup, !lookup_insert_Some, services_of_lookup. unfold key_of. naive_solver.
Qed.

Lemma services_of_delete ns objects n :
  services_of ns (delete (key_of KService ns n) objects) = delete n (services_of ns objects).
Proof.
  apply map_eq. intros n'. apply option_eq. intros s'.
  rewrite services_of_lookup, !lookup_delete_Some, services_of_lookup. unfold key_of. naive_solver.
Qed.

Section refinement.
Context `{ApiServer, RangeOrder} (ns : string) (names : ForwarderResourceNames) (inputs : list InputSpec).
Context (owner : OwnerReference) (Hno : never_fails).

Notation none := (λ _ : string, @None string).

(** The services of the world are those of the map. *)
Definition holds (store : gmap string Service) (w : world) : Prop :=
  well_kinded w ∧ services_of ns (w_objects w) = store ∧ store_wf store.

(** A call that ends without an error and leaves these services. *)
Definition leaves (m : K unit) (store : gmap string Service) (w : world) : Prop :=
  wp true m (λ w' r, r = inl tt ∧ holds store w') w.

Lemma leaves_seq (m m' : K unit) store store' w :
  leaves m store w → (∀ w1, holds store w1 → leaves m' store' w1) → leaves (m;; m') store' w.
Proof. intros Hm Hm'. apply wp_bind. eapply wp_mono; [exact Hm|]. intros w1 r [-> Hw]. by apply Hm'. Qed.

Lemma delete_service_leaves n store w :
  holds store w → leaves (delete_service ns n) (delete n store) w.
Proof.
  intros (Hk & <- & Hwf). apply wp_bind, wp_attempt, wp_asked; [by intros w1 e _ Hf|].
  intros w1 Hq. apply wp_bind, wp_get_world. rewrite (q_objects _ _ Hq). pose proof (well_kinded_quiet _ _ Hq Hk) as Hk1.
  assert (store_wf (delete n (services_of ns (w_objects w)))) as Hwf'.
  { intros k s [_ Hl]%lookup_delete_Some. by apply Hwf. }
  destruct (w_objects w !! key_of KService ns n) as [o|] eqn:E.
  - apply wp_write. intros w2 [Ho _ _]. apply wp_ret. split; [done|]. split; [by eapply well_kinded_delete|].
    by rewrite Ho, services_of_delete.
  - apply wp_throw. cbn. apply wp_ret. split; [done|]. split; [done|]. split; [|done].
    rewrite (q_objects _ _ Hq), delete_id; [done|]. apply eq_None_not_Some. intros [s Hs%services_of_lookup]. congruence.
Qed.

Lemma reconcile_service_leaves desired store w :
  holds store w → leaves (reconcile_service ns desired) (reconcile_Service none store desired).1 w.
Proof.
  intros (Hk & <- & Hwf). eapply wp_mono.
  { eapply goes_and_wp; [by apply goes_reconcile_service|]. apply wp_CreateOrUpdate. intros w' r Hr. exact Hr. }
  intros w1 r (Hk1 & Hs & [_ Hok _]). destruct (Hs Hno) as [[] ->]. specialize (Hok eq_refl). split; [done|].
  cbn [reconcile_Service fst]. split; [done|]. split.
  - rewrite Hok, services_of_insert. f_equal. f_equal. destruct (services_of _ _ !! _) as [s|] eqn:E.
    + apply services_of_lookup in E. by rewrite E.
    + destruct (w_objects w !! _) as [o|] eqn:Eo; [|done]. pose proof (Hk _ _ Eo) as Hf.
      destruct o as [| | | |s| | | | | | | | |]; try discriminate Hf. apply services_of_lookup in Eo. congruence.
  - intros k s [[<- <-]|[_ ?]]%lookup_insert_Some; [done|by apply Hwf].
Qed.

Lemma remove_orphans_leaves defined items store store' w :
  (∀ item, item ∈ items → svc_Name item.2 = item.1) →
  remove_orphans none owner defined store items.*2 = (store', None) → holds store w →
  leaves (for_each (remove_orphan ns owner defined) items) store' w.
Proof.
  induction items as [|item items IH] in store, w |- *; intros Hn; cbn [fmap list_fmap remove_orphans for_each].
  { intros [= <-] Hw. by apply wp_ret. }
  apply forall_cons_iff in Hn as [Hname Hn]. unfold InputServices.Delete. rewrite Hname.
  destruct (HasSameOwner (svc_Owners item.2) [owner] && negb (Has defined item.1)) eqn:Ec; intros E Hw.
  - eapply leaves_seq; [unfold remove_orphan; rewrite Ec; by apply delete_service_leaves|]. intros w1. by apply IH.
  - apply (leaves_seq _ _ store); [unfold remove_orphan; rewrite Ec; by apply wp_ret|]. intros w1. by apply IH.
Qed.

Lemma filter_snd (label value : string) (l : list (string * Service)) :
  filter (λ s, svc_Labels s !! label = Some value) l.*2 =
  (filter (λ item : string * Service, svc_Labels item.2 !! label = Some value) l).*2.
Proof.
  induction l as [|item l IH]; [done|]. cbn [fmap list_fmap]. rewrite !filter_cons.
  case_decide; cbn [fmap list_fmap]; by rewrite IH.
Qed.

Lemma remove_of_type_leaves t store store' w :
  remove_of_type none none names inputs owner store t = Ret (store', None) → holds store w →
  leaves (items ← ListServices ns LabelLoggingInputServiceType t; defined ← lift (receiver_names names inputs t);
          for_each (remove_orphan ns owner defined) items) store' w.
Proof.
  unfold remove_of_type, InputServices.List. intros (defined & Ed & E)%bind_ret_inv Hw. rewrite filter_snd in E.
  injection E as E. apply wp_bind. eapply wp_mono.
  { unfold ListServices. apply goes_ListServices, Hw. }
  intros w1 r (Hk1 & Hs & Hr). destruct (Hs Hno) as [items ->]. destruct (Hr _ eq_refl) as [Hq ->].
  destruct Hw as (Hk & <- & Hwf). apply wp_bind. rewrite Ed. apply wp_lift; [|by exists defined]. intros d [= <-].
  eapply remove_orphans_leaves; [|exact E|].
  - intros [n s] [_ Hin%elem_of_range]%list_elem_of_filter. by apply Hwf.
  - split; [done|]. by rewrite (q_objects _ _ Hq).
Qed.

Lemma orphans_leaves store store' w :
  RemoveOrphanedInputServices none none names inputs owner store = Ret (store', None) → holds store w →
  leaves (remove_orphaned_input_services ns names inputs owner) store' w.
Proof.
  unfold RemoveOrphanedInputServices, remove_orphaned_input_services.
  induction ReceiverTypes as [|t types IH] in store, w |- *; cbn [foldM for_each]; [intros [= <-] Hw; by apply wp_ret|].
  intros ([s1 [e|]] & E1 & E)%bind_ret_inv Hw.
  { exfalso. clear -E. induction types as [|t' types IH]; cbn [foldM] in E; [done|]. by apply IH. }
  eapply leaves_seq; [by eapply remove_of_type_leaves|]. intros w1. by apply IH.
Qed.

Lemma serve_inputs_leaves visit l store w :
  holds store w →
  leaves (for_each (serve_input ns names owner visit) l)
    (foldl (reconcile_input none names owner visit) (store, None) l).1 w.
Proof.
  induction l as [|i l IH] in store, w |- *; intros Hw; cbn [for_each foldl]; [by apply wp_ret|].
  eapply leaves_seq.
  - unfold serve_input. instantiate (1 := (reconcile_input none names owner visit (store, None) i).1).
    unfold reconcile_input. destruct (in_Receiver i); [by apply reconcile_service_leaves|by apply wp_ret].
  - intros w1 H1. replace (reconcile_input none names owner visit (store, None) i)
      with ((reconcile_input none names owner visit (store, None) i).1, @None string); [by apply IH|].
    unfold reconcile_input. by destruct (in_Receiver i).
Qed.

(** The reconciliation of the services in the cluster refines the one over the map. *)
Lemma input_services_refine visit w :
  well_kinded w → store_wf (services_of ns (w_objects w)) → receivers_present inputs →
  ∃ store, ReconcileInputServices none none none names inputs owner (services_of ns (w_objects w)) visit = Ret (store, None) ∧
    leaves (reconcile_input_services ns names inputs owner visit) store w.
Proof.
  intros Hk Hwf Hr.
  destruct (ReconcileInputServices_returns none none none names inputs owner (services_of ns (w_objects w)) visit Hr)
    as ([store e] & E & He).
  assert (e = None) as -> by (by apply He). exists store. split; [exact E|].
  apply bind_ret_inv in E as ([s1 e1] & E1 & [= E2]).
  destruct e1 as [e1|].
  { exfalso. clear -E2. induction inputs as [|i l IH]; cbn [foldl] in E2; [done|]. by apply IH. }
  eapply leaves_seq; [by eapply orphans_leaves|]. intros w1 Hw1.
  change store with (store, @None string).1. rewrite <-E2. by apply serve_inputs_leaves.
Qed.
End refinement.

Section collector.
Context `{RangeOrder, UintOfFloat, OpenshiftTLS, Host, ApiServer}.
Context (parse_url : string → option URL) (parse_other : string → option instant).
Context (Marshal : Config → string + string) (Parse : string → IntOrString).
Context (Getenv : string → string) (ExtraNoProxyList : list string).
Context (visit_egress : gset PortProtocol → list PortProtocol) (visit_ingress : gset Z → list Z).
Context (apiServerProfile : option TLSSecurityProfile) (clusterID : option string) (polls : nat).

(** What the reconciliation of a collector needs: a cluster with the service account of a
    token that is wanted, a context with its maps, outputs as the API server admits them,
    a spec whose configuration can be put together and that the encoder takes, and addresses
    with ports for the policy that is asked for. *)
Record deployable (context : ForwarderContext) (w : world) : Prop := {
  dp_kinds : well_kinded w;
  dp_secrets : is_Some (ctx_Secrets context);
  dp_configmaps : is_Some (ctx_ConfigMaps context);
  dp_options : op_ok (ctx_AdditionalContext context);
  dp_account :
    NeedServiceAccountToken (spec_Outputs (clf_Spec (ctx_Forwarder context))) = Ret true →
    is_Some (w_objects w !! key_of KServiceAccount (clf_Namespace (ctx_Forwarder context))
      (sa_Name (spec_ServiceAccount (clf_Spec (ctx_Forwarder context)))));
  dp_config : ∃ regexp_compiles, config_ready regexp_compiles parse_url (clf_Spec (ctx_Forwarder context));
  dp_encoder : ∀ config, ∃ text, Marshal config = inl text;
  dp_roles : ∀ o, o ∈ spec_Outputs (clf_Spec (ctx_Forwarder context)) → role_token_ok o;
  dp_ports : ∀ policy, spec_Collector (clf_Spec (ctx_Forwarder context)) ⇀ coll_NetworkPolicy = Some policy →
    returns (DetermineEgressPortProtocols parse_url (GetProxyEnvVars Getenv ExtraNoProxyList)
      (spec_Outputs (clf_Spec (ctx_Forwarder context))) (np_RuleSet policy));
}.

Section steps.
Context (context : ForwarderContext) (owner : OwnerReference).
Notation clf := (ctx_Forwarder context).
Notation names := (ResourceNames clf).

Lemma deployable_outputs w o : deployable context w → o ∈ spec_Outputs (clf_Spec clf) → output_admitted o.
Proof. intros Hd Ho. destruct (dp_config _ _ Hd) as [rc Hc]. by apply (or_admitted _ _ _ (cfr_outputs _ _ _ Hc o Ho)). Qed.

Lemma goes_token_step w :
  deployable context w →
  goes (token_step clf names owner (ctx_Secrets context) (ctx_AdditionalContext context)) (λ _ so, op_ok so.2) w.
Proof.
  intros Hd. pose proof (dp_kinds _ _ Hd) as Hk. apply goes_bind, goes_lift; [done|..].
  { apply NeedServiceAccountToken_returns. intros o. by apply (deployable_outputs w). }
  intros [|] Hneed _; [|by apply goes_ret; [|apply (dp_options _ _ Hd)]].
  destruct (dp_account _ _ Hd Hneed) as [o Ho]. apply wp_bind, wp_Get_found; [done|..].
  2: { intros w1 e _ Hk1 Hn. split; [done|]. split; [|by intros ? [=]]. intros Hno. destruct (Hn Hno) as [_ Hnone].
       by rewrite Ho in Hnone. }
  intros w1 o' _ Hk1 Ho' Hf. assert (o' = o) as -> by congruence. destruct o; try discriminate Hf.
  apply goes_bind, goes_ret; [done|]. intros _. apply goes_seq; [by apply goes_TokenSecret|]. intros w2 secret Hk2.
  destruct (dp_secrets _ _ Hd) as [secrets ->]. apply goes_bind, goes_lift; [done|by exists secrets|]. intros ? _ _.
  apply goes_ret; [done|]. cbn [snd]. apply op_ok_insert; [apply (dp_options _ _ Hd)|]. option_type.
Qed.

Lemma goes_creds_step w1 w secrets :
  deployable context w1 → well_kinded w →
  goes (creds_step clusterID clf names owner secrets (ctx_ConfigMaps context)) (λ _ _, True) w.
Proof.
  intros Hd Hk. unfold creds_step. destruct (RequiresProfilesConfigMap _); [|by apply goes_ret].
  apply goes_seq.
  - apply goes_bind, goes_lift; [done|by apply GenerateCredString_returns, (dp_roles _ _ Hd)|].
    intros creds _ _. destruct (creds == ""); [by apply goes_ret|].
    apply goes_seq; [by apply goes_Configmap|]. intros. by apply goes_ret.
  - intros w2 [cm|] Hk2; [|by apply goes_ret]. destruct (dp_configmaps _ _ Hd) as [cms ->].
    apply goes_bind, goes_lift; [done|by exists cms|]. intros. by apply goes_ret.
Qed.

Lemma annotated_ok annotations op : op_ok op → op_ok (EvaluateAnnotationsForEnabledCapabilities annotations op).
Proof.
  intros Hop. unfold EvaluateAnnotationsForEnabledCapabilities. destruct (annotations !! _); [|done].
  destruct (_ == _); [|done]. apply op_ok_insert; [done|]. option_type.
Qed.

Lemma goes_GenerateConfig w1 w secrets op :
  deployable context w1 → well_kinded w → op_ok op →
  goes (GenerateConfig parse_url parse_other Marshal apiServerProfile clf secrets op) (λ _ _, True) w.
Proof.
  intros Hd Hk Hop. destruct (dp_config _ _ Hd) as [rc Hc].
  assert (op_ok (EvaluateAnnotationsForEnabledCapabilities (clf_Annotations clf)
    (<[ClusterTLSProfileSpec := AnyTLSProfileSpec (GetClusterTLSProfileSpec apiServerProfile)]> op))) as Hop'.
  { apply annotated_ok, op_ok_insert; [done|]. option_type. }
  destruct (Conf_returns parse_url parse_other rc secrets (clf_Spec clf) (clf_Namespace clf) (clf_Name clf) _ Hc Hop') as [[config op'] E].
  unfold GenerateConfig. cbv zeta. rewrite E. apply goes_bind, goes_lift; [done|by eexists|]. intros ? <-%Ret_inj _.
  destruct (dp_encoder _ _ Hd config) as [text ->]. by apply goes_ret.
Qed.

Lemma goes_workload_step w1 w f text trusted :
  deployable context w1 → well_kinded w → f_ForwarderSpec f = clf_Spec clf →
  goes (workload_step Parse Getenv ExtraNoProxyList f clf text trusted owner) (λ _ _, True) w.
Proof.
  intros Hd Hk Hf. assert (∀ o, o ∈ spec_Outputs (f_ForwarderSpec f) → output_admitted o) as Ho.
  { rewrite Hf. intros o. by apply (deployable_outputs w1). }
  unfold workload_step. apply goes_seq; [by apply goes_Configmap|]. clear w Hk. intros w _ Hk.
  destruct (f_isDaemonset f); apply goes_get_world, goes_bind, goes_lift; try done;
    [by apply NewDaemonSet_returns| |by apply NewDeployment_returns|]; intros; by apply goes_CreateOrUpdate.
Qed.

Lemma goes_network_step w1 w f :
  deployable context w1 → well_kinded w →
  goes (network_step parse_url Getenv ExtraNoProxyList visit_egress visit_ingress f clf names owner) (λ _ _, True) w.
Proof.
  intros Hd Hk. unfold network_step. destruct (spec_Collector (clf_Spec clf) ⇀ coll_NetworkPolicy) as [policy|] eqn:E;
    [|by apply goes_RemoveNetworkPolicy].
  apply goes_bind, goes_lift; [done|..].
  - apply returns_bind; [by apply (dp_ports _ _ Hd)|]. intros. apply returns_ret.
  - intros. by apply goes_CreateOrUpdate.
Qed.

Lemma goes_metrics_step w f : well_kinded w → goes (metrics_step f clf names owner) (λ _ _, True) w.
Proof.
  intros Hk. apply goes_seq; [by apply goes_reconcile_service|]. clear w Hk. intros w _ Hk.
  do 2 (apply goes_seq; [by apply goes_ServiceMonitor|]; clear w Hk; intros w _ Hk). by apply goes_ServiceMonitor.
Qed.

Lemma deployable_scc w w1 r :
  deployable context w → scc_done sccName NewSCC w w1 r → well_kinded w1 → deployable context w1.
Proof.
  intros [] [Ho _] Hk. split; try done. intros Hneed. rewrite Ho by (by intros [=]). auto.
Qed.

Lemma deployable_receivers w : deployable context w → receivers_present (spec_Inputs (clf_Spec clf)).
Proof.
  intros Hd i Hi Ht. destruct (dp_config _ _ Hd) as [rc Hc].
  destruct (sr_receiver _ (spr_inputs _ _ (cfr_spec _ _ _ Hc) i Hi) Ht) as (r & Hr & _). by exists r.
Qed.

Lemma goes_ReconcileCollector w :
  deployable context w →
  goes (ReconcileCollector parse_url parse_other Marshal Parse Getenv ExtraNoProxyList visit_egress visit_ingress
    apiServerProfile clusterID polls context owner) (λ _ _, True) w.
Proof.
  intros Hd. unfold ReconcileCollector. cbv zeta. apply goes_bind.
  eapply goes_mono; [apply goes_and; [by apply goes_SecurityContextConstraints, (dp_kinds _ _ Hd)|by apply wp_SecurityContextConstraints]|].
  intros w1 u Hk1 [_ Hscc] _. pose proof (deployable_scc _ _ _ Hd Hscc Hk1) as Hd1. clear Hd Hscc w. rename Hd1 into Hd.
  apply goes_bind. eapply goes_mono; [by apply goes_token_step|]. intros w2 [secrets options] Hk2 Hop _. cbn [snd] in Hop.
  apply goes_seq.
  { apply goes_seq; [by apply goes_ReconcileRBAC|]. intros. by apply goes_ClusterRoleBinding. }
  clear w2 Hk2. intros w2 _ Hk2. apply goes_seq; [by apply goes_CreateOrUpdate|]. clear w2 Hk2. intros w2 _ Hk2.
  apply goes_seq; [by apply goes_WaitForTrustedCA|]. clear w2 Hk2. intros w2 trusted Hk2.
  apply goes_seq; [by apply (goes_creds_step w1)|]. clear w2 Hk2. intros w2 cms Hk2.
  apply goes_seq; [by apply (goes_GenerateConfig w1)|]. clear w2 Hk2. intros w2 text Hk2.
  apply goes_seq; [by apply (goes_workload_step w1)|]. clear w2 Hk2. intros w2 _ Hk2.
  apply goes_seq; [by apply goes_input_services; [|apply (deployable_receivers w1)]|]. clear w2 Hk2. intros w2 _ Hk2.
  apply goes_seq; [by apply (goes_network_step w1)|]. clear w2 Hk2. intros w2 _ Hk2. by apply goes_metrics_step.
Qed.
End steps.
End collector.
