(* ===== verification/CollectorSpec.v ===== *)
(** * What the reconciliation of a collector does

    The properties of [CollectorObjects]: a workload is there only with the configuration
    that was generated for it, and what the cluster holds after a reconciliation without
    errors; and that the second reconciliation replaces the pods of the first. *)

From S2P Require Import Prelude GoStrings ApiCommon ApiInputs ApiOutputs ApiForwarder Sets ObsResources ObsInputs ObsOutputs ObsForwarder.
From S2P Require Import ValidateCommon GoTime OutputCommon ValidateOutputs Reconcile AwsAuth VrlText Transforms Tls Network Config InputServices.
From S2P Require Import Md5 Workload WorkloadSpec Cluster ReconcileObjects ReconcileObjectsSpec ClusterProgress CollectorObjects.
From S2P Require Import CollectorProgress.

(** ** The capabilities of the containers *)

Section restart.
Context `{ApiServer}.

Lemma Get_answered k w : never_fails → ∃ w1, quiet w w1 ∧
  Get k w = match w_objects w !! k with Some o => Ret (w1, inl o) | None => Ret (w1, inr (not_found k)) end.
Proof.
  intros Hno. eexists {| w_objects := w_objects w; w_clock := S (w_clock w); w_log := w_log w; w_dropCaps := w_dropCaps w |}.
  split; [done|]. unfold Get, ask, get_world, throw, mbind, K_bind. cbn [mbind outcome_bind fst snd].
  rewrite (Hno (w_clock w) VGet k). cbn [mbind outcome_bind fst snd w_objects]. by destruct (w_objects w !! k).
Qed.

Lemma SecurityContextConstraints_absent name desired w :
  never_fails → w_objects w !! key_of KSCC "" name = None →
  ∃ w', SecurityContextConstraints name desired w = Ret (w', inl tt) ∧ w_dropCaps w' = w_dropCaps w ∧
    w_objects w' !! key_of KSCC "" name = Some (OSCC (set_drop desired (w_dropCaps w))).
Proof.
  intros Hno Hn. set (k := key_of KSCC "" name) in *. destruct (Get_answered k w Hno) as (w1 & Hq & Eg). rewrite Hn in Eg.
  unfold SecurityContextConstraints, DefaultRetry. cbn [RetryOnConflict].
  unfold mbind, K_bind, attempt, get_world. fold k. cbn [mbind outcome_bind fst snd]. rewrite Eg.
  cbn [mbind outcome_bind fst snd]. change (IsNotFound (not_found k)) with true. cbn match.
  unfold Create, ask, write, get_world, mbind, K_bind. cbn [mbind outcome_bind fst snd].
  rewrite (Hno (w_clock w1) VCreate k). cbn [mbind outcome_bind fst snd w_objects].
  rewrite (q_objects _ _ Hq), Hn. cbn [mbind outcome_bind fst snd]. eexists. split; [reflexivity|].
  cbn [w_dropCaps w_objects]. split; [apply Hq|apply lookup_insert_eq].
Qed.
Lemma SecurityContextConstraints_present name desired w current :
  never_fails → w_objects w !! key_of KSCC "" name = Some (OSCC current) →
  scc_alike current (set_drop desired (w_dropCaps w)) →
  ∃ w', SecurityContextConstraints name desired w = Ret (w', inl tt) ∧ w_dropCaps w' = sort_strings (w_dropCaps w) ∧
    w_objects w' = w_objects w.
Proof.
  intros Hno Hn Halike. set (k := key_of KSCC "" name) in *. destruct (Get_answered k w Hno) as (w1 & Hq & Eg). rewrite Hn in Eg.
  destruct (SCC_AreSame_spec current (set_drop desired (w_dropCaps w))) as [Hs Hr].
  assert (SCC_AreSame current (set_drop desired (w_dropCaps w)) =
    (true, (SCC_AreSame current (set_drop desired (w_dropCaps w))).1.2, true)) as E.
  { destruct (SCC_AreSame _ _) as [[b p] b']. cbn [fst snd] in *. rewrite (proj2 Hs Halike).
    rewrite (proj2 Hr); [done|]. destruct Halike. by split. }
  unfold SecurityContextConstraints, DefaultRetry. cbn [RetryOnConflict].
  unfold mbind, K_bind, attempt, get_world. fold k. cbn [mbind outcome_bind fst snd]. rewrite Eg.
  cbn [mbind outcome_bind fst snd]. rewrite E. cbn match.
  unfold set_dropCaps. cbn [mbind outcome_bind fst snd]. eexists. split; [reflexivity|].
  cbn [w_dropCaps w_objects]. split; [done|apply Hq].
Qed.

(** C10. The capabilities a container drops are a list of the process that the comparison of
    security context constraints sorts in place.  On a cluster without these constraints,
    and with a server that answers every request, the first reconciliation creates them and
    leaves the list as it is; the second, which finds them as they should be, sorts it, and
    nothing changes it any more.  The template of the daemon set is therefore not that of
    the first reconciliation, for the same forwarder and cluster, so that its pods are
    replaced. *)
Theorem second_reconciliation_replaces_pods `{RangeOrder} Getenv ExtraNoProxyList Parse w :
  never_fails → w_objects w !! key_of KSCC "" sccName = None → w_dropCaps w = RequiredDropCapabilities →
  ∃ w1 w2 w3,
    SecurityContextConstraints sccName NewSCC w = Ret (w1, inl tt) ∧
    SecurityContextConstraints sccName NewSCC w1 = Ret (w2, inl tt) ∧
    SecurityContextConstraints sccName NewSCC w2 = Ret (w3, inl tt) ∧
    w_objects w2 = w_objects w1 ∧ w_dropCaps w3 = w_dropCaps w2 ∧
    ∀ f namespace name ca ds1 ds2,
      f_isDaemonset f = true → f_Visit f = CollectorVisitor →
      NewDaemonSet Getenv ExtraNoProxyList (w_dropCaps w1) Parse f namespace name ca = Ret ds1 →
      NewDaemonSet Getenv ExtraNoProxyList (w_dropCaps w2) Parse f namespace name ca = Ret ds2 →
      ds_Template ds1 ≠ ds_Template ds2.
Proof.
  intros Hno Hn Hcaps.
  destruct (SecurityContextConstraints_absent sccName NewSCC w Hno Hn) as (w1 & E1 & Hc1 & Ho1).
  destruct (SecurityContextConstraints_present sccName NewSCC w1 _ Hno Ho1) as (w2 & E2 & Hc2 & Ho2).
  { rewrite Hc1. by apply scc_alike_refl. }
  destruct (SecurityContextConstraints_present sccName NewSCC w2 (set_drop NewSCC (w_dropCaps w)) Hno) as (w3 & E3 & Hc3 & Ho3).
  { by rewrite Ho2. }
  { apply scc_alike_refl. rewrite Hc2, Hc1. symmetry. apply sort_strings_perm. }
  exists w1, w2, w3. split_and!; [done..| |].
  { by rewrite Hc3, Hc2, sort_strings_idemp. }
  intros f ns n ca ds1 ds2 Hd Hv H1%NewDaemonSet_pod H2%NewDaemonSet_pod Heq. rewrite <-Heq in H2.
  apply (NewPodSpec_drop _ _ _ _ _ _ _ _ _ Hd Hv) in H1 as (c & Hpod & Hc), H2 as (c' & Hpod' & Hc').
  rewrite Hpod in Hpod'. injection Hpod' as <-. rewrite Hc in Hc'. injection Hc' as Hcc.
  rewrite Hc2, Hc1, Hcaps in Hcc. vm_compute in Hcc. discriminate Hcc.
Qed.
End restart.

(** ** What the steps change *)

(** Only the objects of the keys [P] may have changed. *)
Definition frame (P : key → Prop) (w w' : world) : Prop := ∀ k, ¬ P k → w_objects w' !! k = w_objects w !! k.

Lemma frame_trans P w1 w2 w3 : frame P w1 w2 → frame P w2 w3 → frame P w1 w3.
Proof. intros H12 H23 k Hk. by rewrite (H23 k Hk), (H12 k Hk). Qed.

Lemma frame_weaken (P P' : key → Prop) w w' : (∀ k, P k → P' k) → frame P w w' → frame P' w w'.
Proof. intros Hp Hf k Hk. apply Hf. intros ?. by apply Hk, Hp. Qed.

Lemma frame_same P w w' : w_objects w' = w_objects w → frame P w w'.
Proof. by intros E k _; rewrite E. Qed.

Section steps.
Context `{ApiServer}.

Lemma wp_seq {A B} str (m : K A) (f : A → K B) (R : world → A + api_error → Prop) (Q : world → B + api_error → Prop) w :
  wp str m R w → (∀ w1 a, R w1 (inl a) → wp str (f a) Q w1) → (∀ w1 e, R w1 (inr e) → Q w1 (inr e)) → wp str (m ≫= f) Q w.
Proof. intros Hm Hf He. apply wp_bind. eapply wp_mono; [exact Hm|]. intros w1 [a|e] HR; auto. Qed.

(** Two steps within one frame. *)
Lemma wp_frame_seq {A B} str P (m : K A) (f : A → K B) w :
  wp str m (λ w' _, frame P w w') w →
  (∀ w1 a, wp str (f a) (λ w' _, frame P w1 w') w1) → wp str (m ≫= f) (λ w' _, frame P w w') w.
Proof.
  intros Hm Hf. eapply wp_seq; [exact Hm| |done]. intros w1 a H1. eapply wp_mono; [apply Hf|].
  intros w2 r H2. exact (frame_trans P w w1 w2 H1 H2).
Qed.

Lemma wp_frame_ret {A} str P (a : A) w : wp str (mret a) (λ w' _, frame P w w') w.
Proof. by apply wp_ret, frame_same. Qed.

Lemma CreateOrUpdate_frame str k mutate w :
  wp str (CreateOrUpdate k mutate) (λ w' r, frame (λ k', k' = k) w w' ∧ w_dropCaps w' = w_dropCaps w ∧
    (r = inl tt → w_objects w' !! k = Some (mutate (w_objects w !! k))) ∧
    (∀ e, r = inr e → w_objects w' = w_objects w)) w.
Proof.
  apply wp_CreateOrUpdate. intros w' [[]|e] [Hc Hok He].
  - specialize (Hok eq_refl). split; [intros k' Hk'; by rewrite Hok, lookup_insert_ne|].
    split; [done|]. split; [|done]. intros _. by rewrite Hok, lookup_insert_eq.
  - split; [by apply frame_same, (He e)|]. by split_and!.
Qed.

Lemma delete_ignoring_absence_frame str k w :
  wp str (delete_ignoring_absence k) (λ w' _, frame (λ k', k' = k) w w') w.
Proof.
  apply wp_bind, wp_attempt, wp_Delete.
  - intros w' e Hq. destruct (IsNotFound e); by apply frame_same, Hq.
  - intros w' _ [Ho _ _] k' Hk'. by rewrite Ho, lookup_delete_ne.
Qed.

(** The kinds of the objects of access. *)
Definition access_key (k : key) : Prop := k_Kind k ∈ [KClusterRoleBinding; KRole; KRoleBinding].

Lemma ClusterRoleBinding_frame name desired w :
  wp false (ClusterRoleBinding name desired) (λ w' _, frame access_key w w') w.
Proof.
  eapply wp_mono; [by apply wp_ClusterRoleBinding|]. intros w' r [[Ht _] _] k Hk. apply Ht. intros ->. apply Hk. by left.
Qed.

Lemma RoleBinding_frame namespace name desired w :
  wp false (RoleBinding namespace name desired) (λ w' _, frame access_key w w') w.
Proof.
  eapply wp_mono; [by apply wp_RoleBinding|]. intros w' r [[Ht _] _] k Hk. apply Ht. intros ->. apply Hk. by right; right; left.
Qed.

Lemma ListRoleBindings_frame namespace w : wp false (ListRoleBindings namespace) (λ w' _, frame access_key w w') w.
Proof.
  apply wp_bind, wp_ask. intros w1 [[]|e] Hq; [|by apply frame_same, Hq].
  apply wp_bind, wp_get_world, wp_ret. by apply frame_same, Hq.
Qed.

Lemma ReconcileRBAC_frame rbacName ns sa owner w :
  wp false (ReconcileRBAC rbacName ns sa owner) (λ w' _, frame access_key w w') w.
Proof.
  apply wp_frame_seq; [apply ClusterRoleBinding_frame|]. intros w1 _.
  apply wp_frame_seq.
  { eapply wp_mono; [apply CreateOrUpdate_frame|]. intros w' r [Hf _]. eapply frame_weaken, Hf. intros k ->. by right; left. }
  intros w2 _. apply wp_frame_seq; [apply RoleBinding_frame|]. intros w3 _.
  apply wp_frame_seq; [apply ListRoleBindings_frame|]. intros w4 l.
  destruct (existsb _ _); [apply wp_frame_ret|]. eapply wp_mono; [apply delete_ignoring_absence_frame|].
  intros w' r Hf. eapply frame_weaken, Hf. intros k ->. by right; left.
Qed.

Lemma access_step_frame clf names owner w : wp false (access_step clf names owner) (λ w' _, frame access_key w w') w.
Proof. apply wp_frame_seq; [apply ReconcileRBAC_frame|]. intros. apply ClusterRoleBinding_frame. Qed.

(** A step that changes objects of [P] only, and what it ends with. *)
Definition step {A} (P : key → Prop) (R : world → A → Prop) (w : world) (w' : world) (r : A + api_error) : Prop :=
  frame P w w' ∧ ∀ a, r = inl a → R w' a.

(** A step before the one that matters, which leaves the objects of [W] alone. *)
Lemma wp_step {A B} (W P : key → Prop) (R : world → A → Prop) (m : K A) (f : A → K B)
    (Q : world → B + api_error → Prop) w w0 :
  wp false m (step P R w) w → (∀ k, P k → ¬ W k) → frame (λ k, ¬ W k) w0 w →
  (∀ w1 a, R w1 a → frame P w w1 → frame (λ k, ¬ W k) w0 w1 → wp false (f a) Q w1) →
  (∀ w1 e, frame (λ k, ¬ W k) w0 w1 → Q w1 (inr e)) → wp false (m ≫= f) Q w.
Proof.
  intros Hm HP H0 Hf He. assert (∀ w1, frame P w w1 → frame (λ k, ¬ W k) w0 w1) as Hfr.
  { intros w1 Hfr. eapply frame_trans; [exact H0|]. eapply frame_weaken; [exact HP|exact Hfr]. }
  eapply wp_seq; [exact Hm| |].
  - intros w1 a [Hfr1 HR]. apply Hf; [by apply HR|exact Hfr1|by apply Hfr].
  - intros w1 e [Hfr1 _]. by apply He, Hfr.
Qed.

Lemma wp_step_frame {A} P (m : K A) w : wp false m (λ w' _, frame P w w') w → wp false m (step P (λ _ _, True) w) w.
Proof. intros Hm. eapply wp_mono; [exact Hm|]. by split. Qed.

Lemma SecurityContextConstraints_step name desired w :
  wp false (SecurityContextConstraints name desired) (step (λ k, k_Kind k = KSCC) (λ _ _, True) w) w.
Proof.
  apply wp_step_frame. eapply wp_mono; [by apply wp_SecurityContextConstraints|].
  intros w' r [Ho _] k Hk. apply Ho. by intros ->.
Qed.

(** The secrets are those of the context, with the secret of the token for outputs that need
    one. *)
Definition token_known (clf : ClusterLogForwarder) (names : ForwarderResourceNames) (secrets : option Secrets)
    (so : Secrets * Options) : Prop :=
  (∀ name, name ≠ ServiceAccountTokenSecret names → so.1 !! name = default ∅ secrets !! name) ∧
  (NeedServiceAccountToken (spec_Outputs (clf_Spec clf)) = Ret true →
  (∃ data, so.1 !! ServiceAccountTokenSecret names =
     Some {| secret_Name := ServiceAccountTokenSecret names; secret_Data := data |}) ∧
  so.2 !! OptionServiceAccountTokenSecretName = Some (AnyString (ServiceAccountTokenSecret names))).

Lemma wp_lift_frame {A} P (o : outcome A) (R : world → A → Prop) w :
  (∀ a, o = Ret a → R w a) → wp false (lift o) (step P R w) w.
Proof. intros HR. apply wp_lift; [|done]. intros a Ha. split; [by apply frame_same|]. intros ? [= <-]. by apply HR. Qed.

Lemma ReconcileServiceAccountTokenSecret_frame sa namespace name owner w :
  wp false (ReconcileServiceAccountTokenSecret sa namespace name owner) (λ w' _, frame (λ k, k_Kind k = KSecret) w w') w.
Proof.
  unfold ReconcileServiceAccountTokenSecret. destruct sa as [[sa_name sa]|]; [|by apply wp_throw, frame_same].
  apply wp_bind, wp_attempt, wp_Get. intros w1 r1 Hq _.
  assert (frame (λ k, k_Kind k = KSecret) w w1) as Hf by apply frame_same, Hq.
  destruct r1 as [[]|e]; try by apply wp_lift; [discriminate|].
  { by apply wp_ret. }
  destruct (negb _); [by apply wp_throw|]. apply wp_bind, wp_attempt, wp_Create.
  - intros w2 e' Hq2. apply wp_throw. apply frame_same. by rewrite (q_objects _ _ Hq2), (q_objects _ _ Hq).
  - intros w2 _ [Ho _ _]. apply wp_ret. intros k Hk. rewrite Ho, (q_objects _ _ Hq), lookup_insert_ne; [done|].
    intros <-. by apply Hk.
Qed.

Lemma token_step_step clf names owner secrets options w :
  wp false (token_step clf names owner secrets options) (step (λ k, k_Kind k = KSecret) (λ _, token_known clf names secrets) w) w.
Proof.
  apply wp_bind, wp_lift; [|done]. intros [|] Hneed.
  2: { apply wp_ret. split; [by apply frame_same|]. intros ? [= <-]. split; [done|]. intros Hn. by rewrite Hn in Hneed. }
  apply wp_bind, wp_Get. intros w1 r1 Hq _.
  assert (∀ e, step (λ k, k_Kind k = KSecret) (λ _, token_known clf names secrets) w w1 (inr e)) as He.
  { intros e. split; [by apply frame_same, Hq|done]. }
  destruct r1 as [o|e]; [|by apply He]. apply wp_bind. destruct o; try by apply wp_lift; [discriminate|].
  apply wp_ret, wp_bind. eapply wp_mono; [apply ReconcileServiceAccountTokenSecret_frame|].
  intros w2 r2 Hf2. assert (frame (λ k, k_Kind k = KSecret) w w2) as Hf.
  { eapply frame_trans; [by apply frame_same, Hq|done]. }
  destruct r2 as [sec|e]; [|by split]. apply wp_bind, wp_lift; [|done]. intros ss Hss. apply wp_ret. split; [done|].
  intros ? [= <-]. split; cbn [fst snd].
  { intros name Hne. destruct secrets; [|discriminate Hss]. apply Ret_inj in Hss as <-. by rewrite lookup_insert_ne. }
  intros _. split; [|apply lookup_insert_eq]. eexists. apply lookup_insert_eq.
Qed.
End steps.

Section parts.
Context `{RangeOrder, UintOfFloat, OpenshiftTLS, Host, ApiServer}.
Context (parse_url : string → option URL) (parse_other : string → option instant).
Context (Marshal : Config → string + string) (Parse : string → IntOrString).
Context (Getenv : string → string) (ExtraNoProxyList : list string).
Context (visit_egress : gset PortProtocol → list PortProtocol) (visit_ingress : gset Z → list Z).
Context (apiServerProfile : option TLSSecurityProfile) (clusterID : option string) (polls : nat).

Definition of_kind (kd : kind) (k : key) : Prop := k_Kind k = kd.

Lemma ReconcileTrustedCABundleConfigMap_step namespace name owner w :
  wp false (ReconcileTrustedCABundleConfigMap namespace name owner) (step (of_kind KConfigMap) (λ _ _, True) w) w.
Proof.
  apply wp_step_frame. eapply wp_mono; [apply CreateOrUpdate_frame|]. intros w' r [Hf _]. eapply frame_weaken, Hf. by intros k ->.
Qed.

Lemma WaitForTrustedCAToBePopulated_step n k cm w :
  wp false (WaitForTrustedCAToBePopulated n k cm) (step (of_kind KConfigMap) (λ _ _, True) w) w.
Proof.
  apply wp_step_frame. induction n as [|n IH] in w, cm |- *; cbn [WaitForTrustedCAToBePopulated].
  { by apply wp_frame_ret. }
  apply wp_bind, wp_attempt, wp_Get. intros w1 r1 Hq _.
  assert (∀ cm', wp false (WaitForTrustedCAToBePopulated n k cm') (λ w' _, frame (of_kind KConfigMap) w w') w1) as Hn.
  { intros cm'. eapply wp_mono; [apply IH|]. intros w2 r2 Hf. eapply frame_trans; [by apply frame_same, Hq|exact Hf]. }
  destruct r1 as [[]|e]; try by apply wp_lift; [discriminate|].
  - destruct (hasTrustedCABundle _); [|apply Hn]. by apply wp_ret, frame_same, Hq.
  - apply Hn.
Qed.

Lemma creds_step_step clf names owner secrets cms w :
  wp false (creds_step clusterID clf names owner secrets cms) (step (of_kind KConfigMap) (λ _ _, True) w) w.
Proof.
  apply wp_step_frame. unfold creds_step. destruct (RequiresProfilesConfigMap _); [|by apply wp_frame_ret].
  apply wp_frame_seq.
  - apply wp_bind, wp_lift; [|done]. intros creds _. destruct (creds == ""); [by apply wp_frame_ret|].
    apply wp_frame_seq; [|intros; apply wp_frame_ret]. eapply wp_mono; [by apply wp_Configmap|].
    intros w' r [[Ht _] _] k Hk. apply Ht. intros ->. by apply Hk.
  - intros w1 [cm|]; [|by apply wp_frame_ret]. apply wp_bind, wp_lift; [|done]. intros cms' _. by apply wp_frame_ret.
Qed.

(** The text of a configuration that was generated. *)
Definition generated (clf : ClusterLogForwarder) (secrets : Secrets) (options : Options) (text : string) : Prop :=
  ∃ config options',
    Conf parse_url parse_other secrets (clf_Spec clf) (clf_Namespace clf) (clf_Name clf)
      (EvaluateAnnotationsForEnabledCapabilities (clf_Annotations clf)
        (<[ClusterTLSProfileSpec := AnyTLSProfileSpec (GetClusterTLSProfileSpec apiServerProfile)]> options)) =
      Ret (inl (config, options')) ∧ Marshal config = inl text.

Lemma GenerateConfig_step clf secrets options w :
  wp false (GenerateConfig parse_url parse_other Marshal apiServerProfile clf secrets options)
    (step (of_kind KConfigMap) (λ _, generated clf secrets options) w) w.
Proof.
  apply wp_bind, wp_lift; [|done]. intros [[config options']|err] Hc; [|by apply wp_throw; split; [apply frame_same|]].
  destruct (Marshal config) as [text|err] eqn:Em; [|by apply wp_throw; split; [apply frame_same|]].
  apply wp_ret. split; [by apply frame_same|]. intros ? [= <-]. by exists config, options'.
Qed.

(** ** The workload *)

Definition workload_kind (k : key) : Prop := k_Kind k ∈ [KDaemonSet; KDeployment].

(** A config map as the reconciliation of the configuration leaves it. *)
Definition configured (f : Factory) (clf : ClusterLogForwarder) (text : string) (owner : OwnerReference) (w : world) : Prop :=
  ∃ cm, w_objects w !! key_of KConfigMap (clf_Namespace clf) (ConfigMapName (f_ResourceNames f)) = Some (OConfigMap cm) ∧
    config_map_meets [CompareLabels] (collector_config_map f (clf_Namespace clf) text owner) cm.

(** The object of the workload. *)
Definition runs (f : Factory) (clf : ClusterLogForwarder) (owner : OwnerReference) (w : world) : Prop :=
  let ns := clf_Namespace clf in
  let name := CommonName (f_ResourceNames f) in
  ∃ trusted,
    if f_isDaemonset f then
      ∃ ds, NewDaemonSet Getenv ExtraNoProxyList (w_dropCaps w) Parse f ns name (Some trusted) = Ret ds ∧
        w_objects w !! key_of KDaemonSet ns name = Some (ODaemonSet (own_ds ds owner))
    else
      ∃ dpl, NewDeployment Getenv ExtraNoProxyList (w_dropCaps w) f ns name (Some trusted) = Ret dpl ∧
        w_objects w !! key_of KDeployment ns name = Some (ODeployment (own_dpl dpl owner)).

Lemma NewDaemonSet_named drop f ns name ca ds :
  NewDaemonSet Getenv ExtraNoProxyList drop Parse f ns name ca = Ret ds → ds_Namespace ds = ns ∧ ds_Name ds = name.
Proof. unfold NewDaemonSet. destruct (NewPodSpec _ _ _ _ _ _ _ _); [|done..]. by intros <-%Ret_inj. Qed.

Lemma NewDeployment_named drop f ns name ca dpl :
  NewDeployment Getenv ExtraNoProxyList drop f ns name ca = Ret dpl → dpl_Namespace dpl = ns ∧ dpl_Name dpl = name.
Proof. unfold NewDeployment. destruct (NewPodSpec _ _ _ _ _ _ _ _); [|done..]. by intros <-%Ret_inj. Qed.

(** The state and the result of the step of the workload. *)
Definition workload_done (f : Factory) (clf : ClusterLogForwarder) (text : string) (owner : OwnerReference)
    (w w' : world) (r : unit + api_error) : Prop :=
  frame (λ k, k ∈ [key_of KConfigMap (clf_Namespace clf) (ConfigMapName (f_ResourceNames f));
                   key_of (if f_isDaemonset f then KDaemonSet else KDeployment) (clf_Namespace clf)
                     (CommonName (f_ResourceNames f))]) w w' ∧
  (r = inl tt → configured f clf text owner w' ∧ runs f clf owner w') ∧
  (∀ e, r = inr e → frame (λ k, ¬ workload_kind k) w w').

Lemma config_keys f clf : ¬ workload_kind (key_of KConfigMap (clf_Namespace clf) (ConfigMapName (f_ResourceNames f))).
Proof. intros [Hk|[Hk|Hk%not_elem_of_nil]%elem_of_cons]%elem_of_cons; [discriminate Hk..|done]. Qed.

Lemma workload_step_done f clf text trusted owner w :
  wp false (workload_step Parse Getenv ExtraNoProxyList f clf text trusted owner) (workload_done f clf text owner w) w.
Proof.
  eapply wp_seq; [by apply wp_Configmap|..].
  2: { intros w1 e (_ & He & _). specialize (He e eq_refl). split; [by apply frame_same|]. split; [done|].
       intros ? _. by apply frame_same. }
  intros w1 [] ([Ho1 Hc1] & _ & Hcm & _). destruct (Hcm eq_refl) as (cm & Hcm1 & Hmeet). clear Hcm.
  assert (frame (λ k, k = key_of KConfigMap (clf_Namespace clf) (ConfigMapName (f_ResourceNames f))) w w1) as Hf1.
  { intros k Hk. by apply Ho1. }
  assert (∀ kd o, kd ≠ KConfigMap → (if f_isDaemonset f then KDaemonSet else KDeployment) = kd →
    (∀ w2, w_dropCaps w2 = w_dropCaps w1 →
       w_objects w2 !! key_of kd (clf_Namespace clf) (CommonName (f_ResourceNames f)) = Some o → runs f clf owner w2) →
    wp false (CreateOrUpdate (key_of kd (clf_Namespace clf) (CommonName (f_ResourceNames f))) (λ _, o))
      (workload_done f clf text owner w) w1) as Hstore.
  { intros kd o Hkd Ekd Hruns. eapply wp_mono; [apply CreateOrUpdate_frame|]. intros w2 r (Hf2 & Hc2 & Hok & He2).
    split; [|split].
    - eapply frame_trans; [eapply frame_weaken, Hf1|eapply frame_weaken, Hf2]; intros k ->; [by left|].
      rewrite Ekd. by right; left.
    - intros Hr. specialize (Hok Hr). split; [|by apply Hruns].
      exists cm. split; [|exact Hmeet]. rewrite (Hf2 (key_of KConfigMap _ _)); [exact Hcm1|]. by intros [= <- _].
    - intros e Hr. eapply frame_weaken with (P := λ k, k = _); [intros k ->; apply (config_keys f clf)|].
      intros k Hk. rewrite (He2 e Hr). by apply Hf1. }
  destruct (f_isDaemonset f) eqn:Ed; apply wp_bind, wp_get_world, wp_bind, wp_lift; try done; intros d Hd.
  - unfold reconcile_DaemonSet. destruct (NewDaemonSet_named _ _ _ _ _ _ Hd) as [Hns Hn].
    cbn [own_ds ds_Namespace ds_Name]. rewrite Hns, Hn. apply Hstore; [done..|].
    intros w2 Hc2 Ho. exists trusted. rewrite Ed. exists d. rewrite Hc2. split; [exact Hd|]. rewrite Ho.
    f_equal. by destruct d; cbn in *; subst.
  - unfold reconcile_Deployment. destruct (NewDeployment_named _ _ _ _ _ _ Hd) as [Hns Hn].
    cbn [own_dpl dpl_Namespace dpl_Name]. rewrite Hns, Hn. apply Hstore; [done..|].
    intros w2 Hc2 Ho. exists trusted. rewrite Ed. exists d. rewrite Hc2. split; [exact Hd|]. rewrite Ho.
    f_equal. by destruct d; cbn in *; subst.
Qed.

(** ** After the workload *)

(** Objects of [P] only may have changed, and the capabilities of the process have not. *)
Definition steady (P : key → Prop) (w w' : world) : Prop := frame P w w' ∧ w_dropCaps w' = w_dropCaps w.

Lemma steady_trans P w1 w2 w3 : steady P w1 w2 → steady P w2 w3 → steady P w1 w3.
Proof. intros [Hf Hc] [Hf' Hc']. split; [by eapply frame_trans|congruence]. Qed.

Lemma steady_quiet P w w' : quiet w w' → steady P w w'.
Proof. intros []. by split; [apply frame_same|]. Qed.

Lemma CreateOrUpdate_steady (P : key → Prop) k mutate w :
  P k → wp false (CreateOrUpdate k mutate) (λ w' _, steady P w w') w.
Proof.
  intros HP. eapply wp_mono; [apply CreateOrUpdate_frame|]. intros w' r (Hf & Hc & _).
  split; [|exact Hc]. eapply frame_weaken, Hf. by intros ? ->.
Qed.

(** A deletion of an object that may be missing. *)
Lemma delete_steady (P : key → Prop) k (throws : api_error → K unit) w :
  P k → (∀ e w, wp false (throws e) (λ w' _, steady P w w') w) →
  wp false (r ← attempt (Delete k);
    match r with inl tt => mret tt | inr err => if IsNotFound err then mret tt else throws err end)
    (λ w' _, steady P w w') w.
Proof.
  intros HP Ht. apply wp_bind, wp_attempt, wp_Delete.
  - intros w' e Hq. destruct (IsNotFound e); [by apply wp_ret, steady_quiet|]. eapply wp_mono; [apply Ht|].
    intros w2 r Hs. eapply steady_trans; [by apply steady_quiet|exact Hs].
  - intros w' _ [Ho _ Hc]. apply wp_ret. split; [|exact Hc]. intros k' Hk. rewrite Ho, lookup_delete_ne; [done|].
    by intros <-.
Qed.

Lemma steady_refl P w : steady P w w.
Proof. by split. Qed.

Lemma RemoveNetworkPolicy_steady ns name w :
  wp false (RemoveNetworkPolicy ns name) (λ w' _, steady (of_kind KNetworkPolicy) w w') w.
Proof. apply delete_steady; [done|]. intros e w'. by apply wp_throw. Qed.

(** The services of the receivers: every request is about a service. *)
Lemma steady_seq {A B} P (m : K A) (f : A → K B) w :
  wp false m (λ w' _, steady P w w') w → (∀ a w1, wp false (f a) (λ w' _, steady P w1 w') w1) →
  wp false (m ≫= f) (λ w' _, steady P w w') w.
Proof.
  intros Hm Hf. eapply wp_seq; [exact Hm| |done]. intros w1 a Hw1. eapply wp_mono; [apply Hf|].
  intros w2 r. by apply steady_trans.
Qed.

Lemma for_each_steady {A} P (f : A → K unit) l w :
  (∀ x w, wp false (f x) (λ w' _, steady P w w') w) → wp false (for_each f l) (λ w' _, steady P w w') w.
Proof.
  intros Hf. induction l as [|x l IH] in w |- *; cbn [for_each]; [by apply wp_ret|].
  apply steady_seq; [apply Hf|]. intros _. apply IH.
Qed.

Lemma ListServices_steady P namespace label value w :
  wp false (ListServices namespace label value) (λ w' _, steady P w w') w.
Proof.
  apply wp_bind, wp_attempt, wp_ask. intros w1 [[]|e] Hq; [apply wp_bind, wp_get_world, wp_ret|apply wp_throw];
    by apply steady_quiet.
Qed.

Lemma reconcile_input_services_steady namespace names inputs owner visit w :
  wp false (reconcile_input_services namespace names inputs owner visit) (λ w' _, steady (of_kind KService) w w') w.
Proof.
  apply steady_seq; [|intros _ w1]; apply for_each_steady; intros x w'.
  - apply steady_seq; [apply ListServices_steady|]. intros items w1.
    apply steady_seq; [by apply wp_lift|]. intros defined w2. apply for_each_steady. intros item w3.
    unfold remove_orphan. destruct (_ && _); [|by apply wp_ret].
    apply delete_steady; [done|]. intros e w4. by apply wp_throw.
  - unfold serve_input. destruct (in_Receiver x); [by apply CreateOrUpdate_steady|by apply wp_ret].
Qed.

Lemma network_step_steady f clf names owner w :
  wp false (network_step parse_url Getenv ExtraNoProxyList visit_egress visit_ingress f clf names owner)
    (λ w' _, steady (of_kind KNetworkPolicy) w w') w.
Proof.
  unfold network_step. destruct (spec_Collector _ ⇀ _) as [policy|].
  - apply wp_bind, wp_lift; [|done]. intros p _. by apply CreateOrUpdate_steady.
  - apply RemoveNetworkPolicy_steady.
Qed.

(** The three monitors of a service. *)
Definition three_monitors (ns name : string) (owner : OwnerReference) (selector : gmap string string)
    (minimal telemetry : list RelabelConfig) (w : world) : Prop :=
  let stored n relabel profile := w_objects w !! key_of KServiceMonitor ns n =
    Some (OServiceMonitor (newServiceMonitor ns n name owner selector MetricsPortName relabel profile)) in
  stored name FullRelabelConfigs MetricsCollectionProfileFull ∧
  stored ("minimal-" +:+ name) minimal MetricsCollectionProfileMinimal ∧
  stored ("telemetry-" +:+ name) telemetry MetricsCollectionProfileTelemetry.

Lemma prefixed_key_ne kd ns p n : p ≠ "" → key_of kd ns n ≠ key_of kd ns (p +:+ n).
Proof.
  intros Hp E. apply (f_equal k_Name), (f_equal String.length) in E. cbn [key_of k_Name] in E.
  rewrite string_app_length in E. destruct p; [done|]. cbn in E. lia.
Qed.

(** One object is stored, and the others stay. *)
Lemma CreateOrUpdate_stores (P : key → Prop) k mutate w :
  P k → wp false (CreateOrUpdate k mutate) (λ w' r, steady P w w' ∧
    (r = inl tt → w_objects w' !! k = Some (mutate (w_objects w !! k)) ∧
      ∀ k' o, k' ≠ k → w_objects w !! k' = Some o → w_objects w' !! k' = Some o)) w.
Proof.
  intros HP. eapply wp_mono; [apply CreateOrUpdate_frame|]. intros w' r (Hf & Hc & Hok & _).
  split; [split; [|exact Hc]; eapply frame_weaken, Hf; by intros ? ->|].
  intros Hr. split; [by apply Hok|]. intros k' o Hne. by rewrite (Hf k' Hne).
Qed.

Lemma monitors_done ns n owner selector minimal telemetry w :
  wp false (ReconcileServiceMonitor ns n n owner selector MetricsPortName FullRelabelConfigs MetricsCollectionProfileFull;;
    ReconcileServiceMonitor ns (MetricsCollectionProfileMinimal +:+ "-" +:+ n) n owner selector MetricsPortName minimal
      MetricsCollectionProfileMinimal;;
    ReconcileServiceMonitor ns (MetricsCollectionProfileTelemetry +:+ "-" +:+ n) n owner selector MetricsPortName telemetry
      MetricsCollectionProfileTelemetry)
    (λ w' r, steady (of_kind KServiceMonitor) w w' ∧ (r = inl tt → three_monitors ns n owner selector minimal telemetry w')) w.
Proof.
  unfold ReconcileServiceMonitor, reconcile_ServiceMonitor.
  eapply wp_seq; [by apply (CreateOrUpdate_stores (of_kind KServiceMonitor))|..]; [|by intros w1 e [? _]].
  intros w2 [] [Hst2 Ho2]. destruct (Ho2 eq_refl) as [Hfull _].
  eapply wp_seq; [by apply (CreateOrUpdate_stores (of_kind KServiceMonitor))|..].
  2: { intros w3 e [Hst3 _]. split; [by eapply steady_trans|done]. }
  intros w3 [] [Hst3 Ho3]. destruct (Ho3 eq_refl) as [Hmin Hk3]. apply (steady_trans _ _ _ _ Hst2) in Hst3.
  eapply wp_mono; [by apply (CreateOrUpdate_stores (of_kind KServiceMonitor))|].
  intros w4 r [Hst4 Ho4]. split; [by eapply steady_trans|]. intros Hr. destruct (Ho4 Hr) as [Htel Hk4].
  split_and!.
  - apply Hk4, Hk3, Hfull; [exact (prefixed_key_ne KServiceMonitor ns "telemetry-" n ltac:(done))|].
    exact (prefixed_key_ne KServiceMonitor ns "minimal-" n ltac:(done)).
  - apply Hk4, Hmin. by intros [=].
  - exact Htel.
Qed.

(** A service as its reconciliation leaves it. *)
Definition served (ns : string) (desired : Service) (w : world) : Prop :=
  ∃ s, w_objects w !! key_of KService ns (svc_Name desired) = Some (OService s) ∧
    svc_Selector s = svc_Selector desired ∧ svc_Ports s = svc_Ports desired ∧ svc_Labels s = svc_Labels desired.

Lemma reconcile_service_done ns desired w :
  wp false (reconcile_service ns desired) (λ w' r, steady (of_kind KService) w w' ∧ (r = inl tt → served ns desired w')) w.
Proof.
  unfold reconcile_service. eapply wp_mono; [by apply (CreateOrUpdate_stores (of_kind KService))|].
  intros w' r [Hst Hok]. split; [exact Hst|]. intros Hr. destruct (Hok Hr) as [Hs _]. eexists. split; [exact Hs|]. by split_and!.
Qed.

Lemma served_frame P ns desired w w' :
  frame P w w' → (∀ k, P k → k_Kind k ≠ KService) → served ns desired w → served ns desired w'.
Proof. intros Hf HP (s & Hs & Hd). exists s. split; [|exact Hd]. rewrite Hf; [done|]. by intros Hk%HP. Qed.

(** What is there to scrape the metrics with. *)
Definition monitored (f : Factory) (clf : ClusterLogForwarder) (names : ForwarderResourceNames) (owner : OwnerReference)
    (w : world) : Prop :=
  served (clf_Namespace clf) (metrics_service (CommonName names) (clf_Name clf) CollectorName MetricsPortName
    (SecretMetrics names) MetricsPort owner (f_CommonLabelInitializer f)) w ∧
  three_monitors (clf_Namespace clf) (CommonName names) owner (BuildSelector CollectorName (CommonName names))
    CollectorMinimalRelabelConfigs CollectorTelemetryRelabelConfigs w.

Lemma steady_weaken (P P' : key → Prop) w w' : (∀ k, P k → P' k) → steady P w w' → steady P' w w'.
Proof. intros HP [Hf Hc]. split; [|exact Hc]. by eapply frame_weaken. Qed.

Lemma metrics_step_done f clf names owner w :
  wp false (metrics_step f clf names owner) (λ w' r,
    steady (λ k, k_Kind k ∈ [KService; KServiceMonitor]) w w' ∧ (r = inl tt → monitored f clf names owner w')) w.
Proof.
  assert (∀ k, of_kind KService k → k_Kind k ∈ [KService; KServiceMonitor]) as Hk1 by (intros k ->; by left).
  assert (∀ k, of_kind KServiceMonitor k → k_Kind k ∈ [KService; KServiceMonitor]) as Hk2 by (intros k ->; by right; left).
  eapply wp_seq; [apply reconcile_service_done|..].
  2: { intros w1 e [Hst _]. split; [exact (steady_weaken _ _ _ _ Hk1 Hst)|done]. }
  intros w1 [] [Hst1 Hs]. eapply wp_mono; [apply monitors_done|]. intros w2 r [Hst2 Hm].
  split; [exact (steady_trans _ _ _ _ (steady_weaken _ _ _ _ Hk1 Hst1) (steady_weaken _ _ _ _ Hk2 Hst2))|]. intros Hr. split; [|by apply Hm].
  eapply served_frame; [exact (proj1 Hst2)| |by apply Hs]. by intros k ->.
Qed.
(** ** The whole reconciliation *)

Section whole.
Context (context : ForwarderContext) (owner : OwnerReference).

Definition clf_of : ClusterLogForwarder := ctx_Forwarder context.
Definition names_of : ForwarderResourceNames := ResourceNames clf_of.

Definition factory_of (text : string) (secrets : Secrets) (configMaps : ConfigMaps) : Factory :=
  New (CalculateMD5Hash text) (ctx_ClusterID context) (spec_Collector (clf_Spec clf_of)) secrets configMaps
    (clf_Spec clf_of) names_of (negb (DeployAsDeployment clf_of)) (clf_Annotations clf_of).

(** The workload of the factory [f] is there, with the configuration that was generated
    for it. *)
Definition deployed (f : Factory) (w : world) : Prop :=
  ∃ text secrets options configMaps,
    f = factory_of text secrets configMaps ∧
    token_known clf_of names_of (ctx_Secrets context) (secrets, options) ∧
    generated clf_of secrets options text ∧
    configured f clf_of text owner w ∧ runs f clf_of owner w.

Lemma deployed_steady P f w w' :
  steady P w w' → (∀ k, P k → ¬ workload_kind k ∧ k_Kind k ≠ KConfigMap) → deployed f w → deployed f w'.
Proof.
  intros [Hf Hc] HP (text & secrets & options & cms & Ef & Ht & Hg & (cm & Hcm & Hmeet) & (trusted & Hrun)).
  exists text, secrets, options, cms. split_and!; [done..| |].
  { exists cm. split; [|done]. rewrite Hf; [done|]. by intros [_ Hk]%HP. }
  exists trusted. destruct (f_isDaemonset f); destruct Hrun as (d & Hd & Hrun); exists d; rewrite Hc;
    (split; [exact Hd|]); (rewrite Hf; [exact Hrun|]); intros [Hk _]%HP; apply Hk; [by left|by right; left].
Qed.

Definition reconciled (w w' : world) (r : unit + api_error) : Prop :=
  (frame (λ k, ¬ workload_kind k) w w' ∨ ∃ f, deployed f w') ∧
  (r = inl tt → ∃ f, deployed f w' ∧ monitored f clf_of names_of owner w').

Lemma reconciled_error w w' e : frame (λ k, ¬ workload_kind k) w w' → reconciled w w' (inr e).
Proof. intros Hf. split; [by left|done]. Qed.

Lemma deployed_error f w w' e : deployed f w' → reconciled w w' (inr e).
Proof. intros Hd. split; [by right; exists f|done]. Qed.

(** From the workload on. *)
Lemma tail_done f text trusted inputs w0 w :
  frame (λ k, ¬ workload_kind k) w0 w →
  (∀ w', configured f clf_of text owner w' → runs f clf_of owner w' → deployed f w') →
  wp false (workload_step Parse Getenv ExtraNoProxyList f clf_of text trusted owner;;
    reconcile_input_services (clf_Namespace clf_of) names_of inputs owner (f_CommonLabelInitializer f);;
    network_step parse_url Getenv ExtraNoProxyList visit_egress visit_ingress f clf_of names_of owner;;
    metrics_step f clf_of names_of owner) (reconciled w0) w.
Proof.
  intros Hf0 Hdep. eapply wp_seq; [apply workload_step_done|..].
  2: { intros w1 e (_ & _ & He). apply reconciled_error. eapply frame_trans; [exact Hf0|by eapply He]. }
  intros w1 [] (_ & Hok & _). destruct (Hok eq_refl) as [Hcm Hrun]. pose proof (Hdep w1 Hcm Hrun) as Hd1. clear Hok Hcm Hrun.
  assert (∀ kd k, kd ∈ [KService; KNetworkPolicy; KServiceMonitor] → of_kind kd k →
    ¬ workload_kind k ∧ k_Kind k ≠ KConfigMap) as Hkinds.
  { unfold workload_kind. intros kd k Hkd ->. split; [intros Hw|intros ->]; set_solver. }
  eapply wp_seq; [apply reconcile_input_services_steady|..].
  2: { intros w2 e Hs. eapply deployed_error, deployed_steady; [exact Hs| |exact Hd1]. intros k. apply Hkinds. by left. }
  intros w2 [] Hs2. eapply deployed_steady in Hs2; [|intros k; apply Hkinds; by left|exact Hd1].
  eapply wp_seq; [apply network_step_steady|..].
  2: { intros w3 e Hs. eapply deployed_error, deployed_steady; [exact Hs| |exact Hs2]. intros k. apply Hkinds. by right; left. }
  intros w3 [] Hs3. eapply deployed_steady in Hs3; [|intros k; apply Hkinds; by right; left|exact Hs2].
  eapply wp_mono; [apply metrics_step_done|]. intros w4 r [Hs4 Hm].
  eapply deployed_steady in Hs4; [| |exact Hs3].
  { split; [by right; exists f|]. intros Hr. exists f. split; [done|by apply Hm]. }
  intros k Hk. apply (Hkinds (k_Kind k)); [|done]. set_solver.
Qed.

Lemma wp_ReconcileCollector w :
  wp false (ReconcileCollector parse_url parse_other Marshal Parse Getenv ExtraNoProxyList visit_egress visit_ingress
    apiServerProfile clusterID polls context owner) (reconciled w) w.
Proof.
  assert (∀ kd k, kd ∈ [KSCC; KSecret; KConfigMap] → of_kind kd k → ¬ workload_kind k) as Hkinds.
  { unfold workload_kind. intros kd k Hkd -> Hw. set_solver. }
  assert (∀ k, access_key k → ¬ workload_kind k) as Haccess.
  { unfold access_key, workload_kind. intros k. destruct (k_Kind k); set_solver. }
  assert (∀ w1 e, frame (λ k, ¬ workload_kind k) w w1 → reconciled w w1 (inr e)) as He by apply reconciled_error.
  unfold ReconcileCollector.
  eapply wp_step; [apply SecurityContextConstraints_step|by intros k; apply Hkinds; left|by apply frame_same| |exact He].
  intros w1 _ _ _ Hf1. eapply wp_step; [apply token_step_step|by intros k; apply Hkinds; right; left|exact Hf1| |exact He].
  intros w2 [secrets options] Ht _ Hf2.
  eapply wp_step; [apply wp_step_frame, access_step_frame|exact Haccess|exact Hf2| |exact He]. intros w3 _ _ _ Hf3.
  eapply wp_step; [apply ReconcileTrustedCABundleConfigMap_step|by intros k; apply Hkinds; right; right; left|exact Hf3| |exact He].
  intros w4 _ _ _ Hf4.
  eapply wp_step; [apply WaitForTrustedCAToBePopulated_step|by intros k; apply Hkinds; right; right; left|exact Hf4| |exact He].
  intros w5 trusted _ _ Hf5.
  eapply wp_step; [apply creds_step_step|by intros k; apply Hkinds; right; right; left|exact Hf5| |exact He].
  intros w6 cms _ _ Hf6.
  eapply wp_step; [apply GenerateConfig_step|by intros k; apply Hkinds; right; right; left|exact Hf6| |exact He].
  intros w7 text Hg _ Hf7. apply (tail_done (factory_of text secrets cms) text); [exact Hf7|].
  intros w' Hcm Hrun. exists text, secrets, options, cms. by split_and!.
Qed.

(** C7. What a reconciliation of a collector leaves in the cluster, however the requests to
    the server end.  The workload is as it was, or it runs a configuration that was
    generated from the forwarder as it is: the config map the pods mount holds its text,
    the template has the hash of it, and an output that takes the token of the service
    account has it among the secrets the pods mount.  An error on the way, in the access,
    the certificates, the generation or its config map, leaves the workload alone; and
    after a success the service and the three monitors of the metrics are there, too.  For
    a forwarder that can be deployed the reconciliation ends, and with success on a server
    that answers every request. *)
Theorem ReconcileCollector_correct w :
  let run := ReconcileCollector parse_url parse_other Marshal Parse Getenv ExtraNoProxyList visit_egress visit_ingress
    apiServerProfile clusterID polls context owner w in
  (∀ w' r, run = Ret (w', r) →
     (frame (λ k, ¬ workload_kind k) w w' ∨ ∃ f, deployed f w') ∧
     (r = inl tt → ∃ f, deployed f w' ∧ monitored f clf_of names_of owner w')) ∧
  (deployable parse_url Marshal Getenv ExtraNoProxyList context w →
     ∃ w' r, run = Ret (w', r) ∧ (never_fails → r = inl tt)).
Proof.
  split.
  - intros w' r E. exact (wp_ends false _ _ _ _ _ (wp_ReconcileCollector w) E).
  - intros Hd. destruct (goes_ends _ _ _ (goes_ReconcileCollector parse_url parse_other Marshal Parse Getenv ExtraNoProxyList
      visit_egress visit_ingress apiServerProfile clusterID polls context owner w Hd)) as (w' & r & E & _ & Hs & _).
    exists w', r. split; [exact E|]. intros Hno. by destruct (Hs Hno) as [[] ->].
Qed.
End whole.
End parts.
