(* ===== verification/CollectorExamples.v ===== *)
(** * A collector in a small cluster

    The theorems of [ReconcileObjectsSpec] and [CollectorSpec] applied to a forwarder of
    application logs to an OTLP receiver, which takes the token of the service account, in a
    cluster that holds the service account only. *)

From S2P Require Import Prelude GoStrings GoTime ApiCommon ApiInputs ApiFilters ApiOutputs ApiForwarder Sets ObsResources ObsInputs.
From S2P Require Import ObsOutputs ObsForwarder ValidateCommon SinkTypes OutputCommon ValidateOutputs Reconcile AwsAuth VrlText Transforms Tls.
From S2P Require Import SourcesSpec OutputsSpec LokiStackSpec Network Config ConfigSpec ConfigExamples InputServices Md5 Workload WorkloadSpec Cluster.
From S2P Require Import ReconcileObjects ReconcileObjectsSpec ClusterProgress CollectorObjects CollectorProgress CollectorSpec.

(** A server that answers every request. *)
Definition example_server : ApiServer := {| answer _ _ _ := None |}.

#[local] Existing Instances canonical_order example_openshift example_host example_server example_floats.

Definition token_output : OutputSpec := {|
  out_Name := "web"; out_Type := OutputTypeOTLP; out_TLS := None; out_Limit := None;
  out_AzureLogsIngestion := None; out_AzureMonitor := None; out_Cloudwatch := None;
  out_Elasticsearch := None; out_GoogleCloudLogging := None; out_HTTP := None; out_Kafka := None; out_Loki := None;
  out_LokiStack := None; out_S3 := None; out_Splunk := None; out_Syslog := None;
  out_OTLP := Some {| otlp_URL := "https://otlp.example"; otlp_Tuning := None; otlp_Authentication := Some {|
    ha_Token := Some {| bt_From := BearerTokenFromServiceAccount; bt_Secret := None |};
    ha_Username := None; ha_Password := None |} |} |}.

Definition token_spec : ClusterLogForwarderSpec := {|
  spec_ManagementState := ManagementStateManaged; spec_Collector := None;
  spec_Inputs := [an_input InputTypeApplication]; spec_Outputs := [token_output]; spec_Filters := [];
  spec_Pipelines := [{| pipe_Name := "p"; pipe_InputRefs := ["application"]; pipe_OutputRefs := ["web"]; pipe_FilterRefs := [] |}];
  spec_ServiceAccount := {| sa_Name := "logger" |} |}.

Definition token_context : ForwarderContext := {|
  ctx_Forwarder := {| clf_Meta := clf_Meta example_clf; clf_Spec := token_spec; clf_Status := ClusterLogForwarderStatus_zero |};
  ctx_Secrets := Some ∅; ctx_ConfigMaps := Some ∅; ctx_ClusterID := "cluster";
  ctx_ClusterVersion := "4.18"; ctx_AdditionalContext := ∅ |}.

Definition example_owner : OwnerReference := {|
  own_APIVersion := "v1"; own_Kind := "ClusterLogForwarder"; own_Name := "fwd"; own_UID := "u" |}.

Definition example_world : world := {|
  w_objects := {[key_of KServiceAccount "logs" "logger" := OServiceAccount
    {| sao_UID := "1"; sao_Annotations := ∅; sao_Owners := []; sao_Finalizers := [] |}]};
  w_clock := 0; w_log := []; w_dropCaps := RequiredDropCapabilities |}.

Definition example_run (w : world) : outcome (world * (unit + api_error)) :=
  ReconcileCollector (λ _, None) (λ _, None) (λ c, inl "config") example_parse (λ _, "") [] elements elements
    None None 1 token_context example_owner w.

Lemma example_well_kinded : well_kinded example_world.
Proof. intros k o. cbn [example_world w_objects]. intros [<- <-]%lookup_singleton_Some. done. Qed.

Lemma token_output_admitted : output_admitted token_output.
Proof. split; cbn; try done; try (by eexists). unfold OutputTypes. set_solver. Qed.

Lemma token_spec_ready : config_ready (λ _, true) (λ _, None) token_spec.
Proof.
  split; [split; [split|]|..].
  - by intros f ?%not_elem_of_nil.
  - intros p ref ->%list_elem_of_singleton ?%not_elem_of_nil. done.
  - apply NoDup_singleton.
  - intros i ->%list_elem_of_singleton. split; [unfold InputTypes; cbn; set_solver|done|by eexists].
  - intros o ->%list_elem_of_singleton. split; [exact token_output_admitted|done|by intros fv ?%not_elem_of_nil|done..].
  - apply NoDup_singleton.
  - by apply all_apart.
  - cbn. lia.
Qed.

Lemma token_deployable : deployable (λ _, None) (λ _, inl "config") (λ _, "") [] token_context example_world.
Proof.
  split.
  - exact example_well_kinded.
  - by eexists.
  - by eexists.
  - exact no_options.
  - intros _. eexists. apply lookup_singleton_eq.
  - exists (λ _, true). exact token_spec_ready.
  - intros config. by exists "config".
  - intros o ->%list_elem_of_singleton a r Ha. discriminate Ha.
  - intros policy E. discriminate E.
Qed.

Lemma ReconcileCollector_correct_witness :
  ∃ w' f, example_run example_world = Ret (w', inl tt) ∧
    deployed (λ _, None) (λ _, None) (λ _, inl "config") example_parse (λ _, "") [] None token_context example_owner f w' ∧
    f_ConfigHash f = CalculateMD5Hash "config" ∧ is_Some (f_Secrets f !! "logger-token") ∧
    monitored f (clf_of token_context) (names_of token_context) example_owner w'.
Proof.
  destruct (ReconcileCollector_correct (λ _, None) (λ _, None) (λ _, inl "config") example_parse (λ _, "") [] elements elements
    None None 1 token_context example_owner example_world) as [Hright Hends].
  destruct (Hends token_deployable) as (w' & r & E & Hr).
  assert (r = inl tt) as -> by (apply Hr; intros n v k; reflexivity).
  destruct (Hright w' (inl tt) E) as [_ Hok].
  destruct (Hok eq_refl) as (f & Hd & Hm). exists w', f. split; [exact E|]. split; [exact Hd|].
  destruct Hd as (text & secrets & options & cms & -> & [_ Ht] & (config & op & _ & Htext) & _).
  injection Htext as <-. split; [reflexivity|]. split; [|exact Hm].
  destruct (Ht eq_refl) as [[data Hdata] _]. exists {| secret_Name := "logger-token"; secret_Data := data |}. exact Hdata.
Defined.

Lemma second_reconciliation_replaces_pods_witness :
  ∃ w1 w2, SecurityContextConstraints sccName NewSCC example_world = Ret (w1, inl tt) ∧
    SecurityContextConstraints sccName NewSCC w1 = Ret (w2, inl tt) ∧ w_objects w2 = w_objects w1 ∧
    ∃ ds1 ds2,
      NewDaemonSet (λ _, "") [] (w_dropCaps w1) example_parse (example_factory []) "logs" "fwd" None = Ret ds1 ∧
      NewDaemonSet (λ _, "") [] (w_dropCaps w2) example_parse (example_factory []) "logs" "fwd" None = Ret ds2 ∧
      ds_Template ds1 ≠ ds_Template ds2.
Proof.
  destruct (second_reconciliation_replaces_pods (λ _, "") [] example_parse example_world) as
    (w1 & w2 & w3 & E1 & E2 & _ & Ho & _ & Hds); [done|reflexivity|reflexivity|].
  exists w1, w2. split; [exact E1|]. split; [exact E2|]. split; [exact Ho|].
  eexists _, _. split; [reflexivity|]. split; [reflexivity|].
  apply (Hds (example_factory []) "logs" "fwd" None); reflexivity.
Defined.

(** A config map with other labels, and a binding of another role. *)
Definition example_cm (labels : gmap string string) : ConfigMapObject := {|
  cmo_Namespace := "logs"; cmo_Name := "cm"; cmo_Labels := labels; cmo_Annotations := ∅; cmo_Owners := [example_owner];
  cmo_Data := {["a" := "b"]} |}.

Definition with_object (k : key) (o : object) : world := {|
  w_objects := {[k := o]}; w_clock := 0; w_log := []; w_dropCaps := RequiredDropCapabilities |}.

Lemma with_object_well_kinded k o : kind_fits (k_Kind k) o = true → well_kinded (with_object k o).
Proof. intros Hfit k' o'. cbn [with_object w_objects]. by intros [<- <-]%lookup_singleton_Some. Qed.

Lemma Configmap_correct_witness :
  ∃ w', Configmap (example_cm {["l" := "new"]}) [CompareLabels]
      (with_object (key_of KConfigMap "logs" "cm") (OConfigMap (example_cm {["l" := "old"]}))) = Ret (w', inl tt) ∧
    ∃ cm, w_objects w' !! key_of KConfigMap "logs" "cm" = Some (OConfigMap cm) ∧ cmo_Labels cm = {["l" := "new"]}.
Proof.
  destruct (Configmap_correct (example_cm {["l" := "new"]}) [CompareLabels]
    (with_object (key_of KConfigMap "logs" "cm") (OConfigMap (example_cm {["l" := "old"]})))) as
    (w' & r & E & _ & _ & Hok & _); [by apply with_object_well_kinded|].
  assert (snd <$> Configmap (example_cm {["l" := "new"]}) [CompareLabels]
    (with_object (key_of KConfigMap "logs" "cm") (OConfigMap (example_cm {["l" := "old"]}))) = Ret (inl tt)) as Hr
    by (vm_compute; reflexivity).
  rewrite E in Hr. apply Ret_inj in Hr. cbn [snd] in Hr. subst r. exists w'. split; [exact E|].
  destruct (Hok eq_refl) as (cm & Hcm & _ & _ & Hl & _). exists cm. split; [exact Hcm|]. apply Hl. by left.
Defined.

Definition old_binding : BindingObject := {|
  rb_RoleRef := cluster_role "old"; rb_Subjects := []; rb_Owners := [] |}.

Lemma bindings_correct_witness :
  ∃ w', RoleBinding "logs" "fwd-scc" (NewServiceAccountSCCRoleBinding "logs" "fwd" "logger" example_owner)
      (with_object (key_of KRoleBinding "logs" "fwd-scc") (OBinding old_binding)) = Ret (w', inl tt) ∧
    ∃ b, w_objects w' !! key_of KRoleBinding "logs" "fwd-scc" = Some (OBinding b) ∧
      rr_Name (rb_RoleRef b) = "fwd-logger-scc" ∧ rb_Owners b = [example_owner].
Proof.
  set (w := with_object (key_of KRoleBinding "logs" "fwd-scc") (OBinding old_binding)).
  set (desired := NewServiceAccountSCCRoleBinding "logs" "fwd" "logger" example_owner).
  destruct (bindings_correct "logs" "fwd-scc" desired w) as [(w' & r & E & _ & Hok & _) _].
  { by apply with_object_well_kinded. }
  assert (snd <$> RoleBinding "logs" "fwd-scc" desired w = Ret (inl tt)) as Hr by (vm_compute; reflexivity).
  rewrite E in Hr. apply Ret_inj in Hr. cbn [snd] in Hr. subst r. exists w'. split; [exact E|].
  destruct (Hok eq_refl) as (b & Hb & Href & _ & Hown). exists b. split; [exact Hb|]. split; [by rewrite Href|].
  rewrite Hown. vm_compute. reflexivity.
Defined.

(** ** The token of an HTTP output *)

(** An HTTP output may take the token of the service account, but it is not among the
    outputs that need one: if it is the only one to, no secret is made, and its requests
    have an empty token. *)
Lemma http_output_without_token o token op :
  out_Type o = OutputTypeHTTP → ha_Token token = Some {| bt_From := BearerTokenFromServiceAccount; bt_Secret := None |} →
  op !! OptionServiceAccountTokenSecretName = None →
  NeedServiceAccountToken [o] = Ret false ∧
  NewHttpAuth (Some token) op = Ret (Some {| auth_Strategy := HttpAuthStrategyBearer; auth_User := "";
    auth_Password := ""; auth_Token := "" |}).
Proof.
  intros Hty Htok Hop. split.
  - cbn [NeedServiceAccountToken]. unfold needsServiceAccountToken, getOutputBearerToken. by rewrite Hty.
  - unfold NewHttpAuth, bearer_token, GetOption. rewrite Htok. cbn [bt_From]. by rewrite Hop.
Qed.

(** ** The binding of the readers of metadata *)

(** The service accounts [c] of the namespace [a-b] and [b-c] of [a] share the name of a
    cluster role binding: the reconciliation of one takes the role from the other. *)
Lemma metadata_readers_collide :
  (λ r, (r.2, match w_objects r.1 !! key_of KClusterRoleBinding "" (metadata_reader_name "a-b" "c") with
              | Some (OBinding b) => rb_Subjects b | _ => [] end)) <$>
    (ReconcileRBAC "first" "a-b" "c" example_owner;; ReconcileRBAC "second" "a" "b-c" example_owner) example_world =
  Ret (inl tt, [service_account_subject "a" "b-c"]).
Proof. vm_compute. reflexivity. Qed.
