(* ===== verification/EndToEnd.v ===== *)
(** * From the stored forwarder to its collector

    The controller of forwarders ([Reconcile]), which sees the reconciliation of the
    collector as one request, put together with that reconciliation
    ([CollectorObjects]): what a reconciliation of a stored forwarder leaves in the cluster.
    The conditions of the parts follow from one another where they can: what the
    initialization and the validation established is what the generation of the
    configuration and the reconciliation of the objects need. *)

From S2P Require Import Prelude GoStrings GoTime ApiCommon ApiInputs ApiFilters ApiOutputs ApiForwarder Sets Conditions.
From S2P Require Import ObsResources ObsInputs ObsOutputs ObsForwarder Initialize ValidateCommon ValidateInputs ValidateOutputs ValidatePipelines.
From S2P Require Import Validate Reconcile AwsAuth VrlText Transforms Tls SourcesSpec SinkTypes OutputCommon OutputsSpec LokiStackSpec Network.
From S2P Require Import Regex Template Config ConfigSpec InputServices Md5 Workload WorkloadSpec Cluster ReconcileObjects ReconcileObjectsSpec.
From S2P Require Import ClusterProgress CollectorObjects CollectorProgress CollectorSpec.

(** ** What starts a reconciliation

    [mapAPIServerToClusterLogForwarders], over the answer of the list of all forwarders: the
    namespaces and names that are to be reconciled. *)
Definition mapAPIServerToClusterLogForwarders (listed : list ClusterLogForwarder + api_error) (obj : watched_object) :
    list (string * string) :=
  if negb (IsClusterAPIServer obj) then []
  else match listed with
       | inr _ => []
       | inl items => (λ clf, (clf_Namespace clf, clf_Name clf)) <$> items
       end.

(** When the profile of the API server changes every forwarder is reconciled; when it does
    not, and when the API server is deleted, none is. *)
Definition requests (items : list ClusterLogForwarder) (e : watch_event) : list (string * string) :=
  if APIServerTLSProfileChangedPredicate true e then
    match e with
    | CreateEvent obj | UpdateEvent _ obj | DeleteEvent obj | GenericEvent obj => mapAPIServerToClusterLogForwarders (inl items) obj
    end
  else [].

Lemma requests_spec items e r :
  r ∈ requests items e ↔ (∃ clf, clf ∈ items ∧ r = (clf_Namespace clf, clf_Name clf)) ∧
    ∃ p, e = CreateEvent (APIServer APIServerName p) ∨ e = GenericEvent (APIServer APIServerName p) ∨
      ∃ n q, q ≠ p ∧ e = UpdateEvent (APIServer n q) (APIServer APIServerName p).
Proof.
  assert (∀ obj, r ∈ mapAPIServerToClusterLogForwarders (inl items) obj ↔
    (∃ clf, clf ∈ items ∧ r = (clf_Namespace clf, clf_Name clf)) ∧ ∃ p, obj = APIServer APIServerName p) as Hmap.
  { intros [n p|]; unfold mapAPIServerToClusterLogForwarders, IsClusterAPIServer; [|cbn; rewrite elem_of_nil; naive_solver].
    destruct (String.eqb_spec n APIServerName) as [->|Hn]; cbn [negb]; [|rewrite elem_of_nil; naive_solver].
    rewrite list_elem_of_fmap. naive_solver. }
  unfold requests. destruct e as [obj|old new|obj|obj]; cbn [APIServerTLSProfileChangedPredicate negb].
  - destruct (IsClusterAPIServer obj) eqn:Ho; [rewrite Hmap; naive_solver|]. rewrite elem_of_nil.
    split; [done|]. intros (_ & p & [[= ->]|[[=]|(? & ? & _ & [=])]]). done.
  - destruct (IsClusterAPIServer new) eqn:Ho; cbn [negb].
    + destruct new as [n' p|]; [|discriminate Ho]. apply String.eqb_eq in Ho as ->.
      destruct old as [n q|]; [|rewrite elem_of_nil; naive_solver]. case_bool_decide as Hp; [rewrite Hmap; naive_solver|rewrite elem_of_nil; naive_solver].
    + rewrite elem_of_nil. split; [done|]. intros (_ & p & [[=]|[[=]|(? & ? & _ & [= -> ->])]]). done.
  - rewrite elem_of_nil. naive_solver.
  - rewrite Hmap. naive_solver.
Qed.

(** ** The options of the initialization *)

(** The only option the initialization sets is the one of the generated secrets. *)
Definition only_secrets (o : Options) : Prop := ∀ k, k ≠ GeneratedSecrets → o !! k = None.

Lemma migrateInputReceiver_options i name o i' o' :
  only_secrets o → migrateInputReceiver i name o = Ret (i', o') → only_secrets o'.
Proof.
  intros Ho. unfold migrateInputReceiver. case_match; [by intros [= _ <-]|]. case_match; [by intros [= _ <-]|].
  intros (r & _ & E)%bind_ret_inv. apply bind_ret_inv in E as (o1 & E & [= _ <-]). intros k Hk.
  unfold Sets.Update in E. destruct (o !! GeneratedSecrets); [apply bind_ret_inv in E as (v & _ & E)|];
    injection E as <-; rewrite lookup_insert_ne by done; by apply Ho.
Qed.

Section options.
Context `{RangeOrder} (ParseQuantity : string → option Quantity).

Lemma migrate_inputs_options name (l : list (string * InputSpec)) st st' :
  only_secrets st.2 →
  foldM (λ st i, io ← migrateInputReceiver i.2 name st.2; Ret (st.1 ++ [io.1], io.2)) st l = Ret st' →
  only_secrets st'.2.
Proof.
  revert st. induction l as [|i l IH]; intros st Hst; cbn [foldM]; [by intros [= <-]|].
  intros (st1 & (io & E & [= <-])%bind_ret_inv & Hl)%bind_ret_inv. eapply IH, Hl. cbn [snd].
  destruct io. by eapply migrateInputReceiver_options.
Qed.

Lemma initialize_options f f' o' : Initialize.initialize ParseQuantity f NoOptions = Ret (f', o') → only_secrets o'.
Proof.
  unfold Initialize.initialize. cbn [foldM fst snd]. intros ([f1 o1] & E1 & E)%bind_ret_inv. cbn [fst snd] in E.
  assert (o1 = NoOptions) as ->. { by apply bind_ret_inv in E1 as (q & _ & [= _ <-]). }
  apply bind_ret_inv in E as ([f2 o2] & E2 & E). cbn [fst snd] in E.
  apply bind_ret_inv in E as ([f3 o3] & E3 & [= _ <-]).
  assert (o3 = o2) as -> by (by apply bind_ret_inv in E3 as (outs & _ & [= _ <-])).
  apply bind_ret_inv in E2 as (st & Hst & [= _ <-]). eapply migrate_inputs_options, Hst. intros k _. apply lookup_empty.
Qed.
End options.

Lemma only_secrets_ok o : only_secrets o → op_ok o.
Proof.
  intros Ho k P v Hin Hl. exfalso. rewrite Ho in Hl; [done|].
  intros ->. revert Hin. unfold option_types. rewrite !elem_of_cons, elem_of_nil.
  repeat (intros [[=]|Hin]; revert Hin). done.
Qed.

Lemma initialized_options `{RangeOrder} api cxt c err :
  Reconcile.initialize api cxt = Ret (c, err) → only_secrets (ctx_AdditionalContext c).
Proof.
  unfold Reconcile.initialize. intros ([f o] & Hi & E)%bind_ret_inv. cbn [fst snd] in E.
  apply initialize_options in Hi. apply bind_ret_inv in E as ([secrets|e] & _ & E); [|by injection E as <- _].
  apply bind_ret_inv in E as (g & _ & E). by destruct (MapConfigMaps _ _ _); injection E as <- _.
Qed.

(** ** From the accepted forwarder to the reconciliation of its objects *)

Section whole.
Context `{RangeOrder, UintOfFloat, OpenshiftTLS, Host, ApiServer}.
Context (api : cluster) (now : Z) (parse_other : string → option instant).
Context (Marshal : Config → string + string) (Parse : string → IntOrString).
Context (Getenv : string → string) (ExtraNoProxyList : list string).
Context (visit_egress : gset PortProtocol → list PortProtocol) (visit_ingress : gset Z → list Z).
Context (apiServerProfile : option TLSSecurityProfile) (clusterID : option string) (polls : nat).
Context (owner : OwnerReference).

Notation collector c := (ReconcileCollector (parse_url api) parse_other Marshal Parse Getenv ExtraNoProxyList visit_egress
  visit_ingress apiServerProfile clusterID polls c owner).
Notation deployed := (deployed (parse_url api) parse_other Marshal Parse Getenv ExtraNoProxyList apiServerProfile).
Notation ok c := (forwarder_ok (GetServiceAccount api) (CreateReview api) (regexp_compiles api) (parse_url api)
  (json_Unmarshal api) c).

(** What the API and the validation do not see of a spec, and what its outputs need beyond
    the configuration: roles with their token, and ports for the policy that is asked for. *)
Record unseen (spec : ClusterLogForwarderSpec) : Prop := {
  un_receivers : ∀ i r, i ∈ spec_Inputs spec → in_Receiver i = Some r → recv_Type r ∈ ReceiverTypes;
  un_limits : ∀ i, i ∈ spec_Inputs spec → returns (MaxRecordsPerSecond i);
  un_names : ∀ o, o ∈ spec_Outputs spec → string_forallb name_byte (out_Name o) = true;
  un_filled : ∃ p, p ∈ spec_Pipelines spec ∧ pipe_InputRefs p ≠ [] ∧ pipe_OutputRefs p ≠ [];
  un_outputs : outputs_unseen (parse_url api) spec;
  un_roles : ∀ o, o ∈ spec_Outputs spec → role_token_ok o;
  un_ports : ∀ policy, spec_Collector spec ⇀ coll_NetworkPolicy = Some policy →
    returns (DetermineEgressPortProtocols (parse_url api) (GetProxyEnvVars Getenv ExtraNoProxyList) (spec_Outputs spec)
      (np_RuleSet policy));
}.

(** The answers to the controller are those of the server whose objects are [w]: a service
    account that was found is there, and the deployment ends as the reconciliation of the
    collector does. *)
Record serves (w : world) : Prop := {
  sv_kinds : well_kinded w;
  sv_accounts : ∀ ns sa, GetServiceAccount api sa ns = inl tt → is_Some (w_objects w !! key_of KServiceAccount ns sa);
  sv_encoder : ∀ config, ∃ text, Marshal config = inl text;
  sv_deploy : ∀ c w' e, collector c w = Ret (w', e) →
    Deploy api c = match e with inl _ => None | inr e => Some (ae_Message e) end;
}.

Lemma elem_length {A} (x : A) l : x ∈ l → (0 < length l)%nat.
Proof. intros Hx. destruct l; [by apply not_elem_of_nil in Hx|cbn; lia]. Qed.

Lemma unseen_filled c :
  ok c → unseen (ctx_Spec c) → (0 < length (spec_Inputs (ctx_Spec c)))%nat ∧ (0 < length (spec_Pipelines (ctx_Spec c)))%nat ∧
    (0 < length (spec_Outputs (ctx_Spec c)))%nat.
Proof.
  intros Hok Hu. destruct (un_filled _ Hu) as (p & Hp & Hi & Ho). destruct (fok_pipelines _ _ _ _ _ _ Hok p Hp) as [Hpi Hpo _ _].
  destruct (pipe_InputRefs p) as [|i li]; [done|]. destruct (pipe_OutputRefs p) as [|o lo]; [done|].
  specialize (Hpi i (list_elem_of_here _ _)). specialize (Hpo o (list_elem_of_here _ _)).
  apply list_elem_of_fmap in Hpi as (? & _ & Hpi). apply list_elem_of_fmap in Hpo as (? & _ & Hpo).
  split_and!; by eapply elem_length.
Qed.

(** An accepted forwarder can be deployed. *)
Lemma accepted_deployable cxt c st w :
  Reconcile.initialize api cxt = Ret (c, None) → context_ready (parse_url api) c → ok c → unseen (ctx_Spec c) → serves w →
  deployable (parse_url api) Marshal Getenv ExtraNoProxyList (ctx_set_Status c st) w.
Proof.
  intros Hi [Hadm _ (Hs & Hc & _) _] Hok Hu Hw. split.
  - apply (sv_kinds _ Hw).
  - exact Hs.
  - exact Hc.
  - exact (only_secrets_ok _ (initialized_options api cxt c None Hi)).
  - intros _. apply (sv_accounts _ Hw). apply (fok_authorized _ _ _ _ _ _ Hok).
  - exists (regexp_compiles api). eapply (forwarder_ok_config _ _ _ _ _ c Hok Hadm); try apply Hu. by apply unseen_filled.
  - apply (sv_encoder _ Hw).
  - apply (un_roles _ Hu).
  - apply (un_ports _ Hu).
Qed.

(** What the controller makes of the outcome of the reconciliation of the collector. *)
Lemma reconcile_valid_outcome c :
  snd (RemoveStaleWorkload api (ctx_Forwarder c)) = None →
  ∃ g v, let r := reconcile_valid api now c in
    DeployCollector c ∈ rec_events r ∧ final_status r g ∧
    view (st_Conditions (clf_Status g)) !! ConditionTypeReady = Some v ∧
    (v_Status v = ConditionTrue ↔ Deploy api c = None) ∧ rec_err r = Deploy api c ∧ v_Message v = default "" (Deploy api c).
Proof.
  unfold reconcile_valid. pose proof (remove_workload_events api) as Hno. unfold RemoveStaleWorkload in *.
  set (which := if DeployAsDeployment _ then DaemonSet else Deployment).
  specialize (Hno which (clf_Namespace (ctx_Forwarder c)) (clf_Name (ctx_Forwarder c))).
  destruct (remove_workload api which _ _) as [removed err]. cbn [fst snd] in *. intros ->.
  assert (∀ h, PatchStatus h ∉ removed ++ [DeployCollector c]) as Hlast.
  { intros h [Hh|Hh%list_elem_of_singleton]%elem_of_app; [by apply Hno in Hh|done]. }
  destruct (Deploy api c) as [err|].
  - destruct (finish_final now c _ defaultRequeue (Some err) ConditionFalse ReasonDeploymentError err Hlast) as (g & Hg & _ & Hv & _).
    exists g, {| v_Status := ConditionFalse; v_Reason := ReasonDeploymentError; v_Message := err |}. cbn zeta.
    split; [|by split_and!]. cbn [finish rec_events]. set_solver.
  - destruct (finish_final now c _ periodicRequeue None ConditionTrue ReasonReconciliationComplete "" Hlast) as (g & Hg & _ & Hv & _).
    exists g, {| v_Status := ConditionTrue; v_Reason := ReasonReconciliationComplete; v_Message := "" |}. cbn zeta.
    split; [|by split_and!]. cbn [finish rec_events]. set_solver.
Qed.

(** A reconciliation writes the status last, and once. *)
Lemma final_status_eq r g g' : final_status r g → final_status r g' → g = g'.
Proof. intros (l & E & _) (l' & E' & _). rewrite E in E'. by apply app_inj_tail in E' as [_ [= ->]]. Qed.

Lemma reconcile_valid_final c : ∃ g, final_status (reconcile_valid api now c) g.
Proof.
  unfold reconcile_valid. pose proof (remove_workload_events api) as Hno. unfold RemoveStaleWorkload.
  set (which := if DeployAsDeployment _ then DaemonSet else Deployment).
  specialize (Hno which (clf_Namespace (ctx_Forwarder c)) (clf_Name (ctx_Forwarder c))).
  destruct (remove_workload api which _ _) as [removed err]. cbn [fst] in Hno.
  assert (∀ h, PatchStatus h ∉ removed) as Hrm by by intros h ?%Hno.
  assert (∀ h, PatchStatus h ∉ removed ++ [DeployCollector c]) as Hlast.
  { intros h [Hh|Hh%list_elem_of_singleton]%elem_of_app; [by apply Hrm in Hh|done]. }
  destruct err as [err|]; [|destruct (Deploy api c) as [err|]]; eexists; eexists; by split.
Qed.

Lemma reconcile_invalid_last c h :
  PatchStatus h ∉ (if MustUndeployCollector (st_Conditions (ctx_Status c)) then
      fst (remove_workload api (if DeployAsDeployment (ctx_Forwarder c) then Deployment else DaemonSet)
             (clf_Namespace (ctx_Forwarder c)) (clf_Name (ctx_Forwarder c)))
    else []).
Proof. case_match; [by intros ?%remove_workload_events|apply not_elem_of_nil]. Qed.

(** What a reconciliation leaves behind if the forwarder is accepted: the outcome of the
    collector's, in the status. *)
Definition collected (c : ForwarderContext) (w : world) (r : Reconcile.reconciled) (g : ClusterLogForwarder) : Prop :=
  ∃ st w' e v, collector (ctx_set_Status c st) w = Ret (w', e) ∧ DeployCollector (ctx_set_Status c st) ∈ rec_events r ∧
    final_status r g ∧ view (st_Conditions (clf_Status g)) !! ConditionTypeReady = Some v ∧
    (v_Status v = ConditionTrue ↔ e = inl tt) ∧
    (∀ err, e = inr err → rec_err r = Some (ae_Message err) ∧ v_Message v = ae_Message err) ∧
    (frame (λ k, ¬ workload_kind k) w w' ∨ ∃ f, deployed (ctx_set_Status c st) owner f w') ∧
    (e = inl tt → ∃ f, deployed (ctx_set_Status c st) owner f w' ∧
       monitored f (clf_of (ctx_set_Status c st)) (names_of (ctx_set_Status c st)) owner w') ∧
    (never_fails → e = inl tt).

Lemma accepted_collected cxt c st w :
  Reconcile.initialize api cxt = Ret (c, None) → context_ready (parse_url api) c → ok c → unseen (ctx_Spec c) → serves w →
  snd (RemoveStaleWorkload api (ctx_Forwarder c)) = None →
  ∃ g, collected c w (reconcile_valid api now (ctx_set_Status c st)) g.
Proof.
  intros Hi Hr Hok Hu Hw Hrm. pose proof (accepted_deployable cxt c st w Hi Hr Hok Hu Hw) as Hd.
  destruct (goes_ends _ _ _ (goes_ReconcileCollector (parse_url api) parse_other Marshal Parse Getenv ExtraNoProxyList
    visit_egress visit_ingress apiServerProfile clusterID polls (ctx_set_Status c st) owner w Hd)) as (w' & e & E & _ & Hs & _).
  destruct (wp_ends false _ _ _ _ _ (wp_ReconcileCollector (parse_url api) parse_other Marshal Parse Getenv ExtraNoProxyList
    visit_egress visit_ingress apiServerProfile clusterID polls (ctx_set_Status c st) owner w) E) as [Hframe Hdone].
  destruct (reconcile_valid_outcome (ctx_set_Status c st) Hrm) as (g & v & Hin & Hg & Hv & Ht & He & Hm).
  rewrite (sv_deploy _ Hw _ _ _ E) in Ht, He, Hm.
  exists g, st, w', e, v. split; [exact E|]. split; [exact Hin|]. split; [exact Hg|]. split; [exact Hv|].
  split; [|split; [|split; [exact Hframe|split; [exact Hdone|]]]].
  - rewrite Ht. destruct e as [[]|err]; split; congruence.
  - by intros err ->.
  - intros Hno. by destruct (Hs Hno) as [[] ->].
Qed.

(** C5. From the stored forwarder to its collector.  Let a stored forwarder be admitted by
    the API server, with outputs that can be validated (see [stored_ok]) and a unique status;
    let it be managed and not being deleted, and let its context have been filled without an
    error.  Then its reconciliation returns and writes the status last.  If it is not
    accepted it is not ready, and no collector is deployed.  If it is accepted, its stale
    workload is removed without an error, and what the validation does not look at is in
    order ([unseen]: types of receivers, rate limits that can be read, plain names of
    outputs, references, no panic of an output's factory or of the ports of its network
    policy), and the answers are those of the server the objects are read from
    ([serves]), then the collector is reconciled with that context, and its outcome is the
    one in the status: ready exactly after a success, with the error otherwise.  The workload
    in the cluster is then as it was, or runs a configuration generated from the forwarder;
    after a success it does, with its service and monitors; and on a server that answers
    every request there is a success. *)
Theorem Reconcile_collects cxt ns n f c w :
  GetForwarder api ns n = inl f → stored_ok api f → meta_DeletionTimestamp (clf_Meta f) = None →
  spec_ManagementState (clf_Spec f) ≠ ManagementStateUnmanaged →
  Reconcile.initialize api (ctx_set_Forwarder cxt (removeStaleStatuses f)) = Ret (c, None) →
  ∃ r g, Reconcile api now cxt ns n = Ret r ∧ final_status r g ∧
    (ok c → snd (RemoveStaleWorkload api (ctx_Forwarder c)) = None → unseen (ctx_Spec c) → serves w → collected c w r g) ∧
    (¬ ok c → (∀ c', DeployCollector c' ∉ rec_events r) ∧
       ∃ v, view (st_Conditions (clf_Status g)) !! ConditionTypeReady = Some v ∧ v_Status v = ConditionFalse).
Proof.
  intros Hf Hst Hdel Hm Hi. rewrite (Reconcile_managed api now cxt ns n f) by done.
  set (cxt0 := ctx_set_Forwarder (ctx_set_Forwarder cxt f) (removeStaleStatuses f)).
  change (ctx_set_Forwarder cxt (removeStaleStatuses f)) with cxt0 in Hi.
  destruct (reconcile_managed_cases api now cxt0 f eq_refl Hst)
    as [(c1 & err & Hi' & _)|(c1 & c' & b & st & Hi' & Hr & -> & _ & Hb & _ & ->)]; rewrite Hi in Hi'; injection Hi'; [done|].
  intros <-. clear Hi'. destruct b.
  - destruct (reconcile_valid_final (ctx_set_Status c st)) as [g Hg].
    exists (reconcile_valid api now (ctx_set_Status c st)), g. split; [done|]. split; [exact Hg|].
    split; [|intros Hno; by destruct Hno; apply Hb]. intros Hok Hrm Hu Hw.
    destruct (accepted_collected cxt0 c st w Hi Hr Hok Hu Hw Hrm) as [g' Hg'].
    destruct Hg' as (st' & w' & e & v & E & Hin & Hfin & Hrest).
    assert (g' = g) as -> by by eapply final_status_eq.
    by exists st', w', e, v.
  - destruct (finish_final now (ctx_set_Status c st) _ defaultRequeue None ConditionFalse ReasonValidationFailure
      "collector not ready" (reconcile_invalid_last (ctx_set_Status c st))) as (g & Hg & _ & Hv & _).
    exists (reconcile_invalid api now (ctx_set_Status c st)), g. split; [done|]. split; [exact Hg|]. split.
    + intros Hok _ _ _. by apply Hb in Hok.
    + intros _. split; [by apply reconcile_invalid_events|]. by eexists.
Qed.
End whole.
