(* ===== verification/MetricExporter.v ===== *)
(** * The exporter of log file metrics

    A second resource, of which there is one: the daemon set that counts the bytes of log
    files.  The files [internal/metrics/logfilemetricexporter], the validation of its
    name and its controller.  The requests and objects are those of [Cluster]. *)

From S2P Require Import Prelude GoStrings ApiCommon ApiInputs ApiForwarder ApiExporter Conditions ObsResources Reconcile VrlText Tls Network.
From S2P Require Import Sources Config InputServices Workload Cluster ReconcileObjects CollectorObjects.

(** ** The daemon set ([factory.go]) *)

Definition exporterPort : Z := 2112.
Definition logContainers : string * string := ("varlogcontainers", "/var/log/containers").
Definition logPods : string * string := ("varlogpods", "/var/log/pods").
Definition exporterMetricsVolumeName : string := "lfme-metrics".
Definition ExporterMetricsSecretName : string := "lfme-secret".
Definition exporterMetricsVolumePath : string := "/etc/logfilemetricexporter/metrics".
Definition lfmeRunAsUser : Z := 1000.
Definition selinuxTypeLogWriter : string := "container_logwriter_t".
Definition lfmeMaxUnavailable : string := "100%".

Definition ResourceRequirements_zero : ResourceRequirements := {| rr_Limits := ∅; rr_Requests := ∅ |}.

Definition resourceRequirements (exporter : LogFileMetricExporter) : ResourceRequirements :=
  match lfs_Resources (lfme_Spec exporter) with None => ResourceRequirements_zero | Some r => r end.

(** Those of the spec come first; a default with a key of theirs is left out. *)
Definition tolerations (exporter : LogFileMetricExporter) : list Toleration :=
  match lfs_Tolerations (lfme_Spec exporter) with
  | None => DefaultTolerations
  | Some specd =>
      let tolerationMap : gset string := list_to_set (tol_Key <$> specd) in
      foldl (λ finalTolerations defaultTol,
        if bool_decide (tol_Key defaultTol ∈ tolerationMap) then finalTolerations
        else finalTolerations ++ [defaultTol]) specd DefaultTolerations
  end.

Definition exporter_securityContext (drop : list string) : SecurityContext := {|
  sc_CapabilitiesDrop := drop; sc_SELinuxType := selinuxTypeLogWriter; sc_ReadOnlyRootFilesystem := true;
  sc_AllowPrivilegeEscalation := false; sc_SeccompProfile := "RuntimeDefault";
  sc_RunAsUser := Some lfmeRunAsUser; sc_RunAsNonRoot := Some true |}.

Section factory.
Context `{OpenshiftTLS} (Getenv : string → string) (drop : list string) (Parse : string → IntOrString).

Definition newLogMetricsExporterContainer (exporter : LogFileMetricExporter) (tlsProfileSpec : TLSProfileSpec) : Container :=
  let c := NewContainer LogfilesmetricexporterName (GetComponentImage Getenv LogfilesmetricexporterName) "IfNotPresent"
             (Some (resourceRequirements exporter)) in {|
  con_Name := con_Name c; con_Image := con_Image c; con_ImagePullPolicy := con_ImagePullPolicy c;
  con_Resources := con_Resources c; con_TerminationMessagePolicy := con_TerminationMessagePolicy c;
  con_Ports := [{| cp_Name := MetricsPortName; cp_ContainerPort := LogfilesmetricexporterPort; cp_Protocol := ProtocolTCP |}];
  con_Env := con_Env c;
  con_VolumeMounts :=
    [{| vm_Name := logContainers.1; vm_ReadOnly := true; vm_MountPath := logContainers.2; vm_SubPath := "" |};
     {| vm_Name := logPods.1; vm_ReadOnly := true; vm_MountPath := logPods.2; vm_SubPath := "" |};
     {| vm_Name := exporterMetricsVolumeName; vm_ReadOnly := true; vm_MountPath := exporterMetricsVolumePath;
        vm_SubPath := "" |}];
  con_SecurityContext := Some (exporter_securityContext drop);
  con_Command := ["/usr/local/bin/log-file-metric-exporter"];
  con_Args := ["-verbosity=2"; "-dir=/var/log/pods"; "-http=:2112"; "-keyFile=/etc/logfilemetricexporter/metrics/tls.key";
    "-crtFile=/etc/logfilemetricexporter/metrics/tls.crt"; "-secureMetrics";
    "-tlsMinVersion=" +:+ MinTLSVersion tlsProfileSpec;
    "-cipherSuites=" +:+ Join (TLSCiphers tlsProfileSpec) ",";
    "-groups=" +:+ Join (TLSGroups tlsProfileSpec) ","] |}.

Definition exporter_NewPodSpec (exporter : LogFileMetricExporter) (tlsProfileSpec : TLSProfileSpec) : PodSpec := {|
  pod_NodeSelector := EnsureLinuxNodeSelector (lfs_NodeSelector (lfme_Spec exporter));
  pod_PriorityClassName := clusterLoggingPriorityClassName;
  pod_ServiceAccountName := LogfilesmetricexporterName;
  pod_TerminationGracePeriodSeconds := 10;
  pod_Tolerations := tolerations exporter;
  pod_Affinity := None;
  pod_Volumes := [host_volume logContainers; host_volume logPods;
    {| vol_Name := exporterMetricsVolumeName; vol_Source := VSecret ExporterMetricsSecretName |}];
  pod_Containers := [newLogMetricsExporterContainer exporter tlsProfileSpec] |}.

Definition exporter_NewDaemonSet (exporter : LogFileMetricExporter) (namespace name : string)
    (tlsProfileSpec : TLSProfileSpec) (visitors : list visitor) : DaemonSetObject :=
  factory_NewDaemonSet namespace name (lfme_Name exporter) LogfilesmetricexporterName LogfilesmetricexporterName
    (Parse lfmeMaxUnavailable) (exporter_NewPodSpec exporter tlsProfileSpec) visitors.
End factory.

(** ** The resources ([metric_exporter.go], [daemonset.go]) *)

Section exporter.
Context `{OpenshiftTLS, ApiServer}.
Context (Getenv : string → string) (Parse : string → IntOrString) (apiServerProfile : option TLSSecurityProfile).

Definition exporter_ReconcileDaemonset (exporter : LogFileMetricExporter) (namespace name : string)
    (owner : OwnerReference) (visitors : list visitor) : K unit :=
  w ← get_world;
  let desired := exporter_NewDaemonSet Getenv (w_dropCaps w) Parse exporter namespace name
                   (GetClusterTLSProfileSpec apiServerProfile) visitors in
  reconcile_DaemonSet (own_ds desired owner).

Definition ReconcileLogFileMetricsExporterNetworkPolicy (namespace policyName instanceName component policyRuleSet : string)
    (ownerRef : OwnerReference) (visit : visitor) : K unit :=
  reconcile_NetworkPolicy {|
    pol_Policy := NewNetworkPolicyWithProtocolPorts namespace policyName instanceName component policyRuleSet [] [] visit;
    pol_Owners := AddOwnerRef [] ownerRef |}.

(** The names that are not used are empty. *)
Definition exporter_names (namespace : string) : ForwarderResourceNames := {|
  CommonName := LogfilesmetricexporterName; SecretMetrics := ""; ConfigMapName := "";
  MetadataReaderClusterRoleBinding :=
    "cluster-logging-" +:+ namespace +:+ "-" +:+ LogfilesmetricexporterName +:+ "-metadata-reader";
  MetricsAuthClusterRoleBinding :=
    "cluster-logging-" +:+ namespace +:+ "-" +:+ LogfilesmetricexporterName +:+ "-metrics-auth";
  CaTrustBundle := ""; ServiceAccountName := LogfilesmetricexporterName; InternalLogStoreSecret := "";
  ServiceAccountTokenSecret := LogfilesmetricexporterName +:+ "-token"; ForwarderName := ""; SecretsName := "";
  AwsCredentialsFile := "" |}.

Definition exporter_labels (lfmeInstance : LogFileMetricExporter) : visitor :=
  λ labels, SetCommonLabels labels LogfilesmetricexporterName (lfme_Name lfmeInstance) LogfilesmetricexporterName.

Definition exporter_network_step (lfmeInstance : LogFileMetricExporter) (names : ForwarderResourceNames)
    (owner : OwnerReference) : K unit :=
  let ns := lfme_Namespace lfmeInstance in
  let policyName := "lfme-" +:+ CommonName names in
  match lfs_NetworkPolicy (lfme_Spec lfmeInstance) with
  | Some ruleSet =>
      ReconcileLogFileMetricsExporterNetworkPolicy ns policyName (lfme_Name lfmeInstance) LogfilesmetricexporterName
        ruleSet owner (exporter_labels lfmeInstance)
  | None => RemoveNetworkPolicy ns policyName
  end.

Definition exporter_monitors_step (lfmeInstance : LogFileMetricExporter) (names : ForwarderResourceNames)
    (owner : OwnerReference) : K unit :=
  let ns := lfme_Namespace lfmeInstance in
  let metricsSelector := BuildSelector LogfilesmetricexporterName (lfme_Name lfmeInstance) in
  ReconcileServiceMonitor ns (CommonName names) (CommonName names) owner metricsSelector MetricsPortName
    FullRelabelConfigs MetricsCollectionProfileFull;;
  ReconcileServiceMonitor ns (MetricsCollectionProfileMinimal +:+ "-" +:+ CommonName names) (CommonName names) owner
    metricsSelector MetricsPortName LFMEMinimalRelabelConfigs MetricsCollectionProfileMinimal;;
  ReconcileServiceMonitor ns (MetricsCollectionProfileTelemetry +:+ "-" +:+ CommonName names) (CommonName names) owner
    metricsSelector MetricsPortName LFMETelemetryRelabelConfigs MetricsCollectionProfileTelemetry.

(** [logfilemetricexporter.Reconcile]. *)
Definition exporter_Reconcile (lfmeInstance : LogFileMetricExporter) (owner : OwnerReference) : K unit :=
  let ns := lfme_Namespace lfmeInstance in
  let names := exporter_names ns in
  SecurityContextConstraints sccName NewSCC;;
  ReconcileServiceAccount ns names owner;;
  ReconcileRBAC (CommonName names) ns (ServiceAccountName names) owner;;
  ReconcileMetricsAuthRBAC (MetricsAuthClusterRoleBinding names) ns (ServiceAccountName names);;
  reconcile_service ns (metrics_service (CommonName names) (lfme_Name lfmeInstance) LogfilesmetricexporterName
    MetricsPortName ExporterMetricsSecretName exporterPort owner (exporter_labels lfmeInstance));;
  exporter_network_step lfmeInstance names owner;;
  exporter_monitors_step lfmeInstance names owner;;
  r ← attempt (exporter_ReconcileDaemonset lfmeInstance ns (CommonName names) owner [exporter_labels lfmeInstance]);
  match r with
  | inl tt => mret tt
  | inr err => throw (Errorf ("Unable to reconcile LogFileMetricExporter: " +:+ ae_Message err))
  end.

(** ** The validation ([internal/validations/logfilemetricsexporter]) *)

Definition validateName (instance : LogFileMetricExporter) : option string :=
  let name := if lfme_Name instance != SingletonName then
      "Invalid name " +:+ Quote (lfme_Name instance) +:+ ", singleton instance must be named "
        +:+ Quote SingletonName +:+ " " else "" in
  let ns := if lfme_Namespace instance != OpenshiftNS then
      "Invalid namespace name " +:+ Quote (lfme_Namespace instance) +:+ ", instance must be in "
        +:+ Quote OpenshiftNS +:+ " namespace " else "" in
  if (lfme_Name instance != SingletonName) || (lfme_Namespace instance != OpenshiftNS) then Some (name +:+ ns) else None.

Definition exporter_validations : list (LogFileMetricExporter → option string) := [validateName].

Definition exporter_Validate (instance : LogFileMetricExporter) : option string :=
  foldr (λ validate rest, match validate instance with Some err => Some err | None => rest end) None exporter_validations.

(** ** The controller *)

Definition condReady (now : Z) : Condition := NewCondition now ConditionTypeReady ConditionTrue ReasonExporterValid "".

Definition condNotReady (now : Z) (reason message : string) : Condition :=
  NewCondition now ConditionTypeReady ConditionFalse reason message.

(** The body is that of [SetCondition] ([internal/api/observability]). *)
Definition setCondition (now : Z) (conditions : list Condition) (newCond : Condition) : list Condition * bool :=
  SetCondition now conditions newCond.

Definition OptimisticLockErrorMsg : string :=
  "the object has been modified; please apply your changes to the latest version and try again".

(** [Status().Update]: of the object that is stored only the status changes. *)
Definition UpdateStatus (k : key) (status : list Condition) : K unit :=
  ask VUpdate k;; w ← get_world;
  match w_objects w !! k with
  | Some (OExporter e) => write VUpdate k (<[k := OExporter (lfme_set_Conditions e status)]> (w_objects w))
  | Some _ => lift wrong_kind
  | None => throw (not_found k)
  end.

(** The seconds after which to come back, 0 for none. *)
Definition exporter_updateStatus (k : key) (status : list Condition) : K Z :=
  r ← attempt (UpdateStatus k status);
  match r with
  | inl tt => mret 0%Z
  | inr err => if Contains (ae_Message err) OptimisticLockErrorMsg then mret 1%Z else throw err
  end.

(** [utils.AsOwner]. *)
Definition exporter_owner (l : LogFileMetricExporter) : OwnerReference := {|
  own_APIVersion := "logging.openshift.io/v1alpha1"; own_Kind := "LogFileMetricExporter"; own_Name := lfme_Name l;
  own_UID := lfme_UID l |}.

Definition exporter_controller (now : Z) (namespace name : string) : K Z :=
  let k := key_of KExporter namespace name in
  r ← attempt (Get k);
  match r with
  | inr err => if negb (IsNotFound err) then throw err else mret 0%Z
  | inl (OExporter lfmeInstance) =>
      if lfme_DeletionTimestamp lfmeInstance then mret 0%Z else
      let conditions := lfst_Conditions (lfme_Status lfmeInstance) in
      match exporter_Validate lfmeInstance with
      | Some err =>
          exporter_updateStatus k (setCondition now conditions
            (condNotReady now ReasonExporterInvalid ("validation failed: " +:+ err))).1
      | None =>
          reconcileErr ← attempt (exporter_Reconcile lfmeInstance (exporter_owner lfmeInstance));
          let condition := match reconcileErr with
                           | inr err => condNotReady now ReasonExporterInvalid (ae_Message err)
                           | inl tt => condReady now
                           end in
          exporter_updateStatus k (setCondition now conditions condition).1;;
          match reconcileErr with inr err => throw err | inl tt => mret 0%Z end
      end
  | inl _ => lift wrong_kind
  end.
End exporter.
