(* ===== verification/MetricExporterSpec.v ===== *)
(** * What the exporter of log file metrics is

    The properties of [MetricExporter]: the tolerations of its pods, how its objects fit,
    and what a run of its controller leaves in the cluster and in its status. *)

From S2P Require Import Prelude GoStrings ApiCommon ApiInputs ApiForwarder ApiExporter Conditions ObsResources Reconcile VrlText Tls Network.
From S2P Require Import Sources SourcesSpec Config InputServices Workload WorkloadSpec Cluster ReconcileObjects ReconcileObjectsSpec.
From S2P Require Import ClusterProgress CollectorObjects CollectorProgress CollectorSpec MetricExporter.

(** ** Tolerations *)

Lemma tolerations_given exporter l :
  lfs_Tolerations (lfme_Spec exporter) = Some l →
  tolerations exporter = l ++ filter (λ t, tol_Key t ∉ tol_Key <$> l) DefaultTolerations.
Proof.
  intros E. unfold tolerations. rewrite E. generalize DefaultTolerations as ds.
  enough (∀ ds acc, foldl (λ f d, if bool_decide (tol_Key d ∈ (list_to_set (tol_Key <$> l) : gset string)) then f else f ++ [d])
    acc ds = acc ++ filter (λ t, tol_Key t ∉ tol_Key <$> l) ds) as Hl by (intros ds; apply Hl).
  induction ds as [|d ds IH]; intros acc; cbn [foldl]; [by rewrite app_nil_r|].
  rewrite IH, filter_cons. rewrite (bool_decide_ext _ (tol_Key d ∈ tol_Key <$> l)) by (by rewrite elem_of_list_to_set).
  case_bool_decide as Hd.
  - by rewrite decide_False by tauto.
  - by rewrite decide_True, <-app_assoc.
Qed.

(** ** The objects fit *)

Section objects.
Context `{OpenshiftTLS} (Getenv : string → string) (drop : list string) (Parse : string → IntOrString).

(** The daemon set as the controller makes it. *)
Definition exporter_daemonset (e : LogFileMetricExporter) (profile : option TLSSecurityProfile) : DaemonSetObject :=
  exporter_NewDaemonSet Getenv drop Parse e (lfme_Namespace e) LogfilesmetricexporterName
    (GetClusterTLSProfileSpec profile) [exporter_labels e].

Definition exporter_service (e : LogFileMetricExporter) : Service :=
  metrics_service LogfilesmetricexporterName (lfme_Name e) LogfilesmetricexporterName MetricsPortName
    ExporterMetricsSecretName exporterPort (exporter_owner e) (exporter_labels e).

Lemma exporter_labels_Selectors e labels :
  (∀ k, k ∈ (selector_list "" "" "").*1 → labels !! k = None) →
  Selectors (lfme_Name e) LogfilesmetricexporterName LogfilesmetricexporterName ⊆ exporter_labels e labels.
Proof.
  intros Hl. apply map_subseteq_spec. intros k v Hk%Selectors_lookup.
  apply SetCommonLabels_lookup; [exact Hk|]. apply Hl.
  change (selector_list "" "" "").*1 with (selector_list (lfme_Name e) LogfilesmetricexporterName LogfilesmetricexporterName).*1.
  apply list_elem_of_fmap. by exists (k, v).
Qed.

(** The selectors of the daemon set, of the service and of the monitors match, the service
    finds the port of the container, and the certificate that the cluster makes for the
    service is the one the container is given. *)
Lemma exporter_fits e profile :
  let ds := exporter_daemonset e profile in
  let service := exporter_service e in
  ds_Selector ds ⊆ tpl_Labels (ds_Template ds) ∧
  svc_Selector service ⊆ tpl_Labels (ds_Template ds) ∧
  BuildSelector LogfilesmetricexporterName (lfme_Name e) ⊆ svc_Labels service ∧
  (∃ c, pod_Containers (tpl_Spec (ds_Template ds)) = [c] ∧
     vol_Name <$> pod_Volumes (tpl_Spec (ds_Template ds)) = vm_Name <$> con_VolumeMounts c ∧
     FromString <$> (cp_Name <$> con_Ports c) = sp_TargetPort <$> svc_Ports service) ∧
  (∃ secret, VSecret secret ∈ vol_Source <$> pod_Volumes (tpl_Spec (ds_Template ds)) ∧
     svc_Annotations service !! AnnotationServingCertSecretName = Some secret).
Proof.
  cbv zeta.
  assert (Selectors (lfme_Name e) LogfilesmetricexporterName LogfilesmetricexporterName ⊆ exporter_labels e ∅) as Hempty.
  { apply exporter_labels_Selectors. intros. apply lookup_empty. }
  assert (Selectors (lfme_Name e) LogfilesmetricexporterName LogfilesmetricexporterName ⊆
    exporter_labels e (withServiceTypeLabel ServiceTypeMetrics ∅)) as Hserv.
  { apply exporter_labels_Selectors. intros k Hk. unfold withServiceTypeLabel, AddLabels. rewrite (left_id_L ∅ (∪)).
    apply lookup_singleton_ne. intros <-. apply (bool_decide_pack _) in Hk. vm_compute in Hk. exact Hk. }
  assert (∀ k v, (k, v) ∈ selector_list (lfme_Name e) LogfilesmetricexporterName LogfilesmetricexporterName →
    svc_Labels (exporter_service e) !! k = Some v) as Hlabels.
  { intros k v Hk. exact (lookup_weaken _ _ _ _ (proj2 (Selectors_lookup _ _ _ _ _) Hk) Hserv). }
  split; [exact Hempty|]. split; [|split; [|split]].
  - cbn [exporter_service metrics_service NewService svc_Selector].
    change (foldl _ ∅ _) with (svc_Labels (exporter_service e)).
    rewrite (Hlabels LabelK8sName LogfilesmetricexporterName) by by left. exact Hempty.
  - apply map_subseteq_spec. intros k v. unfold BuildSelector. rewrite !lookup_insert_Some, lookup_singleton_Some.
    intros [[<- <-]|[_ [[<- <-]|[_ [<- <-]]]]].
    + change (svc_Labels (exporter_service e)) with (exporter_labels e (withServiceTypeLabel ServiceTypeMetrics ∅)).
      unfold exporter_labels, SetCommonLabels, AddLabels. apply lookup_union_Some_l. vm_compute. reflexivity.
    + apply Hlabels. by right; right; left.
    + apply Hlabels. by right; left.
  - eexists. split; [reflexivity|]. by split.
  - exists ExporterMetricsSecretName. split; [by right; right; left|]. apply lookup_singleton_eq.
Qed.
End objects.

(** ** The reconciliation of its objects *)

Section reconcile.
Context `{OpenshiftTLS, ApiServer}.
Context (Getenv : string → string) (Parse : string → IntOrString) (apiServerProfile : option TLSSecurityProfile).

Notation not_exporter := (λ k, k_Kind k ≠ KExporter).

(** The objects of the exporter are those that are wanted. *)
Definition exporter_deployed (e : LogFileMetricExporter) (w : world) : Prop :=
  served (lfme_Namespace e) (exporter_service e) w ∧
  three_monitors (lfme_Namespace e) LogfilesmetricexporterName (exporter_owner e)
    (BuildSelector LogfilesmetricexporterName (lfme_Name e)) LFMEMinimalRelabelConfigs LFMETelemetryRelabelConfigs w ∧
  w_objects w !! key_of KDaemonSet (lfme_Namespace e) LogfilesmetricexporterName =
    Some (ODaemonSet (own_ds (exporter_daemonset Getenv (w_dropCaps w) Parse e apiServerProfile) (exporter_owner e))).

Lemma wp_frame_weaken {A} (P P' : key → Prop) (m : K A) w :
  wp false m (λ w' _, frame P w w') w → (∀ k, P k → P' k) → wp false m (λ w' _, frame P' w w') w.
Proof. intros Hm HP. eapply wp_mono; [exact Hm|]. intros w' r Hf. eapply frame_weaken; [exact HP|exact Hf]. Qed.

Lemma ReconcileServiceAccount_frame ns names owner w :
  wp false (ReconcileServiceAccount ns names owner) (λ w' _, frame not_exporter w w') w.
Proof.
  unfold ReconcileServiceAccount. destruct (_ && _); [|by apply wp_frame_ret].
  apply wp_frame_seq.
  { unfold reconcile_ServiceAccount. apply wp_frame_seq.
    - eapply wp_mono; [apply CreateOrUpdate_frame|]. intros w' r [Hf _]. eapply frame_weaken, Hf. by intros k ->.
    - intros w1 _. apply wp_bind, wp_get_world. destruct (w_objects w1 !! _) as [[]|];
        try (by apply wp_lift; [discriminate|]). by apply wp_frame_ret. }
  intros w1 sa. apply wp_frame_seq; [|intros; apply wp_frame_ret].
  eapply wp_frame_weaken; [apply ReconcileServiceAccountTokenSecret_frame|]. by intros k ->.
Qed.

(** A step before the last ones: another object changes. *)
Lemma wp_frame_then {A B} (m : K A) (f : A → K B) (R : world → Prop) w0 w :
  wp false m (λ w' _, frame not_exporter w w') w → frame not_exporter w0 w →
  (∀ w1 a, frame not_exporter w0 w1 → wp false (f a) (λ w' r, frame not_exporter w0 w' ∧ ((∃ b, r = inl b) → R w')) w1) →
  wp false (m ≫= f) (λ w' r, frame not_exporter w0 w' ∧ ((∃ b, r = inl b) → R w')) w.
Proof.
  intros Hm Hf0 Hf. eapply wp_seq; [exact Hm|..].
  - intros w1 a Hf1. apply Hf. by eapply frame_trans.
  - intros w1 e Hf1. split; [by eapply frame_trans|]. by intros [b [=]].
Qed.

Lemma SecurityContextConstraints_frame name desired w :
  wp false (SecurityContextConstraints name desired) (λ w' _, frame not_exporter w w') w.
Proof.
  eapply wp_mono; [apply SecurityContextConstraints_step|]. intros w' r [Hf _]. eapply frame_weaken, Hf.
  intros k Hk Hk'. by rewrite Hk in Hk'.
Qed.

Lemma exporter_network_steady e names owner w :
  wp false (exporter_network_step e names owner) (λ w' _, steady (of_kind KNetworkPolicy) w w') w.
Proof.
  unfold exporter_network_step. destruct (lfs_NetworkPolicy _) as [ruleSet|]; [|apply RemoveNetworkPolicy_steady].
  by apply CreateOrUpdate_steady.
Qed.

Lemma exporter_Reconcile_done e w :
  wp false (exporter_Reconcile Getenv Parse apiServerProfile e (exporter_owner e))
    (λ w' r, frame not_exporter w w' ∧ ((∃ u, r = inl u) → exporter_deployed e w')) w.
Proof.
  assert (∀ kd, kd ≠ KExporter → ∀ k, of_kind kd k → not_exporter k) as Hkd by (by intros kd Hkd k Hk Hk'; apply Hkd; unfold of_kind in Hk; congruence).
  assert (∀ k, access_key k → not_exporter k) as Hacc.
  { unfold access_key. intros k Hk Hk'. rewrite Hk' in Hk. set_solver. }
  unfold exporter_Reconcile. cbn [exporter_names CommonName ServiceAccountName].
  apply wp_frame_then; [apply SecurityContextConstraints_frame|by apply frame_same|]. intros w1 _ Hf1.
  apply wp_frame_then; [apply ReconcileServiceAccount_frame|exact Hf1|]. intros w2 _ Hf2.
  apply wp_frame_then; [by eapply wp_frame_weaken; [apply ReconcileRBAC_frame|]|exact Hf2|]. intros w3 _ Hf3.
  apply wp_frame_then; [by eapply wp_frame_weaken; [apply ClusterRoleBinding_frame|]|exact Hf3|]. intros w4 _ Hf4.
  eapply wp_seq; [apply reconcile_service_done|..].
  2: { intros w5 err [[Hf5 _] _]. split; [|by intros [u [=]]]. eapply frame_trans; [exact Hf4|].
       eapply frame_weaken, Hf5. by refine (Hkd _ _). }
  intros w5 [] [[Hf5 _] Hserved]. specialize (Hserved eq_refl). apply (frame_weaken _ not_exporter) in Hf5; [|by refine (Hkd _ _)].
  eapply wp_seq; [apply exporter_network_steady|..].
  2: { intros w6 err [Hf6 _]. split; [|by intros [u [=]]]. eapply frame_trans; [exact Hf4|]. eapply frame_trans; [exact Hf5|].
       eapply frame_weaken, Hf6. by refine (Hkd _ _). }
  intros w6 [] [Hf6 _]. apply (served_frame _ _ _ _ _ Hf6) in Hserved; [|by intros k ->].
  apply (frame_weaken _ not_exporter) in Hf6; [|by refine (Hkd _ _)].
  pose proof (frame_trans _ _ _ _ (frame_trans _ _ _ _ Hf4 Hf5) Hf6) as Hf. clear Hf1 Hf2 Hf3 Hf4 Hf5 Hf6.
  eapply wp_seq; [apply monitors_done|..].
  2: { intros w7 err [[Hf7 _] _]. split; [|by intros [u [=]]]. eapply frame_trans; [exact Hf|].
       eapply frame_weaken, Hf7. by refine (Hkd _ _). }
  intros w7 [] [[Hf7 _] Hmon]. specialize (Hmon eq_refl). apply (served_frame _ _ _ _ _ Hf7) in Hserved; [|by intros k ->].
  apply (frame_weaken _ not_exporter) in Hf7; [|by refine (Hkd _ _)]. apply (frame_trans _ _ _ _ Hf) in Hf7. clear Hf.
  apply wp_bind, wp_attempt. apply wp_bind, wp_get_world. unfold reconcile_DaemonSet.
  eapply wp_mono; [apply CreateOrUpdate_frame|]. intros w8 r (Hf8 & Hc8 & Hok & _).
  assert (frame not_exporter w w8) as Hf.
  { eapply frame_trans; [exact Hf7|]. eapply frame_weaken, Hf8. by intros k ->. }
  destruct r as [[]|err]; [|by apply wp_throw; split; [exact Hf|intros [u [=]]]].
  apply wp_ret. split; [exact Hf|]. intros _. split; [|split].
  - apply (served_frame _ _ _ _ _ Hf8); [by intros k ->|exact Hserved].
  - destruct Hmon as (Hm1 & Hm2 & Hm3). split_and!; (rewrite Hf8; [|by intros [=]]); assumption.
  - rewrite Hc8. exact (Hok eq_refl).
Qed.

(** ** The controller *)

Definition singleton_exporter (e : LogFileMetricExporter) : Prop :=
  lfme_Name e = SingletonName ∧ lfme_Namespace e = OpenshiftNS.

Lemma exporter_Validate_spec e : exporter_Validate e = None ↔ singleton_exporter e.
Proof.
  unfold exporter_Validate, exporter_validations, validateName, singleton_exporter. cbn [foldr].
  destruct (String.eqb_spec (lfme_Name e) SingletonName), (String.eqb_spec (lfme_Namespace e) OpenshiftNS); cbn; naive_solver.
Qed.

(** The write of a status: it is stored, or nothing changes. *)
Definition status_sent (k : key) (e : LogFileMetricExporter) (status : list Condition) (w w' : world) (r : Z + api_error) : Prop :=
  w_dropCaps w' = w_dropCaps w ∧ frame (λ k', k' = k) w w' ∧
  ((w_objects w' = w_objects w) ∨ w_objects w' !! k = Some (OExporter (lfme_set_Conditions e status))).

Lemma exporter_updateStatus_sent k e status w :
  w_objects w !! k = Some (OExporter e) →
  wp false (exporter_updateStatus k status) (status_sent k e status w) w.
Proof.
  intros Hk. apply wp_bind, wp_attempt, wp_bind, wp_ask.
  assert (∀ w1 err, quiet w w1 → wp false (if Contains (ae_Message err) OptimisticLockErrorMsg then mret 1%Z else throw err)
    (status_sent k e status w) w1) as Herr.
  { intros w1 err Hq. assert (∀ r, status_sent k e status w w1 r) as Hs.
    { intros r. split; [apply Hq|]. split; [by apply frame_same, Hq|]. left. apply Hq. }
    destruct (Contains _ _); [by apply wp_ret|by apply wp_throw]. }
  intros w1 [[]|err] Hq; [|by apply Herr]. apply wp_bind, wp_get_world. rewrite (q_objects _ _ Hq), Hk.
  apply wp_write. intros w2 [Ho2 _ Hc2]. apply wp_ret. split; [by rewrite Hc2, (q_caps _ _ Hq)|]. rewrite Ho2. split.
  - intros k' Hne. rewrite Ho2, lookup_insert_ne, ?(q_objects _ _ Hq); done.
  - right. apply lookup_insert_eq.
Qed.

(** What the condition says of the exporter. *)
Definition ready_of (e : LogFileMetricExporter) : option verdict := view (lfst_Conditions (lfme_Status e)) !! ConditionTypeReady.

Lemma ready_of_set e now c :
  cond_Type c = ConditionTypeReady →
  ready_of (lfme_set_Conditions e (setCondition now (lfst_Conditions (lfme_Status e)) c).1) = Some (verdict_of c).
Proof.
  intros Ht. unfold ready_of. cbn [lfme_set_Conditions lfme_Status lfst_Conditions]. unfold setCondition.
  rewrite SetCondition_view, Ht. apply lookup_insert_eq.
Qed.

Lemma exporter_deployed_frame ns name e w w' :
  frame (λ k', k' = key_of KExporter ns name) w w' → w_dropCaps w' = w_dropCaps w →
  exporter_deployed e w → exporter_deployed e w'.
Proof.
  intros Hf Hc (Hs & (Hm1 & Hm2 & Hm3) & Hd). split; [|split].
  - apply (served_frame _ _ _ _ _ Hf); [by intros k ->|exact Hs].
  - split_and!; (rewrite Hf; [|by intros [=]]); assumption.
  - rewrite Hc. rewrite Hf; [exact Hd|by intros [=]].
Qed.

(** What a run of the controller leaves. *)
Definition exporter_done (k : key) (e : LogFileMetricExporter) (w w' : world) (r : Z + api_error) : Prop :=
  (∃ e', w_objects w' !! k = Some (OExporter e') ∧ lfme_Spec e' = lfme_Spec e ∧
     (e' = e ∨
      (ready_of e' = Some {| v_Status := ConditionTrue; v_Reason := ReasonExporterValid; v_Message := "" |} ∧
       singleton_exporter e ∧ exporter_deployed e w') ∨
      (∃ message, ready_of e' = Some {| v_Status := ConditionFalse; v_Reason := ReasonExporterInvalid; v_Message := message |}))) ∧
  (¬ singleton_exporter e → frame (λ k', k' = k) w w') ∧
  (singleton_exporter e → (∃ s, r = inl s) → exporter_deployed e w') ∧
  frame (λ k', k_Kind k' = KExporter → k' = k) w w'.

(** Nothing was done, and there was an error if anything was to be done. *)
Lemma exporter_done_same k e w w' err :
  w_objects w !! k = Some (OExporter e) → w_objects w' = w_objects w → exporter_done k e w w' (inr err).
Proof.
  intros Hk Ho. split; [exists e; rewrite Ho; by split_and!; [..|left]|].
  split; [intros _; by apply frame_same|]. split; [by intros _ [s [=]]|by apply frame_same].
Qed.

(** After the status: what was there before it stays there. *)
Lemma exporter_done_sent ns name e now c w w1 w2 r r' :
  let k := key_of KExporter ns name in
  let status := (setCondition now (lfst_Conditions (lfme_Status e)) c).1 in
  w_objects w1 !! k = Some (OExporter e) → frame (λ k', k_Kind k' ≠ KExporter) w w1 →
  (¬ singleton_exporter e → w_objects w1 = w_objects w) →
  cond_Type c = ConditionTypeReady →
  (verdict_of c = {| v_Status := ConditionTrue; v_Reason := ReasonExporterValid; v_Message := "" |} ∧
     singleton_exporter e ∧ exporter_deployed e w1 ∨
   ∃ message, verdict_of c = {| v_Status := ConditionFalse; v_Reason := ReasonExporterInvalid; v_Message := message |}) →
  (singleton_exporter e → (∃ s, r' = inl s) → exporter_deployed e w1) →
  status_sent k e status w1 w2 r → exporter_done k e w w2 r'.
Proof.
  intros k status Hk Hf Hsame Ht Hc Hd (Hcaps & Hf2 & Hst). subst status. split; [|split; [|split]].
  - destruct Hst as [Ho|Hst]; [exists e; rewrite Ho; by split_and!; [..|left]|].
    eexists. split; [exact Hst|]. split; [done|]. right. rewrite (ready_of_set e now c Ht).
    destruct Hc as [(-> & Hs & Hdep)|[message ->]]; [left|right; by exists message].
    split_and!; [done..|]. by eapply exporter_deployed_frame.
  - intros Hn. intros k' Hk'. rewrite (Hf2 k' Hk'). by rewrite (Hsame Hn).
  - intros Hs Hr. eapply exporter_deployed_frame; [exact Hf2|exact Hcaps|]. by apply Hd.
  - intros k' Hk'. rewrite Hf2 by (intros ->; by apply Hk'). apply Hf. intros Hne. by apply Hk'.
Qed.

(** A read the server answers. *)
Lemma wp_Get_answered {A} str k (f : object + api_error → K A) o Q w :
  answer (w_clock w) VGet k = None → w_objects w !! k = Some o →
  (∀ w1, quiet w w1 → wp str (f (inl o)) Q w1) → wp str (r ← attempt (Get k); f r) Q w.
Proof.
  intros Ha Ho Hf. apply wp_bind, wp_attempt. unfold wp at 1, Get, ask, get_world, mbind, K_bind.
  cbn [mbind outcome_bind fst snd]. rewrite Ha. cbn [mbind outcome_bind fst snd w_objects]. rewrite Ho. by apply Hf.
Qed.

Lemma exporter_controller_done now ns name w e :
  w_objects w !! key_of KExporter ns name = Some (OExporter e) → lfme_DeletionTimestamp e = None →
  answer (w_clock w) VGet (key_of KExporter ns name) = None →
  wp false (exporter_controller Getenv Parse apiServerProfile now ns name) (exporter_done (key_of KExporter ns name) e w) w.
Proof.
  intros Hk Hdel Ha. unfold exporter_controller. cbv zeta. eapply wp_Get_answered; [exact Ha|exact Hk|]. cbn match.
  intros w1 Hq. pose proof (q_objects _ _ Hq) as Ho1. rewrite Hdel.
  pose proof (exporter_Validate_spec e) as Hval. destruct (exporter_Validate e) as [err|].
  - assert (¬ singleton_exporter e) as Hn by (intros Hs; by apply Hval in Hs).
    eapply wp_mono; [apply (exporter_updateStatus_sent _ e); by rewrite Ho1|]. intros w2 r Hsent.
    eapply (exporter_done_sent _ _ _ _ _ w w1 w2); [by rewrite Ho1|by apply frame_same|done|..|exact Hsent]; [done|by right; eexists|done].
  - assert (singleton_exporter e) as Hs by by apply Hval.
    apply wp_bind, wp_attempt. eapply wp_mono; [apply exporter_Reconcile_done|]. intros w2 re [Hf2 Hdep].
    assert (frame not_exporter w w2) as Hf by (eapply frame_trans; [by apply frame_same|exact Hf2]).
    assert (w_objects w2 !! key_of KExporter ns name = Some (OExporter e)) as Hk2.
    { rewrite Hf; [done|]. intros Hne. by apply Hne. }
    eapply wp_seq; [apply (exporter_updateStatus_sent _ e); exact Hk2|..].
    + intros w3 s3 Hsent. destruct re as [[]|err].
      * apply wp_ret. eapply (exporter_done_sent _ _ _ _ _ w w2 w3); [exact Hk2|exact Hf|by intros []|..|exact Hsent]; [done| |].
        { left. split_and!; [done..|]. apply Hdep. by exists tt. }
        intros _ _. apply Hdep. by exists tt.
      * apply wp_throw. eapply (exporter_done_sent _ _ _ _ _ w w2 w3); [exact Hk2|exact Hf|by intros []|..|exact Hsent];
          [done|by right; eexists|by intros _ [? [=]]].
    + intros w3 e3 Hsent. destruct re as [[]|err].
      * eapply (exporter_done_sent _ _ _ _ _ w w2 w3); [exact Hk2|exact Hf|by intros []|..|exact Hsent]; [done| |by intros _ [? [=]]].
        left. split_and!; [done..|]. apply Hdep. by exists tt.
      * eapply (exporter_done_sent _ _ _ _ _ w w2 w3); [exact Hk2|exact Hf|by intros []|..|exact Hsent];
          [done|by right; eexists|by intros _ [? [=]]].
Qed.

(** ** The controller ends *)

Lemma goes_exporter_Reconcile e owner w :
  well_kinded w → goes (exporter_Reconcile Getenv Parse apiServerProfile e owner) (λ _ _, True) w.
Proof.
  intros Hk. unfold exporter_Reconcile.
  apply goes_seq; [by apply goes_SecurityContextConstraints|]. clear w Hk. intros w _ Hk.
  apply goes_seq; [by apply goes_ReconcileServiceAccount|]. clear w Hk. intros w _ Hk.
  apply goes_seq; [by apply goes_ReconcileRBAC|]. clear w Hk. intros w _ Hk.
  apply goes_seq; [by apply goes_ClusterRoleBinding|]. clear w Hk. intros w _ Hk.
  apply goes_seq; [by apply goes_reconcile_service|]. clear w Hk. intros w _ Hk.
  apply goes_seq.
  { unfold exporter_network_step. destruct (lfs_NetworkPolicy _); [by apply goes_CreateOrUpdate|by apply goes_RemoveNetworkPolicy]. }
  clear w Hk. intros w _ Hk. apply goes_seq.
  { do 2 (apply goes_seq; [by apply goes_ServiceMonitor|]; clear w Hk; intros w _ Hk). by apply goes_ServiceMonitor. }
  clear w Hk. intros w _ Hk. apply goes_attempt.
  eapply wp_mono; [apply goes_get_world; by apply goes_CreateOrUpdate|]. intros w1 [[]|err] (Hk1 & Hs & _); [by apply goes_ret|].
  apply goes_throw; [done|]. intros Hno. by destruct (Hs Hno).
Qed.

(** The status is stored unless the call asks to come back, which it does after a conflict. *)
Lemma goes_updateStatus ns name e status w :
  well_kinded w → w_objects w !! key_of KExporter ns name = Some (OExporter e) →
  goes (exporter_updateStatus (key_of KExporter ns name) status) (λ w' s, never_fails → s = 0%Z ∧
    w_objects w' !! key_of KExporter ns name = Some (OExporter (lfme_set_Conditions e status))) w.
Proof.
  intros Hk He. apply goes_attempt, wp_asked.
  - intros w1 err Hq Hno. pose proof (well_kinded_quiet _ _ Hq Hk). destruct (Contains _ _); [by apply goes_ret|by apply goes_throw].
  - intros w1 Hq. apply wp_bind, wp_get_world. rewrite (q_objects _ _ Hq), He. apply wp_write. intros w2 [Ho _ _].
    apply goes_ret; [by eapply well_kinded_insert; [exact Ho| |]; [|eapply well_kinded_quiet]|]. intros _. split; [done|].
    rewrite Ho. apply lookup_insert_eq.
Qed.

(** What the status says after a run without an error, for a server that answers. *)
Definition exporter_settled (k : key) (e : LogFileMetricExporter) (w' : world) (s : Z) : Prop :=
  s = 0%Z ∧ ∃ e', w_objects w' !! k = Some (OExporter e') ∧
    ((v_Status <$> ready_of e') = Some ConditionTrue ↔ singleton_exporter e).

Lemma goes_exporter_controller now ns name w e :
  w_objects w !! key_of KExporter ns name = Some (OExporter e) → lfme_DeletionTimestamp e = None → well_kinded w →
  goes (exporter_controller Getenv Parse apiServerProfile now ns name)
    (λ w' s, never_fails → exporter_settled (key_of KExporter ns name) e w' s) w.
Proof.
  intros He Hdel Hk. unfold exporter_controller. cbv zeta. set (k := key_of KExporter ns name) in *.
  apply goes_attempt, wp_Get_found; [done|..].
  2: { intros w1 err Hq Hk1 Hn. destruct (negb _) eqn:E; [|by apply goes_ret; [|intros Hno; destruct (Hn Hno) as [_ Hnone]; congruence]].
       apply goes_throw; [done|]. intros Hno. destruct (Hn Hno) as [_ Hnone]. congruence. }
  intros w1 o Hq Hk1 Ho _. assert (o = OExporter e) as -> by congruence. rewrite Hdel.
  pose proof (exporter_Validate_spec e) as Hval. destruct (exporter_Validate e) as [err|].
  - eapply goes_mono; [apply (goes_updateStatus ns name e); [done|by rewrite (q_objects _ _ Hq)]|].
    intros w2 s _ Hs Hno. destruct (Hs Hno) as [-> Hw]. split; [done|]. eexists. split; [exact Hw|].
    rewrite ready_of_set by done. split; [by intros [=]|]. intros Hsing. by apply Hval in Hsing.
  - apply goes_attempt. eapply wp_mono; [eapply goes_and_wp; [by apply goes_exporter_Reconcile|apply exporter_Reconcile_done]|].
    intros w2 re (Hk2 & Hre & [Hf2 _]). apply goes_bind.
    assert (w_objects w2 !! k = Some (OExporter e)) as Hk2'.
    { rewrite Hf2; [by rewrite (q_objects _ _ Hq)|]. intros Hne. by apply Hne. }
    eapply goes_mono; [by apply (goes_updateStatus ns name e)|]. intros w3 s Hk3 Hs _. destruct re as [[]|err].
    + apply goes_ret; [done|]. intros Hno. destruct (Hs Hno) as [-> Hw]. split; [done|]. eexists. split; [exact Hw|].
      rewrite ready_of_set by done. split; [intros _; by apply Hval|done].
    + apply goes_throw; [done|]. intros Hno. by destruct (Hre Hno).
Qed.

(** C11. The controller of the exporter, for one that is stored and not being deleted.  It
    ends.  If the exporter can be read then, whatever the other requests end with, the
    specification that is stored stays, and a status
    that was written says the truth: ready, only for the one name and namespace that are
    allowed and with the service, the monitors and the daemon set in the cluster as they
    are wanted; otherwise not ready.  For another name or namespace nothing but the status
    changes.  A run without error leaves the exporter deployed, and no run changes another
    exporter.  If the server answers every request there is no error, and the status is
    ready exactly for that name and namespace. *)
Theorem exporter_controller_correct now ns name w e :
  w_objects w !! key_of KExporter ns name = Some (OExporter e) → lfme_DeletionTimestamp e = None → well_kinded w →
  ∃ w' r, exporter_controller Getenv Parse apiServerProfile now ns name w = Ret (w', r) ∧
  (answer (w_clock w) VGet (key_of KExporter ns name) = None →
  (∃ e', w_objects w' !! key_of KExporter ns name = Some (OExporter e') ∧ lfme_Spec e' = lfme_Spec e ∧
     (e' = e ∨
      (ready_of e' = Some {| v_Status := ConditionTrue; v_Reason := ReasonExporterValid; v_Message := "" |} ∧
       singleton_exporter e ∧ exporter_deployed e w') ∨
      (∃ message, ready_of e' = Some {| v_Status := ConditionFalse; v_Reason := ReasonExporterInvalid; v_Message := message |}))) ∧
  (¬ singleton_exporter e → frame (λ k, k = key_of KExporter ns name) w w') ∧
  (singleton_exporter e → (∃ s, r = inl s) → exporter_deployed e w') ∧
  frame (λ k, k_Kind k = KExporter → k = key_of KExporter ns name) w w') ∧
  (never_fails → r = inl 0%Z ∧ ∃ e', w_objects w' !! key_of KExporter ns name = Some (OExporter e') ∧
     ((v_Status <$> ready_of e') = Some ConditionTrue ↔ singleton_exporter e)).
Proof.
  intros He Hdel Hk. destruct (goes_ends _ _ _ (goes_exporter_controller now ns name w e He Hdel Hk)) as (w' & r & E & _ & Hs & HQ).
  exists w', r. split; [exact E|]. split.
  - intros Ha. exact (wp_ends false _ _ _ _ _ (exporter_controller_done now ns name w e He Hdel Ha) E).
  - intros Hno. destruct (Hs Hno) as [s ->]. by destruct (HQ s eq_refl Hno) as [-> ?].
Qed.
End reconcile.
