(* ===== verification/ExporterExamples.v ===== *)
(** * An exporter in a small cluster

    The theorems of [MetricExporterSpec] applied to the exporter of a cluster that holds
    nothing else, and what becomes of a conflict. *)

From S2P Require Import Prelude GoStrings ApiCommon ApiInputs ApiForwarder ApiExporter Conditions ObsResources Reconcile VrlText Tls Network.
From S2P Require Import Sources SourcesSpec Config InputServices Workload WorkloadSpec Cluster ReconcileObjects ReconcileObjectsSpec.
From S2P Require Import CollectorObjects CollectorSpec MetricExporter MetricExporterSpec.

#[local] Existing Instances example_openshift example_host.

Definition small_exporter (name : string) : LogFileMetricExporter := {|
  lfme_Name := name; lfme_Namespace := "openshift-logging"; lfme_DeletionTimestamp := None; lfme_UID := "u";
  lfme_Spec := {| lfs_Resources := None; lfs_NodeSelector := ∅; lfs_Tolerations := None; lfs_NetworkPolicy := None |};
  lfme_Status := {| lfst_Conditions := [] |} |}.

Definition exporter_key (name : string) : key := key_of KExporter "openshift-logging" name.

Definition exporter_world (name : string) : world := {|
  w_objects := {[exporter_key name := OExporter (small_exporter name)]}; w_clock := 0; w_log := [];
  w_dropCaps := RequiredDropCapabilities |}.

(** A server that answers every request, and one with which every write of a status conflicts. *)
Definition calm_server : ApiServer := {| answer _ _ _ := None |}.
Definition conflict_server : ApiServer := {| answer _ v k :=
  if bool_decide (v = VUpdate ∧ k_Kind k = KExporter)
  then Some {| ae_Kind := EK_Conflict; ae_Message := "Operation cannot be fulfilled: " +:+ OptimisticLockErrorMsg |} else None |}.

Definition run_exporter (server : ApiServer) (name : string) : outcome (world * (Z + api_error)) :=
  exporter_controller (λ _, "") FromString None 7 "openshift-logging" name (exporter_world name).

Lemma exporter_world_kinds name : well_kinded (exporter_world name).
Proof. intros k o. cbn [exporter_world w_objects]. by intros [<- <-]%lookup_singleton_Some. Qed.

Lemma exporter_controller_correct_witness :
  ∃ w' e', run_exporter calm_server "instance" = Ret (w', inl 0%Z) ∧
    exporter_deployed (λ _, "") FromString None (small_exporter "instance") w' ∧
    w_objects w' !! exporter_key "instance" = Some (OExporter e') ∧ (v_Status <$> ready_of e') = Some ConditionTrue.
Proof.
  destruct (@exporter_controller_correct _ calm_server (λ _, "") FromString None 7 "openshift-logging" "instance"
    (exporter_world "instance") (small_exporter "instance") eq_refl eq_refl (exporter_world_kinds "instance"))
    as (w' & r & E & Hany & Hcalm).
  destruct (Hcalm (λ _ _ _, eq_refl)) as (-> & e' & He' & Hready). destruct (Hany eq_refl) as (_ & _ & Hd & _).
  exists w', e'. split; [exact E|]. split; [apply Hd; [by split|by exists 0%Z]|]. split; [exact He'|].
  apply Hready. by split.
Defined.

(** After a conflict the controller means to come back a second later, but what it returns
    does not say so: the status stays as it was and nothing is asked for. *)
Lemma exporter_conflict_forgotten :
  (λ r, (r.2, w_objects r.1 !! exporter_key "instance")) <$> run_exporter conflict_server "instance" =
    Ret (inl 0%Z, Some (OExporter (small_exporter "instance"))) ∧
  (λ r, r.2) <$> run_exporter conflict_server "other" = Ret (inl 1%Z).
Proof. split; vm_compute; reflexivity. Qed.
