(* ===== verification/Admission.v ===== *)
(** * Protection of the collectors' service accounts ([internal/admission])

    Two admission policies keep others from running pods with the service account of a
    collector.  The accounts and those who may use them are the data of one config map,
    which is made of all forwarders whenever one changes.  The files of
    [internal/admission], [internal/reconcile/admission.go], the list of accounts in
    [internal/runtime/clusterlogforwarder] and the controller; the expressions of the
    policies are read from their files, and the rest of their text is a parameter. *)

From S2P Require Import Prelude GoStrings ApiCommon ApiForwarder Sets Validate Network InputServices Workload Cluster ReconcileObjects.

Definition ProtectedSAConfigMapName : string := "clo-protected-serviceaccounts".
Definition ProtectedSAPodsPolicyName : string := "clo-protected-sa-pods".
Definition ProtectedSAPodsBindingName : string := "clo-protected-sa-pods-binding".
Definition ProtectedSAWorkloadsPolicyName : string := "clo-protected-sa-workloads".
Definition ProtectedSAWorkloadsBindingName : string := "clo-protected-sa-workloads-binding".
Definition protectedSAPodCreatorsKey : string := "podCreators".
Definition protectedSAWorkloadCreatorsKey : string := "workloadCreators".

Definition podControllers : list string :=
  ["system:serviceaccount:kube-system:daemon-set-controller"; "system:serviceaccount:kube-system:replicaset-controller";
   "system:serviceaccount:kube-system:statefulset-controller"; "system:serviceaccount:kube-system:job-controller";
   "system:serviceaccount:kube-system:replication-controller"].

Definition workloadControllers : list string :=
  ["system:serviceaccount:kube-system:deployment-controller"; "system:serviceaccount:kube-system:cronjob-controller"].

Definition podCreatorsValue : string := Join podControllers ",".
Definition workloadCreatorsTemplate : string := Join workloadControllers ",".

(** ** Accounts ([runtime/clusterlogforwarder]) *)

Record ServiceAccountRef := { sar_Namespace : string; sar_Name : string }.

#[export] Instance ServiceAccountRef_eq_dec : EqDecision ServiceAccountRef. Proof. solve_decision. Defined.
#[export] Instance ServiceAccountRef_countable : Countable ServiceAccountRef.
Proof.
  refine (inj_countable' (λ r, (sar_Namespace r, sar_Name r)) (λ p, {| sar_Namespace := p.1; sar_Name := p.2 |}) _).
  by intros [].
Defined.

Definition ServiceAccountRef_String (r : ServiceAccountRef) : string :=
  "sa_" +:+ sar_Namespace r +:+ "_" +:+ sar_Name r.

(** The references of the forwarders, each once. *)
Definition service_account_refs (items : list ClusterLogForwarder) : list ServiceAccountRef :=
  (foldl (λ (st : gset ServiceAccountRef * list ServiceAccountRef) clf,
    let sa := TrimSpace (sa_Name (spec_ServiceAccount (clf_Spec clf))) in
    if sa == "" then st
    else
      let ref := {| sar_Namespace := clf_Namespace clf; sar_Name := sa |} in
      if bool_decide (ref ∈ st.1) then st else ({[ref]} ∪ st.1, st.2 ++ [ref])) (∅, []) items).2.

(** ** The environment of the operator *)

(** The contents of the file with the namespace of the service account, if it can be read. *)
Definition OperatorNamespace (file : option string) (Getenv : string → string) : string :=
  let from_file := match file with
                   | Some data => let ns := TrimSpace data in if ns != "" then Some ns else None
                   | None => None
                   end in
  match from_file with
  | Some ns => ns
  | None =>
      let ns := Getenv "WATCH_NAMESPACE" in
      if ns != "" then default "" (head (Split ns ",")) else "openshift-logging"
  end.

Definition operatorServiceAccountUser (operatorNS : string) : string :=
  ServiceAccountUsername operatorNS ClusterLoggingOperator.

Definition setCreatorKeys (data : gmap string string) (operatorNS : string) : gmap string string :=
  <[protectedSAWorkloadCreatorsKey := operatorServiceAccountUser operatorNS +:+ "," +:+ workloadCreatorsTemplate]>
    (<[protectedSAPodCreatorsKey := podCreatorsValue]> data).

Definition protected_labels : gmap string string :=
  SetCommonLabels ∅ ClusterLogging ProtectedSAConfigMapName "admission".

Definition protected_config_map (items : list ClusterLogForwarder) (operatorNS : string) : ConfigMapObject := {|
  cmo_Namespace := operatorNS; cmo_Name := ProtectedSAConfigMapName; cmo_Labels := protected_labels;
  cmo_Annotations := ∅; cmo_Owners := [];
  cmo_Data := setCreatorKeys (foldl (λ data ref, <[ServiceAccountRef_String ref := ""]> data) ∅
                (service_account_refs items)) operatorNS |}.

(** ** The policies ([protected-sa-*.yaml])

    The expressions over the config map of the parameters, and a request for an object
    that runs with an account.  A policy whose parameters are not there allows. *)
Definition policy_allows (creatorsKey : string) (params : option ConfigMapObject) (namespace : string)
    (serviceAccountName : option string) (username : string) : bool :=
  match params with
  | None => true
  | Some params =>
      let sa := default "default" serviceAccountName in
      let saKey := "sa_" +:+ namespace +:+ "_" +:+ sa in
      let isProtected := bool_decide (is_Some (cmo_Data params !! saKey)) in
      let allowedCreators := match cmo_Data params !! creatorsKey with Some s => Split s "," | None => [] end in
      negb isProtected || bool_decide (username ∈ allowedCreators)
  end.

Definition pods_policy_allows := policy_allows protectedSAPodCreatorsKey.
Definition workloads_policy_allows := policy_allows protectedSAWorkloadCreatorsKey.

Definition protected_binding (policy : string) : AdmissionBindingObject := {|
  adb_Labels := protected_labels; adb_PolicyName := policy; adb_ValidationActions := ["Deny"];
  adb_ParamRef := Some {| prf_Name := ProtectedSAConfigMapName; prf_Namespace := "openshift-logging";
    prf_ParameterNotFoundAction := "Allow" |} |}.

Section admission.
Context `{ApiServer} (podsPolicySpec workloadsPolicySpec : json).
(** The forwarders of the cluster. *)
Context (forwarders : list ClusterLogForwarder).

Definition ListServiceAccounts : K (list ServiceAccountRef) :=
  r ← attempt (ask VList (key_of KForwarder "" ""));
  match r with
  | inr err => throw {| ae_Kind := ae_Kind err; ae_Message := "list ClusterLogForwarders: " +:+ ae_Message err |}
  | inl _ => mret (service_account_refs forwarders)
  end.

Definition SyncProtectedServiceAccounts (operatorNS : string) : K unit :=
  refs ← ListServiceAccounts;
  let data := foldl (λ data ref, <[ServiceAccountRef_String ref := ""]> data) ∅ refs in
  let data := setCreatorKeys data operatorNS in
  r ← attempt (Configmap {| cmo_Namespace := operatorNS; cmo_Name := ProtectedSAConfigMapName;
    cmo_Labels := protected_labels; cmo_Annotations := ∅; cmo_Owners := []; cmo_Data := data |} [CompareLabels]);
  match r with
  | inl _ => mret tt
  | inr err => throw {| ae_Kind := ae_Kind err; ae_Message := "sync protected SA ConfigMap: " +:+ ae_Message err |}
  end.

(** [internal/reconcile/admission.go] *)
Definition ValidatingAdmissionPolicy (name : string) (desired : AdmissionPolicyObject) : K unit :=
  r ← attempt (CreateOrUpdate (key_of KAdmissionPolicy "" name) (λ _, OAdmissionPolicy {|
    adp_Labels := adp_Labels desired; adp_Spec := adp_Spec desired |}));
  match r with
  | inl _ => mret tt
  | inr err => throw {| ae_Kind := ae_Kind err;
      ae_Message := "reconcile ValidatingAdmissionPolicy " +:+ Quote name +:+ ": " +:+ ae_Message err |}
  end.

Definition ValidatingAdmissionPolicyBinding (name : string) (desired : AdmissionBindingObject) : K unit :=
  r ← attempt (CreateOrUpdate (key_of KAdmissionBinding "" name) (λ _, OAdmissionBinding {|
    adb_Labels := adb_Labels desired; adb_PolicyName := adb_PolicyName desired;
    adb_ValidationActions := adb_ValidationActions desired; adb_ParamRef := adb_ParamRef desired |}));
  match r with
  | inl _ => mret tt
  | inr err => throw {| ae_Kind := ae_Kind err;
      ae_Message := "reconcile ValidatingAdmissionPolicyBinding " +:+ Quote name +:+ ": " +:+ ae_Message err |}
  end.

Definition set_param_namespace (b : AdmissionBindingObject) (ns : string) : AdmissionBindingObject := {|
  adb_Labels := adb_Labels b; adb_PolicyName := adb_PolicyName b; adb_ValidationActions := adb_ValidationActions b;
  adb_ParamRef := (λ p, {| prf_Name := prf_Name p; prf_Namespace := ns;
    prf_ParameterNotFoundAction := prf_ParameterNotFoundAction p |}) <$> adb_ParamRef b |}.

Definition reconcile_policy (operatorNS policyName bindingName : string) (spec : json) : K unit :=
  ValidatingAdmissionPolicy policyName {| adp_Labels := protected_labels; adp_Spec := spec |};;
  ValidatingAdmissionPolicyBinding bindingName (set_param_namespace (protected_binding policyName) operatorNS).

Definition ReconcileProtectedSAPolicies (operatorNS : string) : K unit :=
  attempt (SyncProtectedServiceAccounts operatorNS);;
  reconcile_policy operatorNS ProtectedSAPodsPolicyName ProtectedSAPodsBindingName podsPolicySpec;;
  reconcile_policy operatorNS ProtectedSAWorkloadsPolicyName ProtectedSAWorkloadsBindingName workloadsPolicySpec.

(** [protectedSAAdmissionRunnable.Start]: until a success, or until the context is done
    after so many attempts. *)
Fixpoint Start (attempts : nat) (operatorNS : string) : K unit :=
  match attempts with
  | O => mret tt
  | S attempts =>
      r ← attempt (ReconcileProtectedSAPolicies operatorNS);
      match r with inl _ => mret tt | inr _ => Start attempts operatorNS end
  end.

(** The controller of the forwarders' accounts. *)
Definition ProtectedSA_Reconcile (operatorNS : string) : K unit := SyncProtectedServiceAccounts operatorNS.
End admission.
