(* ===== verification/AdmissionSpec.v ===== *)
(** * What the admission policies protect

    The properties of [Admission]: after a synchronization exactly the accounts of the
    forwarders are protected, and who may use them. *)

From S2P Require Import Prelude GoStrings ApiCommon ApiForwarder Sets Validate Network InputServices Workload Cluster ReconcileObjects.
From S2P Require Import WorkloadSpec ReconcileObjectsSpec ClusterProgress CollectorSpec Admission.

(** The account of a forwarder. *)
Definition uses_account (clf : ClusterLogForwarder) (ns sa : string) : Prop :=
  clf_Namespace clf = ns ∧ TrimSpace (sa_Name (spec_ServiceAccount (clf_Spec clf))) = sa ∧ sa ≠ "".

Lemma service_account_refs_elem items ns sa :
  {| sar_Namespace := ns; sar_Name := sa |} ∈ service_account_refs items ↔ ∃ clf, clf ∈ items ∧ uses_account clf ns sa.
Proof.
  unfold service_account_refs. set (step := λ st clf, _).
  enough (∀ items st, (∀ r, r ∈ st.1 ↔ r ∈ st.2) → ∀ r, r ∈ (foldl step st items).2 ↔
    r ∈ st.2 ∨ ∃ clf, clf ∈ items ∧ uses_account clf (sar_Namespace r) (sar_Name r)) as Hl.
  { rewrite (Hl items (∅, [])) by (intros r; cbn; set_solver). cbn. rewrite elem_of_nil. naive_solver. }
  clear. induction items as [|clf items IH]; intros st Hst r; cbn [foldl].
  { split; [by left|]. intros [?|(clf & ?%not_elem_of_nil & _)]; done. }
  assert (∀ r, r ∈ (step st clf).1 ↔ r ∈ (step st clf).2) as Hst'.
  { intros r'. subst step. cbn beta zeta. destruct (_ == ""); [apply Hst|]. case_bool_decide; [apply Hst|].
    cbn [fst snd]. rewrite elem_of_union, elem_of_singleton, elem_of_app, list_elem_of_singleton, Hst. tauto. }
  rewrite (IH _ Hst'). setoid_rewrite elem_of_cons.
  enough (r ∈ (step st clf).2 ↔ r ∈ st.2 ∨ uses_account clf (sar_Namespace r) (sar_Name r)) as ->.
  { split; [intros [[?|?]|(c & ? & ?)]; eauto 6|]. intros [?|(c & [->|?] & ?)]; eauto. }
  subst step. cbn beta zeta. unfold uses_account. destruct r as [ns sa]. cbn [sar_Namespace sar_Name].
  destruct (String.eqb_spec (TrimSpace (sa_Name (spec_ServiceAccount (clf_Spec clf)))) "") as [E|Hne].
  { rewrite E. naive_solver. }
  case_bool_decide as Hin; cbn [snd].
  - split; [by left|]. intros [?|(<- & <- & _)]; [done|]. by apply Hst.
  - rewrite elem_of_app, list_elem_of_singleton. naive_solver.
Qed.

(** Keys tell accounts apart. *)
Lemma ServiceAccountRef_String_inj r r' :
  in_string "_" (sar_Namespace r) = false → in_string "_" (sar_Namespace r') = false →
  ServiceAccountRef_String r = ServiceAccountRef_String r' → r = r'.
Proof.
  destruct r as [ns sa], r' as [ns' sa']. unfold ServiceAccountRef_String. cbn [sar_Namespace sar_Name].
  intros Hns Hns' E%string_app_inj_l. by apply (sep_inj "_" ns ns' sa sa') in E as [-> ->].
Qed.

Lemma ref_keys refs (data : gmap string string) k :
  is_Some (foldl (λ data ref, <[ServiceAccountRef_String ref := ""]> data) data refs !! k) ↔
  is_Some (data !! k) ∨ ∃ ref, ref ∈ refs ∧ k = ServiceAccountRef_String ref.
Proof.
  induction refs as [|ref refs IH] in data |- *; cbn [foldl].
  { split; [by left|]. intros [?|(? & ?%not_elem_of_nil & _)]; done. }
  rewrite IH, lookup_insert_is_Some. setoid_rewrite elem_of_cons.
  destruct (decide (ServiceAccountRef_String ref = k)); naive_solver.
Qed.

Definition clean_namespace (ns : string) : Prop := in_string "_" ns = false.

(** An account is a key of the data exactly if it is one of a forwarder. *)
Lemma protected_keys items operatorNS ns sa :
  clean_namespace ns → (∀ clf, clf ∈ items → clean_namespace (clf_Namespace clf)) →
  is_Some (cmo_Data (protected_config_map items operatorNS) !! ("sa_" +:+ ns +:+ "_" +:+ sa)) ↔
  ∃ clf, clf ∈ items ∧ uses_account clf ns sa.
Proof.
  intros Hns Hitems. cbn [protected_config_map cmo_Data]. unfold setCreatorKeys.
  rewrite !lookup_insert_ne by discriminate. rewrite ref_keys, lookup_empty, <-service_account_refs_elem.
  split; [|intros Hr; right; eexists; split; [exact Hr|done]]. intros [[? [=]]|([ns' sa'] & Hr & E)].
  change ("sa_" +:+ ns +:+ "_" +:+ sa) with (ServiceAccountRef_String {| sar_Namespace := ns; sar_Name := sa |}) in E.
  apply ServiceAccountRef_String_inj in E; [by rewrite E|exact Hns|].
  apply service_account_refs_elem in Hr as (clf & Hclf & <- & _). by apply Hitems.
Qed.

Lemma creators_split operatorNS l :
  (∀ s, s ∈ l → in_string "," s = false) → in_string "," operatorNS = false → l ≠ [] →
  Split (operatorServiceAccountUser operatorNS +:+ "," +:+ Join l ",") "," = operatorServiceAccountUser operatorNS :: l.
Proof.
  intros Hl Hns Hne. rewrite <-(Join_cons _ _ _ Hne). apply Split_Join; [done|].
  intros s [->|Hs]%elem_of_cons; [|by apply Hl]. unfold operatorServiceAccountUser, ServiceAccountUsername.
  by rewrite !in_string_app, Hns.
Qed.

Lemma workload_creators operatorNS items :
  in_string "," operatorNS = false →
  (λ s, Split s ",") <$> cmo_Data (protected_config_map items operatorNS) !! protectedSAWorkloadCreatorsKey =
  Some (operatorServiceAccountUser operatorNS :: workloadControllers).
Proof.
  intros Hns. cbn [protected_config_map cmo_Data]. unfold setCreatorKeys. rewrite lookup_insert_eq.
  apply (f_equal Some). apply creators_split; [|done|done]. intros s Hs.
  assert (Forall (λ s, in_string "," s = false) workloadControllers) as Hf by (by repeat constructor).
  rewrite Forall_forall in Hf. by apply Hf.
Qed.

Lemma pod_creators operatorNS items :
  (λ s, Split s ",") <$> cmo_Data (protected_config_map items operatorNS) !! protectedSAPodCreatorsKey = Some podControllers.
Proof.
  cbn [protected_config_map cmo_Data]. unfold setCreatorKeys. rewrite lookup_insert_ne by done. rewrite lookup_insert_eq.
  vm_compute. reflexivity.
Qed.

(** What the policies say with the data of the forwarders. *)
Definition protects (items : list ClusterLogForwarder) (operatorNS : string) (params : option ConfigMapObject) : Prop :=
  ∀ ns sa user, clean_namespace ns →
    let owned := ∃ clf, clf ∈ items ∧ uses_account clf ns (default "default" sa) in
    (pods_policy_allows params ns sa user = true ↔ ¬ owned ∨ user ∈ podControllers) ∧
    (workloads_policy_allows params ns sa user = true ↔
       ¬ owned ∨ user = operatorServiceAccountUser operatorNS ∨ user ∈ workloadControllers).

Lemma policy_allows_spec key l cm (items : list ClusterLogForwarder) ns sa user :
  (λ s, Split s ",") <$> cmo_Data cm !! key = Some l →
  (is_Some (cmo_Data cm !! ("sa_" +:+ ns +:+ "_" +:+ default "default" sa)) ↔
     ∃ clf, clf ∈ items ∧ uses_account clf ns (default "default" sa)) →
  policy_allows key (Some cm) ns sa user = true ↔
    ¬ (∃ clf, clf ∈ items ∧ uses_account clf ns (default "default" sa)) ∨ user ∈ l.
Proof.
  intros Hl Hk. unfold policy_allows. rewrite <-Hk, orb_true_iff, negb_true_iff, bool_decide_eq_false, bool_decide_eq_true.
  destruct (cmo_Data cm !! key); [|discriminate]. cbn in Hl. by injection Hl as ->.
Qed.

Lemma config_map_protects items operatorNS cm :
  in_string "," operatorNS = false → (∀ clf, clf ∈ items → clean_namespace (clf_Namespace clf)) →
  cmo_Data cm = cmo_Data (protected_config_map items operatorNS) → protects items operatorNS (Some cm).
Proof.
  intros Hcomma Hitems Hdata ns sa user Hns. cbv zeta. unfold pods_policy_allows, workloads_policy_allows.
  rewrite !(policy_allows_spec _ _ cm items) by
    (rewrite Hdata; first [apply pod_creators | by apply workload_creators | by apply protected_keys]).
  rewrite elem_of_cons. tauto.
Qed.

Section sync.
Context `{ApiServer} (forwarders : list ClusterLogForwarder).

Definition sync_done (operatorNS : string) (w w' : world) (r : unit + api_error) : Prop :=
  let k := key_of KConfigMap operatorNS ProtectedSAConfigMapName in
  frame (λ k', k' = k) w w' ∧
  (r = inl tt → ∃ cm, w_objects w' !! k = Some (OConfigMap cm) ∧ protects forwarders operatorNS (Some cm)) ∧
  (∀ e, r = inr e → w_objects w' = w_objects w).

Lemma wp_SyncProtectedServiceAccounts operatorNS w :
  in_string "," operatorNS = false → (∀ clf, clf ∈ forwarders → clean_namespace (clf_Namespace clf)) →
  wp false (SyncProtectedServiceAccounts forwarders operatorNS) (sync_done operatorNS w) w.
Proof.
  intros Hcomma Hclean. apply wp_bind, wp_bind, wp_attempt, wp_ask. intros w1 [[]|err] Hq.
  2: { apply wp_throw. split; [by apply frame_same, Hq|]. split; [done|]. intros ? _. apply Hq. }
  apply wp_ret, wp_bind, wp_attempt. eapply wp_mono; [by apply wp_Configmap|].
  intros w2 r2 ([Ho2 _] & Herr & Hok & _).
  assert (frame (λ k', k' = key_of KConfigMap operatorNS ProtectedSAConfigMapName) w w2) as Hf.
  { intros k Hk. rewrite (Ho2 k Hk). by rewrite (q_objects _ _ Hq). }
  destruct r2 as [[]|err].
  - apply wp_ret. split; [exact Hf|]. split; [|done]. intros _. destruct (Hok eq_refl) as (cm & Hcm & Hdata & _).
    exists cm. split; [exact Hcm|]. by apply config_map_protects.
  - apply wp_throw. split; [exact Hf|]. split; [done|]. intros ? _. rewrite (Herr err eq_refl). apply Hq.
Qed.

Lemma goes_SyncProtectedServiceAccounts operatorNS w :
  well_kinded w → goes (SyncProtectedServiceAccounts forwarders operatorNS) (λ _ _, True) w.
Proof.
  intros Hk. apply goes_seq.
  - apply goes_attempt. unfold wp. destruct (ask_cases VList (key_of KForwarder "" "") w) as (w1 & Hq & [E|(e & E & Hn)]); rewrite E.
    + apply goes_ret; [by eapply well_kinded_quiet|done].
    + apply goes_throw; [by eapply well_kinded_quiet|done].
  - clear w Hk. intros w refs Hk. apply goes_attempt. eapply wp_mono; [by apply goes_Configmap|].
    intros w1 [[]|err] (Hk1 & Hs & _); [by apply goes_ret|]. apply goes_throw; [done|]. intros Hno. by destruct (Hs Hno).
Qed.

(** ** The policies are in force *)

Context (podsPolicySpec workloadsPolicySpec : json).

(** A policy and its binding, whose parameters are the config map of the operator. *)
Definition in_force (operatorNS policy binding : string) (spec : json) (w : world) : Prop :=
  w_objects w !! key_of KAdmissionPolicy "" policy =
    Some (OAdmissionPolicy {| adp_Labels := protected_labels; adp_Spec := spec |}) ∧
  ∃ b, w_objects w !! key_of KAdmissionBinding "" binding = Some (OAdmissionBinding b) ∧
    adb_PolicyName b = policy ∧ adb_ValidationActions b = ["Deny"] ∧
    adb_ParamRef b = Some {| prf_Name := ProtectedSAConfigMapName; prf_Namespace := operatorNS;
                             prf_ParameterNotFoundAction := "Allow" |}.

Lemma in_force_frame P operatorNS policy binding spec w w' :
  frame P w w' → ¬ P (key_of KAdmissionPolicy "" policy) → ¬ P (key_of KAdmissionBinding "" binding) →
  in_force operatorNS policy binding spec w → in_force operatorNS policy binding spec w'.
Proof. intros Hf H1 H2 (Hp & b & Hb & Hd). split; [by rewrite Hf|]. exists b. by rewrite Hf. Qed.

Lemma reconcile_policy_done operatorNS policy binding spec w :
  wp false (reconcile_policy operatorNS policy binding spec) (λ w' r,
    frame (λ k, k ∈ [key_of KAdmissionPolicy "" policy; key_of KAdmissionBinding "" binding]) w w' ∧
    (r = inl tt → in_force operatorNS policy binding spec w')) w.
Proof.
  assert (∀ k, k = key_of KAdmissionPolicy "" policy → k ∈ [key_of KAdmissionPolicy "" policy; key_of KAdmissionBinding "" binding])
    as Hp by (intros k ->; by left).
  assert (∀ k, k = key_of KAdmissionBinding "" binding → k ∈ [key_of KAdmissionPolicy "" policy; key_of KAdmissionBinding "" binding])
    as Hb by (intros k ->; by right; left).
  apply wp_bind, wp_bind, wp_attempt. eapply wp_mono; [apply CreateOrUpdate_frame|].
  intros w1 r1 (Hf1 & _ & Hok1 & _). apply (frame_weaken _ _ _ _ Hp) in Hf1.
  destruct r1 as [[]|err]; [|by apply wp_throw]. apply wp_ret, wp_bind, wp_attempt.
  eapply wp_mono; [apply CreateOrUpdate_frame|]. intros w2 r2 (Hf2 & _ & Hok2 & _).
  assert (w_objects w2 !! key_of KAdmissionPolicy "" policy = w_objects w1 !! key_of KAdmissionPolicy "" policy) as Hk.
  { apply Hf2. by intros [=]. }
  apply (frame_weaken _ _ _ _ Hb) in Hf2. pose proof (frame_trans _ _ _ _ Hf1 Hf2) as Hf.
  destruct r2 as [[]|err]; [|by apply wp_throw]. apply wp_ret. split; [exact Hf|]. intros _. split.
  - rewrite Hk. by apply Hok1.
  - eexists. split; [by apply Hok2|]. by split_and!.
Qed.

Lemma goes_reconcile_policy operatorNS policy binding spec w :
  well_kinded w → goes (reconcile_policy operatorNS policy binding spec) (λ _ _, True) w.
Proof.
  intros Hk. apply goes_seq; [|clear w Hk; intros w _ Hk]; apply goes_attempt;
    (eapply wp_mono; [by apply goes_CreateOrUpdate|]); intros w1 [[]|err] (Hk1 & Hs & _); try (by apply goes_ret);
    (apply goes_throw; [done|]); intros Hno; by destruct (Hs Hno).
Qed.

(** The protection is in place: the data, both policies and their bindings. *)
Definition protection (operatorNS : string) (w : world) : Prop :=
  in_force operatorNS ProtectedSAPodsPolicyName ProtectedSAPodsBindingName podsPolicySpec w ∧
  in_force operatorNS ProtectedSAWorkloadsPolicyName ProtectedSAWorkloadsBindingName workloadsPolicySpec w.

Lemma ReconcileProtectedSAPolicies_done operatorNS w :
  well_kinded w → in_string "," operatorNS = false → (∀ clf, clf ∈ forwarders → clean_namespace (clf_Namespace clf)) →
  wp true (ReconcileProtectedSAPolicies podsPolicySpec workloadsPolicySpec forwarders operatorNS) (λ w' r,
    (r = inl tt → protection operatorNS w') ∧
    (never_fails → r = inl tt ∧ ∃ cm, w_objects w' !! key_of KConfigMap operatorNS ProtectedSAConfigMapName = Some (OConfigMap cm) ∧
       protects forwarders operatorNS (Some cm))) w.
Proof.
  intros Hk Hcomma Hclean. set (k := key_of KConfigMap operatorNS ProtectedSAConfigMapName).
  apply wp_bind, wp_attempt. eapply wp_mono.
  { eapply goes_and_wp; [by apply goes_SyncProtectedServiceAccounts|by apply wp_SyncProtectedServiceAccounts]. }
  intros w1 r1 (Hk1 & Hs1 & _ & Hcm & _). apply wp_bind. eapply wp_mono.
  { eapply goes_and_wp; [by apply goes_reconcile_policy|by apply reconcile_policy_done]. }
  intros w2 [[]|e] (Hk2 & Hs2 & Hf2 & Hpods).
  2: { split; [by intros [=]|]. intros Hno. by destruct (Hs2 Hno). }
  specialize (Hpods eq_refl). eapply wp_mono.
  { eapply goes_and_wp; [by apply goes_reconcile_policy|by apply reconcile_policy_done]. }
  intros w3 r (_ & Hs3 & Hf3 & Hok). split.
  - intros Hr. split; [|by apply Hok]. eapply in_force_frame; [exact Hf3|..|exact Hpods];
      intros [E|[E|E%not_elem_of_nil]%elem_of_cons]%elem_of_cons; by first [discriminate E|done].
  - intros Hno. split; [by destruct (Hs3 Hno) as [[] ->]|]. destruct (Hs1 Hno) as [[] ->]. destruct (Hcm eq_refl) as (cm & Hcm' & Hp).
    exists cm. split; [|exact Hp]. rewrite Hf3, Hf2; [exact Hcm'|..];
      intros [E|[E|E%not_elem_of_nil]%elem_of_cons]%elem_of_cons; by first [discriminate E|done].
Qed.

(** C12. The protection of the collectors' accounts, for names as the cluster has them
    (namespaces without underscores, that of the operator without a comma).  A
    synchronization ends; it changes no object but the config map of the parameters, and
    nothing if it fails.  After one that succeeds the policies refuse a request exactly if
    it runs with the account of some forwarder of the namespace and does not come from
    those who make pods or workloads for the operator.  In particular the account of a
    forwarder that is gone is free again, and the two lists of creators are never taken
    for accounts.  The reconciliation at the start ends as well; after a success both
    policies and their bindings deny with the parameters of the operator's namespace; and
    on a server that answers every request it succeeds, with the accounts in place. *)
Theorem SyncProtectedServiceAccounts_correct operatorNS w :
  well_kinded w → in_string "," operatorNS = false → (∀ clf, clf ∈ forwarders → clean_namespace (clf_Namespace clf)) →
  let k := key_of KConfigMap operatorNS ProtectedSAConfigMapName in
  let secured w' := ∃ cm, w_objects w' !! k = Some (OConfigMap cm) ∧ protects forwarders operatorNS (Some cm) in
  (∃ w' r, SyncProtectedServiceAccounts forwarders operatorNS w = Ret (w', r) ∧
     frame (λ k', k' = k) w w' ∧ (r = inl tt → secured w') ∧ (∀ e, r = inr e → w_objects w' = w_objects w) ∧
     (never_fails → r = inl tt)) ∧
  (∃ w' r, ReconcileProtectedSAPolicies podsPolicySpec workloadsPolicySpec forwarders operatorNS w = Ret (w', r) ∧
     (r = inl tt → protection operatorNS w') ∧ (never_fails → r = inl tt ∧ secured w')).
Proof.
  intros Hk Hcomma Hclean. split.
  - destruct (goes_ends _ _ _ (goes_SyncProtectedServiceAccounts operatorNS w Hk)) as (w' & r & E & _ & Hs & _).
    destruct (wp_ends false _ _ _ _ _ (wp_SyncProtectedServiceAccounts operatorNS w Hcomma Hclean) E) as (Hf & Hok & He).
    exists w', r. split_and!; [exact E|exact Hf|exact Hok|exact He|]. intros Hno. by destruct (Hs Hno) as [[] ->].
  - apply wp_total. by apply ReconcileProtectedSAPolicies_done.
Qed.
End sync.

(** ** An example *)

Definition answering_server : ApiServer := {| answer _ _ _ := None |}.
Definition empty_world : world := {| w_objects := ∅; w_clock := 0; w_log := []; w_dropCaps := [] |}.

Lemma empty_world_kinds : well_kinded empty_world.
Proof. intros k o Hk. cbn [empty_world w_objects] in Hk. by apply lookup_empty_Some in Hk. Qed.

Lemma SyncProtectedServiceAccounts_correct_witness :
  ∃ w' cm, @ReconcileProtectedSAPolicies answering_server JNull JNull [example_clf] "openshift-logging" empty_world = Ret (w', inl tt) ∧
    w_objects w' !! key_of KConfigMap "openshift-logging" ProtectedSAConfigMapName = Some (OConfigMap cm) ∧
    pods_policy_allows (Some cm) "logs" (Some "logger") "system:serviceaccount:kube-system:daemon-set-controller" = true ∧
    pods_policy_allows (Some cm) "logs" None "someone" = true ∧
    workloads_policy_allows (Some cm) "logs" (Some "logger")
      "system:serviceaccount:openshift-logging:cluster-logging-operator" = true.
Proof.
  destruct (@SyncProtectedServiceAccounts_correct answering_server [example_clf] JNull JNull "openshift-logging" empty_world)
    as (_ & w' & r & E & _ & Hcalm).
  - exact empty_world_kinds.
  - reflexivity.
  - intros clf ->%list_elem_of_singleton. reflexivity.
  - destruct (Hcalm (λ _ _ _, eq_refl)) as (-> & cm & Hcm & Hp). exists w', cm. split; [exact E|]. split; [exact Hcm|].
    assert (clean_namespace "logs") as Hns by reflexivity. split_and!.
    + apply Hp; [exact Hns|]. right. by left.
    + apply Hp; [exact Hns|]. left. intros (clf & ->%list_elem_of_singleton & _ & Hsa & _). vm_compute in Hsa. discriminate Hsa.
    + apply Hp; [exact Hns|]. right. by left.
Defined.
