(* ===== verification/Telemetry.v ===== *)
(** * Telemetry ([internal/metrics/telemetry])

    The metrics the operator gives of its resources, as the list of those that are sent
    down the channel, and what makes the registry accept them: no two have the same
    description and labels. *)

From S2P Require Import Prelude GoStrings ApiCommon ApiInputs ApiFilters ApiOutputs ApiForwarder ApiExporter Network Sources Config WorkloadSpec Cluster.

Inductive metric_desc :=
  | logFileMetricExporterInfoDesc | forwarderPipelinesDesc | forwarderInputTypeDesc | forwarderOutputTypeDesc
  | forwarderReadyDesc.

#[export] Instance metric_desc_eq_dec : EqDecision metric_desc. Proof. solve_decision. Defined.

(** [prometheus.MustNewConstMetric] of a gauge. *)
Record metric := { m_Desc : metric_desc; m_Value : Z; m_Labels : list string }.

Definition boolYes : string := "1".
Definition boolNo : string := "0".
Definition boolLabel (value : bool) : string := if value then boolYes else boolNo.

Definition hasReadyCondition (conditions : list Condition) : bool :=
  existsb (λ c, (cond_Type c == ConditionTypeReady) && (cond_Status c == ConditionTrue)) conditions.

Fixpoint readyConditionStatus (conditions : list Condition) : string :=
  match conditions with
  | [] => ConditionUnknown
  | c :: conditions => if cond_Type c == ConditionTypeReady then cond_Status c else readyConditionStatus conditions
  end.

(** A count of a map, one more. *)
Definition count_one (counts : gmap string Z) (k : string) : gmap string Z :=
  <[k := (default 0 (counts !! k) + 1)%Z]> counts.

Section telemetry.
Context `{RangeOrder} (version : string).

Definition inputTypes (spec : ClusterLogForwarderSpec) : gmap string Z :=
  let of_inputs := foldl (λ counts i, count_one counts (in_Type i)) ∅ (spec_Inputs spec) in
  foldl (λ counts p, foldl (λ counts ir,
    if (ir == InputTypeApplication) || (ir == InputTypeInfrastructure) || (ir == InputTypeAudit)
    then count_one counts ir else counts) counts (pipe_InputRefs p)) of_inputs (spec_Pipelines spec).

Definition outputTypes (spec : ClusterLogForwarderSpec) : gmap string Z :=
  foldl (λ counts o, count_one counts (out_Type o)) ∅ (spec_Outputs spec).

Definition forwarder_metrics (clf : ClusterLogForwarder) : list metric :=
  let ns := clf_Namespace clf in
  let name := clf_Name clf in
  let spec := clf_Spec clf in
  [{| m_Desc := forwarderPipelinesDesc; m_Value := Z.of_nat (length (spec_Pipelines spec));
      m_Labels := [version; ns; name] |}]
  ++ ((λ kc : string * Z, {| m_Desc := forwarderInputTypeDesc; m_Value := kc.2; m_Labels := [version; ns; name; kc.1] |})
      <$> range (inputTypes spec))
  ++ ((λ kc : string * Z, {| m_Desc := forwarderOutputTypeDesc; m_Value := kc.2; m_Labels := [version; ns; name; kc.1] |})
      <$> range (outputTypes spec))
  ++ (let readyStatus := readyConditionStatus (st_Conditions (clf_Status clf)) in
      (λ s, {| m_Desc := forwarderReadyDesc; m_Value := if s == readyStatus then 1%Z else 0%Z; m_Labels := [ns; name; s] |})
      <$> [ConditionTrue; ConditionFalse; ConditionUnknown]).

(** The answer of the list request, or an error, which is logged. *)
Definition collectForwarder (items : option (list ClusterLogForwarder)) : list metric :=
  match items with None => [] | Some items => items ≫= forwarder_metrics end.

Definition collectLogFileMetricExporter (items : option (list LogFileMetricExporter)) : list metric :=
  match items with
  | None => []
  | Some items =>
      let '(deployed, healthy) := foldl (λ r lfme,
        if (lfme_Namespace lfme != OpenshiftNS) || (lfme_Name lfme != SingletonName) then r
        else (true, hasReadyCondition (lfst_Conditions (lfme_Status lfme)))) (false, false) items in
      [{| m_Desc := logFileMetricExporterInfoDesc; m_Value := 1; m_Labels := [version; boolLabel deployed; boolLabel healthy] |}]
  end.

Definition Collect (forwarders : option (list ClusterLogForwarder)) (exporters : option (list LogFileMetricExporter)) :
    list metric :=
  collectForwarder forwarders ++ collectLogFileMetricExporter exporters.
End telemetry.

(** ** Counts *)

Lemma count_one_spec counts k t : default 0%Z (count_one counts k !! t) = (default 0 (counts !! t) + if decide (k = t) then 1 else 0)%Z.
Proof.
  unfold count_one. destruct (decide (k = t)) as [->|Hne]; [by rewrite lookup_insert_eq|].
  rewrite lookup_insert_ne by done. lia.
Qed.

(** Every count is positive. *)
Definition counted (counts : gmap string Z) : Prop := ∀ k n, counts !! k = Some n → (0 < n)%Z.

Lemma count_one_counted counts k : counted counts → counted (count_one counts k).
Proof.
  intros Hc t n. unfold count_one. rewrite lookup_insert_Some. intros [[<- <-]|[_ Hn]]; [|by apply (Hc t)].
  destruct (counts !! k) eqn:E; cbn; [apply Hc in E; lia|lia].
Qed.

(** The times an element occurs. *)
Definition occurrences (t : string) (l : list string) : Z := Z.of_nat (length (filter (λ k, k = t) l)).

Lemma counts_spec {A} (f : A → string) l counts t :
  counted counts →
  counted (foldl (λ counts a, count_one counts (f a)) counts l) ∧
  default 0%Z (foldl (λ counts a, count_one counts (f a)) counts l !! t) =
    (default 0 (counts !! t) + occurrences t (f <$> l))%Z.
Proof.
  induction l as [|a l IH] in counts |- *; intros Hc; cbn [foldl fmap list_fmap]; [unfold occurrences; cbn; split; [done|lia]|].
  destruct (IH (count_one counts (f a)) (count_one_counted _ _ Hc)) as [Hc' E]. split; [exact Hc'|].
  rewrite E, count_one_spec. unfold occurrences. rewrite filter_cons. destruct (decide (f a = t)); cbn [length]; lia.
Qed.

Lemma counted_lookup counts t n : counted counts → counts !! t = Some n ↔ n = default 0%Z (counts !! t) ∧ (0 < n)%Z.
Proof.
  intros Hc. split.
  - intros E. rewrite E. split; [done|]. by apply (Hc t).
  - intros [-> Hn]. by destruct (counts !! t); [|cbn in Hn; lia].
Qed.

(** The reserved names among the references of the pipelines. *)
Definition reserved_refs (spec : ClusterLogForwarderSpec) : list string :=
  filter (λ ir, (ir == InputTypeApplication) || (ir == InputTypeInfrastructure) || (ir == InputTypeAudit) = true)
    (spec_Pipelines spec ≫= pipe_InputRefs).

Lemma reserved_fold counts l :
  foldl (λ counts ir, if (ir == InputTypeApplication) || (ir == InputTypeInfrastructure) || (ir == InputTypeAudit)
    then count_one counts ir else counts) counts l =
  foldl count_one counts (filter (λ ir, (ir == InputTypeApplication) || (ir == InputTypeInfrastructure) || (ir == InputTypeAudit) = true) l).
Proof.
  induction l as [|ir l IH] in counts |- *; cbn [foldl]; [done|]. rewrite filter_cons, IH.
  destruct (_ || _); [by rewrite decide_True|by rewrite decide_False].
Qed.

Lemma inputTypes_fold spec :
  inputTypes spec = foldl count_one (foldl (λ counts i, count_one counts (in_Type i)) ∅ (spec_Inputs spec)) (reserved_refs spec).
Proof.
  unfold inputTypes, reserved_refs. generalize (foldl (λ counts i, count_one counts (in_Type i)) ∅ (spec_Inputs spec)) as counts.
  induction (spec_Pipelines spec) as [|p l IH]; intros counts; cbn [foldl mbind list_bind]; [done|].
  rewrite IH, reserved_fold, filter_app, foldl_app. done.
Qed.

Lemma inputTypes_spec spec t n :
  inputTypes spec !! t = Some n ↔
  n = (occurrences t (in_Type <$> spec_Inputs spec) + occurrences t (reserved_refs spec))%Z ∧ (0 < n)%Z.
Proof.
  destruct (counts_spec in_Type (spec_Inputs spec) ∅ t) as [Hc E]; [by intros k m; rewrite lookup_empty|].
  destruct (counts_spec (λ s, s) (reserved_refs spec) _ t Hc) as [Hc' E'].
  rewrite inputTypes_fold, (counted_lookup _ _ _ Hc'), E', E, lookup_empty, list_fmap_id. done.
Qed.

Lemma outputTypes_spec spec t n :
  outputTypes spec !! t = Some n ↔ n = occurrences t (out_Type <$> spec_Outputs spec) ∧ (0 < n)%Z.
Proof.
  destruct (counts_spec out_Type (spec_Outputs spec) ∅ t) as [Hc E]; [by intros k m; rewrite lookup_empty|].
  unfold outputTypes. rewrite (counted_lookup _ _ _ Hc), E, lookup_empty. done.
Qed.

(** ** The metrics of one forwarder *)

Section metrics.
Context `{RangeOrder} (version : string).

Definition identity (m : metric) : metric_desc * list string := (m_Desc m, m_Labels m).

Definition is_forwarder (ns name : string) (m : metric) : Prop :=
  match m_Desc m with
  | logFileMetricExporterInfoDesc => False
  | forwarderReadyDesc => ∃ s, m_Labels m = [ns; name; s]
  | forwarderPipelinesDesc => m_Labels m = [version; ns; name]
  | _ => ∃ t, m_Labels m = [version; ns; name; t]
  end.

Lemma forwarder_metrics_of clf m : m ∈ forwarder_metrics version clf → is_forwarder (clf_Namespace clf) (clf_Name clf) m.
Proof.
  unfold forwarder_metrics. rewrite !elem_of_app, list_elem_of_singleton, !list_elem_of_fmap.
  intros [->|[([t n] & -> & _)|[([t n] & -> & _)|(s & -> & _)]]]; cbn; [done|by eexists..].
Qed.

Lemma is_forwarder_inj ns name ns' name' m m' :
  is_forwarder ns name m → is_forwarder ns' name' m' → identity m = identity m' → (ns, name) = (ns', name').
Proof.
  unfold is_forwarder, identity. intros Hm Hm' E. destruct m as [d v l], m' as [d' v' l']. cbn [m_Desc m_Labels] in *.
  injection E as <- <-. destruct d; [done|..].
  - rewrite Hm in Hm'. by injection Hm' as -> ->.
  - destruct Hm as [t ->], Hm' as [t' [=]]. by subst.
  - destruct Hm as [t ->], Hm' as [t' [=]]. by subst.
  - destruct Hm as [t ->], Hm' as [t' [=]]. by subst.
Qed.

Lemma forwarder_metrics_NoDup clf : NoDup (identity <$> forwarder_metrics version clf).
Proof.
  assert (∀ (counts : gmap string Z) d, NoDup (identity <$> ((λ kc : string * Z,
    {| m_Desc := d; m_Value := kc.2; m_Labels := [version; clf_Namespace clf; clf_Name clf; kc.1] |}) <$> range counts))) as Hcounts.
  { intros counts d. rewrite <-list_fmap_compose.
    assert (NoDup (range counts).*1) as Hnd by (rewrite (range_perm counts); apply NoDup_fst_map_to_list).
    replace (_ <$> range counts) with ((λ k, (d, [version; clf_Namespace clf; clf_Name clf; k])) <$> (range counts).*1)
      by (by rewrite <-list_fmap_compose).
    apply NoDup_fmap_2_strong; [|exact Hnd]. by intros ?? _ _ [= ->]. }
  unfold forwarder_metrics. rewrite !fmap_app. apply NoDup_app. split; [apply NoDup_singleton|]. split.
  { intros x ->%list_elem_of_singleton. rewrite !elem_of_app, !list_elem_of_fmap.
    intros [(m & E & (kc & -> & _)%list_elem_of_fmap)|[(m & E & (kc & -> & _)%list_elem_of_fmap)|(m & E & (s & -> & _)%list_elem_of_fmap)]];
      discriminate E. }
  apply NoDup_app. split; [apply Hcounts|]. split.
  { intros x (m & -> & (kc & -> & _)%list_elem_of_fmap)%list_elem_of_fmap. rewrite elem_of_app, !list_elem_of_fmap.
    intros [(m & E & (kc' & -> & _)%list_elem_of_fmap)|(m & E & (s & -> & _)%list_elem_of_fmap)]; discriminate E. }
  apply NoDup_app. split; [apply Hcounts|]. split.
  { intros x (m & -> & (kc & -> & _)%list_elem_of_fmap)%list_elem_of_fmap. rewrite list_elem_of_fmap.
    intros (m & E & (s & -> & _)%list_elem_of_fmap). discriminate E. }
  rewrite <-list_fmap_compose. apply NoDup_fmap_2_strong; [|apply (bool_decide_unpack _); by vm_compute].
  intros s s' _ _ E. by injection E.
Qed.

Lemma collectForwarder_NoDup items :
  NoDup ((λ c, (clf_Namespace c, clf_Name c)) <$> items) → NoDup (identity <$> collectForwarder version (Some items)).
Proof.
  unfold collectForwarder. induction items as [|clf items IH]; intros Hnd; [constructor|].
  apply NoDup_cons in Hnd as [Hn Hnd]. cbn [mbind list_bind]. rewrite fmap_app. apply NoDup_app.
  split; [apply forwarder_metrics_NoDup|]. split; [|by apply IH].
  intros x (m & -> & Hm)%list_elem_of_fmap (m' & E & (c & Hm' & Hc)%list_elem_of_bind)%list_elem_of_fmap.
  apply Hn, list_elem_of_fmap. exists c. split; [|done].
  by eapply (is_forwarder_inj _ _ _ _ m m'); [by apply forwarder_metrics_of..|].
Qed.

Lemma exporter_metrics_of exporters m :
  m ∈ collectLogFileMetricExporter version exporters → m_Desc m = logFileMetricExporterInfoDesc.
Proof.
  unfold collectLogFileMetricExporter. destruct exporters as [l|]; [|by intros ?%not_elem_of_nil].
  destruct (foldl _ _ l). by intros ->%list_elem_of_singleton.
Qed.

Lemma exporter_metrics_NoDup exporters : NoDup (identity <$> collectLogFileMetricExporter version exporters).
Proof.
  unfold collectLogFileMetricExporter. destruct exporters as [l|]; [|constructor]. destruct (foldl _ _ l). apply NoDup_singleton.
Qed.

Lemma forwarder_metrics_elem clf m :
  m ∈ forwarder_metrics version clf ↔
  m = {| m_Desc := forwarderPipelinesDesc; m_Value := Z.of_nat (length (spec_Pipelines (clf_Spec clf)));
         m_Labels := [version; clf_Namespace clf; clf_Name clf] |} ∨
  (∃ t n, m = {| m_Desc := forwarderInputTypeDesc; m_Value := n; m_Labels := [version; clf_Namespace clf; clf_Name clf; t] |} ∧
     inputTypes (clf_Spec clf) !! t = Some n) ∨
  (∃ t n, m = {| m_Desc := forwarderOutputTypeDesc; m_Value := n; m_Labels := [version; clf_Namespace clf; clf_Name clf; t] |} ∧
     outputTypes (clf_Spec clf) !! t = Some n) ∨
  (∃ s, m = {| m_Desc := forwarderReadyDesc;
               m_Value := if s == readyConditionStatus (st_Conditions (clf_Status clf)) then 1%Z else 0%Z;
               m_Labels := [clf_Namespace clf; clf_Name clf; s] |} ∧ s ∈ [ConditionTrue; ConditionFalse; ConditionUnknown]).
Proof.
  unfold forwarder_metrics. rewrite !elem_of_app, list_elem_of_singleton, !list_elem_of_fmap.
  split.
  - intros [->|[([t n] & -> & Ht%elem_of_range)|[([t n] & -> & Ht%elem_of_range)|(s & -> & Hs)]]]; eauto 10.
  - intros [->|[(t & n & -> & Ht%elem_of_range)|[(t & n & -> & Ht%elem_of_range)|(s & -> & Hs)]]]; [by left|..].
    + right; left. by exists (t, n).
    + right; right; left. by exists (t, n).
    + right; right; right. by exists s.
Qed.

(** What is sent with the labels of a forwarder is of that forwarder. *)
Lemma sent_by_forwarder forwarders exporters clf m :
  NoDup ((λ c, (clf_Namespace c, clf_Name c)) <$> forwarders) → clf ∈ forwarders →
  is_forwarder (clf_Namespace clf) (clf_Name clf) m →
  m ∈ Collect version (Some forwarders) exporters ↔ m ∈ forwarder_metrics version clf.
Proof.
  intros Hnd Hclf Hm. unfold Collect, collectForwarder. rewrite elem_of_app, list_elem_of_bind. split.
  - intros [(c & Hc & Hin)|He].
    + enough (c = clf) as <- by done.
      pose proof (is_forwarder_inj _ _ _ _ _ _ (forwarder_metrics_of _ _ Hc) Hm eq_refl) as E.
      apply list_elem_of_lookup_1 in Hin as [i Hi], Hclf as [j Hj].
      assert (i = j) as ->; [|congruence]. eapply (NoDup_lookup _ _ _ _ Hnd); rewrite list_lookup_fmap.
      * by rewrite Hi.
      * rewrite Hj. cbn. by rewrite E.
    + apply exporter_metrics_of in He. unfold is_forwarder in Hm. by rewrite He in Hm.
  - intros Hin. left. by exists clf.
Qed.

(** C33. What the registry is given.  No two metrics have the same description and labels,
    which it would refuse.  For every forwarder there is a metric for each type of its
    inputs, with the number of inputs of that type and of references of its pipelines to a
    reserved name, and for no other type; one for each type of its outputs with their
    number; and of the three statuses exactly the one of its condition is 1. *)
Theorem Collect_correct forwarders exporters :
  NoDup ((λ c, (clf_Namespace c, clf_Name c)) <$> forwarders) →
  NoDup (identity <$> Collect version (Some forwarders) exporters) ∧
  ∀ clf, clf ∈ forwarders →
    let ns := clf_Namespace clf in
    let name := clf_Name clf in
    let spec := clf_Spec clf in
    let sent d n labels := {| m_Desc := d; m_Value := n; m_Labels := labels |} ∈ Collect version (Some forwarders) exporters in
    (∀ t n, sent forwarderInputTypeDesc n [version; ns; name; t] ↔
       n = (occurrences t (in_Type <$> spec_Inputs spec) + occurrences t (reserved_refs spec))%Z ∧ (0 < n)%Z) ∧
    (∀ t n, sent forwarderOutputTypeDesc n [version; ns; name; t] ↔
       n = occurrences t (out_Type <$> spec_Outputs spec) ∧ (0 < n)%Z) ∧
    (∀ s, s ∈ [ConditionTrue; ConditionFalse; ConditionUnknown] →
       (sent forwarderReadyDesc 1%Z [ns; name; s] ↔ readyConditionStatus (st_Conditions (clf_Status clf)) = s)).
Proof.
  intros Hnd. split.
  { unfold Collect. rewrite fmap_app. apply NoDup_app. split; [by apply collectForwarder_NoDup|]. split.
    - intros x (m & -> & (c & Hm & _)%list_elem_of_bind)%list_elem_of_fmap (m' & E & Hm')%list_elem_of_fmap.
      apply forwarder_metrics_of in Hm. apply exporter_metrics_of in Hm'. injection E as Hd _. unfold is_forwarder in Hm.
      by rewrite Hd, Hm' in Hm.
    - apply exporter_metrics_NoDup. }
  intros clf Hclf. cbv zeta. split; [|split].
  - intros t n. rewrite (sent_by_forwarder _ _ clf) by (first [done | by eexists]).
    rewrite forwarder_metrics_elem, <-inputTypes_spec. naive_solver.
  - intros t n. rewrite (sent_by_forwarder _ _ clf) by (first [done | by eexists]).
    rewrite forwarder_metrics_elem, <-outputTypes_spec. naive_solver.
  - intros s Hs. rewrite (sent_by_forwarder _ _ clf) by (first [done | by eexists]). rewrite forwarder_metrics_elem.
    split.
    + intros [[=]|[(? & ? & [=] & _)|[(? & ? & [=] & _)|(s' & [= E ->] & _)]]].
      by destruct (String.eqb_spec s' (readyConditionStatus (st_Conditions (clf_Status clf)))).
    + intros <-. right; right; right. eexists. split; [by rewrite String.eqb_refl|done].
Qed.
End metrics.

(** ** An example *)

Lemma Collect_correct_witness :
  NoDup ((λ c, (clf_Namespace c, clf_Name c)) <$> [example_clf]) ∧
  {| m_Desc := forwarderInputTypeDesc; m_Value := 1; m_Labels := ["v"; "logs"; "fwd"; "audit"] |}
    ∈ @Collect canonical_order "v" (Some [example_clf]) None ∧
  {| m_Desc := forwarderReadyDesc; m_Value := 1; m_Labels := ["logs"; "fwd"; "Unknown"] |}
    ∈ @Collect canonical_order "v" (Some [example_clf]) None.
Proof.
  assert (NoDup ((λ c, (clf_Namespace c, clf_Name c)) <$> [example_clf])) as Hnd by apply NoDup_singleton.
  split; [exact Hnd|].
  destruct (@Collect_correct canonical_order "v" [example_clf] None Hnd) as [_ Hclf].
  destruct (Hclf example_clf) as (Hin & _ & Hready); [by left|]. split.
  - apply Hin. split; [vm_compute; reflexivity|lia].
  - apply Hready; [by right; right; left|vm_compute; reflexivity].
Defined.
