(* ===== verification/Dashboard.v ===== *)
(** * The dashboard and the profile of TLS ([internal/metrics/dashboard], [controller/tlsprofile])

    Two small controllers: one keeps the config map of a dashboard in the namespace of
    the console, whose text is an embedded file and a parameter here; the other ends the
    process when the profile of the API server is not the one it started with. *)

From S2P Require Import Prelude GoStrings ApiCommon Tls Network InputServices Md5 Workload Cluster ReconcileObjects.
From S2P Require Import ReconcileObjectsSpec CollectorSpec.

Definition DashboardName : string := "grafana-dashboard-cluster-logging".
Definition DashboardNS : string := "openshift-config-managed".
Definition DashboardFileName : string := "openshift-logging.json".
Definition DashboardHashName : string := "contentHash".

(** [ObjectLabels.Includes]. *)
Definition Includes (objLabels other : gmap string string) : bool := bool_decide (other ⊆ objLabels).

(** What the controller asks for to come back. *)
Definition dashboard_requests (name namespace : string) : list (string * string) :=
  if (name == DashboardName) && (namespace == DashboardNS) then [(namespace, name)] else [].

Section dashboard.
Context `{ApiServer} (DashboardConfig : string).

Definition dashboard_key : key := key_of KConfigMap DashboardNS DashboardName.

Definition newDashboardConfigMap : ConfigMapObject := {|
  cmo_Namespace := DashboardNS; cmo_Name := DashboardName;
  cmo_Labels := <[LabelK8sManagedBy := ClusterLoggingOperator]> (<[LabelK8sVersion := version]>
    (<[DashboardHashName := CalculateMD5Hash DashboardConfig]> {["console.openshift.io/dashboard" := "true"]}));
  cmo_Annotations := ∅; cmo_Owners := []; cmo_Data := {[DashboardFileName := DashboardConfig]} |}.

Definition ReconcileForDashboards : K unit :=
  let cm := newDashboardConfigMap in
  r ← attempt (Get dashboard_key);
  match r with
  | inr err =>
      if negb (IsNotFound err)
      then throw (Errorf ("failed to get " +:+ DashboardNS +:+ "/" +:+ DashboardName +:+ " configmap: " +:+ ae_Message err))
      else Configmap cm [CompareLabels]
  | inl _ => Configmap cm [CompareLabels]
  end.

Definition RemoveDashboardConfigMap : K unit :=
  r ← attempt (Get dashboard_key);
  match r with
  | inr err =>
      if negb (IsNotFound err)
      then throw (Errorf ("failed to get " +:+ DashboardNS +:+ "/" +:+ DashboardName +:+ " configmap: " +:+ ae_Message err))
      else mret tt
  | inl (OConfigMap current) =>
      if Includes (cmo_Labels current) {[LabelK8sManagedBy := ClusterLoggingOperator; LabelK8sVersion := version]}
      then Delete dashboard_key else mret tt
  | inl _ => lift wrong_kind
  end.

(** The dashboard that is there after a success has the text and the labels, its hash among
    them, and one that had them is not written. *)
Lemma ReconcileForDashboards_done w :
  wp false ReconcileForDashboards (config_map_done newDashboardConfigMap [CompareLabels] dashboard_key w) w.
Proof.
  apply wp_bind, wp_attempt, wp_Get. intros w1 r1 Hq _.
  assert (∀ e, config_map_done newDashboardConfigMap [CompareLabels] dashboard_key w w1 (inr e)) as He.
  { intros e. split; [by apply quiet_touches|]. split; [by intros; apply Hq|]. split; [done|]. by intros; apply Hq. }
  assert (wp false (Configmap newDashboardConfigMap [CompareLabels])
    (config_map_done newDashboardConfigMap [CompareLabels] dashboard_key w) w1) as Hcm.
  { eapply wp_mono; [by apply wp_Configmap|]. intros w2 r ([Ho Hc] & He2 & Hok & Hsame).
    unfold config_map_done. rewrite <-!(q_objects _ _ Hq). split; [split; [|by rewrite Hc, (q_caps _ _ Hq)]|done].
    intros k Hk. by rewrite (Ho k Hk), (q_objects _ _ Hq). }
  destruct r1 as [o|e]; [exact Hcm|]. destruct (negb _); [by apply wp_throw|exact Hcm].
Qed.

(** Only the operator's own dashboard of this version is removed, and nothing else. *)
Lemma RemoveDashboardConfigMap_done w :
  wp false RemoveDashboardConfigMap (λ w' r, w_objects w' = w_objects w ∨
    w_objects w' = delete dashboard_key (w_objects w) ∧ ∃ cm, w_objects w !! dashboard_key = Some (OConfigMap cm) ∧
      cmo_Labels cm !! LabelK8sManagedBy = Some ClusterLoggingOperator ∧ cmo_Labels cm !! LabelK8sVersion = Some version) w.
Proof.
  apply wp_bind, wp_attempt, wp_Get. intros w1 r1 Hq Hget. pose proof (q_objects _ _ Hq) as Ho1.
  destruct r1 as [o|e]; [|by destruct (negb _); [apply wp_throw|apply wp_ret]; left].
  specialize (Hget o eq_refl). destruct o; try by apply wp_lift; [discriminate|].
  unfold Includes. case_bool_decide as Hin; [|by apply wp_ret; left].
  apply wp_Delete; [intros w2 err [Ho _ _]; left; congruence|]. intros w2 _ [Ho _ _]. right. split; [congruence|].
  exists c. split; [exact Hget|]. split; (eapply lookup_weaken; [|exact Hin]); vm_compute; reflexivity.
Qed.
End dashboard.

(** ** The profile of TLS *)

(** [TLSProfileReconciler.Reconcile]: the profile of the API server that was read, or
    whether the error was that there is none. *)
Definition TLSProfile_Reconcile (APIServerName name : string) (InitialProfile : option TLSSecurityProfile)
    (apiServer : option TLSSecurityProfile + api_error) : outcome (option api_error) :=
  if name != APIServerName then Ret None
  else
    match apiServer with
    | inr err => Ret (if IsNotFound err then None else Some err)
    | inl profile => if bool_decide (InitialProfile ≠ profile) then Exit 0 else Ret None
    end.

(** The process goes on only with the profile it started with. *)
Lemma TLSProfile_Reconcile_exits APIServerName name initial apiServer :
  TLSProfile_Reconcile APIServerName name initial apiServer = Exit 0 ↔
  name = APIServerName ∧ ∃ profile, apiServer = inl profile ∧ profile ≠ initial.
Proof.
  unfold TLSProfile_Reconcile. destruct (String.eqb_spec name APIServerName) as [->|]; cbn [negb]; [|naive_solver].
  destruct apiServer as [profile|err]; [|naive_solver]. case_bool_decide; naive_solver.
Qed.
