(* ===== verification/Examples.v ===== *)
(** * A forwarder and a cluster to run the development on

    One forwarder that reads the applications and sends them over HTTP, and a
    cluster that answers every request.  The theorems about the whole operator
    are applied to them here. *)

From S2P Require Import Prelude GoStrings ApiCommon ApiInputs ApiFilters ApiOutputs ApiForwarder.
From S2P Require Import Sets Conditions ObsResources ObsInputs ObsOutputs ObsForwarder Initialize.
From S2P Require Import ValidateCommon Validate Reconcile System.
From S2P Require AwsAuth ValidateFilters ValidateInputs ValidateOutputs ValidatePipelines.

#[local] Existing Instance canonical_order.

Definition ex_http : HTTP := {|
  http_URLSpec := {| url_URL := "https://logs.example" |}; http_Authentication := None;
  http_Tuning := None; http_Headers := ∅; http_Timeout := 0; http_Method := "POST";
  http_ProxyURL := ""; http_Format := HTTPFormatJSON |}.

Definition ex_output : OutputSpec := {|
  out_Name := "out"; out_Type := OutputTypeHTTP; out_TLS := None; out_Limit := None;
  out_AzureLogsIngestion := None; out_AzureMonitor := None; out_Cloudwatch := None;
  out_Elasticsearch := None; out_GoogleCloudLogging := None; out_HTTP := Some ex_http;
  out_Kafka := None; out_Loki := None; out_LokiStack := None; out_S3 := None;
  out_Splunk := None; out_Syslog := None; out_OTLP := None |}.

Definition ex_pipeline : PipelineSpec := {|
  pipe_Name := "p"; pipe_InputRefs := ["application"]; pipe_OutputRefs := ["out"];
  pipe_FilterRefs := [] |}.

Definition ex_forwarder : ClusterLogForwarder := {|
  clf_Meta := {| meta_Name := "fwd"; meta_Namespace := "ns"; meta_Annotations := ∅;
                 meta_DeletionTimestamp := None |};
  clf_Spec := {|
    spec_ManagementState := ManagementStateManaged; spec_Collector := None;
    spec_Inputs := []; spec_Outputs := [ex_output]; spec_Filters := [];
    spec_Pipelines := [ex_pipeline]; spec_ServiceAccount := {| sa_Name := "sa" |} |};
  clf_Status := ClusterLogForwarderStatus_zero |}.

Definition ex_cluster (allowed : bool) : cluster := {|
  GetForwarder := λ _ _, inl ex_forwarder;
  GetSecret := λ _ _, inr {| err_NotFound := true; err_Message := "not found" |};
  GetConfigMap := λ _ _, inr {| err_NotFound := true; err_Message := "not found" |};
  GetServiceAccount := λ _ _, inl tt;
  CreateReview := λ _, inl allowed;
  GetWorkload := λ _ _ _, None;
  RemoveWorkload := λ _ _ _, None;
  RemoveClusterRoleBinding := λ _, None;
  HostedVersion := λ _, ("4.20", "cluster");
  Deploy := λ _, None;
  ParseQuantity := λ _, Some {| Quantity_Value := 3; Quantity_AsInt64 := Some 3%Z; Quantity_IsZero := false |};
  regexp_compiles := λ _, true;
  parse_url := λ _, Some {| ValidateOutputs.url_Scheme := "https"; ValidateOutputs.url_Host := "x";
    ValidateOutputs.url_Path := "" |};
  json_Unmarshal := λ _, None;
|}.

Definition ex_context : ForwarderContext := {|
  ctx_Forwarder := ex_forwarder; ctx_Secrets := None; ctx_ConfigMaps := None;
  ctx_ClusterID := "id"; ctx_ClusterVersion := "4.20"; ctx_AdditionalContext := NoOptions |}.

Definition ex_reconciled (allowed : bool) : outcome reconciled :=
  Reconcile (ex_cluster allowed) 7 ex_context "ns" "fwd".

Definition event_name (e : event) : string :=
  match e with
  | DeleteWorkload w _ _ => "delete " +:+ workload_name w
  | DeleteClusterRoleBinding _ => "delete binding"
  | DeployCollector _ => "deploy"
  | PatchStatus _ => "status"
  end.

(** The run of the example: an authorized forwarder is deployed, after the
    workload of the other kind is gone; an unauthorized one loses its own. *)
Example ex_reconciled_events :
  (λ r, event_name <$> rec_events r) <$> ex_reconciled true =
    Ret ["delete deployment"; "deploy"; "status"] ∧
  (λ r, event_name <$> rec_events r) <$> ex_reconciled false =
    Ret ["delete daemonset"; "status"].
Proof. split; vm_compute; reflexivity. Qed.

Lemma ex_output_admitted : output_admitted ex_output.
Proof. constructor; try done. unfold OutputTypes. set_solver. Qed.

Lemma ex_validatable b : ValidateOutputs.validatable (parse_url (ex_cluster b)) ex_output.
Proof. split; [apply ex_output_admitted|]. split; [done|]. intros urls u _ _ _. by eexists. Qed.

Lemma ex_stored_ok b : stored_ok (ex_cluster b) ex_forwarder.
Proof.
  constructor.
  - constructor; simpl; try apply NoDup_singleton; try apply NoDup_nil_2; try apply Forall_nil_2.
    apply Forall_singleton, ex_output_admitted.
  - intros o ->%list_elem_of_singleton. apply ex_validatable.
  - constructor; apply NoDup_nil_2.
  - intros q _. by eexists.
Qed.

Lemma ex_deploys :
  ∃ r c', ex_reconciled true = Ret r ∧ DeployCollector c' ∈ rec_events r.
Proof.
  pose proof (proj1 ex_reconciled_events) as He.
  destruct (ex_reconciled true) as [r| |]; try discriminate. injection He as He.
  assert ("deploy" ∈ event_name <$> rec_events r) as Hd by (rewrite He; set_solver).
  apply list_elem_of_fmap in Hd as ([w ns n|n|c'|g] & Hn & Hin).
  - by destruct w.
  - done.
  - by exists r, c'.
  - done.
Qed.

(** What the initialization makes of the example. *)
Definition ex_stale_context : ForwarderContext :=
  ctx_set_Forwarder ex_context (removeStaleStatuses ex_forwarder).

Lemma ex_ready b :
  ∃ c, initialize (ex_cluster b) ex_stale_context = Ret (c, None) ∧
    context_ready (parse_url (ex_cluster b)) c ∧
    (authorized (GetServiceAccount (ex_cluster b)) (CreateReview (ex_cluster b)) (ctx_Forwarder c) → b = true).
Proof.
  destruct (initialize_ready (ex_cluster b) ex_stale_context ex_forwarder eq_refl (ex_stored_ok b))
    as (c & err & Hi & _ & _ & Hr).
  assert (snd <$> initialize (ex_cluster b) ex_stale_context = Ret None) as He.
  { vm_compute. reflexivity. }
  assert ((λ ce, in_Type <$> spec_Inputs (ctx_Spec (fst ce))) <$>
    initialize (ex_cluster b) ex_stale_context = Ret [InputTypeApplication]) as Hc.
  { vm_compute. reflexivity. }
  rewrite Hi in He, Hc. injection He as ->. injection Hc as Hc.
  exists c. split; [done|]. split; [by apply Hr|].
  intros (_ & [[t Ht]|(i & Hin & _ & Ht)] & Hall).
  - specialize (Hall t Ht). by injection Hall.
  - exfalso. apply (list_elem_of_fmap_2 in_Type) in Hin.
    change (spec_Inputs (clf_Spec (ctx_Forwarder c))) with (spec_Inputs (ctx_Spec c)) in Hin.
    rewrite Hc, Ht in Hin. by apply list_elem_of_singleton in Hin.
Qed.

(** ** The theorems at work *)

Theorem Reconcile_ready_witness :
  ∃ r g, ex_reconciled true = Ret r ∧ final_status r g.
Proof.
  destruct (proj1 (Reconcile_ready (ex_cluster true) 7 ex_context "ns" "fwd" ex_forwarder eq_refl)
    eq_refl (ex_stored_ok true)) as (r & g & v & E & Hg & _).
  exists r, g. exact (conj E Hg).
Defined.

Theorem Reconcile_deploys_only_valid_witness :
  ∃ r c', ex_reconciled true = Ret r ∧ DeployCollector c' ∈ rec_events r ∧
    meta_DeletionTimestamp (clf_Meta ex_forwarder) = None.
Proof.
  destruct ex_deploys as (r & c' & E & Hin). exists r, c'.
  destruct (Reconcile_deploys_only_valid (ex_cluster true) 7 ex_context "ns" "fwd" ex_forwarder r c'
    eq_refl (ex_stored_ok true) E Hin) as (Hd & _).
  exact (conj E (conj Hin Hd)).
Defined.

Theorem Reconcile_undeploys_unauthorized_witness :
  ∃ r, ex_reconciled false = Ret r ∧ ∀ c', DeployCollector c' ∉ rec_events r.
Proof.
  destruct (ex_ready false) as (c & Hi & _ & Hna).
  destruct (Reconcile_undeploys_unauthorized (ex_cluster false) 7 ex_context "ns" "fwd" ex_forwarder c
    eq_refl (ex_stored_ok false) eq_refl) as (r & g & E & _ & _ & Hno & _).
  - discriminate.
  - exact Hi.
  - intros Ha. discriminate (Hna Ha).
  - exists r. exact (conj E Hno).
Defined.

Theorem ValidateClusterLogForwarder_correct_witness :
  ∃ c c', context_ready (parse_url (ex_cluster true)) c ∧
    ValidateClusterLogForwarder 7 (GetServiceAccount (ex_cluster true)) (CreateReview (ex_cluster true))
      (regexp_compiles (ex_cluster true)) (parse_url (ex_cluster true))
      (json_Unmarshal (ex_cluster true)) c = Ret c'.
Proof.
  destruct (ex_ready true) as (c & _ & Hr & _).
  destruct (ValidateClusterLogForwarder_correct 7 (GetServiceAccount (ex_cluster true))
    (CreateReview (ex_cluster true)) (regexp_compiles (ex_cluster true))
    (parse_url (ex_cluster true)) (json_Unmarshal (ex_cluster true)) c Hr) as (c' & E & _).
  exists c, c'. exact (conj Hr E).
Defined.

(** *** The life of the example *)

Definition ex_parse : string → option ValidateOutputs.URL := parse_url (ex_cluster true).

Definition ex_valid_context : ForwarderContext :=
  match initialize (ex_cluster true) ex_stale_context with
  | Ret (c, _) => c
  | _ => ex_context
  end.

Lemma ex_initialize st :
  initialize (ex_cluster true) (ctx_set_Forwarder ex_context (clf_set_Status ex_forwarder st)) =
    Ret (ctx_set_Status ex_valid_context st, None).
Proof. vm_compute. reflexivity. Qed.

Lemma ex_valid_context_initialized : initialize (ex_cluster true) ex_stale_context = Ret (ex_valid_context, None).
Proof. vm_compute. reflexivity. Qed.

Lemma ex_valid_context_valid : snd <$> validateForwarder (ex_cluster true) 7 ex_valid_context = Ret true.
Proof. vm_compute. reflexivity. Qed.

#[local] Opaque ex_valid_context initialize validateForwarder.

Lemma ex_healthy : healthy "ns" "fwd" ex_parse (ex_cluster true).
Proof. constructor; try done. intros q _. by eexists. Qed.

Lemma Ret_pair_inv {A B} (a a' : A) (b b' : B) : Ret (a, b) = Ret (a', b') → a = a' ∧ b = b'.
Proof. by intros [= -> ->]. Qed.

Lemma ex_wanted : wanted ex_parse (ex_cluster true) ex_context ex_forwarder.
Proof.
  constructor; [done|done|]. intros st. exists (ctx_set_Status ex_valid_context st).
  split; [exact (ex_initialize st)|].
  destruct (initialize_ready (ex_cluster true) ex_stale_context ex_forwarder eq_refl (ex_stored_ok true))
    as (c & err & Hi & _ & _ & Hr).
  rewrite ex_valid_context_initialized in Hi. apply Ret_pair_inv in Hi as [<- <-].
  destruct (validateForwarder_spec (ex_cluster true) 7 _ (Hr eq_refl)) as (c' & b & Hv & _ & Hb & _).
  pose proof ex_valid_context_valid as Hv'. rewrite Hv in Hv'. cbn [fmap outcome_fmap snd] in Hv'.
  assert (b = true) as -> by congruence.
  apply forwarder_ok_set_Status. exact (proj1 Hb eq_refl).
Qed.

Lemma ex_stored_as : stored_as "ns" "fwd" ex_parse ex_forwarder.
Proof. destruct (ex_stored_ok true) as [? Ho _ _]. by constructor. Qed.

Definition ex_created : state := set_stored initial (Some ex_forwarder).

Lemma ex_reachable : reachable "ns" "fwd" ex_parse ex_created.
Proof. eapply reachable_step; [constructor|]. by apply step_create; [|apply ex_stored_as|]. Qed.

Lemma rounds_settle_witness :
  reachable "ns" "fwd" ex_parse ex_created ∧
  ∃ s, rounds "ns" "fwd" (ex_cluster true) 7 ex_context 1 ex_created s ∧
    settled (ex_cluster true) ex_context ex_forwarder s.
Proof.
  split; [exact ex_reachable|].
  destruct (rounds_settle "ns" "fwd" ex_parse (ex_cluster true) 7 ex_context ex_forwarder ex_created
    ex_reachable ex_healthy ex_wanted eq_refl) as [Hex Hset].
  destruct (Hex 0) as (s & Hk & Hl). exists s. split; [exact Hk|]. exact (Hset 0 s Hk Hl).
Defined.

(** A state of the life of the example in which its collector runs. *)
Lemma ex_running :
  ∃ s f, reachable "ns" "fwd" ex_parse s ∧ stored s = Some f ∧ is_ready f ∧ status_lost s = false.
Proof.
  destruct (rounds_extend "ns" "fwd" ex_parse (ex_cluster true) 7 ex_context ex_forwarder ex_created 0 ex_created
    ex_healthy ex_wanted ex_reachable (rounds_O _ _ _ _ _ _)) as (s & Hk & Hl).
  { by exists ClusterLogForwarderStatus_zero. }
  destruct (rounds_stored "ns" "fwd" ex_parse (ex_cluster true) 7 ex_context ex_forwarder ex_created 1 s
    ex_healthy ex_wanted ex_reachable Hk) as [_ Hset]; [by exists ClusterLogForwarderStatus_zero|].
  destruct (Hset ltac:(lia) Hl) as (st & _ & _ & _ & Hs & Hr & _).
  exists s, (clf_set_Status ex_forwarder st). split; [|done].
  by apply (rounds_reachable "ns" "fwd" ex_parse (ex_cluster true) 7 ex_context ex_created 1 s ex_healthy ex_reachable).
Qed.

Lemma reachable_invariant_witness :
  ∃ s w, reachable "ns" "fwd" ex_parse s ∧ is_Some (running s w) ∧ running s (other w) = None.
Proof.
  destruct ex_running as (s & f & Hre & Hs & Hr & Hl).
  destruct (reachable_invariant "ns" "fwd" ex_parse s Hre) as (_ & _ & Hinv).
  destruct (Hinv f Hs Hl Hr) as (w & c & Hw & Ho). exists s, w.
  exact (conj Hre (conj (ex_intro _ c Hw) Ho)).
Defined.

(** The example with the condition of a filter it once had. *)
Definition ex_filtered : ClusterLogForwarder := clf_set_Status ex_forwarder
  (st_set_FilterConditions ClusterLogForwarderStatus_zero
     [NewConditionFromPrefix 1 ConditionTypeValidFilterPrefix "gone" false "" "bad"]).

Lemma ex_filtered_reconciled :
  ∃ r, Reconcile (answering (ex_cluster true) (set_stored initial (Some ex_filtered))) 7 ex_context "ns" "fwd" = Ret r.
Proof.
  assert (returnsb (Reconcile (answering (ex_cluster true) (set_stored initial (Some ex_filtered))) 7 ex_context
    "ns" "fwd") = true) as E by (vm_compute; reflexivity).
  destruct (Reconcile _ _ _ _ _) as [r| |]; [by exists r|discriminate..].
Qed.

Lemma filter_conditions_stay_witness :
  ∃ s r, Reconcile (answering (ex_cluster true) s) 7 ex_context "ns" "fwd" = Ret r ∧
    ∀ s', run (answering (ex_cluster true) s) (rec_events r) s s' →
      ∃ f', stored s' = Some f' ∧
        (cond_Type <$> st_FilterConditions (clf_Status f')) = [prefixed ConditionTypeValidFilterPrefix "gone"].
Proof.
  destruct ex_filtered_reconciled as [r Hr]. exists (set_stored initial (Some ex_filtered)), r. split; [exact Hr|].
  intros s' Hrun.
  destruct (filter_conditions_stay (answering (ex_cluster true) (set_stored initial (Some ex_filtered))) 7 ex_context
    "ns" "fwd" ex_filtered r (set_stored initial (Some ex_filtered)) s' eq_refl eq_refl eq_refl Hr Hrun) as (_ & f' & Hs' & E).
  exists f'. split; [exact Hs'|]. rewrite E. vm_compute. reflexivity.
Defined.

(** *** Outputs *)

Definition ex_output_of (type : string) (kafka : option Kafka) (es : option Elasticsearch)
    (cw : option Cloudwatch) : OutputSpec := {|
  out_Name := "out"; out_Type := type; out_TLS := None; out_Limit := None;
  out_AzureLogsIngestion := None; out_AzureMonitor := None; out_Cloudwatch := cw;
  out_Elasticsearch := es; out_GoogleCloudLogging := None; out_HTTP := None;
  out_Kafka := kafka; out_Loki := None; out_LokiStack := None; out_S3 := None;
  out_Splunk := None; out_Syslog := None; out_OTLP := None |}.

(** A Kafka output with an authentication that has no SASL section. *)
Definition ex_kafka : OutputSpec := ex_output_of OutputTypeKafka (Some {|
  kafka_URL := "tls://kafka:9093"; kafka_Authentication := Some {| ka_SASL := None |};
  kafka_Tuning := None; kafka_Topic := "logs"; kafka_Brokers := [] |}) None None.

Lemma ex_kafka_admitted : output_admitted ex_kafka.
Proof. constructor; try done. unfold OutputTypes. set_solver. Qed.

Theorem SecretReferences_total_witness :
  output_admitted ex_kafka ∧ SecretReferences ex_kafka = Panic "nil dereference".
Proof.
  destruct (SecretReferences_total ex_kafka ex_kafka_admitted) as [_ Hp].
  split; [exact ex_kafka_admitted|]. apply Hp. intros Hk.
  destruct (Hk _ {| ka_SASL := None |} eq_refl eq_refl eq_refl) as [s Hs]. discriminate.
Defined.

Definition ex_es (headers : gmap string string) : Elasticsearch := {|
  es_URL := "https://es:9200"; es_Endpoints := []; es_Authentication := None; es_Tuning := None;
  es_Index := "logs"; es_Version := 8; es_Headers := headers |}.

Definition ex_headers : OutputSpec := ex_output_of OutputTypeElasticsearch None
  (Some (ex_es {[ "x-tenant" := "a"; "X-Tenant" := "b" ]})) None.

Theorem validateElasticsearchHeaders_correct_witness :
  @ValidateOutputs.validateElasticsearchHeaders canonical_order ex_headers ≠ [] ∧
  @ValidateOutputs.validateElasticsearchHeaders canonical_order ex_headers =
    @ValidateOutputs.validateElasticsearchHeaders reversed_order ex_headers.
Proof.
  destruct (ValidateOutputs.validateElasticsearchHeaders_correct canonical_order reversed_order ex_headers
    (ex_es {[ "x-tenant" := "a"; "X-Tenant" := "b" ]}) eq_refl eq_refl) as [Hnil Horder].
  split; [|exact Horder]. intros [_ Hdup]%Hnil.
  discriminate (Hdup "x-tenant" "X-Tenant" ltac:(by eexists) ltac:(by eexists) eq_refl).
Defined.

Definition ex_role : AwsAuthentication := {|
  aws_Type := AwsAuthTypeIAMRole; aws_AwsAccessKey := None;
  aws_IamRole := Some {| ar_RoleARN := {| sr_Key := "role_arn"; sr_SecretName := "cw" |};
    ar_Token := {| bt_From := BearerTokenFromServiceAccount; bt_Secret := None |} |};
  aws_AssumeRole := Some {| aar_RoleARN := {| sr_Key := "assume_arn"; sr_SecretName := "cw" |};
    aar_ExternalID := "unique"; aar_SessionName := "mine" |} |}.

Definition ex_cloudwatch : OutputSpec := ex_output_of OutputTypeCloudwatch None None (Some {|
  cw_URL := ""; cw_Authentication := Some ex_role; cw_Tuning := None; cw_Region := "us-east-1";
  cw_GroupName := "logs" |}).

(** The text around the ARN of the role to assume stays in the file. *)
Definition ex_aws_secrets : gmap string Secret := {[ "cw" := {|
  secret_Name := "cw"; secret_Data := {[
    "role_arn" := "arn = arn:aws:iam::123456789012:role/logs";
    "assume_arn" := "arn = arn:aws:iam::210987654321:role/logs" ]} |} ]}.

Theorem GenerateAwsProfileCreds_correct_witness :
  ∃ p, AwsAuth.GenerateAwsProfileCreds (Some "01234567-89ab") "instance" [ex_cloudwatch] ex_aws_secrets
      = Ret [p] ∧
    AwsAuth.pc_RoleARN p = "arn:aws:iam::123456789012:role/logs" ∧
    AwsAuth.pc_AssumeRole p = "arn = arn:aws:iam::210987654321:role/logs".
Proof.
  destruct (AwsAuth.GenerateAwsProfileCreds_correct (Some "01234567-89ab") "instance" [ex_cloudwatch]
    ex_aws_secrets) as (creds & E & Hall).
  - intros o ->%list_elem_of_singleton a r [= <-] [= <-] [=].
  - rewrite filter_cons, decide_True, filter_nil in Hall by by eexists.
    inversion Hall as [|o p l l' (a & Ha & [_ Hrole _ Hassume]) Hnil]; subst.
    inversion Hnil; subst. injection Ha as <-. exists p. split; [exact E|]. split.
    + rewrite Hrole. vm_compute. reflexivity.
    + rewrite (proj1 (Hassume _ eq_refl)). vm_compute. reflexivity.
Defined.

(** *** Pipelines *)

Definition ex_two_pipelines : ForwarderContext := ctx_set_Forwarder ex_context {|
  clf_Meta := clf_Meta ex_forwarder;
  clf_Spec := {|
    spec_ManagementState := ManagementStateManaged; spec_Collector := None;
    spec_Inputs := [InputSpec_zero]; spec_Outputs := [ex_output]; spec_Filters := [];
    spec_Pipelines :=
      [ {| pipe_Name := "bad"; pipe_InputRefs := ["lost"]; pipe_OutputRefs := ["out"]; pipe_FilterRefs := [] |};
        {| pipe_Name := "good"; pipe_InputRefs := []; pipe_OutputRefs := ["out"]; pipe_FilterRefs := [] |} ];
    spec_ServiceAccount := {| sa_Name := "sa" |} |};
  clf_Status := ClusterLogForwarderStatus_zero |}.

(** The second pipeline is acceptable and reported as invalid. *)
Theorem Validate_taints_later_pipelines_witness :
  ∃ p cs v, spec_Pipelines (ctx_Spec ex_two_pipelines) !! 1%nat = Some p ∧
    ValidatePipelines.pipeline_ok (ctx_Spec ex_two_pipelines) p ∧
    view cs !! prefixed ConditionTypeValidPipelinePrefix (pipe_Name p) = Some v ∧
    v_Status v ≠ ConditionTrue.
Proof.
  eexists _. destruct (ValidatePipelines.Validate_taints_later_pipelines 7 ex_two_pipelines 1%nat
    {| pipe_Name := "good"; pipe_InputRefs := []; pipe_OutputRefs := ["out"]; pipe_FilterRefs := [] |})
    as (cs & v & _ & _ & Hv & Hst).
  - by apply Forall_nil_2.
  - apply NoDup_cons. split; [|apply NoDup_singleton]. by intros [=]%list_elem_of_singleton.
  - apply NoDup_nil_2.
  - reflexivity.
  - exists cs, v. split; [reflexivity|]. split; [|split; [exact Hv|]].
    + constructor; cbn; try by intros ? ?%not_elem_of_nil.
      * intros r ->%list_elem_of_singleton. by apply list_elem_of_singleton.
      * by intros ? ? ? ? _ ?%not_elem_of_nil.
    + intros Htrue. apply proj1 in Hst. destruct (Hst Htrue 0%nat _ ltac:(lia) eq_refl) as [Hin _ _ _].
      specialize (Hin "lost" (list_elem_of_here _ _)). cbn in Hin.
      apply list_elem_of_singleton in Hin. discriminate.
Defined.

(** *** Inputs and hashes *)

Definition ex_infrastructure : InputSpec := {|
  in_Name := "i"; in_Type := InputTypeInfrastructure; in_Application := None;
  in_Infrastructure := Some {| infra_Sources := ["node"];
    infra_Tuning := Some {| iitune_Container := None |} |};
  in_Audit := None; in_Receiver := None |}.

Theorem MaxRecordsPerSecond_correct_witness : returnsb (MaxRecordsPerSecond ex_infrastructure) = false.
Proof.
  apply not_true_is_false. intros Hr%returnsb_true.
  destruct (proj1 (proj2 (proj2 (MaxRecordsPerSecond_correct ex_infrastructure))) Hr) as [[? [=]]|Ht].
  destruct (Ht _ eq_refl) as [? [=]].
Defined.

Definition ex_secret_data (key value : string) : Secret := {|
  secret_Name := "s"; secret_Data := <[key := value]> {["user" := "u"]} |}.

(** Two secrets with other contents and the same hash, next to a third. *)
Theorem Hash64a_correct_witness :
  let others : Secrets := {["t" := ex_secret_data "k" "v"]} in
  ex_secret_data "passwo" "rd" ≠ ex_secret_data "pass" "word" ∧
  @Secrets_Hash64a canonical_order (<["s" := ex_secret_data "passwo" "rd"]> others) =
    @Secrets_Hash64a reversed_order (<["s" := ex_secret_data "pass" "word"]> others).
Proof.
  cbv zeta. split; [by intros [=]|]. destruct Hash64a_correct as (_ & _ & _ & Hmoved).
  destruct (Hmoved canonical_order reversed_order "pass" "wo" "rd" {["user" := "u"]}) as [Hs _].
  - reflexivity.
  - reflexivity.
  - intros k' [v [<- _]%lookup_singleton_Some]. by split; intros Hle; exfalso; revert Hle; apply (bool_decide_unpack _); vm_compute.
  - apply Hs; reflexivity.
Defined.
