(* ===== verification/EndToEndExamples.v ===== *)
(** * A small forwarder from its store to its collector

    The forwarder of [Examples] on a cluster whose server is the one of
    [CollectorExamples]. *)

From S2P Require Import Prelude GoStrings GoTime ApiCommon ApiInputs ApiFilters ApiOutputs ApiForwarder Sets Conditions.
From S2P Require Import ObsResources ObsInputs ObsOutputs ObsForwarder Initialize ValidateCommon ValidateOutputs.
From S2P Require Import Validate Reconcile AwsAuth VrlText Transforms Tls SourcesSpec SinkTypes OutputCommon OutputsSpec LokiStackSpec Network.
From S2P Require Import Regex Template Config ConfigSpec ConfigExamples InputServices Md5 Workload WorkloadSpec Cluster ReconcileObjects ReconcileObjectsSpec.
From S2P Require Import ClusterProgress CollectorObjects CollectorProgress CollectorSpec CollectorExamples EndToEnd Examples.

#[local] Existing Instances canonical_order example_openshift example_host example_server example_floats.

(** The service account of the example is in the cluster, and no other. *)
Definition small_world : world := {|
  w_objects := {[key_of KServiceAccount "ns" "sa" := OServiceAccount
    {| sao_UID := "1"; sao_Annotations := ∅; sao_Owners := []; sao_Finalizers := [] |}]};
  w_clock := 0; w_log := []; w_dropCaps := RequiredDropCapabilities |}.

Definition small_url : string → option URL := parse_url (ex_cluster true).

Definition small_collector (c : ForwarderContext) : outcome (world * (unit + api_error)) :=
  ReconcileCollector small_url (λ _, None) (λ _, inl "config") example_parse (λ _, "") [] elements elements None None 1 c
    example_owner small_world.

Definition small_cluster : cluster := {|
  GetForwarder := GetForwarder (ex_cluster true);
  GetSecret := GetSecret (ex_cluster true);
  GetConfigMap := GetConfigMap (ex_cluster true);
  GetServiceAccount := λ sa ns, if (sa == "sa") && (ns == "ns") then inl tt
    else inr {| err_NotFound := true; err_Message := "not found" |};
  CreateReview := CreateReview (ex_cluster true);
  GetWorkload := GetWorkload (ex_cluster true);
  RemoveWorkload := RemoveWorkload (ex_cluster true);
  RemoveClusterRoleBinding := RemoveClusterRoleBinding (ex_cluster true);
  HostedVersion := HostedVersion (ex_cluster true);
  Deploy := λ c, match small_collector c with Ret (_, inr e) => Some (ae_Message e) | _ => None end;
  ParseQuantity := ParseQuantity (ex_cluster true);
  regexp_compiles := regexp_compiles (ex_cluster true);
  parse_url := small_url;
  json_Unmarshal := json_Unmarshal (ex_cluster true);
|}.

Lemma small_stored_ok : stored_ok small_cluster ex_forwarder.
Proof. destruct (ex_stored_ok true) as [Ha Ho Hs Hd]. exact (Build_stored_ok small_cluster ex_forwarder Ha Ho Hs Hd). Qed.

Lemma small_initialized :
  Reconcile.initialize small_cluster ex_stale_context = Ret (ex_valid_context, None).
Proof. vm_compute. reflexivity. Qed.

Lemma small_valid : snd <$> validateForwarder small_cluster 7 ex_valid_context = Ret true.
Proof. vm_compute. reflexivity. Qed.

(** The input the initialization adds for the reserved name. *)
Definition small_input : InputSpec := {|
  in_Name := InputTypeApplication; in_Type := InputTypeApplication;
  in_Application := Some {| app_Selector := None; app_Tuning := None; app_Includes := []; app_Excludes := [] |};
  in_Infrastructure := None; in_Audit := None; in_Receiver := None |}.

Lemma small_spec :
  let spec := ctx_Spec ex_valid_context in
  spec_Inputs spec = [small_input] ∧ spec_Outputs spec = [ex_output] ∧ spec_Pipelines spec = [ex_pipeline] ∧
  spec_Collector spec ⇀ coll_NetworkPolicy = None.
Proof. vm_compute. done. Qed.

#[local] Opaque Reconcile.initialize validateForwarder small_collector ex_valid_context.

Lemma small_ok :
  forwarder_ok (GetServiceAccount small_cluster) (CreateReview small_cluster) (regexp_compiles small_cluster)
    (parse_url small_cluster) (json_Unmarshal small_cluster) ex_valid_context.
Proof.
  destruct (initialize_ready small_cluster ex_stale_context ex_forwarder eq_refl small_stored_ok) as (c & err & Hi & _ & _ & Hr).
  rewrite small_initialized in Hi. apply Ret_pair_inv in Hi as [<- <-].
  destruct (validateForwarder_spec small_cluster 7 _ (Hr eq_refl)) as (c' & b & Hv & _ & Hb & _).
  pose proof small_valid as Hv'. rewrite Hv in Hv'. cbn [fmap outcome_fmap snd] in Hv'.
  assert (b = true) as -> by congruence. exact (proj1 Hb eq_refl).
Qed.

Lemma small_unseen : unseen small_cluster (λ _, "") [] (ctx_Spec ex_valid_context).
Proof.
  destruct small_spec as (Ei & Eo & Ep & Ec). split; rewrite ?Ei, ?Eo, ?Ep, ?Ec.
  - intros i r ->%list_elem_of_singleton E. discriminate E.
  - intros i ->%list_elem_of_singleton. by eexists.
  - by intros o ->%list_elem_of_singleton.
  - exists ex_pipeline. split; [by apply list_elem_of_singleton|]. split; discriminate.
  - split; rewrite ?Eo.
    + intros o k ->%list_elem_of_singleton E. discriminate E.
    + intros o s ->%list_elem_of_singleton E. discriminate E.
    + intros o ls ->%list_elem_of_singleton E. discriminate E.
    + by apply all_apart.
  - intros o ->%list_elem_of_singleton a r E. discriminate E.
  - intros policy E. discriminate E.
Qed.

Lemma small_serves :
  serves small_cluster (λ _, None) (λ _, inl "config") example_parse (λ _, "") [] elements elements None None 1
    example_owner small_world.
Proof.
  split.
  - intros k o. cbn [small_world w_objects]. by intros [<- <-]%lookup_singleton_Some.
  - intros ns sa. cbn [small_cluster GetServiceAccount]. destruct (String.eqb_spec sa "sa") as [->|]; [|done].
    destruct (String.eqb_spec ns "ns") as [->|]; [|done]. intros _. eexists. apply lookup_singleton_eq.
  - intros config. by exists "config".
  - intros c w' e E. change (small_collector c = Ret (w', e)) in E. cbn [small_cluster Deploy]. rewrite E. by destruct e.
Qed.

Theorem Reconcile_collects_witness :
  ∃ r g v w' f c, Reconcile small_cluster 7 ex_context "ns" "fwd" = Ret r ∧ final_status r g ∧
    view (st_Conditions (clf_Status g)) !! ConditionTypeReady = Some v ∧ v_Status v = ConditionTrue ∧
    small_collector c = Ret (w', inl tt) ∧
    deployed small_url (λ _, None) (λ _, inl "config") example_parse (λ _, "") [] None c example_owner f w'.
Proof.
  destruct (Reconcile_collects small_cluster 7 (λ _, None) (λ _, inl "config") example_parse (λ _, "") [] elements elements
    None None 1 example_owner ex_context "ns" "fwd" ex_forwarder ex_valid_context small_world eq_refl small_stored_ok eq_refl
    ltac:(discriminate) small_initialized) as (r & g & Hr & Hg & Hc & _).
  destruct (Hc small_ok eq_refl small_unseen small_serves) as (st & w' & e & v & E & _ & _ & Hv & Ht & _ & _ & Hd & Hs).
  assert (e = inl tt) as -> by (apply Hs; intros n k x; reflexivity).
  destruct (Hd eq_refl) as (f & Hf & _). exists r, g, v, w', f, (ctx_set_Status ex_valid_context st).
  exact (conj Hr (conj Hg (conj Hv (conj (proj2 Ht eq_refl) (conj E Hf))))).
Defined.
